(* ===== verification/_CoqProject ===== *)
-Q . S2P
Prelude.v
Text.v
Kinds.v
Logger.v
Config.v
LineFramer.v
NetTypes.v
EventQueue.v
HttpCodec.v
TlsContext.v
WorkerContext.v
World.v
ConnectionState.v
SendQueue.v
TcpConnection.v
WebSocketConnection.v
HttpConnection.v
Udp.v
TransportService.v
Configuration.v
ListenerOpen.v
TransportHost.v
TransportInvariant.v
TransportSteps.v
TransportSafety.v
TransportHistory.v
TransportProperties.v
TransportFailures.v
TransportBehaviour.v
ServerHost.v
Abi.v
SdkNetwork.v
SqlTypes.v
SqlService.v
SqlProperties.v
SqliteDriver.v
SqliteOpen.v
SqliteProperties.v
SqlAbi.v
SqlStack.v
SdkSql.v
SdkSqlProperties.v
RedisService.v
RedisProperties.v
RedisConnection.v
RedisReplies.v
RedisAbi.v
Port.v
RuntimeHub.v
ThreadedClient.v
RuntimeServer.v
RuntimeInvariant.v
RuntimeSteps.v
RuntimeProperties.v
ServerSockets.v
GnsOptions.v
GnsEndpoint.v
GnsRuntime.v
GnsInvariant.v
GnsLedger.v
GnsProperties.v
GnsKept.v
SdkDatagram.v
SdkDatagramProperties.v
IocpServer.v
IocpInvariant.v
IocpSteps.v
IocpLifecycle.v
IocpWorkers.v
IocpProperties.v
EchoServer.v
EchoProperties.v
EchoStartup.v
WebServer.v
WebProperties.v
WebSetup.v
GameServer.v
GameProperties.v
GameClient.v
DatagramDemo.v
