(* ===== verification/Prelude.v ===== *)
(** * ServerEngine: a verification development

    ServerEngine is a C++17 engine for network services: a worker-driven transport
    (TCP frames, WebSocket, HTTP, UDP) behind a host with an event queue, a C ABI
    over it, a datagram transport, independent SQL and Redis services, and an older text-line runtime over
    blocking sockets. This library models the code under
    [src/src] and [src/include/ServerEngine] and proves what makes it correct. Each
    definition that models code names the file and lines it translates in the
    comment before it; theorems that state a property of the program carry an
    identifier C<n>, most important first.

    ** Parts and files

    Foundations
    - [Prelude]: machine words, bytes, totals over lists and finite maps, the
      [result] monad of failing computations, runs and steps, tactics.
    - [Text], [Kinds], [Logger], [Config]: [Core/] and the enumerations of [Net/] and
      [Security/]: trimming, decimal numbers, parse/print (class [NamedEnum]), the
      INI reader, the logger, the constant-time comparison.
    - [LineFramer]: [Net/Detail/LineFramer.h].
    - [NetTypes]: the structs of [Net/TransportService.h] and the status codes.

    The transport ([Net/Async/])
    - [WorkerContext]: the registry of live sessions, identifier allocation, the
      callbacks to the host.
    - [World]: the objects of the worker: every connection with the state of its
      class, and the listeners. A shared pointer is the session identifier under
      which the object is stored; an object that closed stays, so that late
      completions find it.
    - [ConnectionState], [SendQueue], [TcpConnection], [WebSocketConnection],
      [HttpConnection], [Udp]: one file per class; each completion handler is a
      function on the world, its error and success outcomes its arguments.
    - [TransportService]: validation, accept, commands, start and stop; its [Event]
      lists every completion, [Operation] adds the public calls.
    - [HttpCodec]: the HTTP event payload and the response validation.
    - [TlsContext]: how a listener's TLS context is made, over the class [OpenSsl].
    - [Configuration]: which configurations start accepts.
    - [ListenerOpen]: the sockets a start opens and a failed start closes, call by call;
      it refines the outcome of opening a listener that [TransportService] takes as given.
    - [TransportHost], [TransportInvariant], [TransportSteps], [TransportSafety],
      [TransportHistory]: the proofs. [TransportHost] proves, once for every handler,
      that it changes the host only through callbacks (class [PreservedBy]), so any
      invariant of the host's own state is kept by the transport. The others take
      as host a log of callbacks and prove the world's invariant by induction over
      histories of operations.
    - [TransportProperties], [TransportBehaviour]: the theorems. [TransportFailures]: start
      and stop when a thread, a command or a listener fails, the emergency path included.

    The host and the C ABI ([Runtime/Host/], [Abi/])
    - [EventQueue]: the bounded queue with its overflow and retry protocol.
    - [ServerHost]: life cycle and the callbacks that feed the queue; the queue is
      the host state of the transport model, so the two are one state.
    - [Abi]: option decoding, the handle registry, the entry points.

    The SQL service ([Data/Sql/], [Abi/Sql.cpp])
    - [SqlTypes]: options and the admission copy. [SqlService]: the service, over the
      class [Driver] with its laws. [SqlProperties]: its invariant and theorems.
    - [SqliteDriver]: the driver over the class [Sqlite]; [SqliteProperties]: its
      theorems, from SQLite's documented behaviour ([SqliteLaws]).
    - [SqliteOpen]: the settings of a connection that is opened, over [SqliteSetup].
    - [SqlAbi]: registry and entry points. [SqlStack]: service and driver together.

    The Redis service ([Data/Redis/], [Abi/Redis.cpp])
    - [RedisService]: the service, over the class [Connection] with its laws;
      [RedisProperties]: its invariant and theorems. [RedisConnection]: the connection
      over the class [Hiredis]; [RedisReplies]: what it sends and accepts, and that it
      obeys the laws the service relies on. [RedisAbi]: registry and entry points.

    The completion-port backend ([Net/Iocp/])
    - [IocpServer]: a thread is a stack of frames and a step runs the top frame of one of
      them, so callbacks, operations at Windows and the stop interleave freely.
      [IocpInvariant], [IocpSteps]: every obligation to a connection is counted and each
      step keeps the counts; [IocpLifecycle]: start, stop and its stages; [IocpWorkers]:
      a stop has bounded work and never deadlocks; [IocpProperties]:
      the order of callbacks, one operation of a kind in flight, nothing left after a stop,
      and that it ends.

    The datagram transport ([Net/Transports/Gns/], [Abi/DatagramTransport.cpp])
    - [GnsOptions]: options, their validation, addresses. [GnsEndpoint]: peers, events and
      callbacks of an endpoint, over what the vendor library answers. [GnsRuntime]: the
      registry, the pump and the entry points. [GnsInvariant], [GnsLedger]: what each
      operation keeps; [GnsKept]: what only taking an event can change; [GnsProperties]: the
      theorems.

    The text-line runtime ([Port/], [Runtime/], [Net/Threaded/])
    - [Port]: the portability layer: what the predefined macros select, the executable path,
      clock readings, socket validity.
    - [RuntimeHub]: the live sessions and their admission. [ThreadedClient]: the send
      loop and the socket set-up. [RuntimeServer]: the life cycle, the listeners, and a
      thread per listener and per client, as one step relation; a handler is a finite
      script. [RuntimeInvariant], [RuntimeSteps]: what holds between any two steps and
      that every step keeps it. [RuntimeProperties]: the theorems.
    - [ServerSockets]: the sockets of the runtime, call by call, over the class [Kernel] of
      what the system answers, those of the clients with them; the interface [ITcpServer]
      as a class with its laws, both backends as instances, the runtime's start and stop against the interface.

    The C++ layer ([include/ServerEngine/Cpp/])
    - [SdkNetwork]: the calls that throw and the poll that grows its buffer, over [Abi].
    - [SdkSql]: the objects that share a service and hold its results, over [SqlAbi].
      [SdkSqlProperties]: what they own, and that they read it whole.
    - [SdkDatagram]: the objects that own datagram endpoints, over [GnsRuntime].
      [SdkDatagramProperties]: each endpoint has one owner, and a poll takes an event whole.

    The sample applications ([examples/])
    - [EchoServer]: settings and handler of the echo server, run on the text-line runtime.
      [EchoProperties]: its theorems, from what every step does to the hub and to a script.
      [EchoStartup]: what its startup writes to the log.
    - [WebServer]: routes, signalling room and profiles of the web server over the C
      interface, the engine's and the database's answers given. [WebProperties]: theorems.
      [WebSetup]: how it comes up, over the C++ layer.
    - [GameServer]: set-up, players and store of the game server. [GameProperties]: the
      order of what it tells the database.
    - [GameClient]: the console client: arguments, frames, the loop of commands, replies.
    - [DatagramDemo]: server and client of the datagram demonstration, loops over
      [SdkDatagram]; the snapshots only go forward.

    ** What the theorems show

    - Transport: the callbacks of a session form one word (open, deliveries, close)
      in every history; stop ends every session; the number of sessions and every
      send queue are bounded and exactly accounted; what is published as an HTTP
      request decodes; a request is answered at most once; TCP framing round
      trips; a TLS context is strict or not made; start opens every listener or none; what fails under
      it leaves it whole or given up for good; stale timers do nothing; closing a UDP listener releases its peers.
    - Host: the queue is first-in first-out, bounded in events and bytes, fails
      terminally on overflow, and a poll with too small a buffer loses nothing; the
      host's invariant holds in every history, and stopping is terminal.
    - Data: the codec and the framer are exact on every input, whatever the
      chunking; accepted responses are safe to serialise; the configuration reader
      reads back what is written; start accepts exactly the valid configurations.
    - ABI: destroyed handles are never revived or reused, errors agree with
      statuses, options that decode are accepted by the transport's validation.
    - SQL: requests execute and are delivered once each in submission order, within
      the memory budget; stop terminates; outcomes are kept until released; a
      request is one atomic transaction and never leaves one open; results are
      bounded, rectangular and readable; reading rows terminates.
    - Redis: a request is sent at most once, completed once and delivered in order,
      within the memory budget; stop settles every request; replies are bounded.
    - Datagram transport: the events of a peer tell its life; the queue is bounded and
      accounted; stopping is terminal and an overflow is reported once; whatever the
      vendor library hands out is given back once; validated options convert exactly.
    - Runtime: at any interleaving, the handler is told of a session one start, then
      its messages, then at most one stop; sessions are exactly those of the
      connections and within the limit; the messages are the lines received, in order;
      when stop has returned nothing is left; start opens every socket or none, over
      either backend, and a stop closes exactly the listeners' and the clients'; a send
      is exact or reports failure.
    - C++ layer: a result is held by one object and given back once, a service lives while
      it is shared, a cell is read whole, a poll takes an event whole.
    - Applications: the echo server answers only those who gave its token; the web server
      answers each request once, keeps a call between its two peers, writes JSON that
      reads back, and comes up whole or not at all; the echo server's startup log does not
      depend on its secrets; the game server counts and saves each message of a session in order; what the
      game client sends the engine's framing reads back, and the replies the client.

    ** Modelling choices

    - Integers are [Z] with the wrap of their width ([u32], [u64]) where the source
      computes in that width. A double is its 64-bit pattern.
    - Concurrency: the transport runs on one worker thread and calls from other
      threads are posted to it, so its steps are atomic; the event queue, the SQL and
      Redis services and the session hub take a lock, and each locked block is one
      step, as is each of the SQL worker's unlocked look at its stop flag and its call
      of the driver; the runtime's threads are cut at every access to shared state. Theorems
      quantify over every sequence of steps.
    - Third-party code is a parameter: Boost.Asio and Beast through the outcomes of
      completions, [boost::beast::iequals] as a function, binding as the
      outcome of [open_listener], OpenSSL, SQLite and hiredis as classes, the
      answers of GameNetworkingSockets as arguments of the operations. Whether an
      allocation succeeds is a parameter where the source handles its failure.
    - Fuel: [close_connections] runs as often as there are connections, [join] four
      turns per request and one more, [row_loop] two more than the row limit; each
      is shown to suffice ([stop_ends_every_session], [sql_stop_terminates],
      [row_loop_fuel]).

    ** Not modelled

    The overlapped calls of the completion-port backend but for their outcome, the
    main functions of the sample servers and the Redis sample; in the transport, failures of asio
    initiation functions in the handlers. UDP expiry visits
    peers in the map's key order, which the source leaves unspecified. *)
From Stdlib Require Export Strings.Byte.
From stdpp Require Export prelude gmap strings list fin_maps.
#[global] Open Scope Z_scope.
#[global] Open Scope bool_scope.

(** * Machine words *)
Definition u8 (z : Z) : Z := z mod 2 ^ 8.
Definition u16 (z : Z) : Z := z mod 2 ^ 16.
Definition u32 (z : Z) : Z := z mod 2 ^ 32.
Definition u64 (z : Z) : Z := z mod 2 ^ 64.

Definition is_u16 (z : Z) : Prop := 0 ≤ z < 2 ^ 16.
Definition is_u32 (z : Z) : Prop := 0 ≤ z < 2 ^ 32.
Definition is_u64 (z : Z) : Prop := 0 ≤ z < 2 ^ 64.
Definition is_i64 (z : Z) : Prop := - 2 ^ 63 ≤ z < 2 ^ 63.

Lemma u32_small z : is_u32 z → u32 z = z.
Proof. apply Z.mod_small. Qed.
Lemma u64_small z : is_u64 z → u64 z = z.
Proof. apply Z.mod_small. Qed.
Lemma u64_range z : is_u64 (u64 z).
Proof. apply Z.mod_pos_bound; lia. Qed.
Lemma u32_range z : is_u32 (u32 z).
Proof. apply Z.mod_pos_bound; lia. Qed.

(** * Bytes *)
Abbreviation bytes := (list byte).

#[global] Instance byte_eq_dec : EqDecision byte := Byte.byte_eq_dec.

Definition byte_Z (b : byte) : Z := Z.of_N (Byte.to_N b).
Definition Z_byte (z : Z) : byte :=
  match Byte.of_N (Z.to_N (u8 z)) with Some b => b | None => x00 end.

Lemma byte_Z_range b : 0 ≤ byte_Z b < 256.
Proof. unfold byte_Z. pose proof (Byte.to_N_bounded b). lia. Qed.

Lemma Z_byte_byte_Z b : Z_byte (byte_Z b) = b.
Proof.
  unfold Z_byte, u8. rewrite Z.mod_small by apply byte_Z_range.
  unfold byte_Z. by rewrite N2Z.id, Byte.of_to_N.
Qed.

Lemma byte_Z_Z_byte z : byte_Z (Z_byte z) = u8 z.
Proof.
  unfold Z_byte, byte_Z. pose proof (Z.mod_pos_bound z (2 ^ 8)) as Hb.
  fold (u8 z) in Hb.
  destruct (Byte.of_N (Z.to_N (u8 z))) as [b|] eqn:E.
  - apply Byte.to_of_N in E. rewrite E. lia.
  - apply Byte.of_N_None_iff in E. lia.
Qed.

#[global] Instance byte_countable : Countable byte.
Proof.
  refine (inj_countable' byte_Z Z_byte _). apply Z_byte_byte_Z.
Defined.

(** Linear arithmetic with division and remainder by constants. *)
Ltac dlia := Z.to_euclidean_division_equations; lia.

(** A little-endian or big-endian integer is a list of four bytes. *)
Definition le32 (v : Z) : bytes :=
  [Z_byte v; Z_byte (Z.shiftr v 8); Z_byte (Z.shiftr v 16); Z_byte (Z.shiftr v 24)].
Definition be32 (v : Z) : bytes :=
  [Z_byte (Z.shiftr v 24); Z_byte (Z.shiftr v 16); Z_byte (Z.shiftr v 8); Z_byte v].
Definition join32 (b0 b1 b2 b3 : byte) : Z :=
  Z.lor (Z.lor (Z.lor (byte_Z b0) (Z.shiftl (byte_Z b1) 8))
    (Z.shiftl (byte_Z b2) 16)) (Z.shiftl (byte_Z b3) 24).

Lemma lor_shift_add a b n : 0 ≤ n → 0 ≤ a < 2 ^ n → Z.lor a (Z.shiftl b n) = a + b * 2 ^ n.
Proof.
  intros Hn Ha. rewrite Z.shiftl_mul_pow2 by done.
  symmetry. rewrite Z.add_nocarry_lxor, Z.lxor_lor; [done|..];
  apply Z.bits_inj'; intros i Hi; rewrite Z.land_spec, Z.bits_0;
  destruct (decide (i < n)).
  1,3: rewrite (Z.mul_pow2_bits_low b n i) by lia; apply andb_false_r.
  all: replace a with (a mod 2 ^ n) by (by apply Z.mod_small);
    rewrite Z.mod_pow2_bits_high by lia; done.
Qed.

Lemma join32_add b0 b1 b2 b3 :
  join32 b0 b1 b2 b3
  = byte_Z b0 + byte_Z b1 * 2 ^ 8 + byte_Z b2 * 2 ^ 16 + byte_Z b3 * 2 ^ 24.
Proof.
  pose proof (byte_Z_range b0). pose proof (byte_Z_range b1).
  pose proof (byte_Z_range b2). pose proof (byte_Z_range b3).
  unfold join32. rewrite (lor_shift_add (byte_Z b0)) by lia.
  rewrite (lor_shift_add _ (byte_Z b2)) by lia. rewrite lor_shift_add by lia. done.
Qed.

Lemma join32_range b0 b1 b2 b3 : is_u32 (join32 b0 b1 b2 b3).
Proof.
  rewrite join32_add. pose proof (byte_Z_range b0). pose proof (byte_Z_range b1).
  pose proof (byte_Z_range b2). pose proof (byte_Z_range b3). unfold is_u32. lia.
Qed.

Lemma split32 v : is_u32 v →
  u8 v + u8 (Z.shiftr v 8) * 2 ^ 8 + u8 (Z.shiftr v 16) * 2 ^ 16
  + u8 (Z.shiftr v 24) * 2 ^ 24 = v.
Proof.
  unfold is_u32, u8. intros. rewrite !Z.shiftr_div_pow2 by lia.
  change (2 ^ 8) with 256 in *. change (2 ^ 16) with 65536 in *.
  change (2 ^ 24) with 16777216 in *. change (2 ^ 32) with 4294967296 in *. dlia.
Qed.

Lemma join32_le v : is_u32 v →
  join32 (Z_byte v) (Z_byte (Z.shiftr v 8)) (Z_byte (Z.shiftr v 16)) (Z_byte (Z.shiftr v 24)) = v.
Proof. intros Hv. rewrite join32_add, !byte_Z_Z_byte. by apply split32. Qed.

(** * Lists, lengths and totals *)
Definition zlen {A} (l : list A) : Z := Z.of_nat (length l).

Lemma zlen_nil {A} : zlen (@nil A) = 0.
Proof. done. Qed.
Lemma zlen_cons {A} (x : A) l : zlen (x :: l) = 1 + zlen l.
Proof. unfold zlen. simpl. lia. Qed.
Lemma zlen_app {A} (l k : list A) : zlen (l ++ k) = zlen l + zlen k.
Proof. unfold zlen. rewrite length_app. lia. Qed.
Lemma zlen_nonneg {A} (l : list A) : 0 ≤ zlen l.
Proof. unfold zlen. lia. Qed.
Lemma zlen_zero {A} (l : list A) : zlen l = 0 → l = [].
Proof. destruct l; [done|]. rewrite zlen_cons. pose proof (zlen_nonneg l). lia. Qed.
Lemma zlen_take {A} n (l : list A) : 0 ≤ n ≤ zlen l → zlen (take (Z.to_nat n) l) = n.
Proof. unfold zlen. rewrite length_take. lia. Qed.

Create Rewrite HintDb zlen.
#[export] Hint Rewrite @zlen_nil @zlen_cons @zlen_app : zlen.

(** Sum of a measure over a list: the accounting invariants of every queue. *)
Definition total {A} (f : A → Z) (l : list A) : Z := foldr (λ x acc, f x + acc) 0 l.

Lemma total_nil {A} (f : A → Z) : total f [] = 0.
Proof. done. Qed.
Lemma total_cons {A} (f : A → Z) x l : total f (x :: l) = f x + total f l.
Proof. done. Qed.
Lemma total_app {A} (f : A → Z) l k : total f (l ++ k) = total f l + total f k.
Proof. induction l as [|x l IH]; simpl; [done|]. rewrite IH. lia. Qed.
Lemma total_nonneg {A} (f : A → Z) l : (∀ x, 0 ≤ f x) → 0 ≤ total f l.
Proof. intros Hf. induction l as [|x l IH]; simpl; [done|]. specialize (Hf x). lia. Qed.
Lemma total_fmap {A B} (f : B → A) (g : A → Z) (h : B → Z) l :
  Forall (λ x, g (f x) = h x) l → total g (f <$> l) = total h l.
Proof. induction 1 as [|x l Hx _ IH]; [done|]. rewrite fmap_cons, !total_cons. lia. Qed.
#[export] Hint Rewrite @total_nil @total_cons @total_app : zlen.

(** The same over the values of a finite map. *)
Definition map_total {A} (f : A → Z) (m : gmap Z A) : Z :=
  map_fold (λ _ x acc, f x + acc) 0 m.

Section map_total.
Context {A : Type} (f : A → Z).

Lemma map_total_empty : map_total f ∅ = 0.
Proof. apply map_fold_empty. Qed.

Lemma map_total_insert m k x :
  m !! k = None → map_total f (<[k := x]> m) = f x + map_total f m.
Proof. intros Hk. unfold map_total. rewrite map_fold_insert_L; [done|lia|done]. Qed.

Lemma map_total_delete m k x :
  m !! k = Some x → map_total f (delete k m) = map_total f m - f x.
Proof.
  intros Hk. rewrite <- (insert_delete_id m k x Hk) at 2.
  rewrite map_total_insert by apply lookup_delete_eq. lia.
Qed.

Lemma map_total_update m k x y :
  m !! k = Some x → map_total f (<[k := y]> m) = map_total f m - f x + f y.
Proof.
  intros Hk. rewrite <- (insert_delete_eq m k y).
  rewrite map_total_insert by apply lookup_delete_eq.
  rewrite (map_total_delete m k x Hk). lia.
Qed.

Lemma map_total_nonneg m : (∀ x, 0 ≤ f x) → 0 ≤ map_total f m.
Proof.
  intros Hf. induction m as [|k x m Hk IH] using map_ind.
  - by rewrite map_total_empty.
  - rewrite map_total_insert by done. specialize (Hf x). lia.
Qed.

Lemma map_total_le m k x : (∀ y, 0 ≤ f y) → m !! k = Some x → f x ≤ map_total f m.
Proof.
  intros Hf Hk. pose proof (map_total_nonneg (delete k m) Hf).
  rewrite (map_total_delete m k x Hk) in *. lia.
Qed.
End map_total.

Definition msize {A} (m : gmap Z A) : Z := Z.of_nat (size m).

Lemma msize_insert_new {A} (m : gmap Z A) k x :
  m !! k = None → msize (<[k := x]> m) = msize m + 1.
Proof. intros. unfold msize. rewrite map_size_insert_None by done. lia. Qed.
Lemma msize_insert_old {A} (m : gmap Z A) k x y :
  m !! k = Some y → msize (<[k := x]> m) = msize m.
Proof. intros. unfold msize. by rewrite map_size_insert_Some. Qed.
Lemma msize_delete {A} (m : gmap Z A) k x :
  m !! k = Some x → msize (delete k m) = msize m - 1.
Proof.
  intros Hk. rewrite <- (insert_delete_id m k x Hk) at 2.
  rewrite msize_insert_new by apply lookup_delete_eq. lia.
Qed.
Lemma msize_empty {A} : msize (∅ : gmap Z A) = 0.
Proof. unfold msize. by rewrite map_size_empty. Qed.
Lemma msize_nonneg {A} (m : gmap Z A) : 0 ≤ msize m.
Proof. unfold msize. lia. Qed.
Lemma msize_delete_le {A} (m : gmap Z A) k : msize (delete k m) ≤ msize m.
Proof.
  destruct (m !! k) as [x|] eqn:E.
  - rewrite (msize_delete m k x E). lia.
  - rewrite delete_id by done. lia.
Qed.

(** * Failing computations: thrown errors and error out-parameters *)
Inductive result (E A : Type) : Type :=
| Ok (a : A)
| Err (e : E).
Arguments Ok {E A} a.
Arguments Err {E A} e.

Definition rbind {E A B} (c : result E A) (k : A → result E B) : result E B :=
  match c with Ok a => k a | Err e => Err e end.
Definition rguard {E} (ok : bool) (e : E) : result E unit := if ok then Ok tt else Err e.

Declare Scope engine_scope.
Delimit Scope engine_scope with engine.
Notation "'let?' x := c 'in' k" := (rbind c (λ x, k))
  (at level 10, x name, c at level 100, k at level 200) : engine_scope.
Notation "'check?' b 'or' e 'in' k" := (rbind (rguard b e) (λ _, k))
  (at level 10, b at level 100, e at level 100, k at level 200) : engine_scope.
#[global] Open Scope engine_scope.

Lemma rbind_Ok {E A B} (c : result E A) (k : A → result E B) b :
  rbind c k = Ok b ↔ ∃ a, c = Ok a ∧ k a = Ok b.
Proof. destruct c; simpl; naive_solver. Qed.
Lemma rguard_Ok {E} ok (e : E) u : rguard ok e = Ok u ↔ ok = true ∧ u = tt.
Proof. destruct ok, u; simpl; naive_solver. Qed.

(** * Transition systems *)
Section Transitions.
Context {S E : Type} (step : S → E → S → Prop).

Inductive steps : S → list E → S → Prop :=
| steps_nil s : steps s [] s
| steps_cons s e s' es s'' : step s e s' → steps s' es s'' → steps s (e :: es) s''.

Lemma steps_invariant (I : S → Prop) :
  (∀ s e s', I s → step s e s' → I s') →
  ∀ s es s', steps s es s' → I s → I s'.
Proof. intros Hstep s es s' Hs. induction Hs; eauto. Qed.

Lemma steps_app s es s' es' s'' :
  steps s es s' → steps s' es' s'' → steps s (es ++ es') s''.
Proof. induction 1; simpl; eauto using steps. Qed.
End Transitions.
Create HintDb engine.
#[export] Hint Constructors steps : engine.

(** Deterministic runs: fold an operation alphabet over the state. *)
Definition runs {S O} (f : S → O → S) (s : S) (ops : list O) : S := foldl f s ops.

Lemma runs_invariant {S O} (f : S → O → S) (I : S → Prop) :
  (∀ s o, I s → I (f s o)) → ∀ ops s, I s → I (runs f s ops).
Proof. intros Hf ops. induction ops as [|o ops IH]; simpl; eauto. Qed.

Lemma runs_app {S O} (f : S → O → S) s ops ops' :
  runs f s (ops ++ ops') = runs f (runs f s ops) ops'.
Proof. apply foldl_app. Qed.

(** * Tactics *)

(** Turn the boolean tests in the context into propositions. *)
Ltac bprop :=
  repeat match goal with
  | H : (_ && _) = true |- _ =>
      let H1 := fresh "B" in let H2 := fresh "B" in rewrite andb_true_iff in H; destruct H as [H1 H2]
  | H : (_ && _) = false |- _ => apply andb_false_iff in H
  | H : (_ || _) = true |- _ => apply orb_true_iff in H
  | H : (_ || _) = false |- _ =>
      let H1 := fresh "B" in let H2 := fresh "B" in rewrite orb_false_iff in H; destruct H as [H1 H2]
  | H : negb _ = true |- _ => apply negb_true_iff in H
  | H : negb _ = false |- _ => apply negb_false_iff in H
  | H : (_ =? _) = true |- _ => apply Z.eqb_eq in H
  | H : (_ =? _) = false |- _ => apply Z.eqb_neq in H
  | H : (_ <? _) = true |- _ => apply Z.ltb_lt in H
  | H : (_ <? _) = false |- _ => apply Z.ltb_ge in H
  | H : (_ <=? _) = true |- _ => apply Z.leb_le in H
  | H : (_ <=? _) = false |- _ => apply Z.leb_gt in H
  | H : (_ >? _) = true |- _ => rewrite Z.gtb_ltb in H
  | H : (_ >? _) = false |- _ => rewrite Z.gtb_ltb in H
  | H : (_ >=? _) = true |- _ => rewrite Z.geb_leb in H
  | H : (_ >=? _) = false |- _ => rewrite Z.geb_leb in H
  | H : bool_decide _ = true |- _ => apply bool_decide_eq_true in H
  | H : bool_decide _ = false |- _ => apply bool_decide_eq_false in H
  end.

(** Case on the innermost test of the goal. *)
Ltac casematch :=
  match goal with
  | |- context [match ?x with _ => _ end] =>
      lazymatch x with
      | context [match _ with _ => _ end] => fail
      | _ => let E := fresh "E" in destruct x eqn:E
      end
  end.
Ltac casehyp :=
  match goal with
  | H : context [match ?x with _ => _ end] |- _ =>
      lazymatch x with
      | context [match _ with _ => _ end] => fail
      | _ => let E := fresh "E" in destruct x eqn:E
      end
  end.

(** Length and total bookkeeping followed by linear arithmetic. *)
Ltac zlens := autorewrite with zlen in *; try lia.
