(* ===== verification/Text.v ===== *)
(** Text: the character classification, trimming, case folding, numeric
    conversion and enumeration names that the engine's configuration layer
    shares ([src/src/Core/Config.cpp], [src/src/Core/Logger.cpp],
    [src/src/Net/TransportKind.cpp], [src/src/Net/TcpBackend.cpp],
    [src/src/Security/SecurityMode.cpp], [src/src/Net/Endpoint.cpp]).

    [std::string] and [std::string_view] are lists of bytes; [std::isspace] and
    [std::tolower] are those of the "C" locale, which the program never changes. *)
From S2P Require Import Prelude.

Definition txt (s : string) : bytes := String.list_byte_of_string s.
Arguments txt s%_string.

(** * <cctype> in the "C" locale *)
Definition isspace (b : byte) : bool :=
  match b with x20 | x09 | x0a | x0b | x0c | x0d => true | _ => false end.
Definition tolower (b : byte) : byte :=
  if (65 <=? byte_Z b) && (byte_Z b <=? 90) then Z_byte (byte_Z b + 32) else b.

Lemma tolower_idemp b : tolower (tolower b) = tolower b.
Proof. by destruct b. Qed.

(** * Trimming (Config.cpp) *)
Fixpoint drop_spaces (l : bytes) : bytes :=
  match l with b :: l' => if isspace b then drop_spaces l' else l | [] => [] end.
(** [src/src/Core/Config.cpp:13-24] *)
Definition trim_view (value : bytes) : bytes :=
  reverse (drop_spaces (reverse (drop_spaces value))).
(** [src/src/Core/Config.cpp:32-39] *)
Definition lowercase_copy (value : bytes) : bytes := tolower <$> value.

(** A text [trim_view] leaves alone: no white space at either end. *)
Definition trimmed (l : bytes) : bool :=
  match l with
  | [] => true
  | b :: _ => negb (isspace b) &&
      match last l with Some c => negb (isspace c) | None => true end
  end.

Lemma drop_spaces_head b l : isspace b = false → drop_spaces (b :: l) = b :: l.
Proof. intros Hb. simpl. by rewrite Hb. Qed.

Lemma drop_spaces_suffix l : drop_spaces l `suffix_of` l.
Proof.
  induction l as [|b l IH]; simpl; [done|]. destruct (isspace b); [|done].
  by apply suffix_cons_r.
Qed.

Lemma trimmed_fixed l : trimmed l = true → trim_view l = l.
Proof.
  unfold trim_view. destruct l as [|b l]; [done|]. intros Ht.
  unfold trimmed in Ht. bprop.
  rewrite drop_spaces_head by done.
  destruct (reverse (b :: l)) as [|c k] eqn:Er.
  { apply (f_equal length) in Er. rewrite length_reverse in Er. done. }
  assert (last (b :: l) = Some c) as Hlast.
  { rewrite <- (reverse_involutive (b :: l)), Er. by rewrite last_reverse. }
  rewrite Hlast in *. bprop. rewrite drop_spaces_head by done.
  by rewrite <- Er, reverse_involutive.
Qed.

Lemma drop_spaces_no_head l b k : drop_spaces l = b :: k → isspace b = false.
Proof.
  induction l as [|c l IH]; simpl; [done|]. destruct (isspace c) eqn:E; [done|].
  by intros [= -> _].
Qed.

Lemma drop_spaces_prefix_fixed l k : k `prefix_of` l → drop_spaces l = l → drop_spaces k = k.
Proof.
  intros [m ->] Hl. destruct k as [|b k]; [done|]. simpl in *.
  destruct (isspace b) eqn:E; [|done]. exfalso.
  pose proof (suffix_length _ _ (drop_spaces_suffix (k ++ m))) as Hle.
  rewrite Hl in Hle. simpl in Hle. lia.
Qed.

Lemma drop_spaces_fixed_again l : drop_spaces (drop_spaces l) = drop_spaces l.
Proof.
  destruct (drop_spaces l) as [|b k] eqn:E; [done|].
  apply drop_spaces_head. by eapply drop_spaces_no_head.
Qed.

Lemma trim_view_idemp l : trim_view (trim_view l) = trim_view l.
Proof.
  unfold trim_view. set (k := drop_spaces l).
  rewrite (drop_spaces_prefix_fixed k (reverse (drop_spaces (reverse k)))).
  - by rewrite reverse_involutive, drop_spaces_fixed_again.
  - destruct (drop_spaces_suffix (reverse k)) as [m Hm]. exists (reverse m).
    by rewrite <- reverse_app, <- Hm, reverse_involutive.
  - apply drop_spaces_fixed_again.
Qed.

Lemma lowercase_idemp l : lowercase_copy (lowercase_copy l) = lowercase_copy l.
Proof.
  unfold lowercase_copy. rewrite <- list_fmap_compose. apply list_fmap_ext.
  intros i b _. apply tolower_idemp.
Qed.

(** * Numbers: std::to_string and std::from_chars, base ten *)
Definition digit_byte (d : Z) : byte := Z_byte (48 + d).
Definition digit_val (b : byte) : option Z :=
  if (48 <=? byte_Z b) && (byte_Z b <=? 57) then Some (byte_Z b - 48) else None.

Fixpoint dec_go (fuel : nat) (n : Z) (acc : bytes) : bytes :=
  match fuel with
  | O => acc
  | S f => let acc' := digit_byte (n mod 10) :: acc in
      if n <? 10 then acc' else dec_go f (n / 10) acc'
  end.
(** Twenty digits hold every 64-bit value. *)
Definition dec (n : Z) : bytes := dec_go 20 n [].

(** The longest prefix of digits, its value, and the rest. *)
Fixpoint digits_go (acc : Z) (l : bytes) : Z * bytes :=
  match l with
  | b :: l' => match digit_val b with
      | Some d => digits_go (acc * 10 + d) l'
      | None => (acc, l)
      end
  | [] => (acc, [])
  end.
Definition unsigned_chars (l : bytes) : option (Z * bytes) :=
  match l with
  | b :: _ => match digit_val b with Some _ => Some (digits_go 0 l) | None => None end
  | [] => None
  end.
(** [std::from_chars] for a signed integer of the given range: an optional
    minus sign, then digits; a value out of range is an error. *)
Definition from_chars (lo hi : Z) (l : bytes) : option (Z * bytes) :=
  match (match l with
         | x2d :: l' => match unsigned_chars l' with
                        | Some (v, rest) => Some (- v, rest) | None => None end
         | _ => unsigned_chars l
         end) with
  | Some (v, rest) => if (lo <=? v) && (v <=? hi) then Some (v, rest) else None
  | None => None
  end.

Lemma digit_val_byte d : 0 ≤ d < 10 → digit_val (digit_byte d) = Some d.
Proof.
  intros Hd. unfold digit_val, digit_byte. rewrite byte_Z_Z_byte.
  unfold u8. rewrite Z.mod_small by lia.
  replace ((48 <=? 48 + d) && (48 + d <=? 57)) with true by lia. f_equal. lia.
Qed.

Lemma digits_go_dec fuel n acc a :
  0 ≤ n < 10 ^ Z.of_nat fuel →
  ∃ k, dec_go fuel n acc = k ++ acc ∧
       digits_go a (k ++ acc) = digits_go (a * 10 ^ zlen k + n) acc ∧
       (fuel ≠ 0%nat → ∃ d k', k = digit_byte d :: k' ∧ 0 ≤ d < 10).
Proof.
  revert n acc a. induction fuel as [|f IH]; intros n acc a Hn.
  { exists []. simpl in *. rewrite zlen_nil, Z.pow_0_r. split_and!; [done| |done].
    f_equal. lia. }
  rewrite Nat2Z.inj_succ, Z.pow_succ_r in Hn by lia. simpl.
  pose proof (Z.mod_pos_bound n 10 ltac:(lia)) as Hm.
  pose proof (Z.div_mod n 10 ltac:(lia)) as Hdm.
  destruct (n <? 10) eqn:E; bprop.
  - exists [digit_byte (n mod 10)]. split_and!; [done| |eauto].
    simpl. rewrite digit_val_byte by done. rewrite zlen_cons, zlen_nil, Z.pow_1_r.
    rewrite Z.mod_small by lia. done.
  - destruct (IH (n / 10) (digit_byte (n mod 10) :: acc) a) as (k & -> & Hk & Hd).
    { split; [apply Z.div_pos; lia|]. apply Z.div_lt_upper_bound; lia. }
    exists (k ++ [digit_byte (n mod 10)]). rewrite <- app_assoc. simpl.
    split_and!; [done| |].
    + rewrite Hk. simpl. rewrite digit_val_byte by done. f_equal.
      rewrite zlen_app, zlen_cons, zlen_nil, Z.add_0_r, Z.pow_add_r by (apply zlen_nonneg || lia).
      lia.
    + intros _. destruct f as [|f]; [simpl in *; lia|].
      destruct (Hd ltac:(done)) as (d & k' & -> & Hd'). simpl. eauto.
Qed.

Lemma unsigned_chars_dec n : 0 ≤ n < 10 ^ 20 → unsigned_chars (dec n) = Some (n, []).
Proof.
  intros Hn. destruct (digits_go_dec 20 n [] 0) as (k & Hk & Hg & Hd); [done|].
  unfold dec. rewrite Hk. destruct (Hd ltac:(done)) as (d & k' & -> & Hd').
  rewrite app_nil_r in *. cbn [unsigned_chars].
  rewrite (digit_val_byte d Hd'), Hg. by simpl.
Qed.

Lemma from_chars_dec lo hi n :
  0 ≤ n < 10 ^ 20 → lo ≤ n ≤ hi → from_chars lo hi (dec n) = Some (n, []).
Proof.
  intros Hn Hr. unfold from_chars.
  destruct (digits_go_dec 20 n [] 0) as (k & Hk & _ & Hd); [done|].
  pose proof (unsigned_chars_dec n Hn) as Hu.
  destruct (Hd ltac:(done)) as (d & k' & -> & Hd').
  unfold dec in *. rewrite Hk in *. simpl app in *.
  assert (digit_byte d ≠ x2d) as Hne.
  { intros E. apply digit_val_byte in Hd'. rewrite E in Hd'. by vm_compute in Hd'. }
  destruct (digit_byte d); try done; rewrite Hu;
    by replace ((lo <=? n) && (n <=? hi)) with true by lia.
Qed.

Lemma from_chars_range lo hi l v rest : from_chars lo hi l = Some (v, rest) → lo ≤ v ≤ hi.
Proof. unfold from_chars. intros H. repeat casehyp; simplify_eq; bprop; lia. Qed.
