(* ===== verification/Kinds.v ===== *)
(** Kinds: the enumerations the configuration names in text, and the endpoint
    printer ([src/include/ServerEngine/Core/Logger.h], [.../Net/TransportKind.h],
    [.../Net/TcpBackend.h], [.../Security/SecurityMode.h] and their [.cpp] files).
    The class [NamedEnum] is the contract the configuration reader relies on:
    what [to_string] prints, [parse] reads back, whatever its letter case. *)
From S2P Require Import Prelude.
From S2P Require Import Text.

Class NamedEnum (A : Type) := {
  enum_to_string : A → bytes;
  enum_parse : bytes → option A;
}.
Class NamedEnumLaws (A : Type) `{NamedEnum A} := {
  enum_roundtrip a : enum_parse (enum_to_string a) = Some a;
  enum_case_insensitive v : enum_parse (lowercase_copy v) = enum_parse v;
}.

(** [lowered == "..."] *)
Definition text_eqb (v : bytes) (s : string) : bool := bool_decide (v = txt s).
Arguments text_eqb v s%_string.

Module LogLevel.
(** [src/include/ServerEngine/Core/Logger.h:14-22] *)
Inductive LogLevel := Trace | Debug | Info | Warning | Error | Critical | Off.
#[global] Instance LogLevel_eq_dec : EqDecision LogLevel.
Proof. solve_decision. Defined.

(** The underlying integer of the C++ enumeration. *)
Definition to_int (l : LogLevel) : Z :=
  match l with
  | Trace => 0 | Debug => 1 | Info => 2 | Warning => 3
  | Error => 4 | Critical => 5 | Off => 6
  end.

(** [src/src/Core/Logger.cpp:35-55] *)
Definition to_string (level : LogLevel) : bytes :=
  match level with
  | Trace => txt "TRACE" | Debug => txt "DEBUG" | Info => txt "INFO"
  | Warning => txt "WARN" | Error => txt "ERROR" | Critical => txt "CRITICAL"
  | Off => txt "OFF"
  end.

(** [src/src/Core/Logger.cpp:57-83] *)
Definition parse_log_level (value : bytes) : option LogLevel :=
  let lowered := lowercase_copy value in
  if text_eqb lowered "trace" then Some Trace
  else if text_eqb lowered "debug" then Some Debug
  else if text_eqb lowered "info" then Some Info
  else if text_eqb lowered "warning" || text_eqb lowered "warn" then Some Warning
  else if text_eqb lowered "error" then Some Error
  else if text_eqb lowered "critical" || text_eqb lowered "fatal" then Some Critical
  else if text_eqb lowered "off" || text_eqb lowered "none" then Some Off
  else None.
End LogLevel.

Module TransportKind.
(** [src/include/ServerEngine/Net/TransportKind.h:8-12] *)
Inductive TransportKind := Tcp | Udp | WebSocket.
#[global] Instance TransportKind_eq_dec : EqDecision TransportKind.
Proof. solve_decision. Defined.

(** [src/src/Net/TransportKind.cpp:22-34] *)
Definition to_string (kind : TransportKind) : bytes :=
  match kind with
  | Tcp => txt "tcp" | Udp => txt "udp" | WebSocket => txt "websocket"
  end.

(** [src/src/Net/TransportKind.cpp:36-50] *)
Definition parse_transport_kind (value : bytes) : option TransportKind :=
  let lowered := lowercase_copy value in
  if text_eqb lowered "tcp" then Some Tcp
  else if text_eqb lowered "udp" then Some Udp
  else if text_eqb lowered "websocket" || text_eqb lowered "ws" then Some WebSocket
  else None.
End TransportKind.

Module TcpBackend.
(** [src/include/ServerEngine/Net/TcpBackend.h:8-11] *)
Inductive TcpBackend := Threaded | Iocp.
#[global] Instance TcpBackend_eq_dec : EqDecision TcpBackend.
Proof. solve_decision. Defined.

(** [src/src/Net/TcpBackend.cpp:24-34] *)
Definition to_string (backend : TcpBackend) : bytes :=
  match backend with Threaded => txt "threaded" | Iocp => txt "iocp" end.

(** [src/src/Net/TcpBackend.cpp:36-48] *)
Definition parse_tcp_backend (value : bytes) : option TcpBackend :=
  let normalized := lowercase_copy value in
  if text_eqb normalized "threaded" || text_eqb normalized "thread" then Some Threaded
  else if text_eqb normalized "iocp" || text_eqb normalized "windows-iocp" then Some Iocp
  else None.

(** [src/src/Net/TcpBackend.cpp:50-57] [windows] is the build's SERVERENGINE_OS_WINDOWS. *)
Definition default_tcp_backend (windows : bool) : TcpBackend :=
  if windows then Iocp else Threaded.
End TcpBackend.

Module SecurityMode.
(** [src/include/ServerEngine/Security/SecurityMode.h:8-12] *)
Inductive SecurityMode := None_ | Token | EccP256.
#[global] Instance SecurityMode_eq_dec : EqDecision SecurityMode.
Proof. solve_decision. Defined.

(** [src/src/Security/SecurityMode.cpp:22-34] *)
Definition to_string (mode : SecurityMode) : bytes :=
  match mode with
  | None_ => txt "none" | Token => txt "token" | EccP256 => txt "ecc-p256"
  end.

(** [src/src/Security/SecurityMode.cpp:36-50] *)
Definition parse_security_mode (value : bytes) : option SecurityMode :=
  let lowered := lowercase_copy value in
  if text_eqb lowered "none" || text_eqb lowered "off" then Some None_
  else if text_eqb lowered "token" || text_eqb lowered "shared-token" then Some Token
  else if text_eqb lowered "ecc" || text_eqb lowered "ecc-p256" || text_eqb lowered "p256"
  then Some EccP256
  else None.
End SecurityMode.

(** The four enumerations implement the contract. *)
#[export] Instance log_level_enum : NamedEnum LogLevel.LogLevel :=
  { enum_to_string := LogLevel.to_string; enum_parse := LogLevel.parse_log_level }.
#[export] Instance transport_kind_enum : NamedEnum TransportKind.TransportKind :=
  { enum_to_string := TransportKind.to_string;
    enum_parse := TransportKind.parse_transport_kind }.
#[export] Instance tcp_backend_enum : NamedEnum TcpBackend.TcpBackend :=
  { enum_to_string := TcpBackend.to_string; enum_parse := TcpBackend.parse_tcp_backend }.
#[export] Instance security_mode_enum : NamedEnum SecurityMode.SecurityMode :=
  { enum_to_string := SecurityMode.to_string;
    enum_parse := SecurityMode.parse_security_mode }.

Ltac solve_enum_laws f :=
  split; [intros []; by vm_compute | intros v; simpl; unfold f; by rewrite lowercase_idemp].
#[export] Instance log_level_laws : NamedEnumLaws LogLevel.LogLevel.
Proof. solve_enum_laws LogLevel.parse_log_level. Qed.
#[export] Instance transport_kind_laws : NamedEnumLaws TransportKind.TransportKind.
Proof. solve_enum_laws TransportKind.parse_transport_kind. Qed.
#[export] Instance tcp_backend_laws : NamedEnumLaws TcpBackend.TcpBackend.
Proof. solve_enum_laws TcpBackend.parse_tcp_backend. Qed.
#[export] Instance security_mode_laws : NamedEnumLaws SecurityMode.SecurityMode.
Proof. solve_enum_laws SecurityMode.parse_security_mode. Qed.

(** * Endpoint *)
(** [src/include/ServerEngine/Net/Endpoint.h:8-11] *)
Record Endpoint := mkEndpoint { ep_address : bytes; ep_port : Z }.
#[global] Instance Endpoint_eq_dec : EqDecision Endpoint.
Proof. solve_decision. Defined.

(** [src/src/Net/Endpoint.cpp:5-8] {to_string} *)
Definition endpoint_to_string (e : Endpoint) : bytes :=
  ep_address e ++ txt ":" ++ dec (ep_port e).

(** * Credentials: [security::constant_time_equals] *)
Module Credential.
(** Byte [index] of a view, zero past its end. *)
Definition padded (l : bytes) (index : nat) : Z :=
  match l !! index with Some b => byte_Z b | None => 0 end.

(** [src/src/Security/CredentialVerifier.cpp:15-19] {constant_time_equals} The
    accumulating loop: it always visits [max_size] positions. *)
Fixpoint compare_loop (left right : bytes) (index n : nat) (difference : Z) : Z :=
  match n with
  | O => difference
  | S n' => compare_loop left right (S index) n'
      (Z.lor difference (Z.lxor (padded left index) (padded right index)))
  end.

(** [src/src/Security/CredentialVerifier.cpp:8-22] *)
Definition constant_time_equals (left right : bytes) : bool :=
  let max_size := Nat.max (length left) (length right) in
  compare_loop left right 0 max_size (Z.lxor (zlen left) (zlen right)) =? 0.

Lemma lxor_zero a b : Z.lxor a b = 0 ↔ a = b.
Proof. apply Z.lxor_eq_0_iff. Qed.

Lemma compare_loop_zero left right n : ∀ index d,
  compare_loop left right index n d = 0 ↔
  d = 0 ∧ ∀ i, (index ≤ i < index + n)%nat → padded left i = padded right i.
Proof.
  induction n as [|n IH]; intros index d; simpl.
  - split; [|tauto]. intros ->. split; [done|]. lia.
  - rewrite IH, Z.lor_eq_0_iff, lxor_zero. split.
    + intros [[-> Hi] Hrest]. split; [done|]. intros i Hr.
      destruct (decide (i = index)) as [->|]; [done|]. apply Hrest. lia.
    + intros [-> Hall]. split; [split; [done|]|]; intros; apply Hall; lia.
Qed.

(** The credential comparison accepts exactly equal byte strings. *)
Theorem constant_time_equals_correct left right :
  constant_time_equals left right = true ↔ left = right.
Proof.
  unfold constant_time_equals. rewrite Z.eqb_eq, compare_loop_zero, lxor_zero. split.
  - intros [Hlen Hall]. unfold zlen in Hlen. apply list_eq_same_length with (length left);
      [lia|done|]. intros i x y Hi Hx Hy. specialize (Hall i ltac:(lia)).
    unfold padded in Hall. rewrite Hx, Hy in Hall.
    by rewrite <- (Z_byte_byte_Z x), Hall, Z_byte_byte_Z.
  - intros ->. split; [done|]. done.
Qed.
End Credential.
