(* ===== verification/Logger.v ===== *)
(** Logger: level filtering, line formatting and the lazily opened log file
    ([src/src/Core/Logger.cpp], [src/include/ServerEngine/Core/Logger.h]).
    The file system and the console are state: what has been written to each.
    Whether a directory or file can be created is an input of every operation.
    The clock's reading is an argument of [log]. *)
From S2P Require Import Prelude.
From S2P Require Import Text.
From S2P Require Import Kinds.

Import LogLevel.

(** [src/include/ServerEngine/Port/Clock.h:10-18] *)
Record DateTime := mkDateTime {
  year : Z; month : Z; day : Z; hour : Z; minute : Z; second : Z; millisecond : Z;
}.

(** [src/include/ServerEngine/Core/Logger.h:27-32] *)
Record LoggerOptions := mkLoggerOptions {
  minimum_level : LogLevel;
  console_enabled : bool;
  file_path : bytes;
  append_file : bool;
}.

(** [src/include/ServerEngine/Core/Logger.h:34-105] The data members, with the
    text that has reached the file and the two console streams. *)
Record Logger := mkLogger {
  options : LoggerOptions;
  initialized : bool;
  file_open : bool;
  file : bytes;
  out : bytes;
  err : bytes;
}.

(** What the file system answers when the logger opens its file. *)
Record FileSystem := mkFileSystem {
  parent_path_nonempty : bool;
  directories_created : bool;
  file_opens : bool;
}.

(** [src/src/Core/Logger.cpp:15-22] true stands for [std::cerr]. *)
Definition console_stream (level : LogLevel) : bool := to_int Warning <=? to_int level.

(** [src/src/Core/Logger.cpp:112-119] *)
Definition should_log (l : Logger) (level : LogLevel) : bool :=
  if bool_decide (level = Off) || bool_decide (minimum_level (options l) = Off) then false
  else to_int (minimum_level (options l)) <=? to_int level.

(** [std::setw(width)] with fill character 0 before a decimal number. *)
Definition setw (width : nat) (n : Z) : bytes :=
  let digits := dec n in replicate (width - length digits) x30 ++ digits.

(** [src/src/Core/Logger.cpp:172-189] *)
Definition format_line (now : DateTime) (level : LogLevel) (message : bytes) : bytes :=
  setw 4 (year now) ++ txt "-" ++ setw 2 (month now) ++ txt "-" ++ setw 2 (day now)
  ++ txt " " ++ setw 2 (hour now) ++ txt ":" ++ setw 2 (minute now)
  ++ txt ":" ++ setw 2 (second now) ++ txt "." ++ setw 3 (millisecond now)
  ++ txt " [" ++ to_string level ++ txt "] " ++ message.

(** [src/src/Core/Logger.cpp:144-170] *)
Definition initialize_locked (fs : FileSystem) (l : Logger) : bool * Logger :=
  if initialized l then (true, l)
  else
    let opened (b : bool) (content : bytes) :=
      mkLogger (options l) true b content (out l) (err l) in
    if bool_decide (file_path (options l) = []) then (true, opened (file_open l) (file l))
    else if parent_path_nonempty fs && negb (directories_created fs) then (false, l)
    else if negb (file_opens fs) then (false, l)
    else (true, opened true (if append_file (options l) then file l else [])).

(** [src/src/Core/Logger.cpp:95-99] *)
Definition initialize (fs : FileSystem) (l : Logger) : bool * Logger :=
  initialize_locked fs l.

(** [src/src/Core/Logger.cpp:101-110] *)
Definition close (l : Logger) : Logger :=
  mkLogger (options l) false false (file l) (out l) (err l).

(** [src/src/Core/Logger.cpp:121-142] *)
Definition log (fs : FileSystem) (now : DateTime) (level : LogLevel) (message : bytes)
    (l : Logger) : Logger :=
  if negb (should_log l level) then l
  else
    let line := format_line now level message ++ [x0a] in
    match initialize_locked fs l with
    | (false, l') => l'
    | (true, l') =>
        let to_err := console_enabled (options l') && console_stream level in
        let to_out := console_enabled (options l') && negb (console_stream level) in
        mkLogger (options l') (initialized l') (file_open l')
          (if file_open l' then file l' ++ line else file l')
          (if to_out then out l' ++ line else out l')
          (if to_err then err l' ++ line else err l')
    end.

(** A log request and the lines a sequence of them puts in the file. *)
Record LogCall := mkLogCall { lc_now : DateTime; lc_level : LogLevel; lc_message : bytes }.
Definition log_call (fs : FileSystem) (l : Logger) (c : LogCall) : Logger :=
  log fs (lc_now c) (lc_level c) (lc_message c) l.
Definition wanted (minimum : LogLevel) (c : LogCall) : bool :=
  negb (bool_decide (lc_level c = Off)) && negb (bool_decide (minimum = Off))
  && (to_int minimum <=? to_int (lc_level c)).
Fixpoint lines_of (minimum : LogLevel) (cs : list LogCall) : bytes :=
  match cs with
  | [] => []
  | c :: cs' =>
      (if wanted minimum c
       then format_line (lc_now c) (lc_level c) (lc_message c) ++ [x0a] else [])
      ++ lines_of minimum cs'
  end.

Lemma should_log_wanted l c :
  should_log l (lc_level c) = wanted (minimum_level (options l)) c.
Proof.
  unfold should_log, wanted.
  by destruct (bool_decide _), (bool_decide _).
Qed.

Lemma log_call_open fs l c :
  initialized l = true → file_open l = true →
  options (log_call fs l c) = options l ∧
  initialized (log_call fs l c) = true ∧ file_open (log_call fs l c) = true ∧
  file (log_call fs l c) = file l ++ lines_of (minimum_level (options l)) [c].
Proof.
  intros Hi Hf. unfold log_call, log. rewrite should_log_wanted. simpl.
  destruct (wanted _ _); simpl.
  - unfold initialize_locked. rewrite Hi. simpl. rewrite Hf, app_nil_r. done.
  - rewrite app_nil_r. done.
Qed.

(** Once the log file is open, a sequence of [log] calls appends exactly the
    formatted lines of the calls at or above the minimum level, in call order,
    and nothing for [Off] or for levels below the minimum. *)
Theorem log_appends_filtered_lines fs l cs :
  initialized l = true → file_open l = true →
  file (runs (log_call fs) l cs) = file l ++ lines_of (minimum_level (options l)) cs.
Proof.
  revert l. induction cs as [|c cs IH]; intros l Hi Hf; simpl; [by rewrite app_nil_r|].
  destruct (log_call_open fs l c Hi Hf) as (Ho & Hi' & Hf' & Hfile).
  unfold runs in *. simpl. rewrite IH by done. rewrite Ho, Hfile. simpl.
  by rewrite app_nil_r, <- app_assoc.
Qed.

Definition demo_time := mkDateTime 2026 9 5 7 3 1 42.
Definition demo_logger :=
  mkLogger (mkLoggerOptions Info false (txt "a.log") true) true true [] [] [].
Lemma log_appends_filtered_lines_witness :
  initialized demo_logger = true ∧
  file (runs (log_call (mkFileSystem false true true)) demo_logger
    [mkLogCall demo_time Debug (txt "no"); mkLogCall demo_time Error (txt "yes")])
  = txt "2026-09-05 07:03:01.042 [ERROR] yes" ++ [x0a].
Proof.
  split; [reflexivity|].
  rewrite (log_appends_filtered_lines _ demo_logger _ eq_refl eq_refl).
  vm_compute. reflexivity.
Defined.
