(* ===== verification/Config.v ===== *)
(** Config: the INI reader and its typed getters ([src/src/Core/Config.cpp],
    [src/include/ServerEngine/Core/Config.h]). The [unordered_map] of values is
    a [gmap]; the file is its bytes, or nothing when it cannot be opened. *)
From S2P Require Import Prelude.
From S2P Require Import Text.
From S2P Require Import Kinds.

(** [src/include/ServerEngine/Core/Config.h:11-29] The only data member. *)
Record Config := mkConfig { values : gmap bytes bytes }.

(** [src/src/Core/Config.cpp:116-119] *)
Definition clear (c : Config) : Config := mkConfig ∅.
(** [src/src/Core/Config.cpp:121-124] *)
Definition set (key value : bytes) (c : Config) : Config := mkConfig (<[key := value]> (values c)).
(** [src/src/Core/Config.cpp:126-129] *)
Definition contains (c : Config) (key : bytes) : bool := bool_decide (is_Some (values c !! key)).
(** [src/src/Core/Config.cpp:131-139] *)
Definition get_string (c : Config) (key : bytes) : option bytes := values c !! key.
(** [src/src/Core/Config.cpp:141-148] *)
Definition get_string_or (c : Config) (key fallback : bytes) : bytes :=
  match get_string c key with Some value => value | None => fallback end.

(** The range of the platform's [int]. *)
Definition int_min : Z := - 2 ^ 31.
Definition int_max : Z := 2 ^ 31 - 1.

(** [src/src/Core/Config.cpp:150-167] *)
Definition get_int (c : Config) (key : bytes) : option Z :=
  match get_string c key with
  | None => None
  | Some value =>
      match from_chars int_min int_max (trim_view value) with
      | Some (result, []) => Some result
      | _ => None
      end
  end.
(** [src/src/Core/Config.cpp:169-176] *)
Definition get_int_or (c : Config) (key : bytes) (fallback : Z) : Z :=
  match get_int c key with Some value => value | None => fallback end.

(** [src/src/Core/Config.cpp:178-195] *)
Definition get_bool (c : Config) (key : bytes) : option bool :=
  match get_string c key with
  | None => None
  | Some value =>
      let lowered := lowercase_copy (trim_view value) in
      if text_eqb lowered "true" || text_eqb lowered "yes"
         || text_eqb lowered "on" || text_eqb lowered "1" then Some true
      else if text_eqb lowered "false" || text_eqb lowered "no"
         || text_eqb lowered "off" || text_eqb lowered "0" then Some false
      else None
  end.
(** [src/src/Core/Config.cpp:197-204] *)
Definition get_bool_or (c : Config) (key : bytes) (fallback : bool) : bool :=
  match get_bool c key with Some value => value | None => fallback end.
(** [src/src/Core/Config.cpp:206-209] {size} *)
Definition config_size (c : Config) : Z := Z.of_nat (size (values c)).

(** * Reading a file *)

(** [std::getline] over a whole file: a final line without a newline counts,
    an empty one does not. *)
Fixpoint getlines_go (line : bytes) (content : bytes) : list bytes :=
  match content with
  | [] => match line with [] => [] | _ => [line] end
  | x0a :: rest => line :: getlines_go [] rest
  | b :: rest => getlines_go (line ++ [b]) rest
  end.
Definition getlines (content : bytes) : list bytes := getlines_go [] content.

(** [trimmed.find('=')] as a split. *)
Fixpoint split_at (sep : byte) (l : bytes) : option (bytes * bytes) :=
  match l with
  | [] => None
  | b :: l' =>
      if bool_decide (b = sep) then Some ([], l')
      else match split_at sep l' with
           | Some (pre, post) => Some (b :: pre, post)
           | None => None
           end
  end.

(** [src/src/Core/Config.cpp:41-50] *)
Definition set_error (path : bytes) (line_number : Z) (detail : bytes) : bytes :=
  path ++ txt ":" ++ dec line_number ++ txt ": " ++ detail.

(** The reader's state: the current section and the values so far. *)
Record Reader := mkReader { section : bytes; read_values : gmap bytes bytes }.

(** [src/src/Core/Config.cpp:71-110] {load_file} The body of the line loop; an
    error is its diagnostic. *)
Definition read_line (line : bytes) (r : Reader) : result bytes Reader :=
  let trimmed := trim_view line in
  match trimmed with
  | [] => Ok r
  | front :: body =>
      if bool_decide (front = x23) || bool_decide (front = x3b) then Ok r
      else if bool_decide (front = x5b) then
        if negb (bool_decide (last trimmed = Some x5d)) then
          Err (txt "section header is missing ']'")
        else
          let name := trim_view (take (length trimmed - 2) body) in
          if bool_decide (name = []) then Err (txt "section name is empty")
          else Ok (mkReader name (read_values r))
      else
        match split_at x3d trimmed with
        | None => Err (txt "expected key=value")
        | Some (before, after) =>
            let key := trim_view before in
            let value := trim_view after in
            if bool_decide (key = []) then Err (txt "key is empty")
            else
              let full := if bool_decide (section r = []) then key
                          else section r ++ txt "." ++ key in
              Ok (mkReader (section r) (<[full := value]> (read_values r)))
        end
  end.

(** The line loop: the values read before an error stay in the map. *)
Fixpoint read_lines (lines : list bytes) (line_number : Z) (r : Reader)
    : Reader * option (Z * bytes) :=
  match lines with
  | [] => (r, None)
  | line :: rest =>
      match read_line line r with
      | Ok r' => read_lines rest (line_number + 1) r'
      | Err detail => (r, Some (line_number, detail))
      end
  end.

(** [src/src/Core/Config.cpp:54-114] Result: success and its error message. *)
Definition load_file (path : bytes) (content : option bytes) (c : Config)
    : Config * option bytes :=
  match content with
  | None => (c, Some (txt "Failed to open config file: " ++ path))
  | Some text =>
      match read_lines (getlines text) 1 (mkReader [] ∅) with
      | (r, None) => (mkConfig (read_values r), None)
      | (r, Some (n, detail)) => (mkConfig (read_values r), Some (set_error path n detail))
      end
  end.

(** * Writing what the reader reads *)
Record Entry := mkEntry { e_section : bytes; e_key : bytes; e_value : bytes }.

Definition render_entry (e : Entry) : bytes :=
  x5b :: e_section e ++ [x5d; x0a] ++ e_key e ++ [x3d] ++ e_value e ++ [x0a].
Definition render (es : list Entry) : bytes := concat (render_entry <$> es).
Definition entry_key (e : Entry) : bytes := e_section e ++ txt "." ++ e_key e.
Definition entry_values (es : list Entry) : gmap bytes bytes :=
  foldl (λ m e, <[entry_key e := e_value e]> m) ∅ es.

Definition word (l : bytes) : bool := trimmed l && bool_decide (x0a ∉ l).
Definition valid_entry (e : Entry) : bool :=
  word (e_section e) && negb (bool_decide (e_section e = []))
  && word (e_key e) && word (e_value e)
  && match e_key e with
     | [] => false
     | b :: _ => negb (bool_decide (b ∈ [x23; x3b; x5b])) && bool_decide (x3d ∉ e_key e)
     end.

Lemma getlines_go_line acc l rest :
  x0a ∉ l → getlines_go acc (l ++ x0a :: rest) = (acc ++ l) :: getlines_go [] rest.
Proof.
  revert acc. induction l as [|b l IH]; intros acc Hl; simpl; [by rewrite app_nil_r|].
  apply not_elem_of_cons in Hl as [Hb Hl].
  rewrite (cons_middle b acc l), app_assoc, <- (IH (acc ++ [b]) Hl).
  by destruct b.
Qed.

Lemma split_at_app sep k v : sep ∉ k → split_at sep (k ++ sep :: v) = Some (k, v).
Proof.
  induction k as [|b k IH]; simpl; intros Hk.
  - by rewrite bool_decide_true.
  - apply not_elem_of_cons in Hk as [Hb Hk].
    rewrite bool_decide_false by congruence. by rewrite IH.
Qed.

Lemma trimmed_section s : trimmed (x5b :: s ++ [x5d]) = true.
Proof. unfold trimmed. by rewrite app_comm_cons, last_snoc. Qed.

Lemma trimmed_assignment b k v :
  isspace b = false → trimmed v = true → trimmed ((b :: k) ++ x3d :: v) = true.
Proof.
  intros Hb Hv. simpl. rewrite Hb. simpl. rewrite app_comm_cons, last_app_cons.
  destruct v as [|c v]; [done|]. simpl in Hv. bprop. by rewrite last_cons_cons.
Qed.

Lemma read_section_line s r :
  trimmed s = true → s ≠ [] →
  read_line (x5b :: s ++ [x5d]) r = Ok (mkReader s (read_values r)).
Proof.
  intros Hs Hne. unfold read_line. rewrite trimmed_fixed by apply trimmed_section.
  cbv zeta. rewrite app_comm_cons, last_snoc, !bool_decide_false, !bool_decide_true by done.
  simpl. rewrite length_app, Nat.add_comm. simpl. rewrite Nat.sub_0_r.
  rewrite take_app_length, trimmed_fixed by done. by rewrite bool_decide_false.
Qed.

Lemma read_key_line b k v s m :
  trimmed (b :: k) = true → trimmed v = true → b ∉ [x23; x3b; x5b] → x3d ∉ b :: k → s ≠ [] →
  read_line (b :: k ++ x3d :: v) (mkReader s m)
  = Ok (mkReader s (<[s ++ txt "." ++ (b :: k) := v]> m)).
Proof.
  intros Hk Hv Hb Heq Hs. unfold read_line.
  assert (isspace b = false) as Hsp by (simpl in Hk; bprop; done).
  rewrite trimmed_fixed by by apply (trimmed_assignment b k v).
  rewrite !not_elem_of_cons in Hb. destruct Hb as (? & ? & ? & _).
  rewrite !bool_decide_false by done. cbn [orb].
  rewrite (split_at_app x3d (b :: k) v Heq : split_at x3d (b :: k ++ x3d :: v) = _).
  cbv beta iota zeta. rewrite !trimmed_fixed by done.
  by rewrite !bool_decide_false by done.
Qed.

Lemma read_entry e es n r :
  valid_entry e = true →
  read_lines (getlines (render (e :: es))) n r
  = read_lines (getlines (render es)) (n + 1 + 1)
      (mkReader (e_section e) (<[entry_key e := e_value e]> (read_values r))).
Proof.
  destruct e as [s k v]. unfold valid_entry, word. cbn [e_section e_key e_value].
  intros Hv. bprop. destruct k as [|b k]; [done|]. bprop.
  unfold render, getlines, entry_key. cbn [fmap list_fmap concat render_entry
    e_section e_key e_value].
  replace ((x5b :: s ++ [x5d; x0a] ++ (b :: k) ++ [x3d] ++ v ++ [x0a]) ++ concat _)
    with ((x5b :: s ++ [x5d]) ++ x0a :: ((b :: k) ++ x3d :: v) ++ x0a ::
      concat (render_entry <$> es)) by (by simpl; rewrite <- !app_assoc; simpl;
      rewrite <- !app_assoc; simpl; rewrite <- !app_assoc).
  rewrite getlines_go_line by set_solver. rewrite getlines_go_line by set_solver.
  cbn [app read_lines]. rewrite (read_section_line s) by done.
  cbn [app read_lines read_values].
  rewrite (read_key_line b k v s) by done.
  done.
Qed.

(** A configuration written as INI text, one section header and one
    assignment per entry, is read back by [load_file] as exactly the map from
    "section.key" to value, later entries overriding earlier ones. *)
Theorem load_file_render path es c :
  forallb valid_entry es = true →
  load_file path (Some (render es)) c = (mkConfig (entry_values es), None).
Proof.
  intros Hes. unfold load_file, entry_values.
  assert (∀ n r, ∃ s, read_lines (getlines (render es)) n r
    = (mkReader s (foldl (λ m e, <[entry_key e := e_value e]> m) (read_values r) es), None))
    as Hall.
  { induction es as [|e es IH]; intros n r; [by exists (section r); destruct r|].
    simpl in Hes. bprop. rewrite read_entry by done.
    by destruct (IH ltac:(done) (n + 1 + 1) (mkReader (e_section e)
      (<[entry_key e := e_value e]> (read_values r)))) as [s ->]; exists s. }
  by destruct (Hall 1 (mkReader [] ∅)) as [s ->].
Qed.

Definition demo_entries : list Entry :=
  [mkEntry (txt "server") (txt "port") (txt "9000");
   mkEntry (txt "log") (txt "level") (txt "warn");
   mkEntry (txt "server") (txt "port") (txt "9443")].
Lemma load_file_render_witness :
  forallb valid_entry demo_entries = true ∧
  get_int (load_file (txt "a.ini") (Some (render demo_entries)) (mkConfig ∅)).1
    (txt "server.port") = Some 9443.
Proof.
  split; [vm_compute; reflexivity|].
  rewrite load_file_render; [vm_compute; reflexivity | vm_compute; reflexivity].
Defined.
