(* ===== verification/LineFramer.v ===== *)
(** LineFramer: the reassembly of text lines from TCP reads
    ([src/src/Net/Detail/LineFramer.h]). The framer is proved against a
    reference that splits the whole stream at once: what it delivers does not
    depend on how the stream is cut into reads, and it fails exactly when a
    line of the stream exceeds the limit. *)
From S2P Require Import Prelude.

(** [src/src/Net/Detail/LineFramer.h:11-74] The data members. *)
Record LineFramer := mkFramer {
  max_message_bytes : Z;
  pending : bytes;
  consumed_bytes : nat;
  current_line_bytes : Z;
  failed : bool;
}.

(** [src/src/Net/Detail/LineFramer.h:13-16] {LineFramer} *)
Definition new_framer (max : Z) : LineFramer := mkFramer max [] 0 0 false.

(** [src/src/Net/Detail/LineFramer.h:31-41] {append} The length check: whether
    every line fits the limit, and the count of the current line where it ends. *)
Fixpoint scan (max current : Z) (l : bytes) : bool * Z :=
  match l with
  | [] => (true, current)
  | b :: l' =>
      if bool_decide (b = x0a) then scan max 0 l'
      else if current =? max then (false, current)
      else scan max (current + 1) l'
  end.

(** [src/src/Net/Detail/LineFramer.h:22-48] *)
Definition append (l : bytes) (f : LineFramer) : bool * LineFramer :=
  if failed f then (false, f)
  else match l with
  | [] => (true, f)
  | _ =>
      match scan (max_message_bytes f) (current_line_bytes f) l with
      | (false, current) =>
          (false, mkFramer (max_message_bytes f) (pending f) (consumed_bytes f) current true)
      | (true, current) =>
          (true, mkFramer (max_message_bytes f) (drop (consumed_bytes f) (pending f) ++ l)
                   0 current false)
      end
  end.

(** [pending_.find('\n', from)], counted from [from]. *)
Fixpoint find_newline (l : bytes) : option nat :=
  match l with
  | [] => None
  | b :: l' => if bool_decide (b = x0a) then Some O else S <$> find_newline l'
  end.

(** [line.back() == '\r'] and [line.pop_back()]. *)
Definition strip_cr (line : bytes) : bytes :=
  if bool_decide (last line = Some x0d) then take (length line - 1) line else line.

(** [src/src/Net/Detail/LineFramer.h:50-66] *)
Definition try_pop (f : LineFramer) : option bytes * LineFramer :=
  if failed f then (None, f)
  else
    let rest := drop (consumed_bytes f) (pending f) in
    match find_newline rest with
    | None => (None, f)
    | Some n =>
        (Some (strip_cr (take n rest)),
         mkFramer (max_message_bytes f) (pending f) (consumed_bytes f + n + 1)
           (current_line_bytes f) false)
    end.

(** The pop loop of a read: every caller pops until [try_pop] returns false. *)
Fixpoint drain (fuel : nat) (f : LineFramer) : list bytes * LineFramer :=
  match fuel with
  | O => ([], f)
  | S n =>
      match try_pop f with
      | (None, f') => ([], f')
      | (Some line, f') => let '(lines, f'') := drain n f' in (line :: lines, f'')
      end
  end.

(** One read: append, then pop. The fuel bounds the newlines held. *)
Definition feed (f : LineFramer) (chunk : bytes) : list bytes * LineFramer :=
  match append chunk f with
  | (false, f') => ([], f')
  | (true, f') => drain (S (length (pending f'))) f'
  end.

Fixpoint feed_all (f : LineFramer) (chunks : list bytes) : list bytes * LineFramer :=
  match chunks with
  | [] => ([], f)
  | chunk :: rest =>
      let '(lines, f') := feed f chunk in
      let '(lines', f'') := feed_all f' rest in
      (lines ++ lines', f'')
  end.

(** * The reference: split the whole stream *)
Fixpoint split_go (line : bytes) (stream : bytes) : list bytes * bytes :=
  match stream with
  | [] => ([], line)
  | b :: rest =>
      if bool_decide (b = x0a) then
        let '(lines, partial) := split_go [] rest in (line :: lines, partial)
      else split_go (line ++ [b]) rest
  end.
Definition messages (stream : bytes) : list bytes := strip_cr <$> (split_go [] stream).1.
(** Every line of the stream, the unfinished one included, fits the limit. *)
Definition within (max : Z) (stream : bytes) : bool :=
  let '(lines, partial) := split_go [] stream in
  forallb (λ l, zlen l <=? max) (lines ++ [partial]).

Definition fits (max : Z) (p : list bytes * bytes) : bool :=
  forallb (λ l, zlen l <=? max) (p.1 ++ [p.2]).

Lemma within_fits max s : within max s = fits max (split_go [] s).
Proof. unfold within, fits. by destruct (split_go [] s). Qed.

Lemma split_go_app line s t :
  split_go line (s ++ t)
  = ((split_go line s).1 ++ (split_go (split_go line s).2 t).1,
     (split_go (split_go line s).2 t).2).
Proof.
  revert line. induction s as [|b s IH]; intros line; simpl.
  { by destruct (split_go line t). }
  case_bool_decide; [|apply IH]. rewrite IH. by destruct (split_go [] s).
Qed.

Lemma fits_first max line s : fits max (split_go line s) = true → zlen line ≤ max.
Proof.
  revert line. induction s as [|b s IH]; intros line; simpl; unfold fits in *; simpl.
  - rewrite andb_true_r. lia.
  - case_bool_decide.
    + destruct (split_go [] s). simpl. intros H'. bprop. lia.
    + intros H'. apply IH in H'. rewrite zlen_app, zlen_cons, zlen_nil in H'. lia.
Qed.

Lemma scan_spec max s : ∀ line, zlen line ≤ max →
  (scan max (zlen line) s).1 = fits max (split_go line s) ∧
  (fits max (split_go line s) = true →
   (scan max (zlen line) s).2 = zlen (split_go line s).2).
Proof.
  induction s as [|b s IH]; intros line Hl; simpl.
  { unfold fits. simpl. by replace (zlen line <=? max) with true by lia. }
  pose proof (zlen_nonneg line).
  case_bool_decide.
  - destruct (IH []) as [IH1 IH2]; [rewrite zlen_nil; lia|].
    rewrite zlen_nil in *. unfold fits in *. destruct (split_go [] s) as [ls p]. simpl in *.
    by replace (zlen line <=? max) with true by lia.
  - destruct (zlen line =? max) eqn:E; bprop.
    + destruct (fits max (split_go (line ++ [b]) s)) eqn:Ef; [|done].
      apply fits_first in Ef. rewrite zlen_app, zlen_cons, zlen_nil in Ef. lia.
    + replace (zlen line + 1) with (zlen (line ++ [b])) by zlens.
      apply IH. zlens.
Qed.

Lemma fits_app max line s t :
  fits max (split_go line (s ++ t))
  = forallb (λ l, zlen l <=? max) (split_go line s).1
    && fits max (split_go (split_go line s).2 t).
Proof.
  unfold fits. rewrite split_go_app. simpl. by rewrite <- app_assoc, !forallb_app.
Qed.

Lemma fits_prefix max line s t :
  fits max (split_go line s) = false → fits max (split_go line (s ++ t)) = false.
Proof.
  rewrite fits_app. intros Hs.
  destruct (forallb _ (split_go line s).1) eqn:E1; [|done]. simpl.
  destruct (fits max (split_go (split_go line s).2 t)) eqn:E2; [|done].
  apply fits_first in E2. unfold fits in Hs. rewrite forallb_app, E1 in Hs. simpl in Hs.
  bprop. destruct Hs; [|done]. bprop. lia.
Qed.

Lemma find_newline_split l n :
  find_newline l = Some n →
  split_go [] l = (take n l :: (split_go [] (drop (S n) l)).1, (split_go [] (drop (S n) l)).2)
  ∧ (n < length l)%nat.
Proof.
  assert (∀ acc, find_newline l = Some n →
    split_go acc l = ((acc ++ take n l) :: (split_go [] (drop (S n) l)).1,
      (split_go [] (drop (S n) l)).2) ∧ (n < length l)%nat) as Hgen.
  { revert n. induction l as [|b l IH]; intros n acc; simpl; [done|].
    case_bool_decide.
    - intros [= <-]. simpl. rewrite app_nil_r, drop_0.
      destruct (split_go [] l). split; [done|lia].
    - destruct (find_newline l) as [m|]; [|done]. simpl. intros [= <-].
      destruct (IH m (acc ++ [b]) eq_refl) as [-> Hlt]. simpl.
      rewrite <- app_assoc. split; [done|lia]. }
  apply Hgen.
Qed.

Lemma find_newline_none l acc : find_newline l = None → split_go acc l = ([], acc ++ l).
Proof.
  revert acc. induction l as [|b l IH]; intros acc; simpl; [by rewrite app_nil_r|].
  case_bool_decide; [done|]. destruct (find_newline l); [done|]. intros _.
  rewrite IH by done. by rewrite <- app_assoc.
Qed.

(** The bytes not yet delivered. *)
Definition unread (f : LineFramer) : bytes := drop (consumed_bytes f) (pending f).

Lemma drain_spec fuel : ∀ f,
  failed f = false → (length (unread f) < fuel)%nat →
  let '(lines, f') := drain fuel f in
  lines = strip_cr <$> (split_go [] (unread f)).1 ∧
  unread f' = (split_go [] (unread f)).2 ∧ failed f' = false ∧
  max_message_bytes f' = max_message_bytes f ∧
  current_line_bytes f' = current_line_bytes f.
Proof.
  induction fuel as [|n IH]; intros f Hf Hlen; [lia|]. simpl.
  unfold try_pop. rewrite Hf. fold (unread f).
  destruct (find_newline (unread f)) as [k|] eqn:E.
  - apply find_newline_split in E as [Hs Hk]. rewrite Hs.
    set (f1 := mkFramer _ _ _ _ _).
    assert (unread f1 = drop (S k) (unread f)) as Hu.
    { unfold f1, unread. simpl. rewrite drop_drop. f_equal. lia. }
    specialize (IH f1 eq_refl). rewrite Hu in IH.
    destruct (drain n f1) as [lines f'] eqn:Ed.
    destruct IH as (-> & -> & -> & -> & ->); [rewrite length_drop; lia|]. done.
  - rewrite (find_newline_none _ [] E). done.
Qed.

(** The invariant between reads: the framer has consumed a stream, everything
    in it fits, and it holds exactly the unfinished line. *)
Record framed (f : LineFramer) (stream : bytes) : Prop := {
  framed_alive : failed f = false;
  framed_unread : unread f = (split_go [] stream).2;
  framed_count : current_line_bytes f = zlen (split_go [] stream).2;
  framed_fits : fits (max_message_bytes f) (split_go [] stream) = true;
}.

Lemma split_go_partial s : split_go [] (split_go [] s).2 = ([], (split_go [] s).2).
Proof.
  assert (∀ line, x0a ∉ line → x0a ∉ (split_go line s).2) as Hno.
  { induction s as [|b s IH]; intros line Hl; simpl; [done|].
    case_bool_decide; [|apply IH; set_solver].
    specialize (IH [] ltac:(set_solver)). by destruct (split_go [] s). }
  specialize (Hno [] ltac:(set_solver)). revert Hno.
  generalize (split_go [] s).2. intros l Hl.
  assert (∀ acc, split_go acc l = ([], acc ++ l)) as H'; [|apply H'].
  induction l as [|b l IH]; intros acc; simpl; [by rewrite app_nil_r|].
  rewrite bool_decide_false by set_solver. rewrite IH by set_solver.
  by rewrite <- app_assoc.
Qed.

Lemma feed_framed f s chunk :
  framed f s →
  if fits (max_message_bytes f) (split_go [] (s ++ chunk)) then
    (feed f chunk).1 = strip_cr <$> (split_go (split_go [] s).2 chunk).1 ∧
    framed (feed f chunk).2 (s ++ chunk) ∧
    max_message_bytes (feed f chunk).2 = max_message_bytes f
  else (feed f chunk).1 = [] ∧ failed (feed f chunk).2 = true.
Proof.
  intros [Ha Hu Hc Hfit]. unfold feed, append. rewrite Ha.
  assert (zlen (split_go [] s).2 ≤ max_message_bytes f) as Hle.
  { unfold fits in Hfit. rewrite forallb_app in Hfit. simpl in Hfit. bprop. lia. }
  destruct chunk as [|b chunk].
  { rewrite app_nil_r, Hfit. simpl. unfold try_pop. rewrite Ha. fold (unread f).
    rewrite Hu. pose proof (split_go_partial s) as Hp.
    destruct (find_newline (split_go [] s).2) as [k|] eqn:E.
    { apply find_newline_split in E as [E _]. rewrite Hp in E. done. }
    simpl. split_and!; [done| |done]. by split. }
  cbv beta iota. remember (b :: chunk) as t eqn:Ht. clear Ht b chunk. rewrite Hc.
  destruct (scan_spec (max_message_bytes f) t _ Hle) as [Hok Hcount].
  destruct (scan _ _ t) as [ok current]. cbn [fst snd] in Hok, Hcount. subst ok.
  rewrite fits_app.
  unfold fits in Hfit. rewrite forallb_app in Hfit. bprop. rewrite B. simpl andb.
  destruct (fits _ (split_go (split_go [] s).2 t)) eqn:Ef; [|done].
  rewrite (Hcount eq_refl).
  set (f1 := mkFramer _ _ _ _ _).
  assert (unread f1 = (split_go [] s).2 ++ t) as Hu1.
  { unfold f1, unread at 1. simpl. rewrite drop_0. fold (unread f). by rewrite Hu. }
  pose proof (drain_spec (S (length (pending f1))) f1 eq_refl) as Hd.
  destruct (drain _ f1) as [lines f'].
  destruct Hd as (-> & Hu' & Hf' & Hm' & Hc').
  { unfold unread. rewrite length_drop. lia. }
  rewrite Hu1, split_go_app, split_go_partial in *. simpl in *.
  split_and!; [done| |by rewrite Hm'].
  split; [done| | |].
  - by rewrite Hu', split_go_app.
  - by rewrite Hc', split_go_app.
  - rewrite Hm', fits_app. unfold f1. simpl. by rewrite B, Ef.
Qed.

Lemma feed_failed f chunk : failed f = true → feed f chunk = ([], f).
Proof. intros Hf. unfold feed, append. by rewrite Hf. Qed.
Lemma feed_all_failed f chunks : failed f = true → feed_all f chunks = ([], f).
Proof.
  intros Hf. induction chunks as [|c cs IH]; simpl; [done|].
  by rewrite feed_failed, IH.
Qed.

Lemma feed_all_framed chunks : ∀ f s,
  framed f s →
  (fits (max_message_bytes f) (split_go [] (s ++ concat chunks)) = true →
   (feed_all f chunks).1 = strip_cr <$> (split_go (split_go [] s).2 (concat chunks)).1) ∧
  failed (feed_all f chunks).2
  = negb (fits (max_message_bytes f) (split_go [] (s ++ concat chunks))).
Proof.
  induction chunks as [|c cs IH]; intros f s Hf; simpl.
  { rewrite app_nil_r. split; [done|]. destruct Hf as [-> _ _ ->]. done. }
  pose proof (feed_framed f s c Hf) as Hc.
  destruct (feed f c) as [lines f'] eqn:Efeed. simpl in Hc.
  rewrite app_assoc.
  destruct (fits _ (split_go [] (s ++ c))) eqn:Efit.
  - destruct Hc as (-> & Hf' & Hm). destruct (IH f' (s ++ c) Hf') as [IH1 IH2].
    rewrite Hm in *. destruct (feed_all f' cs) as [lines' f'']. simpl in *.
    split; [|done]. intros Hall. rewrite (IH1 Hall), (split_go_app [] s c), (split_go_app _ c). simpl.
    by rewrite fmap_app.
  - destruct Hc as (-> & Hfail). rewrite feed_all_failed by done. simpl.
    rewrite (fits_prefix _ _ _ _ Efit). by split.
Qed.

Lemma new_framed max : 0 ≤ max → framed (new_framer max) [].
Proof. intros Hm. split; [done..|]. unfold fits. simpl. rewrite zlen_nil. lia. Qed.

(** C40: whatever the reads, a fresh framer delivers exactly the lines of the
    concatenated stream (CR stripped, in order) when every line fits the limit;
    chunk boundaries never change the messages. *)
Theorem framer_chunk_independent max chunks :
  0 ≤ max → within max (concat chunks) = true →
  (feed_all (new_framer max) chunks).1 = messages (concat chunks) ∧
  failed (feed_all (new_framer max) chunks).2 = false.
Proof.
  intros Hm Hw. rewrite within_fits in Hw.
  destruct (feed_all_framed chunks _ _ (new_framed max Hm)) as [H1 H2].
  rewrite app_nil_l in *. simpl max_message_bytes in *. rewrite Hw in H2.
  split; [by apply H1|done].
Qed.

(** The framer fails exactly on the streams with a line longer than the
    limit, and a failed framer delivers nothing from any later read. *)
Theorem framer_fails_iff_oversized max chunks later :
  0 ≤ max →
  (failed (feed_all (new_framer max) chunks).2 = true ↔ within max (concat chunks) = false) ∧
  (within max (concat chunks) = false →
   feed_all (feed_all (new_framer max) chunks).2 later
   = ([], (feed_all (new_framer max) chunks).2)).
Proof.
  intros Hm. rewrite within_fits.
  destruct (feed_all_framed chunks _ _ (new_framed max Hm)) as [_ H2].
  rewrite app_nil_l in H2. simpl max_message_bytes in H2. split.
  - rewrite H2. apply negb_true_iff.
  - intros Hw. apply feed_all_failed. by rewrite H2, Hw.
Qed.

Definition demo_stream : list bytes :=
  [String.list_byte_of_string "hel"; String.list_byte_of_string "lo" ++ [x0d; x0a] ++
    String.list_byte_of_string "WHO"; [x0a]].
Lemma framer_chunk_independent_witness :
  within 6 (concat demo_stream) = true ∧
  (feed_all (new_framer 6) demo_stream).1
  = [String.list_byte_of_string "hello"; String.list_byte_of_string "WHO"].
Proof.
  split; [reflexivity|].
  rewrite (proj1 (framer_chunk_independent 6 demo_stream ltac:(lia) eq_refl)).
  reflexivity.
Defined.
Lemma framer_fails_iff_oversized_witness :
  within 5 (concat demo_stream) = false ∧
  failed (feed_all (new_framer 5) demo_stream).2 = true.
Proof.
  split; [reflexivity|].
  apply (proj1 (framer_fails_iff_oversized 5 demo_stream [] ltac:(lia))). reflexivity.
Defined.
