(* ===== verification/NetTypes.v ===== *)
(** NetTypes: the data the transport, the host and the C ABI exchange
    ([src/include/ServerEngine/Net/TransportService.h], [.../Net/HttpTypes.h],
    [.../Core/Buffer.h], the status codes of [.../C/ServerEngine.h]). *)
From S2P Require Import Prelude.
From S2P Require Import Text.

(** * Status codes of the C ABI *)
(** [src/include/ServerEngine/C/ServerEngine.h:29-43] *)
Inductive se_status :=
| SE_OK | SE_TIMEOUT | SE_BUFFER_TOO_SMALL | SE_STOPPED
| SE_INVALID_ARGUMENT | SE_INVALID_HANDLE | SE_INVALID_STATE | SE_IO_ERROR
| SE_BACKPRESSURE | SE_INTERNAL_ERROR | SE_NOT_SUPPORTED | SE_RESULT_TOO_LARGE
| SE_OUTCOME_UNKNOWN | SE_SQL_CANCELLED.
#[global] Instance se_status_eq_dec : EqDecision se_status.
Proof. solve_decision. Defined.

Definition status_code (s : se_status) : Z :=
  match s with
  | SE_OK => 0 | SE_TIMEOUT => 1 | SE_BUFFER_TOO_SMALL => 2 | SE_STOPPED => 3
  | SE_INVALID_ARGUMENT => -1 | SE_INVALID_HANDLE => -2 | SE_INVALID_STATE => -3
  | SE_IO_ERROR => -4 | SE_BACKPRESSURE => -5 | SE_INTERNAL_ERROR => -6
  | SE_NOT_SUPPORTED => -7 | SE_RESULT_TOO_LARGE => -8 | SE_OUTCOME_UNKNOWN => -9
  | SE_SQL_CANCELLED => -100
  end.

(** * core::Buffer *)
Module Buffer.
(** [src/src/Core/Buffer.cpp:54-61] {append} A null [data] is [None]. *)
Definition append (buffer : bytes) (data : option bytes) : bytes :=
  match data with None => buffer | Some d => buffer ++ d end.
(** [src/src/Core/Buffer.cpp:7-15] {Buffer} *)
Definition from_data (data : option bytes) : bytes := append [] data.
(** [src/src/Core/Buffer.cpp:17-22] *)
Definition from_text (text : bytes) : bytes := append [] (Some text).
(** [src/src/Core/Buffer.cpp:34-37] *)
Definition size (buffer : bytes) : Z := zlen buffer.
(** [src/src/Core/Buffer.cpp:39-42] *)
Definition empty (buffer : bytes) : bool := bool_decide (buffer = []).
(** [src/src/Core/Buffer.cpp:69-72] *)
Definition to_text (buffer : bytes) : bytes := buffer.
End Buffer.

(** * Transport configuration *)
(** [src/include/ServerEngine/Net/TransportService.h:16-16] An enumeration over
    [uint32_t]: a value outside the named ones is representable. *)
Inductive Protocol := Tcp | Udp | WebSocket | Http | OtherProtocol (raw : Z).
(** [src/include/ServerEngine/Net/TransportService.h:17-17] *)
Inductive ChannelSecurity := NoSecurity | Tls | OtherSecurity (raw : Z).
#[global] Instance Protocol_eq_dec : EqDecision Protocol.
Proof. solve_decision. Defined.
#[global] Instance ChannelSecurity_eq_dec : EqDecision ChannelSecurity.
Proof. solve_decision. Defined.

(** The two directions of [static_cast]. *)
Definition protocol_of (raw : Z) : Protocol :=
  if raw =? 1 then Tcp else if raw =? 2 then Udp else if raw =? 3 then WebSocket
  else if raw =? 4 then Http else OtherProtocol raw.
Definition protocol_code (p : Protocol) : Z :=
  match p with Tcp => 1 | Udp => 2 | WebSocket => 3 | Http => 4 | OtherProtocol raw => raw end.
Definition security_of (raw : Z) : ChannelSecurity :=
  if raw =? 0 then NoSecurity else if raw =? 1 then Tls else OtherSecurity raw.

(** [src/include/ServerEngine/Net/TransportService.h:19-29] *)
Record ListenerConfig := mkListenerConfig {
  lc_id : Z;
  lc_protocol : Protocol;
  lc_bind_address : bytes;
  lc_port : Z;
  lc_security : ChannelSecurity;
  lc_certificate_chain_file : bytes;
  lc_private_key_file : bytes;
  lc_websocket_path : bytes;
  lc_handshake_timeout_ms : Z;
}.
Definition default_listener : ListenerConfig :=
  mkListenerConfig 0 Tcp (txt "127.0.0.1") 0 Tls [] [] (txt "/") 10000.

(** [src/include/ServerEngine/Net/TransportService.h:31-37] *)
Record ServiceLimits := mkServiceLimits {
  worker_threads : Z;
  max_connections : Z;
  max_message_bytes : Z;
  max_send_queue_bytes : Z;
  idle_timeout_ms : Z;
}.
Definition default_limits : ServiceLimits := mkServiceLimits 1 4096 65536 1048576 300000.

(** [src/include/ServerEngine/Net/TransportService.h:39-45] *)
Record Peer := mkPeer {
  session_id : Z;
  listener_id : Z;
  protocol : Protocol;
  address : bytes;
  port : Z;
}.
#[global] Instance Peer_eq_dec : EqDecision Peer.
Proof. solve_decision. Defined.
(** A value-initialised [Peer]. *)
Definition empty_peer : Peer := mkPeer 0 0 Tcp [] 0.

(** * HTTP values *)
(** [src/include/ServerEngine/Net/HttpTypes.h:11-11] *)
Record HttpHeader := mkHttpHeader { header_name : bytes; header_value : bytes }.
(** [src/include/ServerEngine/Net/HttpTypes.h:15-21] *)
Record HttpResponse := mkHttpResponse {
  status_code_ : Z;
  close_connection : bool;
  content_type : bytes;
  headers : list HttpHeader;
  body : bytes;
}.
Definition default_response : HttpResponse :=
  mkHttpResponse 200 false (txt "application/octet-stream") [] [].

(** * The callbacks the transport invokes *)
(** [src/include/ServerEngine/Net/TransportService.h:47-56] Each callback acts on
    the application state [H]. [None] in a field is an empty [std::function];
    a callback whose result is [None] has thrown. *)
Record TransportCallbacks (H : Type) := mkCallbacks {
  on_open : option (Peer → H → option bool * H);
  on_message : option (Peer → bytes → H → option bool * H);
  on_close : option (Peer → H → H);
  on_error : option (Z → bytes → H → H);
  on_http_request : option (Peer → bytes → H → option bool * H);
}.
Arguments mkCallbacks {H}.
Arguments on_open {H}. Arguments on_message {H}. Arguments on_close {H}.
Arguments on_error {H}. Arguments on_http_request {H}.
Definition no_callbacks {H} : TransportCallbacks H := mkCallbacks None None None None None.
