(* ===== verification/EventQueue.v ===== *)
(** EventQueue: the bounded queue between the transport worker and the polling
    host ([src/src/Runtime/Host/EventQueue.cpp], [EventQueue.h]). One mutex
    guards every operation, so the operations are the atomic steps and any
    interleaving of producers and the poller is a sequence of them. *)
From S2P Require Import Prelude.
From S2P Require Import NetTypes.

(** [src/src/Runtime/Host/EventQueue.h:11-11] *)
Inductive EventKind := Open | Message | Close | Error | Overflow | HttpRequest.
#[global] Instance EventKind_eq_dec : EqDecision EventKind.
Proof. solve_decision. Defined.
Definition event_code (k : EventKind) : Z :=
  match k with
  | Open => 1 | Message => 2 | Close => 3 | Error => 4 | Overflow => 5 | HttpRequest => 6
  end.

(** [src/src/Runtime/Host/EventQueue.h:12-17] *)
Record Event := mkEvent {
  kind : EventKind; peer : Peer; sequence : Z; payload_size : Z;
}.
#[global] Instance Event_eq_dec : EqDecision Event.
Proof. solve_decision. Defined.
(** [src/src/Runtime/Host/EventQueue.h:18-18] *)
Inductive PollResult := Ready | Timeout | BufferTooSmall | Stopped.
#[global] Instance PollResult_eq_dec : EqDecision PollResult.
Proof. solve_decision. Defined.

Record Entry := mkEntry { event : Event; payload : bytes }.

(** [src/src/Runtime/Host/EventQueue.h:21-41] *)
Record EventQueue := mkQueue {
  entries : list Entry;
  max_count : Z;
  max_bytes : Z;
  bytes_ : Z;
  next_sequence : Z;
  stopped : bool;
  overflow : bool;
  overflow_reported : bool;
}.

(** [src/src/Runtime/Host/EventQueue.cpp:8-11] {EventQueue} *)
Definition new_queue (count bytes : Z) : EventQueue :=
  mkQueue [] count bytes 0 1 false false false.

(** The state after an overflow: the incomplete history is discarded. *)
Definition overflowed_queue (q : EventQueue) : EventQueue :=
  mkQueue [] (max_count q) (max_bytes q) 0 (next_sequence q) (stopped q) true
    (overflow_reported q).

(** [src/src/Runtime/Host/EventQueue.cpp:13-38] [alloc] is false when copying
    the payload or growing the deque throws. *)
Definition push (alloc : bool) (k : EventKind) (p : Peer) (data : bytes) (q : EventQueue)
    : bool * EventQueue :=
  if stopped q || overflow q then (false, q)
  else if (max_count q <=? zlen (entries q)) || (u64 (max_bytes q - bytes_ q) <? zlen data)
          || negb alloc
  then (false, overflowed_queue q)
  else (true,
    mkQueue (entries q ++ [mkEntry (mkEvent k p (next_sequence q) (zlen data)) data])
      (max_count q) (max_bytes q) (u64 (bytes_ q + zlen data)) (u64 (next_sequence q + 1))
      (stopped q) false (overflow_reported q)).

(** The condition [poll] waits for. *)
Definition available (q : EventQueue) : bool :=
  stopped q || overflow q || negb (bool_decide (entries q = [])).

(** [src/src/Runtime/Host/EventQueue.cpp:40-68] What [poll] does once the wait
    ends, by notification or by timeout: its result, the event it stores in the
    caller's record and the bytes it copies to the caller's buffer. *)
Definition poll (capacity : Z) (q : EventQueue)
    : PollResult * option Event * bytes * EventQueue :=
  if overflow q then
    if overflow_reported q then (Stopped, None, [], q)
    else (Ready, Some (mkEvent Overflow empty_peer (next_sequence q) 0), [],
          mkQueue (entries q) (max_count q) (max_bytes q) (bytes_ q)
            (u64 (next_sequence q + 1)) (stopped q) true true)
  else match entries q with
  | [] => (if stopped q then Stopped else Timeout, None, [], q)
  | entry :: rest =>
      if capacity <? zlen (payload entry) then (BufferTooSmall, Some (event entry), [], q)
      else (Ready, Some (event entry), payload entry,
            mkQueue rest (max_count q) (max_bytes q) (u64 (bytes_ q - zlen (payload entry)))
              (next_sequence q) (stopped q) false (overflow_reported q))
  end.

(** [src/src/Runtime/Host/EventQueue.cpp:70-75] *)
Definition finish (q : EventQueue) : EventQueue :=
  mkQueue (entries q) (max_count q) (max_bytes q) (bytes_ q) (next_sequence q) true
    (overflow q) (overflow_reported q).

(** [src/src/Runtime/Host/EventQueue.cpp:77-81] *)
Definition overflowed (q : EventQueue) : bool := overflow q.

(** * Accounting and numbering *)
Definition entry_bytes (e : Entry) : Z := zlen (payload e).

(** Sequence numbers of the queued entries: consecutive, ending just before
    [next], modulo the width of the counter. *)
Fixpoint numbered (next : Z) (l : list Entry) : Prop :=
  match l with
  | [] => True
  | e :: l' => sequence (event e) = u64 (next - zlen l) ∧ numbered next l'
  end.

Record queue_ok (q : EventQueue) : Prop := {
  ok_count_limit : is_u64 (max_count q);
  ok_bytes_limit : is_u64 (max_bytes q);
  ok_sequence : is_u64 (next_sequence q);
  ok_bytes : bytes_ q = total entry_bytes (entries q);
  ok_bytes_bound : bytes_ q ≤ max_bytes q;
  ok_count : zlen (entries q) ≤ max_count q;
  ok_sizes : Forall (λ e, payload_size (event e) = zlen (payload e)) (entries q);
  ok_numbered : numbered (next_sequence q) (entries q);
  ok_overflow : overflow q = true → entries q = [];
  ok_reported : overflow_reported q = true → overflow q = true;
}.

Lemma entry_bytes_nonneg e : 0 ≤ entry_bytes e.
Proof. apply zlen_nonneg. Qed.
Lemma entries_total_nonneg l : 0 ≤ total entry_bytes l.
Proof. apply total_nonneg, entry_bytes_nonneg. Qed.
#[export] Hint Resolve entry_bytes_nonneg entries_total_nonneg zlen_nonneg : engine.

Lemma u64_sub_l a b : u64 (u64 a - b) = u64 (a - b).
Proof. unfold u64. by rewrite Zminus_mod_idemp_l. Qed.

Lemma numbered_snoc next l e :
  numbered next l → sequence (event e) = u64 next → numbered (u64 (next + 1)) (l ++ [e]).
Proof.
  intros Hl He. induction l as [|x l IH]; simpl in *.
  - split; [|done]. rewrite He, u64_sub_l. f_equal. rewrite zlen_cons, zlen_nil. lia.
  - destruct Hl as [Hx Hl]. split; [|by apply IH]. rewrite Hx, u64_sub_l. f_equal. zlens.
Qed.

Lemma numbered_range next l : numbered next l → Forall (λ e, is_u64 (sequence (event e))) l.
Proof.
  induction l as [|e l IH]; simpl; [done|]. intros [He Hl].
  constructor; [rewrite He; apply u64_range|by apply IH].
Qed.

Lemma new_queue_ok count bytes : is_u64 count → is_u64 bytes → queue_ok (new_queue count bytes).
Proof. unfold is_u64. intros Hc Hb. split; simpl; try done; try lia; rewrite ?zlen_nil; lia. Qed.

Lemma push_room q : queue_ok q → u64 (max_bytes q - bytes_ q) = max_bytes q - bytes_ q.
Proof.
  intros Hq. apply u64_small. pose proof (entries_total_nonneg (entries q)).
  destruct Hq. unfold is_u64 in *. lia.
Qed.

Lemma overflowed_queue_ok q : queue_ok q → queue_ok (overflowed_queue q).
Proof.
  intros []. split; simpl; try done; rewrite ?zlen_nil; unfold is_u64 in *; lia.
Qed.

Lemma push_queue_ok alloc k p data q : queue_ok q → queue_ok (push alloc k p data q).2.
Proof.
  intros Hq. unfold push. destruct (stopped q || overflow q) eqn:Eso; [done|]. bprop.
  destruct (_ || _ || negb alloc) eqn:E; [by apply overflowed_queue_ok|].
  bprop. rewrite (push_room q Hq) in *.
  pose proof (entries_total_nonneg (entries q)). pose proof (zlen_nonneg data).
  destruct Hq as [Hc Hb Hseq Hby Hle Hcnt Hsz Hnum Hov Hrep]. unfold is_u64 in *.
  assert (u64 (bytes_ q + zlen data) = bytes_ q + zlen data) as Hbytes
    by (apply u64_small; unfold is_u64; lia).
  split; simpl; rewrite ?Hbytes; try done; try lia.
  - apply u64_range.
  - rewrite total_app, <- Hby. unfold entry_bytes. simpl. lia.
  - zlens.
  - apply Forall_app. by split; [|constructor].
  - apply numbered_snoc; [done|]. simpl. symmetry. by apply u64_small.
  - intros Hr. apply Hrep in Hr. congruence.
Qed.

Lemma poll_queue_ok capacity q : queue_ok q → queue_ok (poll capacity q).2.
Proof.
  intros Hq. unfold poll. destruct (overflow q) eqn:Eo.
  { destruct (overflow_reported q); [done|].
    destruct Hq. rewrite ok_overflow0 in * by done.
    split; simpl; try done. apply u64_range. }
  destruct (entries q) as [|e rest] eqn:Ee; [done|].
  destruct (capacity <? zlen (payload e)); [done|].
  pose proof (entries_total_nonneg rest). pose proof (zlen_nonneg (payload e)).
  destruct Hq as [Hc Hb Hseq Hby Hle Hcnt Hsz Hnum Hov Hrep]. unfold is_u64 in *.
  rewrite Ee in *. simpl in *. unfold entry_bytes at 1 in Hby.
  assert (u64 (bytes_ q - zlen (payload e)) = bytes_ q - zlen (payload e)) as Hbytes
    by (apply u64_small; unfold is_u64; lia).
  rewrite zlen_cons in Hcnt.
  split; simpl; rewrite ?Hbytes; try done; try lia.
  - by inversion Hsz.
  - apply Hnum.
  - intros Hr. apply Hrep in Hr. congruence.
Qed.

Lemma finish_queue_ok q : queue_ok q → queue_ok (finish q).
Proof. by intros []. Qed.

(** * Runs: any interleaving of pushes, polls and finish *)
Inductive Op :=
| DoPush (alloc : bool) (k : EventKind) (p : Peer) (data : bytes)
| DoPoll (capacity : Z)
| DoFinish.

Definition apply_op (q : EventQueue) (o : Op) : EventQueue :=
  match o with
  | DoPush alloc k p data => (push alloc k p data q).2
  | DoPoll capacity => (poll capacity q).2
  | DoFinish => finish q
  end.

(** The entry a push adds, and the one a poll hands over. *)
Definition accepted (q : EventQueue) (o : Op) : list Entry :=
  match o with
  | DoPush alloc k p data =>
      if (push alloc k p data q).1
      then [mkEntry (mkEvent k p (next_sequence q) (zlen data)) data] else []
  | _ => []
  end.
Definition delivered (q : EventQueue) (o : Op) : list Entry :=
  match o with
  | DoPoll capacity =>
      match poll capacity q with
      | (Ready, Some e, data, _) => [mkEntry e data]
      | _ => []
      end
  | _ => []
  end.
Fixpoint history (f : EventQueue → Op → list Entry) (q : EventQueue) (ops : list Op)
    : list Entry :=
  match ops with
  | [] => []
  | o :: rest => f q o ++ history f (apply_op q o) rest
  end.
(** What the poller sees of each operation. *)
Definition poll_result (q : EventQueue) (o : Op) : list (PollResult * option Event) :=
  match o with DoPoll capacity => [((poll capacity q).1.1)] | _ => [] end.
Fixpoint poll_results (q : EventQueue) (ops : list Op) : list (PollResult * option Event) :=
  match ops with
  | [] => []
  | o :: rest => poll_result q o ++ poll_results (apply_op q o) rest
  end.
Fixpoint count_polls (ops : list Op) : nat :=
  match ops with
  | [] => O
  | DoPoll _ :: rest => S (count_polls rest)
  | _ :: rest => count_polls rest
  end.

Lemma apply_op_ok q o : queue_ok q → queue_ok (apply_op q o).
Proof. destruct o; simpl; auto using push_queue_ok, poll_queue_ok, finish_queue_ok. Qed.

Lemma apply_op_overflow q o : overflow q = true → overflow (apply_op q o) = true.
Proof.
  intros Ho. destruct o; simpl; [| |done].
  - unfold push. rewrite Ho, orb_true_r. done.
  - unfold poll. rewrite Ho. by destruct (overflow_reported q).
Qed.
Lemma runs_overflow ops q : overflow q = true → overflow (runs apply_op q ops) = true.
Proof. apply (runs_invariant apply_op (λ q, overflow q = true)), apply_op_overflow. Qed.

(** One operation, seen from the FIFO: if it does not overflow, what was queued
    plus what it accepts is what it delivers plus what stays queued. *)
Lemma op_fifo q o :
  queue_ok q → overflow (apply_op q o) = false →
  entries q ++ accepted q o = delivered q o ++ entries (apply_op q o).
Proof.
  intros Hq Hov. destruct o as [alloc k p data|capacity|]; simpl in *.
  - unfold push in *. destruct (stopped q || overflow q); simpl; [by rewrite app_nil_r|].
    destruct (_ || _ || negb alloc); [done|]. done.
  - unfold poll in *. destruct (overflow q) eqn:Eo.
    { destruct (overflow_reported q); simpl in Hov; congruence. }
    destruct (entries q) as [|e rest] eqn:Ee; simpl.
    { destruct (stopped q); simpl; by rewrite Ee. }
    destruct (capacity <? zlen (payload e)); simpl; rewrite app_nil_r; [by rewrite Ee|].
    by destruct e.
  - by rewrite app_nil_r.
Qed.

(** C5: every reachable event queue keeps its accounting: the byte counter is the
    total size of the queued payloads and stays within the byte limit, the
    number of entries stays within the count limit, sizes recorded in the events
    are the payload sizes, sequence numbers are consecutive, and an overflowed
    queue holds nothing. *)
Theorem event_queue_accounting count bytes ops :
  is_u64 count → is_u64 bytes → queue_ok (runs apply_op (new_queue count bytes) ops).
Proof.
  intros Hc Hb. apply runs_invariant; [|by apply new_queue_ok].
  intros. by apply apply_op_ok.
Qed.

(** C6: first in, first out, without loss or duplication: along any interleaving
    of producers and the poller, as long as the queue has not overflowed, the
    accepted events are exactly the delivered ones followed by the queued ones,
    in order and with their payloads. *)
Theorem event_queue_fifo count bytes ops :
  is_u64 count → is_u64 bytes →
  let q := new_queue count bytes in
  overflow (runs apply_op q ops) = false →
  history accepted q ops = history delivered q ops ++ entries (runs apply_op q ops).
Proof.
  intros Hc Hb q Hov. change (history accepted q ops) with (entries q ++ history accepted q ops).
  assert (queue_ok q) as Hq by by apply new_queue_ok. revert Hq Hov. generalize q.
  clear q Hc Hb. induction ops as [|o ops IH]; intros q Hq Hov; simpl in *.
  { by rewrite app_nil_r. }
  assert (overflow (apply_op q o) = false) as Ho.
  { destruct (overflow (apply_op q o)) eqn:E; [|done].
    apply (runs_overflow ops) in E. unfold runs in *. congruence. }
  rewrite app_assoc, op_fifo, <- !app_assoc by done. f_equal.
  apply IH; [by apply apply_op_ok|done].
Qed.

Lemma poll_results_reported ops q :
  overflow q = true → overflow_reported q = true →
  poll_results q ops = replicate (count_polls ops) (Stopped, None).
Proof.
  revert q. induction ops as [|o ops IH]; intros q Ho Hr; simpl; [done|].
  destruct o; simpl.
  - unfold push. rewrite Ho, orb_true_r. by apply IH.
  - unfold poll. rewrite Ho, Hr. simpl. by rewrite IH.
  - by apply (IH (finish q)).
Qed.

(** Overflow is terminal and visible once: after it no push is accepted, the
    next poll returns the single Overflow event whatever the buffer capacity,
    and every later poll returns Stopped, along any further operations. *)
Theorem event_queue_overflow_terminal q ops :
  overflow q = true → overflow_reported q = false →
  history accepted q ops = [] ∧
  poll_results q ops = match count_polls ops with
    | O => []
    | S n => (Ready, Some (mkEvent Overflow empty_peer (next_sequence q) 0))
             :: replicate n (Stopped, None)
    end.
Proof.
  intros Ho Hr. split.
  - revert q Ho Hr. assert (∀ q, overflow q = true → history accepted q ops = []) as H'; [|auto].
    induction ops as [|o ops IH]; intros q Ho; simpl; [done|].
    rewrite IH by by apply apply_op_overflow. rewrite app_nil_r.
    destruct o; simpl; [|done..]. unfold push. by rewrite Ho, orb_true_r.
  - revert q Ho Hr. induction ops as [|o ops IH]; intros q Ho Hr; simpl; [done|].
    destruct o; simpl.
    + unfold push. rewrite Ho, orb_true_r. by apply IH.
    + unfold poll. rewrite Ho, Hr. simpl. by rewrite poll_results_reported.
    + by apply (IH (finish q)).
Qed.

(** A too-small buffer loses nothing: the poll reports the event with its true
    payload size, leaves the queue unchanged, and a retry with a buffer of that
    size returns the same event with its whole payload. *)
Theorem event_queue_retry q capacity e data q' :
  queue_ok q → poll capacity q = (BufferTooSmall, e, data, q') →
  q' = q ∧ data = [] ∧
  ∃ ev body rest, e = Some ev ∧ capacity < payload_size ev ∧
    (poll (payload_size ev) q).1 = (Ready, Some ev, body) ∧ zlen body = payload_size ev ∧
    entries q = mkEntry ev body :: rest ∧ entries (poll (payload_size ev) q).2 = rest.
Proof.
  intros Hq. pose proof (ok_sizes _ Hq) as Hsz. unfold poll.
  destruct (overflow q) eqn:Eo; [by destruct (overflow_reported q)|].
  destruct (entries q) as [|[ev body] rest] eqn:Ee; [by destruct (stopped q)|].
  inversion Hsz as [|? ? Hev _]; subst. simpl in *.
  destruct (capacity <? zlen body) eqn:Ec; [|done]. intros [= <- <- <-]. bprop.
  split_and!; [done..|]. exists ev, body, rest. rewrite Hev, Z.ltb_irrefl. simpl. done.
Qed.

Definition demo_peer : Peer := mkPeer 1 1 Tcp [x31] 9000.
Definition demo_ops : list Op :=
  [DoPush true Open demo_peer []; DoPush true Message demo_peer [x61; x62; x63];
   DoPoll 0; DoPoll 1; DoPoll 3; DoPush true Close demo_peer []].
Lemma event_queue_accounting_witness :
  is_u64 2 ∧ bytes_ (runs apply_op (new_queue 2 8) (take 2 demo_ops)) = 3 ∧
  queue_ok (runs apply_op (new_queue 2 8) demo_ops).
Proof.
  split_and!; [unfold is_u64; lia | reflexivity |].
  apply event_queue_accounting; unfold is_u64; lia.
Defined.
Lemma event_queue_fifo_witness :
  overflow (runs apply_op (new_queue 2 8) demo_ops) = false ∧
  history accepted (new_queue 2 8) demo_ops
  = history delivered (new_queue 2 8) demo_ops
    ++ entries (runs apply_op (new_queue 2 8) demo_ops) ∧
  length (history delivered (new_queue 2 8) demo_ops) = 2%nat.
Proof.
  split_and!; [reflexivity| |reflexivity].
  apply event_queue_fifo; [unfold is_u64; lia | unfold is_u64; lia | reflexivity].
Defined.
Definition demo_lost : EventQueue :=
  runs apply_op (new_queue 1 8) [DoPush true Open demo_peer []; DoPush true Close demo_peer []].
Lemma event_queue_overflow_terminal_witness :
  overflow demo_lost = true ∧
  poll_results demo_lost [DoPoll 0; DoPush true Open demo_peer []; DoPoll 9]
  = [(Ready, Some (mkEvent Overflow empty_peer 2 0)); (Stopped, None)].
Proof.
  split; [reflexivity|].
  apply (event_queue_overflow_terminal demo_lost
    [DoPoll 0; DoPush true Open demo_peer []; DoPoll 9]); reflexivity.
Defined.
Definition demo_waiting : EventQueue :=
  runs apply_op (new_queue 2 8) [DoPush true Message demo_peer [x61; x62; x63]].
Lemma event_queue_retry_witness :
  poll 2 demo_waiting
  = (BufferTooSmall, Some (mkEvent Message demo_peer 1 3), [], demo_waiting) ∧
  demo_waiting = demo_waiting ∧ @nil byte = [] ∧
  ∃ ev body rest, Some (mkEvent Message demo_peer 1 3) = Some ev ∧ 2 < payload_size ev ∧
    (poll (payload_size ev) demo_waiting).1 = (Ready, Some ev, body) ∧
    zlen body = payload_size ev ∧
    entries demo_waiting = mkEntry ev body :: rest ∧
    entries (poll (payload_size ev) demo_waiting).2 = rest.
Proof.
  split; [reflexivity|]. apply (event_queue_retry demo_waiting 2 _ [] demo_waiting).
  - apply (runs_invariant apply_op queue_ok); [intros; by apply apply_op_ok|].
    apply new_queue_ok; unfold is_u64; lia.
  - reflexivity.
Defined.
