(* ===== verification/HttpCodec.v ===== *)
(** HttpCodec: the private event envelope of an HTTP request
    ([src/src/Net/Async/HttpRequestCodec.cpp]) and the validation of the host's
    responses ([src/src/Net/Async/HttpResponseValidation.cpp]). The codec is
    proved a bijection between well-formed requests and accepted payloads. *)
From S2P Require Import Prelude.
From S2P Require Import Text.
From S2P Require Import NetTypes.

(** [src/src/Net/Async/HttpRequestCodec.h:10-16] *)
Record HttpRequestView := mkView {
  request_id : Z;
  method_offset : Z; method_size : Z;
  target_offset : Z; target_size : Z;
  headers_offset : Z; headers_size : Z;
  body_offset : Z; body_size : Z;
}.

(** [src/src/Net/Async/HttpRequestCodec.h:18-18] *)
Definition http_envelope_bytes : Z := 32.
(** [src/src/Net/Async/HttpRequestCodec.h:19-19] *)
Definition http_header_limit : Z := 16 * 1024.
Definition UINT32_MAX : Z := 2 ^ 32 - 1.

(** [src/src/Net/Async/HttpRequestCodec.cpp:11-14] *)
Definition write_u32 (value : Z) : bytes := le32 value.

(** [src/src/Net/Async/HttpRequestCodec.cpp:16-21] The four bytes at [offset]. *)
Definition read_u32 (l : bytes) (offset : nat) : Z :=
  join32 (nth offset l x00) (nth (offset + 1) l x00)
    (nth (offset + 2) l x00) (nth (offset + 3) l x00).

Definition envelope (id total m t h b : Z) : bytes :=
  [x53; x45; x48; x01] ++ write_u32 total ++ write_u32 (u32 id)
  ++ write_u32 (u32 (Z.shiftr id 32)) ++ write_u32 m ++ write_u32 t
  ++ write_u32 h ++ write_u32 b.

(** [src/src/Net/Async/HttpRequestCodec.cpp:25-47] The error is the thrown
    [std::length_error]. *)
Definition encode_http_request (id : Z) (method target headers body : bytes)
    : result bytes bytes :=
  let total := u64 (http_envelope_bytes + zlen method + zlen target + zlen headers + zlen body) in
  if UINT32_MAX <? total then Err (txt "HTTP event size exceeds encoding range")
  else Ok (envelope id (u32 total) (u32 (zlen method)) (u32 (zlen target))
             (u32 (zlen headers)) (u32 (zlen body))
           ++ method ++ target ++ headers ++ body).

(** [src/src/Net/Async/HttpRequestCodec.cpp:49-72] A null payload is [None]; the
    payload's size is the [size] argument. *)
Definition decode_http_request (payload : option bytes) : option HttpRequestView :=
  match payload with
  | None => None
  | Some l =>
      let size := zlen l in
      if (size <? http_envelope_bytes) || (UINT32_MAX <? size) then None
      else if negb (bool_decide (take 4 l = [x53; x45; x48; x01]))
              || negb (read_u32 l 4 =? size) then None
      else
        let id := Z.lor (read_u32 l 8) (Z.shiftl (read_u32 l 12) 32) in
        let m := read_u32 l 16 in
        let t := read_u32 l 20 in
        let h := read_u32 l 24 in
        let b := read_u32 l 28 in
        let total := u64 (http_envelope_bytes + m + t + h + b) in
        if (id =? 0) || negb (total =? size) || (m =? 0) || (32 <? m)
           || (t =? 0) || (2048 <? t) || (http_header_limit <? h) then None
        else
          let target_offset := u32 (http_envelope_bytes + m) in
          let headers_offset := u32 (target_offset + t) in
          let body_offset := u32 (headers_offset + h) in
          Some (mkView id http_envelope_bytes m target_offset t headers_offset h body_offset b)
  end.

(** The bytes an offset and a size name in the payload. *)
Definition slice (l : bytes) (offset size : Z) : bytes :=
  take (Z.to_nat size) (drop (Z.to_nat offset) l).

(** What the connection puts in a request: the limits of HttpConnection. *)
Definition encodable (id : Z) (method target headers body : bytes) : Prop :=
  0 < id < 2 ^ 64 ∧ 0 < zlen method ≤ 32 ∧ 0 < zlen target ≤ 2048 ∧
  zlen headers ≤ http_header_limit ∧
  32 + zlen method + zlen target + zlen headers + zlen body ≤ UINT32_MAX.

Definition reads_as (l : bytes) (v : HttpRequestView) (id : Z)
    (method target headers body : bytes) : Prop :=
  request_id v = id ∧ slice l (method_offset v) (method_size v) = method ∧
  slice l (target_offset v) (target_size v) = target ∧
  slice l (headers_offset v) (headers_size v) = headers ∧
  slice l (body_offset v) (body_size v) = body.

Lemma split_id id : is_u64 id → Z.lor (u32 id) (Z.shiftl (u32 (Z.shiftr id 32)) 32) = id.
Proof.
  unfold is_u64, u32. intros Hid. rewrite lor_shift_add by (lia || (apply Z.mod_pos_bound; lia)).
  rewrite Z.shiftr_div_pow2 by lia.
  rewrite (Z.mod_small (id / 2 ^ 32)).
  - pose proof (Z.div_mod id (2 ^ 32)). lia.
  - split; [apply Z.div_pos; lia|]. apply Z.div_lt_upper_bound; lia.
Qed.

Lemma read_write_u32 v rest : is_u32 v → read_u32 (write_u32 v ++ rest) 0 = v.
Proof. intros Hv. unfold read_u32, write_u32, le32. simpl. by apply join32_le. Qed.

Lemma read_u32_range l n : is_u32 (read_u32 l n).
Proof. apply join32_range. Qed.

Lemma envelope_fields id total m t h b rest :
  is_u32 total → is_u32 m → is_u32 t → is_u32 h → is_u32 b →
  let l := envelope id total m t h b ++ rest in
  take 4 l = [x53; x45; x48; x01] ∧ read_u32 l 4 = total ∧ read_u32 l 8 = u32 id ∧
  read_u32 l 12 = u32 (Z.shiftr id 32) ∧ read_u32 l 16 = m ∧ read_u32 l 20 = t ∧
  read_u32 l 24 = h ∧ read_u32 l 28 = b ∧ length l = (32 + length rest)%nat.
Proof.
  intros. unfold l, envelope, read_u32, write_u32, le32. simpl.
  rewrite !join32_le by (done || apply u32_range). done.
Qed.

Lemma slice_app l k n m : n = zlen l → m = zlen k → ∀ rest, slice (l ++ k ++ rest) n m = k.
Proof.
  intros -> -> rest. unfold slice, zlen. rewrite !Nat2Z.id.
  rewrite drop_app_length. apply take_app_length.
Qed.

Lemma encode_ok id method target headers body :
  encodable id method target headers body →
  encode_http_request id method target headers body
  = Ok (envelope id (32 + zlen method + zlen target + zlen headers + zlen body)
          (zlen method) (zlen target) (zlen headers) (zlen body)
        ++ method ++ target ++ headers ++ body).
Proof.
  unfold encodable, UINT32_MAX, http_header_limit. intros (Hid & Hm & Ht & Hh & Htot).
  pose proof (zlen_nonneg headers). pose proof (zlen_nonneg body).
  unfold encode_http_request, http_envelope_bytes, UINT32_MAX.
  rewrite u64_small by (unfold is_u64; lia).
  replace (2 ^ 32 - 1 <? _) with false by lia.
  rewrite !u32_small by (unfold is_u32; lia). done.
Qed.

Lemma encode_decode id method target headers body :
  encodable id method target headers body →
  ∃ l v, encode_http_request id method target headers body = Ok l ∧
    decode_http_request (Some l) = Some v ∧ reads_as l v id method target headers body.
Proof.
  intros He. pose proof He as (Hid & Hm & Ht & Hh & Htot). unfold UINT32_MAX in *.
  pose proof (zlen_nonneg headers). pose proof (zlen_nonneg body).
  unfold http_header_limit in *.
  eexists. eexists. split; [by apply encode_ok|].
  set (rest := method ++ target ++ headers ++ body).
  destruct (envelope_fields id (32 + zlen method + zlen target + zlen headers + zlen body)
    (zlen method) (zlen target) (zlen headers) (zlen body) rest)
    as (E0 & E4 & E8 & E12 & E16 & E20 & E24 & E28 & Elen); try (unfold is_u32; lia).
  set (env := envelope _ _ _ _ _ _) in *.
  assert (zlen rest = zlen method + zlen target + zlen headers + zlen body) as Hrest
    by (unfold rest; zlens).
  assert (zlen (env ++ rest) = 32 + zlen rest) as Hlen by (unfold zlen; lia).
  assert (zlen env = 32) as Henv by (rewrite zlen_app in Hlen; lia).
  split.
  - unfold decode_http_request, UINT32_MAX, http_envelope_bytes, http_header_limit.
    rewrite E0, E4, E8, E12, E16, E20, E24, E28, Hlen, Hrest.
    rewrite split_id by (unfold is_u64; lia). rewrite bool_decide_true by done.
    rewrite u64_small by (unfold is_u64; lia).
    rewrite !u32_small by (unfold is_u32; lia).
    match goal with |- (if ?c then _ else _) = _ => replace c with false by lia end.
    match goal with |- (if ?c then _ else _) = _ => replace c with false by lia end.
    match goal with |- (if ?c then _ else _) = _ => replace c with false by lia end.
    reflexivity.
  - unfold reads_as, rest. cbn [request_id method_offset method_size target_offset
      target_size headers_offset headers_size body_offset body_size].
    split_and!; [done| | | |].
    + by apply slice_app.
    + rewrite app_assoc. apply slice_app; zlens.
    + rewrite !app_assoc, <- (app_assoc _ headers). apply slice_app; zlens.
    + rewrite !app_assoc, <- (app_nil_r (_ ++ body)), <- app_assoc. apply slice_app; zlens.
Qed.

(** Decoding an encoded request gives back its identifier and, at the offsets
    it reports, exactly the method, target, headers and body that were encoded. *)
Theorem http_request_roundtrip id method target headers body :
  encodable id method target headers body →
  ∃ l v, encode_http_request id method target headers body = Ok l ∧
    decode_http_request (Some l) = Some v ∧ reads_as l v id method target headers body.
Proof. apply encode_decode. Qed.

Lemma destruct_envelope (l : bytes) :
  32 ≤ zlen l → take 4 l = [x53; x45; x48; x01] →
  l = envelope (Z.lor (read_u32 l 8) (Z.shiftl (read_u32 l 12) 32)) (read_u32 l 4)
        (read_u32 l 16) (read_u32 l 20) (read_u32 l 24) (read_u32 l 28) ++ drop 32 l.
Proof.
  intros Hlen H4. unfold envelope.
  assert (∀ n, (n + 4 ≤ length l)%nat → write_u32 (read_u32 l n) = take 4 (drop n l)) as Hw.
  { intros n Hn. assert (∃ a b c d k, drop n l = a :: b :: c :: d :: k) as (a & b & c & d & k & Hd).
    { pose proof (length_drop l n). destruct (drop n l) as [|a [|b [|c [|d k]]]];
      simpl in *; try lia. eauto 10. }
    assert (∀ i, nth (n + i) l x00 = nth i (drop n l) x00) as Hnth.
    { intros i. rewrite !nth_lookup, lookup_drop. done. }
    unfold read_u32. rewrite !Hnth, <- (Nat.add_0_r n), Hnth, Nat.add_0_r, Hd. simpl.
    unfold write_u32, le32. rewrite join32_add.
    pose proof (byte_Z_range a). pose proof (byte_Z_range b).
    pose proof (byte_Z_range c). pose proof (byte_Z_range d).
    assert (∀ v x, v mod 256 = byte_Z x → Z_byte v = x) as Hz.
    { intros v x Hv. rewrite <- (Z_byte_byte_Z x), <- Hv. unfold Z_byte, u8.
      change (2 ^ 8) with 256. by rewrite Zmod_mod. }
    rewrite !Z.shiftr_div_pow2 by lia.
    change (2 ^ 8) with 256. change (2 ^ 16) with 65536. change (2 ^ 24) with 16777216.
    repeat (f_equal; [apply Hz; dlia|]). f_equal. apply Hz. dlia. }
  unfold zlen in Hlen.
  assert (u32 (Z.lor (read_u32 l 8) (Z.shiftl (read_u32 l 12) 32)) = read_u32 l 8 ∧
    u32 (Z.shiftr (Z.lor (read_u32 l 8) (Z.shiftl (read_u32 l 12) 32)) 32) = read_u32 l 12)
    as [-> ->].
  { pose proof (read_u32_range l 8) as H8. pose proof (read_u32_range l 12) as H12.
    unfold is_u32 in *. rewrite lor_shift_add by lia. unfold u32.
    rewrite Z.shiftr_div_pow2, Z.div_add by lia.
    rewrite (Z.div_small (read_u32 l 8)), Z_mod_plus_full by lia.
    rewrite !Z.mod_small by lia. done. }
  rewrite !Hw by lia. rewrite <- H4.
  rewrite <- (take_drop 4 l) at 1. rewrite <- !app_assoc. f_equal.
  do 6 (rewrite <- (take_drop 4 (drop _ l)) at 1; rewrite drop_drop; f_equal).
  rewrite <- (take_drop 4 (drop _ l)) at 1. by rewrite drop_drop.
Qed.

Lemma drop_slice l off n :
  0 ≤ off → 0 ≤ n → drop (Z.to_nat off) l = slice l off n ++ drop (Z.to_nat (off + n)) l.
Proof.
  intros Ho Hn. unfold slice. rewrite Z2Nat.inj_add, <- drop_drop by lia.
  by rewrite take_drop.
Qed.

Lemma slices_concat l o m t h b :
  0 ≤ o → 0 ≤ m → 0 ≤ t → 0 ≤ h → 0 ≤ b → o + m + t + h + b = zlen l →
  drop (Z.to_nat o) l
  = slice l o m ++ slice l (o + m) t ++ slice l (o + m + t) h ++ slice l (o + m + t + h) b.
Proof.
  intros ????? Hl.
  rewrite (drop_slice l o m), (drop_slice l (o + m) t), (drop_slice l (o + m + t) h),
    (drop_slice l (o + m + t + h) b) by lia.
  rewrite Hl. unfold zlen. by rewrite Nat2Z.id, drop_all, app_nil_r.
Qed.

(** The decoder accepts only well-formed payloads: an accepted payload is
    byte for byte the encoding of the request its view describes; the four
    fields are contiguous, in bounds and within their size limits. *)
Theorem http_decode_sound l v :
  decode_http_request (Some l) = Some v →
  (method_offset v = 32 ∧ target_offset v = 32 + method_size v ∧
   headers_offset v = target_offset v + target_size v ∧
   body_offset v = headers_offset v + headers_size v ∧
   body_offset v + body_size v = zlen l) ∧
  0 < method_size v ≤ 32 ∧ 0 < target_size v ≤ 2048 ∧ headers_size v ≤ http_header_limit ∧
  encode_http_request (request_id v) (slice l (method_offset v) (method_size v))
    (slice l (target_offset v) (target_size v)) (slice l (headers_offset v) (headers_size v))
    (slice l (body_offset v) (body_size v)) = Ok l.
Proof.
  unfold decode_http_request, UINT32_MAX, http_envelope_bytes, http_header_limit.
  destruct (_ || (_ <? zlen l)) eqn:E1; [done|].
  destruct (negb (bool_decide _) || _) eqn:E2; [done|].
  pose proof (read_u32_range l 8) as R8. pose proof (read_u32_range l 12) as R12.
  pose proof (read_u32_range l 16) as Rm. pose proof (read_u32_range l 20) as Rt.
  pose proof (read_u32_range l 24) as Rh. pose proof (read_u32_range l 28) as Rb.
  pose proof (destruct_envelope l) as Hl.
  set (id := Z.lor _ _) in *. set (m := read_u32 l 16) in *. set (t := read_u32 l 20) in *.
  set (h := read_u32 l 24) in *. set (b := read_u32 l 28) in *.
  destruct ((id =? 0) || _ || _ || _ || _ || _ || _) eqn:E3; [done|].
  intros [= <-]. bprop. unfold is_u32 in *.
  rewrite u64_small in * by (unfold is_u64; lia).
  cbn [request_id method_offset method_size target_offset target_size headers_offset
    headers_size body_offset body_size].
  rewrite (u32_small (32 + m)) by (unfold is_u32; lia).
  rewrite (u32_small (32 + m + t)) by (unfold is_u32; lia).
  rewrite (u32_small (32 + m + t + h)) by (unfold is_u32; lia).
  split_and!; try lia.
  specialize (Hl ltac:(lia) ltac:(done)).
  assert (∀ off n, 0 ≤ off → 0 ≤ n → off + n ≤ zlen l → zlen (slice l off n) = n) as Hs.
  { intros off n Ho Hn Hb'. unfold slice, zlen in *. rewrite length_take, length_drop. lia. }
  rewrite encode_ok.
  - rewrite !Hs by lia.
    replace (32 + m + t + h + b) with (read_u32 l 4) by lia.
    f_equal. transitivity (envelope id (read_u32 l 4) m t h b ++ drop 32 l); [|done].
    f_equal. symmetry. apply (slices_concat l 32 m t h b); lia.
  - unfold encodable, UINT32_MAX, http_header_limit. rewrite !Hs by lia.
    assert (is_u64 id) as Hid64.
    { unfold id. rewrite lor_shift_add by lia. unfold is_u64. lia. }
    unfold is_u64 in *. split_and!; lia.
Qed.

Lemma http_request_roundtrip_witness :
  encodable 7 (txt "GET") (txt "/a?b=1") (txt "Host: x") [x00; x01] ∧
  ∃ l v, encode_http_request 7 (txt "GET") (txt "/a?b=1") (txt "Host: x") [x00; x01] = Ok l ∧
    decode_http_request (Some l) = Some v ∧
    reads_as l v 7 (txt "GET") (txt "/a?b=1") (txt "Host: x") [x00; x01].
Proof.
  assert (encodable 7 (txt "GET") (txt "/a?b=1") (txt "Host: x") [x00; x01]) as He
    by (vm_compute; repeat split; congruence).
  split; [exact He|]. exact (http_request_roundtrip _ _ _ _ _ He).
Defined.

Definition demo_payload : bytes :=
  match encode_http_request 7 (txt "GET") (txt "/a") [] [x00] with Ok l => l | Err _ => [] end.
Lemma http_decode_sound_witness :
  decode_http_request (Some demo_payload) = Some (mkView 7 32 3 35 2 37 0 37 1) ∧
  encode_http_request 7 (slice demo_payload 32 3) (slice demo_payload 35 2)
    (slice demo_payload 37 0) (slice demo_payload 37 1) = Ok demo_payload.
Proof.
  split; [reflexivity|].
  exact (proj2 (proj2 (proj2 (proj2 (http_decode_sound demo_payload
    (mkView 7 32 3 35 2 37 0 37 1) eq_refl))))).
Defined.

(** * Response validation *)

(** [src/src/Net/Async/HttpResponseValidation.cpp:10-15] *)
Definition token_character (b : byte) : bool :=
  let value := byte_Z b in
  ((97 <=? value) && (value <=? 122)) || ((65 <=? value) && (value <=? 90))
  || ((48 <=? value) && (value <=? 57))
  || bool_decide (b ∈ txt "!#$%&'*+-.^_`|~").

(** [src/src/Net/Async/HttpResponseValidation.cpp:17-22] *)
Definition valid_value (l : bytes) : bool :=
  forallb (λ b, bool_decide (b = x09) || ((32 <=? byte_Z b) && negb (byte_Z b =? 127))) l.

Definition engine_headers : list bytes :=
  [txt "Content-Length"; txt "Transfer-Encoding"; txt "Connection"; txt "Upgrade";
   txt "Trailer"; txt "Keep-Alive"; txt "Proxy-Connection"; txt "TE"; txt "Content-Type"].

Section Validation.
(** Boost.Beast's comparison of field names, [boost::beast::iequals]. *)
Variable iequals : bytes → bytes → bool.

(** [src/src/Net/Async/HttpResponseValidation.cpp:24-31] *)
Definition engine_header (name : bytes) : bool := existsb (iequals name) engine_headers.

Definition valid_header (h : HttpHeader) : bool :=
  negb (bool_decide (header_name h = [])) && (zlen (header_name h) <=? 128)
  && forallb token_character (header_name h) && (zlen (header_value h) <=? 8192)
  && valid_value (header_value h) && negb (engine_header (header_name h)).

(** [src/src/Net/Async/HttpResponseValidation.cpp:53-60] {validate_http_response}
    The header loop, accumulating the conservative size of the header block. *)
Fixpoint validate_headers (hs : list HttpHeader) (header_bytes : Z) : result bytes Z :=
  match hs with
  | [] => Ok header_bytes
  | h :: rest =>
      if negb (valid_header h) then
        Err (txt "Invalid HTTP header or attempt to override an engine-owned header")
      else
        let header_bytes' := header_bytes + zlen (header_name h) + zlen (header_value h) + 4 in
        if http_header_limit <? header_bytes' then
          Err (txt "HTTP response headers exceed 16 KiB")
        else validate_headers rest header_bytes'
  end.

(** [src/src/Net/Async/HttpResponseValidation.cpp:35-62] *)
Definition validate_http_response (r : HttpResponse) (max_body_bytes : Z) : result bytes Z :=
  let status := status_code_ r in
  if (status <? 200) || (599 <? status) then
    Err (txt "HTTP response status must be 200..599")
  else if max_body_bytes <? zlen (body r) then
    Err (txt "HTTP response body exceeds configured message limit")
  else if ((status =? 204) || (status =? 205) || (status =? 304))
          && negb (bool_decide (body r = [])) then
    Err (txt "HTTP 204/205/304 require an empty body")
  else if bool_decide (content_type r = []) || (1024 <? zlen (content_type r))
          || negb (valid_value (content_type r)) || (64 <? zlen (headers r)) then
    Err (txt "Invalid HTTP content type or header count")
  else validate_headers (headers r) (256 + zlen (content_type r)).

Definition header_cost (h : HttpHeader) : Z :=
  zlen (header_name h) + zlen (header_value h) + 4.

Lemma validate_headers_ok hs n total_bytes :
  validate_headers hs n = Ok total_bytes →
  total_bytes = n + total header_cost hs ∧ forallb valid_header hs = true ∧
  (hs ≠ [] → total_bytes ≤ http_header_limit).
Proof.
  revert n. induction hs as [|h hs IH]; intros n; simpl.
  - intros [= <-]. split; [lia|done].
  - destruct (valid_header h); [|done]. simpl.
    destruct (http_header_limit <? _) eqn:E; [done|]. intros H'. bprop.
    pose proof (IH _ H') as (Htot & Hall & Hlim). unfold header_cost at 1.
    split_and!; [lia|done|]. intros _. destruct hs; [|by apply Hlim].
    simpl in H'. injection H' as <-. lia.
Qed.

(** A byte that would end a header line. *)
Definition injects (l : bytes) : bool := bool_decide (x0d ∈ l) || bool_decide (x0a ∈ l).

Lemma forallb_no_injection p l :
  p x0d = false → p x0a = false → forallb p l = true → injects l = false.
Proof.
  intros Hr Hn Hl. unfold injects.
  assert (∀ b, p b = false → b ∉ l) as Hout.
  { intros b Hb Hin. rewrite forallb_forall in Hl.
    apply list_elem_of_In, Hl in Hin. congruence. }
  by rewrite !bool_decide_false by auto.
Qed.

Lemma valid_value_no_injection l : valid_value l = true → injects l = false.
Proof. by apply forallb_no_injection. Qed.
Lemma token_no_injection l : forallb token_character l = true → injects l = false.
Proof. by apply forallb_no_injection. Qed.

Hypothesis iequals_ignores_case : ∀ a b,
  iequals a b = bool_decide (lowercase_copy a = lowercase_copy b).

(** C39: a response the engine accepts cannot split the response or override the
    framing: the status is final and in range, no header name, header value or
    content type contains CR or LF, no header is an engine-owned field in any
    letter case, and the computed size is that of the header block. *)
Theorem validated_response_safe r max_body header_bytes :
  validate_http_response r max_body = Ok header_bytes →
  200 ≤ status_code_ r ≤ 599 ∧ zlen (body r) ≤ max_body ∧ zlen (headers r) ≤ 64 ∧
  injects (content_type r) = false ∧
  Forall (λ h, injects (header_name h) = false ∧ injects (header_value h) = false ∧
    ∀ reserved, reserved ∈ engine_headers →
      lowercase_copy (header_name h) ≠ lowercase_copy reserved) (headers r) ∧
  header_bytes = 256 + zlen (content_type r) + total header_cost (headers r) ∧
  header_bytes ≤ http_header_limit.
Proof.
  unfold validate_http_response. intros Hv. repeat casehyp; try done. bprop.
  apply validate_headers_ok in Hv as (Htot & Hall & Hlim).
  split_and!; try lia; try (by apply valid_value_no_injection).
  - apply Forall_forall. intros h Hh. rewrite forallb_forall in Hall.
    apply list_elem_of_In, Hall in Hh. unfold valid_header in Hh. bprop.
    split_and!; [by apply token_no_injection|by apply valid_value_no_injection|].
    intros reserved Hin Heq.
    assert (engine_header (header_name h) = true) as Hc; [|congruence].
    apply existsb_exists. exists reserved. split; [by apply list_elem_of_In|].
    rewrite iequals_ignores_case. by apply bool_decide_true.
  - destruct (headers r); [simpl in *; unfold http_header_limit; lia|by apply Hlim].
Qed.
End Validation.

Definition ascii_iequals (a b : bytes) : bool :=
  bool_decide (lowercase_copy a = lowercase_copy b).
Definition demo_response : HttpResponse :=
  mkHttpResponse 200 false (txt "text/plain") [mkHttpHeader (txt "X-Id") (txt "7")] (txt "hi").
Lemma validated_response_safe_witness :
  validate_http_response ascii_iequals demo_response 16 = Ok 275 ∧
  275 = 256 + zlen (content_type demo_response) + total header_cost (headers demo_response).
Proof.
  split; [reflexivity|].
  exact (proj1 (proj2 (proj2 (proj2 (proj2 (proj2 (validated_response_safe ascii_iequals
    (λ a b, eq_refl) demo_response 16 275 eq_refl))))))).
Defined.
