(* ===== verification/TlsContext.v ===== *)
(** TlsContext: how a listener's TLS context is made ([src/src/Net/Async/TlsContext.cpp]):
    the two PEM files, the policy, the key, every early return and every exception caught.
    OpenSSL is the class [OpenSsl]; what the file system answers is an argument. *)
From S2P Require Import Prelude.
From S2P Require Import Text.
From S2P Require Import NetTypes.

(** A call that configures a context: accepted or not. *)
Inductive SslCall :=
| SetMinProto (version : Z) | SetMaxProto (version : Z)
| SetGroups (list : bytes) | SetCiphersuites (list : bytes)
| SetMaxEarlyData (n : Z) | NoCompression | NoPassword
| UseCertificateChain (pem : bytes) | UsePrivateKey (pem : bytes) | CheckPrivateKey.
Class OpenSsl (C : Type) := {
  new_context : option C;
  ssl_call : SslCall → C → bool * C;
  (** The algorithm of the context's private key and its size, if it has one. *)
  private_key : C → option (bytes * Z);
}.
Definition TLS1_3_VERSION : Z := 772.
(** [src/src/Net/Async/TlsContext.cpp:20-20] *)
Definition max_pem_file_bytes : Z := 1024 * 1024.

(** What opening a path comes to: an exception of the file system, no file, or a file of a
    size, all of which could be read or not, and what reading it left in the buffer. *)
Inductive File := Inaccessible | Unopened | Opened (size : Z) (all : bool) (content : bytes).
(** What the body of [make_tls_context] ends with. *)
Inductive Ending (C : Type) := Made (context : C) | Rejected (message : bytes) | PathError | OtherError.
Arguments Made {C}. Arguments Rejected {C}. Arguments PathError {C}. Arguments OtherError {C}.

Section TlsContext.
Context {C : Type} `{OpenSsl C}.
(** The file at a path; whether a buffer of a size can be had. *)
Context (file : bytes → File) (alloc : Z → bool).

(** [src/src/Net/Async/TlsContext.cpp:39-57] Whether it was read, and what the buffer then
    holds, or the exception. *)
Definition read_pem_file (path : bytes) : result (Ending C) (bool * bytes) :=
  if bool_decide (path = []) || bool_decide (x00 ∈ path) then Ok (false, [])
  else match file path with
  | Inaccessible => Err PathError
  | Unopened => Ok (false, [])
  | Opened size all content =>
      if (size <=? 0) || (max_pem_file_bytes <? size) then Ok (false, [])
      else if negb (alloc size) then Err OtherError
      else Ok (all, content)
  end.
(** Calls made one after the other, as long as they are accepted. *)
Fixpoint calls (l : list SslCall) (c : C) : bool * C :=
  match l with
  | [] => (true, c)
  | call :: l => let '(ok, c) := ssl_call call c in if ok then calls l c else (false, c)
  end.
Definition tls_policy : list SslCall :=
  [SetMinProto TLS1_3_VERSION; SetMaxProto TLS1_3_VERSION; SetGroups (txt "P-256:P-384");
   SetCiphersuites (txt "TLS_AES_256_GCM_SHA384:TLS_CHACHA20_POLY1305_SHA256:TLS_AES_128_GCM_SHA256"); SetMaxEarlyData 0].
(** [src/src/Net/Async/TlsContext.cpp:68-89] *)
Definition configure_tls_policy (c : C) : bool * C :=
  let '(ok, c) := calls tls_policy c in if ok then (true, (ssl_call NoCompression c).2) else (false, c).
(** [src/src/Net/Async/TlsContext.cpp:115-146] {make_tls_context} With both files read. *)
Definition build_context (certificate key : bytes) : Ending C :=
  match new_context with
  | None => OtherError
  | Some c =>
      let '(ok, c) := configure_tls_policy c in
      if negb ok then Rejected (txt "TLS 1.3 ECC/AEAD policy could not be configured.")
      else
        let c := (ssl_call NoPassword c).2 in
        let '(ok, c) := ssl_call (UseCertificateChain certificate) c in
        if negb ok then Rejected (txt "TLS certificate chain is not valid PEM.")
        else
          let '(ok, c) := calls [UsePrivateKey key; CheckPrivateKey] c in
          if negb ok then Rejected (txt "TLS private key must be unencrypted PEM matching the certificate.")
          else
            let good := match private_key c with
              | Some (algorithm, bits) => bool_decide (algorithm = txt "EC") && (256 <=? bits) | None => false end in
            if negb good then Rejected (txt "TLS requires an EC server certificate of at least 256 bits.")
            else Made c
  end.
(** [src/src/Net/Async/TlsContext.cpp:103-146] {make_tls_context} The ending, and what the
    two buffers hold when they are destroyed. *)
Definition load_context (config : ListenerConfig) : Ending C * list bytes :=
  match read_pem_file (lc_certificate_chain_file config) with
  | Err e => (e, [[]; []])
  | Ok (false, certificate) =>
      (Rejected (txt "TLS certificate chain file is unreadable, empty, or exceeds 1 MiB."), [certificate; []])
  | Ok (true, certificate) =>
      match read_pem_file (lc_private_key_file config) with
      | Err e => (e, [certificate; []])
      | Ok (false, key) =>
          (Rejected (txt "TLS private key file is unreadable, empty, or exceeds 1 MiB."), [certificate; key])
      | Ok (true, key) => (build_context certificate key, [certificate; key])
      end
  end.
(** [src/src/Net/Async/TlsContext.cpp:31-36] {~PemBuffer} The memory cleansed. *)
Definition cleanse (buffers : list bytes) : list bytes := filter (λ b, b ≠ []) (reverse buffers).
(** [src/src/Net/Async/TlsContext.cpp:93-152] The context or the message, and the memory
    cleansed. *)
Definition make_tls_context (config : ListenerConfig) : result bytes C * list bytes :=
  if negb (bool_decide (lc_security config = Tls))
     || negb (bool_decide (lc_protocol config = Tcp) || bool_decide (lc_protocol config = WebSocket)
              || bool_decide (lc_protocol config = Http))
  then (Err (txt "TLS requires a TCP, WebSocket or HTTP listener."), [])
  else
    let '(ending, buffers) := load_context config in
    (match ending with
     | Made c => Ok c
     | Rejected message => Err message
     | PathError => Err (txt "TLS PEM path is not valid UTF-8 or cannot be accessed.")
     | OtherError => Err (txt "TLS context initialization failed.")
     end, cleanse buffers).

(** ** What comes of it *)
(** A file that was read: its content, of a size allowed. *)
Definition pem_of (path content : bytes) : Prop :=
  ∃ size, file path = Opened size true content ∧ 0 < size ≤ max_pem_file_bytes ∧ x00 ∉ path.
Lemma read_pem_case path ok b : read_pem_file path = Ok (ok, b) → ok = true → pem_of path b.
Proof.
  unfold read_pem_file, pem_of. intros Hr ->. destruct (_ || _) eqn:Hp; [done|]. bprop.
  destruct (file path) as [| |size all content]; try done. destruct (_ || _) eqn:Hs in Hr; try done. bprop.
  destruct (alloc size); simplify_eq/=. exists size. split_and!; try done; lia.
Qed.
Lemma calls_app l l' c : calls (l ++ l') c = let '(ok, c) := calls l c in if ok then calls l' c else (false, c).
Proof. revert c. induction l as [|x l IH]; intros c; [done|]. simpl. destruct (ssl_call x c) as [[] c']; [apply IH|done]. Qed.
(** The messages a caller can be given. *)
Definition diagnostics : list bytes := txt <$>
  ["TLS requires a TCP, WebSocket or HTTP listener."; "TLS certificate chain file is unreadable, empty, or exceeds 1 MiB.";
   "TLS private key file is unreadable, empty, or exceeds 1 MiB."; "TLS 1.3 ECC/AEAD policy could not be configured.";
   "TLS certificate chain is not valid PEM."; "TLS private key must be unencrypted PEM matching the certificate.";
   "TLS requires an EC server certificate of at least 256 bits."; "TLS PEM path is not valid UTF-8 or cannot be accessed.";
   "TLS context initialization failed."]%string.
(** What the body read of the private key. *)
Definition key_read (config : ListenerConfig) (b : bytes) : Prop :=
  lc_security config = Tls ∧ lc_protocol config ∈ [Tcp; WebSocket; Http] ∧
  ∃ certificate ok, read_pem_file (lc_certificate_chain_file config) = Ok (true, certificate) ∧
    read_pem_file (lc_private_key_file config) = Ok (ok, b).
Ltac diagnostic := unfold diagnostics; simpl; repeat first [apply list_elem_of_here | apply list_elem_of_further].
(** A context under the whole policy, with this chain and this key. *)
Definition strict (certificate key : bytes) (c : C) : Prop :=
  ∃ c0 c1 c2, new_context = Some c0 ∧ calls tls_policy c0 = (true, c1) ∧
    c2 = (ssl_call NoPassword (ssl_call NoCompression c1).2).2 ∧
    calls [UseCertificateChain certificate; UsePrivateKey key; CheckPrivateKey] c2 = (true, c) ∧
    ∃ bits, private_key c = Some (txt "EC", bits) ∧ 256 ≤ bits.
Lemma build_case certificate key e : build_context certificate key = e →
  match e with
  | Made c => strict certificate key c
  | Rejected message => message ∈ diagnostics
  | _ => True
  end.
Proof.
  intros <-. unfold build_context. destruct new_context as [c0|] eqn:E0; [|done]. unfold configure_tls_policy.
  destruct (calls tls_policy c0) as [[] c1] eqn:E1; cbn [negb]; [|diagnostic].
  destruct (ssl_call (UseCertificateChain _) _) as [[] c4] eqn:E4; cbn [negb]; [|diagnostic]. cbn [calls].
  destruct (ssl_call (UsePrivateKey _) _) as [[] c5] eqn:E5; cbn [negb]; [|diagnostic].
  destruct (ssl_call CheckPrivateKey _) as [[] c6] eqn:E6; cbn [negb]; [|diagnostic].
  destruct (private_key c6) as [[a bits]|] eqn:E7; [|diagnostic]. destruct (_ && _) eqn:Hk; cbn [negb]; [|diagnostic]. bprop. subst a.
  do 3 eexists. split_and!; try done; [|by exists bits]. cbn [calls]. by rewrite E4, E5, E6.
Qed.
Lemma read_pem_error path e : read_pem_file path = Err e → e = PathError ∨ e = OtherError.
Proof. unfold read_pem_file. intros Hr. repeat (case_match; try done); simplify_eq; auto. Qed.
Lemma made_strict config c : (make_tls_context config).1 = Ok c →
  ∃ certificate key, pem_of (lc_certificate_chain_file config) certificate ∧ pem_of (lc_private_key_file config) key ∧
    strict certificate key c.
Proof.
  unfold make_tls_context, load_context. destruct (_ || _); [done|].
  destruct (read_pem_file (lc_certificate_chain_file config)) as [[[] certificate]|e] eqn:Ec; [|done|by destruct (read_pem_error _ _ Ec) as [-> | ->]].
  destruct (read_pem_file (lc_private_key_file config)) as [[[] key]|e] eqn:Ek; [|done|by destruct (read_pem_error _ _ Ek) as [-> | ->]].
  pose proof (build_case certificate key _ eq_refl) as Hb. destruct (build_context certificate key) as [c'|m| |]; simpl; try done.
  intros [= <-]. exists certificate, key. split_and!; [by eapply read_pem_case..|done].
Qed.
(** C33: A TLS context is made only for a TLS listener over a stream, from two readable PEM
    files of at most a mebibyte, and only when OpenSSL accepted the whole policy (TLS 1.3
    and nothing else, the two groups, the three ciphersuites, no early data), the chain,
    and a private key that matches it and is an EC key of at least 256 bits. Otherwise the
    caller gets one of nine fixed messages, which carry no path, no file content and no
    diagnostic of OpenSSL; and in every case, exceptions included, what was read of the
    private key has been cleansed. *)
Theorem tls_context_strict config :
  let '(r, cleansed) := make_tls_context config in
  match r with
  | Ok c => lc_security config = Tls ∧ lc_protocol config ∈ [Tcp; WebSocket; Http] ∧
      ∃ certificate key, pem_of (lc_certificate_chain_file config) certificate ∧ pem_of (lc_private_key_file config) key ∧
        strict certificate key c
  | Err message => message ∈ diagnostics
  end ∧ ∀ b, key_read config b → b ≠ [] → b ∈ cleansed.
Proof.
  unfold make_tls_context. destruct (_ || _) eqn:Hg.
  { split; [diagnostic|]. intros b (Hs & Hp & _) _. exfalso. rewrite Hs in Hg.
    rewrite !elem_of_cons, elem_of_nil in Hp. destruct Hp as [E|[E|[E|[]]]]; rewrite E in Hg; vm_compute in Hg; done. }
  apply orb_false_iff in Hg as [Hsec Hstream]. apply negb_false_iff, bool_decide_eq_true in Hsec.
  assert (lc_protocol config ∈ [Tcp; WebSocket; Http]) as Hin.
  { apply negb_false_iff in Hstream. rewrite !orb_true_iff, !bool_decide_eq_true in Hstream. rewrite !elem_of_cons. tauto. }
  unfold load_context.
  destruct (read_pem_file (lc_certificate_chain_file config)) as [[[] certificate]|e] eqn:Ec.
  2: { split; [diagnostic|]. intros b (_ & _ & c' & ok & Hc & _). congruence. }
  2: { split; [destruct (read_pem_error _ _ Ec) as [-> | ->]; diagnostic|]. intros b (_ & _ & c' & ok & Hc & _). congruence. }
  destruct (read_pem_file (lc_private_key_file config)) as [[ok key]|e] eqn:Ek.
  2: { split; [destruct (read_pem_error _ _ Ek) as [-> | ->]; diagnostic|]. intros b (_ & _ & c' & ok & _ & Hk). congruence. }
  assert (∀ b, key_read config b → b ≠ [] → b ∈ cleanse [certificate; key]) as Hcl.
  { intros b (_ & _ & c' & ok' & _ & Hk) Hne. rewrite Ek in Hk. injection Hk as <- <-. unfold cleanse.
    apply list_elem_of_filter. split; [done|]. set_solver. }
  destruct ok; [|split; [diagnostic|exact Hcl]]. split; [|exact Hcl].
  pose proof (build_case certificate key _ eq_refl) as Hb. destruct (build_context certificate key) as [c|m| |]; [|exact Hb|diagnostic..].
  split_and!; [done|done|]. exists certificate, key. split_and!; [by eapply read_pem_case..|done].
Qed.
End TlsContext.

(** ** At work *)
Module Files.
(** A library that records the calls and accepts all but an empty key. *)
#[export] Instance recorder : OpenSsl (list SslCall) := {|
  new_context := Some [];
  ssl_call call l := (match call with UsePrivateKey [] => false | _ => true end, l ++ [call]);
  private_key l := Some (txt "EC", 256);
|}.
Definition file (path : bytes) : File :=
  if bool_decide (path = txt "server.pem") then Opened 4 true (txt "cert") else
  if bool_decide (path = txt "server.key") then Opened 3 true (txt "key") else Unopened.
Definition config (key : bytes) : ListenerConfig :=
  mkListenerConfig 1 Tcp (txt "127.0.0.1") 9443 Tls (txt "server.pem") key (txt "/") 10000.
End Files.
Import Files.
Example tls_context_made :
  make_tls_context file (λ _, true) (config (txt "server.key")) =
    (Ok (tls_policy ++ [NoCompression; NoPassword; UseCertificateChain (txt "cert"); UsePrivateKey (txt "key"); CheckPrivateKey]),
     [txt "key"; txt "cert"]) ∧
  make_tls_context file (λ _, true) (config (txt "other.key")) =
    (Err (txt "TLS private key file is unreadable, empty, or exceeds 1 MiB."), [txt "cert"]).
Proof. split; vm_compute; reflexivity. Qed.
Lemma tls_context_strict_witness :
  (∃ c, (make_tls_context file (λ _, true) (config (txt "server.key"))).1 = Ok c ∧
    strict (txt "cert") (txt "key") c) ∧
  key_read (C:=list SslCall) file (λ _, true) (config (txt "server.key")) (txt "key") ∧
  txt "key" ∈ (make_tls_context file (λ _, true) (config (txt "server.key"))).2.
Proof.
  assert (key_read (C:=list SslCall) file (λ _, true) (config (txt "server.key")) (txt "key")) as Hk.
  { split; [reflexivity|]. split; [apply list_elem_of_here|]. exists (txt "cert"), true. split; vm_compute; reflexivity. }
  pose proof (tls_context_strict file (λ _, true) (config (txt "server.key"))) as T.
  destruct (make_tls_context file (λ _, true) (config (txt "server.key"))) as [r cleansed] eqn:E.
  destruct T as [Hr Hc]. split; [|split; [exact Hk|by apply Hc]].
  vm_compute in E. destruct r as [c|]; [|discriminate E]. exists c. split; [reflexivity|].
  destruct Hr as (_ & _ & certificate & key & (size & Hf & _) & (size' & Hf' & _) & Hs).
  vm_compute in Hf, Hf'. injection Hf as _ <-. injection Hf' as _ <-. exact Hs.
Defined.
