(* ===== verification/WorkerContext.v ===== *)
(** WorkerContext: the registry, the identifier allocators and the guarded
    callbacks every connection shares ([src/src/Net/Async/WorkerContext.cpp],
    [WorkerContext.h]). All of it runs on the single transport worker. [H] is
    the state of the application the callbacks act on. *)
From S2P Require Import Prelude.
From S2P Require Import NetTypes.

(** [src/src/Net/Async/WorkerContext.h:13-32] [connections] is the key set of the
    registry; the connection objects it points to are in [World.objects]. *)
Record WorkerContext (H : Type) := mkContext {
  limits : ServiceLimits;
  callbacks : TransportCallbacks H;
  host : H;
  stopping : bool;
  connections : gset Z;
  next_session_id : Z;
  next_http_request_id : Z;
}.
Arguments mkContext {H}.
Arguments limits {H}. Arguments callbacks {H}. Arguments host {H}.
Arguments stopping {H}. Arguments connections {H}.
Arguments next_session_id {H}. Arguments next_http_request_id {H}.

Section Context.
Context {H : Type}.
Implicit Types c : WorkerContext H.

Definition with_host (h : H) c : WorkerContext H :=
  mkContext (limits c) (callbacks c) h (stopping c) (connections c)
    (next_session_id c) (next_http_request_id c).
Definition with_connections (s : gset Z) c : WorkerContext H :=
  mkContext (limits c) (callbacks c) (host c) (stopping c) s
    (next_session_id c) (next_http_request_id c).

Definition connection_count c : Z := Z.of_nat (size (connections c)).

(** [src/src/Net/Async/WorkerContext.cpp:5-9] Zero means exhausted. *)
Definition allocate_session_id c : Z * WorkerContext H :=
  if next_session_id c =? 0 then (0, c)
  else (next_session_id c,
    mkContext (limits c) (callbacks c) (host c) (stopping c) (connections c)
      (u64 (next_session_id c + 1)) (next_http_request_id c)).

(** [src/src/Net/Async/WorkerContext.cpp:11-15] *)
Definition allocate_http_request_id c : Z * WorkerContext H :=
  if next_http_request_id c =? 0 then (0, c)
  else (next_http_request_id c,
    mkContext (limits c) (callbacks c) (host c) (stopping c) (connections c)
      (next_session_id c) (u64 (next_http_request_id c + 1))).

(** [src/src/Net/Async/WorkerContext.cpp:17-22] [None] is a null pointer. *)
Definition add_connection (connection : option Peer) c : bool * WorkerContext H :=
  match connection with
  | None => (false, c)
  | Some p =>
      if stopping c || (session_id p =? 0)
         || (max_connections (limits c) <=? connection_count c) then (false, c)
      else if bool_decide (session_id p ∈ connections c) then (false, c)
      else (true, with_connections ({[session_id p]} ∪ connections c) c)
  end.

(** A callback that throws counts as a refusal. *)
Definition guarded (r : option bool * H) c : bool * WorkerContext H :=
  (match r.1 with Some b => b | None => false end, with_host r.2 c).

(** [src/src/Net/Async/WorkerContext.cpp:24-28] *)
Definition notify_open (p : Peer) c : bool * WorkerContext H :=
  match on_open (callbacks c) with
  | None => (true, c)
  | Some f => guarded (f p (host c)) c
  end.

(** [src/src/Net/Async/WorkerContext.cpp:30-34] *)
Definition notify_message (p : Peer) (message : bytes) c : bool * WorkerContext H :=
  match on_message (callbacks c) with
  | None => (true, c)
  | Some f => guarded (f p message (host c)) c
  end.

(** [src/src/Net/Async/WorkerContext.cpp:36-40] An HTTP session with no
    HTTP callback is refused. *)
Definition notify_http_request (p : Peer) (request : bytes) c : bool * WorkerContext H :=
  match on_http_request (callbacks c) with
  | None => (false, c)
  | Some f => guarded (f p request (host c)) c
  end.

(** [src/src/Net/Async/WorkerContext.cpp:42-52] *)
Definition remove_connection (p : Peer) (was_open : bool) c : WorkerContext H :=
  if bool_decide (session_id p ∈ connections c) then
    let c' := with_connections (connections c ∖ {[session_id p]}) c in
    match on_close (callbacks c') with
    | Some f => if was_open then with_host (f p (host c')) c' else c'
    | None => c'
    end
  else c.

(** [src/src/Net/Async/WorkerContext.cpp:54-59] *)
Definition report_error (listener : Z) (message : bytes) c : WorkerContext H :=
  match on_error (callbacks c) with
  | Some f => with_host (f listener message (host c)) c
  | None => c
  end.

(** * Identifiers *)

(** A counter that hands out each value once: every value given so far is
    below it, or it is exhausted. *)
Definition issued (next id : Z) : Prop := 0 < id < 2 ^ 64 ∧ (next = 0 ∨ id < next).

Lemma allocate_session_fresh c id c' :
  is_u64 (next_session_id c) → allocate_session_id c = (id, c') → id ≠ 0 →
  ¬ issued (next_session_id c) id ∧ issued (next_session_id c') id ∧
  is_u64 (next_session_id c') ∧
  (∀ old, issued (next_session_id c) old → issued (next_session_id c') old).
Proof.
  unfold allocate_session_id, issued. intros Hn. pose proof Hn as [Hn0 Hn1].
  destruct (next_session_id c =? 0) eqn:E; [by intros [= <- <-]|].
  intros [= <- <-] _. bprop. simpl.
  assert (u64 (next_session_id c + 1) = 0 ∨
    u64 (next_session_id c + 1) = next_session_id c + 1) as Hw.
  { destruct (decide (next_session_id c + 1 = 2 ^ 64)) as [->|].
    - by left.
    - right. apply u64_small. unfold is_u64. lia. }
  destruct (u64_range (next_session_id c + 1)) as [Hr0 Hr1]. unfold is_u64.
  repeat split; try lia. all: destruct Hw; lia.
Qed.
End Context.
