(* ===== verification/World.v ===== *)
(** World: the objects that live on the transport worker. Connections are shared
    mutable objects (the registry, pending completion handlers and, for UDP, the
    listener hold references to them), so they are kept in a store indexed by
    session identifier; removing one from the registry leaves the object in the
    store, where a late completion still finds it. The files that follow model
    one connection class each. *)
From S2P Require Import Prelude.
From S2P Require Import NetTypes.
From S2P Require Import WorkerContext.

(** The operation a stream connection is waiting for. *)
Inductive ReadPhase :=
| Idle
| Handshaking
| ReadingHeader
| ReadingBody (length : Z)
| Upgrading
| ReadingMessage.
#[global] Instance ReadPhase_eq_dec : EqDecision ReadPhase.
Proof. solve_decision. Defined.

(** The outgoing queue of a connection. The queue's front is the item whose
    write is outstanding; [writing] is the copy the completion handler captured,
    and [completed] records the items whose write succeeded. *)
Record SendQueue := mkQueue {
  outgoing : list bytes;
  queued_bytes : Z;
  writing : option bytes;
  completed : list bytes;
}.
Definition empty_queue : SendQueue := mkQueue [] 0 None [].

(** [src/src/Net/Async/TcpConnection.h:143-149] The queue holds whole frames. *)
Record TcpState := mkTcp { tcp_tls : bool; tcp_phase : ReadPhase; tcp_queue : SendQueue }.

(** [src/src/Net/Async/WebSocketConnection.h:152-157] The queue holds payloads. *)
Record WsState := mkWs { ws_tls : bool; ws_phase : ReadPhase; ws_queue : SendQueue }.

(** The response message handed to Beast for writing: the fields the code sets.
    [wr_length] is the explicit [content_length], when it sets one. *)
Record WireResponse := mkWireResponse {
  wr_status : Z;
  wr_keep_alive : bool;
  wr_content_type : option bytes;
  wr_headers : list HttpHeader;
  wr_length : option Z;
  wr_body : bytes;
}.

(** [src/src/Net/Async/HttpConnection.h:243-249] [http_writing] is the message
    whose write is outstanding. *)
Record HttpState := mkHttp {
  http_tls : bool;
  http_phase : ReadPhase;
  http_pending : Z;
  http_head_request : bool;
  http_request_keep_alive : bool;
  http_writing : option WireResponse;
}.

(** [src/src/Net/Async/UdpPeer.h:41-51] *)
Record UdpState := mkUdp { udp_last_received : Z; udp_queue : SendQueue }.

Inductive Wire :=
| TcpWire (t : TcpState)
| WsWire (w : WsState)
| HttpWire (h : HttpState)
| UdpWire (u : UdpState).

(** [src/src/Net/Async/ConnectionState.h:44-53] For a [UdpPeer], [opened] is its
    [was_open_]. [timeout_ms] is the duration of the armed deadline. *)
Record Connection := mkConnection {
  peer : Peer;
  config : ListenerConfig;
  closed : bool;
  opened : bool;
  deadline_generation : Z;
  timeout_ms : Z;
  wire : Wire;
}.

Definition with_closed (c : Connection) (w : Wire) : Connection :=
  mkConnection (peer c) (config c) true (opened c) (deadline_generation c) (timeout_ms c) w.
Definition with_opened (c : Connection) : Connection :=
  mkConnection (peer c) (config c) (closed c) true (deadline_generation c) (timeout_ms c) (wire c).
Definition with_wire (w : Wire) (c : Connection) : Connection :=
  mkConnection (peer c) (config c) (closed c) (opened c) (deadline_generation c) (timeout_ms c) w.

(** [src/src/Net/Async/UdpListener.h:37-47] [ul_receiving]: a receive is
    outstanding; [ul_expiry]: the interval of the armed expiry timer. *)
Record UdpListener := mkUdpListener {
  ul_config : ListenerConfig;
  ul_peers : gmap (bytes * Z) Z;
  ul_started : bool;
  ul_closed : bool;
  ul_receiving : bool;
  ul_expiry : option Z;
}.
Definition with_peers (m : gmap (bytes * Z) Z) (l : UdpListener) : UdpListener :=
  mkUdpListener (ul_config l) m (ul_started l) (ul_closed l) (ul_receiving l) (ul_expiry l).

(** [src/src/Net/Async/TcpListener.cpp:111-115] [tl_tls]: a TLS context was
    loaded; [tl_accepting]: an accept is outstanding. *)
Record TcpListener := mkTcpListener {
  tl_config : ListenerConfig;
  tl_tls : bool;
  tl_closed : bool;
  tl_accepting : bool;
}.

Inductive Listener := ATcpListener (l : TcpListener) | AUdpListener (l : UdpListener).

Record World (H : Type) := mkWorld {
  context : WorkerContext H;
  objects : gmap Z Connection;
  listeners : gmap Z Listener;
}.
Arguments mkWorld {H}.
Arguments context {H}. Arguments objects {H}. Arguments listeners {H}.

Section World.
Context {H : Type}.
Implicit Types w : World H.

Definition on_context (f : WorkerContext H → WorkerContext H) w : World H :=
  mkWorld (f (context w)) (objects w) (listeners w).
Definition put (id : Z) (c : Connection) w : World H :=
  mkWorld (context w) (<[id := c]> (objects w)) (listeners w).
Definition put_listener (id : Z) (l : Listener) w : World H :=
  mkWorld (context w) (objects w) (<[id := l]> (listeners w)).

(** Run a callback of the context and keep its answer. *)
Definition asking (f : WorkerContext H → bool * WorkerContext H) w : bool * World H :=
  let '(b, c) := f (context w) in (b, mkWorld c (objects w) (listeners w)).

(** The operations below act on the connection a handler captured. *)
Definition with_connection (id : Z) (f : Connection → World H → World H) w : World H :=
  match objects w !! id with Some c => f c w | None => w end.

Definition endpoint_of (c : Connection) : bytes * Z := (address (peer c), port (peer c)).

(** [src/src/Net/Async/UdpListener.cpp:67-70] The peer's weak pointer may be
    expired, in which case nothing is forgotten. *)
Definition forget_peer (listener : Z) (endpoint : bytes * Z) w : World H :=
  match listeners w !! listener with
  | Some (AUdpListener l) =>
      put_listener listener (AUdpListener (with_peers (delete endpoint (ul_peers l)) l)) w
  | _ => w
  end.
End World.
