(* ===== verification/ConnectionState.v ===== *)
(** ConnectionState: the life cycle shared by the stream connections — open,
    deliver, fail, close — and the deadline timer
    ([src/src/Net/Async/ConnectionState.cpp]), with the [close] override of each
    class. *)
From S2P Require Import Prelude.
From S2P Require Import Text.
From S2P Require Import NetTypes.
From S2P Require Import WorkerContext.
From S2P Require Import World.

(** * The protocol-specific part of [close] *)
(** What every [close] does to its queue; an outstanding write stays
    outstanding until its completion. *)
Definition clear_queue (q : SendQueue) : SendQueue := mkQueue [] 0 (writing q) (completed q).

(** What each class's [close] does to its own state; [close] below does the rest. *)
(** [src/src/Net/Async/TcpConnection.h:67-75] {close} *)
Definition tcp_close (t : TcpState) : TcpState :=
  mkTcp (tcp_tls t) (tcp_phase t) (clear_queue (tcp_queue t)).
(** [src/src/Net/Async/WebSocketConnection.h:67-75] {close} *)
Definition ws_close (s : WsState) : WsState :=
  mkWs (ws_tls s) (ws_phase s) (clear_queue (ws_queue s)).
(** [src/src/Net/Async/HttpConnection.h:76-85] {close} *)
Definition http_close (h : HttpState) : HttpState :=
  mkHttp (http_tls h) (http_phase h) 0 (http_head_request h) (http_request_keep_alive h)
    (http_writing h).
(** [src/src/Net/Async/UdpPeer.cpp:65-73] {close} *)
Definition udp_close (u : UdpState) : UdpState :=
  mkUdp (udp_last_received u) (clear_queue (udp_queue u)).

Definition close_wire (w : Wire) : Wire :=
  match w with
  | TcpWire t => TcpWire (tcp_close t)
  | WsWire s => WsWire (ws_close s)
  | HttpWire h => HttpWire (http_close h)
  | UdpWire u => UdpWire (udp_close u)
  end.
Definition is_udp (w : Wire) : bool := match w with UdpWire _ => true | _ => false end.

Section ConnectionState.
Context {H : Type}.
Implicit Types w : World H.

(** [src/src/Net/Async/TcpConnection.h:67-75] {close} The virtual [close], the same in
    the four classes but for their own state ([close_wire]): mark and clear,
    forget the UDP route, leave the registry and notify the host if the session
    was open. *)
Definition close (id : Z) w : World H :=
  with_connection id (λ c w,
    if closed c then w
    else
      let w1 := put id (with_closed c (close_wire (wire c))) w in
      let w2 := if is_udp (wire c)
                then forget_peer (listener_id (peer c)) (endpoint_of c) w1 else w1 in
      on_context (remove_connection (peer c) (opened c)) w2) w.

(** [src/src/Net/Async/ConnectionState.cpp:13-29] Each call makes every earlier
    timer stale. *)
Definition arm_deadline (id duration : Z) w : World H :=
  with_connection id (λ c w,
    if closed c then w
    else put id (mkConnection (peer c) (config c) (closed c) (opened c)
           (u64 (deadline_generation c + 1)) duration (wire c)) w) w.

(** [src/src/Net/Async/ConnectionState.cpp:31-34] *)
Definition begin_handshake_deadline (id : Z) w : World H :=
  with_connection id (λ c w, arm_deadline id (lc_handshake_timeout_ms (config c)) w) w.

(** [src/src/Net/Async/ConnectionState.cpp:36-39] *)
Definition touch_idle_deadline (id : Z) w : World H :=
  arm_deadline id (idle_timeout_ms (limits (context w))) w.

(** [src/src/Net/Async/ConnectionState.cpp:41-51] *)
Definition publish_open (id : Z) w : bool * World H :=
  match objects w !! id with
  | None => (false, w)
  | Some c =>
      if closed c then (false, w)
      else match asking (notify_open (peer c)) w with
      | (false, w1) => (false, close id w1)
      | (true, w1) =>
          (true, touch_idle_deadline id (with_connection id (λ c, put id (with_opened c)) w1))
      end
  end.

(** [src/src/Net/Async/ConnectionState.cpp:53-62] *)
Definition publish_message (id : Z) (message : bytes) w : bool * World H :=
  match objects w !! id with
  | None => (false, w)
  | Some c =>
      if closed c then (false, w)
      else match asking (notify_message (peer c) message) w with
      | (false, w1) => (false, close id w1)
      | (true, w1) => (true, touch_idle_deadline id w1)
      end
  end.

Definition report (listener : Z) (message : bytes) w : World H :=
  on_context (report_error listener message) w.

(** [src/src/Net/Async/ConnectionState.cpp:86-96] *)
Definition reject (id : Z) (reason : bytes) w : World H :=
  with_connection id (λ c w,
    if closed c then w
    else close id (report (listener_id (peer c))
           (txt "Session " ++ dec (session_id (peer c)) ++ txt ": " ++ reason) w)) w.

(** The boost error codes the life cycle distinguishes. *)
Inductive IoError := OperationAborted | Eof | OtherError (message : bytes).

(** [src/src/Net/Async/ConnectionState.cpp:72-84] *)
Definition fail (id : Z) (error : IoError) (operation : bytes) w : World H :=
  with_connection id (λ c w,
    if closed c then w
    else
      let w1 := match error with
        | OtherError message =>
            report (listener_id (peer c)) (txt "Session " ++ dec (session_id (peer c))
              ++ txt " " ++ operation ++ txt ": " ++ message) w
        | _ => w
        end in
      close id w1) w.

(** [src/src/Net/Async/ConnectionState.cpp:19-24] {arm_deadline} The timer's
    completion: a timer armed before the last activity is stale. *)
Definition deadline_expired (id generation : Z) w : World H :=
  with_connection id (λ c w,
    if negb (closed c) && (generation =? deadline_generation c)
    then reject id (txt "Connection deadline exceeded") w else w) w.
End ConnectionState.
