(* ===== verification/SendQueue.v ===== *)
(** SendQueue: the bounded outgoing queue that TCP, WebSocket and UDP connections
    keep. Each class charges its own [cost] per item: [TcpConnection] the size of
    the frame, [WebSocketConnection] the payload plus 16, [UdpPeer] the payload
    or 1. The operations are the common part of their [send], [write_next] and
    write-completion code. *)
From S2P Require Import Prelude.
From S2P Require Import Text.
From S2P Require Import NetTypes.
From S2P Require Import WorkerContext.
From S2P Require Import World.
From S2P Require Import ConnectionState.

(** [src/src/Net/Async/TcpConnection.h:121-141] {write_next} Initiate the write
    of the front item; initiation failures are outside the model. *)
Definition write_next (q : SendQueue) : SendQueue :=
  mkQueue (outgoing q) (queued_bytes q) (head (outgoing q)) (completed q).

(** [src/src/Net/Async/TcpConnection.h:49-51] {send} No room for an item of this
    cost. *)
Definition queue_full (max cost : Z) (q : SendQueue) : bool :=
  (1024 <=? zlen (outgoing q)) || (max <? cost) || (max - cost <? queued_bytes q).

(** [src/src/Net/Async/TcpConnection.h:61-62] {send} *)
Definition push (cost : Z) (item : bytes) (q : SendQueue) : SendQueue :=
  mkQueue (outgoing q ++ [item]) (u64 (queued_bytes q + cost)) (writing q) (completed q).

(** [src/src/Net/Async/TcpConnection.h:60-63] {send} *)
Definition enqueue (cost : Z) (item : bytes) (q : SendQueue) : SendQueue :=
  if bool_decide (outgoing q = []) then write_next (push cost item q) else push cost item q.

(** [src/src/Net/Async/TcpConnection.h:130-133] {write_next} The successful
    completion of the outstanding write. *)
Definition write_done (cost : bytes → Z) (q : SendQueue) : SendQueue :=
  match writing q with
  | None => q
  | Some item =>
      let q' := mkQueue (tail (outgoing q)) (u64 (queued_bytes q - cost item)) None
                  (completed q ++ [item]) in
      if bool_decide (outgoing q' = []) then q' else write_next q'
  end.

(** The outstanding write of a closed connection ends: nothing follows. *)
Definition write_dropped (q : SendQueue) : SendQueue :=
  mkQueue (outgoing q) (queued_bytes q) None (completed q).

Section SendQueue.
Context (cost : bytes → Z) (cost_nonneg : ∀ b, 0 ≤ cost b).

(** A live queue: the bytes are accounted, the limits hold, and exactly the
    front item is being written. *)
Record queue_ok (max : Z) (q : SendQueue) : Prop := {
  qo_bytes : queued_bytes q = total cost (outgoing q);
  qo_max : queued_bytes q ≤ max;
  qo_count : zlen (outgoing q) ≤ 1024;
  qo_writing : writing q = head (outgoing q);
}.

Lemma empty_queue_ok max : 0 ≤ max → queue_ok max empty_queue.
Proof. intros. split; simpl; try done; unfold zlen; simpl; lia. Qed.

Lemma queue_full_false max c q :
  queue_full max c q = false →
  zlen (outgoing q) < 1024 ∧ c ≤ max ∧ queued_bytes q + c ≤ max.
Proof. unfold queue_full. intros. bprop. lia. Qed.

Lemma enqueue_outgoing c item q : outgoing (enqueue c item q) = outgoing q ++ [item].
Proof. unfold enqueue. by case_bool_decide. Qed.
Lemma enqueue_completed c item q : completed (enqueue c item q) = completed q.
Proof. unfold enqueue. by case_bool_decide. Qed.

Lemma enqueue_ok max item q :
  is_u64 max → queue_ok max q → queue_full max (cost item) q = false →
  queue_ok max (enqueue (cost item) item q).
Proof using cost_nonneg.
  intros Hmax [Hb Hm Hc Hw] (Hn & Hi & Hq)%queue_full_false.
  pose proof (cost_nonneg item). pose proof (total_nonneg cost (outgoing q) cost_nonneg).
  assert (u64 (queued_bytes q + cost item) = queued_bytes q + cost item) as Hu.
  { apply u64_small. unfold is_u64 in *. lia. }
  unfold enqueue. case_bool_decide as He; split; simpl; rewrite ?Hu, ?zlen_app, ?total_app; simpl;
    rewrite ?zlen_cons, ?zlen_nil; try lia.
  - done.
  - rewrite Hw. by destruct (outgoing q).
Qed.

Lemma write_done_split max q item :
  queue_ok max q → writing q = Some item →
  ∃ rest, outgoing q = item :: rest ∧ outgoing (write_done cost q) = rest ∧
    completed (write_done cost q) = completed q ++ [item].
Proof.
  intros [_ _ _ Hw] Hi. rewrite Hi in Hw. destruct (outgoing q) as [|x rest] eqn:E; [done|].
  simplify_eq/=. exists rest. unfold write_done. rewrite Hi, E. simpl.
  by case_bool_decide.
Qed.

Lemma write_done_ok max q :
  is_u64 max → queue_ok max q → queue_ok max (write_done cost q).
Proof using cost_nonneg.
  intros Hmax Hq. pose proof Hq as [Hb Hm Hc Hw].
  unfold write_done. destruct (writing q) as [item|] eqn:Hi; [|done].
  destruct (outgoing q) as [|x rest] eqn:E; simplify_eq/=.
  pose proof (cost_nonneg x). pose proof (total_nonneg cost rest cost_nonneg).
  rewrite zlen_cons in Hc.
  assert (u64 (queued_bytes q - cost x) = total cost rest) as Hu.
  { rewrite Hb. replace (_ - _) with (total cost rest) by lia.
    apply u64_small. unfold is_u64 in *. lia. }
  case_bool_decide as He; split; simpl; try lia; by rewrite ?He.
Qed.

(** Items leave in the order they were accepted. *)
Lemma write_done_order max q :
  queue_ok max q →
  completed (write_done cost q) ++ outgoing (write_done cost q) = completed q ++ outgoing q.
Proof.
  intros Hq. destruct (writing q) as [item|] eqn:Hi.
  - destruct (write_done_split max q item Hq Hi) as (rest & -> & -> & ->).
    by rewrite <- app_assoc.
  - unfold write_done. by rewrite Hi.
Qed.

(** A completion always advances a non-empty queue. *)
Lemma write_done_shrinks max q :
  queue_ok max q → outgoing q ≠ [] →
  zlen (outgoing (write_done cost q)) < zlen (outgoing q).
Proof.
  intros Hq Hne. pose proof (qo_writing _ _ Hq) as Hw.
  destruct (outgoing q) as [|x rest] eqn:E; [done|].
  destruct (write_done_split max q x Hq Hw) as (rest' & E' & -> & _).
  rewrite E in E'. simplify_eq. rewrite zlen_cons. lia.
Qed.
End SendQueue.
#[export] Hint Resolve enqueue_ok write_done_ok empty_queue_ok : engine.

(** * Runs of a queue *)

(** A connection's view of its queue: an application send, which is refused when
    the queue is full, or the completion of the outstanding write. *)
Inductive QueueOp := QSend (item : bytes) | QDone.

Definition queue_step (max : Z) (cost : bytes → Z) (q : SendQueue) (op : QueueOp) : SendQueue :=
  match op with
  | QSend item => if queue_full max (cost item) q then q else enqueue (cost item) item q
  | QDone => write_done cost q
  end.

(** The items accepted during a run. *)
Fixpoint accepted_items (max : Z) (cost : bytes → Z) (q : SendQueue) (ops : list QueueOp) : list bytes :=
  match ops with
  | [] => []
  | op :: rest =>
      match op with
      | QSend item => if queue_full max (cost item) q then [] else [item]
      | QDone => []
      end ++ accepted_items max cost (queue_step max cost q op) rest
  end.

(** The outgoing queue is first in, first out and loses nothing: after any mix
    of sends and write completions, the items written followed by the items still
    queued are exactly the accepted items in acceptance order, the accounting
    invariant holds, and an item accepted into an idle queue starts being written
    at once. *)
Theorem send_queue_fifo max cost q ops :
  (∀ b, 0 ≤ cost b) → is_u64 max → queue_ok cost max q →
  let q' := runs (queue_step max cost) q ops in
  queue_ok cost max q' ∧
  completed q' ++ outgoing q' = completed q ++ outgoing q ++ accepted_items max cost q ops ∧
  (outgoing q' ≠ [] → ∃ item, writing q' = Some item).
Proof.
  intros Hcost Hmax Hq q'.
  assert (queue_ok cost max q' ∧
    completed q' ++ outgoing q' = completed q ++ outgoing q ++ accepted_items max cost q ops) as [H1 H2].
  { unfold q'. clear q'. revert q Hq. induction ops as [|op ops IH]; intros q Hq; simpl.
    - by rewrite app_nil_r.
    - destruct (IH (queue_step max cost q op)) as [Hok Hord].
      { destruct op; simpl; [|by apply write_done_ok].
        destruct (queue_full _ _ _) eqn:E; [done|by apply enqueue_ok]. }
      split; [done|]. rewrite Hord, app_assoc. destruct op as [item|]; simpl.
      + destruct (queue_full _ _ _); [by rewrite <- app_assoc|].
        rewrite enqueue_completed, enqueue_outgoing. by rewrite <- !app_assoc.
      + rewrite (write_done_order cost max) by done. by rewrite <- app_assoc. }
  split_and!; [done|done|]. intros Hne. rewrite (qo_writing _ _ _ H1).
  destruct (outgoing q'); [done|]. eauto.
Qed.

Lemma send_queue_fifo_witness :
  let q' := runs (queue_step 10 zlen) empty_queue
              [QSend (txt "abc"); QSend (txt "too large to fit"); QSend (txt "de"); QDone] in
  queue_ok zlen 10 q' ∧ completed q' ++ outgoing q' = [txt "abc"; txt "de"].
Proof.
  destruct (send_queue_fifo 10 zlen empty_queue
    [QSend (txt "abc"); QSend (txt "too large to fit"); QSend (txt "de"); QDone]) as (H1 & H2 & _);
    [apply zlen_nonneg|unfold is_u64; lia|by apply empty_queue_ok|split; [exact H1|exact H2]].
Defined.
