(* ===== verification/TcpConnection.v ===== *)
(** TcpConnection: length-prefixed messages over TCP or TLS
    ([src/src/Net/Async/TcpConnection.h]). Wire format: four unsigned big-endian
    length bytes, then the payload. Each completion handler is a definition that
    acts only while its operation is outstanding. *)
From S2P Require Import Prelude.
From S2P Require Import Text.
From S2P Require Import NetTypes.
From S2P Require Import WorkerContext.
From S2P Require Import World.
From S2P Require Import ConnectionState.
From S2P Require Import SendQueue.

(** [src/src/Net/Async/TcpConnection.h:52-59] {send} The frame of a message. *)
Definition encode_frame (message : bytes) : bytes := be32 (u32 (zlen message)) ++ message.

(** [src/src/Net/Async/TcpConnection.h:100-102] {read_header} *)
Definition decode_header (h : byte * byte * byte * byte) : Z :=
  let '(h0, h1, h2, h3) := h in join32 h3 h2 h1 h0.

(** The frame cost is its size: header plus payload. *)
Definition frame_cost (frame : bytes) : Z := zlen frame.

Section TcpConnection.
Context {H : Type}.
Implicit Types w : World H.

Definition with_tcp (id : Z) (k : Connection → TcpState → World H → World H) w : World H :=
  with_connection id (λ c w, match wire c with TcpWire t => k c t w | _ => w end) w.
Definition update_tcp (id : Z) (f : TcpState → TcpState) w : World H :=
  with_tcp id (λ c t, put id (with_wire (TcpWire (f t)) c)) w.
Definition set_phase (p : ReadPhase) (t : TcpState) : TcpState := mkTcp (tcp_tls t) p (tcp_queue t).
Definition set_queue (q : SendQueue) (t : TcpState) : TcpState := mkTcp (tcp_tls t) (tcp_phase t) q.

(** [src/src/Net/Async/TcpConnection.h:94-97] Initiate the header read. *)
Definition read_header (id : Z) w : World H := update_tcp id (set_phase ReadingHeader) w.

(** [src/src/Net/Async/TcpConnection.h:105-113] Initiate the body read. *)
Definition read_body (id length : Z) w : World H := update_tcp id (set_phase (ReadingBody length)) w.

(** [src/src/Net/Async/TcpConnection.h:89-92] *)
Definition begin_messages (id : Z) w : World H :=
  let '(ok, w1) := publish_open id w in if ok then read_header id w1 else w1.

(** [src/src/Net/Async/TcpConnection.h:29-41] *)
Definition start (id : Z) w : World H :=
  with_tcp id (λ c t w,
    if tcp_tls t then update_tcp id (set_phase Handshaking) (begin_handshake_deadline id w)
    else begin_messages id w) w.

(** [src/src/Net/Async/TcpConnection.h:33-37] {start} The handshake's completion;
    the operation is no longer outstanding. *)
Definition handshake_done (id : Z) (error : option IoError) w : World H :=
  with_tcp id (λ c t w,
    if bool_decide (tcp_phase t = Handshaking) then
      match error with
      | Some e => fail id e (txt "TLS handshake") w
      | None => begin_messages id (update_tcp id (set_phase Idle) w)
      end
    else w) w.

(** [src/src/Net/Async/TcpConnection.h:97-107] {read_header} The header's completion. *)
Definition header_done (id : Z) (r : result IoError (byte * byte * byte * byte)) w : World H :=
  with_tcp id (λ c t w,
    if bool_decide (tcp_phase t = ReadingHeader) then
      match r with
      | Err e => fail id e (txt "TCP read header") w
      | Ok h =>
          if closed c then w
          else
            let length := decode_header h in
            if max_message_bytes (limits (context w)) <? length
            then reject id (txt "TCP frame exceeds the configured size limit") w
            else read_body id length w
      end
    else w) w.

(** [src/src/Net/Async/TcpConnection.h:113-118] {read_body} The body's completion:
    a read of [length] bytes that succeeds delivers exactly [length] bytes. *)
Definition body_done (id : Z) (r : result IoError bytes) w : World H :=
  with_tcp id (λ c t w,
    match tcp_phase t, r with
    | ReadingBody _, Err e => fail id e (txt "TCP read payload") w
    | ReadingBody length, Ok incoming =>
        if negb (zlen incoming =? length) then w
        else if closed c then w
        else
          let '(ok, w1) := publish_message id incoming w in
          if ok then read_header id w1 else w1
    | _, _ => w
    end) w.

(** [src/src/Net/Async/TcpConnection.h:43-65] *)
Definition send (id : Z) (message : bytes) w : result bytes unit * World H :=
  match objects w !! id with
  | Some c =>
      match wire c with
      | TcpWire t =>
          if closed c || negb (opened c) then (Err (txt "Session is not open"), w)
          else if max_message_bytes (limits (context w)) <? zlen message
          then (Err (txt "Message exceeds the configured size limit"), w)
          else
            let wire_size := u64 (zlen message + 4) in
            if queue_full (max_send_queue_bytes (limits (context w))) wire_size (tcp_queue t)
            then (Err (txt "Session send queue is full"), w)
            else (Ok tt, put id (with_wire (TcpWire (set_queue
                    (enqueue wire_size (encode_frame message) (tcp_queue t)) t)) c) w)
      | _ => (Err [], w)
      end
  | None => (Err [], w)
  end.

(** The outstanding write of a closed connection has ended. *)
Definition drop_write (id : Z) w : World H :=
  update_tcp id (λ t, set_queue (write_dropped (tcp_queue t)) t) w.

(** [src/src/Net/Async/TcpConnection.h:121-141] {write_next} The write's completion. *)
Definition frame_done (id : Z) (error : option IoError) w : World H :=
  with_tcp id (λ c t w,
    match writing (tcp_queue t), error with
    | None, _ => w
    | Some _, Some e => drop_write id (fail id e (txt "TCP write") w)
    | Some _, None =>
        if closed c then drop_write id w
        else touch_idle_deadline id (update_tcp id (set_queue (write_done frame_cost (tcp_queue t))) w)
    end) w.
End TcpConnection.

(** * The framing *)
Lemma zlen_be32 v : zlen (be32 v) = 4.
Proof. done. Qed.

Lemma frame_cost_nonneg b : 0 ≤ frame_cost b.
Proof. apply zlen_nonneg. Qed.

Lemma zlen_encode_frame message : zlen (encode_frame message) = zlen message + 4.
Proof. unfold encode_frame. rewrite zlen_app, zlen_be32. lia. Qed.

(** Split a frame into the four header bytes and the rest. *)
Definition split_frame (l : bytes) : option ((byte * byte * byte * byte) * bytes) :=
  match l with h0 :: h1 :: h2 :: h3 :: body => Some (h0, h1, h2, h3, body) | _ => None end.

Lemma split_encode_frame message rest :
  zlen message < 2 ^ 32 →
  ∃ h, split_frame (encode_frame message ++ rest) = Some (h, message ++ rest) ∧
    decode_header h = zlen message.
Proof.
  intros Hm. assert (is_u32 (zlen message)) as Hu
    by (pose proof (zlen_nonneg message); unfold is_u32; lia).
  unfold encode_frame, be32. simpl. eexists. split; [done|].
  rewrite u32_small by done. unfold decode_header. by rewrite join32_le.
Qed.
