(* ===== verification/WebSocketConnection.v ===== *)
(** WebSocketConnection: binary messages over WebSocket, plain or over TLS
    ([src/src/Net/Async/WebSocketConnection.h]). Masking, fragmentation and the
    upgrade parser belong to Boost.Beast: a completed read is an event that
    carries what Beast decoded. *)
From S2P Require Import Prelude.
From S2P Require Import Text.
From S2P Require Import NetTypes.
From S2P Require Import WorkerContext.
From S2P Require Import World.
From S2P Require Import ConnectionState.
From S2P Require Import SendQueue.

(** The parsed upgrade request, and the ways a message read can end. *)
Record UpgradeRequest := mkUpgrade { is_upgrade : bool; upgrade_target : bytes }.
Inductive WsRead :=
| WsClosed
| WsFailed (error : IoError)
| WsMessage (got_text : bool) (data : bytes).

(** [src/src/Net/Async/WebSocketConnection.h:55-55] {send} The cost of a payload. *)
Definition payload_cost (payload : bytes) : Z := zlen payload + 16.

Section WebSocketConnection.
Context {H : Type}.
Implicit Types w : World H.

Definition with_ws (id : Z) (k : Connection → WsState → World H → World H) w : World H :=
  with_connection id (λ c w, match wire c with WsWire s => k c s w | _ => w end) w.
Definition update_ws (id : Z) (f : WsState → WsState) w : World H :=
  with_ws id (λ c s, put id (with_wire (WsWire (f s)) c)) w.
Definition set_phase (p : ReadPhase) (s : WsState) : WsState := mkWs (ws_tls s) p (ws_queue s).
Definition set_queue (q : SendQueue) (s : WsState) : WsState := mkWs (ws_tls s) (ws_phase s) q.

(** [src/src/Net/Async/WebSocketConnection.h:89-94] Initiate the header read. *)
Definition read_upgrade_request (id : Z) w : World H := update_ws id (set_phase ReadingHeader) w.
(** [src/src/Net/Async/WebSocketConnection.h:107-109] Initiate the upgrade. *)
Definition accept_upgrade (id : Z) w : World H := update_ws id (set_phase Upgrading) w.
(** [src/src/Net/Async/WebSocketConnection.h:116-118] Initiate a message read. *)
Definition read_message (id : Z) w : World H := update_ws id (set_phase ReadingMessage) w.

(** [src/src/Net/Async/WebSocketConnection.h:35-47] *)
Definition start (id : Z) w : World H :=
  with_ws id (λ c s w,
    let w1 := begin_handshake_deadline id w in
    if ws_tls s then update_ws id (set_phase Handshaking) w1 else read_upgrade_request id w1) w.

(** [src/src/Net/Async/WebSocketConnection.h:40-43] {start} *)
Definition handshake_done (id : Z) (error : option IoError) w : World H :=
  with_ws id (λ c s w,
    if bool_decide (ws_phase s = Handshaking) then
      match error with
      | Some e => fail id e (txt "WSS TLS handshake") w
      | None => read_upgrade_request id w
      end
    else w) w.

(** [src/src/Net/Async/WebSocketConnection.h:95-104] {read_upgrade_request} *)
Definition upgrade_request_done (id : Z) (r : result IoError UpgradeRequest) w : World H :=
  with_ws id (λ c s w,
    if bool_decide (ws_phase s = ReadingHeader) then
      match r with
      | Err e => fail id e (txt "WebSocket upgrade headers") w
      | Ok request =>
          if closed c then w
          else if negb (is_upgrade request)
          then reject id (txt "Invalid WebSocket upgrade request") w
          else if negb (bool_decide (upgrade_target request = lc_websocket_path (config c)))
          then reject id (txt "WebSocket path does not match the configured endpoint") w
          else accept_upgrade id w
      end
    else w) w.

(** [src/src/Net/Async/WebSocketConnection.h:110-113] {accept_upgrade} *)
Definition upgrade_done (id : Z) (error : option IoError) w : World H :=
  with_ws id (λ c s w,
    if bool_decide (ws_phase s = Upgrading) then
      match error with
      | Some e => fail id e (txt "WebSocket upgrade") w
      | None =>
          let '(ok, w1) := publish_open id (update_ws id (set_phase Idle) w) in
          if ok then read_message id w1 else w1
      end
    else w) w.

(** [src/src/Net/Async/WebSocketConnection.h:119-130] {read_message} *)
Definition message_done (id : Z) (r : WsRead) w : World H :=
  with_ws id (λ c s w,
    if bool_decide (ws_phase s = ReadingMessage) then
      match r with
      | WsClosed => close id w
      | WsFailed e => fail id e (txt "WebSocket read") w
      | WsMessage got_text data =>
          if closed c then w
          else if got_text
          then reject id (txt "This endpoint accepts binary WebSocket messages only") w
          else
            let '(ok, w1) := publish_message id data w in
            if ok then read_message id w1 else w1
      end
    else w) w.

(** [src/src/Net/Async/WebSocketConnection.h:49-65] *)
Definition send (id : Z) (message : bytes) w : result bytes unit * World H :=
  match objects w !! id with
  | Some c =>
      match wire c with
      | WsWire s =>
          if closed c || negb (opened c) then (Err (txt "Session is not open"), w)
          else if max_message_bytes (limits (context w)) <? zlen message
          then (Err (txt "Message exceeds the configured size limit"), w)
          else
            let cost := u64 (payload_cost message) in
            if queue_full (max_send_queue_bytes (limits (context w))) cost (ws_queue s)
            then (Err (txt "Session send queue is full"), w)
            else (Ok tt, put id (with_wire (WsWire (set_queue
                    (enqueue cost message (ws_queue s)) s)) c) w)
      | _ => (Err [], w)
      end
  | None => (Err [], w)
  end.

(** The outstanding write of a closed connection has ended. *)
Definition drop_write (id : Z) w : World H :=
  update_ws id (λ s, set_queue (write_dropped (ws_queue s)) s) w.

(** [src/src/Net/Async/WebSocketConnection.h:133-150] {write_next} *)
Definition payload_done (id : Z) (error : option IoError) w : World H :=
  with_ws id (λ c s w,
    match writing (ws_queue s), error with
    | None, _ => w
    | Some _, Some e => drop_write id (fail id e (txt "WebSocket write") w)
    | Some _, None =>
        if closed c then drop_write id w
        else touch_idle_deadline id (update_ws id (set_queue (write_done payload_cost (ws_queue s))) w)
    end) w.
End WebSocketConnection.

Lemma payload_cost_nonneg b : 0 ≤ payload_cost b.
Proof. unfold payload_cost. pose proof (zlen_nonneg b). lia. Qed.
