(* ===== verification/HttpConnection.v ===== *)
(** HttpConnection: one HTTP/1.1 exchange at a time on a connection
    ([src/src/Net/Async/HttpConnection.h]). Boost.Beast parses the request and
    serialises the response: a completed read is an event that carries the parsed
    request, and a response is the message the code hands to Beast. *)
From S2P Require Import Prelude.
From S2P Require Import Text.
From S2P Require Import NetTypes.
From S2P Require Import HttpCodec.
From S2P Require Import WorkerContext.
From S2P Require Import World.
From S2P Require Import ConnectionState.

(** The request as Beast's parser presents it. [req_keep_alive] is
    [request.keep_alive()]. *)
Record ParsedRequest := mkRequest {
  req_version : Z;
  req_method : bytes;
  req_target : bytes;
  req_fields : list HttpHeader;
  req_body : bytes;
  req_keep_alive : bool;
}.

(** The errors [read_failed] tells apart. *)
Inductive HttpReadError :=
| EndOfStream | ReadAborted | BodyLimit | HeaderLimit | BufferOverflow | ReadError.

Section HttpConnection.
Context {H : Type}.
(** [boost::beast::iequals]. *)
Variable iequals : bytes → bytes → bool.
Implicit Types w : World H.

Definition with_http (id : Z) (k : Connection → HttpState → World H → World H) w : World H :=
  with_connection id (λ c w, match wire c with HttpWire h => k c h w | _ => w end) w.
Definition update_http (id : Z) (f : HttpState → HttpState) w : World H :=
  with_http id (λ c h, put id (with_wire (HttpWire (f h)) c)) w.
Definition set_phase (p : ReadPhase) (h : HttpState) : HttpState :=
  mkHttp (http_tls h) p (http_pending h) (http_head_request h) (http_request_keep_alive h)
    (http_writing h).
Definition set_writing (m : option WireResponse) (h : HttpState) : HttpState :=
  mkHttp (http_tls h) (http_phase h) (http_pending h) (http_head_request h)
    (http_request_keep_alive h) m.

(** The fields of a given name. *)
Definition fields_named (name : bytes) (r : ParsedRequest) : list HttpHeader :=
  filter (λ f, iequals (header_name f) name = true) (req_fields r).
Definition count (name : bytes) (r : ParsedRequest) : Z := zlen (fields_named name r).
Definition field_value (name : bytes) (r : ParsedRequest) : bytes :=
  match fields_named name r with f :: _ => header_value f | [] => [] end.

(** [src/src/Net/Async/HttpConnection.h:121-137] The status of the rejection,
    [None] when the request is acceptable. *)
Definition validate_request_header (request : ParsedRequest) : option Z :=
  if negb (req_version request =? 11) then Some 505
  else if negb (count (txt "Host") request =? 1)
          || bool_decide (field_value (txt "Host") request = []) then Some 400
  else if negb (count (txt "Expect") request =? 0) then Some 417
  else if bool_decide (req_method request = txt "CONNECT")
          || negb (count (txt "Upgrade") request =? 0) then Some 501
  else
    let target := req_target request in
    let origin_form := bool_decide (head target = Some x2f) in
    let options_star := bool_decide (target = txt "*") && bool_decide (req_method request = txt "OPTIONS") in
    if (negb origin_form && negb options_star) || (2048 <? zlen target)
       || bool_decide (x23 ∈ target) || bool_decide (req_method request = [])
       || (32 <? zlen (req_method request)) then Some 400
    else None.

(** [src/src/Net/Async/HttpConnection.h:154-166] {dispatch_request} The header
    block of the event, [None] when it exceeds the limit. *)
Fixpoint collect_headers (fields : list HttpHeader) (headers : bytes) : option bytes :=
  match fields with
  | [] => Some headers
  | f :: rest =>
      if http_header_limit - zlen headers <? zlen (header_name f) + zlen (header_value f) + 4
      then None
      else collect_headers rest
             (headers ++ header_name f ++ txt ": " ++ header_value f ++ [x0d; x0a])
  end.

(** [src/src/Net/Async/HttpConnection.h:223-231] The request is answered. *)
Definition write_response (id : Z) (message : WireResponse) w : World H :=
  let w1 := update_http id (λ h, mkHttp (http_tls h) Idle 0 (http_head_request h)
              (http_request_keep_alive h) (http_writing h)) w in
  update_http id (set_writing (Some message)) (touch_idle_deadline id w1).

(** [src/src/Net/Async/HttpConnection.h:198-209] *)
Definition reject_http (id status : Z) w : World H :=
  if max_send_queue_bytes (limits (context w)) <? 256 then close id w
  else write_response id (mkWireResponse status false None [] (Some 0) []) w.

(** [src/src/Net/Async/HttpConnection.h:187-196] *)
Definition read_failed (id : Z) (error : HttpReadError) w : World H :=
  match error with
  | EndOfStream | ReadAborted => close id w
  | BodyLimit => reject_http id 413 w
  | HeaderLimit | BufferOverflow => reject_http id 431 w
  | ReadError => reject_http id 400 w
  end.

(** [src/src/Net/Async/HttpConnection.h:104-112] *)
Definition read_request (id : Z) w : World H :=
  update_http id (set_phase ReadingHeader) (begin_handshake_deadline id w).

(** [src/src/Net/Async/HttpConnection.h:99-102] *)
Definition begin_requests (id : Z) w : World H :=
  let '(ok, w1) := publish_open id w in if ok then read_request id w1 else w1.

(** [src/src/Net/Async/HttpConnection.h:33-43] *)
Definition start (id : Z) w : World H :=
  with_http id (λ c h w,
    if http_tls h then update_http id (set_phase Handshaking) (begin_handshake_deadline id w)
    else begin_requests id w) w.

(** [src/src/Net/Async/HttpConnection.h:37-41] {start} *)
Definition handshake_done (id : Z) (error : option IoError) w : World H :=
  with_http id (λ c h w,
    if bool_decide (http_phase h = Handshaking) then
      match error with
      | Some e => fail id e (txt "HTTPS handshake") w
      | None => begin_requests id (update_http id (set_phase Idle) w)
      end
    else w) w.

(** [src/src/Net/Async/ConnectionState.h:23-33] {guarded_handler} A handler that
    throws closes its connection; the worker reports the exception. *)
Definition handler_threw (id : Z) (what : bytes) w : World H := report 0 what (close id w).

(** [src/src/Net/Async/HttpConnection.h:150-185] *)
Definition dispatch_request (id : Z) (request : ParsedRequest) w : World H :=
  match validate_request_header request with
  | Some status => reject_http id status w
  | None =>
      match collect_headers (req_fields request) [] with
      | None => reject_http id 431 w
      | Some headers =>
          let total := http_envelope_bytes + zlen (req_method request)
                       + zlen (req_target request) + zlen headers + zlen (req_body request) in
          if max_message_bytes (limits (context w)) <? total then reject_http id 413 w
          else
            let '(request_id, ctx) := allocate_http_request_id (context w) in
            let w1 := on_context (λ _, ctx) w in
            if request_id =? 0 then reject id (txt "HTTP request ID space exhausted") w1
            else
              match encode_http_request request_id (req_method request) (req_target request)
                      headers (req_body request) with
              | Err what => handler_threw id what w1
              | Ok payload =>
                  let w2 := update_http id (λ h, mkHttp (http_tls h) Idle request_id
                              (bool_decide (req_method request = txt "HEAD"))
                              (req_keep_alive request) (http_writing h)) w1 in
                  match objects w2 !! id with
                  | None => w2
                  | Some c =>
                      match asking (notify_http_request (peer c) payload) w2 with
                      | (false, w3) => close id w3
                      | (true, w3) => touch_idle_deadline id w3
                      end
                  end
              end
      end
  end.

(** [src/src/Net/Async/HttpConnection.h:113-118] {read_request} The header's
    completion; [is_done] tells whether the request has no body to read. *)
Definition request_header_done (id : Z) (r : result HttpReadError (ParsedRequest * bool)) w : World H :=
  with_http id (λ c h w,
    if bool_decide (http_phase h = ReadingHeader) then
      if closed c then w
      else match r with
      | Err e => read_failed id e w
      | Ok (request, is_done) =>
          match validate_request_header request with
          | Some status => reject_http id status w
          | None =>
              if is_done then dispatch_request id request w
              else update_http id (set_phase ReadingMessage) w
          end
      end
    else w) w.

(** [src/src/Net/Async/HttpConnection.h:139-148] {read_body} *)
Definition request_body_done (id : Z) (r : result HttpReadError ParsedRequest) w : World H :=
  with_http id (λ c h w,
    if bool_decide (http_phase h = ReadingMessage) then
      if closed c then w
      else match r with
      | Err e => read_failed id e w
      | Ok request => dispatch_request id request w
      end
    else w) w.

(** [src/src/Net/Async/HttpConnection.h:211-221] [with_body] selects the body
    type of the message. *)
Definition make_response (h : HttpState) (response : HttpResponse) (length : option Z)
    (with_body : bool) : WireResponse :=
  mkWireResponse (status_code_ response)
    (http_request_keep_alive h && negb (close_connection response))
    (Some (content_type response)) (headers response) length
    (if with_body then body response else []).

(** [src/src/Net/Async/HttpConnection.h:50-74] *)
Definition respond_http (id request_id : Z) (response : HttpResponse) w
    : result bytes unit * World H :=
  match objects w !! id with
  | Some c =>
      match wire c with
      | HttpWire h =>
          if closed c || negb (opened c) || (request_id =? 0) || negb (http_pending h =? request_id)
          then (Err (txt "HTTP request is stale, already answered, or session is closed"), w)
          else
            match validate_http_response iequals response (max_message_bytes (limits (context w))) with
            | Err e => (Err e, w)
            | Ok header_bytes =>
                let body_bytes := if http_head_request h then 0 else zlen (body response) in
                let max := max_send_queue_bytes (limits (context w)) in
                if (max <? header_bytes) || (max - header_bytes <? body_bytes)
                then (Err (txt "HTTP response exceeds the configured send queue limit"), w)
                else
                  let status := status_code_ response in
                  let no_content := (status =? 204) || (status =? 304) in
                  let message :=
                    if http_head_request h || no_content || (status =? 205) then
                      make_response h response
                        (if no_content then None else Some (zlen (body response))) false
                    else make_response h response (Some (zlen (body response))) true in
                  (Ok tt, write_response id message w)
            end
      | _ => (Err [], w)
      end
  | None => (Err [], w)
  end.

(** [src/src/Net/Async/HttpConnection.h:45-48] *)
Definition send (w : World H) : result bytes unit * World H :=
  (Err (txt "Use se_http_respond with a request ID for HTTP sessions"), w).

(** [src/src/Net/Async/HttpConnection.h:230-236] {write_response} *)
Definition response_done (id : Z) (error : option IoError) w : World H :=
  with_http id (λ c h w,
    match http_writing h with
    | None => w
    | Some message =>
        let w1 := update_http id (set_writing None) w in
        if closed c then w1
        else match error with
        | Some e => fail id e (txt "HTTP write response") w1
        | None => if negb (wr_keep_alive message) then close id w1 else read_request id w1
        end
    end) w.
End HttpConnection.
