(* ===== verification/Udp.v ===== *)
(** Udp: the datagram listener and its peers ([src/src/Net/Async/UdpListener.cpp],
    [UdpPeer.cpp]). One socket receives whole datagrams; a peer is a routing
    entry for an endpoint, created by its first datagram and evicted when idle.
    [now] is the steady clock in milliseconds. *)
From S2P Require Import Prelude.
From S2P Require Import Text.
From S2P Require Import NetTypes.
From S2P Require Import WorkerContext.
From S2P Require Import World.
From S2P Require Import ConnectionState.
From S2P Require Import SendQueue.

(** [src/src/Net/Async/UdpPeer.h:19-19] *)
Definition MaxUdpPayloadBytes : Z := 65507.

(** [src/src/Net/Async/UdpPeer.cpp:13-16] *)
Definition queue_cost (payload : bytes) : Z := if zlen payload =? 0 then 1 else zlen payload.

(** The errors [on_receive] tells apart. *)
Inductive ReceiveError :=
| ReceiveAborted | MessageSize | ConnectionReset | ConnectionRefused
| OtherReceiveError (message : bytes).

Section Udp.
Context {H : Type}.
Implicit Types w : World H.

Definition with_udp (id : Z) (k : Connection → UdpState → World H → World H) w : World H :=
  with_connection id (λ c w, match wire c with UdpWire u => k c u w | _ => w end) w.
Definition set_queue (q : SendQueue) (u : UdpState) : UdpState := mkUdp (udp_last_received u) q.
Definition put_udp (id : Z) (c : Connection) (u : UdpState) w : World H :=
  put id (with_wire (UdpWire u) c) w.
Definition with_listener (lid : Z) (k : UdpListener → World H → World H) w : World H :=
  match listeners w !! lid with Some (AUdpListener l) => k l w | _ => w end.

(** [src/src/Net/Async/UdpListener.cpp:136-155] The datagram goes out unless the
    listener is closing. *)
Definition send_datagram (lid id : Z) w : World H :=
  with_listener lid (λ l w,
    if ul_closed l || stopping (context w) then close id w
    else with_udp id (λ c u, put_udp id c (set_queue (write_next (udp_queue u)) u)) w) w.

(** [src/src/Net/Async/UdpPeer.cpp:83-91] *)
Definition send_next (id : Z) w : World H :=
  with_udp id (λ c u w,
    if closed c || bool_decide (outgoing (udp_queue u) = []) then w
    else match listeners w !! listener_id (peer c) with
    | Some (AUdpListener _) => send_datagram (listener_id (peer c)) id w
    | _ => close id w
    end) w.

(** [src/src/Net/Async/UdpPeer.cpp:40-63] *)
Definition send (id : Z) (message : bytes) w : result bytes unit * World H :=
  match objects w !! id with
  | Some c =>
      match wire c with
      | UdpWire u =>
          if closed c || negb (opened c) || stopping (context w)
          then (Err (txt "UDP peer is closed"), w)
          else if (max_message_bytes (limits (context w)) <? zlen message)
                  || (MaxUdpPayloadBytes <? zlen message)
          then (Err (txt "UDP datagram exceeds the configured limit or 65507-byte payload ceiling"), w)
          else
            let cost := queue_cost message in
            if queue_full (max_send_queue_bytes (limits (context w))) cost (udp_queue u)
            then (Err (txt "UDP peer send queue is full"), w)
            else
              let w1 := put_udp id c (set_queue (push cost message (udp_queue u)) u) w in
              (Ok tt, if bool_decide (outgoing (udp_queue u) = []) then send_next id w1 else w1)
      | _ => (Err [], w)
      end
  | None => (Err [], w)
  end.

(** [src/src/Net/Async/UdpPeer.cpp:30-38] *)
Definition start_peer (id : Z) w : World H :=
  with_connection id (λ c w,
    if closed c || opened c then w
    else match asking (notify_open (peer c)) w with
    | (false, w1) => close id w1
    | (true, w1) => with_connection id (λ c, put id (with_opened c)) w1
    end) w.

(** [src/src/Net/Async/UdpPeer.cpp:75-81] *)
Definition receive (id now : Z) (data : bytes) w : World H :=
  with_udp id (λ c u w,
    if closed c || negb (opened c) || stopping (context w) then w
    else
      let w1 := put_udp id c (mkUdp now (udp_queue u)) w in
      match asking (notify_message (peer c) data) w1 with
      | (false, w2) => close id w2
      | (true, w2) => w2
      end) w.

(** The outstanding send of a closed peer has ended. *)
Definition drop_send (id : Z) w : World H :=
  with_udp id (λ c u, put_udp id c (set_queue (write_dropped (udp_queue u)) u)) w.

(** [src/src/Net/Async/UdpPeer.cpp:93-105] The completion of the outstanding
    send of the front datagram; [sent] is the number of bytes sent. *)
Definition complete_send (id : Z) (error : option bytes) (sent : Z) w : World H :=
  with_udp id (λ c u w,
    match writing (udp_queue u) with
    | None => w
    | Some front =>
        if closed c then drop_send id w
        else match error with
        | Some message =>
            drop_send id (close id
              (report (listener_id (peer c)) (txt "UDP send failed: " ++ message) w))
        | None =>
            if negb (sent =? zlen front) then
              drop_send id (close id
                (report (listener_id (peer c)) (txt "UDP send returned an incomplete datagram") w))
            else
              send_next id (put_udp id c (set_queue
                (mkQueue (tail (outgoing (udp_queue u)))
                   (u64 (queued_bytes (udp_queue u) - queue_cost front)) None
                   (completed (udp_queue u) ++ [front])) u) w)
        end
    end) w.

(** [src/src/Net/Async/UdpPeer.cpp:107-112] *)
Definition idle_for (now : Z) (u : UdpState) (milliseconds : Z) : bool :=
  let elapsed := now - udp_last_received u in (0 <=? elapsed) && (milliseconds <=? elapsed).

(** * The listener *)

(** [src/src/Net/Async/UdpListener.cpp:72-84] *)
Definition receive_next (lid : Z) w : World H :=
  with_listener lid (λ l w,
    if ul_closed l || stopping (context w) then w
    else put_listener lid (AUdpListener (mkUdpListener (ul_config l) (ul_peers l)
           (ul_started l) (ul_closed l) true (ul_expiry l))) w) w.

(** [src/src/Net/Async/UdpListener.cpp:157-173] *)
Definition schedule_expiry (lid : Z) w : World H :=
  with_listener lid (λ l w,
    if ul_closed l || stopping (context w) then w
    else
      let idle := idle_timeout_ms (limits (context w)) in
      let interval := if idle <? 1000 then idle else 1000 in
      put_listener lid (AUdpListener (mkUdpListener (ul_config l) (ul_peers l)
        (ul_started l) (ul_closed l) (ul_receiving l)
        (Some (if interval =? 0 then 1 else interval)))) w) w.

(** [src/src/Net/Async/UdpListener.cpp:44-50] *)
Definition start_udp (lid : Z) w : World H :=
  with_listener lid (λ l w,
    if ul_started l || ul_closed l || stopping (context w) then w
    else schedule_expiry lid (receive_next lid
           (put_listener lid (AUdpListener (mkUdpListener (ul_config l) (ul_peers l) true
              (ul_closed l) (ul_receiving l) (ul_expiry l))) w))) w.

(** [src/src/Net/Async/UdpListener.cpp:60-64] {close} The loop
    [while (!peers_.empty())]; every iteration must remove a route. *)
Fixpoint close_peers (fuel : nat) (lid : Z) w : World H :=
  match fuel with
  | O => w
  | S fuel =>
      with_listener lid (λ l w,
        match map_to_list (ul_peers l) with
        | [] => w
        | (_, id) :: _ => close_peers fuel lid (close id w)
        end) w
  end.

(** [src/src/Net/Async/UdpListener.cpp:52-65] *)
Definition close_udp (lid : Z) w : World H :=
  with_listener lid (λ l w,
    if ul_closed l then w
    else close_peers (size (ul_peers l)) lid
           (put_listener lid (AUdpListener (mkUdpListener (ul_config l) (ul_peers l)
              (ul_started l) true (ul_receiving l) None)) w)) w.

(** [src/src/Net/Async/UdpListener.cpp:114-134] *)
Definition dispatch_datagram (lid : Z) (sender : bytes * Z) (now : Z) (data : bytes) w : World H :=
  with_listener lid (λ l w,
    match ul_peers l !! sender with
    | Some id => receive id now data w
    | None =>
        if max_connections (limits (context w)) <=? connection_count (context w) then w
        else
          let '(id, ctx) := allocate_session_id (context w) in
          let w1 := on_context (λ _, ctx) w in
          if id =? 0 then w1
          else
            let p := mkPeer id (lc_id (ul_config l)) Udp sender.1 sender.2 in
            let w2 := put_listener lid (AUdpListener (with_peers (<[sender := id]> (ul_peers l)) l)) w1 in
            match asking (add_connection (Some p)) w2 with
            | (false, w3) => forget_peer lid sender w3
            | (true, w3) =>
                let c := mkConnection p (ul_config l) false false 0 0 (UdpWire (mkUdp now empty_queue)) in
                receive id now data (start_peer id (put id c w3))
            end
    end) w.

(** [src/src/Net/Async/UdpListener.cpp:86-112] A completed receive carries the
    sender, the time and the bytes. *)
Definition on_receive (lid : Z) (r : result ReceiveError (bytes * Z * Z * bytes)) w : World H :=
  with_listener lid (λ l w,
    if negb (ul_receiving l) then w
    else
    let w := put_listener lid (AUdpListener (mkUdpListener (ul_config l) (ul_peers l)
               (ul_started l) (ul_closed l) false (ul_expiry l))) w in
    if ul_closed l || stopping (context w) then w
    else match r with
    | Err ReceiveAborted => w
    | Err (OtherReceiveError message) =>
        close_udp lid (report (lc_id (ul_config l)) (txt "UDP receive failed: " ++ message) w)
    | Err _ => receive_next lid w
    | Ok (sender_address, sender_port, now, data) =>
        receive_next lid
          (if (zlen data <=? max_message_bytes (limits (context w)))
              && (zlen data <=? MaxUdpPayloadBytes)
           then dispatch_datagram lid (sender_address, sender_port) now data w else w)
    end) w.

(** [src/src/Net/Async/UdpListener.cpp:175-182] {expire_idle_peers} One peer. *)
Definition expire_peer (now : Z) w (id : Z) : World H :=
  with_udp id (λ c u w,
    if idle_for now u (idle_timeout_ms (limits (context w))) then close id w else w) w.

(** [src/src/Net/Async/UdpListener.cpp:175-182] *)
Definition expire_idle_peers (lid now : Z) w : World H :=
  with_listener lid (λ l w, foldl (expire_peer now) w (map_to_list (ul_peers l)).*2) w.

(** [src/src/Net/Async/UdpListener.cpp:164-168] {schedule_expiry} *)
Definition expiry_tick (lid now : Z) w : World H :=
  with_listener lid (λ l w,
    if bool_decide (ul_expiry l = None) || ul_closed l || stopping (context w) then w
    else schedule_expiry lid (expire_idle_peers lid now w)) w.
End Udp.

Lemma queue_cost_nonneg b : 0 ≤ queue_cost b.
Proof. unfold queue_cost. pose proof (zlen_nonneg b). casematch; bprop; lia. Qed.
