(* ===== verification/TransportService.v ===== *)
(** TransportService: the stream listener, the worker's event loop and the
    service's commands ([src/src/Net/Async/TcpListener.cpp],
    [TransportService.cpp]). The single worker runs one handler at a time, so its
    behaviour is a fold of [handle] over the sequence of completions and posted
    commands; commands wait for their result before the next one is accepted. *)
From S2P Require Import Prelude.
From S2P Require Import Text.
From S2P Require Import NetTypes.
From S2P Require Import WorkerContext.
From S2P Require Import World.
From S2P Require Import ConnectionState.
From S2P Require Import SendQueue.
From S2P Require Import TcpConnection.
From S2P Require Import WebSocketConnection.
From S2P Require Import HttpConnection.
From S2P Require Import Udp.

(** [src/src/Net/Async/TransportService.cpp:45-61] {validate} One listener, apart
    from its identifier. *)
Definition validate_listener (l : ListenerConfig) : result bytes unit :=
  check? negb ((lc_port l =? 0) || bool_decide (lc_bind_address l = [])
               || bool_decide (x00 ∈ lc_bind_address l))
    or txt "Listener needs a numeric bind address and nonzero port" in
  check? bool_decide (lc_protocol l ∈ [Tcp; Udp; WebSocket; Http])
    or txt "Unsupported transport protocol" in
  check? bool_decide (lc_security l ∈ [NoSecurity; Tls])
    or txt "Unsupported channel security mode" in
  check? negb (bool_decide (lc_protocol l = Udp) && negb (bool_decide (lc_security l = NoSecurity)))
    or txt "Encrypted UDP is not implemented; TLS applies to TCP/WSS/HTTPS only" in
  check? negb ((lc_handshake_timeout_ms l =? 0) || (600000 <? lc_handshake_timeout_ms l))
    or txt "handshake_timeout_ms must be between 1 and 600000" in
  check? negb (bool_decide (lc_protocol l = WebSocket)
               && (negb (bool_decide (head (lc_websocket_path l) = Some x2f))
                   || (2048 <? zlen (lc_websocket_path l))
                   || bool_decide (x00 ∈ lc_websocket_path l)))
    or txt "WebSocket path must start with / and contain at most 2048 bytes" in
  Ok tt.

(** [src/src/Net/Async/TransportService.cpp:41-62] {validate} The loop over the
    listeners, with the identifiers seen so far. *)
Fixpoint validate_listeners (ids : gset Z) (listeners : list ListenerConfig) : result bytes unit :=
  match listeners with
  | [] => Ok tt
  | l :: rest =>
      check? negb ((lc_id l =? 0) || bool_decide (lc_id l ∈ ids))
        or txt "Listener IDs must be unique and nonzero" in
      let? _ := validate_listener l in
      validate_listeners ({[lc_id l]} ∪ ids) rest
  end.

(** [src/src/Net/Async/TransportService.cpp:26-64] *)
Definition validate (listeners : list ListenerConfig) (l : ServiceLimits) : result bytes unit :=
  check? worker_threads l =? 1 or txt "This transport version requires worker_threads = 1" in
  check? negb ((max_connections l =? 0) || (1000000 <? max_connections l))
    or txt "max_connections must be between 1 and 1000000" in
  check? negb ((max_message_bytes l =? 0) || (16 * 1024 * 1024 <? max_message_bytes l))
    or txt "max_message_bytes must be between 1 and 16 MiB" in
  check? negb (max_send_queue_bytes l <? u64 (max_message_bytes l + 16))
    or txt "Send queue must fit one maximum message plus 16 bytes" in
  check? negb ((idle_timeout_ms l =? 0) || (86400000 <? idle_timeout_ms l))
    or txt "idle_timeout_ms must be between 1 and 86400000" in
  check? negb (bool_decide (listeners = []) || (1024 <? zlen listeners))
    or txt "Configure between 1 and 1024 listeners" in
  validate_listeners ∅ listeners.

(** A new connection object of the listener's class. *)
Definition new_wire (p : Protocol) (tls : bool) : Wire :=
  match p with
  | Tcp => TcpWire (mkTcp tls Idle empty_queue)
  | Http => HttpWire (mkHttp tls Idle 0 false false None)
  | _ => WsWire (mkWs tls Idle empty_queue)
  end.

Section TransportService.
Context {H : Type}.
Variable iequals : bytes → bytes → bool.
Implicit Types w : World H.

(** * TcpListener *)
Definition with_tcp_listener (lid : Z) (k : TcpListener → World H → World H) w : World H :=
  match listeners w !! lid with Some (ATcpListener l) => k l w | _ => w end.

(** [src/src/Net/Async/TcpListener.cpp:33-39] {close} *)
Definition close_tcp (lid : Z) w : World H :=
  with_tcp_listener lid (λ l, put_listener lid
    (ATcpListener (mkTcpListener (tl_config l) (tl_tls l) true (tl_accepting l)))) w.

(** [src/src/Net/Async/TcpListener.cpp:42-46] *)
Definition accept_next (lid : Z) w : World H :=
  with_tcp_listener lid (λ l w,
    if tl_closed l || stopping (context w) then w
    else put_listener lid
           (ATcpListener (mkTcpListener (tl_config l) (tl_tls l) (tl_closed l) true)) w) w.

(** The virtual [start] of a new connection. *)
Definition start_connection (id : Z) w : World H :=
  with_connection id (λ c,
    match wire c with
    | TcpWire _ => TcpConnection.start id
    | WsWire _ => WebSocketConnection.start id
    | HttpWire _ => HttpConnection.start id
    | UdpWire _ => Udp.start_peer id
    end) w.

(** [src/src/Net/Async/TcpListener.cpp:72-109] {admit} [remote] is [None] when the
    socket's remote endpoint cannot be read. *)
Definition admit_socket (l : TcpListener) (remote : option (bytes * Z)) w : World H :=
  if max_connections (limits (context w)) <=? connection_count (context w) then w
  else match remote with
  | None => w
  | Some (address, port) =>
      let '(id, ctx) := allocate_session_id (context w) in
      let w1 := on_context (λ _, ctx) w in
      if id =? 0 then report (lc_id (tl_config l)) (txt "Session ID space exhausted") w1
      else
        let p := mkPeer id (lc_id (tl_config l)) (lc_protocol (tl_config l)) address port in
        match asking (add_connection (Some p)) w1 with
        | (false, w2) => w2
        | (true, w2) =>
            start_connection id
              (put id (mkConnection p (tl_config l) false false 0 0
                         (new_wire (lc_protocol (tl_config l)) (tl_tls l))) w2)
        end
  end.

(** [src/src/Net/Async/TcpListener.cpp:46-65] {accept_next} *)
Definition accepted (lid : Z) (r : result bytes (option (bytes * Z))) w : World H :=
  with_tcp_listener lid (λ l w,
    if negb (tl_accepting l) then w
    else
      let w := put_listener lid
        (ATcpListener (mkTcpListener (tl_config l) (tl_tls l) (tl_closed l) false)) w in
      if tl_closed l || stopping (context w) then w
      else match r with
      | Err message =>
          report (lc_id (tl_config l)) (txt "TCP accept: " ++ message) (close_tcp lid w)
      | Ok remote => accept_next lid (admit_socket l remote w)
      end) w.

(** * Events of the worker *)
Inductive Event :=
| Accepted (lid : Z) (r : result bytes (option (bytes * Z)))
| HandshakeDone (id : Z) (error : option IoError)
| TcpHeader (id : Z) (r : result IoError (byte * byte * byte * byte))
| TcpBody (id : Z) (r : result IoError bytes)
| TcpWritten (id : Z) (error : option IoError)
| WsUpgradeRequest (id : Z) (r : result IoError WebSocketConnection.UpgradeRequest)
| WsUpgraded (id : Z) (error : option IoError)
| WsMessageRead (id : Z) (r : WebSocketConnection.WsRead)
| WsWritten (id : Z) (error : option IoError)
| HttpHeaderRead (id : Z)
    (r : result HttpConnection.HttpReadError (HttpConnection.ParsedRequest * bool))
| HttpBodyRead (id : Z) (r : result HttpConnection.HttpReadError HttpConnection.ParsedRequest)
| HttpWritten (id : Z) (error : option IoError)
| UdpReceived (lid : Z) (r : result Udp.ReceiveError (bytes * Z * Z * bytes))
| UdpSent (id : Z) (error : option bytes) (sent : Z)
| UdpTick (lid now : Z)
| DeadlineFired (id generation : Z)
| SendCommand (id : Z) (message : bytes)
| DisconnectCommand (id : Z)
| RespondCommand (id request_id : Z) (response : HttpResponse).

(** The virtual [send], [respond_http] of the connection classes. *)
(** [src/src/Net/Async/Connection.h:15-19] {respond_http} The default. *)
Definition no_http w : result bytes unit * World H := (Err (txt "Session does not use HTTP"), w).

Definition connection_send (id : Z) (message : bytes) w : result bytes unit * World H :=
  match wire <$> objects w !! id with
  | Some (TcpWire _) => TcpConnection.send id message w
  | Some (WsWire _) => WebSocketConnection.send id message w
  | Some (HttpWire _) => HttpConnection.send w
  | Some (UdpWire _) => Udp.send id message w
  | None => (Err [], w)
  end.
Definition connection_respond (id request_id : Z) (response : HttpResponse) w
    : result bytes unit * World H :=
  match wire <$> objects w !! id with
  | Some (HttpWire _) => HttpConnection.respond_http iequals id request_id response w
  | _ => no_http w
  end.

(** The commands look the session up in the registry. *)
Definition with_registered {A} (id : Z) (k : World H → result bytes A * World H) w
    : result bytes A * World H :=
  if bool_decide (id ∈ connections (context w)) then k w else (Err (txt "Unknown session ID"), w).

(** [src/src/Net/Async/TransportService.cpp:141-147] {send} *)
Definition send_command (id : Z) (message : bytes) : World H → result bytes unit * World H :=
  with_registered id (connection_send id message).
(** [src/src/Net/Async/TransportService.cpp:154-160] {disconnect} *)
Definition disconnect_command (id : Z) : World H → result bytes unit * World H :=
  with_registered id (λ w, (Ok tt, close id w)).
(** [src/src/Net/Async/TransportService.cpp:168-173] {respond_http} *)
Definition respond_command (id request_id : Z) (response : HttpResponse)
    : World H → result bytes unit * World H :=
  with_registered id (connection_respond id request_id response).

Definition handle w (e : Event) : World H :=
  match e with
  | Accepted lid r => accepted lid r w
  | HandshakeDone id error =>
      HttpConnection.handshake_done id error
        (WebSocketConnection.handshake_done id error
           (TcpConnection.handshake_done id error w))
  | TcpHeader id r => TcpConnection.header_done id r w
  | TcpBody id r => TcpConnection.body_done id r w
  | TcpWritten id error => TcpConnection.frame_done id error w
  | WsUpgradeRequest id r => WebSocketConnection.upgrade_request_done id r w
  | WsUpgraded id error => WebSocketConnection.upgrade_done id error w
  | WsMessageRead id r => WebSocketConnection.message_done id r w
  | WsWritten id error => WebSocketConnection.payload_done id error w
  | HttpHeaderRead id r => HttpConnection.request_header_done iequals id r w
  | HttpBodyRead id r => HttpConnection.request_body_done iequals id r w
  | HttpWritten id error => HttpConnection.response_done id error w
  | UdpReceived lid r => Udp.on_receive lid r w
  | UdpSent id error sent => Udp.complete_send id error sent w
  | UdpTick lid now => Udp.expiry_tick lid now w
  | DeadlineFired id generation => deadline_expired id generation w
  | SendCommand id message => (send_command id message w).2
  | DisconnectCommand id => (disconnect_command id w).2
  | RespondCommand id request_id response => (respond_command id request_id response w).2
  end.

(** * The service *)
(** [src/src/Net/Async/TransportService.cpp:243-251] [poisoned_] is set only by
    the emergency path of a stop that cannot be posted: [TransportFailures]. *)
Record Service := mkService { running : bool; world : World H }.

(** [src/src/Net/Async/WorkerContext.h:15-23] *)
Definition initial_service (h : H) : Service :=
  mkService false (mkWorld (mkContext default_limits no_callbacks h false ∅ 1 1) ∅ ∅).

(** Opening a listener: sockets and certificates are external. A failure is a
    diagnostic. *)
Variable open_listener : ListenerConfig → result bytes unit.

(** [src/src/Net/Async/UdpListener.cpp:184-189] {make_udp_listener}
    [src/src/Net/Async/UdpListener.cpp:22-27] *)
Definition make_udp_listener (l : ListenerConfig) : result bytes Listener :=
  check? bool_decide (lc_security l = NoSecurity)
    or txt "UDP requires explicit plaintext security; DTLS is not implemented" in
  let? _ := open_listener l in
  Ok (AUdpListener (mkUdpListener l ∅ false false false None)).

(** [src/src/Net/Async/TcpListener.cpp:120-134] *)
Definition make_tcp_listener (l : ListenerConfig) : result bytes Listener :=
  let? _ := open_listener l in
  Ok (ATcpListener (mkTcpListener l (bool_decide (lc_security l = Tls)) false false)).

(** [src/src/Net/Async/TransportService.cpp:85-98] {start} *)
Fixpoint prepare (configurations : list ListenerConfig) : result bytes (list (Z * Listener)) :=
  match configurations with
  | [] => Ok []
  | l :: rest =>
      let? listener := (if bool_decide (lc_protocol l = Udp)
                        then make_udp_listener l else make_tcp_listener l) in
      let? others := prepare rest in
      Ok ((lc_id l, listener) :: others)
  end.

Definition start_listener w (lid : Z) : World H :=
  match listeners w !! lid with
  | Some (ATcpListener _) => accept_next lid w
  | Some (AUdpListener _) => Udp.start_udp lid w
  | None => w
  end.

(** [src/src/Net/Async/TransportService.cpp:72-129] When nothing but a listener fails;
    the rest is in [TransportFailures]. *)
Definition start (configurations : list ListenerConfig) (l : ServiceLimits)
    (cb : TransportCallbacks H) (s : Service) : result bytes unit * Service :=
  if running s then (Err (txt "Transport service is already running"), s)
  else match validate configurations l with
  | Err e => (Err e, s)
  | Ok _ =>
      let c := context (world s) in
      let ready cb := mkContext l cb (host c) false (connections c) (next_session_id c)
                        (next_http_request_id c) in
      match prepare configurations with
      | Err e =>
          (Err e, mkService false (mkWorld (ready no_callbacks) (objects (world s)) (listeners (world s))))
      | Ok prepared =>
          let w := mkWorld (ready cb) (objects (world s)) (list_to_map prepared) in
          (Ok tt, mkService true (foldl start_listener w prepared.*1))
      end
  end.

Definition close_listener w (lid : Z) : World H :=
  match listeners w !! lid with
  | Some (ATcpListener _) => close_tcp lid w
  | Some (AUdpListener _) => Udp.close_udp lid w
  | None => w
  end.

(** [src/src/Net/Async/TransportService.cpp:221-224] {close_listeners_and_connections}
    The loop [while (!context_.connections.empty())]. *)
Fixpoint close_connections (fuel : nat) w : World H :=
  match fuel with
  | O => w
  | S fuel =>
      match elements (connections (context w)) with
      | [] => w
      | id :: _ => close_connections fuel (close id w)
      end
  end.

(** [src/src/Net/Async/TransportService.cpp:218-225] *)
Definition close_listeners_and_connections w : World H :=
  let w1 := foldl close_listener w (map_to_list (listeners w)).*1 in
  close_connections (size (connections (context w1))) w1.

(** [src/src/Net/Async/TransportService.cpp:188-216] {stop_locked} *)
Definition stop (s : Service) : Service :=
  if negb (running s) then s
  else
    let stop_context c := mkContext (limits c) (callbacks c) (host c) true (connections c)
                            (next_session_id c) (next_http_request_id c) in
    let w := close_listeners_and_connections (on_context stop_context (world s)) in
    let forget_callbacks c := mkContext (limits c) no_callbacks (host c) (stopping c)
                            (connections c) (next_session_id c) (next_http_request_id c) in
    mkService false (mkWorld (forget_callbacks (context w)) (objects w) ∅).

(** [src/src/Net/Async/TransportService.cpp:137-139] {send} A command posted by
    another thread: refused unless the service runs. *)
Definition command {A} (k : World H → result bytes A * World H) (s : Service)
    : result bytes A * Service :=
  if negb (running s) then (Err (txt "Transport service is not running"), s)
  else let '(r, w) := k (world s) in (r, mkService (running s) w).

(** [src/src/Net/Async/TransportService.cpp:137-148] *)
Definition send (id : Z) (message : bytes) : Service → result bytes unit * Service :=
  command (send_command id message).
(** [src/src/Net/Async/TransportService.cpp:150-161] *)
Definition disconnect (id : Z) : Service → result bytes unit * Service :=
  command (disconnect_command id).
(** [src/src/Net/Async/TransportService.cpp:163-174] *)
Definition respond_http (id request_id : Z) (response : HttpResponse)
    : Service → result bytes unit * Service :=
  command (respond_command id request_id response).

(** A history of the service: commands from the application's threads and
    completions on the worker. Completions also run while the worker drains
    its queue after [stop]. *)
Inductive Operation :=
| StartOp (configurations : list ListenerConfig) (l : ServiceLimits) (cb : TransportCallbacks H)
| StopOp
| WorkerOp (e : Event).

Definition apply (s : Service) (o : Operation) : Service :=
  match o with
  | StartOp configurations l cb => (start configurations l cb s).2
  | StopOp => stop s
  | WorkerOp e => mkService (running s) (handle (world s) e)
  end.
End TransportService.
Arguments Service : clear implicits.
Arguments mkService {H}. Arguments running {H}. Arguments world {H}.
Arguments Operation : clear implicits.
Arguments StartOp {H}. Arguments StopOp {H}. Arguments WorkerOp {H}.
