(* ===== verification/Configuration.v ===== *)
(** Configuration: what the transport's configuration check accepts
    ([validate] of [src/src/Net/Async/TransportService.cpp]). *)
From S2P Require Import Prelude.
From S2P Require Import Text.
From S2P Require Import NetTypes.
From S2P Require Import TransportService.

(** What the service requires of a listener, and of a whole configuration. *)
Record listener_ok (c : ListenerConfig) : Prop := {
  lk_port : lc_port c ≠ 0;
  lk_address : lc_bind_address c ≠ [] ∧ x00 ∉ lc_bind_address c;
  lk_protocol : lc_protocol c ∈ [Tcp; Udp; WebSocket; Http];
  lk_security : lc_security c ∈ [NoSecurity; Tls];
  lk_udp : lc_protocol c = Udp → lc_security c = NoSecurity;
  lk_timeout : lc_handshake_timeout_ms c ≠ 0 ∧ lc_handshake_timeout_ms c ≤ 600000;
  lk_path : lc_protocol c = WebSocket → head (lc_websocket_path c) = Some x2f ∧
       zlen (lc_websocket_path c) ≤ 2048 ∧ x00 ∉ lc_websocket_path c;
}.

Record configuration_ok (listeners : list ListenerConfig) (l : ServiceLimits) : Prop := {
  co_threads : worker_threads l = 1;
  co_connections : max_connections l ≠ 0 ∧ max_connections l ≤ 1000000;
  co_message : max_message_bytes l ≠ 0 ∧ max_message_bytes l ≤ 16 * 1024 * 1024;
  co_queue : u64 (max_message_bytes l + 16) ≤ max_send_queue_bytes l;
  co_idle : idle_timeout_ms l ≠ 0 ∧ idle_timeout_ms l ≤ 86400000;
  co_count : listeners ≠ [] ∧ zlen listeners ≤ 1024;
  co_ids : NoDup (lc_id <$> listeners) ∧ 0 ∉ lc_id <$> listeners;
  co_listeners : Forall listener_ok listeners;
}.

Lemma checks_Ok {E A} (b : bool) (e : E) (k : result E A) a :
  rbind (rguard b e) (λ _, k) = Ok a ↔ b = true ∧ k = Ok a.
Proof. destruct b; simpl; naive_solver. Qed.

Lemma validate_listener_ok c : validate_listener c = Ok tt ↔ listener_ok c.
Proof.
  unfold validate_listener. rewrite !checks_Ok.
  rewrite !negb_true_iff, !orb_false_iff, !andb_false_iff, !bool_decide_eq_true, !bool_decide_eq_false.
  rewrite !orb_false_iff, !negb_false_iff, !bool_decide_eq_true, !bool_decide_eq_false,
    !Z.eqb_neq, !Z.ltb_ge.
  split.
  - intros (((? & ?) & ?) & ? & ? & ? & (? & ?) & ? & _). split; try done; [naive_solver|].
    intros Hp. naive_solver.
  - intros [? [? ?] ? ? Hu [? ?] Hp]. split_and!; try done.
    + destruct (decide (lc_protocol c = Udp)); auto.
    + destruct (decide (lc_protocol c = WebSocket)); [right|by left]. naive_solver.
Qed.

Lemma validate_listeners_ok ids ls :
  validate_listeners ids ls = Ok tt ↔
  NoDup (lc_id <$> ls) ∧ 0 ∉ lc_id <$> ls ∧ (∀ i, i ∈ lc_id <$> ls → i ∉ ids) ∧ Forall listener_ok ls.
Proof.
  revert ids. induction ls as [|l ls IH]; intros ids; simpl.
  - split; [|done]. intros _. split_and!; [constructor|apply not_elem_of_nil| |constructor].
    by intros i ?%not_elem_of_nil.
  - rewrite checks_Ok, rbind_Ok, negb_true_iff, orb_false_iff, bool_decide_eq_false, Z.eqb_neq.
    setoid_rewrite IH. rewrite NoDup_cons, Forall_cons, !not_elem_of_cons. split.
    + intros ([Hz Hn] & [] & Hl & Hnd & H0 & Hids & Hall). apply validate_listener_ok in Hl.
      split_and!; try done.
      * intros Hin. specialize (Hids _ Hin). set_solver.
      * intros i [->|Hin]%elem_of_cons; [done|]. specialize (Hids _ Hin). set_solver.
    + intros ([Hnin Hnd] & [Hz H0] & Hids & Hl & Hall). split.
      { split; [done|]. apply Hids. left. }
      exists tt. split; [by apply validate_listener_ok|]. split_and!; try done.
      intros i Hin. rewrite not_elem_of_union, not_elem_of_singleton. split; [by intros ->|].
      apply Hids. by right.
Qed.

Lemma validate_iff listeners l :
  validate listeners l = Ok tt ↔ configuration_ok listeners l.
Proof.
  unfold validate. rewrite !checks_Ok, validate_listeners_ok.
  rewrite !negb_true_iff, !orb_false_iff, !bool_decide_eq_false, !Z.eqb_neq, !Z.ltb_ge, Z.eqb_eq.
  split.
  - intros (? & ? & ? & ? & ? & ? & ? & ? & _ & ?). by split.
  - intros [? ? ? ? ? ? [? ?] ?]. split_and!; try tauto; done.
Qed.

(** The configuration check accepts exactly the configurations that satisfy
    every stated bound: one worker, connection, message, queue and timeout limits,
    1 to 1024 listeners with distinct nonzero identifiers, and per listener an
    address, port, known protocol and security, no encrypted UDP, a bounded
    handshake timeout and a well-formed WebSocket path. *)
Theorem validate_exact listeners l :
  validate listeners l = Ok tt ↔ configuration_ok listeners l.
Proof. apply validate_iff. Qed.
