(* ===== verification/ListenerOpen.v ===== *)
(** ListenerOpen: how listeners are opened ([src/src/Net/Async/TcpListener.cpp],
    [UdpListener.cpp]): the address, the TLS context of [TlsContext], the calls on the
    socket in their order, and what a failure closes. [TransportService] takes the outcome
    of opening a listener as a function; here that function is made, and with it the start
    of the service is followed down to the sockets. *)
From S2P Require Import Prelude.
From S2P Require Import Text.
From S2P Require Import NetTypes.
From S2P Require Import TlsContext.
From S2P Require Import WorkerContext.
From S2P Require Import World.
From S2P Require Import TransportService.
From S2P Require Import Configuration.

(** The calls on a new socket. *)
Inductive SocketCall := OpenCall | OnlyV6 | Bind | ListenCall.
(** What the system answers: an address of the family IPv6 or not, and the error of a call,
    if any. *)
Class SocketSystem := {
  make_address : bytes → result bytes bool;
  socket_error : SocketCall → ListenerConfig → option bytes;
}.
(** The sockets opened and closed, by the listener they are for. *)
Inductive Act := OpenSocket (id : Z) | CloseSocket (id : Z).
Definition entry (id : Z) (a : Act) : Z :=
  match a with OpenSocket i => if i =? id then 1 else 0 | CloseSocket i => if i =? id then -1 else 0 end.
(** How many sockets a listener has open. *)
Definition open_sockets (acts : list Act) (id : Z) : Z := total (entry id) acts.

Section ListenerOpen.
Context `{SocketSystem} {C : Type} `{OpenSsl C}.
(** The file at a path; whether a buffer of a size can be had. *)
Context (file : bytes → File) (alloc : Z → bool).

(** The first of the calls that fails. *)
Fixpoint first_error (calls : list SocketCall) (l : ListenerConfig) : option bytes :=
  match calls with
  | [] => None
  | call :: calls => match socket_error call l with Some e => Some e | None => first_error calls l end
  end.
(** The calls after the socket is open; an object that is not completed closes it. *)
Definition set_up (calls : list SocketCall) (l : ListenerConfig) : option bytes * list Act :=
  match socket_error OpenCall l with
  | Some e => (Some e, [])
  | None =>
      match first_error calls l with
      | Some e => (Some e, [OpenSocket (lc_id l); CloseSocket (lc_id l)])
      | None => (None, [OpenSocket (lc_id l)])
      end
  end.
(** [src/src/Net/Async/TcpListener.cpp:17-29] {TcpListener} What it throws, if anything. *)
Definition tcp_listener (l : ListenerConfig) : option bytes * list Act :=
  match make_address (lc_bind_address l) with
  | Err e => (Some e, [])
  | Ok v6 => set_up ((if v6 then [OnlyV6] else []) ++ [Bind; ListenCall]) l
  end.
(** [src/src/Net/Async/TcpListener.cpp:120-134] {make_tcp_listener} The TLS context of the
    listener, what was cleansed of the key, and the acts. *)
Definition open_tcp (l : ListenerConfig) : result bytes (option C) * list bytes * list Act :=
  let '(tls, cleansed) :=
    if bool_decide (lc_security l = Tls)
    then let '(r, cleansed) := make_tls_context file alloc l in (match r with Ok c => Ok (Some c) | Err e => Err e end, cleansed)
    else (Ok None, []) in
  match tls with
  | Err e => (Err e, cleansed, [])
  | Ok tls =>
      match tcp_listener l with
      | (Some e, acts) => (Err (txt "Cannot open TCP listener: " ++ e), cleansed, acts)
      | (None, acts) => (Ok tls, cleansed, acts)
      end
  end.
(** [src/src/Net/Async/UdpListener.cpp:22-42] {open} *)
Definition open_udp (l : ListenerConfig) : result bytes unit * list Act :=
  if negb (bool_decide (lc_security l = NoSecurity))
  then (Err (txt "UDP requires explicit plaintext security; DTLS is not implemented"), [])
  else match make_address (lc_bind_address l) with
  | Err e => (Err (txt "UDP bind failed: " ++ e), [])
  | Ok v6 =>
      match set_up ((if v6 then [OnlyV6] else []) ++ [Bind]) l with
      | (Some e, acts) => (Err (txt "UDP bind failed: " ++ e), acts)
      | (None, acts) => (Ok tt, acts)
      end
  end.
(** [src/src/Net/Async/TransportService.cpp:86-89] {start} One listener of either kind. *)
Definition open_one (l : ListenerConfig) : result bytes (option C) * list Act :=
  if bool_decide (lc_protocol l = Udp)
  then let '(r, acts) := open_udp l in (match r with Ok _ => Ok None | Err e => Err e end, acts)
  else let '(r, _, acts) := open_tcp l in (r, acts).
(** [src/src/Net/Async/TransportService.cpp:85-97] {start} The loop: a failure closes those
    prepared before it, first to last. *)
Fixpoint open_all (prepared : list ListenerConfig) (l : list ListenerConfig) : result bytes unit * list Act :=
  match l with
  | [] => (Ok tt, [])
  | c :: l =>
      match open_one c with
      | (Err e, acts) => (Err e, acts ++ (CloseSocket <$> (lc_id <$> prepared)))
      | (Ok _, acts) => let '(r, rest) := open_all (prepared ++ [c]) l in (r, acts ++ rest)
      end
  end.
(** [src/src/Net/Async/TransportService.cpp:72-98] {start} As far as the sockets go. *)
Definition start_sockets {S : Type} (configurations : list ListenerConfig) (limits : ServiceLimits) (s : TransportService.Service S)
    : result bytes unit * list Act :=
  if TransportService.running s then (Err (txt "Transport service is already running"), [])
  else match validate configurations limits with
  | Err e => (Err e, [])
  | Ok _ => open_all [] configurations
  end.
(** What [TransportService] is told of a listener. *)
Definition opened (l : ListenerConfig) : result bytes unit := match (open_one l).1 with Ok _ => Ok tt | Err e => Err e end.

(** ** The outcomes agree *)
Lemma open_one_opens l : let '(r, acts) := open_one l in
  ∀ id, open_sockets acts id = match r with Ok _ => if lc_id l =? id then 1 else 0 | Err _ => 0 end.
Proof.
  assert (∀ calls, let '(e, acts) := set_up calls l in
    ∀ id, open_sockets acts id = match e with None => if lc_id l =? id then 1 else 0 | Some _ => 0 end) as Hset.
  { intros calls. unfold set_up. destruct (socket_error OpenCall l); [done|]. destruct (first_error calls l); intros id;
      unfold open_sockets; simpl; case_match; lia. }
  unfold open_one, open_udp, open_tcp, tcp_listener. destruct (bool_decide (lc_protocol l = Udp)).
  - destruct (negb _); [done|]. destruct (make_address _) as [v6|]; [|done].
    specialize (Hset ((if v6 then [OnlyV6] else []) ++ [Bind])). by destruct (set_up _ l) as [[e|] acts].
  - assert (∀ (tls : result bytes (option C)) (cleansed : list bytes), let '(r, _, acts) := match tls with
        | Err e => (Err e, cleansed, [])
        | Ok tls => match (match make_address (lc_bind_address l) with Err e => (Some e, [])
            | Ok v6 => set_up ((if v6 then [OnlyV6] else []) ++ [Bind; ListenCall]) l end) with
          | (Some e, acts) => (Err (txt "Cannot open TCP listener: " ++ e), cleansed, acts)
          | (None, acts) => (Ok tls, cleansed, acts) end end in
      ∀ id, open_sockets acts id = match r with Ok _ => if lc_id l =? id then 1 else 0 | Err _ => 0 end) as Ht.
    { intros [tls|e] cleansed; [|done]. destruct (make_address _) as [v6|]; [|done].
      specialize (Hset ((if v6 then [OnlyV6] else []) ++ [Bind; ListenCall])). by destruct (set_up _ l) as [[e|] acts]. }
    destruct (if bool_decide _ then _ else _) as [tls cleansed]. specialize (Ht tls cleansed). by destruct (match tls with Ok _ => _ | Err _ => _ end) as [[r ?] acts].
Qed.
(** The loop: all open, or none left of these and of those prepared before. *)
Lemma open_all_sockets prepared l : let '(r, acts) := open_all prepared l in
  ∀ id, open_sockets acts id = match r with
    | Ok _ => total (entry id) (OpenSocket <$> (lc_id <$> l))
    | Err _ => total (entry id) (CloseSocket <$> (lc_id <$> prepared)) end.
Proof.
  revert prepared. induction l as [|c l IH]; intros prepared; [done|]. simpl. pose proof (open_one_opens c) as Ho.
  destruct (open_one c) as [[o|e] acts].
  - specialize (IH (prepared ++ [c])). destruct (open_all (prepared ++ [c]) l) as [r rest]. intros id. unfold open_sockets in *.
    rewrite total_app, Ho, IH. destruct r; [done|]. rewrite !fmap_app, total_app. simpl. case_match; lia.
  - intros id. unfold open_sockets in *. by rewrite total_app, Ho.
Qed.
(** Identifiers that differ: one socket each. *)
Lemma distinct_sockets ids id : NoDup ids → total (entry id) (OpenSocket <$> ids) = if bool_decide (id ∈ ids) then 1 else 0.
Proof.
  induction 1 as [|i ids Hi _ IH]; [done|]. rewrite fmap_cons, total_cons, IH. simpl. destruct (Z.eqb_spec i id) as [->|Hne].
  - rewrite (bool_decide_eq_false_2 _ Hi), bool_decide_eq_true_2; [done|apply list_elem_of_here].
  - rewrite (bool_decide_ext (id ∈ i :: ids) (id ∈ ids)); [lia|]. rewrite elem_of_cons. naive_solver.
Qed.
Lemma open_all_each prepared l : (open_all prepared l).1 = Ok tt → Forall (λ c, ∃ o, (open_one c).1 = Ok o) l.
Proof.
  revert prepared. induction l as [|c l IH]; intros prepared; [done|]. simpl. destruct (open_one c) as [[o|e] acts] eqn:Ho; [|done].
  destruct (open_all (prepared ++ [c]) l) as [r rest] eqn:Hl. simpl. intros ->. constructor; [rewrite Ho; by exists o|].
  apply (IH (prepared ++ [c])). by rewrite Hl.
Qed.
(** A secure listener that opened has its context. *)
Lemma open_one_secure c o : (open_one c).1 = Ok o → lc_security c = Tls → ∃ context, o = Some context ∧
  (make_tls_context file alloc c).1 = Ok context.
Proof.
  intros Ho Hs. unfold open_one, open_udp, open_tcp in Ho. rewrite Hs in Ho. rewrite (bool_decide_eq_true_2 (Tls = Tls)) in Ho by done.
  rewrite (bool_decide_eq_false_2 (Tls = NoSecurity)) in Ho by done. destruct (bool_decide (lc_protocol c = Udp)); [done|].
  destruct (make_tls_context file alloc c) as [[context|e] cleansed]; [|done]. destruct (tcp_listener c) as [[e|] acts]; simplify_eq/=. by exists context.
Qed.
(** [prepare] and the loop over the sockets end alike. *)
Lemma prepare_opened l prepared :
  match TransportService.prepare opened l with Ok _ => Ok tt | Err e => Err e end = (open_all prepared l).1.
Proof.
  revert prepared. induction l as [|c l IH]; intros prepared; [done|]. simpl. specialize (IH (prepared ++ [c])).
  destruct (open_all (prepared ++ [c]) l) as [r rest]. simpl in IH. subst r.
  assert (match (if bool_decide (lc_protocol c = Udp) then make_udp_listener opened c else make_tcp_listener opened c)
    with Ok _ => Ok tt | Err e => Err e end = opened c) as Hc.
  { unfold make_udp_listener, make_tcp_listener, opened, open_one. destruct (bool_decide (lc_protocol c = Udp)) eqn:Hp.
    - unfold open_udp. destruct (bool_decide (lc_security c = NoSecurity)); simpl; [|done].
      by destruct (make_address _) as [v6|]; [destruct (set_up _ c) as [[]]|].
    - by destruct (open_tcp c) as [[[|] ?] ?]. }
  unfold opened in Hc at 3. destruct (open_one c) as [[o|e] acts]; simpl in Hc.
  - destruct (if bool_decide _ then _ else _); [|done]. simpl. by destruct (TransportService.prepare opened l).
  - destruct (if bool_decide _ then _ else _); [done|]. simpl. congruence.
Qed.
(** C34: Starting the service opens its listeners all or none. With how each is opened, call
    by call, [start] answers as its model does, whatever the addresses, the files and the
    system answer. When it fails, at any listener and at any call, every socket that was
    opened has been closed; when it succeeds, each configured listener holds exactly one
    socket, nothing else is open, and each secure listener has a TLS context under the
    whole policy, from the chain and the key of its own files. *)
Theorem listeners_open_all_or_none {S} configurations limits cb (s : TransportService.Service S) :
  let '(r, acts) := start_sockets configurations limits s in
  (TransportService.start opened configurations limits cb s).1 = r ∧
  match r with
  | Err _ => ∀ id, open_sockets acts id = 0
  | Ok _ => (∀ id, open_sockets acts id = if bool_decide (id ∈ lc_id <$> configurations) then 1 else 0) ∧
      ∀ c, c ∈ configurations → lc_security c = Tls → ∃ context certificate key, (open_one c).1 = Ok (Some context) ∧
        pem_of file (lc_certificate_chain_file c) certificate ∧ pem_of file (lc_private_key_file c) key ∧
        strict certificate key context
  end.
Proof.
  unfold start_sockets, TransportService.start. destruct (TransportService.running s); [done|].
  destruct (validate configurations limits) as [[]|e] eqn:Hv; [|done]. apply validate_iff in Hv. destruct (co_ids _ _ Hv) as [Hnd _].
  pose proof (prepare_opened configurations []) as Hp. pose proof (open_all_sockets [] configurations) as Hs.
  pose proof (open_all_each [] configurations) as He. destruct (open_all [] configurations) as [r acts]. simpl in *. split.
  { by destruct (TransportService.prepare opened configurations). }
  destruct r as [[]|e]; [|done]. split; [intros id; rewrite Hs; by apply distinct_sockets|].
  intros c Hc Htls. rewrite Forall_forall in He. destruct (He eq_refl c Hc) as [o Ho].
  destruct (open_one_secure c o Ho Htls) as (context & -> & Hm). apply made_strict in Hm as (certificate & key & ?).
  by exists context, certificate, key.
Qed.
End ListenerOpen.

(** ** At work *)
Module Sockets.
(** Addresses of either family; port 1 cannot be bound. *)
#[export] Instance system : SocketSystem := {|
  make_address a := if bool_decide (a = txt "here") then Err (txt "invalid address") else Ok (bool_decide (x3a ∈ a));
  socket_error call l := match call with Bind => if lc_port l =? 1 then Some (txt "denied") else None | _ => None end;
|}.
Definition secure : ListenerConfig := Files.config (txt "server.key").
Definition datagrams (port : Z) : ListenerConfig :=
  mkListenerConfig 2 Udp (txt "::1") port NoSecurity [] [] (txt "/") 10000.
End Sockets.
Import Files Sockets.
Example open_second_fails :
  start_sockets (S:=unit) (C:=list SslCall) Files.file (λ _, true) [secure; datagrams 1] default_limits (initial_service tt) =
    (Err (txt "UDP bind failed: denied"), [OpenSocket 1; OpenSocket 2; CloseSocket 2; CloseSocket 1]) ∧
  start_sockets (S:=unit) (C:=list SslCall) Files.file (λ _, true) [secure; datagrams 9] default_limits (initial_service tt) =
    (Ok tt, [OpenSocket 1; OpenSocket 2]).
Proof. split; vm_compute; reflexivity. Qed.
Lemma listeners_open_all_or_none_witness :
  (∃ acts, start_sockets Files.file (λ _, true) [secure; datagrams 9] default_limits (initial_service tt) = (Ok tt, acts) ∧
    open_sockets acts 2 = 1 ∧ ∃ context, (open_one Files.file (λ _, true) secure).1 = Ok (Some context) ∧
    strict (txt "cert") (txt "key") context) ∧
  (TransportService.start (opened Files.file (λ _, true)) [secure; datagrams 1] default_limits no_callbacks (initial_service tt)).1 =
    Err (txt "UDP bind failed: denied").
Proof.
  pose proof (listeners_open_all_or_none Files.file (λ _, true) [secure; datagrams 9] default_limits no_callbacks (initial_service tt)) as T.
  pose proof (listeners_open_all_or_none Files.file (λ _, true) [secure; datagrams 1] default_limits no_callbacks (initial_service tt)) as T'.
  split.
  - destruct (start_sockets Files.file (λ _, true) [secure; datagrams 9] default_limits (initial_service tt)) as [r acts] eqn:E.
    destruct r as [[]|e]; [|vm_compute in E; discriminate E]. exists acts. split; [reflexivity|]. destruct T as (_ & Hs & Ht).
    split; [by rewrite Hs|]. destruct (Ht secure) as (context & certificate & key & Ho & (? & Hc & _) & (? & Hk & _) & H).
    { apply list_elem_of_here. } { reflexivity. }
    exists context. split; [exact Ho|]. vm_compute in Hc, Hk. injection Hc as _ <-. injection Hk as _ <-. exact H.
  - destruct (start_sockets Files.file (λ _, true) [secure; datagrams 1] default_limits (initial_service tt)) as [r acts] eqn:E.
    destruct T' as [-> _]. vm_compute in E. by injection E as <- _.
Defined.
