(* ===== verification/TransportHost.v ===== *)
(** TransportHost: the transport seen by its host. Whatever a handler does to the
    application state, it does by invoking the callbacks it was given; it never
    changes the callbacks, the limits or the stopping flag. Any property the
    callbacks preserve is therefore preserved by every handler and command. *)
From S2P Require Import Prelude.
From S2P Require Import Text.
From S2P Require Import NetTypes.
From S2P Require Import HttpCodec.
From S2P Require Import WorkerContext.
From S2P Require Import World.
From S2P Require Import ConnectionState.
From S2P Require Import SendQueue.
From S2P Require Import TcpConnection.
From S2P Require Import WebSocketConnection.
From S2P Require Import HttpConnection.
From S2P Require Import Udp.
From S2P Require Import TransportService.

Create HintDb evolve.

(** What an application promises about a property [P] of its state: each of its
    callbacks preserves it. *)
Class PreservedBy {H} (cb : TransportCallbacks H) (P : H → Prop) : Prop := {
  pb_open : ∀ f p h, on_open cb = Some f → P h → P (f p h).2;
  pb_message : ∀ f p d h, on_message cb = Some f → P h → P (f p d h).2;
  pb_http : ∀ f p d h, on_http_request cb = Some f → P h → P (f p d h).2;
  pb_close : ∀ f p h, on_close cb = Some f → P h → P (f p h);
  pb_error : ∀ f l m h, on_error cb = Some f → P h → P (f l m h);
}.

#[global] Instance no_callbacks_preserve {H} (P : H → Prop) : PreservedBy no_callbacks P.
Proof. by split. Qed.

Section Evolve.
Context {H : Type} (P : H → Prop) (cb : TransportCallbacks H) `{!PreservedBy cb P}.
Implicit Types w : World H.
Context (lim : ServiceLimits) (st : bool).

(** The state of the world as the host knows it. *)
Record good w : Prop := {
  gd_callbacks : callbacks (context w) = cb;
  gd_limits : limits (context w) = lim;
  gd_stopping : stopping (context w) = st;
  gd_host : P (host (context w));
}.

Lemma good_put w id c : good w → good (put id c w).
Proof. by intros [? ? ? ?]. Qed.
Lemma good_put_listener w id l : good w → good (put_listener id l w).
Proof. by intros [? ? ? ?]. Qed.
Lemma good_context w ctx :
  callbacks ctx = callbacks (context w) → limits ctx = limits (context w) →
  stopping ctx = stopping (context w) → host ctx = host (context w) →
  good w → good (on_context (λ _, ctx) w).
Proof. intros H1 H2 H3 H4 [? ? ? ?]. split; simpl; by rewrite ?H1, ?H2, ?H3, ?H4. Qed.
Lemma good_session_id w id ctx :
  allocate_session_id (context w) = (id, ctx) → good w → good (on_context (λ _, ctx) w).
Proof. unfold allocate_session_id. intros Ha. repeat casehyp; simplify_eq; by apply good_context. Qed.
Lemma good_request_id w id ctx :
  allocate_http_request_id (context w) = (id, ctx) → good w → good (on_context (λ _, ctx) w).
Proof. unfold allocate_http_request_id. intros Ha. repeat casehyp; simplify_eq; by apply good_context. Qed.
Lemma good_add w p b w' : asking (add_connection p) w = (b, w') → good w → good w'.
Proof.
  unfold asking, add_connection. intros Ha [? ? ? ?].
  repeat casehyp; simplify_eq/=; by split.
Qed.
Lemma good_notify_open w p b w' : asking (notify_open p) w = (b, w') → good w → good w'.
Proof using PreservedBy0.
  unfold asking, notify_open, guarded. intros Ha [Hc ? ? ?]. rewrite Hc in Ha.
  destruct (on_open cb) eqn:E; simplify_eq/=; split; try done. by eapply pb_open.
Qed.
Lemma good_notify_message w p d b w' : asking (notify_message p d) w = (b, w') → good w → good w'.
Proof using PreservedBy0.
  unfold asking, notify_message, guarded. intros Ha [Hc ? ? ?]. rewrite Hc in Ha.
  destruct (on_message cb) eqn:E; simplify_eq/=; split; try done. by eapply pb_message.
Qed.
Lemma good_notify_http w p d b w' : asking (notify_http_request p d) w = (b, w') → good w → good w'.
Proof using PreservedBy0.
  unfold asking, notify_http_request, guarded. intros Ha [Hc ? ? ?]. rewrite Hc in Ha.
  destruct (on_http_request cb) eqn:E; simplify_eq/=; split; try done. by eapply pb_http.
Qed.
Lemma good_report w l m : good w → good (report l m w).
Proof using PreservedBy0.
  intros [Hc ? ? ?]. unfold report, report_error, on_context. rewrite Hc.
  destruct (on_error cb) eqn:E; simpl; split; try done. by eapply pb_error.
Qed.
Lemma good_remove w p b : good w → good (on_context (remove_connection p b) w).
Proof using PreservedBy0.
  intros [Hc ? ? ?]. unfold remove_connection, on_context. case_bool_decide; simpl; [|by split].
  rewrite Hc. destruct (on_close cb) eqn:E; [|by split]. destruct b; [|by split].
  split; simpl; try done. by eapply pb_close.
Qed.
Lemma good_forget w l e : good w → good (forget_peer l e w).
Proof. intros Hg. unfold forget_peer. repeat casematch; by try apply good_put_listener. Qed.
Hint Resolve good_put good_put_listener good_session_id good_request_id good_add
  good_notify_open good_notify_message good_notify_http good_report good_remove good_forget : evolve.

(** Each handler is a composition of steps known to be good. *)
Ltac good_step := repeat (casematch; try done); eauto 8 with evolve.

Lemma good_close w id : good w → good (close id w).
Proof using PreservedBy0. intros Hg. unfold close, with_connection. good_step. Qed.
Hint Resolve good_close : evolve.
Lemma good_arm w id d : good w → good (arm_deadline id d w).
Proof. intros Hg. unfold arm_deadline, with_connection. good_step. Qed.
Lemma good_handshake_deadline w id : good w → good (begin_handshake_deadline id w).
Proof. intros Hg. unfold begin_handshake_deadline, with_connection. good_step. by apply good_arm. Qed.
Lemma good_touch w id : good w → good (touch_idle_deadline id w).
Proof. apply good_arm. Qed.
Hint Resolve good_arm good_handshake_deadline good_touch : evolve.
Lemma good_opened w id : good w → good (with_connection id (λ c, put id (with_opened c)) w).
Proof. intros Hg. unfold with_connection. good_step. Qed.
Hint Resolve good_opened : evolve.
Lemma good_publish_open w id b w' : publish_open id w = (b, w') → good w → good w'.
Proof using PreservedBy0.
  unfold publish_open. intros E Hg. repeat casehyp; simplify_eq; eauto 8 with evolve.
Qed.
Lemma good_publish_message w id d b w' : publish_message id d w = (b, w') → good w → good w'.
Proof using PreservedBy0.
  unfold publish_message. intros E Hg. repeat casehyp; simplify_eq; eauto 8 with evolve.
Qed.
Hint Resolve good_publish_open good_publish_message : evolve.
Lemma good_reject w id m : good w → good (reject id m w).
Proof using PreservedBy0. intros Hg. unfold reject, with_connection. good_step. Qed.
Lemma good_fail w id e m : good w → good (fail id e m w).
Proof using PreservedBy0. intros Hg. unfold fail, with_connection. good_step. Qed.
Hint Resolve good_reject good_fail : evolve.
Lemma good_deadline w id g : good w → good (deadline_expired id g w).
Proof using PreservedBy0. intros Hg. unfold deadline_expired, with_connection. good_step. Qed.

(** TCP. *)
Lemma good_update_tcp w id f : good w → good (update_tcp id f w).
Proof. intros Hg. unfold update_tcp, with_tcp, with_connection. good_step. Qed.
Hint Resolve good_update_tcp : evolve.
Lemma good_tcp_begin w id : good w → good (begin_messages id w).
Proof using PreservedBy0. intros Hg. unfold begin_messages, read_header. good_step. Qed.
Hint Resolve good_tcp_begin : evolve.
Lemma good_tcp_start w id : good w → good (TcpConnection.start id w).
Proof using PreservedBy0. intros Hg. unfold TcpConnection.start, with_tcp, with_connection. good_step. Qed.
Lemma good_tcp_handshake w id e : good w → good (TcpConnection.handshake_done id e w).
Proof using PreservedBy0.
  intros Hg. unfold TcpConnection.handshake_done, with_tcp, with_connection. good_step.
Qed.
Lemma good_header w id r : good w → good (header_done id r w).
Proof using PreservedBy0.
  intros Hg. unfold header_done, read_body, with_tcp, with_connection. good_step.
Qed.
Lemma good_body w id r : good w → good (body_done id r w).
Proof using PreservedBy0.
  intros Hg. unfold body_done, read_header, with_tcp, with_connection. good_step.
Qed.
Lemma good_tcp_send w id m : good w → good (TcpConnection.send id m w).2.
Proof. intros Hg. unfold TcpConnection.send. good_step. Qed.
Lemma good_frame w id e : good w → good (frame_done id e w).
Proof using PreservedBy0.
  intros Hg. unfold frame_done, TcpConnection.drop_write, with_tcp, with_connection. good_step.
Qed.

(** WebSocket. *)
Lemma good_update_ws w id f : good w → good (update_ws id f w).
Proof. intros Hg. unfold update_ws, with_ws, with_connection. good_step. Qed.
Hint Resolve good_update_ws : evolve.
Lemma good_ws_start w id : good w → good (WebSocketConnection.start id w).
Proof using PreservedBy0.
  intros Hg. unfold WebSocketConnection.start, read_upgrade_request, with_ws, with_connection. good_step.
Qed.
Lemma good_ws_handshake w id e : good w → good (WebSocketConnection.handshake_done id e w).
Proof using PreservedBy0.
  intros Hg. unfold WebSocketConnection.handshake_done, read_upgrade_request, with_ws, with_connection.
  good_step.
Qed.
Lemma good_upgrade_request w id r : good w → good (upgrade_request_done id r w).
Proof using PreservedBy0.
  intros Hg. unfold upgrade_request_done, accept_upgrade, with_ws, with_connection. good_step.
Qed.
Lemma good_upgrade w id e : good w → good (upgrade_done id e w).
Proof using PreservedBy0.
  intros Hg. unfold upgrade_done, read_message, with_ws, with_connection. good_step.
Qed.
Lemma good_ws_message w id r : good w → good (message_done id r w).
Proof using PreservedBy0.
  intros Hg. unfold message_done, read_message, with_ws, with_connection. good_step.
Qed.
Lemma good_ws_send w id m : good w → good (WebSocketConnection.send id m w).2.
Proof. intros Hg. unfold WebSocketConnection.send. good_step. Qed.
Lemma good_payload w id e : good w → good (payload_done id e w).
Proof using PreservedBy0.
  intros Hg. unfold payload_done, WebSocketConnection.drop_write, with_ws, with_connection. good_step.
Qed.

(** HTTP. *)
Lemma good_update_http w id f : good w → good (update_http id f w).
Proof. intros Hg. unfold update_http, with_http, with_connection. good_step. Qed.
Hint Resolve good_update_http : evolve.
Lemma good_write_response w id m : good w → good (write_response id m w).
Proof. intros Hg. unfold write_response. eauto with evolve. Qed.
Hint Resolve good_write_response : evolve.
Lemma good_reject_http w id s : good w → good (reject_http id s w).
Proof using PreservedBy0. intros Hg. unfold reject_http. good_step. Qed.
Hint Resolve good_reject_http : evolve.
Lemma good_read_failed w id e : good w → good (read_failed id e w).
Proof using PreservedBy0. intros Hg. destruct e; simpl; eauto with evolve. Qed.
Lemma good_read_request w id : good w → good (read_request id w).
Proof. intros Hg. unfold read_request. eauto with evolve. Qed.
Hint Resolve good_read_failed good_read_request : evolve.
Lemma good_begin_requests w id : good w → good (begin_requests id w).
Proof using PreservedBy0. intros Hg. unfold begin_requests. good_step. Qed.
Hint Resolve good_begin_requests : evolve.
Lemma good_http_start w id : good w → good (HttpConnection.start id w).
Proof using PreservedBy0.
  intros Hg. unfold HttpConnection.start, with_http, with_connection. good_step.
Qed.
Lemma good_http_handshake w id e : good w → good (HttpConnection.handshake_done id e w).
Proof using PreservedBy0.
  intros Hg. unfold HttpConnection.handshake_done, with_http, with_connection. good_step.
Qed.
Lemma good_dispatch ieq w id r : good w → good (dispatch_request ieq id r w).
Proof using PreservedBy0.
  intros Hg. unfold dispatch_request, handler_threw.
  repeat casematch; eauto 10 with evolve.
Qed.
Hint Resolve good_dispatch : evolve.
Lemma good_request_header ieq w id r : good w → good (request_header_done ieq id r w).
Proof using PreservedBy0.
  intros Hg. unfold request_header_done, with_http, with_connection. good_step.
Qed.
Lemma good_request_body ieq w id r : good w → good (request_body_done ieq id r w).
Proof using PreservedBy0.
  intros Hg. unfold request_body_done, with_http, with_connection. good_step.
Qed.
Lemma good_respond ieq w id rid r : good w → good (HttpConnection.respond_http ieq id rid r w).2.
Proof. intros Hg. unfold HttpConnection.respond_http. good_step. Qed.
Lemma good_response_done w id e : good w → good (response_done id e w).
Proof using PreservedBy0.
  intros Hg. unfold response_done, with_http, with_connection. good_step.
Qed.

(** Datagrams. *)
Lemma good_put_udp w id c u : good w → good (put_udp id c u w).
Proof. apply good_put. Qed.
Hint Resolve good_put_udp : evolve.
Lemma good_send_datagram w lid id : good w → good (send_datagram lid id w).
Proof using PreservedBy0.
  intros Hg. unfold send_datagram, with_listener, with_udp, with_connection. good_step.
Qed.
Hint Resolve good_send_datagram : evolve.
Lemma good_send_next w id : good w → good (send_next id w).
Proof using PreservedBy0. intros Hg. unfold send_next, with_udp, with_connection. good_step. Qed.
Hint Resolve good_send_next : evolve.
Lemma good_udp_send w id m : good w → good (Udp.send id m w).2.
Proof using PreservedBy0. intros Hg. unfold Udp.send. good_step. Qed.
Lemma good_start_peer w id : good w → good (start_peer id w).
Proof using PreservedBy0. intros Hg. unfold start_peer, with_connection. good_step. Qed.
Lemma good_receive w id now d : good w → good (receive id now d w).
Proof using PreservedBy0. intros Hg. unfold receive, with_udp, with_connection. good_step. Qed.
Hint Resolve good_start_peer good_receive : evolve.
Lemma good_drop_send w id : good w → good (drop_send id w).
Proof. intros Hg. unfold drop_send, with_udp, with_connection. good_step. Qed.
Hint Resolve good_drop_send : evolve.
Lemma good_complete w id e n : good w → good (complete_send id e n w).
Proof using PreservedBy0. intros Hg. unfold complete_send, with_udp, with_connection. good_step. Qed.
Lemma good_receive_next w lid : good w → good (receive_next lid w).
Proof. intros Hg. unfold receive_next, with_listener. good_step. Qed.
Lemma good_schedule w lid : good w → good (schedule_expiry lid w).
Proof. intros Hg. unfold schedule_expiry, with_listener. good_step. Qed.
Hint Resolve good_receive_next good_schedule : evolve.
Lemma good_start_udp w lid : good w → good (start_udp lid w).
Proof. intros Hg. unfold start_udp, with_listener. good_step. Qed.
Lemma good_close_peers n w lid : good w → good (close_peers n lid w).
Proof using PreservedBy0.
  revert w. induction n as [|n IH]; [done|]. intros w Hg. simpl. unfold with_listener. good_step.
Qed.
Hint Resolve good_close_peers : evolve.
Lemma good_close_udp w lid : good w → good (close_udp lid w).
Proof using PreservedBy0. intros Hg. unfold close_udp, with_listener. good_step. Qed.
Hint Resolve good_close_udp : evolve.
Lemma good_dispatch_datagram w lid s now d : good w → good (dispatch_datagram lid s now d w).
Proof using PreservedBy0.
  intros Hg. unfold dispatch_datagram, with_listener.
  repeat (casematch; try done; eauto 8 with evolve).
Qed.
Hint Resolve good_dispatch_datagram : evolve.
Lemma good_on_receive w lid r : good w → good (on_receive lid r w).
Proof using PreservedBy0. intros Hg. unfold on_receive, with_listener. good_step. Qed.
Lemma good_expire_peer now w id : good w → good (expire_peer now w id).
Proof using PreservedBy0. intros Hg. unfold expire_peer, with_udp, with_connection. good_step. Qed.
Lemma good_foldl {A} (f : World H → A → World H) l w :
  (∀ w x, good w → good (f w x)) → good w → good (foldl f w l).
Proof. intros Hf. revert w. induction l as [|x l IH]; simpl; auto. Qed.
Lemma good_expire w lid now : good w → good (expire_idle_peers lid now w).
Proof using PreservedBy0.
  intros Hg. unfold expire_idle_peers, with_listener. repeat (casematch; try done).
  apply good_foldl; [intros; by apply good_expire_peer|done].
Qed.
Hint Resolve good_expire : evolve.
Lemma good_tick w lid now : good w → good (expiry_tick lid now w).
Proof using PreservedBy0. intros Hg. unfold expiry_tick, with_listener. good_step. Qed.

(** Stream listeners and commands. *)
Lemma good_close_tcp w lid : good w → good (close_tcp lid w).
Proof. intros Hg. unfold close_tcp, with_tcp_listener. good_step. Qed.
Lemma good_accept_next w lid : good w → good (accept_next lid w).
Proof. intros Hg. unfold accept_next, with_tcp_listener. good_step. Qed.
Hint Resolve good_close_tcp good_accept_next good_tcp_start good_ws_start good_http_start : evolve.
Lemma good_start_connection w id : good w → good (start_connection id w).
Proof using PreservedBy0. intros Hg. unfold start_connection, with_connection. good_step. Qed.
Hint Resolve good_start_connection : evolve.
Lemma good_admit w l r : good w → good (admit_socket l r w).
Proof using PreservedBy0.
  intros Hg. unfold admit_socket. repeat (casematch; try done; eauto 8 with evolve).
Qed.
Hint Resolve good_admit : evolve.
Lemma good_accepted w lid r : good w → good (accepted lid r w).
Proof using PreservedBy0. intros Hg. unfold accepted, with_tcp_listener. good_step. Qed.
Lemma good_send_command w id m : good w → good (send_command id m w).2.
Proof using PreservedBy0.
  intros Hg. unfold send_command, with_registered, connection_send.
  repeat (casematch; try done); auto using good_tcp_send, good_ws_send, good_udp_send.
Qed.
Lemma good_respond_command ieq w id rid r : good w → good (respond_command ieq id rid r w).2.
Proof.
  intros Hg. unfold respond_command, with_registered, connection_respond.
  repeat (casematch; try done); by apply good_respond.
Qed.
Lemma good_disconnect w id : good w → good (disconnect_command id w).2.
Proof using PreservedBy0. intros Hg. unfold disconnect_command, with_registered. good_step. Qed.

(** One event of the worker. *)
Lemma good_handle ieq w e : good w → good (handle ieq w e).
Proof using PreservedBy0.
  intros Hg. destruct e; simpl; auto using good_accepted, good_http_handshake, good_ws_handshake,
    good_tcp_handshake, good_header, good_body, good_frame, good_upgrade_request, good_upgrade,
    good_ws_message, good_payload, good_request_header, good_request_body, good_response_done,
    good_on_receive, good_complete, good_tick, good_deadline, good_send_command,
    good_disconnect, good_respond_command.
Qed.

Lemma good_start_listener w lid : good w → good (start_listener w lid).
Proof. intros Hg. unfold start_listener. good_step. by apply good_start_udp. Qed.
Lemma good_close_listener w lid : good w → good (close_listener w lid).
Proof using PreservedBy0. intros Hg. unfold close_listener. good_step. Qed.
Lemma good_close_connections n w : good w → good (close_connections n w).
Proof using PreservedBy0. revert w. induction n as [|n IH]; [done|]. intros w Hg. simpl. good_step. Qed.
Lemma good_close_all w : good w → good (close_listeners_and_connections w).
Proof using PreservedBy0.
  intros Hg. apply good_close_connections, good_foldl; [intros; by apply good_close_listener|done].
Qed.
End Evolve.

(** * The service *)
Section Service.
Context {H : Type} (P : H → Prop) (ieq : bytes → bytes → bool)
  (open_listener : ListenerConfig → result bytes unit).

(** The host's property holds, and the service's current callbacks preserve it. *)
Definition host_good (s : Service H) : Prop :=
  PreservedBy (callbacks (context (world s))) P ∧ P (host (context (world s))).

Lemma host_good_world (s : Service H) :
  host_good s → good P (callbacks (context (world s))) (limits (context (world s)))
    (stopping (context (world s))) (world s).
Proof. by intros [? ?]. Qed.
Lemma good_host cb lim st b (w : World H) :
  PreservedBy cb P → good P cb lim st w → host_good (mkService b w).
Proof. intros Hp [Hc _ _ Hh]. split; simpl; [by rewrite Hc|done]. Qed.

Lemma start_host_good cfgs l cb s :
  PreservedBy cb P → host_good s → host_good (TransportService.start open_listener cfgs l cb s).2.
Proof.
  intros Hcb Hs. unfold TransportService.start. destruct (running s); [done|].
  destruct (validate _ _); [|done]. destruct Hs as [Hp Hh].
  destruct (prepare _ _).
  - eapply (good_host cb l false); [done|]. apply good_foldl; [intros; by apply good_start_listener|].
    by split.
  - split; simpl; [apply _|done].
Qed.

Lemma stop_host_good s : host_good s → host_good (TransportService.stop s).
Proof.
  intros Hs. unfold TransportService.stop. destruct (running s); [|done]. simpl.
  pose proof (proj1 Hs) as Hp. split; simpl; [apply _|].
  apply (gd_host P (callbacks (context (world s))) (limits (context (world s))) true).
  apply good_close_all; [done|]. split; try done. apply Hs.
Qed.

Lemma command_host_good {A} (k : World H → result bytes A * World H) s :
  (∀ cb lim st w, PreservedBy cb P → good P cb lim st w → good P cb lim st (k w).2) →
  host_good s → host_good (command k s).2.
Proof.
  intros Hk Hs. unfold command. destruct (running s) eqn:Hr; simpl; [|done].
  pose proof (Hk _ _ _ _ (proj1 Hs) (host_good_world s Hs)) as Hg. destruct (k (world s)).
  eapply good_host; [apply Hs|exact Hg].
Qed.

Lemma worker_host_good s e : host_good s → host_good (apply ieq open_listener s (WorkerOp e)).
Proof.
  intros Hs. pose proof (proj1 Hs). simpl. eapply good_host; [done|].
  by apply good_handle, host_good_world.
Qed.

(** * The callbacks in force *)
Definition in_force (s : Service H) : TransportCallbacks H := callbacks (context (world s)).

Lemma trivially_preserved (cb : TransportCallbacks H) : PreservedBy cb (λ _, True).
Proof. by split. Qed.

Lemma worker_in_force s e : in_force (apply ieq open_listener s (WorkerOp e)) = in_force s.
Proof.
  pose proof (trivially_preserved (in_force s)) as Ht.
  apply (gd_callbacks (λ _, True) _ (limits (context (world s))) (stopping (context (world s)))).
  simpl. by apply good_handle.
Qed.

Lemma start_in_force cfgs l cb s :
  in_force (TransportService.start open_listener cfgs l cb s).2 = in_force s ∨
  in_force (TransportService.start open_listener cfgs l cb s).2 = cb ∨
  in_force (TransportService.start open_listener cfgs l cb s).2 = no_callbacks.
Proof.
  unfold TransportService.start. destruct (running s); [by left|].
  destruct (validate _ _); [|by left]. destruct (prepare _ _); [|by right; right].
  right; left. pose proof (trivially_preserved cb) as Ht.
  apply (gd_callbacks (λ _, True) _ l false). apply good_foldl; [intros; by apply good_start_listener|done].
Qed.

Lemma stop_in_force s :
  in_force (TransportService.stop s) = in_force s ∨ in_force (TransportService.stop s) = no_callbacks.
Proof. unfold TransportService.stop. destruct (running s); [by right|by left]. Qed.

Lemma command_in_force {A} (k : World H → result bytes A * World H) s :
  (∀ cb lim st w, PreservedBy cb (λ _, True) → good (λ _, True) cb lim st w →
     good (λ _, True) cb lim st (k w).2) →
  in_force (command k s).2 = in_force s ∧ running (command k s).2 = running s.
Proof.
  intros Hk. unfold command. destruct (running s) eqn:Hr; simpl; [|done].
  pose proof (Hk (in_force s) (limits (context (world s))) (stopping (context (world s))) (world s)
    (trivially_preserved _) ltac:(done)) as Hg.
  destruct (k (world s)); simpl in *. split; [|done]. apply Hg.
Qed.
End Service.
