(* ===== verification/TransportInvariant.v ===== *)
(** TransportInvariant: what the worker maintains. The host is any application
    whose answers depend on the callbacks seen so far; its state is their log, so
    the invariant ties every connection object to the callbacks its session has
    produced: nothing before a successful open, then messages, then one close. *)
From S2P Require Import Prelude.
From S2P Require Import Text.
From S2P Require Import NetTypes.
From S2P Require Import HttpCodec.
From S2P Require Import WorkerContext.
From S2P Require Import World.
From S2P Require Import ConnectionState.
From S2P Require Import SendQueue.
From S2P Require Import TcpConnection.
From S2P Require Import WebSocketConnection.
From S2P Require Import HttpConnection.
From S2P Require Import Udp.
From S2P Require Import TransportService.

(** * Observing hosts *)

(** One callback invocation, with the host's answer. *)
Inductive HostEvent :=
| EOpen (p : Peer) (accepted : bool)
| EMessage (p : Peer) (data : bytes) (accepted : bool)
| EHttp (p : Peer) (data : bytes) (accepted : bool)
| EClose (p : Peer)
| EError (listener : Z) (message : bytes).

(** The answers of an application that has seen [log]; [None] throws. *)
Record Policy := mkPolicy {
  open_answer : list HostEvent → Peer → option bool;
  message_answer : list HostEvent → Peer → bytes → option bool;
  http_answer : list HostEvent → Peer → bytes → option bool;
}.
Definition yes (r : option bool) : bool := match r with Some b => b | None => false end.

Definition observing (a : Policy) : TransportCallbacks (list HostEvent) :=
  mkCallbacks
    (Some (λ p log, let r := open_answer a log p in (r, log ++ [EOpen p (yes r)])))
    (Some (λ p d log, let r := message_answer a log p d in (r, log ++ [EMessage p d (yes r)])))
    (Some (λ p log, log ++ [EClose p]))
    (Some (λ l m log, log ++ [EError l m]))
    (Some (λ p d log, let r := http_answer a log p d in (r, log ++ [EHttp p d (yes r)]))).

Definition event_peer (e : HostEvent) : option Peer :=
  match e with
  | EOpen p _ | EMessage p _ _ | EHttp p _ _ | EClose p => Some p
  | EError _ _ => None
  end.
Definition concerns (id : Z) (e : HostEvent) : bool :=
  match event_peer e with Some p => session_id p =? id | None => false end.

(** The callbacks of one session, in order. *)
Definition word (id : Z) (log : list HostEvent) : list HostEvent :=
  filter (λ e, concerns id e = true) log.

Lemma word_app id l k : word id (l ++ k) = word id l ++ word id k.
Proof. apply filter_app. Qed.
Lemma word_concerns id e : concerns id e = true → word id [e] = [e].
Proof. intros He. unfold word. by rewrite filter_cons_True. Qed.
Lemma word_ignores id e : concerns id e = false → word id [e] = [].
Proof. intros He. unfold word. rewrite filter_cons_False; [done|by rewrite He]. Qed.

(** * The life of a session *)

(** A delivery to the session, and one the host accepted. *)
Definition delivery (p : Peer) (e : HostEvent) : Prop :=
  match e with EMessage q _ _ | EHttp q _ _ => q = p | _ => False end.
Definition accepted_delivery (p : Peer) (e : HostEvent) : Prop :=
  match e with EMessage q _ b | EHttp q _ b => q = p ∧ b = true | _ => False end.

(** The callbacks a connection in this state has produced. *)
Definition session_trace (c : Connection) (l : list HostEvent) : Prop :=
  match opened c, closed c with
  | false, false => l = []
  | false, true => l = [] ∨ l = [EOpen (peer c) false]
  | true, false => ∃ ms, l = EOpen (peer c) true :: ms ∧ Forall (accepted_delivery (peer c)) ms
  | true, true => ∃ ms last, l = EOpen (peer c) true :: ms ++ last ++ [EClose (peer c)] ∧
      Forall (accepted_delivery (peer c)) ms ∧ Forall (delivery (peer c)) last ∧ zlen last ≤ 1
  end.

(** Which outstanding operations belong to a session not yet announced to the
    host, and which to an announced one. *)
Definition before_open (wr : Wire) : bool :=
  match wr with
  | TcpWire t => bool_decide (tcp_phase t = Handshaking)
  | WsWire s => match ws_phase s with Handshaking | ReadingHeader | Upgrading => true | _ => false end
  | HttpWire h => bool_decide (http_phase h = Handshaking)
  | UdpWire _ => false
  end.
Definition after_open (wr : Wire) : bool :=
  match wr with
  | TcpWire t => match tcp_phase t with ReadingHeader | ReadingBody _ => true | _ => false end
  | WsWire s => bool_decide (ws_phase s = ReadingMessage)
  | HttpWire h => match http_phase h with ReadingHeader | ReadingMessage => true | _ => false end
      || negb (bool_decide (http_writing h = None))
  | UdpWire _ => false
  end.

(** The outgoing state: the queue's accounting, or a pending request whose
    identifier the connection may hold. *)
Definition outgoing_ok (max : Z) (held : Z → Prop) (wr : Wire) : Prop :=
  match wr with
  | TcpWire t => queue_ok TcpConnection.frame_cost max (tcp_queue t)
  | WsWire s => queue_ok WebSocketConnection.payload_cost max (ws_queue s)
  | HttpWire h => http_pending h = 0 ∨ held (http_pending h)
  | UdpWire u => queue_ok Udp.queue_cost max (udp_queue u)
  end.

Record wire_ok (max : Z) (held : Z → Prop) (is_open : bool) (wr : Wire) : Prop := {
  wk_before : before_open wr = true → is_open = false;
  wk_after : after_open wr = true → is_open = true;
  wk_outgoing : outgoing_ok max held wr;
}.

Abbreviation LoggedWorld := (World (list HostEvent)).

(** What no handler of the worker changes, and a set of requests already answered,
    as pairs of a session and a request identifier. *)
Definition static_of (ctx : WorkerContext (list HostEvent)) :
    ServiceLimits * TransportCallbacks (list HostEvent) * bool :=
  (limits ctx, callbacks ctx, stopping ctx).
Record Static := mkStatic {
  st_static : ServiceLimits * TransportCallbacks (list HostEvent) * bool;
  st_answered : gset (Z * Z);
}.

(** A request identifier a session may be holding: handed out, not yet answered. *)
Definition held (K : Static) (ctx : WorkerContext (list HostEvent)) (id r : Z) : Prop :=
  issued (next_http_request_id ctx) r ∧ (id, r) ∉ st_answered K.

(** Every request the host has seen is a well-formed event. *)
Definition log_ok (log : list HostEvent) : Prop :=
  ∀ p d b, EHttp p d b ∈ log → is_Some (decode_http_request (Some d)).

(** One connection object. *)
Record conn_ok {K : Static} (ctx : WorkerContext (list HostEvent)) (id : Z) (c : Connection) : Prop := {
  ck_id : session_id (peer c) = id;
  ck_issued : issued (next_session_id ctx) id;
  ck_wire : closed c = false →
    wire_ok (max_send_queue_bytes (limits ctx)) (held K ctx id) (opened c) (wire c);
  ck_trace : session_trace c (word id (host ctx));
}.

Lemma log_ok_app log l : log_ok log → log_ok l → log_ok (log ++ l).
Proof. intros H1 H2 p d b [H|H]%elem_of_app; eauto. Qed.
Lemma log_ok_other e : (∀ p d b, e ≠ EHttp p d b) → log_ok [e].
Proof. intros He p d b Hin. apply list_elem_of_singleton in Hin. naive_solver. Qed.
Lemma log_ok_close (b : bool) p : log_ok (if b then [EClose p] else []).
Proof. destruct b; [by apply log_ok_other|]. intros ? ? ? H. by apply not_elem_of_nil in H. Qed.
#[local] Hint Resolve log_ok_app log_ok_close : engine.

(** A datagram route leads to a live peer of the listener. *)
Definition route_ok (w : LoggedWorld) (lid : Z) (endpoint : bytes * Z) (id : Z) : Prop :=
  ∃ c, objects w !! id = Some c ∧ closed c = false ∧ is_udp (wire c) = true ∧
    listener_id (peer c) = lid ∧ endpoint_of c = endpoint.

(** The invariant, at a given configuration. *)
Record world_inv {K : Static} (w : LoggedWorld) : Prop := {
  wo_static : static_of (context w) = st_static K;
  wo_conn : ∀ id c, objects w !! id = Some c → @conn_ok K (context w) id c;
  wo_none : ∀ id, objects w !! id = None → word id (host (context w)) = [];
  wo_registry : ∀ id, id ∈ connections (context w) ↔
    ∃ c, objects w !! id = Some c ∧ closed c = false;
  wo_next : is_u64 (next_session_id (context w));
  wo_log : log_ok (host (context w));
  wo_answered : ∀ id r, (id, r) ∈ st_answered K → issued (next_http_request_id (context w)) r;
  wo_request : is_u64 (next_http_request_id (context w));
  wo_message : is_u64 (max_message_bytes (limits (context w)));
  wo_max : is_u64 (max_send_queue_bytes (limits (context w)));
  wo_count : connection_count (context w) ≤ max_connections (limits (context w))
             ∨ connections (context w) = ∅;
  wo_callbacks : (∃ a, callbacks (context w) = observing a) ∨
    (callbacks (context w) = no_callbacks ∧ listeners w = ∅ ∧ connections (context w) = ∅);
  wo_listener : ∀ lid l, listeners w !! lid = Some (AUdpListener l) → lc_id (ul_config l) = lid;
  wo_route : ∀ lid l endpoint id, listeners w !! lid = Some (AUdpListener l) →
    ul_peers l !! endpoint = Some id → route_ok w lid endpoint id;
}.

(** * Steps on the store *)
Section Invariant.
Context {K : Static}.
#[local] Abbreviation world_ok := (@world_inv K).

Lemma lookup_put {H} (w : World H) id c k :
objects (put id c w) !! k = if decide (id = k) then Some c else objects w !! k.
Proof.
unfold put. simpl. case_decide as Hd; [subst; apply lookup_insert_eq|by apply lookup_insert_ne].
Qed.

Lemma live_registered w id c :
world_ok w → objects w !! id = Some c → closed c = false → id ∈ connections (context w).
Proof. intros Hw Hc Hl. apply (wo_registry _ Hw). eauto. Qed.

Lemma live_observed w id c :
world_ok w → objects w !! id = Some c → closed c = false →
∃ a, callbacks (context w) = observing a.
Proof.
intros Hw Hc Hl. destruct (wo_callbacks _ Hw) as [|(_ & _ & He)]; [done|].
pose proof (live_registered _ _ _ Hw Hc Hl). set_solver.
Qed.

(** Replacing an object by one with the same identity and life cycle. *)
Record same_life (c c' : Connection) : Prop := {
sl_peer : peer c' = peer c;
sl_closed : closed c' = closed c;
sl_opened : opened c' = opened c;
sl_udp : is_udp (wire c') = is_udp (wire c);
}.

Lemma same_life_route w id c c' lid endpoint k :
objects w !! id = Some c → same_life c c' →
route_ok w lid endpoint k → route_ok (put id c' w) lid endpoint k.
Proof.
intros Hc [Hp Hcl Ho Hu] (d & Hd & Hl & Hud & Hld & He). unfold route_ok.
rewrite lookup_put. case_decide; [|eauto 10]. subst. simplify_eq.
exists c'. unfold endpoint_of in *. by rewrite Hp, Hcl, Hu.
Qed.

Lemma put_ok w id c c' :
world_ok w → objects w !! id = Some c → same_life c c' →
(closed c = false → wire_ok (max_send_queue_bytes (limits (context w)))
   (held K (context w) id) (opened c) (wire c')) →
world_ok (put id c' w).
Proof.
intros Hw Hc Hs Hwire. pose proof Hs as [Hp Hcl Ho Hu]. split; simpl; try apply Hw.
- intros k d Hk. rewrite lookup_insert in Hk. case_decide; [|by apply Hw].
  simplify_eq. destruct (wo_conn _ Hw _ _ Hc) as [Hi Hn _ Ht]. split; simpl.
  + by rewrite Hp.
  + done.
  + by rewrite Hcl, Ho.
  + unfold session_trace in *. by rewrite Hp, Hcl, Ho.
- intros k Hk. rewrite lookup_insert in Hk. case_decide; [done|by apply Hw].
- intros k. rewrite (wo_registry _ Hw k). split; intros (d & Hd & Hl).
  + rewrite lookup_insert. case_decide; [|eauto]. subst. simplify_eq. exists c'. by rewrite Hcl.
  + rewrite lookup_insert in Hd. case_decide; [|eauto]. subst. simplify_eq. exists c.
    by rewrite Hcl in Hl.
- intros lid l endpoint k Hl Hk. eapply same_life_route; [done..|]. by apply (wo_route _ Hw _ l).
Qed.

(** * Closing *)

(** The listeners after a live connection has closed. *)
Definition routes_after (c : Connection) (w : LoggedWorld) : gmap Z Listener :=
listeners (if is_udp (wire c) then forget_peer (listener_id (peer c)) (endpoint_of c) w else w).

Lemma close_live w id c :
world_ok w → objects w !! id = Some c → closed c = false →
close id w = mkWorld
  (mkContext (limits (context w)) (callbacks (context w))
     (host (context w) ++ if opened c then [EClose (peer c)] else [])
     (stopping (context w)) (connections (context w) ∖ {[id]})
     (next_session_id (context w)) (next_http_request_id (context w)))
  (<[id := with_closed c (close_wire (wire c))]> (objects w)) (routes_after c w).
Proof.
intros Hw Hc Hl. pose proof (live_registered _ _ _ Hw Hc Hl) as Hr.
destruct (live_observed _ _ _ Hw Hc Hl) as [a Ha].
pose proof (ck_id _ _ _ (wo_conn _ Hw _ _ Hc)) as Hid.
unfold close, with_connection, routes_after, on_context, remove_connection, forget_peer, put,
  put_listener. rewrite Hc, Hl.
destruct w as [ctx os ls], ctx as [lim cb h st cs n1 n2]; simpl in *.
repeat (casematch; simpl in *); simplify_eq/=; rewrite ?Hid in *; simplify_eq/=;
  rewrite ?app_nil_r; try done; bprop; try done.
Qed.

Lemma close_dead w id c : objects w !! id = Some c → closed c = true → close (H:=list HostEvent) id w = w.
Proof. intros Hc Hl. unfold close, with_connection. by rewrite Hc, Hl. Qed.
Lemma close_none (w : LoggedWorld) id : objects w !! id = None → close id w = w.
Proof. intros Hc. unfold close, with_connection. by rewrite Hc. Qed.

(** Either [close] does nothing or it closes a live connection. *)
Lemma close_cases w id (P : LoggedWorld → Prop) :
P w → (∀ c, objects w !! id = Some c → closed c = false → P (close id w)) → P (close id w).
Proof.
intros H1 H2. destruct (objects w !! id) as [c|] eqn:Hc; [|by rewrite close_none].
destruct (closed c) eqn:Hl; [by erewrite close_dead|eauto].
Qed.

Lemma routes_after_udp w c lid l :
routes_after c w !! lid = Some (AUdpListener l) →
∃ l0, listeners w !! lid = Some (AUdpListener l0) ∧ ul_config l = ul_config l0 ∧
  ul_started l = ul_started l0 ∧ ul_closed l = ul_closed l0 ∧
  ul_peers l = if decide (is_udp (wire c) = true ∧ listener_id (peer c) = lid)
               then delete (endpoint_of c) (ul_peers l0) else ul_peers l0.
Proof.
unfold routes_after, forget_peer, put_listener.
destruct (is_udp (wire c)); [|intros; exists l; case_decide; [by destruct_and!|done]].
destruct (listeners w !! listener_id (peer c)) as [[l1|l1]|] eqn:E; simpl.
- intros Hl. exists l. case_decide as Hd; [|done]. destruct Hd as [_ <-]. congruence.
- rewrite lookup_insert. case_decide as Hd.
  + intros [= <-]. subst. exists l1. rewrite decide_True by done. done.
  + intros. exists l. rewrite decide_False by naive_solver. done.
- intros Hl. exists l. case_decide as Hd; [|done]. destruct Hd as [_ <-]. congruence.
Qed.

Lemma routes_after_empty w c : listeners w = ∅ → routes_after c w = ∅.
Proof.
intros Hw. unfold routes_after, forget_peer. destruct (is_udp (wire c)); [|done].
by rewrite Hw, lookup_empty.
Qed.

Lemma word_close id p (b : bool) :
session_id p = id → word id (if b then [EClose p] else []) = if b then [EClose p] else [].
Proof.
intros Hp. destruct b; [|done]. apply word_concerns. unfold concerns. simpl.
by apply Z.eqb_eq.
Qed.

Lemma session_trace_close c l :
session_trace c l → closed c = false →
session_trace (with_closed c (close_wire (wire c)))
  (l ++ if opened c then [EClose (peer c)] else []).
Proof.
unfold session_trace. simpl. intros Ht Hl. rewrite Hl in Ht. destruct (opened c).
- destruct Ht as (ms & -> & Hms). exists ms, []. rewrite zlen_nil. split_and!; [done|done|constructor|lia].
- subst. by left.
Qed.

Lemma close_ok w id : world_ok w → world_ok (close id w).
Proof.
intros Hw. apply close_cases; [done|]. intros c Hc Hl. rewrite (close_live w id c) by done.
pose proof (wo_conn _ Hw _ _ Hc) as [Hi Hn _ Ht].
assert (∀ k, k ≠ id → word k (if opened c then [EClose (peer c)] else []) = []) as Hk.
{ intros k Hne. destruct (opened c); [|done]. apply word_ignores. unfold concerns. simpl.
  apply Z.eqb_neq. congruence. }
split; simpl; try apply Hw.
- intros k d Hd. rewrite lookup_insert in Hd. case_decide as He.
  + subst k. simplify_eq. split; simpl; [done|done|done|].
    rewrite word_app, word_close by done. by apply session_trace_close.
  + destruct (wo_conn _ Hw _ _ Hd) as [Hi' Hn' Hw' Ht']. split; simpl; try done.
    by rewrite word_app, Hk, app_nil_r.
- intros k Hd. rewrite lookup_insert in Hd. case_decide; [done|].
  by rewrite word_app, Hk, app_nil_r, (wo_none _ Hw).
- intros k. rewrite elem_of_difference, (wo_registry _ Hw), not_elem_of_singleton. split.
  + intros [(d & Hd & Hld) Hne]. exists d. by rewrite lookup_insert_ne.
  + intros (d & Hd & Hld). rewrite lookup_insert in Hd. case_decide; [by simplify_eq/=|].
    split; [eauto|congruence].
- apply log_ok_app; [apply Hw|apply log_ok_close].
- destruct (wo_count _ Hw) as [Hle|He].
  + left. unfold connection_count in *. simpl.
    assert (size (connections (context w) ∖ {[id]}) ≤ size (connections (context w)))%nat
      by (apply subseteq_size; set_solver). lia.
  + right. set_solver.
- destruct (wo_callbacks _ Hw) as [Ha|(Hcb & Hls & Hcs)]; [by left|].
  right. split_and!; [done|by apply routes_after_empty|set_solver].
- intros lid l Hll. destruct (routes_after_udp _ _ _ _ Hll) as (l0 & H0 & -> & _).
  by apply (wo_listener _ Hw).
- intros lid l ep k Hll Hep.
  destruct (routes_after_udp _ _ _ _ Hll) as (l0 & H0 & _ & _ & _ & Hpeers).
  assert (ul_peers l0 !! ep = Some k ∧
    ¬ (is_udp (wire c) = true ∧ listener_id (peer c) = lid ∧ endpoint_of c = ep)) as [Hk0 Hno].
  { rewrite Hpeers in Hep. case_decide as Hd.
    - rewrite lookup_delete_Some in Hep. naive_solver.
    - naive_solver. }
  destruct (wo_route _ Hw _ _ _ _ H0 Hk0) as (d & Hd & Hld & Hu & Hlid & He).
  exists d. split_and!; try done. simpl. rewrite lookup_insert_ne; [done|].
  intros ->. simplify_eq. naive_solver.
Qed.

(** What [close] leaves alone. *)
Lemma close_context w id :
world_ok w →
limits (context (close id w)) = limits (context w) ∧
stopping (context (close id w)) = stopping (context w) ∧
callbacks (context (close id w)) = callbacks (context w) ∧
next_session_id (context (close id w)) = next_session_id (context w) ∧
next_http_request_id (context (close id w)) = next_http_request_id (context w) ∧
connections (context (close id w)) = connections (context w) ∖ {[id]}.
Proof.
intros Hw. destruct (objects w !! id) as [c|] eqn:Hc.
- destruct (closed c) eqn:Hl.
  + rewrite (close_dead w id c) by done. split_and!; try done.
    assert (id ∉ connections (context w)); [|set_solver].
    rewrite (wo_registry _ Hw). intros (d & Hd & Hld). congruence.
  + by rewrite (close_live w id c).
- rewrite close_none by done. split_and!; try done.
  assert (id ∉ connections (context w)); [|set_solver].
  rewrite (wo_registry _ Hw). intros (d & Hd & Hld). congruence.
Qed.

(** * Callbacks *)

(** Changing the parts of the context no session depends on. *)
Lemma context_ok w ctx :
world_ok w →
limits ctx = limits (context w) → callbacks ctx = callbacks (context w) →
stopping ctx = stopping (context w) → connections ctx = connections (context w) →
(∀ id, word id (host ctx) = word id (host (context w))) → log_ok (host ctx) →
is_u64 (next_session_id ctx) → is_u64 (next_http_request_id ctx) →
(∀ id, issued (next_session_id (context w)) id → issued (next_session_id ctx) id) →
(∀ id, issued (next_http_request_id (context w)) id → issued (next_http_request_id ctx) id) →
world_ok (on_context (λ _, ctx) w).
Proof.
intros Hw Hl Hcb Hst Hcs Hh Hlog Hn1 Hn2 Hi1 Hi2.
split; simpl; rewrite ?Hl, ?Hcb, ?Hcs; try apply Hw; try done.
- unfold static_of. rewrite Hl, Hcb, Hst. apply Hw.
- intros id c Hc. destruct (wo_conn _ Hw _ _ Hc) as [H1 H2 H3 H4]. split; simpl.
  + done.
  + eauto.
  + rewrite Hl. intros Hcl. destruct (H3 Hcl) as [Hb Ha Ho]. split; [done..|].
    unfold outgoing_ok, held in *. casematch; naive_solver.
  + by rewrite Hh.
- intros id Hc. rewrite Hh. by apply (wo_none _ Hw).
- intros id r Hr. apply Hi2. by apply (wo_answered _ Hw id).
- destruct (wo_count _ Hw) as [Hc|Hc]; unfold connection_count in *; rewrite ?Hcs; auto.
Qed.

Lemma report_ok w listener message : world_ok w → world_ok (report listener message w).
Proof.
intros Hw. unfold report, on_context, report_error.
destruct (wo_callbacks _ Hw) as [[a Ha]|(Ha & _)]; rewrite Ha; simpl; [|by destruct w].
apply (context_ok w (with_host _ (context w)) Hw); try apply Hw; try done.
- intros id. simpl. by rewrite word_app, (word_ignores id (EError _ _)), app_nil_r.
- apply log_ok_app; [apply Hw|by apply log_ok_other].
Qed.

(** The state right after the host saw an event of a live session. *)
Lemma deliver_ok w id c e c' :
world_ok w → objects w !! id = Some c → closed c = false →
same_life c c' ∨ (peer c' = peer c ∧ closed c' = false ∧ is_udp (wire c') = is_udp (wire c)) →
concerns id e = true → (∀ k, k ≠ id → concerns k e = false) → log_ok [e] →
session_trace c' (word id (host (context w)) ++ [e]) →
wire_ok (max_send_queue_bytes (limits (context w)))
   (held K (context w) id) (opened c') (wire c') →
world_ok (put id c' (on_context (λ x, with_host (host x ++ [e]) x) w)).
Proof.
intros Hw Hc Hl Hs He Hne Hlog Ht Hwire.
assert (peer c' = peer c ∧ closed c' = false ∧ is_udp (wire c') = is_udp (wire c)) as (Hp & Hcl & Hu).
{ destruct Hs as [[? ? ? ?]|]; [|done]. split_and!; congruence. }
pose proof (wo_conn _ Hw _ _ Hc) as [Hi Hn _ _].
split; simpl; try apply Hw.
- intros k d Hd. rewrite lookup_insert in Hd. case_decide as Hk.
  + simplify_eq. split; simpl.
    * by rewrite Hp.
    * done.
    * done.
    * by rewrite word_app, (word_concerns (session_id (peer c))).
  + destruct (wo_conn _ Hw _ _ Hd) as [? ? ? ?]. split; simpl; try done.
    rewrite word_app, (word_ignores k), app_nil_r by auto. done.
- intros k Hd. rewrite lookup_insert in Hd. case_decide as Hk; [done|].
  rewrite word_app, (word_ignores k), app_nil_r by auto. by apply (wo_none _ Hw).
- intros k. rewrite (wo_registry _ Hw k). split; intros (d & Hd & Hld).
  + rewrite lookup_insert. case_decide; [|eauto]. subst. eauto.
  + rewrite lookup_insert in Hd. case_decide; [|eauto]. subst. eauto.
- apply log_ok_app; [apply Hw|done].
- intros lid l endpoint k Hll Hk. destruct (wo_route _ Hw _ _ _ _ Hll Hk) as (d & Hd & Hld & Hud & Hlid & Hep).
  unfold route_ok. simpl. rewrite lookup_insert. case_decide; [|eauto 10]. subst. simplify_eq.
  exists c'. unfold endpoint_of in *. by rewrite Hp, Hu.
Qed.

Lemma concerns_other id p b :
session_id p = id → ∀ k, k ≠ id → concerns k (EOpen p b) = false.
Proof. intros Hp k Hk. unfold concerns. simpl. apply Z.eqb_neq. congruence. Qed.

(** The object of a session whose host refused an event, before [close] runs,
  satisfies every clause but the trace of an open session; closing it at once
  restores the invariant. *)
Lemma refuse_ok w id c e :
world_ok w → objects w !! id = Some c → closed c = false →
concerns id e = true → (∀ k, k ≠ id → concerns k e = false) → log_ok [e] →
(if opened c then delivery (peer c) e else e = EOpen (peer c) false) →
world_ok (close id (on_context (λ x, with_host (host x ++ [e]) x) w)).
Proof.
intros Hw Hc Hl He Hne Hlog Hev.
pose proof (close_ok w id Hw) as Hok. pose proof (close_live w id c Hw Hc Hl) as Hcl.
assert (close id (on_context (λ x, with_host (host x ++ [e]) x) w) =
  mkWorld (with_host ((host (context w) ++ [e]) ++ if opened c then [EClose (peer c)] else [])
    (context (close id w))) (objects (close id w)) (listeners (close id w))) as ->.
{ rewrite Hcl. pose proof (live_registered _ _ _ Hw Hc Hl) as Hr.
  destruct (live_observed _ _ _ Hw Hc Hl) as [a Ha].
  pose proof (ck_id _ _ _ (wo_conn _ Hw _ _ Hc)) as Hid.
  unfold close, with_connection, routes_after, on_context, remove_connection, forget_peer, put,
    put_listener, with_host.
  destruct w as [ctx os ls], ctx as [lim cb h st cs n1 n2]; simpl in *. rewrite Hc, Hl. simpl.
  repeat (casematch; simpl in *); simplify_eq/=; rewrite ?Hid in *; simplify_eq/=;
    rewrite ?app_nil_r; try done; bprop; try done. }
assert (∀ k, k ≠ id → word k (if opened c then [EClose (peer c)] else []) = []) as Hk.
{ intros k Hk. destruct (opened c); [|done]. apply word_ignores. unfold concerns. simpl.
  pose proof (ck_id _ _ _ (wo_conn _ Hw _ _ Hc)). apply Z.eqb_neq. congruence. }
assert (∀ k, k ≠ id → word k ((host (context w) ++ [e]) ++
   (if opened c then [EClose (peer c)] else [])) = word k (host (context (close id w)))) as Hword.
{ intros k Hki. rewrite Hcl. simpl. rewrite !word_app, Hk by done.
  by rewrite (word_ignores k e), !app_nil_r by auto. }
split; simpl; try apply Hok.
- intros k d Hd. destruct (wo_conn _ Hok _ _ Hd) as [H1 H2 H3 H4]. split; simpl; try done.
  destruct (decide (k = id)) as [->|Hki]; [|by rewrite Hword].
  rewrite Hcl in Hd. simpl in Hd. rewrite lookup_insert_eq in Hd. simplify_eq.
  pose proof (wo_conn _ Hw _ _ Hc) as [Hi _ _ Ht]. simpl in *.
  rewrite !word_app, word_close by done. rewrite (word_concerns _ e) by done.
  unfold session_trace in *. simpl. rewrite Hl in Ht. destruct (opened c).
  + destruct Ht as (ms & -> & Hms). exists ms, [e].
    split_and!; [by rewrite <- !app_assoc|done|by constructor|rewrite zlen_cons, zlen_nil; lia].
  + subst. rewrite Ht. by right.
- intros k Hd. rewrite Hword; [by apply (wo_none _ Hok)|]. intros ->.
  rewrite Hcl in Hd. simpl in Hd. by rewrite lookup_insert_eq in Hd.
- apply log_ok_app; [|apply log_ok_close]. apply log_ok_app; [apply Hw|done].
Qed.
End Invariant.
