(* ===== verification/TransportSteps.v ===== *)
(** TransportSteps: every handler of the worker preserves [world_ok]. *)
From S2P Require Import Prelude.
From S2P Require Import Text.
From S2P Require Import NetTypes.
From S2P Require Import HttpCodec.
From S2P Require Import WorkerContext.
From S2P Require Import World.
From S2P Require Import ConnectionState.
From S2P Require Import SendQueue.
From S2P Require Import TcpConnection.
From S2P Require Import WebSocketConnection.
From S2P Require Import HttpConnection.
From S2P Require Import Udp.
From S2P Require Import TransportService.
From S2P Require Import TransportInvariant.

(** Unfold an operation on a connection: a case per lookup and per wire. *)
Ltac on_connection id :=
  unfold with_connection;
  match goal with
  | |- context [objects ?w !! id] =>
      let c := fresh "c" in let Hc := fresh "Hc" in
      destruct (objects w !! id) as [c|] eqn:Hc; [|done]
  end.

Section Steps.
Context {K : Static}.
#[local] Abbreviation world_ok := (@world_inv K).

(** A live object, and an announced one with a given wire state. *)
Definition live (w : LoggedWorld) (id : Z) (c : Connection) : Prop :=
objects w !! id = Some c ∧ closed c = false.

Lemma live_wire w id c :
world_ok w → live w id c →
wire_ok (max_send_queue_bytes (limits (context w))) (held K (context w) id)
  (opened c) (wire c).
Proof. intros Hw [Hc Hl]. by apply (wo_conn _ Hw _ _ Hc). Qed.

(** * Deadlines and wire updates *)

Lemma arm_deadline_live w id d c :
live w id c →
arm_deadline id d w = put id (mkConnection (peer c) (config c) (closed c) (opened c)
  (u64 (deadline_generation c + 1)) d (wire c)) w.
Proof. intros [Hc Hl]. unfold arm_deadline, with_connection. by rewrite Hc, Hl. Qed.

Lemma arm_deadline_ok w id d : world_ok w → world_ok (arm_deadline id d w).
Proof.
intros Hw. unfold arm_deadline, with_connection. destruct (objects w !! id) as [c|] eqn:Hc; [|done].
destruct (closed c) eqn:Hl; [done|]. apply (put_ok w id c); [done..|].
by apply (wo_conn _ Hw _ _ Hc).
Qed.

(** The object after arming: same state, later generation. *)
Lemma arm_deadline_keeps w id d c :
live w id c →
∃ c', live (arm_deadline id d w) id c' ∧ opened c' = opened c ∧ wire c' = wire c ∧
  peer c' = peer c ∧ config c' = config c.
Proof.
intros Hc. rewrite (arm_deadline_live _ _ _ c) by done. destruct Hc as [Hc Hl].
eexists. split; [split; [apply lookup_insert_eq|done]|done].
Qed.

Lemma set_wire_ok w id c wr :
world_ok w → live w id c → is_udp wr = is_udp (wire c) →
wire_ok (max_send_queue_bytes (limits (context w))) (held K (context w) id) (opened c) wr →
world_ok (put id (with_wire wr c) w).
Proof. intros Hw [Hc Hl] Hu Hwr. by apply (put_ok w id c). Qed.

Lemma set_dead_ok w id c wr :
world_ok w → objects w !! id = Some c → closed c = true → is_udp wr = is_udp (wire c) →
world_ok (put id (with_wire wr c) w).
Proof. intros Hw Hc Hl Hu. apply (put_ok w id c); [done..|]. congruence. Qed.

(** * The shared life cycle *)

Lemma reject_ok w id reason : world_ok w → world_ok (reject id reason w).
Proof.
intros Hw. unfold reject. on_connection id. destruct (closed c); [done|].
by apply close_ok, report_ok.
Qed.

Lemma fail_ok w id error operation : world_ok w → world_ok (fail id error operation w).
Proof.
intros Hw. unfold fail. on_connection id. destruct (closed c); [done|].
apply close_ok. destruct error; [done|done|by apply report_ok].
Qed.

Lemma deadline_expired_ok w id generation :
world_ok w → world_ok (deadline_expired id generation w).
Proof.
intros Hw. unfold deadline_expired. on_connection id. casematch; [by apply reject_ok|done].
Qed.

Lemma publish_open_ok w id c :
world_ok w → live w id c → opened c = false →
before_open (wire c) = false →
world_ok (publish_open id w).2 ∧
((publish_open id w).1 = true → ∃ c', live (publish_open id w).2 id c' ∧
   opened c' = true ∧ wire c' = wire c ∧ peer c' = peer c).
Proof.
intros Hw Hlive Ho Hb. pose proof (live_wire _ _ _ Hw Hlive) as Hwire.
destruct Hlive as [Hc Hl].
destruct (live_observed _ _ _ Hw Hc Hl) as [a Ha].
pose proof (ck_id _ _ _ (wo_conn _ Hw _ _ Hc)) as Hid.
set (r := yes (open_answer a (host (context w)) (peer c))).
assert (asking (notify_open (peer c)) w =
  (r, on_context (λ x, with_host (host x ++ [EOpen (peer c) r]) x) w)) as Hask.
{ unfold asking, notify_open. rewrite Ha. simpl. unfold guarded. simpl. by destruct w. }
assert (concerns id (EOpen (peer c) r) = true) as He.
{ unfold concerns. simpl. by apply Z.eqb_eq. }
unfold publish_open. rewrite Hc, Hl, Hask. destruct r eqn:Hr; simpl.
- set (w1 := on_context _ w).
  assert (objects w1 !! id = Some c) as Hc1 by done.
  unfold with_connection. rewrite Hc1.
  assert (world_ok (put id (with_opened c) w1)) as Hok.
  { apply (deliver_ok w id c (EOpen (peer c) true) (with_opened c)); try done.
    - by right.
    - by apply concerns_other.
    - by apply log_ok_other.
    - pose proof (ck_trace _ _ _ (wo_conn _ Hw _ _ Hc)) as Ht. unfold session_trace in *.
      rewrite Ho, Hl in Ht. simpl. rewrite Hl, Ht. exists []. split; [done|constructor].
    - destruct Hwire as [_ _ H3]. simpl. split; [congruence|done|done]. }
  split; [by apply arm_deadline_ok|]. intros _.
  destruct (arm_deadline_keeps (put id (with_opened c) w1) id
    (idle_timeout_ms (limits (context (put id (with_opened c) w1)))) (with_opened c)) as (c' & ? & ? & ? & ? & ?).
  { split; [apply lookup_insert_eq|done]. }
  exists c'. done.
- split; [|done]. apply (refuse_ok w id c); try done;
    [by apply concerns_other|by apply log_ok_other|by rewrite Ho].
Qed.

(** A message or a request handed to the host of an announced session. *)
Section Deliver.
Context (w : LoggedWorld) (id : Z) (c : Connection).
Hypothesis Hw : world_ok w.
Hypothesis Hlive : live w id c.
Hypothesis Ho : opened c = true.

Lemma delivered_ok e :
accepted_delivery (peer c) e → log_ok [e] → world_ok (on_context (λ x, with_host (host x ++ [e]) x) w).
Proof using Hw Hlive Ho.
intros He Hlog. pose proof (live_wire _ _ _ Hw Hlive) as Hwire. destruct Hlive as [Hc Hl].
pose proof (ck_id _ _ _ (wo_conn _ Hw _ _ Hc)) as Hid.
assert (event_peer e = Some (peer c)) as Hp.
{ destruct e; simpl in *; try done; by destruct He as [-> _]. }
replace (on_context _ w) with (put id c (on_context (λ x, with_host (host x ++ [e]) x) w)).
- apply (deliver_ok w id c e c); try done.
  + by left.
  + unfold concerns. rewrite Hp. by apply Z.eqb_eq.
  + intros k Hk. unfold concerns. rewrite Hp. apply Z.eqb_neq. congruence.
  + pose proof (ck_trace _ _ _ (wo_conn _ Hw _ _ Hc)) as Ht. unfold session_trace in *.
    rewrite Ho, Hl in *. destruct Ht as (ms & -> & Hms). exists (ms ++ [e]).
    split; [done|]. apply Forall_app; split; [done|by constructor].
- unfold put, on_context. simpl. f_equal. by apply insert_id.
Qed.

Lemma refused_ok e :
delivery (peer c) e → log_ok [e] → world_ok (close id (on_context (λ x, with_host (host x ++ [e]) x) w)).
Proof using Hw Hlive Ho.
intros He Hlog. destruct Hlive as [Hc Hl].
pose proof (ck_id _ _ _ (wo_conn _ Hw _ _ Hc)) as Hid.
assert (event_peer e = Some (peer c)) as Hp by (destruct e; simpl in *; by subst).
apply (refuse_ok w id c); try done.
- unfold concerns. rewrite Hp. by apply Z.eqb_eq.
- intros k Hk. unfold concerns. rewrite Hp. apply Z.eqb_neq. congruence.
- by rewrite Ho.
Qed.
End Deliver.

(** What the host answers, and the world after the callback. *)
Lemma ask_message w id c data :
world_ok w → live w id c →
∃ r, asking (notify_message (peer c) data) w =
  (r, on_context (λ x, with_host (host x ++ [EMessage (peer c) data r]) x) w).
Proof.
intros Hw [Hc Hl]. destruct (live_observed _ _ _ Hw Hc Hl) as [a Ha].
eexists. unfold asking, notify_message. rewrite Ha. simpl. unfold guarded. simpl.
unfold on_context. simpl. f_equal.
Qed.

Lemma ask_http w id c data :
world_ok w → live w id c →
∃ r, asking (notify_http_request (peer c) data) w =
  (r, on_context (λ x, with_host (host x ++ [EHttp (peer c) data r]) x) w).
Proof.
intros Hw [Hc Hl]. destruct (live_observed _ _ _ Hw Hc Hl) as [a Ha].
eexists. unfold asking, notify_http_request. rewrite Ha. simpl. unfold guarded. simpl.
unfold on_context. simpl. f_equal.
Qed.

Lemma publish_message_ok w id c data :
world_ok w → live w id c → opened c = true →
world_ok (publish_message id data w).2 ∧
((publish_message id data w).1 = true → ∃ c', live (publish_message id data w).2 id c' ∧
   opened c' = true ∧ wire c' = wire c).
Proof.
intros Hw Hlive Ho. pose proof Hlive as [Hc Hl]. unfold publish_message. rewrite Hc, Hl.
destruct (ask_message w id c data Hw Hlive) as [r ->]. destruct r; simpl.
- split.
  + apply arm_deadline_ok, (delivered_ok w id c); try done. by apply log_ok_other.
  + intros _. set (w1 := on_context _ w).
    destruct (arm_deadline_keeps w1 id (idle_timeout_ms (limits (context w1))) c) as (c' & ? & ? & ? & _).
    { done. }
    exists c'. split_and!; [done|congruence|done].
- split; [|done]. apply (refused_ok w id c); try done. by apply log_ok_other.
Qed.

(** * TCP handlers *)

Lemma wire_ok_phase m n o wr wr' :
wire_ok m n o wr → (outgoing_ok m n wr → outgoing_ok m n wr') →
(before_open wr' = true → o = false) → (after_open wr' = true → o = true) →
wire_ok m n o wr'.
Proof. intros [_ _ Ho] Hq Hb Ha. split; auto. Qed.

Lemma update_tcp_ok w id f :
world_ok w →
(∀ c t, objects w !! id = Some c → closed c = false → wire c = TcpWire t →
   wire_ok (max_send_queue_bytes (limits (context w))) (held K (context w) id)
     (opened c) (TcpWire (f t))) →
world_ok (update_tcp id f w).
Proof.
intros Hw Hf. unfold update_tcp, with_tcp. on_connection id.
destruct (wire c) as [t|s|h|u] eqn:Hwr; try done.
apply (put_ok w id c); try done; [by split; simpl; rewrite ?Hwr|]. intros. by apply Hf.
Qed.

Lemma update_tcp_live w id f c t :
live w id c → wire c = TcpWire t →
live (update_tcp id f w) id (with_wire (TcpWire (f t)) c).
Proof.
intros [Hc Hl] Hwr. unfold update_tcp, with_tcp, with_connection. rewrite Hc, Hwr.
split; [apply lookup_insert_eq|done].
Qed.

Lemma tcp_read_header_ok w id c t :
world_ok w → live w id c → wire c = TcpWire t → opened c = true →
world_ok (TcpConnection.read_header id w).
Proof.
intros Hw [Hc Hl] Hwr Ho. apply update_tcp_ok; [done|]. intros c' t' Hc' _ Hwr'. assert (c' = c ∧ t' = t) as [-> ->] by (split; congruence).
eapply wire_ok_phase; [by apply (live_wire w id c)|by rewrite Hwr|done|done].
Qed.

Lemma begin_messages_ok w id c t :
world_ok w → live w id c → wire c = TcpWire t → opened c = false → tcp_phase t ≠ Handshaking →
world_ok (begin_messages id w).
Proof.
intros Hw Hlive Hwr Ho Hp. unfold begin_messages.
destruct (publish_open_ok w id c) as [Hok Hlv]; [done..| |].
{ rewrite Hwr. simpl. by apply bool_decide_eq_false. }
destruct (publish_open id w) as [[] w1]; simpl in *; [|done].
destruct (Hlv eq_refl) as (c' & Hl' & Ho' & Hwr' & _). rewrite Hwr in Hwr'.
by eapply tcp_read_header_ok.
Qed.

Lemma tcp_start_ok w id c t :
world_ok w → live w id c → wire c = TcpWire t → opened c = false → tcp_phase t = Idle →
world_ok (TcpConnection.start id w).
Proof.
intros Hw Hlive Hwr Ho Hp. pose proof Hlive as [Hc Hl].
unfold TcpConnection.start, with_tcp, with_connection. rewrite Hc, Hwr.
destruct (tcp_tls t).
- unfold begin_handshake_deadline, with_connection. rewrite Hc.
  destruct (arm_deadline_keeps w id (lc_handshake_timeout_ms (config c)) c Hlive)
    as (c1 & [Hc1 Hl1] & Ho1 & Hw1 & _).
  apply update_tcp_ok; [by apply arm_deadline_ok|].
  intros c' t' Hc' _ Hwr'. assert (c' = c1 ∧ t' = t) as [-> ->] by (split; congruence).
  eapply (wire_ok_phase _ _ _ (wire c1)).
  + apply (live_wire _ id c1); [by apply arm_deadline_ok|done].
  + by rewrite Hw1, Hwr.
  + intros _. congruence.
  + done.
- eapply begin_messages_ok; [done..|]. by rewrite Hp.
Qed.

Lemma tcp_handshake_done_ok w id error :
world_ok w → world_ok (TcpConnection.handshake_done id error w).
Proof.
intros Hw. unfold TcpConnection.handshake_done, with_tcp. on_connection id.
destruct (wire c) as [t|s|h|u] eqn:Hwr; try done. case_bool_decide as Hp; [|done].
destruct error as [e|]; [by apply fail_ok|].
assert (world_ok (update_tcp id (TcpConnection.set_phase Idle) w)) as Hok.
{ apply update_tcp_ok; [done|]. intros c' t' Hc' Hl' Hwr'. assert (c' = c ∧ t' = t) as [-> ->] by (split; congruence).
  eapply wire_ok_phase; [by apply (live_wire w id c)|by rewrite Hwr|done|done]. }
destruct (closed c) eqn:Hl.
- unfold begin_messages, publish_open.
  unfold update_tcp, with_tcp, with_connection in *. rewrite Hc, Hwr in *. simpl.
  rewrite lookup_insert_eq. simpl. by rewrite Hl.
- eapply begin_messages_ok; [done|by eapply update_tcp_live|done| |done]. simpl.
  destruct (live_wire w id c) as [Hb _ _]; [done|done|]. apply Hb. rewrite Hwr. simpl.
  by apply bool_decide_eq_true.
Qed.

Lemma header_done_ok w id r : world_ok w → world_ok (header_done id r w).
Proof.
intros Hw. unfold header_done, with_tcp. on_connection id.
destruct (wire c) as [t|s|h|u] eqn:Hwr; try done. case_bool_decide as Hp; [|done].
destruct r as [h|e]; [|by apply fail_ok]. destruct (closed c) eqn:Hl; [done|].
casematch; [by apply reject_ok|]. apply update_tcp_ok; [done|].
intros c' t' Hc' _ Hwr'. assert (c' = c ∧ t' = t) as [-> ->] by (split; congruence). pose proof (live_wire w id c) as Hx.
eapply wire_ok_phase; [by apply Hx|by rewrite Hwr|done|]. intros _.
destruct Hx as [_ Ha _]; [done|done|]. apply Ha. rewrite Hwr. simpl. by rewrite Hp.
Qed.

Lemma body_done_ok w id r : world_ok w → world_ok (body_done id r w).
Proof.
intros Hw. unfold body_done, with_tcp. on_connection id.
destruct (wire c) as [t|s|h|u] eqn:Hwr; try done.
destruct (tcp_phase t) as [| | |n| |] eqn:Hp; try done. destruct r as [d|e]; [|by apply fail_ok].
casematch; [done|]. destruct (closed c) eqn:Hl; [done|].
assert (opened c = true) as Ho.
{ destruct (live_wire w id c) as [_ Ha _]; [done|done|]. apply Ha. rewrite Hwr. simpl. by rewrite Hp. }
destruct (publish_message_ok w id c d) as [Hok Hlv]; [done..|].
destruct (publish_message id d w) as [[] w1]; simpl in *; [|done].
destruct (Hlv eq_refl) as (c' & Hl' & Ho' & Hwr'). rewrite Hwr in Hwr'.
by eapply tcp_read_header_ok.
Qed.

Lemma u64_cost n : 0 ≤ n < 2 ^ 63 → u64 (n + 16) = n + 16 ∧ u64 (n + 4) = n + 4.
Proof. intros. split; apply u64_small; unfold is_u64; lia. Qed.

(** Sizes of buffers in memory. *)
Definition in_memory (l : bytes) : Prop := zlen l < 2 ^ 63.

Lemma tcp_send_ok w id message :
world_ok w → in_memory message → world_ok (TcpConnection.send id message w).2.
Proof.
intros Hw Hm. unfold TcpConnection.send. destruct (objects w !! id) as [c|] eqn:Hc; [|done].
destruct (wire c) as [t|s|h|u] eqn:Hwr; try done.
destruct (closed c) eqn:Hl; [done|]. repeat (casematch; [done|]). simpl.
pose proof (zlen_nonneg message). destruct (u64_cost (zlen message)) as [_ Hu]; [done|].
rewrite Hu in *. rewrite <- TcpConnection.zlen_encode_frame in *.
apply set_wire_ok; [done|done|by rewrite Hwr|].
eapply wire_ok_phase; [by apply (live_wire w id c)|..]; rewrite ?Hwr; simpl.
- intros Hq. apply enqueue_ok; [apply frame_cost_nonneg|apply Hw|done|done].
- destruct (live_wire w id c) as [Hb _ _]; [done|done|]. rewrite Hwr in Hb. apply Hb.
- destruct (live_wire w id c) as [_ Ha _]; [done|done|]. rewrite Hwr in Ha. apply Ha.
Qed.

(** A closed object stays closed and only its wire may change. *)
Definition dead (w : LoggedWorld) (id : Z) : Prop :=
∀ c, objects w !! id = Some c → closed c = true.

Lemma close_dead_after w id : world_ok w → dead (close id w) id.
Proof.
intros Hw. destruct (objects w !! id) as [c|] eqn:Hc.
- destruct (closed c) eqn:Hl.
  + rewrite (close_dead w id c) by done. intros c'. congruence.
  + rewrite (close_live w id c) by done. intros c'. simpl. rewrite lookup_insert_eq.
    by intros [= <-].
- rewrite close_none by done. intros c'. congruence.
Qed.

Lemma fail_dead w id e op : world_ok w → dead (fail id e op w) id.
Proof.
intros Hw. unfold fail, with_connection. destruct (objects w !! id) as [c|] eqn:Hc.
- destruct (closed c) eqn:Hl; [intros c'; congruence|].
  apply close_dead_after. destruct e; [done|done|by apply report_ok].
- intros c'. congruence.
Qed.

Lemma update_tcp_dead_ok w id f : world_ok w → dead w id → world_ok (update_tcp id f w).
Proof. intros Hw Hd. apply update_tcp_ok; [done|]. intros c t Hc Hl. rewrite (Hd c Hc) in Hl. done. Qed.

Lemma frame_done_ok w id error : world_ok w → world_ok (frame_done id error w).
Proof.
intros Hw. unfold frame_done, with_tcp. on_connection id.
destruct (wire c) as [t|s|h|u] eqn:Hwr; try done.
destruct (writing (tcp_queue t)) eqn:Hwt; [|done].
destruct error as [e|]; [by apply update_tcp_dead_ok; [apply fail_ok|apply fail_dead]|].
destruct (closed c) eqn:Hl.
{ apply update_tcp_dead_ok; [done|]. intros c'. congruence. }
apply arm_deadline_ok, update_tcp_ok; [done|].
intros c' t' Hc' _ Hwr'. assert (c' = c ∧ t' = t) as [-> ->] by (split; congruence).
destruct (live_wire w id c) as [Hb Ha Hq]; [done|done|].
rewrite Hwr in *. split; [exact Hb|exact Ha|]. simpl in *.
apply write_done_ok; [apply frame_cost_nonneg|apply Hw|done].
Qed.

(** * WebSocket handlers *)

Lemma update_ws_ok w id f :
world_ok w →
(∀ c s, objects w !! id = Some c → closed c = false → wire c = WsWire s →
   wire_ok (max_send_queue_bytes (limits (context w))) (held K (context w) id)
     (opened c) (WsWire (f s))) →
world_ok (update_ws id f w).
Proof.
intros Hw Hf. unfold update_ws, with_ws. on_connection id.
destruct (wire c) as [t|s|h|u] eqn:Hwr; try done.
apply (put_ok w id c); try done; [by split; simpl; rewrite ?Hwr|]. intros. by apply Hf.
Qed.

Lemma update_ws_live w id f c s :
live w id c → wire c = WsWire s →
live (update_ws id f w) id (with_wire (WsWire (f s)) c).
Proof.
intros [Hc Hl] Hwr. unfold update_ws, with_ws, with_connection. rewrite Hc, Hwr.
split; [apply lookup_insert_eq|done].
Qed.

(** Moving to a phase on the same side of the announcement. *)
Lemma ws_phase_ok w id c s p :
world_ok w → live w id c → wire c = WsWire s →
(before_open (WsWire (WebSocketConnection.set_phase p s)) = true → opened c = false) →
(after_open (WsWire (WebSocketConnection.set_phase p s)) = true → opened c = true) →
world_ok (update_ws id (WebSocketConnection.set_phase p) w).
Proof.
intros Hw [Hc Hl] Hwr Hb Ha. apply update_ws_ok; [done|]. intros c' s' Hc' _ Hwr'.
assert (c' = c ∧ s' = s) as [-> ->] by (split; congruence).
eapply wire_ok_phase; [by apply (live_wire w id c)|by rewrite Hwr|done|done].
Qed.

Lemma ws_not_open w id c s :
world_ok w → live w id c → wire c = WsWire s →
before_open (WsWire s) = true → opened c = false.
Proof. intros Hw Hl Hwr Hb. destruct (live_wire w id c Hw Hl) as [H _ _]. apply H. by rewrite Hwr. Qed.

Lemma ws_start_ok w id c s :
world_ok w → live w id c → wire c = WsWire s → opened c = false →
world_ok (WebSocketConnection.start id w).
Proof.
intros Hw Hlive Hwr Ho. pose proof Hlive as [Hc Hl].
unfold WebSocketConnection.start, with_ws, with_connection. rewrite Hc, Hwr.
unfold begin_handshake_deadline, with_connection. rewrite Hc.
destruct (arm_deadline_keeps w id (lc_handshake_timeout_ms (config c)) c Hlive)
  as (c1 & Hl1 & Ho1 & Hw1 & _). rewrite Hwr in Hw1.
destruct (ws_tls s); unfold read_upgrade_request;
  (eapply ws_phase_ok; [by apply arm_deadline_ok|done|done|intros _; congruence|done]).
Qed.

Lemma ws_handshake_done_ok w id error :
world_ok w → world_ok (WebSocketConnection.handshake_done id error w).
Proof.
intros Hw. unfold WebSocketConnection.handshake_done, with_ws. on_connection id.
destruct (wire c) as [t|s|h|u] eqn:Hwr; try done. case_bool_decide as Hp; [|done].
destruct error as [e|]; [by apply fail_ok|]. destruct (closed c) eqn:Hl.
- apply update_ws_ok; [done|]. intros. congruence.
- eapply ws_phase_ok; [done|done|done| |done]. intros _.
  eapply ws_not_open; [done|done|done|]. simpl. by rewrite Hp.
Qed.

Lemma upgrade_request_done_ok w id r : world_ok w → world_ok (upgrade_request_done id r w).
Proof.
intros Hw. unfold upgrade_request_done, with_ws. on_connection id.
destruct (wire c) as [t|s|h|u] eqn:Hwr; try done. case_bool_decide as Hp; [|done].
destruct r as [q|e]; [|by apply fail_ok]. destruct (closed c) eqn:Hl; [done|].
repeat (casematch; [by apply reject_ok|]).
eapply ws_phase_ok; [done|done|done| |done]. intros _.
eapply ws_not_open; [done|done|done|]. simpl. by rewrite Hp.
Qed.

Lemma read_message_ok w id c s :
world_ok w → live w id c → wire c = WsWire s → opened c = true → world_ok (read_message id w).
Proof. intros Hw Hl Hwr Ho. by eapply ws_phase_ok. Qed.

Lemma upgrade_done_ok w id error : world_ok w → world_ok (upgrade_done id error w).
Proof.
intros Hw. unfold upgrade_done, with_ws. on_connection id.
destruct (wire c) as [t|s|h|u] eqn:Hwr; try done. case_bool_decide as Hp; [|done].
destruct error as [e|]; [by apply fail_ok|]. destruct (closed c) eqn:Hl.
- unfold update_ws, with_ws, with_connection, publish_open. rewrite Hc, Hwr. simpl.
  rewrite lookup_insert_eq. simpl. rewrite Hl. apply (set_dead_ok w id c); try done.
  by rewrite Hwr.
- assert (opened c = false) as Ho.
  { eapply ws_not_open; [done|done|done|]. simpl. by rewrite Hp. }
  assert (world_ok (update_ws id (WebSocketConnection.set_phase Idle) w)) as Hok
    by by eapply ws_phase_ok.
  pose proof (update_ws_live w id (WebSocketConnection.set_phase Idle) c s ltac:(done) Hwr) as Hlive.
  destruct (publish_open_ok _ id _ Hok Hlive Ho eq_refl) as [Hok1 Hlv].
  destruct (publish_open id _) as [[] w1]; simpl in *; [|done].
  destruct (Hlv eq_refl) as (c' & Hl' & Ho' & Hwr' & _). by eapply read_message_ok.
Qed.

Lemma message_done_ok w id r : world_ok w → world_ok (message_done id r w).
Proof.
intros Hw. unfold message_done, with_ws. on_connection id.
destruct (wire c) as [t|s|h|u] eqn:Hwr; try done. case_bool_decide as Hp; [|done].
destruct r as [|e|text d]; [by apply close_ok|by apply fail_ok|].
destruct (closed c) eqn:Hl; [done|]. destruct text; [by apply reject_ok|].
assert (opened c = true) as Ho.
{ destruct (live_wire w id c) as [_ Ha _]; [done|done|]. apply Ha. rewrite Hwr. simpl.
  by apply bool_decide_eq_true. }
destruct (publish_message_ok w id c d) as [Hok Hlv]; [done..|].
destruct (publish_message id d w) as [[] w1]; simpl in *; [|done].
destruct (Hlv eq_refl) as (c' & Hl' & Ho' & Hwr'). rewrite Hwr in Hwr'. by eapply read_message_ok.
Qed.

Lemma ws_send_ok w id message :
world_ok w → in_memory message → world_ok (WebSocketConnection.send id message w).2.
Proof.
intros Hw Hm. unfold WebSocketConnection.send. destruct (objects w !! id) as [c|] eqn:Hc; [|done].
destruct (wire c) as [t|s|h|u] eqn:Hwr; try done.
destruct (closed c) eqn:Hl; [done|]. repeat (casematch; [done|]). simpl.
pose proof (zlen_nonneg message).
assert (u64 (payload_cost message) = payload_cost message) as Hu by (by apply u64_cost).
rewrite Hu in *. destruct (live_wire w id c) as [Hb Ha Hq]; [done|done|]. rewrite Hwr in *.
apply set_wire_ok; [done|done|by rewrite Hwr|]. split; [exact Hb|exact Ha|]. simpl in *.
apply enqueue_ok; [apply payload_cost_nonneg|apply Hw|done|done].
Qed.

Lemma update_ws_dead_ok w id f : world_ok w → dead w id → world_ok (update_ws id f w).
Proof. intros Hw Hd. apply update_ws_ok; [done|]. intros c s Hc Hl. rewrite (Hd c Hc) in Hl. done. Qed.

Lemma payload_done_ok w id error : world_ok w → world_ok (payload_done id error w).
Proof.
intros Hw. unfold payload_done, with_ws. on_connection id.
destruct (wire c) as [t|s|h|u] eqn:Hwr; try done.
destruct (writing (ws_queue s)) eqn:Hwt; [|done].
destruct error as [e|]; [by apply update_ws_dead_ok; [apply fail_ok|apply fail_dead]|].
destruct (closed c) eqn:Hl.
{ apply update_ws_dead_ok; [done|]. intros c'. congruence. }
apply arm_deadline_ok, update_ws_ok; [done|].
intros c' s' Hc' _ Hwr'. assert (c' = c ∧ s' = s) as [-> ->] by (split; congruence).
destruct (live_wire w id c) as [Hb Ha Hq]; [done|done|].
rewrite Hwr in *. split; [exact Hb|exact Ha|]. simpl in *.
apply write_done_ok; [apply payload_cost_nonneg|apply Hw|done].
Qed.

(** * HTTP handlers *)

Lemma update_http_ok w id f :
world_ok w →
(∀ c h, objects w !! id = Some c → closed c = false → wire c = HttpWire h →
   wire_ok (max_send_queue_bytes (limits (context w))) (held K (context w) id)
     (opened c) (HttpWire (f h))) →
world_ok (update_http id f w).
Proof.
intros Hw Hf. unfold update_http, with_http. on_connection id.
destruct (wire c) as [t|s|h|u] eqn:Hwr; try done.
apply (put_ok w id c); try done; [by split; simpl; rewrite ?Hwr|]. intros. by apply Hf.
Qed.

Lemma update_http_live w id f c h :
live w id c → wire c = HttpWire h →
live (update_http id f w) id (with_wire (HttpWire (f h)) c).
Proof.
intros [Hc Hl] Hwr. unfold update_http, with_http, with_connection. rewrite Hc, Hwr.
split; [apply lookup_insert_eq|done].
Qed.

Lemma http_phase_ok w id c h p :
world_ok w → live w id c → wire c = HttpWire h →
(p = Handshaking → opened c = false) →
(match p with ReadingHeader | ReadingMessage => opened c = true | _ => True end) →
world_ok (update_http id (HttpConnection.set_phase p) w).
Proof.
intros Hw [Hc Hl] Hwr Hb Ha. apply update_http_ok; [done|]. intros c' h' Hc' _ Hwr'.
assert (c' = c ∧ h' = h) as [-> ->] by (split; congruence).
destruct (live_wire w id c) as [Hb' Ha' Hq]; [done|done|]. rewrite Hwr in *.
split; [| |done]; simpl in *.
- intros Hp. bprop. auto.
- intros [Hp|Hp]%orb_true_iff; [by destruct p|]. apply Ha'. rewrite Hp. apply orb_true_r.
Qed.

(** Starting or ending a write changes nothing else. *)
Lemma set_writing_ok w id m :
world_ok w → (∀ c, live w id c → m ≠ None → opened c = true) →
world_ok (update_http id (set_writing m) w).
Proof.
intros Hw Ho. apply update_http_ok; [done|]. intros c h Hc Hl Hwr.
destruct (live_wire w id c) as [Hb Ha Hq]; [done|done|]. rewrite Hwr in *.
split; [done| |done]. simpl. intros [?|?]%orb_true_iff.
- apply Ha. simpl. apply orb_true_iff. by left.
- bprop. by apply (Ho c).
Qed.

Lemma arm_deadline_opened w id d c' :
live (arm_deadline id d w) id c' → ∃ c, live w id c ∧ opened c = opened c'.
Proof.
unfold arm_deadline, with_connection. destruct (objects w !! id) as [c|] eqn:Hc; [|eauto].
destruct (closed c) eqn:Hl; [eauto|]. intros [Hc' Hl']. simpl in Hc'.
rewrite lookup_insert_eq in Hc'. simplify_eq. exists c. by repeat split.
Qed.

Lemma update_http_opened w id f c' :
live (update_http id f w) id c' → ∃ c, live w id c ∧ opened c = opened c'.
Proof.
unfold update_http, with_http, with_connection. destruct (objects w !! id) as [c|] eqn:Hc; [|eauto].
destruct (wire c); [eauto|eauto| |eauto]. intros [Hc' Hl']. simpl in Hc'.
rewrite lookup_insert_eq in Hc'. simplify_eq. exists c. by repeat split.
Qed.

Lemma write_response_ok w id m c :
world_ok w → live w id c → opened c = true → world_ok (write_response id m w).
Proof.
intros Hw Hlive Ho. unfold write_response.
match goal with |- context [update_http id ?f w] => set (g := f) end.
assert (world_ok (update_http id g w)) as Hw1.
{ apply update_http_ok; [done|]. intros c' h Hc Hl Hwr.
  destruct (live_wire w id c') as [Hb Ha Hq]; [done|done|].
  split; [done| |by left]. simpl. intros Hm. apply Ha. rewrite Hwr. simpl.
  rewrite Hm. apply orb_true_r. }
apply set_writing_ok; [by apply arm_deadline_ok|]. intros c' Hc' _.
apply arm_deadline_opened in Hc' as (c1 & Hc1 & <-).
apply update_http_opened in Hc1 as (c2 & Hc2 & <-).
destruct Hlive, Hc2. congruence.
Qed.

Lemma reject_http_ok w id status c :
world_ok w → live w id c → opened c = true → world_ok (reject_http id status w).
Proof.
intros Hw Hl Ho. unfold reject_http. casematch; [by apply close_ok|by eapply write_response_ok].
Qed.

Lemma read_failed_ok w id e c :
world_ok w → live w id c → opened c = true → world_ok (read_failed id e w).
Proof. intros Hw Hl Ho. destruct e; simpl; eauto using close_ok, reject_http_ok. Qed.

Lemma read_request_ok w id c h :
world_ok w → live w id c → wire c = HttpWire h → opened c = true → world_ok (read_request id w).
Proof.
intros Hw Hlive Hwr Ho. pose proof Hlive as [Hc Hl].
unfold read_request, begin_handshake_deadline, with_connection. rewrite Hc.
destruct (arm_deadline_keeps w id (lc_handshake_timeout_ms (config c)) c Hlive)
  as (c1 & Hl1 & Ho1 & Hw1 & _). rewrite Hwr in Hw1.
eapply http_phase_ok; [by apply arm_deadline_ok|done|done|done|congruence].
Qed.

Lemma begin_requests_ok w id c h :
world_ok w → live w id c → wire c = HttpWire h → opened c = false → http_phase h ≠ Handshaking →
world_ok (begin_requests id w).
Proof.
intros Hw Hlive Hwr Ho Hp. unfold begin_requests.
destruct (publish_open_ok w id c) as [Hok Hlv]; [done..| |].
{ rewrite Hwr. simpl. by apply bool_decide_eq_false. }
destruct (publish_open id w) as [[] w1]; simpl in *; [|done].
destruct (Hlv eq_refl) as (c' & Hl' & Ho' & Hwr' & _). rewrite Hwr in Hwr'.
by eapply read_request_ok.
Qed.

Lemma http_start_ok w id c h :
world_ok w → live w id c → wire c = HttpWire h → opened c = false → http_phase h = Idle →
world_ok (HttpConnection.start id w).
Proof.
intros Hw Hlive Hwr Ho Hp. pose proof Hlive as [Hc Hl].
unfold HttpConnection.start, with_http, with_connection. rewrite Hc, Hwr.
destruct (http_tls h); [|eapply begin_requests_ok; [done..|]; by rewrite Hp].
unfold begin_handshake_deadline, with_connection. rewrite Hc.
destruct (arm_deadline_keeps w id (lc_handshake_timeout_ms (config c)) c Hlive)
  as (c1 & Hl1 & Ho1 & Hw1 & _). rewrite Hwr in Hw1.
eapply http_phase_ok; [by apply arm_deadline_ok|done|done|intros _; congruence|done].
Qed.

Lemma http_handshake_done_ok w id error :
world_ok w → world_ok (HttpConnection.handshake_done id error w).
Proof.
intros Hw. unfold HttpConnection.handshake_done, with_http. on_connection id.
destruct (wire c) as [t|s|h|u] eqn:Hwr; try done. case_bool_decide as Hp; [|done].
destruct error as [e|]; [by apply fail_ok|]. destruct (closed c) eqn:Hl.
- unfold update_http, with_http, with_connection, begin_requests, publish_open. rewrite Hc, Hwr.
  simpl. rewrite lookup_insert_eq. simpl. rewrite Hl. apply (set_dead_ok w id c); try done.
  by rewrite Hwr.
- assert (opened c = false) as Ho.
  { destruct (live_wire w id c) as [Hb _ _]; [done|done|]. apply Hb. rewrite Hwr. simpl.
    by apply bool_decide_eq_true. }
  eapply begin_requests_ok; [by eapply http_phase_ok|by eapply update_http_live|done|done|done].
Qed.

(** An accepted request head is within the codec's limits. *)
Lemma validated_target iequals request :
validate_request_header iequals request = None →
0 < zlen (req_method request) ≤ 32 ∧ 0 < zlen (req_target request) ≤ 2048.
Proof.
unfold validate_request_header. repeat (casematch; try done). intros _. bprop.
assert (0 < zlen (req_method request)).
{ destruct (req_method request); [done|]. rewrite zlen_cons. pose proof (zlen_nonneg l). lia. }
assert (0 < zlen (req_target request)); [|lia].
destruct (req_target request) as [|b l] eqn:Ht; [|rewrite zlen_cons; pose proof (zlen_nonneg l); lia].
exfalso. by destruct B1; bprop.
Qed.

Lemma collect_headers_limit fields acc out :
zlen acc ≤ http_header_limit → collect_headers fields acc = Some out → zlen out ≤ http_header_limit.
Proof.
revert acc. induction fields as [|f fields IH]; intros acc Ha; simpl; [by intros [= <-]|].
casematch; [done|]. apply IH. bprop.
unfold http_header_limit in *. rewrite !zlen_app. unfold txt. simpl. zlens.
Qed.

(** What [dispatch_request] publishes decodes. *)
Lemma dispatched_decodes iequals request headers rid payload :
validate_request_header iequals request = None →
collect_headers (req_fields request) [] = Some headers →
0 < rid < 2 ^ 64 →
http_envelope_bytes + zlen (req_method request) + zlen (req_target request) + zlen headers
  + zlen (req_body request) < 2 ^ 64 →
encode_http_request rid (req_method request) (req_target request) headers (req_body request) = Ok payload →
is_Some (decode_http_request (Some payload)).
Proof.
intros Hv Hh Hid Hsize He. destruct (validated_target _ _ Hv) as [Hm Ht].
assert (zlen headers ≤ http_header_limit) as Hl.
{ eapply (collect_headers_limit _ []); [|done]. rewrite zlen_nil. done. }
pose proof (zlen_nonneg headers). pose proof (zlen_nonneg (req_body request)).
destruct (encode_decode rid (req_method request) (req_target request) headers (req_body request))
  as (l & v & Hl' & Hd & _).
- unfold encodable, http_envelope_bytes in *. split_and!; try lia.
  unfold encode_http_request in He. rewrite u64_small in He by (unfold is_u64, http_envelope_bytes; lia).
  casehyp; [done|]. bprop. unfold http_envelope_bytes in *. lia.
- rewrite He in Hl'. simplify_eq. by rewrite Hd.
Qed.

(** Allocating a request identifier: a fresh one, or zero. *)
Lemma allocate_http_ok w :
world_ok w → world_ok (on_context (λ _, (allocate_http_request_id (context w)).2) w) ∧
((allocate_http_request_id (context w)).1 = 0 ∨
 ∀ id, held K (allocate_http_request_id (context w)).2 id (allocate_http_request_id (context w)).1).
Proof.
intros Hw. pose proof (wo_request _ Hw) as [Hn0 Hn1]. unfold allocate_http_request_id.
destruct (next_http_request_id (context w) =? 0) eqn:E; bprop; simpl.
{ split; [|by left]. by destruct w. }
assert (∀ id, (id, next_http_request_id (context w)) ∉ st_answered K) as Hfresh.
{ intros id Hin. pose proof (wo_answered _ Hw _ _ Hin) as [_ ?]. lia. }
destruct (decide (next_http_request_id (context w) + 1 = 2 ^ 64)) as [Hov|Hov].
- rewrite Hov. split.
  + apply context_ok; try apply Hw; try done. simpl. intros id [? ?]. split; [done|by left].
  + right. intros id. split; [|done]. split; [lia|by left].
- rewrite u64_small by (unfold is_u64; lia). split.
  + apply context_ok; try apply Hw; try done; simpl; [split; lia|].
    intros id [? ?]. split; [done|]. right. lia.
  + right. intros id. split; [|done]. split; simpl; lia.
Qed.

Lemma dispatch_request_ok iequals w id c h request :
world_ok w → live w id c → wire c = HttpWire h → opened c = true →
world_ok (dispatch_request iequals id request w).
Proof.
intros Hw [Hc Hl] Hwr Ho. unfold dispatch_request.
assert (live w id c) as Hlive0 by done.
casematch; [by eapply reject_http_ok|]. casematch; [|by eapply reject_http_ok].
casematch; [by eapply reject_http_ok|].
destruct (allocate_http_ok w Hw) as [Hw1 Hid].
destruct (allocate_http_request_id (context w)) as [rid ctx] eqn:Ha. simpl in Hw1, Hid.
casematch; [by apply reject_ok|]. bprop. destruct Hid as [|Hid]; [done|].
set (w1 := on_context (λ _, ctx) w) in *.
destruct (encode_http_request _ _ _ _ _) as [payload|] eqn:Henc; [|by apply report_ok, close_ok].
match goal with |- context [update_http id ?f w1] => set (g := f) end.
assert (live w1 id c) as Hlive1 by done.
assert (world_ok (update_http id g w1)) as Hw2.
{ apply update_http_ok; [done|]. intros c' h' Hc' _ Hwr'. simpl in Hc'.
  assert (c' = c) as -> by congruence. split; [done|done|]. right. apply Hid. }
pose proof (update_http_live w1 id g c h Hlive1 Hwr) as Hlive2.
destruct Hlive2 as [Hc2 Hl2]. rewrite Hc2.
destruct (ask_http _ id _ payload Hw2 (conj Hc2 Hl2)) as [r ->].
assert (∀ p b, log_ok [EHttp p payload b]) as Hlog.
{ intros p b q d b' Hin. apply list_elem_of_singleton in Hin. simplify_eq.
  pose proof (wo_message _ Hw) as [_ ?]. destruct (Hid id) as [[? _] _].
  eapply dispatched_decodes; [done..|lia|done]. }
destruct r.
- apply arm_deadline_ok, (delivered_ok _ id (with_wire (HttpWire (g h)) c)); done.
- apply (refused_ok _ id (with_wire (HttpWire (g h)) c)); done.
Qed.

Lemma http_announced w id c h :
world_ok w → live w id c → wire c = HttpWire h → after_open (HttpWire h) = true → opened c = true.
Proof. intros Hw Hl Hwr Ha. destruct (live_wire w id c Hw Hl) as [_ H _]. apply H. by rewrite Hwr. Qed.

Lemma request_header_done_ok iequals w id r :
world_ok w → world_ok (request_header_done iequals id r w).
Proof.
intros Hw. unfold request_header_done, with_http. on_connection id.
destruct (wire c) as [t|s|h|u] eqn:Hwr; try done. case_bool_decide as Hp; [|done].
destruct (closed c) eqn:Hl; [done|].
assert (opened c = true) as Ho.
{ eapply http_announced; [done|done|done|]. simpl. by rewrite Hp. }
destruct r as [[q d]|e]; [|by eapply read_failed_ok].
casematch; [by eapply reject_http_ok|].
destruct d; [by eapply dispatch_request_ok|by eapply http_phase_ok].
Qed.

Lemma request_body_done_ok iequals w id r :
world_ok w → world_ok (request_body_done iequals id r w).
Proof.
intros Hw. unfold request_body_done, with_http. on_connection id.
destruct (wire c) as [t|s|h|u] eqn:Hwr; try done. case_bool_decide as Hp; [|done].
destruct (closed c) eqn:Hl; [done|].
assert (opened c = true) as Ho.
{ eapply http_announced; [done|done|done|]. simpl. by rewrite Hp. }
destruct r as [q|e]; [by eapply dispatch_request_ok|by eapply read_failed_ok].
Qed.

Lemma respond_http_ok iequals w id rid response :
world_ok w → world_ok (HttpConnection.respond_http iequals id rid response w).2.
Proof.
intros Hw. unfold HttpConnection.respond_http.
destruct (objects w !! id) as [c|] eqn:Hc; [|done]. destruct (wire c) as [t|s|h|u] eqn:Hwr; try done.
casematch; [done|]. bprop. repeat (casematch; try done).
all: eapply write_response_ok; [done|by split|done].
Qed.

Lemma response_done_ok w id error : world_ok w → world_ok (response_done id error w).
Proof.
intros Hw. unfold response_done, with_http. on_connection id.
destruct (wire c) as [t|s|h|u] eqn:Hwr; try done.
destruct (http_writing h) as [m|] eqn:Hm; [|done].
assert (world_ok (update_http id (set_writing None) w)) as Hw1 by (by apply set_writing_ok).
destruct (closed c) eqn:Hl; [done|]. destruct error as [e|]; [by apply fail_ok|].
casematch; [by apply close_ok|].
pose proof (update_http_live w id (set_writing None) c h ltac:(done) Hwr) as Hlive.
eapply read_request_ok; [done|done|done|].
eapply (http_announced w id c h); [done|done|done|]. simpl.
rewrite Hm. apply orb_true_r.
Qed.
End Steps.
