(* ===== verification/TransportSafety.v ===== *)
(** TransportSafety: datagram and admission handlers preserve the invariant, the
    closing loops terminate with nothing left, and the properties of whole
    histories of the service. *)
From S2P Require Import Prelude.
From S2P Require Import Text.
From S2P Require Import NetTypes.
From S2P Require Import HttpCodec.
From S2P Require Import WorkerContext.
From S2P Require Import World.
From S2P Require Import ConnectionState.
From S2P Require Import SendQueue.
From S2P Require Import TcpConnection.
From S2P Require Import WebSocketConnection.
From S2P Require Import HttpConnection.
From S2P Require Import Udp.
From S2P Require Import TransportService.
From S2P Require Import TransportInvariant.
From S2P Require Import TransportSteps.

Section Handlers.
Context {K : Static}.
#[local] Abbreviation world_ok := (@world_inv K).

(** * Listeners *)

Lemma listener_observed w lid l :
world_ok w → listeners w !! lid = Some l → ∃ a, callbacks (context w) = observing a.
Proof.
intros Hw Hl. destruct (wo_callbacks _ Hw) as [|(_ & He & _)]; [done|].
by rewrite He, lookup_empty in Hl.
Qed.

(** Replacing a listener keeps the invariant when its routes are good. *)
Lemma put_listener_ok w lid l0 l :
world_ok w → listeners w !! lid = Some l0 →
(∀ u, l = AUdpListener u → lc_id (ul_config u) = lid ∧
   ∀ ep id, ul_peers u !! ep = Some id → route_ok w lid ep id) →
world_ok (put_listener lid l w).
Proof.
intros Hw Hl0 Hl. destruct (listener_observed _ _ _ Hw Hl0) as [a Ha].
split; simpl; try apply Hw.
- left. eauto.
- intros k u Hk. rewrite lookup_insert in Hk. case_decide; [|by apply (wo_listener _ Hw)].
  simplify_eq. by apply Hl.
- intros k u ep id Hk Hep. rewrite lookup_insert in Hk. case_decide as Hd.
  + simplify_eq. by apply (Hl u).
  + by apply (wo_route _ Hw k u).
Qed.

(** Changing only the flags of a listener. *)
Lemma udp_flags_ok w lid l l' :
world_ok w → listeners w !! lid = Some (AUdpListener l) →
ul_config l' = ul_config l → ul_peers l' = ul_peers l →
world_ok (put_listener lid (AUdpListener l') w).
Proof.
intros Hw Hl Hc Hp. eapply put_listener_ok; [done..|]. intros u [= <-]. rewrite Hc, Hp. split.
- by apply (wo_listener _ Hw).
- intros ep id. by apply (wo_route _ Hw lid l).
Qed.

Lemma tcp_flags_ok w lid l l' :
world_ok w → listeners w !! lid = Some (ATcpListener l) →
world_ok (put_listener lid (ATcpListener l') w).
Proof. intros Hw Hl. by eapply put_listener_ok. Qed.

Lemma receive_next_ok w lid : world_ok w → world_ok (receive_next lid w).
Proof.
intros Hw. unfold receive_next, with_listener. repeat (casematch; try done).
by eapply udp_flags_ok.
Qed.

Lemma schedule_expiry_ok w lid : world_ok w → world_ok (schedule_expiry lid w).
Proof.
intros Hw. unfold schedule_expiry, with_listener. repeat (casematch; try done).
all: by eapply udp_flags_ok.
Qed.

Lemma start_udp_ok w lid : world_ok w → world_ok (start_udp lid w).
Proof.
intros Hw. unfold start_udp, with_listener. repeat (casematch; try done).
apply schedule_expiry_ok, receive_next_ok. by eapply udp_flags_ok.
Qed.

Lemma close_peers_ok fuel w lid : world_ok w → world_ok (close_peers fuel lid w).
Proof.
revert w. induction fuel as [|fuel IH]; [done|]. intros w Hw. simpl. unfold with_listener.
repeat (casematch; try done). by apply IH, close_ok.
Qed.

Lemma close_udp_ok w lid : world_ok w → world_ok (close_udp lid w).
Proof.
intros Hw. unfold close_udp, with_listener. repeat (casematch; try done).
apply close_peers_ok. by eapply udp_flags_ok.
Qed.

Lemma close_tcp_ok w lid : world_ok w → world_ok (close_tcp lid w).
Proof.
intros Hw. unfold close_tcp, with_tcp_listener. repeat (casematch; try done).
by eapply tcp_flags_ok.
Qed.

Lemma accept_next_ok w lid : world_ok w → world_ok (accept_next lid w).
Proof.
intros Hw. unfold accept_next, with_tcp_listener. repeat (casematch; try done).
by eapply tcp_flags_ok.
Qed.

(** * Datagram peers *)

Lemma put_udp_ok w id c u u' :
world_ok w → objects w !! id = Some c → wire c = UdpWire u →
(closed c = false → queue_ok Udp.queue_cost (max_send_queue_bytes (limits (context w))) (udp_queue u')) →
world_ok (put_udp id c u' w).
Proof.
intros Hw Hc Hwr Hq. unfold put_udp. apply (put_ok w id c); try done.
- by split; simpl; rewrite ?Hwr.
- intros Hl. by split; [| |apply Hq].
Qed.

Lemma udp_live_queue w id c u :
world_ok w → live w id c → wire c = UdpWire u →
queue_ok Udp.queue_cost (max_send_queue_bytes (limits (context w))) (udp_queue u).
Proof. intros Hw Hl Hwr. destruct (live_wire _ _ _ Hw Hl) as [_ _ Ho]. by rewrite Hwr in Ho. Qed.

(** The queue of a peer between a completion or a push and the next send. *)
Definition queue_ready (max : Z) (q : SendQueue) : Prop :=
queue_ok Udp.queue_cost max (write_next q).

(** Closing a live object ignores what its wire was just set to. *)
Lemma close_rewire_ok w id c wr :
world_ok w → live w id c → is_udp wr = is_udp (wire c) →
world_ok (close id (put id (with_wire wr c) w)).
Proof.
intros Hw [Hc Hl] Hu. pose proof (close_live w id c Hw Hc Hl) as Hcl.
assert (close id (put id (with_wire wr c) w) =
  put id (with_closed (with_wire wr c) (close_wire wr)) (close id w)) as ->.
{ rewrite Hcl. pose proof (live_registered _ _ _ Hw Hc Hl) as Hr.
  destruct (live_observed _ _ _ Hw Hc Hl) as [a Ha].
  pose proof (ck_id _ _ _ (wo_conn _ Hw _ _ Hc)) as Hid.
  unfold close, with_connection, routes_after, on_context, remove_connection, forget_peer, put,
    put_listener, with_host, with_closed, with_wire, endpoint_of.
  destruct w as [ctx os ls], ctx as [lim cb h st cs n1 n2]; simpl in *.
  rewrite !lookup_insert_eq, !insert_insert_eq. simpl. rewrite Hl, Hu.
  repeat (casematch; simpl in *); simplify_eq/=; rewrite ?Hid in *; simplify_eq/=;
    rewrite ?app_nil_r, ?insert_insert_eq; try done; bprop; try done. }
eapply put_ok.
- by apply close_ok.
- rewrite Hcl. simpl. apply lookup_insert_eq.
- split; simpl; try done. destruct (wire c), wr; simpl in *; congruence.
- done.
Qed.

Lemma send_next_ok w id c u q :
world_ok w → live w id c → wire c = UdpWire u → writing q = None →
queue_ready (max_send_queue_bytes (limits (context w))) q →
world_ok (send_next id (put_udp id c (Udp.set_queue q u) w)).
Proof.
intros Hw Hlive Hwr Hn Hq. pose proof Hlive as [Hc Hl].
assert (∀ P : Prop, (outgoing q = [] → world_ok (put_udp id c (Udp.set_queue q u) w) → P) →
  (outgoing q = [] → P)) as Hempty.
{ intros P HP He. apply HP; [done|]. apply (put_udp_ok w id c u); [done..|]. intros _. simpl.
  unfold queue_ready, write_next in Hq. rewrite He in Hq. simpl in Hq.
  destruct q; simpl in *; by subst. }
unfold send_next, with_udp, with_connection. simpl. rewrite lookup_insert_eq. simpl. rewrite Hl. simpl.
case_bool_decide as He; [by apply Hempty|].
assert (world_ok (close id (put_udp id c (Udp.set_queue q u) w))) as Hclose.
{ by apply close_rewire_ok; [..|rewrite Hwr]. }
destruct (listeners w !! listener_id (peer c)) as [[l|l]|] eqn:El; [done| |done].
unfold send_datagram, with_listener. simpl. rewrite El.
casematch; [done|]. unfold with_udp, with_connection. simpl. rewrite lookup_insert_eq. simpl.
unfold put_udp, put. simpl. rewrite insert_insert_eq.
change (mkWorld (context w) (<[id:=_]> (objects w)) (listeners w))
  with (put_udp id c (Udp.set_queue (write_next q) u) w).
by apply (put_udp_ok w id c u).
Qed.

Lemma udp_send_ok w id message :
world_ok w → in_memory message → world_ok (Udp.send id message w).2.
Proof.
intros Hw Hm. unfold Udp.send. destruct (objects w !! id) as [c|] eqn:Hc; [|done].
destruct (wire c) as [t|s|h|u] eqn:Hwr; try done.
destruct (closed c) eqn:Hl; [done|]. repeat (casematch; [done|]). simpl.
pose proof (udp_live_queue w id c u Hw ltac:(done) Hwr) as Hq.
pose proof (enqueue_ok Udp.queue_cost queue_cost_nonneg _ message _ (wo_max _ Hw) Hq) as Henq.
unfold enqueue in Henq. case_bool_decide as He.
- apply send_next_ok; [done..| |by apply Henq]. simpl.
  rewrite (qo_writing _ _ _ Hq), He. done.
- apply (put_udp_ok w id c u); [done..|]. intros _. by apply Henq.
Qed.

Lemma start_peer_ok w id c u :
world_ok w → live w id c → wire c = UdpWire u → opened c = false → world_ok (start_peer id w).
Proof.
intros Hw Hlive Hwr Ho. pose proof Hlive as [Hc Hl].
destruct (publish_open_ok (K:=K) w id c) as [Hok _]; [done..|by rewrite Hwr|].
unfold start_peer, with_connection. unfold publish_open in Hok. rewrite Hc, Hl, Ho in *. simpl.
destruct (asking (notify_open (peer c)) w) as [[] w1] eqn:Ha; simpl in *; [|done].
assert (objects w1 !! id = Some c) as Hc1.
{ unfold asking in Ha. destruct (notify_open _ _). by simplify_eq/=. }
unfold with_connection in *. rewrite Hc1 in *.
unfold touch_idle_deadline in Hok. rewrite (arm_deadline_live _ _ _ (with_opened c)) in Hok
  by (split; [apply lookup_insert_eq|done]).
unfold put in *. simpl in *. rewrite insert_insert_eq in Hok.
eapply (put_ok _ id) with (c' := with_opened c) in Hok; simpl.
- unfold put in Hok. simpl in Hok. by rewrite insert_insert_eq in Hok.
- apply lookup_insert_eq.
- done.
- intros _. simpl in Hok.
  match type of Hok with world_ok ?w2 =>
    destruct (wo_conn _ Hok id (mkConnection (peer c) (config c) (closed c) true
      (u64 (deadline_generation c + 1)) (idle_timeout_ms (limits (context w1))) (wire c)))
      as [_ _ Hwire _]; [simpl; apply lookup_insert_eq|] end.
  by apply Hwire.
Qed.

Lemma receive_ok w id now d : world_ok w → world_ok (receive id now d w).
Proof.
intros Hw. unfold receive, with_udp. on_connection id.
destruct (wire c) as [t|s|h|u] eqn:Hwr; try done. casematch; [done|]. bprop.
pose proof (udp_live_queue w id c u Hw ltac:(done) Hwr) as Hq.
assert (world_ok (put_udp id c (mkUdp now (udp_queue u)) w)) as Hw1 by (by eapply put_udp_ok).
assert (live (put_udp id c (mkUdp now (udp_queue u)) w) id
  (with_wire (UdpWire (mkUdp now (udp_queue u))) c)) as Hl1 by (split; [apply lookup_insert_eq|done]).
destruct (ask_message _ _ _ d Hw1 Hl1) as [r Hr]. simpl peer in Hr. rewrite Hr.
destruct r; [eapply (delivered_ok _ _ _ Hw1 Hl1)|eapply (refused_ok _ _ _ Hw1 Hl1)];
  try done; by apply log_ok_other.
Qed.

Lemma drop_send_ok w id : world_ok w → dead w id → world_ok (drop_send id w).
Proof.
intros Hw Hd. unfold drop_send, with_udp. on_connection id.
destruct (wire c) as [t|s|h|u] eqn:Hwr; try done. eapply put_udp_ok; [done..|].
by rewrite (Hd c Hc).
Qed.

Lemma complete_send_ok w id error sent : world_ok w → world_ok (complete_send id error sent w).
Proof.
intros Hw. unfold complete_send, with_udp. on_connection id.
destruct (wire c) as [t|s|h|u] eqn:Hwr; try done.
destruct (writing (udp_queue u)) as [front|] eqn:Hwt; [|done].
destruct (closed c) eqn:Hl; [apply drop_send_ok; [done|]; intros c'; congruence|].
destruct error; [by apply drop_send_ok; [apply close_ok, report_ok|apply (close_dead_after (K:=K)), report_ok]|].
casematch; [by apply drop_send_ok; [apply close_ok, report_ok|apply (close_dead_after (K:=K)), report_ok]|].
pose proof (udp_live_queue w id c u Hw ltac:(done) Hwr) as Hq.
pose proof (write_done_ok Udp.queue_cost queue_cost_nonneg _ _ (wo_max _ Hw) Hq) as Hd.
apply send_next_ok; [done|done|done|done|]. unfold write_done in Hd. rewrite Hwt in Hd.
unfold queue_ready, write_next. simpl in *. case_bool_decide as He; [by rewrite He in *|done].
Qed.

(** * Admission *)

Lemma allocate_session_ok w :
world_ok w →
world_ok (on_context (λ _, (allocate_session_id (context w)).2) w) ∧
((allocate_session_id (context w)).1 ≠ 0 →
   objects w !! (allocate_session_id (context w)).1 = None ∧
   issued (next_session_id (allocate_session_id (context w)).2)
     (allocate_session_id (context w)).1).
Proof.
intros Hw. destruct (allocate_session_id (context w)) as [id ctx] eqn:Ha. simpl.
destruct (decide (id = 0)) as [->|Hne].
- assert (ctx = context w) as -> by (unfold allocate_session_id in Ha; repeat casehyp; simplify_eq; bprop; done).
  split; [by destruct w|done].
- destruct (allocate_session_fresh _ _ _ (wo_next _ Hw) Ha Hne) as (Hold & Hnew & Hn & Hall).
  unfold allocate_session_id in Ha. repeat casehyp; simplify_eq/=. split.
  + apply context_ok; try apply Hw; done.
  + intros _. split; [|done]. apply eq_None_not_Some. intros [c Hc].
    apply Hold. apply (wo_conn _ Hw _ _ Hc).
Qed.

(** A new object with a fresh identifier enters the registry. *)
Lemma register_ok w id c ctx :
world_ok w → objects w !! id = None → issued (next_session_id (context w)) id →
session_id (peer c) = id → closed c = false → opened c = false →
wire_ok (max_send_queue_bytes (limits (context w))) (held K (context w) id) false (wire c) →
(∃ a, callbacks (context w) = observing a) →
add_connection (Some (peer c)) (context w) = (true, ctx) →
world_ok (put id c (on_context (λ _, ctx) w)).
Proof.
intros Hw Hn Hi Hid Hl Ho Hwire Hcb Hadd. unfold add_connection in Hadd.
repeat (casehyp; simplify_eq/=). bprop. split; simpl; try apply Hw.
- intros k d Hd. rewrite lookup_insert in Hd. case_decide;
    [|by destruct (wo_conn _ Hw _ _ Hd); split].
  subst. simplify_eq. split; simpl; [done|done|by rewrite Ho|].
  unfold session_trace. rewrite Ho, Hl. by apply (wo_none _ Hw).
- intros k Hk. rewrite lookup_insert in Hk. case_decide; [done|by apply (wo_none _ Hw)].
- intros k. rewrite elem_of_union, elem_of_singleton, (wo_registry _ Hw k), lookup_insert. split.
  + intros [->|(d & Hd & Hld)]; [exists c; by rewrite decide_True|].
    case_decide; [subst; congruence|eauto].
  + case_decide; [by left|]. intros (d & Hd & Hld). right. eauto.
- left. unfold connection_count in *. simpl. rewrite size_union, size_singleton by set_solver. lia.
- by left.
- intros lid l ep k Hll Hk. destruct (wo_route _ Hw _ _ _ _ Hll Hk) as (d & Hd & Hrest).
  exists d. simpl. rewrite lookup_insert_ne by congruence. done.
Qed.

Lemma start_connection_ok w id c :
world_ok w → live w id c → opened c = false →
(wire c = new_wire (lc_protocol (config c)) true ∨ wire c = new_wire (lc_protocol (config c)) false) →
world_ok (start_connection id w).
Proof.
intros Hw Hl Ho Hwr. unfold start_connection, with_connection. pose proof Hl as [Hc _]. rewrite Hc.
destruct (wire c) as [t|s|h|u] eqn:Hwire.
- eapply tcp_start_ok; [done..|]. destruct (lc_protocol (config c)), Hwr; by simplify_eq/=.
- by eapply ws_start_ok.
- eapply http_start_ok; [done..|]. destruct (lc_protocol (config c)), Hwr; by simplify_eq/=.
- by eapply start_peer_ok.
Qed.

Lemma new_wire_ok max n p tls : is_u64 max → wire_ok max n false (new_wire p tls).
Proof.
intros [H0 H1]. destruct p; simpl; split; try done; simpl; try (by left);
  by apply empty_queue_ok.
Qed.

Lemma admit_ok w l remote :
world_ok w → (∃ a, callbacks (context w) = observing a) →
world_ok (admit_socket l remote w).
Proof.
intros Hw Hcb. unfold admit_socket. casematch; [done|].
destruct remote as [[addr port]|]; [|done].
destruct (allocate_session_ok w Hw) as [Hw1 Hid].
destruct (allocate_session_id (context w)) as [id ctx] eqn:Ha. simpl in Hw1, Hid.
set (w1 := on_context (λ _, ctx) w) in *. casematch; [by apply report_ok|]. bprop.
destruct (Hid ltac:(done)) as [Hnone Hissued].
unfold asking. destruct (add_connection _ (context w1)) as [[] ctx2] eqn:Hadd.
2: { unfold add_connection in Hadd. repeat casehyp; simplify_eq/=; by destruct w. }
change (mkWorld ctx2 (objects w1) (listeners w1)) with (on_context (λ _, ctx2) w1).
match goal with |- context [put id ?c0 _] => set (c := c0) end.
assert (world_ok (put id c (on_context (λ _, ctx2) w1))) as Hok.
{ apply register_ok; try done.
  - apply new_wire_ok, Hw1.
  - unfold allocate_session_id in Ha. repeat casehyp; by simplify_eq/=. }
eapply (start_connection_ok _ id c); [done|split; [apply lookup_insert_eq|done]|done|].
simpl. destruct (tl_tls l); auto.
Qed.

Lemma accepted_ok w lid r : world_ok w → world_ok (accepted lid r w).
Proof.
intros Hw. unfold accepted, with_tcp_listener. destruct (listeners w !! lid) as [[l|l]|] eqn:El; try done.
casematch; [done|].
assert (world_ok (put_listener lid (ATcpListener
    (mkTcpListener (tl_config l) (tl_tls l) (tl_closed l) false)) w)) as Hw1
  by (by eapply tcp_flags_ok).
casematch; [done|]. destruct r.
- apply accept_next_ok, admit_ok; [done|]. by apply (listener_observed w lid (ATcpListener l)).
- by apply report_ok, close_tcp_ok.
Qed.

Lemma dispatch_datagram_ok w lid sender now d :
world_ok w → world_ok (dispatch_datagram lid sender now d w).
Proof.
intros Hw. unfold dispatch_datagram, with_listener.
destruct (listeners w !! lid) as [[l|l]|] eqn:El; try done.
destruct (ul_peers l !! sender) as [id|] eqn:Hs; [by apply receive_ok|].
casematch; [done|]. pose proof (listener_observed _ _ _ Hw El) as Hcb.
destruct (allocate_session_ok w Hw) as [Hw1 Hid].
destruct (allocate_session_id (context w)) as [id ctx] eqn:Ha. simpl in Hw1, Hid.
set (w1 := on_context (λ _, ctx) w) in *. casematch; [done|]. bprop.
destruct (Hid ltac:(done)) as [Hnone Hissued].
set (p := mkPeer id (lc_id (ul_config l)) Udp sender.1 sender.2).
destruct (add_connection (Some p) ctx) as [[] ctx2] eqn:Hadd;
  unfold asking; change (context (put_listener lid _ w1)) with ctx; rewrite Hadd.
- set (c := mkConnection p (ul_config l) false false 0 0 (UdpWire (mkUdp now empty_queue))).
  assert (world_ok (put id c (on_context (λ _, ctx2) w1))) as Hok.
  { apply register_ok; try done.
    - split; simpl; [done|done|]. apply empty_queue_ok. apply (wo_max _ Hw1).
    - unfold allocate_session_id in Ha. repeat casehyp; by simplify_eq/=. }
  assert (lc_id (ul_config l) = lid) as Hlid by by apply (wo_listener _ Hw).
  assert (world_ok (put_listener lid (AUdpListener (with_peers (<[sender := id]> (ul_peers l)) l))
    (put id c (on_context (λ _, ctx2) w1)))) as Hok2.
  { eapply put_listener_ok; [done|done|]. intros u [= <-]. simpl. split; [done|].
    intros ep k Hk. rewrite lookup_insert in Hk. case_decide as Hep.
    - simplify_eq. exists c. unfold endpoint_of. simpl. rewrite lookup_insert_eq.
      by destruct ep.
    - apply (wo_route _ Hok lid l); [done|done]. }
  apply receive_ok. eapply (start_peer_ok _ id c); [exact Hok2|split; [apply lookup_insert_eq|done]|done|done].
- unfold add_connection in Hadd. assert (ctx2 = ctx) as -> by (repeat casehyp; by simplify_eq/=).
  unfold forget_peer. simpl. rewrite lookup_insert_eq.
  unfold put_listener. simpl. rewrite insert_insert_eq, delete_insert_id by done.
  rewrite insert_id; [done|]. by rewrite El; destruct l.
Qed.

Lemma on_receive_ok w lid r : world_ok w → world_ok (on_receive lid r w).
Proof.
intros Hw. unfold on_receive, with_listener.
destruct (listeners w !! lid) as [[l|l]|] eqn:El; try done. casematch; [done|].
match goal with |- context [put_listener lid ?l' w] =>
  assert (world_ok (put_listener lid l' w)) as Hw1 by (by eapply udp_flags_ok) end.
casematch; [done|]. destruct r as [[[[addr port] now] d]|[| | | |m]]; try done; try by apply receive_next_ok.
- apply receive_next_ok. casematch; [by apply dispatch_datagram_ok|done].
- by apply close_udp_ok, report_ok.
Qed.

Lemma expire_peer_ok now w id : world_ok w → world_ok (expire_peer now w id).
Proof.
intros Hw. unfold expire_peer, with_udp. on_connection id. destruct (wire c); try done.
casematch; [by apply close_ok|done].
Qed.

Lemma foldl_ok {A} (f : LoggedWorld → A → LoggedWorld) l w :
(∀ w x, world_ok w → world_ok (f w x)) → world_ok w → world_ok (foldl f w l).
Proof. intros Hf. revert w. induction l as [|x l IH]; simpl; auto. Qed.

Lemma expiry_tick_ok w lid now : world_ok w → world_ok (expiry_tick lid now w).
Proof.
intros Hw. unfold expiry_tick, with_listener. repeat (casematch; try done).
apply schedule_expiry_ok. unfold expire_idle_peers, with_listener. repeat (casematch; try done).
apply foldl_ok; auto using expire_peer_ok.
Qed.

(** * One event *)

(** The payload of a posted send fits in memory. *)
Definition sane_event (e : Event) : Prop :=
match e with SendCommand _ message => in_memory message | _ => True end.

Lemma send_command_ok w id message :
world_ok w → in_memory message → world_ok (send_command id message w).2.
Proof.
intros Hw Hm. unfold send_command, with_registered, connection_send. casematch; [|done].
destruct (objects w !! id) as [c|]; [|done]. simpl. destruct (wire c).
- by apply tcp_send_ok.
- by apply ws_send_ok.
- done.
- by apply udp_send_ok.
Qed.

Lemma respond_command_ok iequals w id rid response :
world_ok w → world_ok (respond_command iequals id rid response w).2.
Proof.
intros Hw. unfold respond_command, with_registered, connection_respond. casematch; [|done].
destruct (objects w !! id) as [c|]; [|done]. simpl. destruct (wire c); try done.
by apply respond_http_ok.
Qed.

Lemma disconnect_command_ok w id : world_ok w → world_ok (disconnect_command id w).2.
Proof. intros Hw. unfold disconnect_command, with_registered. casematch; [by apply close_ok|done]. Qed.

Lemma handle_ok iequals w e : world_ok w → sane_event e → world_ok (handle iequals w e).
Proof.
intros Hw He. destruct e; simpl.
- by apply accepted_ok.
- by apply http_handshake_done_ok, ws_handshake_done_ok, tcp_handshake_done_ok.
- by apply header_done_ok.
- by apply body_done_ok.
- by apply frame_done_ok.
- by apply upgrade_request_done_ok.
- by apply upgrade_done_ok.
- by apply message_done_ok.
- by apply payload_done_ok.
- by apply request_header_done_ok.
- by apply request_body_done_ok.
- by apply response_done_ok.
- by apply on_receive_ok.
- by apply complete_send_ok.
- by apply expiry_tick_ok.
- by apply deadline_expired_ok.
- by apply send_command_ok.
- by apply disconnect_command_ok.
- by apply respond_command_ok.
Qed.
End Handlers.
