(* ===== verification/TransportHistory.v ===== *)
(** TransportHistory: the closing loops terminate with nothing left, starting and
    stopping preserve the invariant, and what every history of the service
    satisfies. *)
From S2P Require Import Prelude.
From S2P Require Import Text.
From S2P Require Import NetTypes.
From S2P Require Import HttpCodec.
From S2P Require Import WorkerContext.
From S2P Require Import World.
From S2P Require Import ConnectionState.
From S2P Require Import SendQueue.
From S2P Require Import TcpConnection.
From S2P Require Import WebSocketConnection.
From S2P Require Import HttpConnection.
From S2P Require Import Udp.
From S2P Require Import TransportService.
From S2P Require Import TransportInvariant.
From S2P Require Import TransportSteps.
From S2P Require Import TransportSafety.

(** * The closing loops *)

Lemma close_connections_empty {K} fuel (w : LoggedWorld) :
  @world_inv K w → (size (connections (context w)) ≤ fuel)%nat →
  @world_inv K (close_connections fuel w) ∧
  connections (context (close_connections fuel w)) = ∅.
Proof.
  revert w. induction fuel as [|fuel IH]; intros w Hw Hs; simpl.
  - split; [done|]. apply leibniz_equiv, size_empty_inv. lia.
  - destruct (elements (connections (context w))) as [|id l] eqn:E.
    + split; [done|]. by apply leibniz_equiv, elements_empty_inv.
    + apply IH; [by apply close_ok|]. destruct (close_context w id Hw) as (_ & _ & _ & _ & _ & ->).
      assert (id ∈ connections (context w)) as Hin by (apply elem_of_elements; rewrite E; left).
      rewrite size_difference, size_singleton by set_solver. lia.
Qed.

Lemma close_route {K} (w : LoggedWorld) lid l ep id :
  @world_inv K w → listeners w !! lid = Some (AUdpListener l) → ul_peers l !! ep = Some id →
  listeners (close id w) !! lid =
    Some (AUdpListener (with_peers (delete ep (ul_peers l)) l)).
Proof.
  intros Hw Hl Hep. destruct (wo_route _ Hw _ _ _ _ Hl Hep) as (c & Hc & Hcl & Hu & Hlid & He).
  rewrite (close_live w id c) by done. simpl. unfold routes_after, forget_peer.
  rewrite Hu, Hlid, Hl, He. simpl. apply lookup_insert_eq.
Qed.

Lemma close_keeps_dead {K} (w : LoggedWorld) id k :
  @world_inv K w → dead w k → dead (close id w) k.
Proof.
  intros Hw Hd. apply close_cases; [done|]. intros c Hc Hl. rewrite (close_live w id c) by done.
  intros d. simpl. rewrite lookup_insert. case_decide; [by intros [= <-]|apply Hd].
Qed.

Lemma close_peers_keeps_dead {K} fuel (w : LoggedWorld) lid k :
  @world_inv K w → dead w k → dead (close_peers fuel lid w) k.
Proof.
  revert w. induction fuel as [|fuel IH]; [done|]. intros w Hw Hd. simpl. unfold with_listener.
  repeat (casematch; try done). apply IH; [by apply close_ok|by eapply close_keeps_dead].
Qed.

Lemma close_peers_empty {K} fuel (w : LoggedWorld) lid l :
  @world_inv K w → listeners w !! lid = Some (AUdpListener l) →
  (size (ul_peers l) ≤ fuel)%nat →
  (∃ l', listeners (close_peers fuel lid w) !! lid = Some (AUdpListener l') ∧
    ul_peers l' = ∅ ∧ ul_closed l' = ul_closed l) ∧
  ∀ ep id, ul_peers l !! ep = Some id → dead (close_peers fuel lid w) id.
Proof.
  revert w l. induction fuel as [|fuel IH]; intros w l Hw Hl Hs; simpl.
  - assert (ul_peers l = ∅) as He by (apply map_size_empty_inv; lia).
    split; [by exists l|]. intros ep id. by rewrite He, lookup_empty.
  - unfold with_listener. rewrite Hl. destruct (map_to_list (ul_peers l)) as [|[ep id] r] eqn:E.
    + apply map_to_list_empty_iff in E. split; [by exists l|].
      intros ep id. by rewrite E, lookup_empty.
    + assert (ul_peers l !! ep = Some id) as Hep by (apply elem_of_map_to_list; rewrite E; left).
      pose proof (close_route w lid l ep id Hw Hl Hep) as Hl'.
      destruct (IH (close id w) _ (close_ok w id Hw) Hl') as [Hempty Hdead].
      { simpl. rewrite map_size_delete, Hep. lia. }
      split; [done|]. intros ep' id' Hep'. destruct (decide (ep = ep')) as [->|Hne].
      * simplify_eq. eapply close_peers_keeps_dead; [by apply close_ok|by eapply close_dead_after].
      * apply (Hdead ep'). simpl. by rewrite lookup_delete_ne.
Qed.

(** * Starting and stopping *)

(** A service whose callbacks are gone has no session and no listener. *)
Lemma idle_empty {K} (w : LoggedWorld) :
  @world_inv K w → callbacks (context w) = no_callbacks →
  connections (context w) = ∅ ∧ listeners w = ∅.
Proof. intros Hw Hc. destruct (wo_callbacks _ Hw) as [[a Ha]|(_ & ? & ?)]; [|done].
  rewrite Ha in Hc. discriminate Hc.
Qed.

(** Reconfiguring a service that holds no live connection. *)
Lemma reconfigure_ok {K} (w : LoggedWorld) l cb st ls :
  @world_inv K w → connections (context w) = ∅ →
  is_u64 (max_send_queue_bytes l) → is_u64 (max_message_bytes l) →
  ((∃ a, cb = observing a) ∨ (cb = no_callbacks ∧ ls = ∅)) →
  (∀ lid u, ls !! lid = Some (AUdpListener u) → lc_id (ul_config u) = lid ∧ ul_peers u = ∅) →
  @world_inv (mkStatic (l, cb, st) (st_answered K)) (mkWorld (mkContext l cb (host (context w)) st (connections (context w))
    (next_session_id (context w)) (next_http_request_id (context w))) (objects w) ls).
Proof.
  intros Hw Hcs Hl Hm Hcb Hls. split; simpl; try apply Hw; try done.
  - intros id c Hc. destruct (wo_conn _ Hw _ _ Hc) as [H1 H2 H3 H4]. split; simpl; try done.
    intros Hcl. pose proof (live_registered _ _ _ Hw Hc Hcl). set_solver.
  - by right.
  - destruct Hcb as [|[??]]; [by left|by right].
  - intros lid u Hu. by apply (Hls lid u).
  - intros lid u ep id Hu Hep. destruct (Hls _ _ Hu) as [_ He]. by rewrite He, lookup_empty in Hep.
Qed.

Section History.
Context (iequals : bytes → bytes → bool) (open_listener : ListenerConfig → result bytes unit).
Abbreviation Ops := (list (Operation (list HostEvent))).

(** The host observes; sizes are machine sizes. *)
Definition sane_operation (o : Operation (list HostEvent)) : Prop :=
  match o with
  | StartOp _ l cb => (∃ a, cb = observing a) ∧ is_u64 (max_send_queue_bytes l) ∧
      is_u64 (max_message_bytes l)
  | StopOp => True
  | WorkerOp e => sane_event e
  end.

(** The invariant of the service; [answered] requests stay answered. *)
Definition service_ok (answered : gset (Z * Z)) (s : Service (list HostEvent)) : Prop :=
  ∃ T, @world_inv (mkStatic T answered) (world s) ∧ (running s = false → callbacks (context (world s)) = no_callbacks).

Lemma prepare_listeners cfgs prepared lid u :
  prepare open_listener cfgs = Ok prepared →
  (list_to_map prepared : gmap Z Listener) !! lid = Some (AUdpListener u) →
  lc_id (ul_config u) = lid ∧ ul_peers u = ∅.
Proof.
  revert prepared. induction cfgs as [|c cfgs IH]; intros prepared; simpl.
  - intros [= <-] Hx. by rewrite list_to_map_nil, lookup_empty in Hx.
  - rewrite rbind_Ok. intros (l & Hl & Hrest). rewrite rbind_Ok in Hrest.
    destruct Hrest as (others & Ho & [= <-]). simpl. rewrite lookup_insert.
    destruct (decide (lc_id c = lid)) as [<-|]; [|by apply IH].
    intros [= ->]. destruct (bool_decide (lc_protocol c = Udp)); unfold make_udp_listener, make_tcp_listener in Hl.
    + rewrite rbind_Ok in Hl. destruct Hl as (? & _ & Hl). rewrite rbind_Ok in Hl.
      destruct Hl as (? & _ & [= <-]). done.
    + rewrite rbind_Ok in Hl. destruct Hl as (? & _ & [=]).
Qed.

Lemma start_listener_ok {K} (w : LoggedWorld) lid :
  @world_inv K w → @world_inv K (start_listener w lid).
Proof.
  intros Hw. unfold start_listener. repeat casematch; auto using accept_next_ok, start_udp_ok.
Qed.
Lemma close_listener_ok {K} (w : LoggedWorld) lid :
  @world_inv K w → @world_inv K (close_listener w lid).
Proof.
  intros Hw. unfold close_listener. repeat casematch; auto using close_tcp_ok, close_udp_ok.
Qed.

Lemma service_start_ok R cfgs l cb s :
  service_ok R s → sane_operation (StartOp cfgs l cb) →
  service_ok R (TransportService.start open_listener cfgs l cb s).2.
Proof.
  intros [T [Hw Hr]] (Hcb & Hl & Hm). unfold TransportService.start.
  destruct (running s) eqn:Er; [simpl; exists T; by rewrite Er|].
  destruct (idle_empty _ Hw (Hr eq_refl)) as [Hcs Hls].
  destruct (validate cfgs l) as [[]|e]; [|simpl; exists T; by rewrite Er].
  destruct (prepare open_listener cfgs) as [prepared|e] eqn:Ep.
  - exists (l, cb, false). split; [|done]. simpl. apply foldl_ok; [intros; by apply start_listener_ok|].
    apply (reconfigure_ok (K:=mkStatic T R) (world s)); try done; [by left|]. intros. by eapply prepare_listeners.
  - exists (l, no_callbacks, false). split; [|done]. simpl.
    apply (reconfigure_ok (K:=mkStatic T R) (world s)); try done; [by right|]. intros lid u. by rewrite Hls, lookup_empty.
Qed.

Lemma stopping_ok {K} (w : LoggedWorld) :
  @world_inv K w →
  @world_inv (mkStatic (limits (context w), callbacks (context w), true) (st_answered K))
    (on_context (λ c, mkContext (limits c) (callbacks c) (host c) true (connections c)
      (next_session_id c) (next_http_request_id c)) w).
Proof.
  intros Hw. split; simpl; try apply Hw; try done.
  intros id c Hc. by destruct (wo_conn _ Hw _ _ Hc).
Qed.

Lemma close_all_ok {K} (w : LoggedWorld) :
  @world_inv K w → @world_inv K (close_listeners_and_connections w) ∧
  connections (context (close_listeners_and_connections w)) = ∅.
Proof.
  intros Hw. unfold close_listeners_and_connections. apply close_connections_empty; [|done].
  apply foldl_ok; [intros; by apply close_listener_ok|done].
Qed.

Lemma service_stop_ok R s : service_ok R s → service_ok R (TransportService.stop s).
Proof.
  intros [T [Hw Hr]]. unfold TransportService.stop.
  destruct (running s) eqn:Er; [|by exists T; split; [|intros _; apply Hr]]. simpl.
  destruct (close_all_ok _ (stopping_ok _ Hw)) as [Hok He].
  eexists. split; [|done].
  apply (reconfigure_ok _ _ _ _ _ Hok He); [apply Hok|apply Hok|by right|done].
Qed.

Lemma apply_ok R s o :
  service_ok R s → sane_operation o → service_ok R (apply iequals open_listener s o).
Proof.
  intros Hs Ho. destruct o as [cfgs l cb| |e]; simpl; [by apply service_start_ok|by apply service_stop_ok|].
  destruct Hs as [T [Hw Hr]]. exists T. simpl.
  pose proof (handle_ok iequals (world s) e Hw Ho) as Hw'. split; [done|]. intros Er.
  pose proof (wo_static _ Hw') as H1. pose proof (wo_static _ Hw) as H2. rewrite <- H2 in H1.
  unfold static_of in H1. simplify_eq. rewrite <- (Hr Er). congruence.
Qed.

Lemma initial_ok : service_ok ∅ (initial_service []).
Proof.
  exists (default_limits, no_callbacks, false). split; [|done].
  split; simpl; try done; try (unfold is_u64; lia).
  - intros id. rewrite elem_of_empty. split; [done|]. by intros (c & [=] & _).
  - intros p d b Hin. by apply not_elem_of_nil in Hin.
  - by right.
  - by right.
Qed.

Lemma runs_ok R s ops :
  service_ok R s → Forall sane_operation ops →
  service_ok R (runs (apply iequals open_listener) s ops).
Proof.
  intros Hs Hops. revert s Hs. induction Hops as [|o ops Ho _ IH]; simpl; [done|].
  intros s Hs. apply IH. by apply apply_ok.
Qed.

(** Every state a history reaches. *)
Definition reached (ops : Ops) : Service (list HostEvent) :=
  runs (apply iequals open_listener) (initial_service []) ops.

Lemma reached_ok ops : Forall sane_operation ops → service_ok ∅ (reached ops).
Proof. apply runs_ok, initial_ok. Qed.
End History.
