(* ===== verification/TransportProperties.v ===== *)
(** TransportProperties: what every history of the asynchronous transport
    satisfies. *)
From S2P Require Import Prelude.
From S2P Require Import Text.
From S2P Require Import NetTypes.
From S2P Require Import HttpCodec.
From S2P Require Import WorkerContext.
From S2P Require Import World.
From S2P Require Import ConnectionState.
From S2P Require Import SendQueue.
From S2P Require Import TcpConnection.
From S2P Require Import WebSocketConnection.
From S2P Require Import HttpConnection.
From S2P Require Import Udp.
From S2P Require Import TransportService.
From S2P Require Import TransportInvariant.
From S2P Require Import TransportSteps.
From S2P Require Import TransportSafety.
From S2P Require Import TransportHistory.

(** * A concrete history *)

Definition no_tls (_ : ListenerConfig) : result bytes unit := Ok tt.
Definition echo_policy : Policy :=
  mkPolicy (λ _ _, Some true) (λ _ _ _, Some true) (λ _ _ _, Some true).
Definition demo_listener : ListenerConfig :=
  mkListenerConfig 7 Tcp (txt "127.0.0.1") 9000 NoSecurity [] [] (txt "/") 10000.
Definition demo_http : ListenerConfig :=
  mkListenerConfig 8 Http (txt "127.0.0.1") 9001 NoSecurity [] [] (txt "/") 10000.
Definition demo_udp : ListenerConfig :=
  mkListenerConfig 9 Udp (txt "127.0.0.1") 9002 NoSecurity [] [] (txt "/") 10000.
Definition demo_request : ParsedRequest :=
  mkRequest 11 (txt "GET") (txt "/") [mkHttpHeader (txt "Host") (txt "h")] [] true.
Definition demo_client : bytes * Z := (txt "10.0.0.1", 40000).

Definition demo_ops : list (Operation (list HostEvent)) :=
  [ StartOp [demo_listener; demo_http; demo_udp] default_limits (observing echo_policy);
    WorkerOp (Accepted 7 (Ok (Some demo_client)));
    WorkerOp (TcpHeader 1 (Ok (x00, x00, x00, x02)));
    WorkerOp (TcpBody 1 (Ok (txt "hi")));
    WorkerOp (SendCommand 1 (txt "yo"));
    WorkerOp (SendCommand 1 (txt "yo"));
    WorkerOp (TcpWritten 1 None);
    WorkerOp (Accepted 8 (Ok (Some demo_client)));
    WorkerOp (HttpHeaderRead 2 (Ok (demo_request, true)));
    WorkerOp (UdpReceived 9 (Ok (txt "10.0.0.1", 40000, 5, txt "dg"))) ].

Lemma demo_sane : Forall sane_operation demo_ops.
Proof.
  repeat constructor; simpl; unfold is_u64, in_memory; try lia; eauto; vm_compute; done.
Qed.

(** * Sessions *)

(** The callbacks of one session [p], in order: nothing, a refused open, or an
    accepted open followed by accepted deliveries and, once the session ends, at
    most one refused delivery and exactly one close. *)
Inductive session_word (p : Peer) : list HostEvent → Prop :=
| word_silent : session_word p []
| word_refused : session_word p [EOpen p false]
| word_active ms : Forall (accepted_delivery p) ms → session_word p (EOpen p true :: ms)
| word_ended ms last :
    Forall (accepted_delivery p) ms → Forall (delivery p) last → zlen last ≤ 1 →
    session_word p (EOpen p true :: ms ++ last ++ [EClose p]).

Section Properties.
Context (iequals : bytes → bytes → bool) (open_listener : ListenerConfig → result bytes unit).

(** C1: In every history of starts, stops, completions and commands, the host
    sees each session identifier's callbacks as one word: nothing, one refused
    open, or an open, then deliveries it accepted, then (once the session has
    ended) at most one delivery it refused and exactly one close. Nothing comes
    before the open or after the close, and an identifier is never reused. *)
Theorem session_protocol ops id :
  Forall sane_operation ops →
  ∃ p, session_id p = id ∧
    session_word p (word id (host (context (world (reached iequals open_listener ops))))).
Proof.
  intros Hops. destruct (reached_ok iequals open_listener ops Hops) as [T [Hw _]].
  destruct (objects (world (reached iequals open_listener ops)) !! id) as [c|] eqn:Hc.
  - destruct (wo_conn _ Hw _ _ Hc) as [Hid _ _ Ht]. exists (peer c). split; [done|].
    unfold session_trace in Ht. destruct (opened c), (closed c).
    + destruct Ht as (ms & last & -> & ? & ? & ?). by constructor.
    + destruct Ht as (ms & -> & ?). by constructor.
    + destruct Ht as [->| ->]; constructor.
    + rewrite Ht. constructor.
  - exists (mkPeer id 0 Tcp [] 0). rewrite (wo_none _ Hw _ Hc). by repeat constructor.
Qed.

(** With nobody registered, every session that was opened has been closed. *)
Lemma settled {K} (w : LoggedWorld) p :
  @world_inv K w → connections (context w) = ∅ → EOpen p true ∈ host (context w) → EClose p ∈ host (context w).
Proof.
  intros Hw Hcs Hp. assert (EOpen p true ∈ word (session_id p) (host (context w))) as Hin.
  { apply list_elem_of_filter. split; [|done]. unfold concerns. simpl. apply Z.eqb_refl. }
  destruct (objects w !! session_id p) as [c|] eqn:Hc.
  2: { rewrite (wo_none _ Hw _ Hc) in Hin. by apply not_elem_of_nil in Hin. }
  destruct (closed c) eqn:Hl.
  2: { pose proof (live_registered _ _ _ Hw Hc Hl). set_solver. }
  pose proof (ck_trace _ _ _ (wo_conn _ Hw _ _ Hc)) as Ht. unfold session_trace in Ht. rewrite Hl in Ht.
  assert (∀ l, Forall (delivery (peer c)) l → EOpen p true ∉ l) as Hno.
  { intros l HF Hx. by pose proof (proj1 (Forall_forall _ _) HF _ Hx). }
  destruct (opened c).
  - destruct Ht as (ms & last & Hword & Hms & Hlast & _).
    assert (peer c = p) as <-.
    { rewrite Hword in Hin. apply elem_of_cons in Hin as [Hin|Hin]; [by simplify_eq|].
      rewrite !elem_of_app, list_elem_of_singleton in Hin.
      destruct Hin as [Hin|[Hin|Hin]]; [|by apply Hno in Hin|done]. exfalso. eapply Hno, Hin.
      eapply Forall_impl; [exact Hms|]. intros []; simpl; naive_solver. }
    assert (EClose (peer c) ∈ word (session_id (peer c)) (host (context w))) as Hcl.
    { rewrite Hword, !elem_of_cons, !elem_of_app, list_elem_of_singleton. auto. }
    by apply list_elem_of_filter in Hcl as [_ ?].
  - destruct Ht as [Ht|Ht]; rewrite Ht in Hin; [by apply not_elem_of_nil in Hin|].
    by apply list_elem_of_singleton in Hin.
Qed.

(** C2: Stopping ends everything: the closing loops empty the registry and drop
    every listener, the service no longer runs, and every session whose open
    the host accepted has had its close. *)
Theorem stop_ends_every_session ops :
  Forall sane_operation ops →
  let s := reached iequals open_listener (ops ++ [StopOp]) in
  running s = false ∧ connections (context (world s)) = ∅ ∧ listeners (world s) = ∅ ∧
  ∀ p, EOpen p true ∈ host (context (world s)) → EClose p ∈ host (context (world s)).
Proof.
  intros Hops s. assert (Forall sane_operation (ops ++ [StopOp])) as Hops2
    by (apply Forall_app; repeat constructor; done).
  destruct (reached_ok iequals open_listener _ Hops2) as [T [Hw Hr]]. fold s in Hw, Hr.
  assert (running s = false) as Hstop.
  { unfold s, reached. rewrite runs_app. simpl. unfold TransportService.stop.
    by destruct (running (runs _ _ _)) eqn:E. }
  destruct (idle_empty _ Hw (Hr Hstop)) as [Hcs Hls]. split_and!; [done..|].
  intros p. by apply (settled (K:=mkStatic T ∅)).
Qed.

(** C3: At every moment the registry holds at most [max_connections] sessions,
    each under a nonzero identifier handed out once, with a live object. *)
Theorem admission_bounded ops :
  Forall sane_operation ops →
  let ctx := context (world (reached iequals open_listener ops)) in
  connection_count ctx ≤ Z.max 0 (max_connections (limits ctx)) ∧
  ∀ id, id ∈ connections ctx → issued (next_session_id ctx) id ∧
    ∃ c, objects (world (reached iequals open_listener ops)) !! id = Some c ∧
      closed c = false ∧ session_id (peer c) = id.
Proof.
  intros Hops ctx. destruct (reached_ok iequals open_listener ops Hops) as [T [Hw _]]. split.
  - destruct (wo_count _ Hw) as [Hc|Hc]; fold ctx in Hc; [lia|].
    unfold connection_count. rewrite Hc, size_empty. lia.
  - intros id Hid. apply (wo_registry _ Hw) in Hid as (c & Hc & Hl).
    destruct (wo_conn _ Hw _ _ Hc). eauto 10.
Qed.

(** C4: The outgoing queue of every live connection is accounted exactly: its
    byte counter is the sum of its items' costs (with no wrap-around), it stays
    within [max_send_queue_bytes] and 1024 items, and a write is outstanding
    exactly for the front item. *)
Theorem send_queues_accounted ops id c :
  Forall sane_operation ops →
  let w := world (reached iequals open_listener ops) in
  objects w !! id = Some c → closed c = false →
  let max := max_send_queue_bytes (limits (context w)) in
  match wire c with
  | TcpWire t => queue_ok TcpConnection.frame_cost max (tcp_queue t)
  | WsWire s => queue_ok WebSocketConnection.payload_cost max (ws_queue s)
  | UdpWire u => queue_ok Udp.queue_cost max (udp_queue u)
  | HttpWire _ => True
  end.
Proof.
  intros Hops w Hc Hl. destruct (reached_ok iequals open_listener ops Hops) as [T [Hw _]].
  destruct (ck_wire _ _ _ (wo_conn _ Hw _ _ Hc) Hl) as [_ _ Ho]. by destruct (wire c).
Qed.

(** Every request the worker publishes to the host, accepted or refused, is
    an event the codec decodes. *)
Theorem http_events_decodable ops p payload accepted :
  Forall sane_operation ops →
  EHttp p payload accepted ∈ host (context (world (reached iequals open_listener ops))) →
  is_Some (decode_http_request (Some payload)).
Proof.
  intros Hops. destruct (reached_ok iequals open_listener ops Hops) as [T [Hw _]].
  apply (wo_log _ Hw).
Qed.
End Properties.

Lemma session_protocol_witness :
  Forall sane_operation demo_ops ∧
  (∃ p, session_id p = 1 ∧
    session_word p (word 1 (host (context (world (reached ascii_iequals no_tls demo_ops)))))) ∧
  length (word 1 (host (context (world (reached ascii_iequals no_tls demo_ops))))) = 2%nat.
Proof.
  split; [exact demo_sane|].
  split; [apply (session_protocol ascii_iequals no_tls demo_ops 1 demo_sane)|by vm_compute].
Defined.

Lemma stop_ends_every_session_witness :
  Forall sane_operation demo_ops ∧
  length (host (context (world (reached ascii_iequals no_tls (demo_ops ++ [StopOp]))))) = 9%nat ∧
  connections (context (world (reached ascii_iequals no_tls (demo_ops ++ [StopOp])))) = ∅.
Proof.
  split; [exact demo_sane|]. split; [by vm_compute|].
  apply (stop_ends_every_session ascii_iequals no_tls demo_ops demo_sane).
Defined.

Lemma admission_bounded_witness :
  Forall sane_operation demo_ops ∧
  connection_count (context (world (reached ascii_iequals no_tls demo_ops))) = 3 ∧
  3 ≤ Z.max 0 4096.
Proof.
  split; [exact demo_sane|]. split; [by vm_compute|].
  apply (admission_bounded ascii_iequals no_tls demo_ops demo_sane).
Defined.

(** The object of the demonstration's TCP session. *)
Definition demo_connection : option Connection :=
  Eval vm_compute in objects (world (reached ascii_iequals no_tls demo_ops)) !! 1.

Lemma send_queues_accounted_witness :
  ∃ c t, Forall sane_operation demo_ops ∧
    objects (world (reached ascii_iequals no_tls demo_ops)) !! 1 = Some c ∧ closed c = false ∧
    wire c = TcpWire t ∧ queued_bytes (tcp_queue t) = 6 ∧
    queue_ok TcpConnection.frame_cost 1048576 (tcp_queue t).
Proof.
  eexists _, _. split; [exact demo_sane|]. split; [vm_compute; reflexivity|].
  split; [reflexivity|]. split; [reflexivity|]. split; [reflexivity|].
  exact (send_queues_accounted ascii_iequals no_tls demo_ops 1 _ demo_sane
    ltac:(vm_compute; reflexivity) eq_refl).
Defined.

Ltac in_log := vm_compute; repeat first [apply list_elem_of_here | apply list_elem_of_further].

Lemma http_events_decodable_witness :
  ∃ p payload, Forall sane_operation demo_ops ∧
    EHttp p payload true ∈ host (context (world (reached ascii_iequals no_tls demo_ops))) ∧
    is_Some (decode_http_request (Some payload)).
Proof.
  eexists _, _. split; [exact demo_sane|]. split; [in_log|].
  refine (http_events_decodable ascii_iequals no_tls demo_ops _ _ true demo_sane _). in_log.
Defined.
