(* ===== verification/TransportFailures.v ===== *)
(** TransportFailures: what [src/src/Net/Async/TransportService.cpp] does when its own means
    fail: the worker thread cannot be created, a command cannot be posted to the worker, a
    listener throws when it starts. [TransportService] models start and stop without these;
    here every failure is an argument, and a stop that cannot be posted takes the emergency
    path, which closes everything on the caller's thread, tells nobody, and poisons the
    service. *)
From S2P Require Import Prelude.
From S2P Require Import Text.
From S2P Require Import NetTypes.
From S2P Require Import HttpCodec.
From S2P Require Import WorkerContext.
From S2P Require Import World.
From S2P Require Import ConnectionState.
From S2P Require Import Udp.
From S2P Require Import TransportService.
From S2P Require Import TransportInvariant.
From S2P Require Import TransportSteps.
From S2P Require Import TransportSafety.
From S2P Require Import TransportHistory.
From S2P Require Import TransportProperties.

(** What fails in a start, with what the exception says; for a listener that throws, how
    many were started before it. [posted]: whether the stop that follows can be posted. *)
Inductive StartFault :=
| ThreadFailed (what : bytes)
| PostFailed (what : bytes) (posted : bool)
| ListenerThrew (before : nat) (what : bytes) (posted : bool).

Section Failures.
Context {H : Type}.
Context (iequals : bytes → bytes → bool) (open_listener : ListenerConfig → result bytes unit).

(** [src/src/Net/Async/TransportService.cpp:243-251] *)
Record Impl := mkImpl { service : Service H; poisoned_ : bool }.

(** The callbacks dropped. *)
Definition forget_callbacks (w : World H) : World H :=
  on_context (λ c, mkContext (limits c) no_callbacks (host c) (stopping c) (connections c)
    (next_session_id c) (next_http_request_id c)) w.
Definition begin_stopping (w : World H) : World H :=
  on_context (λ c, mkContext (limits c) (callbacks c) (host c) true (connections c)
    (next_session_id c) (next_http_request_id c)) w.
(** [src/src/Net/Async/TransportService.cpp:188-216] [posted]: whether the command reaches
    the worker. *)
Definition stop_locked (posted : bool) (i : Impl) : Impl :=
  if negb (running (service i)) then i
  else if posted then mkImpl (TransportService.stop (service i)) (poisoned_ i)
  else
    let w := close_listeners_and_connections (begin_stopping (forget_callbacks (world (service i)))) in
    mkImpl (mkService false (mkWorld (context w) (objects w) ∅)) true.
(** [src/src/Net/Async/TransportService.cpp:72-129] {start} *)
Definition start_faulty (fault : option StartFault) (configurations : list ListenerConfig) (l : ServiceLimits)
    (cb : TransportCallbacks H) (i : Impl) : result bytes unit * Impl :=
  let s := service i in
  if running s then (Err (txt "Transport service is already running"), i)
  else if poisoned_ i then (Err (txt "Transport service requires recreation after forced shutdown"), i)
  else match validate configurations l with
  | Err e => (Err e, i)
  | Ok _ =>
      let ready cb := mkContext l cb (host (context (world s))) false (connections (context (world s)))
        (next_session_id (context (world s))) (next_http_request_id (context (world s))) in
      match prepare open_listener configurations with
      | Err e => (Err e, mkImpl (mkService false (mkWorld (ready no_callbacks) (objects (world s)) (listeners (world s)))) false)
      | Ok prepared =>
          let w := mkWorld (ready cb) (objects (world s)) (list_to_map prepared) in
          match fault with
          | None => (Ok tt, mkImpl (mkService true (foldl start_listener w prepared.*1)) false)
          | Some (ThreadFailed what) =>
              let w := forget_callbacks (foldl close_listener w prepared.*1) in
              (Err (txt "Could not start transport worker: " ++ what), mkImpl (mkService false (mkWorld (context w) (objects w) ∅)) false)
          | Some (PostFailed what posted) =>
              (Err (txt "Could not start transport worker: " ++ what), stop_locked posted (mkImpl (mkService true w) false))
          | Some (ListenerThrew before what posted) =>
              let w := report 0 what (foldl start_listener w (take before prepared.*1)) in
              (Err (txt "Could not start asynchronous listeners"), stop_locked posted (mkImpl (mkService true w) false))
          end
      end
  end.

(** A history. After the emergency path no handler runs: the worker's queue was stopped and
    is never run again. *)
Inductive FaultyOp :=
| FStart (fault : option StartFault) (configurations : list ListenerConfig) (l : ServiceLimits) (cb : TransportCallbacks H)
| FStop (posted : bool)
| FWorker (e : Event).
Definition apply_faulty (i : Impl) (o : FaultyOp) : Impl :=
  match o with
  | FStart fault configurations l cb => (start_faulty fault configurations l cb i).2
  | FStop posted => stop_locked posted i
  | FWorker e => if poisoned_ i then i else mkImpl (apply iequals open_listener (service i) (WorkerOp e)) false
  end.

(** ** Closing without callbacks *)
(** The same world with nobody to tell, and the host as [h]. *)
Definition silent (h : H) (w : World H) : World H :=
  on_context (λ c, mkContext (limits c) no_callbacks h (stopping c) (connections c)
    (next_session_id c) (next_http_request_id c)) w.
Lemma silent_remove h p o w : on_context (remove_connection p o) (silent h w) = silent h (on_context (remove_connection p o) w).
Proof.
  unfold on_context, remove_connection, silent, on_context. simpl. case_bool_decide; [|done]. destruct (on_close _); [|done]. by destruct o.
Qed.
Lemma silent_forget h lid ep w : forget_peer lid ep (silent h w) = silent h (forget_peer lid ep w).
Proof. unfold forget_peer. simpl. by repeat case_match. Qed.
Lemma silent_close h id w : close id (silent h w) = silent h (close id w).
Proof.
  unfold close, with_connection. simpl. destruct (objects w !! id) as [c|]; [|done]. destruct (closed c); [done|].
  change (put id ?c (silent h w)) with (silent h (put id c w)). destruct (is_udp (wire c)); [rewrite silent_forget|]; apply silent_remove.
Qed.
Lemma silent_close_peers h lid fuel : ∀ w, close_peers fuel lid (silent h w) = silent h (close_peers fuel lid w).
Proof.
  induction fuel as [|fuel IH]; intros w; [done|]. simpl. unfold with_listener. simpl.
  repeat (case_match; try done). by rewrite silent_close.
Qed.
Lemma silent_close_listener h w lid : close_listener (silent h w) lid = silent h (close_listener w lid).
Proof.
  unfold close_listener, close_tcp, close_udp, with_tcp_listener, with_listener. simpl.
  destruct (listeners w !! lid) as [[l|l]|]; [done| |done]. destruct (ul_closed l); [done|]. apply (silent_close_peers h lid _ (put_listener _ _ w)).
Qed.
Lemma silent_close_connections h fuel : ∀ w, close_connections fuel (silent h w) = silent h (close_connections fuel w).
Proof.
  induction fuel as [|fuel IH]; intros w; [done|]. simpl. case_match; [done|]. by rewrite silent_close.
Qed.
Lemma silent_close_all h w : close_listeners_and_connections (silent h w) = silent h (close_listeners_and_connections w).
Proof.
  unfold close_listeners_and_connections. change (listeners (silent h w)) with (listeners w).
  assert (∀ l w, foldl close_listener (silent h w) l = silent h (foldl close_listener w l)) as ->.
  { induction l as [|lid l IH]; intros w'; [done|]. simpl. by rewrite silent_close_listener. }
  apply silent_close_connections.
Qed.
(** The emergency path ends where an ordinary stop does, but for the host. *)
Lemma emergency_stop i : running (service i) = true → stop_locked false i =
  mkImpl (mkService false (silent (host (context (world (service i)))) (world (TransportService.stop (service i))))) true.
Proof.
  intros Hr. unfold stop_locked, TransportService.stop. rewrite Hr. cbn [negb].
  change (begin_stopping (forget_callbacks (world (service i)))) with
    (silent (host (context (world (service i)))) (begin_stopping (world (service i)))).
  rewrite silent_close_all. done.
Qed.
(** Without a failure, start is as [TransportService] models it. *)
Lemma start_faultless cfgs l cb i : poisoned_ i = false →
  start_faulty None cfgs l cb i = let '(r, s) := TransportService.start open_listener cfgs l cb (service i) in (r, mkImpl s false).
Proof.
  intros Hp. unfold start_faulty, TransportService.start. rewrite Hp. destruct i as [s p]. simpl in *. subst p.
  destruct (running s); [done|]. destruct (validate cfgs l); [|done]. by destruct (prepare open_listener cfgs).
Qed.
End Failures.
Arguments Impl : clear implicits.
Arguments mkImpl {H}. Arguments service {H}. Arguments poisoned_ {H}. Arguments FaultyOp : clear implicits.
Arguments FStart {H}. Arguments FStop {H}. Arguments FWorker {H}.

(** * Histories with failures *)
Section Histories.
Context (iequals : bytes → bytes → bool) (open_listener : ListenerConfig → result bytes unit).
Abbreviation LoggedImpl := (Impl (list HostEvent)).
Definition sane_faulty (o : FaultyOp (list HostEvent)) : Prop :=
  match o with
  | FStart _ cfgs l cb => sane_operation (StartOp cfgs l cb)
  | FStop _ => True
  | FWorker e => sane_event e
  end.
(** Nothing runs and nothing is held. *)
Definition gone (s : Service (list HostEvent)) : Prop :=
  running s = false ∧ connections (context (world s)) = ∅ ∧ listeners (world s) = ∅ ∧ callbacks (context (world s)) = no_callbacks.
Definition impl_ok (i : LoggedImpl) : Prop := if poisoned_ i then gone (service i) else service_ok ∅ (service i).

Lemma idle_gone (s : Service (list HostEvent)) : service_ok ∅ s → running s = false → gone s.
Proof. intros [T [Hw Hc]] Hr. destruct (idle_empty _ Hw (Hc Hr)) as [Hcs Hls]. split_and!; auto. Qed.
Lemma stop_locked_ok posted (i : LoggedImpl) : impl_ok i → impl_ok (stop_locked posted i).
Proof.
  intros Hi. destruct (running (service i)) eqn:Hr; [|unfold stop_locked; by rewrite Hr].
  unfold impl_ok in Hi. destruct (poisoned_ i) eqn:Hp; [by destruct Hi as [Hf _]; rewrite Hr in Hf|].
  destruct posted.
  - unfold stop_locked. rewrite Hr. unfold impl_ok. simpl. rewrite Hp. by apply service_stop_ok.
  - rewrite (emergency_stop i Hr). unfold impl_ok. simpl. destruct (idle_gone _ (service_stop_ok _ _ Hi)) as (_ & Hcs & Hls & _).
    { unfold TransportService.stop. by rewrite Hr. }
    by split_and!.
Qed.
(** Listeners that were never started have nothing to close. *)
Lemma close_unstarted (w : LoggedWorld) lids :
  (∀ lid u, listeners w !! lid = Some (AUdpListener u) → ul_peers u = ∅) →
  connections (context (foldl close_listener w lids)) = connections (context w).
Proof.
  revert w. induction lids as [|lid lids IH]; intros w Hw; [done|]. simpl.
  assert (connections (context (close_listener w lid)) = connections (context w) ∧
    ∀ k u, listeners (close_listener w lid) !! k = Some (AUdpListener u) → ul_peers u = ∅) as [<- Hn]; [|by apply IH].
  unfold close_listener, close_tcp, close_udp, with_tcp_listener, with_listener.
  destruct (listeners w !! lid) as [[l|l]|] eqn:Hl; [| |done].
  - simpl. split; [done|]. intros k u. rewrite lookup_insert. case_decide; [done|apply Hw].
  - destruct (ul_closed l); [done|]. rewrite (Hw _ _ Hl), map_size_empty. simpl. split; [done|]. intros k u. rewrite lookup_insert.
    case_decide; [by intros [= <-]|apply Hw].
Qed.
Lemma start_faulty_ok fault cfgs l cb (i : LoggedImpl) : impl_ok i → sane_operation (StartOp cfgs l cb) →
  impl_ok (start_faulty open_listener fault cfgs l cb i).2.
Proof.
  intros Hi Hsane. destruct fault as [fault|]; cycle 1.
  { destruct (poisoned_ i) eqn:Hp.
    - unfold start_faulty. rewrite Hp. by destruct (running (service i)).
    - rewrite start_faultless by done. pose proof (service_start_ok open_listener ∅ cfgs l cb (service i)) as Hs.
      unfold impl_ok in Hi. rewrite Hp in Hi. specialize (Hs Hi Hsane). by destruct (TransportService.start _ _ _ _ _). }
  unfold start_faulty. destruct (running (service i)) eqn:Hr; [done|]. destruct (poisoned_ i) eqn:Hp; [done|].
  destruct (validate cfgs l) as [[]|e] eqn:Hv; [|done]. pose proof Hi as Hok. unfold impl_ok in Hok. rewrite Hp in Hok.
  pose proof (service_start_ok open_listener ∅ cfgs l cb (service i) Hok Hsane) as Hs. unfold TransportService.start in Hs.
  rewrite Hr, Hv in Hs. destruct (prepare open_listener cfgs) as [prepared|e] eqn:Ep; [|exact Hs]. clear Hs.
  destruct Hok as [T [Hw Hc]]. destruct (idle_empty _ Hw (Hc Hr)) as [Hcs _]. destruct Hsane as (Hcb & Hmax & Hmsg).
  set (w := mkWorld (mkContext l cb _ _ _ _ _) _ _).
  assert (@world_inv (mkStatic (l, cb, false) ∅) w) as Hw0.
  { apply (reconfigure_ok (K:=mkStatic T ∅) (world (service i))); try done; [by left|]. intros. by eapply prepare_listeners. }
  assert (∀ w' posted, @world_inv (mkStatic (l, cb, false) ∅) w' → impl_ok (stop_locked posted (mkImpl (mkService true w') false))) as Hstop.
  { intros w' posted Hw'. apply stop_locked_ok. by exists (l, cb, false). }
  destruct fault as [e|e posted|before e posted]; [|by apply Hstop|].
  - cbn [snd]. set (w' := foldl close_listener w prepared.*1).
    assert (@world_inv (mkStatic (l, cb, false) ∅) w') as Hw' by (apply foldl_ok; [intros; by apply close_listener_ok|done]).
    exists (limits (context w'), no_callbacks, stopping (context w')). split; [|done]. apply (reconfigure_ok (K:=mkStatic (l, cb, false) ∅) w'); [done| |apply Hw'..|by right|done].
    unfold w'. rewrite close_unstarted; [done|]. intros lid u Hu. by eapply prepare_listeners.
  - cbn [snd]. apply Hstop, report_ok, foldl_ok; [intros; by apply start_listener_ok|done].
Qed.
Lemma apply_faulty_ok (i : LoggedImpl) o : impl_ok i → sane_faulty o → impl_ok (apply_faulty iequals open_listener i o).
Proof.
  intros Hi Ho. destruct o as [fault cfgs l cb|posted|e]; [by apply start_faulty_ok|by apply stop_locked_ok|]. simpl.
  unfold impl_ok in Hi |- *. destruct (poisoned_ i) eqn:Hp; simpl; [by rewrite Hp|]. by apply (apply_ok iequals open_listener ∅ (service i) (WorkerOp e)).
Qed.
Definition initial_impl : LoggedImpl := mkImpl (initial_service []) false.
Definition reached_faulty (ops : list (FaultyOp (list HostEvent))) : LoggedImpl := runs (apply_faulty iequals open_listener) initial_impl ops.
Lemma reached_faulty_ok ops : Forall sane_faulty ops → impl_ok (reached_faulty ops).
Proof.
  intros Hops. assert (impl_ok initial_impl) as H0 by apply initial_ok. unfold reached_faulty. revert H0.
  generalize initial_impl. induction Hops as [|o ops Ho _ IH]; intros i Hi; [done|]. simpl. apply IH. by apply apply_faulty_ok.
Qed.
(** C31: Whatever fails under the transport service, it is left whole or given up. In every
    history, with worker threads that cannot be created, commands that cannot be posted and
    listeners that throw wherever the history says: a service that does not run holds no
    session, no listener and no callback; unless the emergency path was taken, every session
    the host had accepted has by then been closed to it. The emergency path ends in the
    state an ordinary stop would have reached, but tells the host nothing; after it every
    call and every start is refused or does nothing, for good. *)
Theorem transport_failures_contained ops later :
  Forall sane_faulty ops →
  let i := reached_faulty ops in
  (running (service i) = false → gone (service i)) ∧
  (running (service i) = false → poisoned_ i = false → ∀ p, EOpen p true ∈ host (context (world (service i))) →
    EClose p ∈ host (context (world (service i)))) ∧
  (running (service i) = true → stop_locked false i =
    mkImpl (mkService false (silent (host (context (world (service i)))) (world (TransportService.stop (service i))))) true) ∧
  (poisoned_ i = true → runs (apply_faulty iequals open_listener) i later = i ∧
    ∀ fault cfgs l cb, (start_faulty open_listener fault cfgs l cb i).1 = Err (txt "Transport service requires recreation after forced shutdown")).
Proof.
  intros Hops i. pose proof (reached_faulty_ok ops Hops) as Hi. fold i in Hi. unfold impl_ok in Hi. split_and!.
  - intros Hr. destruct (poisoned_ i); [done|by apply idle_gone].
  - intros Hr Hp p. rewrite Hp in Hi. destruct (idle_gone _ Hi Hr) as (_ & Hcs & _). destruct Hi as [T [Hw _]]. by apply (settled (K:=mkStatic T ∅)).
  - apply emergency_stop.
  - intros Hp. rewrite Hp in Hi. destruct Hi as [Hr _].
    assert (∀ fault cfgs l cb, start_faulty open_listener fault cfgs l cb i = (Err (txt "Transport service requires recreation after forced shutdown"), i)) as Hs.
    { intros. unfold start_faulty. by rewrite Hr, Hp. }
    split; [|intros; by rewrite Hs].
    induction later as [|o later IH]; [done|]. simpl. rewrite <- IH at 2. f_equal.
    destruct o as [fault cfgs l cb|posted|e]; simpl; [by rewrite Hs|unfold stop_locked; by rewrite Hr|by rewrite Hp].
Qed.
End Histories.

(** ** At work *)
(** A history cut short by a stop that cannot be posted: the session was opened and its
    message delivered; the host hears no more. *)
Definition cut_short : list (FaultyOp (list HostEvent)) :=
  [FStart (Some (ThreadFailed (txt "no thread"))) [demo_listener] default_limits (observing echo_policy);
   FStart (Some (ListenerThrew 1 (txt "no memory") true)) [demo_listener; demo_http] default_limits (observing echo_policy);
   FStart None [demo_listener] default_limits (observing echo_policy);
   FWorker (Accepted 7 (Ok (Some demo_client))); FWorker (TcpHeader 1 (Ok (x00, x00, x00, x02)));
   FWorker (TcpBody 1 (Ok (txt "hi"))); FStop false].
Lemma transport_failures_contained_witness :
  let i := reached_faulty ascii_iequals no_tls cut_short in
  poisoned_ i = true ∧ gone (service i) ∧
  runs (apply_faulty ascii_iequals no_tls) i [FStop true; FStart None [demo_listener] default_limits (observing echo_policy)] = i.
Proof.
  assert (Forall sane_faulty cut_short) as Hs by (repeat constructor; simpl; unfold is_u64, in_memory; try lia; eauto; vm_compute; done).
  destruct (transport_failures_contained ascii_iequals no_tls cut_short
    [FStop true; FStart None [demo_listener] default_limits (observing echo_policy)] Hs) as (Hg & _ & _ & Hp).
  assert (poisoned_ (reached_faulty ascii_iequals no_tls cut_short) = true) as E by (vm_compute; reflexivity).
  split; [exact E|]. split; [|by apply Hp]. apply Hg. vm_compute. reflexivity.
Defined.
