(* ===== verification/TransportBehaviour.v ===== *)
(** TransportBehaviour: functional behaviour of single components of the
    transport: one answer per HTTP request, the framing end to end, stale
    deadlines and the release of
    datagram peers. *)
From S2P Require Import Prelude.
From S2P Require Import Text.
From S2P Require Import NetTypes.
From S2P Require Import HttpCodec.
From S2P Require Import WorkerContext.
From S2P Require Import World.
From S2P Require Import ConnectionState.
From S2P Require Import SendQueue.
From S2P Require Import TcpConnection.
From S2P Require Import WebSocketConnection.
From S2P Require Import HttpConnection.
From S2P Require Import Udp.
From S2P Require Import TransportService.
From S2P Require Import TransportInvariant.
From S2P Require Import TransportSteps.
From S2P Require Import TransportSafety.
From S2P Require Import TransportHistory.
From S2P Require Import TransportProperties.

(** * One answer per request *)

Lemma write_response_pending (w : LoggedWorld) id m c h :
  live (write_response id m w) id c → wire c = HttpWire h → http_pending h = 0.
Proof.
  unfold write_response, update_http, with_http, touch_idle_deadline, arm_deadline, with_connection.
  destruct (objects w !! id) as [c0|] eqn:Hc.
  2: { rewrite Hc. simpl. rewrite Hc. intros [Hx _]. simpl in Hx. congruence. }
  destruct (wire c0) as [t|s|h0|u] eqn:Hw0.
  3: { simpl. rewrite !lookup_insert_eq. simpl. destruct (closed c0) eqn:Hl.
       - simpl. rewrite lookup_insert_eq. simpl. intros [Hx Hl']. simpl in Hx.
         rewrite lookup_insert_eq in Hx. simplify_eq/=. congruence.
       - simpl. rewrite !lookup_insert_eq. simpl. intros [Hx Hl']. simpl in Hx.
         rewrite lookup_insert_eq in Hx. by simplify_eq/=; intros [= <-]. }
  all: rewrite Hc; destruct (closed c0) eqn:Hl; simpl.
  all: rewrite ?Hc, ?lookup_insert_eq; simpl; rewrite ?Hw0; intros [Hx Hl'] Hwr; simpl in Hx.
  all: rewrite ?lookup_insert_eq, ?Hc in Hx; simplify_eq/=; congruence.
Qed.

(** A request whose pending slot is gone can be recorded as answered. *)
Lemma retire_ok T R (w : LoggedWorld) id r :
  @world_inv (mkStatic T R) w → issued (next_http_request_id (context w)) r → 0 < r →
  (∀ c h, live w id c → wire c = HttpWire h → http_pending h ≠ r) →
  @world_inv (mkStatic T ({[(id, r)]} ∪ R)) w.
Proof.
  intros Hw Hi Hr Hp. split; try apply Hw.
  - intros k c Hc. destruct (wo_conn _ Hw k c Hc) as [H1 H2 H3 H4]. split; try done.
    intros Hl. destruct (H3 Hl) as [Hb Ha Ho]. split; [done..|].
    destruct (wire c) eqn:Hwr; simpl in *; try done. destruct Ho as [|[Hiss Hno]]; [by left|].
    right. split; [done|]. simpl in *. rewrite elem_of_union, elem_of_singleton.
    intros [[= -> Heq]|]; [|done]. by apply (Hp c h).
  - intros k q [[= -> ->]%elem_of_singleton|Hin]%elem_of_union; [done|by apply (wo_answered _ Hw k)].
Qed.

Lemma respond_accepted iequals id rid response (s s' : Service (list HostEvent)) :
  TransportService.respond_http iequals id rid response s = (Ok tt, s') →
  running s = true ∧ ∃ c h m, live (world s) id c ∧ wire c = HttpWire h ∧ http_pending h = rid ∧
    rid ≠ 0 ∧ opened c = true ∧ s' = mkService true (write_response id m (world s)).
Proof.
  unfold TransportService.respond_http, command, respond_command, with_registered, connection_respond.
  destruct (running s); simpl; [|done]. intros Hr. split; [done|].
  repeat (casehyp; simplify_eq/=); unfold HttpConnection.respond_http in *; repeat casehyp; simplify_eq/=;
    bprop; eexists _, _, _; (split_and!; [split; [done|]| | | | |]); done.
Qed.

Section Behaviour.
Context (iequals : bytes → bytes → bool) (open_listener : ListenerConfig → result bytes unit).

(** C37: Once a response to a request has been accepted, no later response to the
    same request of that session is accepted, whatever happens in between. *)
Theorem http_answered_once ops ops' id rid r1 r2 s1 :
  Forall sane_operation ops → Forall sane_operation ops' →
  TransportService.respond_http iequals id rid r1 (reached iequals open_listener ops) = (Ok tt, s1) →
  let s2 := runs (apply iequals open_listener) s1 ops' in
  ∃ e, (TransportService.respond_http iequals id rid r2 s2).1 = Err e.
Proof.
  intros Hops Hops' Hr s2. destruct (reached_ok iequals open_listener ops Hops) as [T [Hw _]].
  destruct (respond_accepted _ _ _ _ _ _ Hr) as (_ & c & h & m & Hl & Hwr & Hp & Hne & Ho & ->).
  pose proof (live_wire _ _ _ Hw Hl) as [_ _ Hout]. rewrite Hwr in Hout. simpl in Hout.
  destruct Hout as [|[Hiss _]]; [congruence|]. rewrite Hp in Hiss.
  pose proof (write_response_ok _ id m c Hw Hl Ho) as Hw1.
  assert (next_http_request_id (context (write_response id m (world (reached iequals open_listener ops))))
    = next_http_request_id (context (world (reached iequals open_listener ops)))) as Hn.
  { unfold write_response, update_http, with_http, touch_idle_deadline, arm_deadline, with_connection.
    by repeat (casematch; simpl). }
  assert (service_ok ({[(id, rid)]} ∪ ∅)
    (mkService true (write_response id m (world (reached iequals open_listener ops))))) as Hs1.
  { exists T. split; [|done]. simpl. apply retire_ok; [done|by rewrite Hn|apply Hiss|].
    intros c' h' Hl' Hwr'. rewrite (write_response_pending _ _ _ _ _ Hl' Hwr'). congruence. }
  destruct (runs_ok iequals open_listener _ _ ops' Hs1 Hops') as [T2 [Hw2 _]]. fold s2 in Hw2.
  destruct (TransportService.respond_http iequals id rid r2 s2) as [[[]|e] s3] eqn:E; [|by exists e].
  destruct (respond_accepted _ _ _ _ _ _ E) as (_ & c2 & h2 & m2 & Hl2 & Hwr2 & Hp2 & Hne2 & _).
  pose proof (live_wire _ _ _ Hw2 Hl2) as [_ _ Hout2]. rewrite Hwr2 in Hout2. simpl in Hout2.
  destruct Hout2 as [|[_ Hno]]; [congruence|]. rewrite Hp2 in Hno. simpl in Hno. set_solver.
Qed.
End Behaviour.

(** The third request of [demo_ops] is pending on session 2. *)
Lemma http_answered_once_witness :
  ∃ s1, TransportService.respond_http ascii_iequals 2 1 default_response
      (reached ascii_iequals no_tls demo_ops) = (Ok tt, s1) ∧
    ∃ e, (TransportService.respond_http ascii_iequals 2 1 default_response
      (runs (apply ascii_iequals no_tls) s1 [WorkerOp (HttpWritten 2 None)])).1 = Err e.
Proof.
  eexists. split; [vm_compute; reflexivity|].
  refine (http_answered_once ascii_iequals no_tls demo_ops [WorkerOp (HttpWritten 2 None)]
    2 1 default_response default_response _ demo_sane _ _); [by repeat constructor|].
  vm_compute. reflexivity.
Defined.

(** * Framing, end to end *)

(** Bytes arriving on the stream: [asio::async_read] completes once its buffer is
    full, so the outstanding read takes its bytes and its handler runs. *)
Fixpoint receive_stream (fuel : nat) (id : Z) (l : bytes) (w : LoggedWorld) : bytes * LoggedWorld :=
  match fuel with
  | O => (l, w)
  | S fuel =>
      match wire <$> objects w !! id with
      | Some (TcpWire t) =>
          match tcp_phase t with
          | ReadingHeader =>
              match split_frame l with
              | Some (h, rest) => receive_stream fuel id rest (header_done id (Ok h) w)
              | None => (l, w)
              end
          | ReadingBody n =>
              if zlen l <? n then (l, w)
              else receive_stream fuel id (drop (Z.to_nat n) l)
                     (body_done id (Ok (take (Z.to_nat n) l)) w)
          | _ => (l, w)
          end
      | _ => (l, w)
      end
  end.

(** A live session waiting for a header, under a host that accepts messages. *)
Record awaiting (w : LoggedWorld) (id : Z) (p : Peer) (lim : ServiceLimits) (a : Policy) : Prop := {
  aw_object : ∃ c t, live w id c ∧ wire c = TcpWire t ∧ tcp_phase t = ReadingHeader ∧ peer c = p;
  aw_limits : limits (context w) = lim;
  aw_callbacks : callbacks (context w) = observing a;
}.

Lemma receive_header fuel id l (w : LoggedWorld) c t h r :
  objects w !! id = Some c → wire c = TcpWire t → tcp_phase t = ReadingHeader →
  split_frame l = Some (h, r) →
  receive_stream (S fuel) id l w = receive_stream fuel id r (header_done id (Ok h) w).
Proof. intros Hc Hw Hp Hs. simpl. rewrite Hc. simpl. by rewrite Hw, Hp, Hs. Qed.

Lemma receive_body fuel id m rest (w : LoggedWorld) c t :
  objects w !! id = Some c → wire c = TcpWire t → tcp_phase t = ReadingBody (zlen m) →
  receive_stream (S fuel) id (m ++ rest) w = receive_stream fuel id rest (body_done id (Ok m) w).
Proof.
  intros Hc Hw Hp. simpl. rewrite Hc. simpl. rewrite Hw, Hp, zlen_app.
  pose proof (zlen_nonneg rest). destruct (_ <? _) eqn:E; [bprop; lia|].
  assert (Z.to_nat (zlen m) = length m) as -> by (unfold zlen; lia).
  by rewrite drop_app_length, take_app_length.
Qed.

Lemma receive_frame w id p lim a m rest fuel :
  awaiting w id p lim a → (∀ log q d, message_answer a log q d = Some true) →
  zlen m ≤ max_message_bytes lim → zlen m < 2 ^ 32 →
  ∃ w', receive_stream (S (S fuel)) id (encode_frame m ++ rest) w = receive_stream fuel id rest w' ∧
    awaiting w' id p lim a ∧ host (context w') = host (context w) ++ [EMessage p m true].
Proof.
  intros [(c & t & [Hc Hl] & Hwr & Hph & Hp) Hlim Hcb] Hyes Hmax Hm32.
  destruct (split_encode_frame m rest Hm32) as (h & Hsplit & Hdec).
  assert (header_done id (Ok h) w =
    put id (with_wire (TcpWire (TcpConnection.set_phase (ReadingBody (zlen m)) t)) c) w) as Hh.
  { unfold header_done, read_body, update_tcp, with_tcp, with_connection.
    rewrite Hc, Hwr, Hph, Hl, Hdec. simpl.
    destruct (_ <? _) eqn:E; [bprop; rewrite Hlim in *; lia|]. by rewrite ?Hc, ?Hwr. }
  rewrite (receive_header _ id _ w c t h (m ++ rest)) by done. rewrite Hh.
  erewrite receive_body; [|apply lookup_insert_eq|done|done]. eexists. split; [done|].
  unfold body_done, with_tcp, with_connection. simpl. rewrite lookup_insert_eq. simpl.
  rewrite Z.eqb_refl, Hl. simpl. unfold publish_message. simpl. rewrite lookup_insert_eq. simpl.
  rewrite Hl. unfold asking, notify_message. simpl. rewrite Hcb. simpl. unfold guarded. simpl.
  rewrite Hyes. simpl. unfold touch_idle_deadline, arm_deadline, with_connection. simpl.
  rewrite lookup_insert_eq. simpl. rewrite Hl.
  unfold read_header, update_tcp, with_tcp, with_connection. simpl. rewrite lookup_insert_eq. simpl.
  split; [split; simpl; [|done|done]|by rewrite Hp].
  eexists _, _. split; [split; [simpl; apply lookup_insert_eq|done]|done].
Qed.

(** Frame after frame. *)
Lemma receive_frames messages w id p lim a :
  awaiting w id p lim a → (∀ log q d, message_answer a log q d = Some true) →
  (∀ m, m ∈ messages → zlen m ≤ max_message_bytes lim) → max_message_bytes lim < 2 ^ 32 →
  ∃ w', receive_stream (2 * length messages) id (concat (encode_frame <$> messages)) w = ([], w') ∧
    host (context w') = host (context w) ++ ((λ m, EMessage p m true) <$> messages) ∧
    awaiting w' id p lim a.
Proof.
  intros Haw Hyes Hsizes Hmax. revert w Haw. induction messages as [|m ms IH]; intros w Haw.
  - exists w. simpl. by rewrite app_nil_r.
  - replace (2 * length (m :: ms))%nat with (S (S (2 * length ms))) by (simpl; lia).
    change (concat (encode_frame <$> m :: ms)) with (encode_frame m ++ concat (encode_frame <$> ms)).
    assert (zlen m ≤ max_message_bytes lim) by (apply Hsizes; left).
    destruct (receive_frame w id p lim a m (concat (encode_frame <$> ms)) (2 * length ms))
      as (w1 & -> & Haw1 & Hlog); [done|done|done|lia|].
    destruct IH with (w := w1) as (w2 & Hr & Hlog2 & Haw2); [|done|].
    { intros m' Hm'. apply Hsizes. by right. }
    exists w2. split_and!; [done| |done]. rewrite Hlog2, Hlog. by rewrite <- app_assoc.
Qed.
(** Framing round trip: if a peer's byte stream is the concatenation of the
    frames this connection class writes for [messages], then reading it delivers
    exactly those messages to the host, in order and nothing else, consumes every
    byte, and leaves the connection waiting for the next header. *)
Theorem tcp_stream_roundtrip messages w id p lim a :
  awaiting w id p lim a → (∀ log q d, message_answer a log q d = Some true) →
  (∀ m, m ∈ messages → zlen m ≤ max_message_bytes lim) → max_message_bytes lim < 2 ^ 32 →
  ∃ w', receive_stream (2 * length messages) id (concat (encode_frame <$> messages)) w = ([], w') ∧
    host (context w') = host (context w) ++ ((λ m, EMessage p m true) <$> messages) ∧
    awaiting w' id p lim a.
Proof. apply receive_frames. Qed.

Lemma tcp_stream_roundtrip_witness :
  ∃ w', receive_stream 4 1 (encode_frame (txt "a") ++ encode_frame [] ++ [])
      (world (reached ascii_iequals no_tls demo_ops)) = ([], w').
Proof.
  destruct (tcp_stream_roundtrip [txt "a"; []] (world (reached ascii_iequals no_tls demo_ops)) 1
    (mkPeer 1 7 Tcp (txt "10.0.0.1") 40000) default_limits echo_policy) as (w' & Hw' & _).
  - split; [|by vm_compute|by vm_compute].
    eexists _, _. split; [split; [vm_compute; reflexivity|reflexivity]|done].
  - done.
  - intros m [->|[->|Hm]%elem_of_cons]%elem_of_cons; [by vm_compute|by vm_compute|].
    by apply not_elem_of_nil in Hm.
  - done.
  - exists w'. exact Hw'.
Defined.

(** * Deadlines *)

Lemma deadline_generation_after ds w id c :
  live w id c → is_u64 (deadline_generation c) →
  ∃ c', live (foldl (λ w d, arm_deadline id d w) w ds) id c' ∧
    deadline_generation c' = u64 (deadline_generation c + zlen ds).
Proof.
  revert w c. induction ds as [|d ds IH]; intros w c Hl Hg; simpl.
  - exists c. split; [done|]. rewrite zlen_nil, Z.add_0_r. by rewrite u64_small.
  - rewrite (arm_deadline_live _ _ _ c) by done.
    match goal with |- context [put id ?c0 w] => destruct (IH (put id c0 w) c0) as (c' & Hl' & Hg') end.
    + destruct Hl. split; [apply lookup_insert_eq|done].
    + apply u64_range.
    + exists c'. split; [done|]. rewrite Hg'. simpl. rewrite zlen_cons. unfold u64.
      rewrite Zplus_mod_idemp_l. f_equal. lia.
Qed.

(** A timer that was armed before later activity is stale: when it fires after
    the deadline has been refreshed, nothing happens. *)
Theorem stale_deadline_ignored w id c ds :
  live w id c → is_u64 (deadline_generation c) → 0 < zlen ds < 2 ^ 64 →
  let w' := foldl (λ w d, arm_deadline (H:=list HostEvent) id d w) w ds in
  deadline_expired id (deadline_generation c) w' = w'.
Proof.
  intros Hl Hg Hds w'. destruct (deadline_generation_after ds w id c Hl Hg) as (c' & [Hc' Hcl'] & Hg').
  fold w' in Hc'. unfold deadline_expired, with_connection. rewrite Hc', Hcl'. simpl.
  destruct (_ =? _) eqn:E; [|done]. bprop. exfalso. rewrite Hg' in E. unfold u64, is_u64 in *.
  destruct (decide (deadline_generation c + zlen ds < 2 ^ 64)).
  - rewrite Z.mod_small in E by lia. lia.
  - rewrite <- (Z.mod_unique _ (2 ^ 64) 1 (deadline_generation c + zlen ds - 2 ^ 64)) in E; lia.
Qed.

Lemma stale_deadline_ignored_witness :
  let w := world (reached ascii_iequals no_tls demo_ops) in
  let w' := foldl (λ w d, arm_deadline (H:=list HostEvent) 1 d w) w [60] in
  ∃ c, live w 1 c ∧ deadline_generation c = 3 ∧
    deadline_expired 1 (deadline_generation c) w' = w'.
Proof.
  intros w w'.
  assert (∃ c, live w 1 c ∧ deadline_generation c = 3) as (c & Hl & Hg).
  { eexists. split; [split; [vm_compute; reflexivity|reflexivity]|reflexivity]. }
  exists c. split; [exact Hl|]. split; [exact Hg|].
  refine (stale_deadline_ignored w 1 c [60] Hl _ _); [rewrite Hg; unfold is_u64; lia|].
  done.
Defined.

(** * Closing a datagram listener *)

(** Closing a datagram listener releases every peer: the loop over the routes
    terminates with the listener closed, no route left, and every session it
    routed to closed. *)
Theorem udp_close_releases_peers {K} (w : LoggedWorld) lid l :
  @world_inv K w → listeners w !! lid = Some (AUdpListener l) → ul_closed l = false →
  (∃ l', listeners (close_udp lid w) !! lid = Some (AUdpListener l') ∧
    ul_closed l' = true ∧ ul_peers l' = ∅) ∧
  ∀ endpoint id, ul_peers l !! endpoint = Some id → dead (close_udp lid w) id.
Proof.
  intros Hw Hl Hc. unfold close_udp, with_listener. rewrite Hl, Hc.
  match goal with |- context [put_listener lid (AUdpListener ?l1) w] =>
    destruct (close_peers_empty (K:=K) (size (ul_peers l)) (put_listener lid (AUdpListener l1) w) lid l1)
      as [(l' & ? & ? & ?) Hd]; [by eapply udp_flags_ok|apply lookup_insert_eq|done|] end.
  split; [by exists l'|done].
Qed.

Lemma udp_close_releases_peers_witness :
  ∃ K l, @world_inv K (world (reached ascii_iequals no_tls demo_ops)) ∧
    listeners (world (reached ascii_iequals no_tls demo_ops)) !! 9 = Some (AUdpListener l) ∧
    ul_closed l = false ∧ ul_peers l !! (txt "10.0.0.1", 40000) = Some 3 ∧
    dead (close_udp 9 (world (reached ascii_iequals no_tls demo_ops))) 3.
Proof.
  destruct (reached_ok ascii_iequals no_tls demo_ops demo_sane) as [T [Hw _]].
  eexists _, _. split; [exact Hw|]. split; [vm_compute; reflexivity|].
  split; [reflexivity|]. split; [vm_compute; reflexivity|].
  refine (proj2 (udp_close_releases_peers _ 9 _ Hw _ _) (txt "10.0.0.1", 40000) 3 _);
    [vm_compute; reflexivity|reflexivity|vm_compute; reflexivity].
Defined.
