(* ===== verification/ServerHost.v ===== *)
(** ServerHost: the host the C library owns ([src/src/Runtime/Host/ServerHost.cpp]):
    listener configuration, the life cycle Configuring, Running, Stopped, and the
    transport whose callbacks feed the event queue. The event queue is the state
    the transport's callbacks act on, so it is shared by construction. *)
From S2P Require Import Prelude.
From S2P Require Import Text.
From S2P Require Import NetTypes.
From S2P Require Import EventQueue.
From S2P Require Import WorkerContext.
From S2P Require Import World.
From S2P Require Import TransportService.
From S2P Require Import TransportHost.

Abbreviation Queue := EventQueue.EventQueue.

(** [src/src/Runtime/Host/ServerHost.h:7-11] *)
Record HostOptions := mkHostOptions {
  network : ServiceLimits;
  max_event_queue_count : Z;
  max_event_queue_bytes : Z;
}.

(** [src/src/Runtime/Host/ServerHost.h:31-31] *)
Inductive State := Configuring | Running | Stopped.
#[global] Instance State_eq_dec : EqDecision State.
Proof. solve_decision. Defined.

(** [src/src/Runtime/Host/ServerHost.h:33-39] [events_] is the state the
    transport's callbacks act on. *)
Record ServerHost := mkServerHost {
  options_ : HostOptions;
  state_ : State;
  next_listener_id_ : Z;
  listeners_ : list ListenerConfig;
  transport_ : Service Queue;
}.

Definition events_ (h : ServerHost) : Queue := host (context (world (transport_ h))).
Definition set_events (q : Queue) (s : Service Queue) : Service Queue :=
  mkService (running s) (on_context (with_host q) (world s)).

(** [src/src/Runtime/Host/ServerHost.cpp:7-10] {ServerHost} *)
Definition new_host (o : HostOptions) : ServerHost :=
  mkServerHost o Configuring 1 []
    (initial_service (EventQueue.new_queue (max_event_queue_count o) (max_event_queue_bytes o))).

(** [src/src/Runtime/Host/ServerHost.cpp:14-25] *)
Definition add_listener (config : ListenerConfig) (h : ServerHost) : result bytes Z * ServerHost :=
  if negb (bool_decide (state_ h = Configuring)) || (64 <=? zlen (listeners_ h))
  then (Err (txt "listeners can only be added before start (maximum 64)"), h)
  else
    let id := next_listener_id_ h in
    let config' := mkListenerConfig id (lc_protocol config) (lc_bind_address config)
      (lc_port config) (lc_security config) (lc_certificate_chain_file config)
      (lc_private_key_file config) (lc_websocket_path config) (lc_handshake_timeout_ms config) in
    (Ok id, mkServerHost (options_ h) (state_ h) (u64 (id + 1)) (listeners_ h ++ [config']) (transport_ h)).

(** A callback is one push; [keeps] says what a push preserves. *)
Ltac push_cases keeps :=
  repeat match goal with
  | Hq : ?P ?q |- context [EventQueue.push ?a ?k ?p ?d ?q] =>
      let Hp := fresh in pose proof (keeps a k p d q Hq) as Hp;
      destruct (EventQueue.push a k p d q); simpl in *
  end; try done; repeat casematch; done.

Section ServerHost.
(** [boost::beast::iequals]; whether copying these bytes succeeds; opening a
    listening socket. *)
Context (iequals : bytes → bytes → bool) (alloc : bytes → bool)
  (open_listener : ListenerConfig → result bytes unit).

(** [src/src/Runtime/Host/ServerHost.cpp:111-119] {callbacks} The protocol of the
    listener an error is about. *)
Definition error_peer (listeners : list ListenerConfig) (id : Z) : Peer :=
  let p := match filter (λ l, lc_id l = id) listeners with l :: _ => lc_protocol l | [] => Tcp end in
  mkPeer 0 id p [] 0.

(** [src/src/Runtime/Host/ServerHost.cpp:96-127] *)
Definition callbacks (listeners : list ListenerConfig) : TransportCallbacks Queue :=
  mkCallbacks
    (Some (λ p q, let '(b, q') := EventQueue.push (alloc []) EventQueue.Open p [] q in (Some b, q')))
    (Some (λ p d q, let '(b, q') := EventQueue.push (alloc d) EventQueue.Message p d q in (Some b, q')))
    (Some (λ p q, (EventQueue.push (alloc []) EventQueue.Close p [] q).2))
    (Some (λ id m q,
       let p := error_peer listeners id in
       if alloc m then (EventQueue.push (alloc m) EventQueue.Error p m q).2
       else (EventQueue.push (alloc []) EventQueue.Error p [] q).2))
    (Some (λ p d q, let '(b, q') := EventQueue.push (alloc d) EventQueue.HttpRequest p d q in (Some b, q'))).

(** [src/src/Runtime/Host/ServerHost.cpp:27-42] *)
Definition start (h : ServerHost) : result bytes unit * ServerHost :=
  match state_ h with
  | Running => (Ok tt, h)
  | Stopped => (Err (txt "server is stopped; create a new handle to restart"), h)
  | Configuring =>
      match TransportService.start open_listener (listeners_ h) (network (options_ h))
              (callbacks (listeners_ h)) (transport_ h) with
      | (Err e, t) => (Err e, mkServerHost (options_ h) (state_ h) (next_listener_id_ h) (listeners_ h) t)
      | (Ok _, t) => (Ok tt, mkServerHost (options_ h) Running (next_listener_id_ h) (listeners_ h) t)
      end
  end.

(** [src/src/Runtime/Host/ServerHost.cpp:44-52] *)
Definition stop (h : ServerHost) : ServerHost :=
  if bool_decide (state_ h = Stopped) then h
  else
    let t := TransportService.stop (transport_ h) in
    let t' := set_events (EventQueue.finish (host (context (world t)))) t in
    mkServerHost (options_ h) Stopped (next_listener_id_ h) (listeners_ h) t'.

Definition with_transport (h : ServerHost) (r : result bytes unit * Service Queue)
    : result bytes unit * ServerHost :=
  (r.1, mkServerHost (options_ h) (state_ h) (next_listener_id_ h) (listeners_ h) r.2).

(** [src/src/Runtime/Host/ServerHost.cpp:54-62] *)
Definition send (id : Z) (data : bytes) (h : ServerHost) : result bytes unit * ServerHost :=
  if negb (bool_decide (state_ h = Running)) || EventQueue.overflowed (events_ h)
  then (Err (txt "server is not running or its event queue overflowed"), h)
  else with_transport h (TransportService.send id data (transport_ h)).

(** [src/src/Runtime/Host/ServerHost.cpp:64-72] *)
Definition disconnect (id : Z) (h : ServerHost) : result bytes unit * ServerHost :=
  if negb (bool_decide (state_ h = Running)) then (Err (txt "server is not running"), h)
  else with_transport h (TransportService.disconnect id (transport_ h)).

(** [src/src/Runtime/Host/ServerHost.cpp:74-83] *)
Definition respond_http (session_id request_id : Z) (response : HttpResponse) (h : ServerHost)
    : result bytes unit * ServerHost :=
  if negb (bool_decide (state_ h = Running)) || EventQueue.overflowed (events_ h)
  then (Err (txt "server is not running or its event queue overflowed"), h)
  else with_transport h (TransportService.respond_http iequals session_id request_id response (transport_ h)).

(** [src/src/Runtime/Host/ServerHost.cpp:85-94] After the wait: the terminal
    event stops the server. *)
Definition poll (capacity : Z) (h : ServerHost)
    : EventQueue.PollResult * option EventQueue.Event * bytes * ServerHost :=
  let '(r, e, data, q) := EventQueue.poll capacity (events_ h) in
  let h1 := mkServerHost (options_ h) (state_ h) (next_listener_id_ h) (listeners_ h)
              (set_events q (transport_ h)) in
  let overflow := match e with
    | Some ev => bool_decide (EventQueue.kind ev = EventQueue.Overflow) | None => false end in
  (r, e, data, if bool_decide (r = EventQueue.Ready) && overflow then stop h1 else h1).

(** A completion on the transport's worker. *)
Definition worker (e : Event) (h : ServerHost) : ServerHost :=
  mkServerHost (options_ h) (state_ h) (next_listener_id_ h) (listeners_ h)
    (apply iequals open_listener (transport_ h) (WorkerOp e)).

(** Everything that can happen to a host. *)
Inductive HostOp :=
| AddListenerOp (config : ListenerConfig)
| StartHost
| StopHost
| SendOp (id : Z) (data : bytes)
| DisconnectOp (id : Z)
| RespondOp (session_id request_id : Z) (response : HttpResponse)
| PollOp (capacity : Z)
| WorkerStep (e : Event).

Definition host_step (h : ServerHost) (o : HostOp) : ServerHost :=
  match o with
  | AddListenerOp config => (add_listener config h).2
  | StartHost => (start h).2
  | StopHost => stop h
  | SendOp id data => (send id data h).2
  | DisconnectOp id => (disconnect id h).2
  | RespondOp session_id request_id response => (respond_http session_id request_id response h).2
  | PollOp capacity => (poll capacity h).2
  | WorkerStep e => worker e h
  end.

(** * The life cycle *)

(** What the host relies on: every callback leaves the queue sound, and a
    finished queue finished. *)
Definition sticky (b : bool) (q : Queue) : Prop := b = true → EventQueue.stopped q = true.

Lemma push_sticky b a k p d q : sticky b q → sticky b (EventQueue.push a k p d q).2.
Proof. unfold sticky, EventQueue.push. intros Hq Hb. rewrite (Hq Hb). by apply Hq. Qed.

#[global] Instance callbacks_sticky ls b : PreservedBy (callbacks ls) (sticky b).
Proof. split; simpl; intros f **; simplify_eq; push_cases (push_sticky b). Qed.
#[global] Instance callbacks_queue_ok ls : PreservedBy (callbacks ls) EventQueue.queue_ok.
Proof. split; simpl; intros f **; simplify_eq; push_cases EventQueue.push_queue_ok. Qed.

Definition stopped_flag (h : ServerHost) : bool := bool_decide (state_ h = Stopped).
Definition own_callbacks (t : Service Queue) : Prop :=
  in_force t = no_callbacks ∨ ∃ ls, in_force t = callbacks ls.

(** The state and the transport agree, the listeners are numbered in the order
    they were added, and the queue is sound, and finished once stopped. *)
Record host_ok (h : ServerHost) : Prop := {
  ho_running : running (transport_ h) = bool_decide (state_ h = Running);
  ho_count : zlen (listeners_ h) ≤ 64;
  ho_ids : ∀ i l, listeners_ h !! i = Some l → lc_id l = Z.of_nat i + 1;
  ho_next : next_listener_id_ h = zlen (listeners_ h) + 1;
  ho_callbacks : own_callbacks (transport_ h);
  ho_queue : EventQueue.queue_ok (events_ h);
  ho_finished : sticky (stopped_flag h) (events_ h);
}.

Lemma own_preserved t : own_callbacks t →
  PreservedBy (in_force t) EventQueue.queue_ok ∧ ∀ b, PreservedBy (in_force t) (sticky b).
Proof. intros [-> |[ls ->]]; split; intros; apply _. Qed.

(** A step of the transport that respects every property its callbacks respect
    keeps the host's invariant. *)
Lemma transport_step_ok h t :
  host_ok h → running t = running (transport_ h) → own_callbacks t →
  (∀ P, host_good P (transport_ h) → host_good P t) →
  host_ok (mkServerHost (options_ h) (state_ h) (next_listener_id_ h) (listeners_ h) t).
Proof.
  intros [Hr Hc Hi Hn Hcb Hq Hf] Hrun Hown HP. destruct (own_preserved _ Hcb) as [H1 H2].
  split; simpl; try done.
  - by rewrite Hrun.
  - by apply (HP EventQueue.queue_ok).
  - by apply (HP (sticky (stopped_flag h))).
Qed.

Lemma command_step_ok h (k : World Queue → result bytes unit * World Queue) :
  (∀ P cb lim st w, PreservedBy cb P → good P cb lim st w → good P cb lim st (k w).2) →
  host_ok h → host_ok (with_transport h (command k (transport_ h))).2.
Proof.
  intros Hk Hok. destruct (command_in_force k (transport_ h)) as [Hf Hr]; [by apply Hk|].
  apply transport_step_ok; [done|done| |].
  - unfold own_callbacks. rewrite Hf. apply Hok.
  - intros P HP. apply command_host_good; [by intros; apply Hk|done].
Qed.

Lemma new_host_ok o :
  is_u64 (max_event_queue_count o) → is_u64 (max_event_queue_bytes o) → host_ok (new_host o).
Proof. intros. split; simpl; try done; [by left|by apply EventQueue.new_queue_ok]. Qed.

Lemma add_listener_ok config h : host_ok h → host_ok (add_listener config h).2.
Proof.
  intros [Hr Hc Hi Hn Hcb Hq Hf]. unfold add_listener.
  destruct (_ || _) eqn:E; [by split|]. bprop. split; simpl; try done.
  - rewrite zlen_app, zlen_cons, zlen_nil. lia.
  - intros i l Hl. rewrite lookup_app_Some in Hl. destruct Hl as [Hl|[Hge Hl]]; [by apply Hi|].
    apply list_lookup_singleton_Some in Hl as [He <-]. simpl. rewrite Hn. unfold zlen. lia.
  - rewrite Hn, zlen_app, zlen_cons, zlen_nil. pose proof (zlen_nonneg (listeners_ h)).
    rewrite u64_small; [lia|]. unfold is_u64. lia.
Qed.

Lemma start_running cfgs l cb (s : Service Queue) :
  running s = false →
  running (TransportService.start open_listener cfgs l cb s).2 =
    match (TransportService.start open_listener cfgs l cb s).1 with Ok _ => true | Err _ => false end.
Proof. intros Hr. unfold TransportService.start. rewrite Hr. by repeat casematch. Qed.

Lemma start_ok h : host_ok h → host_ok (start h).2.
Proof.
  intros Hok. pose proof Hok as [Hr Hc Hi Hn Hcb Hq Hf]. unfold start.
  destruct (state_ h) eqn:Hs; [|done..].
  destruct (own_preserved _ Hcb) as [H1 H2].
  pose proof (start_host_good EventQueue.queue_ok open_listener (listeners_ h) (network (options_ h))
    (callbacks (listeners_ h)) (transport_ h) _ (conj H1 Hq)) as [_ Hq'].
  assert (running (transport_ h) = false) as Hr' by (by rewrite Hr).
  pose proof (start_running (listeners_ h) (network (options_ h)) (callbacks (listeners_ h)) _ Hr') as Hrun.
  pose proof (start_in_force open_listener (listeners_ h) (network (options_ h))
    (callbacks (listeners_ h)) (transport_ h)) as Hin.
  assert (own_callbacks (TransportService.start open_listener (listeners_ h) (network (options_ h))
    (callbacks (listeners_ h)) (transport_ h)).2) as Hown.
  { unfold own_callbacks. destruct Hin as [-> |[-> | ->]]; [done|eauto|by left]. }
  destruct (TransportService.start _ _ _ _ _) as [[u|e] t]; simpl in *; by split.
Qed.

Lemma stop_ok h : host_ok h → host_ok (stop h).
Proof.
  intros Hok. pose proof Hok as [Hr Hc Hi Hn Hcb Hq Hf]. unfold stop.
  destruct (bool_decide (state_ h = Stopped)) eqn:Hs; [done|].
  destruct (own_preserved _ Hcb) as [H1 H2].
  pose proof (stop_host_good EventQueue.queue_ok _ (conj H1 Hq)) as [_ Hq'].
  split; simpl; try done.
  - unfold TransportService.stop. destruct (running (transport_ h)) eqn:E; done.
  - unfold own_callbacks, in_force. simpl.
    destruct (stop_in_force (transport_ h)) as [Hin|Hin]; unfold in_force in Hin; rewrite Hin; [done|by left].
  - by apply EventQueue.finish_queue_ok.
Qed.

Lemma poll_sticky b capacity q : sticky b q → sticky b (EventQueue.poll capacity q).2.
Proof. unfold sticky, EventQueue.poll. intros Hq Hb. specialize (Hq Hb). repeat casematch; simpl; congruence. Qed.

Lemma poll_ok capacity h : host_ok h → host_ok (poll capacity h).2.
Proof.
  intros Hok. pose proof Hok as [Hr Hc Hi Hn Hcb Hq Hf]. unfold poll.
  pose proof (EventQueue.poll_queue_ok capacity _ Hq) as Hq'.
  pose proof (poll_sticky _ capacity _ Hf) as Hf'.
  destruct (EventQueue.poll capacity (events_ h)) as [[[r e] d] q]. simpl in *.
  assert (host_ok (mkServerHost (options_ h) (state_ h) (next_listener_id_ h) (listeners_ h)
    (set_events q (transport_ h)))) as Hok1 by by split.
  destruct (_ && _); [by apply stop_ok|done].
Qed.

Lemma worker_ok e h : host_ok h → host_ok (worker e h).
Proof.
  intros Hok. apply transport_step_ok; [done|done| |].
  - unfold own_callbacks. rewrite worker_in_force. apply Hok.
  - intros P. apply worker_host_good.
Qed.

Lemma host_step_ok h o : host_ok h → host_ok (host_step h o).
Proof.
  intros Hok. destruct o; simpl.
  - by apply add_listener_ok.
  - by apply start_ok.
  - by apply stop_ok.
  - unfold send. casematch; [done|]. apply command_step_ok; [|done]. intros. by apply good_send_command.
  - unfold disconnect. casematch; [done|]. apply command_step_ok; [|done]. intros. by apply good_disconnect.
  - unfold respond_http. casematch; [done|]. apply command_step_ok; [|done].
    intros. by apply good_respond_command.
  - by apply poll_ok.
  - by apply worker_ok.
Qed.

(** C11: Whatever sequence of API calls, polls and worker completions a host goes
    through, its event queue stays sound (bounded in count and bytes, exactly
    accounted, consecutively numbered), the transport runs exactly in state
    Running, the listeners are numbered 1 to n with n at most 64, and a stopped
    host has finished its queue. *)
Theorem host_invariant o ops :
  is_u64 (max_event_queue_count o) → is_u64 (max_event_queue_bytes o) →
  host_ok (runs host_step (new_host o) ops).
Proof. intros. apply runs_invariant; [intros; by apply host_step_ok|by apply new_host_ok]. Qed.

Lemma stopped_step h o : state_ h = Stopped → state_ (host_step h o) = Stopped.
Proof.
  intros Hs. destruct o; simpl; try done.
  - unfold add_listener. by rewrite Hs.
  - unfold start. by rewrite Hs.
  - unfold stop. by rewrite Hs.
  - unfold send. by rewrite Hs.
  - unfold disconnect. by rewrite Hs.
  - unfold respond_http. by rewrite Hs.
  - unfold poll. destruct (EventQueue.poll _ _) as [[[r e] d] q]. simpl.
    destruct (_ && _); [|done]. unfold stop. simpl. by rewrite Hs.
Qed.

(** C10: Stopping is terminal: once a host has stopped, whatever happens next it
    stays stopped, it refuses to start, to take listeners, to send, to
    disconnect and to answer requests, and its queue only drains: a poll never
    reports that it would wait. *)
Theorem host_stop_terminal h ops :
  host_ok h →
  let h' := runs host_step (stop h) ops in
  state_ h' = Stopped ∧ running (transport_ h') = false ∧
  (∃ e, (start h').1 = Err e) ∧ (∀ config, ∃ e, (add_listener config h').1 = Err e) ∧
  (∀ id data, ∃ e, (send id data h').1 = Err e) ∧
  (∀ id, ∃ e, (disconnect id h').1 = Err e) ∧
  (∀ id rid r, ∃ e, (respond_http id rid r h').1 = Err e) ∧
  ∀ capacity, (poll capacity h').1.1.1 ≠ EventQueue.Timeout.
Proof.
  intros Hok h'.
  assert (state_ (stop h) = Stopped) as Hs by (unfold stop; case_bool_decide; done).
  assert (state_ h' = Stopped ∧ host_ok h') as [Hs' Hok'].
  { unfold h'. apply (runs_invariant host_step (λ h, state_ h = Stopped ∧ host_ok h)).
    - intros x o [H1 H2]. split; [by apply stopped_step|by apply host_step_ok].
    - split; [done|by apply stop_ok]. }
  pose proof (ho_running _ Hok') as Hr. rewrite Hs' in Hr. simpl in Hr.
  pose proof (ho_finished _ Hok') as Hf. unfold sticky, stopped_flag in Hf. rewrite Hs' in Hf.
  specialize (Hf eq_refl).
  split_and!; [done|done|..].
  - unfold start. rewrite Hs'. eauto.
  - intros. unfold add_listener. rewrite Hs'. simpl. eauto.
  - intros. unfold send. rewrite Hs'. simpl. eauto.
  - intros. unfold disconnect. rewrite Hs'. simpl. eauto.
  - intros. unfold respond_http. rewrite Hs'. simpl. eauto.
  - intros capacity. unfold poll, EventQueue.poll. rewrite Hf.
    by repeat (casematch; simpl; simplify_eq/=).
Qed.
End ServerHost.

Definition demo_options : HostOptions := mkHostOptions default_limits 16 1024.

Lemma host_invariant_witness :
  is_u64 16 ∧ is_u64 1024 ∧
  host_ok (λ _, true) (runs (host_step (λ _ _, false) (λ _, true) (λ _, Ok tt)) (new_host demo_options)
    [AddListenerOp (mkListenerConfig 0 Tcp (txt "127.0.0.1") 9000 NoSecurity [] [] (txt "/") 10000);
     StartHost; WorkerStep (Accepted 1 (Ok (Some (txt "h", 1)))); PollOp 0; StopHost]).
Proof.
  split; [unfold is_u64; lia|]. split; [unfold is_u64; lia|].
  apply (host_invariant (λ _ _, false) (λ _, true) (λ _, Ok tt) demo_options);
    unfold is_u64; simpl; lia.
Defined.

Lemma host_stop_terminal_witness :
  host_ok (λ _, true) (new_host demo_options) ∧
  (poll 0 (stop (new_host demo_options))).1.1.1 ≠ EventQueue.Timeout.
Proof.
  assert (host_ok (λ _, true) (new_host demo_options)) as H
    by (apply new_host_ok; unfold is_u64; simpl; lia).
  split; [exact H|].
  apply (host_stop_terminal (λ _ _, false) (λ _, true) (λ _, Ok tt) (new_host demo_options) [] H).
Defined.
