(* ===== verification/Abi.v ===== *)
(** Abi: the C entry points of the network service ([src/src/Abi/Boundary.h],
    [Options.cpp], [HandleRegistry.cpp], [Lifecycle.cpp], [Messaging.cpp],
    [Http.cpp]). A NULL pointer is [None]; a C string is the bytes before its
    terminator; a caller's struct is a record with its header fields. Each entry
    point returns its status, the error record it fills, its outputs and the
    registry. Sizes of structs are those of the 64-bit layout. *)
From S2P Require Import Prelude.
From S2P Require Import Text.
From S2P Require Import NetTypes.
From S2P Require Import HttpCodec.
From S2P Require Import EventQueue.
From S2P Require Import TransportService.
From S2P Require Import Configuration.
From S2P Require Import ServerHost.

(** [src/include/ServerEngine/C/ServerEngine.h:27-27] *)
Definition SE_ABI_VERSION : Z := 65536.
(** [src/include/ServerEngine/C/ServerEngine.h:45-56] *)
Definition SE_PROTOCOL_TCP : Z := 1.
Definition SE_PROTOCOL_UDP : Z := 2.
Definition SE_PROTOCOL_HTTP : Z := 4.
Definition SE_SECURITY_NONE : Z := 0.
Definition SE_SECURITY_TLS : Z := 1.

(** * Boundary *)
(** [src/include/ServerEngine/C/ServerEngine.h:59-62] *)
Record se_error := mkError { error_code : Z; message : bytes }.
Definition no_error : se_error := mkError 0 [].

(** [src/src/Abi/Boundary.h:12-23] The text is truncated to the record's 252
    bytes, terminator included. *)
Definition fail (code : se_status) (text : bytes) : se_status * se_error :=
  (code, mkError (status_code code) (take 251 text)).

Definition ok : se_status * se_error := (SE_OK, no_error).

(** [src/src/Abi/Boundary.h:26-39] A thrown exception becomes an internal error. *)
Definition protect {A} (default : A) (r : result bytes (se_status * se_error * A))
    : se_status * se_error * A :=
  match r with Ok x => x | Err what => (fail SE_INTERNAL_ERROR what, default) end.

(** * Options *)
(** [src/include/ServerEngine/C/ServerEngine.h:64-74] *)
Record se_server_options := mkServerOptions {
  so_struct_size : Z; so_abi_version : Z;
  so_max_connections : Z; so_max_message_bytes : Z; so_max_send_queue_bytes : Z;
  so_max_event_queue_count : Z; so_max_event_queue_bytes : Z; so_idle_timeout_ms : Z;
  so_reserved : list Z;
}.
(** [src/include/ServerEngine/C/ServerEngine.h:76-88] *)
Record se_listener_options := mkListenerOptions {
  lo_struct_size : Z; lo_abi_version : Z;
  lo_protocol : Z; lo_security : Z; lo_port : Z; lo_handshake_timeout_ms : Z;
  lo_bind_address : option bytes; lo_certificate_chain_file : option bytes;
  lo_private_key_file : option bytes; lo_websocket_path : option bytes;
  lo_reserved : list Z;
}.
(** [src/include/ServerEngine/C/ServerEngine.h:90-101] *)
Record se_event := mkSeEvent {
  se_struct_size : Z; se_abi_version : Z; se_kind : Z; se_protocol : Z;
  se_session_id : Z; se_listener_id : Z; se_sequence : Z; se_payload_size : Z;
  se_peer_port : Z; se_peer_address : bytes;
}.
Definition sizeof_server_options : Z := 72.
Definition sizeof_listener_options : Z := 88.
Definition sizeof_event : Z := 112.

(** [src/src/Abi/Options.cpp:9-15] *)
Definition valid_header (size expected version : Z) (reserved : list Z) : bool :=
  (size =? expected) && (version =? SE_ABI_VERSION) && forallb (λ v, v =? 0) reserved.

(** [src/src/Abi/Options.cpp:17-20] *)
Definition text_or (text : option bytes) (fallback : bytes) : bytes :=
  match text with Some t => t | None => fallback end.

(** [src/src/Abi/Options.cpp:24-48] {decode} *)
Definition decode_server (source : option se_server_options) : result bytes HostOptions :=
  match source with
  | None => Err (txt "invalid options size/version/reserved; use se_server_options_init")
  | Some s =>
      if negb (valid_header (so_struct_size s) sizeof_server_options (so_abi_version s) (so_reserved s))
      then Err (txt "invalid options size/version/reserved; use se_server_options_init")
      else if (so_max_connections s =? 0) || (1000000 <? so_max_connections s)
        || (so_max_message_bytes s =? 0) || (16 * 1024 * 1024 <? so_max_message_bytes s)
        || (so_max_send_queue_bytes s <? u32 (so_max_message_bytes s + 16))
        || (256 * 1024 * 1024 <? so_max_send_queue_bytes s)
        || (so_max_event_queue_count s =? 0) || (1000000 <? so_max_event_queue_count s)
        || (so_max_event_queue_bytes s <? so_max_message_bytes s)
        || (1073741824 <? so_max_event_queue_bytes s)
        || (so_idle_timeout_ms s <? 100) || (86400000 <? so_idle_timeout_ms s)
      then Err (txt "limits outside supported range (message <=16MiB, idle 100ms..24h, queues bounded)")
      else Ok (mkHostOptions
        (mkServiceLimits (worker_threads default_limits) (so_max_connections s)
           (so_max_message_bytes s) (so_max_send_queue_bytes s) (so_idle_timeout_ms s))
        (so_max_event_queue_count s) (so_max_event_queue_bytes s))
  end.

(** [src/src/Abi/Options.cpp:50-85] {decode} *)
Definition decode_listener (source : option se_listener_options) : result bytes ListenerConfig :=
  match source with
  | None => Err (txt "invalid listener size/version/reserved; use se_listener_options_init")
  | Some s =>
      if negb (valid_header (lo_struct_size s) sizeof_listener_options (lo_abi_version s) (lo_reserved s))
      then Err (txt "invalid listener size/version/reserved; use se_listener_options_init")
      else if (lo_protocol s <? SE_PROTOCOL_TCP) || (SE_PROTOCOL_HTTP <? lo_protocol s)
        || (SE_SECURITY_TLS <? lo_security s) || (lo_port s =? 0) || (65535 <? lo_port s)
        || (lo_handshake_timeout_ms s <? 100) || (300000 <? lo_handshake_timeout_ms s)
      then Err (txt "invalid protocol/security/port/handshake timeout")
      else if (lo_protocol s =? SE_PROTOCOL_UDP) && negb (lo_security s =? SE_SECURITY_NONE)
      then Err (txt "TLS cannot secure UDP; DTLS is not implemented. Select explicit plaintext UDP or use TLS/WSS")
      else
        let c := mkListenerConfig (lc_id default_listener) (protocol_of (lo_protocol s))
          (text_or (lo_bind_address s) (txt "127.0.0.1")) (u16 (lo_port s))
          (security_of (lo_security s)) (text_or (lo_certificate_chain_file s) [])
          (text_or (lo_private_key_file s) []) (text_or (lo_websocket_path s) (txt "/"))
          (lo_handshake_timeout_ms s) in
        if bool_decide (lc_security c = Tls)
           && (bool_decide (lc_certificate_chain_file c = []) || bool_decide (lc_private_key_file c = []))
        then Err (txt "TLS listener requires certificate_chain_file and private_key_file")
        else if (64 <? zlen (lc_bind_address c)) || negb (bool_decide (head (lc_websocket_path c) = Some x2f))
                || (2048 <? zlen (lc_websocket_path c))
        then Err (txt "invalid bind address or WebSocket path")
        else Ok c
  end.

(** [src/src/Abi/Lifecycle.cpp:9-22] *)
Definition se_server_options_init : se_server_options :=
  mkServerOptions sizeof_server_options SE_ABI_VERSION 4096 65536 (1024 * 1024) 8192
    (16 * 1024 * 1024) 300000 [0; 0; 0; 0].
(** [src/src/Abi/Lifecycle.cpp:24-34] *)
Definition se_listener_options_init : se_listener_options :=
  mkListenerOptions sizeof_listener_options SE_ABI_VERSION SE_PROTOCOL_TCP SE_SECURITY_TLS 0 10000
    None None None None [0; 0; 0; 0].
(** [src/src/Abi/Lifecycle.cpp:36-43] *)
Definition se_event_init : se_event := mkSeEvent sizeof_event SE_ABI_VERSION 0 0 0 0 0 0 0 [].

(** * The handle registry *)
(** [src/src/Abi/HandleRegistry.cpp:10-14] *)
Record Registry := mkRegistry { next_handle : Z; hosts : gmap Z ServerHost }.
Definition empty_registry : Registry := mkRegistry 1 ∅.

(** [src/src/Abi/HandleRegistry.cpp:24-35] The error is the thrown exception. *)
Definition register_host (h : ServerHost) (r : Registry) : result bytes (Z * Registry) :=
  if 72057594037927935 <? next_handle r then Err (txt "server handle space exhausted")
  else Ok (next_handle r, mkRegistry (u64 (next_handle r + 1)) (<[next_handle r := h]> (hosts r))).
(** [src/src/Abi/HandleRegistry.cpp:37-43] *)
Definition find_host (handle : Z) (r : Registry) : option ServerHost := hosts r !! handle.
(** [src/src/Abi/HandleRegistry.cpp:45-56] *)
Definition remove_host (handle : Z) (r : Registry) : option ServerHost * Registry :=
  match hosts r !! handle with
  | None => (None, r)
  | Some h => (Some h, mkRegistry (next_handle r) (delete handle (hosts r)))
  end.
(** A call on a shared host updates the object the registry points to. *)
Definition update_host (handle : Z) (h : ServerHost) (r : Registry) : Registry :=
  mkRegistry (next_handle r) (<[handle := h]> (hosts r)).

(** * HTTP *)
(** [src/include/ServerEngine/C/Http.h:42-53] *)
Record se_http_response := mkSeResponse {
  sr_struct_size : Z; sr_abi_version : Z; sr_status_code : Z; sr_close_connection : Z;
  sr_content_type : option bytes; sr_headers : option (list (option bytes * option bytes));
  sr_header_count : Z; sr_body_size : Z; sr_body : option bytes; sr_reserved : list Z;
}.
Definition sizeof_http_response : Z := 72.

(** [src/src/Abi/Http.cpp:15-23] *)
Definition copy_text (source : option bytes) (maximum : Z) : option bytes :=
  match source with
  | None => None
  | Some s => if maximum <? zlen s then None else Some s
  end.

(** [src/src/Abi/Http.cpp:86-93] *)
Definition se_http_response_init : se_http_response :=
  mkSeResponse sizeof_http_response SE_ABI_VERSION 200 0 None None 0 0 None [0; 0; 0; 0].

(** [src/src/Abi/Http.cpp:43-56] {decode_response} The loop over the headers. *)
Fixpoint decode_headers (source : list (option bytes * option bytes)) (header_bytes : Z)
    : result bytes (list HttpHeader) :=
  match source with
  | [] => Ok []
  | (n, v) :: rest =>
      match copy_text n 128, copy_text v 8192 with
      | Some name, Some value =>
          let header_bytes' := header_bytes + zlen name + zlen value + 4 in
          check? negb (http_header_limit <? header_bytes')
            or txt "HTTP response headers exceed 16 KiB" in
          let? others := decode_headers rest header_bytes' in
          Ok (mkHttpHeader name value :: others)
      | _, _ => Err (txt "Invalid HTTP header string or length")
      end
  end.

Section Abi.
Context (iequals : bytes → bytes → bool) (alloc : bytes → bool)
  (open_listener : ListenerConfig → result bytes unit).

(** [src/src/Abi/Http.cpp:25-59] *)
Definition decode_response (source : option se_http_response) (body_limit : Z)
    : result bytes HttpResponse :=
  match source with
  | None => Err (txt "Invalid HTTP response size/version/reserved, pointer, or body/header limit")
  | Some s =>
      check? valid_header (sr_struct_size s) sizeof_http_response (sr_abi_version s) (sr_reserved s)
             && (sr_close_connection s <=? 1) && (sr_header_count s <=? 64)
             && negb (negb (sr_header_count s =? 0) && bool_decide (sr_headers s = None))
             && negb (negb (sr_body_size s =? 0) && bool_decide (sr_body s = None))
             && (sr_body_size s <=? body_limit)
        or txt "Invalid HTTP response size/version/reserved, pointer, or body/header limit" in
      let? ctype := (match sr_content_type s with
        | None => Ok (content_type default_response)
        | Some t => match copy_text (Some t) 1024 with
            | Some t' => Ok t' | None => Err (txt "HTTP content type exceeds 1024 bytes") end
        end) in
      let fields := match sr_headers s with
        | Some l => take (Z.to_nat (sr_header_count s)) l | None => [] end in
      let? decoded := decode_headers fields (256 + zlen ctype) in
      let content := match sr_body s with
        | Some d => take (Z.to_nat (sr_body_size s)) d | None => [] end in
      let response := mkHttpResponse (sr_status_code s) (negb (sr_close_connection s =? 0)) ctype decoded content in
      let? _ := validate_http_response iequals response body_limit in
      Ok response
  end.

(** [src/src/Abi/Http.cpp:63-84] *)
Definition se_http_request_read (payload : option bytes) (request : bool)
    : se_status * se_error * option HttpRequestView :=
  match decode_http_request payload with
  | Some view => if request then (ok, Some view)
                 else (fail SE_INVALID_ARGUMENT (txt "Invalid HTTP request event payload"), None)
  | None => (fail SE_INVALID_ARGUMENT (txt "Invalid HTTP request event payload"), None)
  end.

(** The status of a host operation that reports by message. *)
Definition report (code : se_status) (r : result bytes unit) : se_status * se_error :=
  match r with Ok _ => ok | Err detail => fail code detail end.

Definition unknown : se_status * se_error := fail SE_INVALID_HANDLE (txt "unknown server handle").

(** [src/src/Abi/Http.cpp:95-112] *)
Definition se_http_respond (server session_id request_id : Z) (response : option se_http_response)
    (r : Registry) : se_status * se_error * Registry :=
  if (session_id =? 0) || (request_id =? 0)
  then (fail SE_INVALID_ARGUMENT (txt "HTTP session and request IDs must be nonzero"), r)
  else match find_host server r with
  | None => (fail SE_INVALID_HANDLE (txt "Unknown server handle"), r)
  | Some h =>
      if overflowed (events_ h)
      then (fail SE_BACKPRESSURE (txt "Event queue overflowed; recreate server"), r)
      else match decode_response response (max_message_bytes (network (options_ h))) with
      | Err detail => (fail SE_INVALID_ARGUMENT detail, r)
      | Ok decoded =>
          let '(res, h') := ServerHost.respond_http iequals session_id request_id decoded h in
          (report SE_IO_ERROR res, update_host server h' r)
      end
  end.

(** * Life cycle *)
(** [src/src/Abi/Lifecycle.cpp:45-60] [server] tells whether the output pointer
    is set; the second output is the handle stored there. *)
Definition se_server_create (options : option se_server_options) (server : bool) (r : Registry)
    : se_status * se_error * (Z * Registry) :=
  protect (0, r)
    (if negb server then Ok (fail SE_INVALID_ARGUMENT (txt "output server handle is null"), (0, r))
     else match decode_server options with
     | Err detail => Ok (fail SE_INVALID_ARGUMENT detail, (0, r))
     | Ok decoded => let? p := register_host (new_host decoded) r in Ok (ok, p)
     end).

(** [src/src/Abi/Lifecycle.cpp:62-84] *)
Definition se_server_add_listener (server : Z) (options : option se_listener_options)
    (listener_id : bool) (r : Registry) : se_status * se_error * (Z * Registry) :=
  if negb listener_id then (fail SE_INVALID_ARGUMENT (txt "output listener ID is null"), (0, r))
  else match find_host server r with
  | None => (unknown, (0, r))
  | Some h =>
      match decode_listener options with
      | Err detail => (fail SE_INVALID_ARGUMENT detail, (0, r))
      | Ok decoded =>
          match ServerHost.add_listener decoded h with
          | (Err detail, h') => (fail SE_INVALID_STATE detail, (0, update_host server h' r))
          | (Ok id, h') => (ok, (id, update_host server h' r))
          end
      end
  end.

(** [src/src/Abi/Lifecycle.cpp:86-96] *)
Definition se_server_start (server : Z) (r : Registry) : se_status * se_error * Registry :=
  match find_host server r with
  | None => (unknown, r)
  | Some h =>
      let '(res, h') := ServerHost.start alloc open_listener h in
      (report SE_IO_ERROR res, update_host server h' r)
  end.

(** [src/src/Abi/Lifecycle.cpp:98-108] *)
Definition se_server_stop (server : Z) (r : Registry) : se_status * se_error * Registry :=
  match find_host server r with
  | None => (unknown, r)
  | Some h => (ok, update_host server (ServerHost.stop h) r)
  end.

(** [src/src/Abi/Lifecycle.cpp:110-120] The host is stopped and released. *)
Definition se_server_destroy (server : Z) (r : Registry) : se_status * se_error * Registry :=
  match remove_host server r with
  | (None, r') => (unknown, r')
  | (Some _, r') => (ok, r')
  end.

(** * Messaging *)
(** [src/src/Abi/Messaging.cpp:6-27] *)
Definition se_server_send (server session_id : Z) (data : option bytes) (size : Z) (r : Registry)
    : se_status * se_error * Registry :=
  if (bool_decide (data = None) && negb (size =? 0)) || (session_id =? 0)
  then (fail SE_INVALID_ARGUMENT (txt "invalid message pointer or session ID"), r)
  else match find_host server r with
  | None => (unknown, r)
  | Some h =>
      if max_message_bytes (network (options_ h)) <? size
      then (fail SE_INVALID_ARGUMENT (txt "message exceeds configured limit"), r)
      else if overflowed (events_ h)
      then (fail SE_BACKPRESSURE (txt "event queue overflowed; poll terminal event and recreate server"), r)
      else
        let buffer := match data with Some d => take (Z.to_nat size) d | None => [] end in
        let '(res, h') := ServerHost.send session_id buffer h in
        (report SE_IO_ERROR res, update_host server h' r)
  end.

(** [src/src/Abi/Messaging.cpp:29-39] *)
Definition se_server_disconnect (server session_id : Z) (r : Registry)
    : se_status * se_error * Registry :=
  match find_host server r with
  | None => (unknown, r)
  | Some h =>
      let '(res, h') := ServerHost.disconnect session_id h in
      (report SE_IO_ERROR res, update_host server h' r)
  end.

(** [src/src/Abi/Messaging.cpp:61-70] {se_server_poll_event} *)
Definition fill_event (next : EventQueue.Event) : se_event :=
  let p := EventQueue.peer next in
  mkSeEvent (se_struct_size se_event_init) (se_abi_version se_event_init)
    (event_code (EventQueue.kind next)) (protocol_code (protocol p)) (session_id p) (listener_id p)
    (EventQueue.sequence next) (u32 (EventQueue.payload_size next)) (port p) (take 63 (address p)).

(** [src/src/Abi/Messaging.cpp:41-73] [event] is the header of the caller's
    record; [payload] tells whether the buffer pointer is set. The outputs are
    the event stored and the bytes copied. *)
Definition se_server_poll_event (server : Z) (event : option (Z * Z)) (payload : bool) (capacity : Z)
    (r : Registry) : se_status * se_error * (option se_event * bytes * Registry) :=
  let invalid := (fail SE_INVALID_ARGUMENT (txt "invalid event header or payload buffer"), (None, [], r)) in
  match event with
  | None => invalid
  | Some (struct_size, abi_version) =>
      if negb (struct_size =? sizeof_event) || negb (abi_version =? SE_ABI_VERSION)
         || (negb payload && negb (capacity =? 0)) then invalid
      else match find_host server r with
      | None => (unknown, (None, [], r))
      | Some h =>
          let '(res, next, data, h') := ServerHost.poll capacity h in
          let r' := update_host server h' r in
          match res with
          | Timeout => (SE_TIMEOUT, no_error, (None, [], r'))
          | EventQueue.Stopped => (SE_STOPPED, no_error, (None, [], r'))
          | BufferTooSmall => (SE_BUFFER_TOO_SMALL, no_error, (fill_event <$> next, data, r'))
          | Ready => (ok, (fill_event <$> next, data, r'))
          end
      end
  end.

(** * Histories of calls *)
Inductive AbiCall :=
| CreateCall (options : option se_server_options) (server : bool)
| AddListenerCall (server : Z) (options : option se_listener_options) (listener_id : bool)
| StartCall (server : Z)
| StopCall (server : Z)
| DestroyCall (server : Z)
| SendCall (server session_id : Z) (data : option bytes) (size : Z)
| DisconnectCall (server session_id : Z)
| PollCall (server : Z) (event : option (Z * Z)) (payload : bool) (capacity : Z)
| RespondCall (server session_id request_id : Z) (response : option se_http_response)
| WorkerOf (server : Z) (e : TransportService.Event).

(** One call, or one completion on the worker of a host that is still alive. *)
Definition abi_call (r : Registry) (c : AbiCall) : se_status * se_error * Registry :=
  match c with
  | CreateCall options server =>
      let '(s, (_, r')) := se_server_create options server r in (s, r')
  | AddListenerCall server options listener_id =>
      let '(s, (_, r')) := se_server_add_listener server options listener_id r in (s, r')
  | StartCall server => se_server_start server r
  | StopCall server => se_server_stop server r
  | DestroyCall server => se_server_destroy server r
  | SendCall server session_id data size => se_server_send server session_id data size r
  | DisconnectCall server session_id => se_server_disconnect server session_id r
  | PollCall server event payload capacity =>
      let '(s, (_, _, r')) := se_server_poll_event server event payload capacity r in (s, r')
  | RespondCall server session_id request_id response =>
      se_http_respond server session_id request_id response r
  | WorkerOf server e =>
      match find_host server r with
      | None => (ok, r)
      | Some h => (ok, update_host server (ServerHost.worker iequals open_listener e h) r)
      end
  end.
Definition abi_step (r : Registry) (c : AbiCall) : Registry := (abi_call r c).2.

(** Handles are issued once, in order, and keep the upper byte zero. *)
Record registry_ok (r : Registry) : Prop := {
  rg_next : 1 ≤ next_handle r ≤ 2 ^ 56;
  rg_issued : ∀ k h, hosts r !! k = Some h → 0 < k < next_handle r;
}.

Lemma empty_registry_ok : registry_ok empty_registry.
Proof. split; simpl; [lia|]. intros k h. by rewrite lookup_empty. Qed.

(** What a call may do to the registry: add the next handle, drop or update one. *)
Inductive registry_change (r : Registry) : Registry → Prop :=
| rc_same : registry_change r r
| rc_update k h0 h : hosts r !! k = Some h0 → registry_change r (update_host k h r)
| rc_drop k : registry_change r (mkRegistry (next_handle r) (delete k (hosts r)))
| rc_add h : next_handle r < 2 ^ 56 →
    registry_change r (mkRegistry (u64 (next_handle r + 1)) (<[next_handle r := h]> (hosts r))).

Lemma abi_step_change r c : registry_change r (abi_step r c).
Proof.
  unfold abi_step. destruct c; simpl.
  - unfold se_server_create, protect, register_host.
    repeat (casematch; simpl in *; simplify_eq/=); try apply rc_same; bprop.
    all: repeat casehyp; simplify_eq/=; try apply rc_same; bprop; apply rc_add; lia.
  - unfold se_server_add_listener, find_host. repeat (casematch; simpl in *; simplify_eq/=); eauto using registry_change.
  - unfold se_server_start, find_host. repeat (casematch; simpl in *; simplify_eq/=); eauto using registry_change.
  - unfold se_server_stop, find_host. repeat (casematch; simpl in *; simplify_eq/=); eauto using registry_change.
  - unfold se_server_destroy, remove_host. repeat (casematch; simpl in *; simplify_eq/=); eauto using registry_change.
  - unfold se_server_send, find_host. repeat (casematch; simpl in *; simplify_eq/=); eauto using registry_change.
  - unfold se_server_disconnect, find_host. repeat (casematch; simpl in *; simplify_eq/=); eauto using registry_change.
  - unfold se_server_poll_event, find_host. repeat (casematch; simpl in *; simplify_eq/=); eauto using registry_change.
  - unfold se_http_respond, find_host. repeat (casematch; simpl in *; simplify_eq/=); eauto using registry_change.
  - unfold find_host. repeat (casematch; simpl in *; simplify_eq/=); eauto using registry_change.
Qed.

Lemma registry_change_ok r r' : registry_ok r → registry_change r r' → registry_ok r'.
Proof.
  intros [Hn Hi] []; split; simpl; try done.
  - intros j x. rewrite lookup_insert. case_decide; [|by apply Hi]. subst. intros _. by eapply Hi.
  - intros j x [_ Hx]%lookup_delete_Some. by eapply Hi.
  - rewrite u64_small by (unfold is_u64; lia). lia.
  - rewrite u64_small by (unfold is_u64; lia). intros j x. rewrite lookup_insert.
    case_decide; [lia|]. intros Hx. specialize (Hi _ _ Hx). lia.
Qed.

Lemma registry_change_gone r r' k :
  registry_ok r → registry_change r r' → k < next_handle r → hosts r !! k = None →
  k < next_handle r' ∧ hosts r' !! k = None.
Proof.
  intros [Hn Hi] [] Hk Hg; simpl; try done.
  - split; [done|]. rewrite lookup_insert_ne; [done|]. intros ->. congruence.
  - split; [done|]. by apply lookup_delete_None; right.
  - rewrite u64_small by (unfold is_u64; lia). split; [lia|]. rewrite lookup_insert_ne; [done|lia].
Qed.

(** A destroyed handle is dead for good: whatever calls follow, no call ever
    issues the number again, and starting, stopping, destroying, sending,
    disconnecting and polling through it report an invalid handle. *)
Theorem destroyed_handle_stays_dead calls calls' server :
  let r := runs abi_step empty_registry calls in
  (se_server_destroy server r).1.1 = SE_OK →
  let r' := runs abi_step (se_server_destroy server r).2 calls' in
  find_host server r' = None ∧
  (se_server_start server r').1.1 = SE_INVALID_HANDLE ∧
  (se_server_stop server r').1.1 = SE_INVALID_HANDLE ∧
  (se_server_destroy server r').1.1 = SE_INVALID_HANDLE ∧
  (∀ session, (se_server_disconnect server session r').1.1 = SE_INVALID_HANDLE) ∧
  (∀ session data, session ≠ 0 →
     (se_server_send server session (Some data) (zlen data) r').1.1 = SE_INVALID_HANDLE) ∧
  ∀ capacity, (se_server_poll_event server (Some (sizeof_event, SE_ABI_VERSION)) true capacity r').1.1
    = SE_INVALID_HANDLE.
Proof.
  intros r Hd r'.
  assert (registry_ok r) as Hr.
  { apply runs_invariant; [|apply empty_registry_ok].
    intros x c Hx. by eapply registry_change_ok, abi_step_change. }
  assert (find_host server r' = None) as Hgone.
  { unfold se_server_destroy, remove_host in *. destruct (hosts r !! server) as [h|] eqn:Eh; [|done].
    simpl in r'. pose proof (rg_issued _ Hr _ _ Eh) as Hlt.
    set (r0 := mkRegistry (next_handle r) (delete server (hosts r))) in *.
    assert (registry_ok r' ∧ server < next_handle r' ∧ hosts r' !! server = None) as (_ & _ & Hx);
      [|exact Hx].
    unfold r'. apply (runs_invariant abi_step
      (λ x, registry_ok x ∧ server < next_handle x ∧ hosts x !! server = None)).
    - intros x c (H1 & H2 & H3). pose proof (abi_step_change x c) as Hc.
      split; [by eapply registry_change_ok|by eapply registry_change_gone].
    - split; [|split; [simpl; lia|apply lookup_delete_eq]].
      by eapply registry_change_ok, rc_drop. }
  split; [done|]. unfold se_server_start, se_server_stop, se_server_destroy, remove_host,
    se_server_disconnect, se_server_send, se_server_poll_event.
  change (hosts r' !! server) with (find_host server r'). rewrite Hgone.
  split_and!; try done. intros session data Hs. apply Z.eqb_neq in Hs. rewrite Hs. by simpl.
Qed.

(** The error record agrees with the status, and its text fits. *)
Definition agrees (s : se_status * se_error) : Prop :=
  error_code s.2 = (if status_code s.1 <? 0 then status_code s.1 else 0) ∧
  zlen (message s.2) ≤ 251.

Lemma fail_agrees code text : status_code code < 0 → agrees (fail code text).
Proof.
  intros Hneg. apply Z.ltb_lt in Hneg. unfold agrees. simpl. rewrite Hneg. split; [done|].
  unfold zlen. rewrite length_take. lia.
Qed.
Lemma report_agrees code res : status_code code < 0 → agrees (report code res).
Proof. intros. destruct res; [done|by apply fail_agrees]. Qed.
Lemma protect_agrees {A} (d : A) r :
  (∀ x, r = Ok x → agrees x.1) → agrees (protect d r).1.
Proof. intros Hr. destruct r; simpl; [by apply Hr|by apply fail_agrees]. Qed.

(** Every entry point reports consistently: the error record carries the
    status when the call failed and is cleared when it did not, and its text
    always fits the record with its terminator. *)
Theorem abi_errors_agree r c :
  let s := (abi_call r c).1 in
  error_code s.2 = (if status_code s.1 <? 0 then status_code s.1 else 0) ∧
  zlen (message s.2) ≤ 251.
Proof.
  change (agrees (abi_call r c).1). destruct c; simpl.
  - destruct (se_server_create options server r) as [s [h r']] eqn:E. simpl.
    replace s with (se_server_create options server r).1 by (by rewrite E).
    apply protect_agrees. intros x Hx. unfold register_host in Hx.
    repeat (casehyp; simplify_eq/=); try done; by apply fail_agrees.
  - unfold se_server_add_listener. repeat (casematch; simpl; try by apply fail_agrees); done.
  - unfold se_server_start. repeat (casematch; simpl; try by apply fail_agrees); by apply report_agrees.
  - unfold se_server_stop. repeat (casematch; simpl; try by apply fail_agrees); done.
  - unfold se_server_destroy. repeat (casematch; simpl; try by apply fail_agrees); done.
  - unfold se_server_send. repeat (casematch; simpl; try by apply fail_agrees); by apply report_agrees.
  - unfold se_server_disconnect. repeat (casematch; simpl; try by apply fail_agrees); by apply report_agrees.
  - unfold se_server_poll_event. repeat (casematch; simpl; try by apply fail_agrees); done.
  - unfold se_http_respond. repeat (casematch; simpl; try by apply fail_agrees); by apply report_agrees.
  - by casematch.
Qed.
End Abi.

(** * Decoded options satisfy the transport *)

(** A C struct as a caller can build it: 32-bit fields and C strings, which hold
    no NUL; the bind address is not the empty string. *)
Record c_listener (lo : se_listener_options) : Prop := {
  cl_security : is_u32 (lo_security lo);
  cl_port : is_u32 (lo_port lo);
  cl_address : lo_bind_address lo ≠ Some [] ∧ ∀ s, lo_bind_address lo = Some s → x00 ∉ s;
  cl_path : ∀ s, lo_websocket_path lo = Some s → x00 ∉ s;
}.

Record c_server (so : se_server_options) : Prop := {
  cs_message : is_u32 (so_max_message_bytes so);
  cs_count : is_u32 (so_max_event_queue_count so);
  cs_bytes : is_u64 (so_max_event_queue_bytes so);
}.

Lemma text_or_clean t fallback :
  (∀ s, t = Some s → x00 ∉ s) → x00 ∉ fallback → x00 ∉ text_or t fallback.
Proof. intros Ht Hf. destruct t; simpl; auto. Qed.

(** What decoding a listener guarantees. *)
Lemma decode_listener_valid lo c :
  decode_listener (Some lo) = Ok c → c_listener lo → listener_ok c.
Proof.
  intros Hd [[Hs0 _] [Hp0 _] [Hne Hb] Hw].
  assert (x00 ∉ txt "127.0.0.1" ∧ x00 ∉ txt "/") as [Ha Hs]
    by (split; refine (proj1 (bool_decide_eq_false _) _); vm_compute; reflexivity).
  pose proof (text_or_clean _ _ Hb Ha). pose proof (text_or_clean _ _ Hw Hs).
  unfold decode_listener in Hd. repeat (casehyp; simplify_eq/=; try done).
  bprop. unfold SE_PROTOCOL_TCP, SE_PROTOCOL_HTTP, SE_SECURITY_TLS, SE_PROTOCOL_UDP, SE_SECURITY_NONE in *.
  assert (u16 (lo_port lo) = lo_port lo) as Hport by (apply Z.mod_small; lia).
  assert (lo_security lo = 0 ∨ lo_security lo = 1) as Hsec by lia.
  assert (lo_protocol lo = 1 ∨ lo_protocol lo = 2 ∨ lo_protocol lo = 3 ∨ lo_protocol lo = 4) as Hpr by lia.
  split; simpl in *.
  - lia.
  - split; [|done]. destruct (lo_bind_address lo); simpl in *; [congruence|done].
  - destruct Hpr as [-> |[-> |[-> | ->]]]; set_solver.
  - destruct Hsec as [-> | ->]; set_solver.
  - intros Hu. destruct Hsec as [-> |Hone]; [done|]. exfalso.
    destruct Hpr as [Hp|[Hp|[Hp|Hp]]]; rewrite Hp in Hu; try done.
    repeat match goal with H : _ ∨ _ |- _ => destruct H; bprop; try lia end.
  - lia.
  - intros _. done.
Qed.

(** The listeners of a host after [add_listener] calls. *)
Lemma add_listeners_keep cfgs h :
  let h' := foldl (λ h c, (ServerHost.add_listener c h).2) h cfgs in
  (Forall listener_ok (listeners_ h) → Forall listener_ok cfgs → Forall listener_ok (listeners_ h')) ∧
  options_ h' = options_ h ∧ (listeners_ h ≠ [] → listeners_ h' ≠ []).
Proof.
  revert h. induction cfgs as [|c cfgs IH]; intros h; simpl; [done|].
  destruct (IH (ServerHost.add_listener c h).2) as (H1 & H2 & H3).
  assert (options_ (ServerHost.add_listener c h).2 = options_ h) as Ho
    by (unfold ServerHost.add_listener; by casematch).
  assert (listeners_ h ≠ [] → listeners_ (ServerHost.add_listener c h).2 ≠ []) as Hn.
  { unfold ServerHost.add_listener. casematch; simpl; [done|]. by destruct (listeners_ h). }
  split_and!; [|congruence|auto]. intros Hh [Hc Hcs]%Forall_cons. apply H1; [|done].
  unfold ServerHost.add_listener. casematch; simpl; [done|].
  apply Forall_app. split; [done|]. constructor; [|done].
  destruct Hc as [? ? ? ? ? ? ?]. by split.
Qed.

Section Decoded.
Context (alloc : bytes → bool).

(** Options that the C boundary decodes are a configuration the transport
    accepts: for a server created from decoded options and given at least one
    decoded listener (with a bind address other than the empty string), the
    transport's own validation succeeds, so starting it can only fail in opening
    a socket or a certificate. *)
Theorem decoded_options_validate so ho los cfgs :
  decode_server (Some so) = Ok ho → c_server so →
  Forall2 (λ lo c, decode_listener (Some lo) = Ok c ∧ c_listener lo) los cfgs →
  los ≠ [] →
  let h := foldl (λ h c, (ServerHost.add_listener c h).2) (new_host ho) cfgs in
  validate (listeners_ h) (network (options_ h)) = Ok tt.
Proof.
  intros Hd [[Hm _] [Hcount _] Hbytes] HF Hne h. apply validate_iff.
  assert (Forall listener_ok cfgs) as Hcfgs.
  { clear Hne h. induction HF as [|lo c los cfgs (H1 & H2) _ IH]; constructor; [|done].
    by eapply decode_listener_valid. }
  destruct (add_listeners_keep cfgs (new_host ho)) as (Hall & Hopts & _).
  fold h in Hall, Hopts.
  assert (listeners_ h ≠ []) as Hnonempty.
  { unfold h. destruct HF as [|lo c los' cfgs' _ _]; [done|]. simpl.
    by apply add_listeners_keep. }
  unfold decode_server in Hd. repeat (casehyp; simplify_eq/=; try done). bprop.
  assert (is_u64 (so_max_event_queue_count so) ∧ is_u64 (so_max_event_queue_bytes so)) as [Hu1 Hu2]
    by (unfold is_u64 in *; lia).
  assert (host_ok alloc h) as Hok.
  { unfold h. apply (runs_invariant (λ h c, (ServerHost.add_listener c h).2)).
    - intros. by apply add_listener_ok.
    - by apply new_host_ok. }
  pose proof (ho_count _ _ Hok) as Hc64. pose proof (ho_ids _ _ Hok) as Hids.
  rewrite Hopts. simpl. split; simpl; try lia.
  - rewrite u64_small by (unfold is_u64; lia). rewrite u32_small in * by (unfold is_u32; lia). lia.
  - split; [done|]. lia.
  - split.
    + apply NoDup_alt. intros i j x Hi Hj. rewrite list_lookup_fmap in Hi, Hj.
      destruct (listeners_ h !! i) eqn:Ei; [|done]. destruct (listeners_ h !! j) eqn:Ej; [|done].
      simplify_eq/=. apply Hids in Ei, Ej. lia.
    + rewrite list_elem_of_fmap. intros (l & Hl & Hin). apply list_elem_of_lookup in Hin as [i Hi].
      apply Hids in Hi. lia.
  - apply Hall; [constructor|done].
Qed.
End Decoded.

Lemma decoded_options_validate_witness :
  ∃ ho c, decode_server (Some se_server_options_init) = Ok ho ∧
    decode_listener (Some (mkListenerOptions 88 SE_ABI_VERSION 4 0 8080 10000 None None None None [])) = Ok c ∧
    validate (listeners_ (ServerHost.add_listener c (new_host ho)).2) (network ho) = Ok tt.
Proof.
  eexists _, _. split; [vm_compute; reflexivity|]. split; [vm_compute; reflexivity|].
  refine (decoded_options_validate (λ _, true) se_server_options_init _
    [mkListenerOptions 88 SE_ABI_VERSION 4 0 8080 10000 None None None None []] [_] _ _ _ _);
    [vm_compute; reflexivity| | |done].
  { split; unfold is_u32, is_u64; simpl; lia. }
  constructor; [|constructor]. split; [vm_compute; reflexivity|].
  split; simpl; try done; unfold is_u32; lia.
Defined.

Lemma destroyed_handle_stays_dead_witness :
  (se_server_destroy 1 (runs (abi_step (λ _ _, false) (λ _, true) (λ _, Ok tt)) empty_registry
     [CreateCall (Some se_server_options_init) true])).1.1 = SE_OK ∧
  find_host 1 (runs (abi_step (λ _ _, false) (λ _, true) (λ _, Ok tt))
    (se_server_destroy 1 (runs (abi_step (λ _ _, false) (λ _, true) (λ _, Ok tt)) empty_registry
      [CreateCall (Some se_server_options_init) true])).2
    [CreateCall (Some se_server_options_init) true]) = None.
Proof.
  split; [vm_compute; reflexivity|].
  apply (destroyed_handle_stays_dead (λ _ _, false) (λ _, true) (λ _, Ok tt)
    [CreateCall (Some se_server_options_init) true]
    [CreateCall (Some se_server_options_init) true] 1). vm_compute. reflexivity.
Defined.
