(* ===== verification/SdkNetwork.v ===== *)
(** SdkNetwork: the network half of the C++ layer that applications compile in
    ([src/include/ServerEngine/Cpp/Engine.h]), over the C interface of [Abi]: the calls
    that throw on failure, and the poll that grows its buffer. *)
From S2P Require Import Prelude.
From S2P Require Import Text.
From S2P Require Import NetTypes.
From S2P Require EventQueue.
From S2P Require Import WorkerContext.
From S2P Require Import World.
From S2P Require Import TransportService.
From S2P Require Import TransportHost.
From S2P Require Import ServerHost.
From S2P Require Import Abi.

(** [src/include/ServerEngine/Cpp/Engine.h:18-21] The text thrown. *)
Definition require (status : se_status) (e : se_error) : result bytes unit :=
  if bool_decide (status = SE_OK) then Ok tt
  else Err (if bool_decide (Abi.message e = []) then txt "Engine operation failed" else Abi.message e).
Definition required {A} (status : se_status) (e : se_error) (a : A) : result bytes A :=
  match require status e with Ok _ => Ok a | Err text => Err text end.

(** [src/include/ServerEngine/Cpp/Engine.h:23-27] *)
Record NetworkEvent := mkNetworkEvent { metadata : se_event; payload : bytes }.
(** [src/include/ServerEngine/Cpp/Engine.h:25-25] {payload} *)
Definition new_event : NetworkEvent := mkNetworkEvent (mkSeEvent 0 0 0 0 0 0 0 0 0 []) (replicate 4096 x00).
(** [src/include/ServerEngine/Cpp/Engine.h:26-26] {bytes} *)
Definition event_bytes (ev : NetworkEvent) : bytes := take (Z.to_nat (se_payload_size (metadata ev))) (payload ev).

Section SdkNetwork.
Context (iequals : bytes → bytes → bool) (alloc : bytes → bool)
  (open_listener : ListenerConfig → result bytes unit).
Implicit Types r : Registry.

(** [src/include/ServerEngine/Cpp/Engine.h:31-36] {Network} *)
Definition new_network (options : se_server_options) r : result bytes Z * Registry :=
  let '(status, e, (handle, r)) := se_server_create (Some options) true r in (required status e handle, r).
(** [src/include/ServerEngine/Cpp/Engine.h:37-37] {~Network} *)
Definition delete_network (handle : Z) r : Registry :=
  if handle =? 0 then r else (se_server_destroy handle r).2.
(** [src/include/ServerEngine/Cpp/Engine.h:41-47] {listen} *)
Definition listen (handle : Z) (options : se_listener_options) r : result bytes Z * Registry :=
  let '(status, e, (listener, r)) := se_server_add_listener handle (Some options) true r in (required status e listener, r).
(** [src/include/ServerEngine/Cpp/Engine.h:48-48] {start} *)
Definition start_network (handle : Z) r : result bytes unit * Registry :=
  let '(status, e, r) := se_server_start alloc open_listener handle r in (required status e tt, r).
(** [src/include/ServerEngine/Cpp/Engine.h:49-49] {stop} *)
Definition stop_network (handle : Z) r : result bytes unit * Registry :=
  let '(status, e, r) := se_server_stop handle r in (required status e tt, r).

(** What other threads do to the server between two calls. *)
Definition meanwhile (handle : Z) (ops : list HostOp) r : Registry :=
  match find_host handle r with
  | Some h => update_host handle (runs (host_step iequals alloc open_listener) h ops) r
  | None => r
  end.
(** One call of [se_server_poll_event] into the event's record and buffer. *)
Definition poll_into (handle : Z) (ev : NetworkEvent) r : se_status * se_error * NetworkEvent * Registry :=
  let '(status, e, (next, data, r)) :=
    se_server_poll_event handle (Some (se_struct_size (metadata ev), se_abi_version (metadata ev))) true (zlen (payload ev)) r in
  (status, e, mkNetworkEvent (default (metadata ev) next) (data ++ drop (length data) (payload ev)), r).
(** [src/include/ServerEngine/Cpp/Engine.h:50-63] {poll} *)
Definition poll_network (handle : Z) (ops : list HostOp) (ev : NetworkEvent) r
    : result bytes se_status * NetworkEvent * Registry :=
  let '(status, e, ev, r) := poll_into handle (mkNetworkEvent se_event_init (payload ev)) r in
  let '(status, e, ev, r) :=
    if bool_decide (status = SE_BUFFER_TOO_SMALL)
    then poll_into handle
           (mkNetworkEvent (metadata ev) (resize (Z.to_nat (se_payload_size (metadata ev))) x00 (payload ev)))
           (meanwhile handle ops r)
    else (status, e, ev, r) in
  (if status_code status <? 0 then required status e status else Ok status, ev, r).

(** ** Polling *)
(** What the queue's head keeps while nobody takes it: the entry stays first, unless the
    queue has overflowed. *)
Definition heads (entry : EventQueue.Entry) (q : Queue) : Prop :=
  EventQueue.overflow q = true ∨ ∃ rest, EventQueue.entries q = entry :: rest.
Lemma heads_push entry a k p d q : heads entry q → heads entry (EventQueue.push a k p d q).2.
Proof.
  unfold heads, EventQueue.push. destruct (_ || EventQueue.overflow q) eqn:Eo; [done|]. destruct (_ || negb a); [by left|].
  bprop. intros [Hov|(rest & ->)]; [congruence|]. right. by exists (rest ++ [EventQueue.mkEntry (EventQueue.mkEvent k p (EventQueue.next_sequence q) (zlen d)) d]).
Qed.
#[local] Instance callbacks_heads ls entry : PreservedBy (ServerHost.callbacks alloc ls) (heads entry).
Proof. split; simpl; intros f **; simplify_eq; push_cases (heads_push entry). Qed.
(** No operation but a poll takes an event. *)
Definition polls (o : HostOp) : bool := match o with PollOp _ => true | _ => false end.
Lemma heads_kept entry h o : host_ok alloc h → polls o = false → heads entry (events_ h) →
  heads entry (events_ (host_step iequals alloc open_listener h o)).
Proof.
  intros Hok Ho Hq. assert (PreservedBy (in_force (transport_ h)) (heads entry)) as Hcb.
  { destruct (ho_callbacks _ _ Hok) as [-> |[ls ->]]; apply _. }
  assert (host_good (heads entry) (transport_ h)) as Hg by done.
  assert (∀ k, (∀ cb lim st w, PreservedBy cb (heads entry) → good (heads entry) cb lim st w → good (heads entry) cb lim st (k w).2) →
    heads entry (events_ (with_transport h (command k (transport_ h))).2)) as Hcommand.
  { intros k Hk. unfold events_. simpl. eapply (command_host_good (heads entry)); [done|exact Hg]. }
  destruct o; simpl in Ho |- *; try done.
  - unfold add_listener. by case_match.
  - unfold ServerHost.start. destruct (state_ h); try done.
    pose proof (start_host_good (heads entry) open_listener (listeners_ h) (network (options_ h)) (ServerHost.callbacks alloc (listeners_ h)) _ _ Hg) as [_ Hs].
    by destruct (TransportService.start _ _ _ _ _) as [[]].
  - unfold ServerHost.stop. case_bool_decide; [done|]. destruct (stop_host_good _ _ Hg) as [_ [Hs|(rest & Hs)]]; [by left|]. right. by exists rest.
  - unfold ServerHost.send. case_match; [done|]. apply Hcommand. intros. by apply good_send_command.
  - unfold ServerHost.disconnect. case_match; [done|]. apply Hcommand. intros. by apply good_disconnect.
  - unfold ServerHost.respond_http. case_match; [done|]. apply Hcommand. intros. by apply good_respond_command.
  - exact (proj2 (worker_host_good (heads entry) iequals open_listener _ e Hg)).
Qed.
Lemma heads_runs entry ops : ∀ h, host_ok alloc h → Forall (λ o, polls o = false) ops → heads entry (events_ h) →
  heads entry (events_ (runs (host_step iequals alloc open_listener) h ops)) .
Proof.
  induction ops as [|o ops IH]; intros h Hok Ho Hh; [done|]. apply Forall_cons in Ho as [Ho Hos].
  simpl. apply IH; [by apply host_step_ok|done|by apply heads_kept].
Qed.
(** A call into a live server is one poll of its queue. *)
Definition poll_status (res : EventQueue.PollResult) : se_status :=
  match res with
  | EventQueue.Timeout => SE_TIMEOUT | EventQueue.Stopped => SE_STOPPED
  | EventQueue.BufferTooSmall => SE_BUFFER_TOO_SMALL | EventQueue.Ready => SE_OK
  end.
Lemma poll_into_case handle ev r h : find_host handle r = Some h → se_struct_size (metadata ev) = sizeof_event →
  se_abi_version (metadata ev) = SE_ABI_VERSION →
  let '(res, next, data, q) := EventQueue.poll (zlen (payload ev)) (events_ h) in
  ∃ e, poll_into handle ev r = (poll_status res, e,
    mkNetworkEvent (match res with EventQueue.Ready | EventQueue.BufferTooSmall => default (metadata ev) (fill_event <$> next) | _ => metadata ev end)
      (match res with EventQueue.Ready | EventQueue.BufferTooSmall => data ++ drop (length data) (payload ev) | _ => payload ev end),
    update_host handle (ServerHost.poll (zlen (payload ev)) h).2 r).
Proof.
  intros Hh Hs Ha. unfold poll_into, se_server_poll_event. rewrite Hs, Ha, !Z.eqb_refl, Hh. cbn [negb orb andb]. unfold ServerHost.poll.
  destruct (EventQueue.poll _ _) as [[[res next] data] q]. destruct res; by eexists.
Qed.
(** What a poll makes of a sound queue. *)
Definition overflow_event (next : option EventQueue.Event) (data : bytes) : Prop :=
  data = [] ∧ ∃ n, next = Some (EventQueue.mkEvent EventQueue.Overflow empty_peer n 0).
Lemma poll_outcome capacity q : EventQueue.queue_ok q →
  let '(res, next, data, q') := EventQueue.poll capacity q in
  match res with
  | EventQueue.Ready => overflow_event next data ∨
      ∃ ev rest, next = Some ev ∧ EventQueue.entries q = EventQueue.mkEntry ev data :: rest
  | EventQueue.BufferTooSmall => ∃ ev body rest, next = Some ev ∧ data = [] ∧ q' = q ∧
      EventQueue.entries q = EventQueue.mkEntry ev body :: rest
  | _ => True
  end.
Proof.
  intros Hq. unfold EventQueue.poll, overflow_event. destruct (EventQueue.overflow q).
  { destruct (EventQueue.overflow_reported q); [done|]. left. eauto. }
  destruct (EventQueue.entries q) as [|[ev body] rest] eqn:E; [by destruct (EventQueue.stopped q)|].
  destruct (_ <? _); [exists ev, body, rest; done|]. right. exists ev, rest. done.
Qed.
Lemma poll_head ev body q : heads (EventQueue.mkEntry ev body) q →
  let '(res, next, data, q') := EventQueue.poll (zlen body) q in
  (res = EventQueue.Ready ∨ res = EventQueue.Stopped) ∧ (res = EventQueue.Ready → overflow_event next data ∨ (next = Some ev ∧ data = body)).
Proof.
  unfold heads, EventQueue.poll, overflow_event. destruct (EventQueue.overflow q).
  { intros _. destruct (EventQueue.overflow_reported q); (split; [by auto|]); [done|]. intros _. left. eauto. }
  intros [?|(rest & ->)]; [done|]. cbn [EventQueue.payload EventQueue.event]. rewrite Z.ltb_irrefl. split; auto.
Qed.
(** A first event's payload fits the field that tells its size. *)
Lemma head_size q ev body rest : EventQueue.queue_ok q → EventQueue.max_bytes q < 2 ^ 32 →
  EventQueue.entries q = EventQueue.mkEntry ev body :: rest → se_payload_size (fill_event ev) = zlen body.
Proof.
  intros Hq Hm E. pose proof (EventQueue.ok_sizes _ Hq) as Hs. pose proof (EventQueue.ok_bytes _ Hq) as Hb.
  pose proof (EventQueue.ok_bytes_bound _ Hq). rewrite E in Hs, Hb. apply Forall_cons in Hs as [Hs _]. simpl in Hs.
  rewrite total_cons in Hb. pose proof (EventQueue.entries_total_nonneg rest). unfold EventQueue.entry_bytes in *. simpl in *.
  unfold fill_event. simpl. rewrite Hs. apply u32_small. pose proof (zlen_nonneg body). unfold is_u32. lia.
Qed.
Lemma event_bytes_full m body tail : se_payload_size m = zlen body → event_bytes (mkNetworkEvent m (body ++ tail)) = body.
Proof.
  intros Hm. unfold event_bytes. cbn [metadata payload]. rewrite Hm. unfold zlen. rewrite Nat2Z.id. by rewrite take_app_length.
Qed.
(** One call of the layer's poll takes an event whole, whatever the size of its payload
    and of the buffer given: it never throws and never asks for a larger buffer, whatever
    other threads do to the server between its two attempts, except poll it; what it
    reports is the queue's first event with all of its payload, or the event that tells
    the queue overflowed in between. *)
Theorem network_poll_whole handle ops ev r h :
  find_host handle r = Some h → host_ok alloc h → EventQueue.max_bytes (events_ h) < 2 ^ 32 →
  Forall (λ o, polls o = false) ops →
  let '(res, ev', _) := poll_network handle ops ev r in
  ∃ status, res = Ok status ∧ status ≠ SE_BUFFER_TOO_SMALL ∧
    (status = SE_OK →
       (se_kind (metadata ev') = EventQueue.event_code EventQueue.Overflow ∧ event_bytes ev' = []) ∨
       ∃ next body rest, EventQueue.entries (events_ h) = EventQueue.mkEntry next body :: rest ∧
         metadata ev' = fill_event next ∧ event_bytes ev' = body).
Proof.
  intros Hh Hok Hmax Hops. unfold poll_network. pose proof (ho_queue _ _ Hok) as Hq.
  pose proof (poll_into_case handle (mkNetworkEvent se_event_init (payload ev)) r h Hh eq_refl eq_refl) as H1.
  pose proof (poll_outcome (zlen (payload ev)) _ Hq) as Hout. pose proof (poll_ok alloc (zlen (payload ev)) h Hok) as Hok1.
  cbn [payload metadata] in H1. unfold ServerHost.poll in H1, Hok1.
  destruct (EventQueue.poll (zlen (payload ev)) (events_ h)) as [[[res next] data] q] eqn:Ep. destruct H1 as [e ->].
  assert (∀ next data, overflow_event next data → ∀ p, se_kind (default se_event_init (fill_event <$> next)) = EventQueue.event_code EventQueue.Overflow ∧
    event_bytes (mkNetworkEvent (default se_event_init (fill_event <$> next)) p) = []) as Hover.
  { intros ? ? [-> [n ->]] p. done. }
  destruct res; cbn [poll_status]; try rewrite bool_decide_eq_false_2 by done; try (exists SE_TIMEOUT; done); try (exists SE_STOPPED; done).
  - exists SE_OK. split; [done|]. split; [done|]. intros _. cbn [metadata payload]. destruct Hout as [Ho|(ev1 & rest & -> & E)]; [left; by eapply Hover|].
    right. exists ev1, data, rest. split; [done|]. split; [done|]. apply event_bytes_full. by eapply head_size.
  - destruct Hout as (ev1 & body & rest & -> & -> & -> & E). rewrite bool_decide_eq_true_2 by done. cbn [metadata payload].
    change (default se_event_init (fill_event <$> Some ev1)) with (fill_event ev1). rewrite (head_size _ _ _ _ Hq Hmax E). rewrite (bool_decide_eq_false_2 (EventQueue.BufferTooSmall = EventQueue.Ready)) in * by done.
    cbn [andb snd] in *. set (h1 := mkServerHost _ _ _ _ _) in *.
    set (h2 := runs (host_step iequals alloc open_listener) h1 ops).
    assert (heads (EventQueue.mkEntry ev1 body) (events_ h2)) as Hh2 by (apply heads_runs; [exact Hok1|done|right; by exists rest]).
    set (p2 := resize _ _ _). assert (zlen p2 = zlen body) as Hp2.
    { unfold p2, zlen. rewrite length_resize. lia. }
    set (r2 := meanwhile handle ops _). assert (find_host handle r2 = Some h2) as Hr2.
    { unfold r2, meanwhile, find_host. cbn [update_host hosts]. rewrite lookup_insert_eq. cbn [hosts]. apply lookup_insert_eq. }
    pose proof (poll_into_case handle (mkNetworkEvent (fill_event ev1) p2) r2 h2) as H2.
    cbn [metadata payload] in H2. rewrite Hp2 in H2. pose proof (poll_head ev1 body _ Hh2) as Hout2.
    destruct (EventQueue.poll (zlen body) (events_ h2)) as [[[res2 next2] data2] q2].
    destruct H2 as [e2 ->]; [done..|]. destruct Hout2 as [[-> | ->] Hr]; cbn [poll_status].
    + exists SE_OK. split; [done|]. split; [done|]. intros _. cbn [metadata]. destruct (Hr eq_refl) as [Ho|[-> ->]].
      * left. destruct Ho as [-> [n ->]]. done.
      * right. exists ev1, body, rest. split; [done|]. split; [done|]. apply event_bytes_full. by eapply head_size.
    + by exists SE_STOPPED.
Qed.
End SdkNetwork.

(** ** At work *)
Module SmallBuffer.
Definition config : ListenerConfig := mkListenerConfig 0 Tcp (txt "127.0.0.1") 9555 NoSecurity [] [] (txt "/") 10000.
Definition ops : list HostOp := [AddListenerOp config; StartHost; WorkerStep (Accepted 1 (Err (txt "accept failed")))].
Definition host : ServerHost := runs (host_step (λ _ _, false) (λ _, true) (λ _, Ok tt)) (new_host demo_options) ops.
Definition registry : Registry := mkRegistry 2 {[ 1 := host ]}.
(** A buffer of two bytes; meanwhile another thread stops the server. *)
Definition polled : result bytes se_status * NetworkEvent * Registry :=
  poll_network (λ _ _, false) (λ _, true) (λ _, Ok tt) 1 [StopHost] (mkNetworkEvent se_event_init [x00; x00]) registry.
End SmallBuffer.
Lemma network_poll_whole_witness :
  1 < zlen (event_bytes SmallBuffer.polled.1.2) ∧ ∃ status, SmallBuffer.polled.1.1 = Ok status ∧ status ≠ SE_BUFFER_TOO_SMALL.
Proof.
  split; [vm_compute; reflexivity|].
  assert (host_ok (λ _, true) SmallBuffer.host) as Hok.
  { apply (host_invariant (λ _ _, false) (λ _, true) (λ _, Ok tt) demo_options); unfold is_u64; simpl; lia. }
  assert (Forall (λ o, polls o = false) [StopHost]) as Ho by (repeat constructor).
  pose proof (network_poll_whole (λ _ _, false) (λ _, true) (λ _, Ok tt) 1 [StopHost] (mkNetworkEvent se_event_init [x00; x00])
    SmallBuffer.registry SmallBuffer.host eq_refl Hok eq_refl Ho) as H.
  fold SmallBuffer.polled in H. destruct SmallBuffer.polled as [[res ev] r]. destruct H as (status & Hr & Hs & _).
  exists status. split; [exact Hr|exact Hs].
Defined.
