(* ===== verification/SqlTypes.v ===== *)
(** SqlTypes: the data of the SQL service and the admission copy of a request
    ([src/src/Data/Sql/Types.h], [Request.cpp], [Result.cpp], [src/include/ServerEngine/C/Sql.h]).
    A NULL pointer is [None]; a pointed-to array is the list of what is readable
    there; a double is its 64-bit pattern. *)
From S2P Require Import Prelude.
From S2P Require Import Text.
From S2P Require Import NetTypes.

(** [src/include/ServerEngine/C/Sql.h:12-20] *)
Definition SE_SQL_ABI_VERSION : Z := 65536.
Definition SE_SQL_SQLITE : Z := 1.
Definition SE_SQL_NULL : Z := 0.
Definition SE_SQL_INT64 : Z := 1.
Definition SE_SQL_DOUBLE : Z := 2.
Definition SE_SQL_TEXT : Z := 3.
Definition SE_SQL_BLOB : Z := 4.

(** * The caller's structs *)
(** [src/include/ServerEngine/C/Sql.h:25-39] *)
Record se_sql_options := mkSeOptions {
  sq_struct_size : Z; sq_abi_version : Z; sq_provider : Z; sq_max_outstanding_requests : Z;
  sq_max_request_bytes : Z; sq_max_result_bytes : Z; sq_max_rows : Z; sq_max_columns : Z;
  sq_query_timeout_ms : Z; sq_busy_timeout_ms : Z; sq_memory_budget_bytes : Z;
  sq_connection : option bytes; sq_reserved : list Z;
}.
Definition sizeof_sql_options : Z := 88.
(** [src/include/ServerEngine/C/Sql.h:44-50] *)
Record se_sql_parameter := mkSeParameter {
  sp_type : Z; sp_size : Z; sp_integer : Z; sp_real : Z; sp_data : option bytes;
}.
Definition default_parameter : se_sql_parameter := mkSeParameter 0 0 0 0 None.
(** [src/include/ServerEngine/C/Sql.h:52-57] *)
Record se_sql_statement := mkSeStatement {
  ss_sql : option bytes; ss_sql_size : Z; ss_parameter_count : Z;
  ss_parameters : option (list se_sql_parameter);
}.
Definition default_statement : se_sql_statement := mkSeStatement None 0 0 None.

(** * The service's own data *)
(** [src/src/Data/Sql/Types.h:13-18] *)
Record Options := mkOptions {
  connection : bytes; max_outstanding : Z; max_request_bytes : Z; max_result_bytes : Z;
  max_rows : Z; max_columns : Z; query_timeout_ms : Z; busy_timeout_ms : Z; memory_budget : Z;
}.
(** [src/src/Data/Sql/Types.h:20-25] *)
Record Value := mkValue { type : Z; integer : Z; real : Z; value_bytes : bytes }.
#[global] Instance Value_eq_dec : EqDecision Value.
Proof. solve_decision. Defined.
Definition default_value : Value := mkValue SE_SQL_NULL 0 0 [].
(** [src/src/Data/Sql/Types.h:27-30] *)
Record Statement := mkStatement { sql : bytes; parameters : list Value }.
(** [src/src/Data/Sql/Types.h:32-40] The message is its text, without the terminator. *)
Record Result := mkResult {
  status : se_status; message : bytes; affected_rows : Z; last_insert_id : Z;
  columns : list bytes; rows : list (list Value);
}.
Definition default_result : Result := mkResult SE_OK [] 0 0 [] [].
(** [src/src/Data/Sql/Types.h:43-43] *)
Inductive RequestState := Queued | Running | Complete | Delivered.
#[global] Instance RequestState_eq_dec : EqDecision RequestState.
Proof. solve_decision. Defined.
(** [src/src/Data/Sql/Types.h:42-49] *)
Record Request := mkRequest {
  id : Z; reserved_bytes : Z; statements : list Statement; outcome : Result; state : RequestState;
}.
(** [src/src/Data/Sql/Types.h:51-56] *)
Definition SqlError : Type := se_status * bytes.
Definition error (code : se_status) (text : string) : SqlError := (code, txt text).
Arguments error code text%_string.

(** [src/src/Data/Sql/Result.cpp:8-18] {Result::fail} *)
Definition fail (code : se_status) (diagnostic : bytes) (r : Result) : Result :=
  mkResult code (take 255 diagnostic) 0 0 [] [].

(** The sizes of the service's own types, which the compiler chooses. *)
Class Layout := {
  sizeof_Request : Z; sizeof_Statement : Z; sizeof_Value : Z;
  sizeof_Result : Z; sizeof_string : Z; sizeof_row : Z;
  sizes_positive : 0 < sizeof_Request < 2 ^ 16 ∧ 0 < sizeof_Statement < 2 ^ 16 ∧ 0 < sizeof_Value < 2 ^ 16 ∧
    0 < sizeof_Result < 2 ^ 16 ∧ 0 < sizeof_string < 2 ^ 16 ∧ 0 < sizeof_row < 2 ^ 16;
}.

(** * Options *)
(** [src/src/Data/Sql/Request.cpp:10-35] *)
Definition decode_options (source : se_sql_options) : result SqlError Options :=
  check? (sq_struct_size source =? sizeof_sql_options) && (sq_abi_version source =? SE_SQL_ABI_VERSION)
         && forallb (λ v, v =? 0) (sq_reserved source)
    or error SE_INVALID_ARGUMENT "invalid SQL options layout/version/reserved fields" in
  check? sq_provider source =? SE_SQL_SQLITE
    or error SE_NOT_SUPPORTED "this SQL module provides SQLite; requested provider is unavailable" in
  match sq_connection source with
  | None | Some [] => Err (error SE_INVALID_ARGUMENT "SQL connection filename is required")
  | Some name =>
      check? zlen name <=? 32768 or error SE_INVALID_ARGUMENT "SQL connection filename too long" in
      check? (1 <=? sq_max_outstanding_requests source) && (sq_max_outstanding_requests source <=? 4096)
        && (256 <=? sq_max_request_bytes source) && (sq_max_request_bytes source <=? 16 * 1024 * 1024)
        && (1024 <=? sq_max_result_bytes source) && (sq_max_result_bytes source <=? 16 * 1024 * 1024)
        && (1 <=? sq_max_rows source) && (sq_max_rows source <=? 1000000)
        && (1 <=? sq_max_columns source) && (sq_max_columns source <=? 1024)
        && (1 <=? sq_query_timeout_ms source) && (sq_query_timeout_ms source <=? 300000)
        && (sq_busy_timeout_ms source <=? 30000)
        && (u64 (u64 (sq_max_result_bytes source + sq_max_request_bytes source) + 1024)
            <=? sq_memory_budget_bytes source)
        && (sq_memory_budget_bytes source <=? 1024 * 1024 * 1024)
        or error SE_INVALID_ARGUMENT "SQL limits outside supported bounds" in
      Ok (mkOptions name (sq_max_outstanding_requests source) (sq_max_request_bytes source)
        (sq_max_result_bytes source) (sq_max_rows source) (sq_max_columns source)
        (sq_query_timeout_ms source) (sq_busy_timeout_ms source) (sq_memory_budget_bytes source))
  end.

Record options_ok (o : Options) : Prop := {
  ok_name : connection o ≠ [] ∧ zlen (connection o) ≤ 32768;
  ok_outstanding : 1 ≤ max_outstanding o ≤ 4096;
  ok_request : 256 ≤ max_request_bytes o ≤ 2 ^ 24;
  ok_result : 1024 ≤ max_result_bytes o ≤ 2 ^ 24;
  ok_rows : 1 ≤ max_rows o ≤ 1000000;
  ok_columns : 1 ≤ max_columns o ≤ 1024;
  ok_budget : max_result_bytes o + max_request_bytes o + 1024 ≤ memory_budget o ≤ 2 ^ 30;
}.

Lemma decode_options_ok source o : decode_options source = Ok o → options_ok o.
Proof.
  unfold decode_options. rewrite !rbind_Ok. intros (? & _ & H).
  rewrite rbind_Ok in H. destruct H as (? & _ & H).
  destruct (sq_connection source) as [[|c name]|] eqn:Hname; [done| |done].
  rewrite !rbind_Ok in H. setoid_rewrite rguard_Ok in H.
  destruct H as (? & [Hlen _] & H). rewrite rbind_Ok in H. setoid_rewrite rguard_Ok in H.
  destruct H as (? & [Hb _] & H). simplify_eq. bprop. unfold u64 in *.
  rewrite !Z.mod_small in * by (try rewrite Z.mod_small; lia).
  split; simpl; try lia. split; [done|lia].
Qed.

(** * Copying a request *)
(** [std::isfinite] on the bit pattern: the exponent is not all ones. *)
Definition isfinite (word : Z) : bool := negb (Z.land (Z.shiftr word 52) 2047 =? 2047).

Section Request.
Context `{Layout}.

(** [src/src/Data/Sql/Request.cpp:43-47] {copy_request} *)
Definition add_bytes (o : Options) (size acc : Z) : result SqlError Z :=
  let acc' := u64 (acc + size) in
  if max_request_bytes o <? acc'
  then Err (error SE_INVALID_ARGUMENT "SQL request exceeds configured byte limit") else Ok acc'.

(** [src/src/Data/Sql/Request.cpp:62-67] {copy_request} *)
Definition parameter_ok (p : se_sql_parameter) : bool :=
  negb ((SE_SQL_BLOB <? sp_type p)
    || ((sp_type p =? SE_SQL_DOUBLE) && negb (isfinite (sp_real p)))
    || ((sp_type p <? SE_SQL_TEXT) && (negb (sp_size p =? 0) || bool_decide (is_Some (sp_data p))))
    || ((SE_SQL_TEXT <=? sp_type p) && negb (sp_size p =? 0) && bool_decide (sp_data p = None))).

Definition pointed {A} (source : option (list A)) (count : Z) : list A :=
  match source with Some l => take (Z.to_nat count) l | None => [] end.

(** [src/src/Data/Sql/Request.cpp:68-74] {copy_request} *)
Definition copy_value (p : se_sql_parameter) : Value :=
  mkValue (sp_type p) (sp_integer p) (sp_real p)
    (if sp_size p =? 0 then [] else pointed (sp_data p) (sp_size p)).

(** [src/src/Data/Sql/Request.cpp:61-75] {copy_request} *)
Fixpoint copy_parameters (o : Options) (l : list se_sql_parameter) (acc : Z)
    : result SqlError (Z * list Value) :=
  match l with
  | [] => Ok (acc, [])
  | p :: rest =>
      check? parameter_ok p
        or error SE_INVALID_ARGUMENT "invalid SQL parameter type, pointer or numeric value" in
      let? acc' := add_bytes o (sp_size p) acc in
      let? copied := copy_parameters o rest acc' in
      Ok (copied.1, copy_value p :: copied.2)
  end.

(** [src/src/Data/Sql/Request.cpp:52-54] {copy_request} *)
Definition statement_ok (o : Options) (input : se_sql_statement) : bool :=
  negb (bool_decide (ss_sql input = None) || (ss_sql_size input =? 0)
    || (max_request_bytes o <? ss_sql_size input) || (1024 <? ss_parameter_count input)
    || (negb (ss_parameter_count input =? 0) && bool_decide (ss_parameters input = None))).

(** [src/src/Data/Sql/Request.cpp:50-77] {copy_request} *)
Fixpoint copy_statements (o : Options) (l : list se_sql_statement) (acc : Z)
    : result SqlError (Z * list Statement) :=
  match l with
  | [] => Ok (acc, [])
  | input :: rest =>
      check? statement_ok o input
        or error SE_INVALID_ARGUMENT "invalid SQL statement or parameter array" in
      let? acc1 := add_bytes o (u64 (ss_sql_size input + ss_parameter_count input * sizeof_Value)) acc in
      let text := pointed (ss_sql input) (ss_sql_size input) in
      check? negb (bool_decide (x00 ∈ text))
        or error SE_INVALID_ARGUMENT "SQL text must not contain embedded NUL bytes" in
      let? copied := copy_parameters o (pointed (ss_parameters input) (ss_parameter_count input)) acc1 in
      let? others := copy_statements o rest copied.1 in
      Ok (others.1, mkStatement text copied.2 :: others.2)
  end.

(** [src/src/Data/Sql/Request.cpp:37-82] *)
Definition copy_request (source : option (list se_sql_statement)) (count : Z) (o : Options)
    : result SqlError Request :=
  check? negb (bool_decide (source = None) || (count <? 1) || (64 <? count))
    or error SE_INVALID_ARGUMENT "SQL submit requires 1..64 statements" in
  let? base := add_bytes o 0 (u64 (sizeof_Request + count * sizeof_Statement)) in
  let? copied := copy_statements o (pointed source count) base in
  Ok (mkRequest 0 (u64 (u64 (copied.1 + max_result_bytes o) + 1024)) copied.2 default_result Queued).

(** ** What a copy costs *)
Definition statement_bytes (s : Statement) : Z :=
  zlen (sql s) + zlen (parameters s) * sizeof_Value + total (λ v, zlen (value_bytes v)) (parameters s).
Definition request_bytes (l : list Statement) : Z :=
  sizeof_Request + zlen l * sizeof_Statement + total statement_bytes l.

(** The caller's arrays are as long as the counts next to them say. *)
Definition readable_parameter (p : se_sql_parameter) : Prop :=
  is_u32 (sp_size p) ∧ 0 ≤ sp_type p ∧ ∀ d, sp_data p = Some d → sp_size p ≤ zlen d.
Definition readable (s : se_sql_statement) : Prop :=
  is_u32 (ss_sql_size s) ∧ is_u32 (ss_parameter_count s) ∧
  (∀ t, ss_sql s = Some t → ss_sql_size s ≤ zlen t) ∧
  ∀ l, ss_parameters s = Some l → ss_parameter_count s ≤ zlen l ∧ Forall readable_parameter l.

(** ** Exact acceptance *)
Context (o : Options) (Ho : options_ok o).

Lemma add_bytes_Ok size acc acc' :
  0 ≤ acc < 2 ^ 60 → 0 ≤ size < 2 ^ 60 →
  add_bytes o size acc = Ok acc' ↔ acc' = acc + size ∧ acc + size ≤ max_request_bytes o.
Proof.
  intros. unfold add_bytes, u64. rewrite Z.mod_small by lia.
  destruct (max_request_bytes o <? acc + size) eqn:E; bprop; naive_solver lia.
Qed.

Lemma copy_parameters_Ok l acc acc' vs :
  0 ≤ acc ≤ max_request_bytes o → Forall readable_parameter l →
  copy_parameters o l acc = Ok (acc', vs) ↔
  Forall (λ p, parameter_ok p = true) l ∧ vs = (copy_value <$> l) ∧
  acc' = acc + total sp_size l ∧ acc' ≤ max_request_bytes o.
Proof.
  pose proof (ok_request o Ho) as Hmax. revert acc acc' vs.
  induction l as [|p l IH]; intros acc acc' vs Hacc Hr; simpl.
  - split; [intros [= <- <-]; split_and!; auto; lia|intros (_ & -> & -> & _)].
    by rewrite Z.add_0_r.
  - inversion Hr as [|?? [Hp _] Hr']; subst. unfold is_u32 in Hp.
    rewrite rbind_Ok. setoid_rewrite rguard_Ok. setoid_rewrite rbind_Ok.
    setoid_rewrite rbind_Ok. rewrite Forall_cons. split.
    + intros (? & [Hok _] & acc1 & Hadd & [acc2 vs'] & Hl & [= <- <-]).
      apply add_bytes_Ok in Hadd as [-> Hle]; [|lia..].
      apply IH in Hl as (? & -> & -> & ?); [|lia|done]. simpl. split_and!; auto; lia.
    + intros ([Hok Hall] & -> & -> & Hle). exists tt. split; [done|].
      assert (0 ≤ total sp_size l).
      { clear -Hr'. induction Hr' as [|q l [Hq _] _ IH]; simpl; unfold is_u32 in *; lia. }
      exists (acc + sp_size p). rewrite add_bytes_Ok by lia. split; [lia|].
      exists (acc + sp_size p + total sp_size l, copy_value <$> l).
      rewrite IH by (auto; lia). split; [split_and!; auto; lia|]. simpl. by rewrite Z.add_assoc.
Qed.

Definition input_parameters (s : se_sql_statement) : list se_sql_parameter :=
  pointed (ss_parameters s) (ss_parameter_count s).
Definition copy_statement (s : se_sql_statement) : Statement :=
  mkStatement (pointed (ss_sql s) (ss_sql_size s)) (copy_value <$> input_parameters s).
Definition acceptable (s : se_sql_statement) : Prop :=
  statement_ok o s = true ∧ x00 ∉ pointed (ss_sql s) (ss_sql_size s) ∧
  Forall (λ p, parameter_ok p = true) (input_parameters s).
Definition input_bytes (s : se_sql_statement) : Z :=
  ss_sql_size s + ss_parameter_count s * sizeof_Value + total sp_size (input_parameters s).

Lemma readable_input_parameters s : readable s → Forall readable_parameter (input_parameters s).
Proof.
  intros (_ & _ & _ & Hp). unfold input_parameters, pointed.
  destruct (ss_parameters s) as [l|] eqn:E; [|constructor].
  apply Forall_take. by apply Hp.
Qed.
Lemma parameters_nonneg l : Forall readable_parameter l → 0 ≤ total sp_size l.
Proof. induction 1 as [|q l [Hq _] _ IH]; simpl; unfold is_u32 in *; lia. Qed.
Lemma input_bytes_nonneg s : readable s → 0 ≤ input_bytes s.
Proof.
  intros Hs. pose proof (parameters_nonneg _ (readable_input_parameters s Hs)).
  destruct Hs as (? & ? & _). pose proof sizes_positive. unfold input_bytes, is_u32 in *. nia.
Qed.

Lemma copy_statements_Ok l acc acc' out :
  0 ≤ acc ≤ max_request_bytes o → Forall readable l →
  copy_statements o l acc = Ok (acc', out) ↔
  Forall acceptable l ∧ out = (copy_statement <$> l) ∧
  acc' = acc + total input_bytes l ∧ acc' ≤ max_request_bytes o.
Proof.
  pose proof (ok_request o Ho) as Hmax. pose proof sizes_positive as (_ & _ & Hv & _).
  revert acc acc' out. induction l as [|s l IH]; intros acc acc' out Hacc Hr; simpl.
  - split; [intros [= <- <-]; split_and!; auto; lia|intros (_ & -> & -> & _)].
    by rewrite Z.add_0_r.
  - inversion Hr as [|?? Hs Hr']; subst.
    pose proof (readable_input_parameters s Hs) as Hps. pose proof (parameters_nonneg _ Hps).
    assert (0 ≤ total input_bytes l).
    { clear -Hr'. induction Hr' as [|q l Hq _ IH]; simpl; [done|].
      pose proof (input_bytes_nonneg q Hq). lia. }
    destruct Hs as (Hsz & Hc & _). unfold is_u32 in Hsz, Hc.
    assert (0 ≤ ss_sql_size s + ss_parameter_count s * sizeof_Value < 2 ^ 60) as Hsum by nia.
    unfold u64. rewrite Z.mod_small by lia. fold (input_parameters s).
    assert (input_bytes s = ss_sql_size s + ss_parameter_count s * sizeof_Value
      + total sp_size (input_parameters s)) as Hcost by done.
    rewrite rbind_Ok. setoid_rewrite rguard_Ok. setoid_rewrite rbind_Ok.
    rewrite Forall_cons. unfold acceptable at 1. split.
    + intros (? & [Hok _] & acc1 & Hadd & Hrest). apply add_bytes_Ok in Hadd as [-> Hle]; [|lia..].
      rewrite rbind_Ok in Hrest. setoid_rewrite rguard_Ok in Hrest.
      destruct Hrest as (? & [Hnul _] & Hrest).
      rewrite rbind_Ok in Hrest. destruct Hrest as ([acc2 vs] & Hp & Hrest).
      apply copy_parameters_Ok in Hp as (Hall & -> & -> & Hle2); [|lia|done].
      rewrite rbind_Ok in Hrest. destruct Hrest as ([acc3 out'] & Hl & [= <- <-]).
      apply IH in Hl as (Hl & -> & -> & Hle3); [|simpl in *; lia|done].
      simpl in *. bprop. split_and!; auto; rewrite Hcost; lia.
    + intros ([(Hok & Hnul & Hall) Hl] & -> & -> & Hle). exists tt. split; [done|].
      rewrite Hcost in Hle.
      exists (acc + (ss_sql_size s + ss_parameter_count s * sizeof_Value)).
      rewrite add_bytes_Ok by lia. split; [lia|].
      rewrite rbind_Ok. exists tt. split; [rewrite rguard_Ok; split; [|done]; by rewrite bool_decide_eq_false_2|].
      rewrite rbind_Ok. eexists (_, _). split; [apply copy_parameters_Ok; [lia|done|]; split_and!; [done..|lia]|].
      rewrite rbind_Ok. eexists (_, _). split; [apply IH; [simpl; lia|done|]; split_and!; [done..|simpl; lia]|].
      simpl. rewrite Hcost. do 2 f_equal. lia.
Qed.

(** What [copy_request] makes of an accepted batch. *)
Definition copied (l : list se_sql_statement) : Request :=
  mkRequest 0 (sizeof_Request + zlen l * sizeof_Statement + total input_bytes l
               + max_result_bytes o + 1024) (copy_statement <$> l) default_result Queued.

Lemma total_input_nonneg l : Forall readable l → 0 ≤ total input_bytes l.
Proof.
  induction 1 as [|q l Hq _ IH]; simpl; [done|]. pose proof (input_bytes_nonneg q Hq). lia.
Qed.

Lemma copy_request_Ok l r :
  Forall readable l →
  copy_request (Some l) (zlen l) o = Ok r ↔
  1 ≤ zlen l ≤ 64 ∧ Forall acceptable l ∧
  sizeof_Request + zlen l * sizeof_Statement + total input_bytes l ≤ max_request_bytes o ∧
  r = copied l.
Proof.
  intros Hr. pose proof (ok_request o Ho). pose proof (ok_result o Ho).
  pose proof sizes_positive as (? & ? & _). pose proof (total_input_nonneg l Hr).
  unfold copy_request, pointed. rewrite take_ge by (unfold zlen; lia).
  rewrite rbind_Ok. setoid_rewrite rguard_Ok. setoid_rewrite rbind_Ok. split.
  - intros (? & [Hb _] & base & Hadd & Hrest). bprop.
    rewrite rbind_Ok in Hrest. destruct Hrest as ([acc out] & Hl & [= <-]).
    unfold u64 in Hadd. rewrite Z.mod_small in Hadd by nia.
    apply add_bytes_Ok in Hadd as [-> Hle]; [|nia..].
    apply copy_statements_Ok in Hl as (Hall & -> & -> & Hle2); [|nia|done].
    simpl in *. split_and!; [lia|lia|done|lia|]. unfold copied, u64.
    rewrite !Z.mod_small by (try rewrite Z.mod_small; nia). f_equal. lia.
  - intros (Hc & Hall & Hle & ->). exists tt. split.
    { split; [|done]. rewrite negb_true_iff, !orb_false_iff, !Z.ltb_ge.
      rewrite bool_decide_eq_false_2 by done. lia. }
    exists (sizeof_Request + zlen l * sizeof_Statement). unfold u64.
    rewrite (Z.mod_small (_ + _ * _)) by nia. rewrite add_bytes_Ok by nia. split; [lia|].
    rewrite rbind_Ok. eexists (_, _). split; [apply copy_statements_Ok; [nia|done|]; by split_and!|].
    simpl. unfold copied. rewrite !Z.mod_small by (try rewrite Z.mod_small; nia). done.
Qed.

(** ** The reservation covers what is stored *)
Lemma zlen_pointed {A} (l : list A) n :
  0 ≤ n ≤ zlen l → zlen (pointed (Some l) n) = n.
Proof. apply zlen_take. Qed.

Lemma copy_value_size p :
  readable_parameter p → parameter_ok p = true → zlen (value_bytes (copy_value p)) = sp_size p.
Proof.
  intros (Hs & Ht & Hd) Hok. unfold is_u32 in Hs. unfold copy_value. simpl.
  destruct (sp_size p =? 0) eqn:E; bprop; [by rewrite E|].
  destruct (sp_data p) as [d|] eqn:Ed; [apply zlen_pointed; specialize (Hd d eq_refl); lia|].
  unfold parameter_ok in Hok. rewrite Ed in Hok.
  destruct (sp_type p <? SE_SQL_TEXT) eqn:E2; bprop.
  - destruct B2 as [?|B2]; [done|]. bprop. lia.
  - rewrite (bool_decide_eq_true_2 (None = None)) in B0 by done.
    destruct B0 as [B0|B0]; [|done]. bprop. destruct B0 as [?|?]; bprop; lia.
Qed.

Lemma statement_bytes_copy s :
  readable s → acceptable s → statement_bytes (copy_statement s) = input_bytes s.
Proof.
  intros Hr (Hok & _ & Hps). pose proof (readable_input_parameters s Hr) as Hrp.
  destruct Hr as (? & ? & Ht & Hp). unfold is_u32 in *. unfold statement_ok in Hok. bprop.
  unfold statement_bytes, input_bytes. simpl. f_equal; [f_equal|].
  - destruct (ss_sql s) as [t|] eqn:E; [|done]. apply zlen_pointed. specialize (Ht t eq_refl). lia.
  - f_equal. unfold zlen. rewrite length_fmap. fold (zlen (input_parameters s)).
    unfold input_parameters. destruct (ss_parameters s) as [l|] eqn:E.
    + apply zlen_pointed. specialize (Hp l eq_refl). lia.
    + destruct B0 as [?|?]; bprop; [|done]. by replace (ss_parameter_count s) with 0.
  - apply total_fmap. rewrite Forall_forall in *. intros p ?. apply copy_value_size; auto.
Qed.

Lemma copied_reservation l :
  Forall readable l → Forall acceptable l →
  reserved_bytes (copied l) = request_bytes (statements (copied l)) + max_result_bytes o + 1024.
Proof.
  intros Hr Ha. unfold copied, request_bytes. simpl. do 2 f_equal.
  unfold zlen. rewrite length_fmap. f_equal. symmetry. apply total_fmap.
  rewrite Forall_forall in *. intros s ?. apply statement_bytes_copy; auto.
Qed.

(** Submission copies a batch exactly when it is 1 to 64 well-formed statements
    whose total size is within the request limit; the copy holds the caller's
    text and values, and the memory it reserves is the size of what is stored
    plus the largest result, so completing it never needs memory it lacks. *)
Theorem sql_copy_exact l r :
  Forall readable l →
  (copy_request (Some l) (zlen l) o = Ok r ↔
    1 ≤ zlen l ≤ 64 ∧ Forall acceptable l ∧
    sizeof_Request + zlen l * sizeof_Statement + total input_bytes l ≤ max_request_bytes o ∧
    r = copied l) ∧
  (copy_request (Some l) (zlen l) o = Ok r →
    statements r = (copy_statement <$> l) ∧
    reserved_bytes r = request_bytes (statements r) + max_result_bytes o + 1024 ∧
    reserved_bytes r ≤ memory_budget o).
Proof.
  intros Hr. split; [by apply copy_request_Ok|].
  intros (_ & Ha & Hle & ->)%copy_request_Ok; [|done]. split; [done|].
  rewrite <- copied_reservation by done. split; [done|].
  pose proof (ok_budget o Ho). simpl. lia.
Qed.
End Request.

(** The layout of a 64-bit build, for the concrete runs. *)
#[export] Program Instance layout64 : Layout := {|
  sizeof_Request := 384; sizeof_Statement := 56; sizeof_Value := 56;
  sizeof_Result := 336; sizeof_string := 32; sizeof_row := 24;
|}.
Next Obligation. lia. Qed.

Definition sample_options : Options := mkOptions (txt "app.db") 2 4096 4096 100 8 1000 100 20000.
Lemma sample_options_ok : options_ok sample_options.
Proof. split; vm_compute; try done; split; done. Qed.
Definition sample_statement : se_sql_statement :=
  mkSeStatement (Some (txt "insert into t values(?)")) 23 1
    (Some [mkSeParameter SE_SQL_TEXT 2 0 0 (Some (txt "hi!"))]).
Lemma sample_readable : Forall readable [sample_statement].
Proof.
  constructor; [|constructor]. unfold readable, readable_parameter, is_u32. simpl.
  split; [lia|]. split; [lia|]. split.
  - intros t [= <-]. vm_compute. discriminate.
  - intros l [= <-]. split; [vm_compute; discriminate|]. constructor; [|constructor].
    simpl. split; [lia|]. split; [unfold SE_SQL_TEXT; lia|].
    intros d [= <-]. vm_compute. discriminate.
Qed.

Lemma sql_copy_exact_witness :
  ∃ r, copy_request (Some [sample_statement]) 1 sample_options = Ok r ∧
    reserved_bytes r = request_bytes (statements r) + 4096 + 1024 ∧ reserved_bytes r = 5641 ∧
    copy_request (Some []) 0 sample_options ≠ Ok r.
Proof.
  eexists. split; [vm_compute; reflexivity|].
  split; [|split; [vm_compute; reflexivity|vm_compute; discriminate]].
  refine (proj1 (proj2 (proj2
    (sql_copy_exact sample_options sample_options_ok [sample_statement] _ sample_readable) _))).
  vm_compute. reflexivity.
Defined.

