(* ===== verification/SqlService.v ===== *)
(** SqlService: admission, the single worker, delivery, release and stop of the SQL
    service ([src/src/Data/Sql/Service.h], [Service.cpp], [Driver.h]). [requests_] is
    the ordered map in key order; every block the code runs under [mutex_] is one
    step, and the worker's loop is cut where it drops the lock and again between its
    look at [stopping_] and the call of the driver, which no lock protects: a stop may
    fall in between. The driver is the class [Driver]: the service is verified against its laws. *)
From S2P Require Import Prelude.
From S2P Require Import Text.
From S2P Require Import NetTypes.
From S2P Require Import SqlTypes.

(** What one look at the outside sees while a request executes: whether the
    service is stopping, and whether the request's deadline has passed. *)
Record Look := mkLook { look_stopping : bool; look_late : bool }.

(** [src/src/Data/Sql/Driver.h:12-17] *)
Class Driver (D : Type) := {
  execute : (nat → Look) → Request → D → Request * D;
  interrupt : D → D;
}.
(** The worker hands the driver a request whose result alone it may write. *)
Class DriverLaws (D : Type) `{Driver D} := {
  execute_owner looks r d :
    let r' := (execute looks r d).1 in
    id r' = id r ∧ reserved_bytes r' = reserved_bytes r ∧ statements r' = statements r ∧ state r' = state r;
}.

(** Where the worker's loop stands: at the wait, holding the request it took, about
    to call the driver with it, holding the one it executed, or returned. *)
Inductive Worker := Waiting | Holding (rid : Z) | Cleared (rid : Z) | Executed (rid : Z) | Exited.
#[global] Instance Worker_eq_dec : EqDecision Worker.
Proof. solve_decision. Defined.

(** [src/src/Data/Sql/Service.h:42-52] [joinable_] is [worker_.joinable()]. *)
Record Service (D : Type) := mkService {
  options_ : Options;
  driver_ : D;
  requests_ : list Request;
  next_id_ : Z;
  reserved_bytes_ : Z;
  stopping_ : bool;
  worker_finished_ : bool;
  worker_ : Worker;
  joinable_ : bool;
}.
Arguments mkService {D}. Arguments options_ {D}. Arguments driver_ {D}. Arguments requests_ {D}.
Arguments next_id_ {D}. Arguments reserved_bytes_ {D}. Arguments stopping_ {D}.
Arguments worker_finished_ {D}. Arguments worker_ {D}. Arguments joinable_ {D}.

Definition set_state (st : RequestState) (r : Request) : Request :=
  mkRequest (id r) (reserved_bytes r) (statements r) (outcome r) st.
Definition set_outcome (x : Result) (r : Request) : Request :=
  mkRequest (id r) (reserved_bytes r) (statements r) x (state r).
Definition set_id (i : Z) (r : Request) : Request :=
  mkRequest i (reserved_bytes r) (statements r) (outcome r) (state r).

(** [requests_.find(id)] and a write through the pointer it holds. *)
Definition lookup_id (i : Z) (l : list Request) : option Request :=
  head (filter (λ r, id r = i) l).
Definition update_id (i : Z) (f : Request → Request) (l : list Request) : list Request :=
  (λ r, if id r =? i then f r else r) <$> l.
Definition erase_id (i : Z) (l : list Request) : list Request := filter (λ r, id r ≠ i) l.

(** [src/src/Data/Sql/Service.cpp:39-44] *)
Definition find_state (st : RequestState) (l : list Request) : option Request :=
  head (filter (λ r, state r = st) l).

(** [src/include/ServerEngine/C/Sql.h:59-70] *)
Record se_sql_result := mkSeResult {
  rs_struct_size : Z; rs_abi_version : Z; rs_request_id : Z; rs_status : se_status;
  rs_row_count : Z; rs_column_count : Z; rs_affected_rows : Z; rs_last_insert_id : Z;
  rs_message : bytes;
}.
Definition sizeof_sql_result : Z := 304.

Section Service.
Context `{Layout} {D : Type} `{Driver D}.
(** What each look during the execution of a request sees. *)
Context (looks : Z → nat → Look).

(** [src/src/Data/Sql/Service.cpp:8-11] {Service} *)
Definition new_service (o : Options) (d : D) : Service D :=
  mkService o d [] 1 0 false false Waiting true.

Definition with_requests (l : list Request) (s : Service D) : Service D :=
  mkService (options_ s) (driver_ s) l (next_id_ s) (reserved_bytes_ s) (stopping_ s)
    (worker_finished_ s) (worker_ s) (joinable_ s).
Definition with_worker (w : Worker) (s : Service D) : Service D :=
  mkService (options_ s) (driver_ s) (requests_ s) (next_id_ s) (reserved_bytes_ s) (stopping_ s)
    (worker_finished_ s) w (joinable_ s).
Definition with_driver (d : D) (s : Service D) : Service D :=
  mkService (options_ s) d (requests_ s) (next_id_ s) (reserved_bytes_ s) (stopping_ s)
    (worker_finished_ s) (worker_ s) (joinable_ s).

(** [src/src/Data/Sql/Service.cpp:18-37] *)
Definition submit (statements : option (list se_sql_statement)) (count : Z) (s : Service D)
    : result SqlError Z * Service D :=
  if stopping_ s then (Err (error SE_STOPPED "SQL service is stopped"), s)
  else if max_outstanding (options_ s) <=? zlen (requests_ s)
  then (Err (error SE_BACKPRESSURE "SQL capacity full; poll and release outstanding results"), s)
  else
    match copy_request statements count (options_ s) with
    | Err e => (Err e, s)
    | Ok request =>
        if u64 (memory_budget (options_ s) - reserved_bytes_ s) <? reserved_bytes request
        then (Err (error SE_BACKPRESSURE "SQL memory reservations full; poll and release results"), s)
        else if next_id_ s =? 2 ^ 64 - 1
        then (Err (error SE_INVALID_STATE "SQL request ID space exhausted"), s)
        else
          let request := set_id (next_id_ s) request in
          (Ok (id request),
           mkService (options_ s) (driver_ s) (requests_ s ++ [request]) (u64 (next_id_ s + 1))
             (u64 (reserved_bytes_ s + reserved_bytes request)) (stopping_ s) (worker_finished_ s)
             (worker_ s) (joinable_ s))
    end.

(** [src/src/Data/Sql/Service.cpp:48-62] {run} The worker at the wait: it goes on
    when the predicate holds. *)
Definition worker_take (s : Service D) : Service D :=
  match find_state Queued (requests_ s) with
  | Some request =>
      with_worker (Holding (id request))
        (with_requests (update_id (id request) (set_state Running) (requests_ s)) s)
  | None =>
      if stopping_ s then
        mkService (options_ s) (driver_ s) (requests_ s) (next_id_ s) (reserved_bytes_ s)
          (stopping_ s) true Exited (joinable_ s)
      else s
  end.

(** [src/src/Data/Sql/Service.cpp:64-64] {run} *)
Definition cancel (request : Request) : Request :=
  set_outcome (fail SE_SQL_CANCELLED (txt "SQL request cancelled before execution")
    (outcome request)) request.
(** [src/src/Data/Sql/Service.cpp:63-65] {run} The look at [stopping_], outside the lock. *)
Definition worker_look (rid : Z) (s : Service D) : Service D :=
  if stopping_ s then
    with_worker (Executed rid) (with_requests (update_id rid cancel (requests_ s)) s)
  else with_worker (Cleared rid) s.

(** [src/src/Data/Sql/Service.cpp:66-66] {run} *)
Definition worker_execute (rid : Z) (s : Service D) : Service D :=
  match lookup_id rid (requests_ s) with
  | None => s
  | Some request =>
      let '(request', d) := execute (looks rid) request (driver_ s) in
      with_worker (Executed rid)
        (with_driver d (with_requests (update_id rid (λ _, request') (requests_ s)) s))
  end.

(** [src/src/Data/Sql/Service.cpp:67-74] {run} *)
Definition worker_complete (rid : Z) (s : Service D) : Service D :=
  with_worker Waiting (with_requests (update_id rid (set_state Complete) (requests_ s)) s).

(** [src/src/Data/Sql/Service.cpp:46-76] One turn of the worker. *)
Definition run (s : Service D) : Service D :=
  match worker_ s with
  | Waiting => worker_take s
  | Holding rid => worker_look rid s
  | Cleared rid => worker_execute rid s
  | Executed rid => worker_complete rid s
  | Exited => s
  end.

(** [src/src/Data/Sql/Service.cpp:78-99] The decision when the wait ends: the
    predicate decides between a timeout and a delivery. *)
Definition poll (s : Service D) : se_status * option se_sql_result * Service D :=
  match find_state Complete (requests_ s) with
  | None => if worker_finished_ s then (SE_STOPPED, None, s) else (SE_TIMEOUT, None, s)
  | Some request =>
      let r := outcome request in
      (SE_OK,
       Some (mkSeResult sizeof_sql_result SE_SQL_ABI_VERSION (id request) (status r)
               (u32 (zlen (rows r))) (u32 (zlen (columns r))) (affected_rows r)
               (last_insert_id r) (message r)),
       with_requests (update_id (id request) (set_state Delivered) (requests_ s)) s)
  end.

(** [src/src/Data/Sql/Service.h:24-34] *)
Definition read_result {A} (i : Z) (reader : Result → result SqlError A) (s : Service D)
    : result SqlError A :=
  match lookup_id i (requests_ s) with
  | Some r =>
      if bool_decide (state r = Delivered) then reader (outcome r)
      else Err (error SE_INVALID_HANDLE "SQL result not delivered, released or unknown")
  | None => Err (error SE_INVALID_HANDLE "SQL result not delivered, released or unknown")
  end.

(** [src/src/Data/Sql/Service.cpp:101-109] *)
Definition release (i : Z) (s : Service D) : result SqlError unit * Service D :=
  match lookup_id i (requests_ s) with
  | Some r =>
      if bool_decide (state r = Delivered) then
        (Ok tt, mkService (options_ s) (driver_ s) (erase_id i (requests_ s)) (next_id_ s)
           (u64 (reserved_bytes_ s - reserved_bytes r)) (stopping_ s) (worker_finished_ s)
           (worker_ s) (joinable_ s))
      else (Err (error SE_INVALID_HANDLE "SQL result not delivered, released or unknown"), s)
  | None => (Err (error SE_INVALID_HANDLE "SQL result not delivered, released or unknown"), s)
  end.

(** [src/src/Data/Sql/Service.cpp:113-117] {stop} *)
Definition request_stop (s : Service D) : Service D :=
  mkService (options_ s) (driver_ s) (requests_ s) (next_id_ s) (reserved_bytes_ s) true
    (worker_finished_ s) (worker_ s) (joinable_ s).
(** [src/src/Data/Sql/Service.cpp:118-120] {stop} *)
Definition interrupt_worker (s : Service D) : Service D :=
  if joinable_ s then with_driver (interrupt (driver_ s)) s else s.

(** [src/src/Data/Sql/Service.cpp:121-121] {stop} The join returns once the worker has. *)
Fixpoint join (fuel : nat) (s : Service D) : option (Service D) :=
  match worker_ s with
  | Exited => Some (mkService (options_ s) (driver_ s) (requests_ s) (next_id_ s) (reserved_bytes_ s)
                      (stopping_ s) (worker_finished_ s) Exited false)
  | _ => match fuel with O => None | S fuel' => join fuel' (run s) end
  end.

(** [src/src/Data/Sql/Service.cpp:111-123] *)
Definition stop (fuel : nat) (s : Service D) : option (Service D) :=
  if joinable_ s then join fuel (interrupt_worker (request_stop s)) else Some (request_stop s).

(** The steps of concurrent callers and the worker. *)
Inductive Op :=
| Submit (statements : list se_sql_statement)
| Work
| Poll
| Release (i : Z)
| RequestStop
| Interrupt.

(** What a step shows: an accepted, started, completed or delivered request. *)
Inductive Shown := Accepted (i : Z) | Started (i : Z) | Completed (i : Z) | Delivery (i : Z).

Definition step (s : Service D) (op : Op) : Service D :=
  match op with
  | Submit l => (submit (Some l) (zlen l) s).2
  | Work => run s
  | Poll => (poll s).2
  | Release i => (release i s).2
  | RequestStop => request_stop s
  | Interrupt => interrupt_worker s
  end.
Definition shown (s : Service D) (op : Op) : list Shown :=
  match op with
  | Submit l => match (submit (Some l) (zlen l) s).1 with Ok i => [Accepted i] | Err _ => [] end
  | Work =>
      match worker_ s with
      | Waiting => match find_state Queued (requests_ s) with Some r => [Started (id r)] | None => [] end
      | Executed rid => [Completed rid]
      | _ => []
      end
  | Poll => match (poll s).1.2 with Some r => [Delivery (rs_request_id r)] | None => [] end
  | _ => []
  end.
Fixpoint trace (s : Service D) (ops : list Op) : list Shown :=
  match ops with [] => [] | op :: ops' => shown s op ++ trace (step s op) ops' end.
End Service.

(** * Lists of requests *)
Lemma filter_all {A} (P : A → Prop) `{∀ x, Decision (P x)} l : Forall P l → filter P l = l.
Proof.
  induction 1 as [|x l Hx _ IH]; [done|]. by rewrite filter_cons_True, IH.
Qed.
Lemma filter_none {A} (P : A → Prop) `{∀ x, Decision (P x)} l : Forall (λ x, ¬ P x) l → filter P l = [].
Proof. induction 1 as [|x l Hx _ IH]; [done|]. by rewrite filter_cons_False. Qed.

Definition ids (l : list Request) : list Z := id <$> l.

Lemma update_id_notin i f l : i ∉ ids l → update_id i f l = l.
Proof.
  induction l as [|r l IH]; [done|]. unfold ids. rewrite fmap_cons, not_elem_of_cons.
  intros [Hne Hl]. unfold update_id. rewrite fmap_cons.
  destruct (id r =? i) eqn:E; bprop; [congruence|]. f_equal. by apply IH.
Qed.
Lemma update_id_at f l1 r l2 :
  id r ∉ ids l1 → id r ∉ ids l2 → update_id (id r) f (l1 ++ r :: l2) = l1 ++ f r :: l2.
Proof.
  intros H1 H2. unfold update_id. rewrite fmap_app, fmap_cons, Z.eqb_refl.
  fold (update_id (id r) f l1) (update_id (id r) f l2). by rewrite !update_id_notin.
Qed.
Lemma filter_id_notin i l : i ∉ ids l → filter (λ r, id r = i) l = [].
Proof.
  intros Hi. apply filter_none, Forall_forall. intros r Hr <-. apply Hi, list_elem_of_fmap. eauto.
Qed.
Lemma lookup_id_at l1 r l2 : id r ∉ ids l1 → lookup_id (id r) (l1 ++ r :: l2) = Some r.
Proof.
  intros H1. unfold lookup_id. rewrite filter_app, filter_id_notin by done.
  by rewrite filter_cons_True.
Qed.
Lemma erase_id_notin i l : i ∉ ids l → erase_id i l = l.
Proof.
  intros Hi. apply filter_all, Forall_forall. intros r Hr <-. apply Hi, list_elem_of_fmap. eauto.
Qed.
Lemma lookup_id_Some i l r : lookup_id i l = Some r → id r = i ∧ r ∈ l.
Proof.
  unfold lookup_id. intros Hh. assert (r ∈ filter (λ r, id r = i) l) as Hf.
  { destruct (filter _ l); [done|]. injection Hh as ->. by left. }
  apply list_elem_of_filter in Hf. naive_solver.
Qed.
Lemma find_state_app st l k :
  Forall (λ r, state r ≠ st) l → find_state st (l ++ k) = find_state st k.
Proof. intros Hl. unfold find_state. by rewrite filter_app, filter_none. Qed.
Lemma find_state_head st l k :
  Forall (λ r, state r = st) l → Forall (λ r, state r ≠ st) k → find_state st (l ++ k) = head l.
Proof. intros Hl Hk. unfold find_state. by rewrite filter_app, filter_all, filter_none, app_nil_r. Qed.

Lemma seqZ_snoc a n : 0 ≤ n → seqZ a (n + 1) = seqZ a n ++ [a + n].
Proof. intros. by rewrite seqZ_app by lia. Qed.
Lemma seqZ_split a b c : a ≤ b → b ≤ c → seqZ a (c - a) = seqZ a (b - a) ++ seqZ b (c - b).
Proof.
  intros. replace (c - a) with ((b - a) + (c - b)) by lia. rewrite seqZ_app by lia.
  do 2 f_equal; lia.
Qed.
