(* ===== verification/SqlProperties.v ===== *)
(** SqlProperties: the invariant of the SQL service and what it gives: budgeted
    admission, execution and delivery in submission order, termination of stop,
    and outcomes that stay until released. *)
From S2P Require Import Prelude.
From S2P Require Import Text.
From S2P Require Import NetTypes.
From S2P Require Import SqlTypes.
From S2P Require Import SqlService.

Section Properties.
Context `{Layout} {D : Type} `{DriverLaws D} (looks : Z → nat → Look).
Implicit Types s : Service D.

(** The map in key order: delivered, complete, running and queued requests; [k]
    is the last identifier delivered. *)
Record shape s (k : Z) (dl cp rn qu : list Request) : Prop := {
  sh_requests : requests_ s = dl ++ cp ++ rn ++ qu;
  sh_dl : Forall (λ r, state r = Delivered) dl;
  sh_cp : Forall (λ r, state r = Complete) cp;
  sh_rn : Forall (λ r, state r = Running) rn;
  sh_qu : Forall (λ r, state r = Queued) qu;
  sh_dl_ids : NoDup (ids dl) ∧ ∀ i, i ∈ ids dl → i ≤ k;
  sh_ids : ids cp ++ ids rn ++ ids qu = seqZ (k + 1) (next_id_ s - 1 - k);
  sh_k : 0 ≤ k < next_id_ s;
  sh_next : next_id_ s < 2 ^ 64;
  sh_worker : match worker_ s with
    | Holding i | Cleared i | Executed i => ids rn = [i]
    | Waiting => rn = []
    | Exited => rn = [] ∧ qu = [] ∧ stopping_ s = true
    end;
  sh_finished : worker_finished_ s = bool_decide (worker_ s = Exited);
}.

(** What the service has reserved. *)
Record accounts s : Prop := {
  ac_options : options_ok (options_ s);
  ac_reserved : reserved_bytes_ s = total reserved_bytes (requests_ s);
  ac_budget : reserved_bytes_ s ≤ memory_budget (options_ s);
  ac_count : zlen (requests_ s) ≤ max_outstanding (options_ s);
  ac_positive : Forall (λ r, max_result_bytes (options_ s) + 1024 < reserved_bytes r) (requests_ s);
}.

Definition op_ok (op : Op) : Prop := match op with Submit l => Forall readable l | _ => True end.

(** ** Admission *)
Lemma submit_cases l s i s' :
  accounts s → Forall readable l → submit (Some l) (zlen l) s = (Ok i, s') →
  ∃ r, copy_request (Some l) (zlen l) (options_ s) = Ok r ∧ i = next_id_ s ∧
    next_id_ s ≠ 2 ^ 64 - 1 ∧ stopping_ s = false ∧
    zlen (requests_ s) < max_outstanding (options_ s) ∧
    reserved_bytes_ s + reserved_bytes r ≤ memory_budget (options_ s) ∧
    max_result_bytes (options_ s) + 1024 < reserved_bytes r ∧ state r = Queued ∧
    s' = mkService (options_ s) (driver_ s) (requests_ s ++ [set_id (next_id_ s) r])
           (u64 (next_id_ s + 1)) (reserved_bytes_ s + reserved_bytes r) (stopping_ s)
           (worker_finished_ s) (worker_ s) (joinable_ s).
Proof.
  intros [Ho Hres Hbud Hcnt Hpos] Hl Hs. unfold submit in Hs.
  destruct (stopping_ s) eqn:Hst; [done|].
  destruct (max_outstanding (options_ s) <=? zlen (requests_ s)) eqn:Hfull; [done|]. bprop.
  destruct (copy_request (Some l) (zlen l) (options_ s)) as [r|e] eqn:Hcopy; [|done].
  assert (0 ≤ reserved_bytes_ s) as Hnn.
  { rewrite Hres. pose proof (ok_result _ Ho) as Hr. clear -Hpos Hr.
    induction Hpos as [|r l Hx _ IH]; simpl; lia. }
  pose proof (ok_budget _ Ho). pose proof (ok_result _ Ho). pose proof (ok_request _ Ho).
  unfold u64 in Hs. rewrite (Z.mod_small (memory_budget _ - _)) in Hs by lia.
  destruct (_ <? _) eqn:Hmem in Hs; [done|]. destruct (next_id_ s =? _) eqn:Hid in Hs; [done|].
  bprop. injection Hs as <- <-. exists r.
  assert (max_result_bytes (options_ s) + 1024 < reserved_bytes r ∧ state r = Queued) as [Hr Hq].
  { apply copy_request_Ok in Hcopy as (? & _ & ? & ->); [|done..]. simpl.
    pose proof sizes_positive as (? & ? & _). pose proof (total_input_nonneg l Hl). split; [nia|done]. }
  rewrite (Z.mod_small (reserved_bytes_ s + _)) by lia. split_and!; auto; lia.
Qed.

Lemma submit_rejects l s e s' : submit (Some l) (zlen l) s = (Err e, s') → s' = s.
Proof. unfold submit. repeat casematch; congruence. Qed.

(** ** Positions *)
Lemma ids_app l1 l2 : ids (l1 ++ l2) = ids l1 ++ ids l2.
Proof. apply fmap_app. Qed.

Lemma shape_at s k dl cp rn qu l1 r l2 :
  shape s k dl cp rn qu → cp ++ rn ++ qu = l1 ++ r :: l2 →
  id r = k + 1 + zlen l1 ∧ id r ∉ ids (dl ++ l1) ∧ id r ∉ ids l2.
Proof.
  intros Hs E. pose proof (sh_ids _ _ _ _ _ _ Hs) as Hids.
  rewrite <- !ids_app, E, ids_app in Hids. change (ids (r :: l2)) with (id r :: ids l2) in Hids.
  assert (NoDup (ids l1 ++ id r :: ids l2)) as Hnd by (rewrite Hids; apply NoDup_seqZ).
  assert (id r = k + 1 + zlen l1) as Hr.
  { assert ((ids l1 ++ id r :: ids l2) !! length l1 = Some (id r)) as Hl.
    { rewrite lookup_app_r by (unfold ids; by rewrite length_fmap).
      unfold ids. by rewrite length_fmap, Nat.sub_diag. }
    rewrite Hids in Hl. apply lookup_seqZ in Hl as [-> _]. done. }
  apply NoDup_app in Hnd as (_ & Hn1 & Hn2). rewrite NoDup_cons in Hn2.
  split_and!; [done| |naive_solver].
  rewrite ids_app, elem_of_app. intros [Hd|Hd].
  - pose proof (proj2 (sh_dl_ids _ _ _ _ _ _ Hs) _ Hd). pose proof (zlen_nonneg l1). lia.
  - apply (Hn1 _ Hd). by left.
Qed.

Lemma accounts_swap s w d l1 r r' l2 :
  requests_ s = l1 ++ r :: l2 → reserved_bytes r' = reserved_bytes r → accounts s →
  accounts (with_worker w (with_driver d (with_requests (l1 ++ r' :: l2) s))).
Proof.
  intros E Hr [Ho Hres Hb Hc Hp]. rewrite E in Hres, Hc, Hp. split; simpl; auto.
  - rewrite Hres, !total_app, !total_cons. lia.
  - rewrite zlen_app, zlen_cons in *. lia.
  - apply Forall_app in Hp as [? Hp]. apply Forall_cons in Hp as [? ?].
    apply Forall_app. split; [done|]. constructor; [lia|done].
Qed.

(** ** What a stretch of steps shows *)
Definition accepted_ids (l : list Shown) : list Z :=
  omap (λ x, match x with Accepted i => Some i | _ => None end) l.
Definition started_ids (l : list Shown) : list Z :=
  omap (λ x, match x with Started i => Some i | _ => None end) l.
Definition completed_ids (l : list Shown) : list Z :=
  omap (λ x, match x with Completed i => Some i | _ => None end) l.
Definition delivered_ids (l : list Shown) : list Z :=
  omap (λ x, match x with Delivery i => Some i | _ => None end) l.

Definition grew (l : list Z) (a b : Z) : Prop := a ≤ b ∧ l = seqZ a (b - a).
Lemma grew_nil a : grew [] a a.
Proof. unfold grew. by rewrite Z.sub_diag. Qed.
Lemma grew_one a : grew [a] a (a + 1).
Proof. split; [lia|]. by replace (a + 1 - a) with 1 by lia. Qed.
Lemma grew_app l l' a b c : grew l a b → grew l' b c → grew (l ++ l') a c.
Proof. intros [? ->] [? ->]. split; [lia|]. symmetry. by apply seqZ_split. Qed.

(** The four counters: accepted, started, completed and delivered requests are
    those below them. *)
Record counts := mkCounts { n_accepted : Z; n_started : Z; n_completed : Z; n_delivered : Z }.
Definition counts_of s (k : Z) (cp qu : list Request) : counts :=
  mkCounts (next_id_ s) (next_id_ s - zlen qu) (k + 1 + zlen cp) (k + 1).
Definition moved (l : list Shown) (c c' : counts) : Prop :=
  grew (accepted_ids l) (n_accepted c) (n_accepted c') ∧
  grew (started_ids l) (n_started c) (n_started c') ∧
  grew (completed_ids l) (n_completed c) (n_completed c') ∧
  grew (delivered_ids l) (n_delivered c) (n_delivered c').

Lemma moved_nil c : moved [] c c.
Proof. repeat split; try apply grew_nil; lia. Qed.
Lemma moved_app l l' a b c : moved l a b → moved l' b c → moved (l ++ l') a c.
Proof.
  unfold moved, accepted_ids, started_ids, completed_ids, delivered_ids. rewrite !omap_app.
  intros (?&?&?&?) (?&?&?&?). split_and!; by eapply grew_app.
Qed.

(** The service is in a good state, its counters being [c]. *)
Definition good (c : counts) s : Prop :=
  accounts s ∧ ∃ k dl cp rn qu, shape s k dl cp rn qu ∧ c = counts_of s k cp qu.
Definition evolves (c : counts) s (out : list Shown) s' : Prop :=
  ∃ c', good c' s' ∧ moved out c c'.

Lemma evolves_stay c s : good c s → evolves c s [] s.
Proof. intros Hg. exists c. split; [done|apply moved_nil]. Qed.

Lemma ids_length l : zlen (ids l) = zlen l.
Proof. unfold zlen, ids. by rewrite length_fmap. Qed.

Lemma submit_evolves c s l :
  good c s → Forall readable l → evolves c s (shown s (Submit l)) (step looks s (Submit l)).
Proof.
  intros Hg Hl. pose proof Hg as [Ha (k & dl & cp & rn & qu & Hs & ->)]. simpl.
  destruct (submit (Some l) (zlen l) s) as [[i|e] s'] eqn:E; simpl;
    [|apply submit_rejects in E as ->; by apply evolves_stay].
  apply submit_cases in E as (r & _ & -> & Hid & Hst & Hcnt & Hbud & Hpos & Hq & ->); [|done..].
  destruct Hs as [Hreq ? ? ? ? ? Hids ? ? Hw ?]. destruct Ha as [? Hres ? ? Hpos'].
  assert (u64 (next_id_ s + 1) = next_id_ s + 1) as Hn by (apply u64_small; unfold is_u64; lia).
  rewrite Hn.
  exists (counts_of (mkService (options_ s) (driver_ s) (requests_ s ++ [set_id (next_id_ s) r])
           (next_id_ s + 1) (reserved_bytes_ s + reserved_bytes r) (stopping_ s)
           (worker_finished_ s) (worker_ s) (joinable_ s)) k cp (qu ++ [set_id (next_id_ s) r])).
  split; [split|].
  - split; simpl; auto.
    + rewrite total_app, Hres. simpl. lia.
    + rewrite zlen_app, zlen_cons, zlen_nil. lia.
    + apply Forall_app. split; [done|]. by constructor.
  - exists k, dl, cp, rn, (qu ++ [set_id (next_id_ s) r]). split; [|done]. split; simpl; auto; try lia.
    + rewrite Hreq. by rewrite <- !app_assoc.
    + apply Forall_app. split; [done|]. by constructor.
    + rewrite ids_app, !(assoc_L (++)), <- (assoc_L _ (ids cp)), Hids.
      replace (next_id_ s + 1 - 1 - k) with (next_id_ s - 1 - k + 1) by lia.
      rewrite seqZ_snoc by lia. f_equal. simpl. f_equal. lia.
    + destruct (worker_ s); auto. naive_solver congruence.
  - unfold counts_of. simpl. rewrite zlen_app, zlen_cons, zlen_nil.
    replace (next_id_ s + 1 - (zlen qu + (1 + 0))) with (next_id_ s - zlen qu) by lia.
    split_and!; try apply grew_nil; apply grew_one.
Qed.

Lemma idle_shape s k dl cp rn qu :
  shape s k dl cp rn qu → Forall (λ r, state r ≠ Queued) (dl ++ cp ++ rn) ∧
  Forall (λ r, state r ≠ Complete) dl ∧ Forall (λ r, state r ≠ Complete) (rn ++ qu).
Proof.
  intros [_ Hd Hc Hr Hq _ _ _ _ _ _]. rewrite !Forall_app.
  split_and!; eapply Forall_impl; try eassumption; simpl; congruence.
Qed.

Lemma queued_head s k dl cp rn qu :
  shape s k dl cp rn qu → find_state Queued (requests_ s) = head qu.
Proof.
  intros Hs. rewrite (sh_requests _ _ _ _ _ _ Hs), !(assoc_L (++)), <- (assoc_L _ dl).
  rewrite find_state_app by apply (idle_shape _ _ _ _ _ _ Hs).
  rewrite <- (app_nil_r qu) at 1. apply find_state_head; [apply Hs|constructor].
Qed.
Lemma complete_head s k dl cp rn qu :
  shape s k dl cp rn qu → find_state Complete (requests_ s) = head cp.
Proof.
  intros Hs. destruct (idle_shape _ _ _ _ _ _ Hs) as (_ & Hd & Hq).
  rewrite (sh_requests _ _ _ _ _ _ Hs), find_state_app by done.
  apply find_state_head; [apply Hs|done].
Qed.

Lemma ids_nonempty l i : ids l = [i] → ∃ r, l = [r] ∧ id r = i.
Proof. destruct l as [|r [|]]; intros [=]. eauto. Qed.

Lemma take_evolves c s :
  good c s → worker_ s = Waiting → evolves c s (shown s Work) (worker_take s).
Proof.
  intros Hg Hw. pose proof Hg as [Ha (k & dl & cp & rn & qu & Hs & ->)]. simpl. rewrite Hw.
  unfold worker_take. rewrite (queued_head _ _ _ _ _ _ Hs). pose proof (sh_worker _ _ _ _ _ _ Hs) as Hrn.
  rewrite Hw in Hrn. subst rn. destruct qu as [|r qu]; simpl.
  - destruct (stopping_ s) eqn:Hst; [|by apply evolves_stay].
    exists (counts_of s k cp []). split; [split|apply moved_nil].
    + by destruct Ha.
    + exists k, dl, cp, [], []. split; [|done].
      destruct Hs as [? ? ? ? ? ? ? ? ? ? Hf]. split; simpl; auto.
  - destruct (shape_at _ _ _ _ _ _ cp r qu Hs eq_refl) as (_ & Hn1 & Hn2).
    pose proof (sh_requests _ _ _ _ _ _ Hs) as Hreq. simpl in Hreq. rewrite (assoc_L (++)) in Hreq.
    rewrite Hreq, update_id_at by done.
    exists (counts_of s k cp qu). split; [split|].
    + apply (accounts_swap s (Holding (id r)) (driver_ s) (dl ++ cp) r); [done|done|done].
    + exists k, dl, cp, [set_state Running r], qu. split; [|done].
      destruct Hs as [? ? ? ? Hqu ? Hids ? ? ? Hf]. apply Forall_cons in Hqu as [? ?].
      rewrite Hw in Hf. split; simpl; auto; try (by rewrite <- (assoc_L (++)));
        by repeat constructor.
    + unfold counts_of, moved. simpl. rewrite zlen_cons.
      replace (id r) with (next_id_ s - (1 + zlen qu)).
      * replace (next_id_ s - zlen qu) with (next_id_ s - (1 + zlen qu) + 1) by lia.
        split_and!; try apply grew_nil; apply grew_one.
      * pose proof (sh_ids _ _ _ _ _ _ Hs) as Hids. simpl in Hids.
        apply (f_equal zlen) in Hids. rewrite zlen_app, ids_length in Hids.
        change (id r :: ids qu) with (ids (r :: qu)) in Hids. rewrite ids_length, zlen_cons in Hids.
        unfold zlen at 3 in Hids. rewrite length_seqZ in Hids. pose proof (sh_k _ _ _ _ _ _ Hs).
        destruct (shape_at _ _ _ _ _ _ cp r qu Hs eq_refl) as (-> & _ & _). lia.
Qed.

Lemma look_evolves c s rid :
  good c s → worker_ s = Holding rid → evolves c s [] (worker_look rid s).
Proof.
  intros Hg Hw. pose proof Hg as [Ha (k & dl & cp & rn & qu & Hs & ->)].
  pose proof (sh_worker _ _ _ _ _ _ Hs) as Hrn. rewrite Hw in Hrn.
  apply ids_nonempty in Hrn as (r & -> & <-).
  destruct (shape_at _ _ _ _ _ _ cp r qu Hs eq_refl) as (_ & Hn1 & Hn2).
  pose proof (sh_requests _ _ _ _ _ _ Hs) as Hreq. simpl in Hreq. rewrite (assoc_L (++)) in Hreq.
  exists (counts_of s k cp qu). unfold worker_look. destruct (stopping_ s).
  - rewrite Hreq, update_id_at by done. split; [split|apply moved_nil].
    + by apply (accounts_swap s (Executed (id r)) (driver_ s) (dl ++ cp) r).
    + exists k, dl, cp, [cancel r], qu. split; [|done].
      destruct Hs as [? ? ? Hrn ? ? Hids ? ? ? Hf]. rewrite Hw in Hf.
      apply Forall_cons in Hrn as [? _]. split; simpl in *; auto.
      by rewrite <- (assoc_L (++)).
  - split; [split|apply moved_nil]; [by destruct Ha|]. exists k, dl, cp, [r], qu. split; [|done].
    destruct Hs as [? ? ? ? ? ? ? ? ? ? Hf]. rewrite Hw in Hf. by split.
Qed.

Lemma execute_evolves c s rid :
  good c s → worker_ s = Cleared rid → evolves c s [] (worker_execute looks rid s).
Proof.
  intros Hg Hw. pose proof Hg as [Ha (k & dl & cp & rn & qu & Hs & ->)].
  pose proof (sh_worker _ _ _ _ _ _ Hs) as Hrn. rewrite Hw in Hrn.
  apply ids_nonempty in Hrn as (r & -> & <-).
  destruct (shape_at _ _ _ _ _ _ cp r qu Hs eq_refl) as (_ & Hn1 & Hn2).
  pose proof (sh_requests _ _ _ _ _ _ Hs) as Hreq. simpl in Hreq. rewrite (assoc_L (++)) in Hreq.
  unfold worker_execute. rewrite Hreq, lookup_id_at by done.
  destruct (execute_owner (looks (id r)) r (driver_ s)) as (Hi & Hb & _ & Hst).
  destruct (execute (looks (id r)) r (driver_ s)) as [r' d]. simpl in Hi, Hb, Hst.
  rewrite update_id_at by done.
  exists (counts_of s k cp qu). split; [split|apply moved_nil].
  - by apply (accounts_swap s _ d (dl ++ cp) r).
  - exists k, dl, cp, [r'], qu. split; [|done].
    destruct Hs as [? ? ? Hrn ? ? Hids ? ? ? Hf]. rewrite Hw in Hf.
    apply Forall_cons in Hrn as [? _]. split; simpl in *; auto.
    + by rewrite <- (assoc_L (++)).
    + constructor; [congruence|constructor].
    + by rewrite Hi.
    + by rewrite Hi.
Qed.

Lemma complete_evolves c s rid :
  good c s → worker_ s = Executed rid → evolves c s [Completed rid] (worker_complete rid s).
Proof.
  intros Hg Hw. pose proof Hg as [Ha (k & dl & cp & rn & qu & Hs & ->)].
  pose proof (sh_worker _ _ _ _ _ _ Hs) as Hrn. rewrite Hw in Hrn.
  apply ids_nonempty in Hrn as (r & -> & <-).
  destruct (shape_at _ _ _ _ _ _ cp r qu Hs eq_refl) as (Hr & Hn1 & Hn2).
  pose proof (sh_requests _ _ _ _ _ _ Hs) as Hreq. simpl in Hreq. rewrite (assoc_L (++)) in Hreq.
  unfold worker_complete. rewrite Hreq, update_id_at by done.
  exists (counts_of s k (cp ++ [set_state Complete r]) qu). split; [split|].
  - by apply (accounts_swap s Waiting (driver_ s) (dl ++ cp) r).
  - exists k, dl, (cp ++ [set_state Complete r]), [], qu. split; [|done].
    destruct Hs as [? ? ? Hrn ? ? Hids ? ? ? Hf]. rewrite Hw in Hf.
    split; simpl in *; auto.
    + by rewrite <- !(assoc_L (++)).
    + apply Forall_app. split; [done|]. by repeat constructor.
    + by rewrite ids_app, <- (assoc_L (++)).
  - unfold counts_of, moved. simpl. rewrite zlen_app, zlen_cons, zlen_nil, Hr.
    replace (k + 1 + (zlen cp + (1 + 0))) with (k + 1 + zlen cp + 1) by lia.
    split_and!; try apply grew_nil; apply grew_one.
Qed.

Lemma poll_evolves c s : good c s → evolves c s (shown s Poll) (poll s).2.
Proof.
  intros Hg. pose proof Hg as [Ha (k & dl & cp & rn & qu & Hs & ->)]. simpl. unfold poll.
  rewrite (complete_head _ _ _ _ _ _ Hs). destruct cp as [|r cp]; simpl.
  - destruct (worker_finished_ s); by apply evolves_stay.
  - destruct (shape_at _ _ _ _ _ _ [] r (cp ++ rn ++ qu) Hs eq_refl) as (Hr & Hn1 & Hn2).
    rewrite app_nil_r in Hn1. rewrite zlen_nil, Z.add_0_r in Hr.
    pose proof (sh_requests _ _ _ _ _ _ Hs) as Hreq. simpl in Hreq.
    rewrite Hreq, update_id_at by done.
    exists (counts_of s (k + 1) cp qu). split; [split|].
    + by apply (accounts_swap s (worker_ s) (driver_ s) dl r).
    + exists (k + 1), (dl ++ [set_state Delivered r]), cp, rn, qu. split; [|done].
      destruct Hs as [? ? Hcp ? ? [Hnd Hle] Hids ? ? ? Hf]. apply Forall_cons in Hcp as [? ?].
      simpl in Hids. rewrite Hr in Hids. destruct (decide (next_id_ s - 1 - k ≤ 0)) as [Hz|Hz].
      { rewrite seqZ_nil in Hids by lia. done. }
      rewrite seqZ_cons in Hids by lia. injection Hids as Hids.
      split; simpl; auto; try lia.
      * by rewrite <- (assoc_L (++)).
      * apply Forall_app. split; [done|]. by repeat constructor.
      * rewrite ids_app. simpl. split.
        -- apply NoDup_app. split_and!; [done| |apply NoDup_singleton].
           intros i Hi Hx. apply list_elem_of_singleton in Hx as ->. by apply Hn1.
        -- intros i [Hi|Hi]%elem_of_app; [apply Hle in Hi|apply list_elem_of_singleton in Hi]; lia.
      * rewrite Hids. f_equal; lia.
    + unfold counts_of, moved. simpl. rewrite zlen_cons, Hr.
      replace (k + 1 + 1 + zlen cp) with (k + 1 + (1 + zlen cp)) by lia.
      split_and!; try apply grew_nil; apply grew_one.
Qed.

Lemma erase_at l1 r l2 :
  id r ∉ ids l1 → id r ∉ ids l2 → erase_id (id r) (l1 ++ r :: l2) = l1 ++ l2.
Proof.
  intros. unfold erase_id. rewrite filter_app, filter_cons_False by naive_solver.
  fold (erase_id (id r) l1) (erase_id (id r) l2). by rewrite !erase_id_notin.
Qed.

(** A delivered request splits the delivered part of the map. *)
Lemma delivered_split s k dl cp rn qu r :
  shape s k dl cp rn qu → lookup_id (id r) (requests_ s) = Some r → state r = Delivered →
  ∃ d1 d2, dl = d1 ++ r :: d2 ∧ id r ∉ ids d1 ∧ id r ∉ ids (d2 ++ cp ++ rn ++ qu).
Proof.
  intros [Hreq ? Hc Hr Hq [Hnd Hle] Hids _ _ _ _] [_ Hin]%lookup_id_Some Hst.
  rewrite Hreq, !elem_of_app in Hin.
  destruct Hin as [Hin|[Hin|[Hin|Hin]]]; [|rewrite Forall_forall in *; naive_solver congruence..].
  apply list_elem_of_split in Hin as (d1 & d2 & ->). exists d1, d2. split; [done|].
  rewrite ids_app in Hnd. change (ids (r :: d2)) with (id r :: ids d2) in Hnd.
  apply NoDup_app in Hnd as (_ & Hn1 & Hn2). rewrite NoDup_cons in Hn2.
  split; [intros Hi; apply (Hn1 _ Hi); by left|].
  rewrite !ids_app, Hids, elem_of_app, elem_of_seqZ.
  intros [Hi|Hi]; [naive_solver|].
  assert (id r ≤ k); [|lia]. apply Hle. rewrite ids_app, elem_of_app. right. by left.
Qed.

Lemma release_evolves c s i : good c s → evolves c s [] (release i s).2.
Proof.
  intros Hg. pose proof Hg as [Ha (k & dl & cp & rn & qu & Hs & ->)]. unfold release.
  destruct (lookup_id i (requests_ s)) as [r|] eqn:Hl; [|by apply evolves_stay].
  destruct (bool_decide (state r = Delivered)) eqn:Hst; [bprop|by apply evolves_stay].
  pose proof (lookup_id_Some _ _ _ Hl) as [<- _].
  destruct (delivered_split _ _ _ _ _ _ _ Hs Hl Hst) as (d1 & d2 & -> & Hn1 & Hn2).
  pose proof (sh_requests _ _ _ _ _ _ Hs) as Hreq. rewrite <- (assoc_L (++)) in Hreq. simpl in Hreq.
  destruct Ha as [Ho Hres Hb Hc Hp]. rewrite Hreq in Hres, Hc, Hp.
  apply Forall_app in Hp as [Hp1 Hp]. apply Forall_cons in Hp as [Hpr Hp].
  pose proof (ok_result _ Ho). pose proof (ok_budget _ Ho).
  assert (∀ l, Forall (λ r, max_result_bytes (options_ s) + 1024 < reserved_bytes r) l →
    0 ≤ total reserved_bytes l) as Hnn by (induction 1; simpl; lia).
  pose proof (Hnn _ Hp1). pose proof (Hnn _ Hp). rewrite total_app, total_cons in Hres.
  exists (counts_of s k cp qu). split; [split|apply moved_nil]; simpl.
  - rewrite Hreq, erase_at by done. split; simpl; auto.
    + rewrite u64_small by (unfold is_u64; lia). rewrite total_app. lia.
    + rewrite u64_small by (unfold is_u64; lia). lia.
    + rewrite zlen_app, zlen_cons in Hc. rewrite zlen_app. lia.
    + by apply Forall_app.
  - rewrite Hreq, erase_at by done. exists k, (d1 ++ d2), cp, rn, qu. split; [|done].
    destruct Hs as [? Hd ? ? ? [Hnd Hle] ? ? ? ? ?]. split; simpl; auto.
    + by rewrite <- (assoc_L (++)).
    + apply Forall_app in Hd as [? Hd]. apply Forall_cons in Hd as [_ ?]. by apply Forall_app.
    + rewrite ids_app in Hnd, Hle. change (ids (r :: d2)) with (id r :: ids d2) in Hnd, Hle.
      apply NoDup_app in Hnd as (? & Hx & Hy). apply NoDup_cons in Hy as [? ?]. rewrite ids_app. split.
      * apply NoDup_app. split_and!; [done| |done]. intros j Hj Hj2. apply (Hx j Hj). by right.
      * intros j Hj. apply Hle. rewrite elem_of_app, elem_of_cons in *. naive_solver.
Qed.

Lemma step_evolves c s op :
  good c s → op_ok op → evolves c s (shown s op) (step looks s op).
Proof.
  intros Hg Hop. destruct op as [l| | |i| |]; simpl.
  - by apply submit_evolves.
  - unfold run. destruct (worker_ s) as [|rid|rid|rid|] eqn:Hw.
    + pose proof (take_evolves c s Hg Hw) as Ht. simpl in Ht. by rewrite Hw in Ht.
    + by apply look_evolves.
    + by apply execute_evolves.
    + by apply complete_evolves.
    + by apply evolves_stay.
  - by apply poll_evolves.
  - by apply release_evolves.
  - destruct Hg as [Ha (k & dl & cp & rn & qu & Hs & ->)].
    exists (counts_of s k cp qu). split; [split|apply moved_nil].
    + by destruct Ha.
    + exists k, dl, cp, rn, qu. split; [|done]. destruct Hs as [? ? ? ? ? ? ? ? ? Hw ?].
      split; simpl; auto. destruct (worker_ s); naive_solver.
  - unfold interrupt_worker. destruct (joinable_ s); [|by apply evolves_stay].
    destruct Hg as [Ha (k & dl & cp & rn & qu & Hs & ->)].
    exists (counts_of s k cp qu). split; [split|apply moved_nil].
    + by destruct Ha.
    + exists k, dl, cp, rn, qu. split; [|done]. by destruct Hs.
Qed.

Lemma runs_evolve ops c s :
  good c s → Forall op_ok ops → evolves c s (trace looks s ops) (runs (step looks) s ops).
Proof.
  revert c s. induction ops as [|op ops IH]; intros c s Hg Hops; [by apply evolves_stay|].
  apply Forall_cons in Hops as [Hop Hops].
  destruct (step_evolves c s op Hg Hop) as (c' & Hg' & Hm).
  destruct (IH c' _ Hg' Hops) as (c'' & Hg'' & Hm').
  exists c''. split; [done|]. by eapply moved_app.
Qed.

Lemma new_good o d : options_ok o → good (mkCounts 1 1 1 1) (new_service o d).
Proof.
  intros Ho. split.
  - split; simpl; auto; try (pose proof (ok_budget o Ho); pose proof (ok_result o Ho);
      pose proof (ok_request o Ho); pose proof (ok_outstanding o Ho); rewrite ?zlen_nil; lia).
  - exists 0, [], [], [], []. split; [|done]. split; simpl; auto; try lia.
    split; [constructor|]. intros i Hi. by apply elem_of_nil in Hi.
Qed.

(** ** Stopping *)
Definition turns (ops : list Op) : Z := total (λ op, match op with Work => 1 | _ => 0 end) ops.

(** The worker's turns before it returns, once the service is stopping. *)
Definition turns_left s : Z :=
  4 * zlen (filter (λ r, state r = Queued) (requests_ s))
  + match worker_ s with Waiting => 1 | Holding _ => 4 | Cleared _ => 3 | Executed _ => 2 | Exited => 0 end.

Lemma queued_of_shape s k dl cp rn qu :
  shape s k dl cp rn qu → filter (λ r, state r = Queued) (requests_ s) = qu.
Proof.
  intros Hs. rewrite (sh_requests _ _ _ _ _ _ Hs), !(assoc_L (++)), <- (assoc_L _ dl), filter_app.
  rewrite filter_none by apply (idle_shape _ _ _ _ _ _ Hs). apply filter_all, Hs.
Qed.

Lemma turns_left_bound c s : good c s → turns_left s ≤ 4 * zlen (requests_ s) + 1.
Proof.
  intros [_ (k & dl & cp & rn & qu & Hs & _)]. unfold turns_left.
  rewrite (queued_of_shape _ _ _ _ _ _ Hs), (sh_requests _ _ _ _ _ _ Hs), !zlen_app.
  pose proof (sh_worker _ _ _ _ _ _ Hs) as Hw. pose proof (zlen_nonneg dl). pose proof (zlen_nonneg cp).
  pose proof (zlen_nonneg rn). pose proof (zlen_nonneg qu).
  destruct (worker_ s); try lia; apply ids_nonempty in Hw as (r & -> & _);
    rewrite zlen_cons, zlen_nil; lia.
Qed.

Lemma update_state_queued s k dl cp rn qu i f :
  shape s k dl cp rn qu → ids rn = [i] → (∀ r, state (f r) ≠ Queued) →
  filter (λ r, state r = Queued) (update_id i f (requests_ s)) = qu.
Proof.
  intros Hs Hrn Hf. apply ids_nonempty in Hrn as (r & -> & <-).
  destruct (shape_at _ _ _ _ _ _ cp r qu Hs eq_refl) as (_ & Hn1 & Hn2).
  destruct (idle_shape _ _ _ _ _ _ Hs) as (Hidle & _ & _). rewrite (assoc_L (++)), Forall_app in Hidle.
  rewrite (sh_requests _ _ _ _ _ _ Hs). simpl. rewrite (assoc_L (++)), update_id_at by done.
  rewrite filter_app, filter_none by apply Hidle. rewrite filter_cons_False by apply Hf.
  apply filter_all, Hs.
Qed.

Lemma update_running_queued s k dl cp rn qu i f :
  shape s k dl cp rn qu → ids rn = [i] → (∀ r, state r = Running → state (f r) = Running) →
  filter (λ r, state r = Queued) (update_id i f (requests_ s)) = qu.
Proof.
  intros Hs Hrn Hf. apply ids_nonempty in Hrn as (r & -> & <-).
  destruct (shape_at _ _ _ _ _ _ cp r qu Hs eq_refl) as (_ & Hn1 & Hn2).
  pose proof (sh_rn _ _ _ _ _ _ Hs) as Hr. apply Forall_cons in Hr as [Hr _].
  rewrite <- (update_state_queued s k dl cp [r] qu (id r) (λ _, f r)); [|done|done|].
  - rewrite (sh_requests _ _ _ _ _ _ Hs). simpl. by rewrite (assoc_L (++)), !update_id_at.
  - intros _. rewrite (Hf r Hr). done.
Qed.

Lemma run_turn c s :
  good c s → stopping_ s = true → worker_ s ≠ Exited → turns_left (run looks s) ≤ turns_left s - 1.
Proof.
  intros [_ (k & dl & cp & rn & qu & Hs & _)] Hst Hne. unfold turns_left at 2.
  rewrite (queued_of_shape _ _ _ _ _ _ Hs). pose proof (sh_worker _ _ _ _ _ _ Hs) as Hw.
  unfold run. destruct (worker_ s) as [|rid|rid|rid|] eqn:Ew; [| | | |done].
  - unfold worker_take. rewrite (queued_head _ _ _ _ _ _ Hs). subst rn.
    destruct qu as [|r qu]; simpl; rewrite ?Hst; unfold turns_left; simpl.
    + rewrite (queued_of_shape _ _ _ _ _ _ Hs). unfold zlen. simpl. lia.
    + destruct (shape_at _ _ _ _ _ _ cp r qu Hs eq_refl) as (_ & Hn1 & Hn2).
      destruct (idle_shape _ _ _ _ _ _ Hs) as (Hidle & _ & _).
      rewrite (sh_requests _ _ _ _ _ _ Hs). simpl in *. rewrite app_nil_r in Hidle.
      rewrite (assoc_L (++)), update_id_at, filter_app, filter_none by done.
      rewrite filter_cons_False by done. pose proof (sh_qu _ _ _ _ _ _ Hs) as Hq.
      apply Forall_cons in Hq as [_ Hq]. rewrite filter_all by done. simpl. rewrite zlen_cons. lia.
  - unfold worker_look. rewrite Hst. unfold turns_left. simpl.
    erewrite (update_running_queued s k dl cp rn qu); [lia|done|done|]. intros r' Hr'. done.
  - pose proof Hw as (r & -> & <-)%ids_nonempty.
    destruct (shape_at _ _ _ _ _ _ cp r qu Hs eq_refl) as (_ & Hn1 & Hn2).
    unfold worker_execute. rewrite (sh_requests _ _ _ _ _ _ Hs) at 1. simpl.
    rewrite (assoc_L (++)), lookup_id_at by done.
    destruct (execute_owner (looks (id r)) r (driver_ s)) as (_ & _ & _ & Hx).
    destruct (execute (looks (id r)) r (driver_ s)) as [r' d]. simpl in Hx. unfold turns_left. simpl.
    erewrite update_state_queued; [|done|done|]; [lia|].
    pose proof (sh_rn _ _ _ _ _ _ Hs) as Hrn. apply Forall_cons in Hrn as [Hrn _]. congruence.
  - unfold worker_complete, turns_left. simpl. erewrite update_state_queued; [|done|done|done]. lia.
Qed.

Lemma poll_turn c s : good c s → turns_left (poll s).2 = turns_left s.
Proof.
  intros [_ (k & dl & cp & rn & qu & Hs & _)]. unfold poll, turns_left.
  rewrite (complete_head _ _ _ _ _ _ Hs). destruct cp as [|r cp]; simpl;
    [by destruct (worker_finished_ s)|].
  destruct (shape_at _ _ _ _ _ _ [] r (cp ++ rn ++ qu) Hs eq_refl) as (_ & Hn1 & Hn2).
  rewrite app_nil_r in Hn1. rewrite (sh_requests _ _ _ _ _ _ Hs). simpl.
  rewrite update_id_at, !filter_app, !filter_cons_False; try done.
  pose proof (sh_cp _ _ _ _ _ _ Hs) as Hc. apply Forall_cons in Hc as [Hc _]. by rewrite Hc.
Qed.

Lemma release_turn c s i : good c s → turns_left (release i s).2 = turns_left s.
Proof.
  intros [_ (k & dl & cp & rn & qu & Hs & _)]. unfold release.
  destruct (lookup_id i (requests_ s)) as [r|] eqn:Hl; [|done].
  destruct (bool_decide (state r = Delivered)) eqn:Hst; [bprop|done].
  pose proof (lookup_id_Some _ _ _ Hl) as [<- _].
  destruct (delivered_split _ _ _ _ _ _ _ Hs Hl Hst) as (d1 & d2 & -> & Hn1 & Hn2).
  unfold turns_left. simpl. rewrite (sh_requests _ _ _ _ _ _ Hs), <- (assoc_L (++)). simpl.
  rewrite erase_at, !filter_app, filter_cons_False by (done || congruence). by rewrite !filter_app.
Qed.

Lemma step_stopping s op : stopping_ s = true → stopping_ (step looks s op) = true.
Proof.
  intros Hst. destruct op; simpl.
  - unfold submit. by rewrite Hst.
  - unfold run, worker_take, worker_look, worker_execute, worker_complete.
    repeat (casematch; simpl); congruence.
  - unfold poll. repeat casematch; done.
  - unfold release. repeat casematch; done.
  - done.
  - unfold interrupt_worker. by casematch.
Qed.

Lemma step_turn c s op :
  good c s → stopping_ s = true →
  turns_left (step looks s op) ≤ Z.max 0 (turns_left s - turns [op]).
Proof.
  intros Hg Hst. unfold turns. rewrite total_cons, total_nil.
  destruct op as [l| | |i| |]; simpl.
  - unfold submit. rewrite Hst. simpl. lia.
  - destruct (decide (worker_ s = Exited)) as [He|Hne].
    + unfold run. rewrite He. destruct Hg as [_ (k & dl & cp & rn & qu & Hs & _)].
      unfold turns_left. rewrite (queued_of_shape _ _ _ _ _ _ Hs), He.
      pose proof (sh_worker _ _ _ _ _ _ Hs) as Hw. rewrite He in Hw.
      destruct Hw as (_ & -> & _). unfold zlen; simpl; lia.
    + pose proof (run_turn c s Hg Hst Hne). lia.
  - rewrite (poll_turn c s) by done. lia.
  - rewrite (release_turn c s) by done. lia.
  - unfold turns_left. simpl. lia.
  - unfold interrupt_worker, turns_left. destruct (joinable_ s); simpl; lia.
Qed.

Lemma turns_left_zero s : turns_left s ≤ 0 → worker_ s = Exited.
Proof.
  unfold turns_left. pose proof (zlen_nonneg (filter (λ r, state r = Queued) (requests_ s))).
  destruct (worker_ s); [lia..|done].
Qed.

Lemma stopping_exits ops c s :
  good c s → stopping_ s = true → Forall op_ok ops → turns_left s ≤ turns ops →
  worker_ (runs (step looks) s ops) = Exited.
Proof.
  revert c s. induction ops as [|op ops IH]; intros c s Hg Hst Hops Hle.
  - by apply turns_left_zero.
  - apply Forall_cons in Hops as [Hop Hops]. unfold turns in Hle. rewrite total_cons in Hle.
    fold (turns ops) in Hle. pose proof (step_turn c s op Hg Hst) as Ht.
    unfold turns in Ht at 1. rewrite total_cons, total_nil, Z.add_0_r in Ht.
    destruct (step_evolves c s op Hg Hop) as (c' & Hg' & _).
    apply (IH c'); [done|by apply step_stopping|done|].
    assert (0 ≤ turns ops) by (apply total_nonneg; intros []; lia). lia.
Qed.

(** Joining is running the worker to its return. *)
Definition joined s : Service D :=
  mkService (options_ s) (driver_ s) (requests_ s) (next_id_ s) (reserved_bytes_ s)
    (stopping_ s) (worker_finished_ s) (worker_ s) false.
Lemma join_runs fuel s :
  worker_ (runs (step looks) s (replicate fuel Work)) = Exited →
  join looks fuel s = Some (joined (runs (step looks) s (replicate fuel Work))).
Proof.
  assert (∀ n s, worker_ s = Exited → runs (step looks) s (replicate n Work) = s) as Hstay.
  { intros n s' Hw. induction n as [|n IH]; [done|]. simpl. unfold run. by rewrite Hw. }
  revert s. induction fuel as [|fuel IH]; intros s Hw; simpl in *.
  - unfold joined. simpl. by rewrite Hw.
  - destruct (worker_ s) as [| | | |] eqn:E; [by apply IH..|].
    assert (run looks s = s) as Hrun by (unfold run; by rewrite E).
    rewrite Hrun, Hstay by done. unfold joined. by rewrite E.
Qed.

(** ** Order of the counters *)
Lemma counts_ordered c s :
  good c s →
  1 ≤ n_delivered c ∧ n_delivered c ≤ n_completed c ∧ n_completed c ≤ n_started c ∧
  n_started c ≤ n_accepted c ∧ n_started c ≤ n_completed c + 1 ∧ n_accepted c = next_id_ s ∧
  (worker_ s = Exited → n_completed c = n_accepted c).
Proof.
  intros [_ (k & dl & cp & rn & qu & Hs & ->)]. unfold counts_of. simpl.
  pose proof (sh_k _ _ _ _ _ _ Hs) as Hk. pose proof (sh_worker _ _ _ _ _ _ Hs) as Hw.
  pose proof (sh_ids _ _ _ _ _ _ Hs) as Hids. apply (f_equal zlen) in Hids.
  rewrite !zlen_app, !ids_length in Hids. unfold zlen at 4 in Hids. rewrite length_seqZ in Hids.
  pose proof (zlen_nonneg cp). pose proof (zlen_nonneg qu). pose proof (zlen_nonneg rn).
  assert (zlen rn ≤ 1 ∧ (worker_ s = Exited → zlen rn = 0 ∧ zlen qu = 0)) as [Hr1 Hr2].
  { destruct (worker_ s) as [|i|i|i|]; [subst rn| | | |destruct Hw as (-> & -> & _)];
      try (apply ids_nonempty in Hw as (r & -> & _)); (split; [vm_compute|]; done). }
  split_and!; try lia. intros He. apply Hr2 in He. lia.
Qed.

(** ** Outcomes stay *)
Definition settled (r : Request) : Prop := state r = Complete ∨ state r = Delivered.
Definition holds_outcome (i : Z) (x : Result) (l : list Statement) s : Prop :=
  ∃ r, lookup_id i (requests_ s) = Some r ∧ settled r ∧ outcome r = x ∧ statements r = l.

Lemma lookup_id_cons i r l :
  lookup_id i (r :: l) = if decide (id r = i) then Some r else lookup_id i l.
Proof.
  unfold lookup_id. destruct (decide (id r = i)).
  - by rewrite filter_cons_True.
  - by rewrite filter_cons_False.
Qed.
Lemma lookup_id_app i l l' r : lookup_id i l = Some r → lookup_id i (l ++ l') = Some r.
Proof.
  induction l as [|q l IH]; [done|]. simpl. rewrite !lookup_id_cons. destruct (decide _); auto.
Qed.
Lemma lookup_update i j f l :
  (∀ r, id r = j → id (f r) = j) →
  lookup_id i (update_id j f l) = (if decide (i = j) then f else Datatypes.id) <$> lookup_id i l.
Proof.
  intros Hf. induction l as [|q l IH]; [by destruct (decide _)|].
  unfold update_id. rewrite fmap_cons. fold (update_id j f l). rewrite !lookup_id_cons, IH.
  destruct (id q =? j) eqn:E; bprop.
  - rewrite (Hf q E). subst. destruct (decide (id q = i)), (decide (i = id q)); congruence || done.
  - destruct (decide (id q = i)), (decide (i = j)); congruence || done.
Qed.
Lemma lookup_erase i j l : i ≠ j → lookup_id i (erase_id j l) = lookup_id i l.
Proof.
  intros Hne. induction l as [|q l IH]; [done|]. unfold erase_id.
  destruct (decide (id q = j)) as [He|He].
  - rewrite filter_cons_False by naive_solver. fold (erase_id j l).
    by rewrite lookup_id_cons, decide_False by congruence.
  - rewrite filter_cons_True by done. fold (erase_id j l). by rewrite !lookup_id_cons, IH.
Qed.

Lemma holds_update i x l s s' j f :
  (∀ r, id r = j → id (f r) = j) → requests_ s' = update_id j f (requests_ s) →
  (∀ r, i = j → lookup_id i (requests_ s) = Some r → settled r →
    settled (f r) ∧ outcome (f r) = outcome r ∧ statements (f r) = statements r) →
  holds_outcome i x l s → holds_outcome i x l s'.
Proof.
  intros Hf Hs' Hj (r & Hr & Hset & <- & <-). unfold holds_outcome. rewrite Hs', lookup_update, Hr by done.
  destruct (decide (i = j)) as [->|]; simpl; [|eauto].
  exists (f r). destruct (Hj r) as (?&?&?); auto.
Qed.

(** The request the worker is about to write is not settled. *)
Lemma running_unsettled s k dl cp rn qu i r :
  shape s k dl cp rn qu → i ∈ ids rn ++ ids qu → lookup_id i (requests_ s) = Some r → ¬ settled r.
Proof.
  intros Hs Hi Hr. pose proof (sh_rn _ _ _ _ _ _ Hs) as Hrn. pose proof (sh_qu _ _ _ _ _ _ Hs) as Hqu.
  rewrite <- ids_app in Hi. apply list_elem_of_fmap in Hi as (q & -> & Hq).
  assert (state q = Running ∨ state q = Queued) as Hst.
  { rewrite Forall_forall in Hrn, Hqu. apply elem_of_app in Hq as [?|?]; eauto. }
  apply list_elem_of_split in Hq as (l1 & l2 & E).
  destruct (shape_at _ _ _ _ _ _ (cp ++ l1) q l2 Hs) as (_ & Hn & _).
  { by rewrite E, (assoc_L (++)). }
  rewrite (sh_requests _ _ _ _ _ _ Hs), E in Hr.
  replace (dl ++ cp ++ l1 ++ q :: l2) with ((dl ++ cp ++ l1) ++ q :: l2) in Hr
    by (by rewrite <- !(assoc_L (++))).
  rewrite lookup_id_at in Hr by done. injection Hr as <-. unfold settled. destruct Hst; naive_solver congruence.
Qed.

Lemma step_holds c s op i x l :
  good c s → (∀ j, op = Release j → j ≠ i) → holds_outcome i x l s → holds_outcome i x l (step looks s op).
Proof.
  intros [_ (k & dl & cp & rn & qu & Hs & _)] Hop Hh.
  assert (∀ j f s', (∀ r, id r = j → id (f r) = j) → requests_ s' = update_id j f (requests_ s) →
    j ∈ ids rn ++ ids qu → holds_outcome i x l s') as Hworker.
  { intros j f s' Hf Hs' Hj. eapply holds_update; [done..| |done].
    intros r -> Hr Hset. by destruct (running_unsettled _ _ _ _ _ _ _ _ Hs Hj Hr). }
  pose proof (sh_worker _ _ _ _ _ _ Hs) as Hw. destruct op as [b| | |j| |]; simpl.
  - unfold submit. repeat (casematch; simpl; try done).
    destruct Hh as (r & Hr & ?). exists r. simpl. split; [by apply lookup_id_app|done].
  - unfold run. destruct (worker_ s) as [|rid|rid|rid|] eqn:Ew.
    + unfold worker_take. rewrite (queued_head _ _ _ _ _ _ Hs). destruct qu as [|q qu]; simpl.
      * by destruct (stopping_ s).
      * eapply (Hworker (id q)); [|done|]; [done|]. rewrite elem_of_app. right. by left.
    + unfold worker_look. destruct (stopping_ s); [|done].
      eapply (Hworker rid); [|done|rewrite Hw; set_solver]. done.
    + unfold worker_execute. destruct (lookup_id rid (requests_ s)) as [q|] eqn:Hq; [|done].
      apply lookup_id_Some in Hq as [<- _].
      destruct (execute_owner (looks (id q)) q (driver_ s)) as (Hi & _).
      destruct (execute (looks (id q)) q (driver_ s)) as [q' d].
      by eapply (Hworker (id q)); [|done|rewrite Hw; set_solver].
    + eapply (Hworker rid); [|done|rewrite Hw; set_solver]. done.
    + done.
  - unfold poll. destruct (find_state Complete (requests_ s)) as [q|] eqn:Hq; simpl;
      [|by destruct (worker_finished_ s)].
    eapply holds_update; [|done| |done]; [done|]. intros r _ _ _. split; [by right|done].
  - unfold release. destruct (lookup_id j (requests_ s)) as [q|]; [|done].
    destruct (bool_decide _); [|done]. destruct Hh as (r & Hr & ?). exists r. simpl.
    rewrite lookup_erase by (specialize (Hop j eq_refl); congruence). done.
  - done.
  - unfold interrupt_worker. by destruct (joinable_ s).
Qed.

Lemma runs_hold ops c s i x l :
  good c s → Forall op_ok ops → Release i ∉ ops → holds_outcome i x l s →
  holds_outcome i x l (runs (step looks) s ops).
Proof.
  revert c s. induction ops as [|op ops IH]; intros c s Hg Hops Hr Hh; [done|].
  apply Forall_cons in Hops as [Hop Hops]. apply not_elem_of_cons in Hr as [Hne Hr].
  destruct (step_evolves c s op Hg Hop) as (c' & Hg' & _).
  eapply IH; [done..|]. eapply step_holds; [done| |done]. intros j -> ->. done.
Qed.

(** What the driver sees once the service is stopping: interruptions alone while the
    worker is not past its look at [stopping_], which it passes no more. *)
Definition cleared (w : Worker) : bool := match w with Cleared _ => true | _ => false end.
Lemma iter_interrupt n d : Nat.iter n interrupt (interrupt d) = Nat.iter (S n) interrupt d.
Proof. symmetry. apply Nat.iter_succ_r. Qed.
Lemma step_driver s op : stopping_ s = true → cleared (worker_ s) = false →
  cleared (worker_ (step looks s op)) = false ∧
  (driver_ (step looks s op) = driver_ s ∨ driver_ (step looks s op) = interrupt (driver_ s)).
Proof.
  intros Hst Hc. destruct op; simpl.
  - unfold submit. rewrite Hst. auto.
  - unfold run, worker_take, worker_look, worker_complete. rewrite Hst.
    destruct (worker_ s) eqn:E; simpl; rewrite ?E; auto; [|done]. casematch; simpl; auto.
  - unfold poll. repeat casematch; auto.
  - unfold release. repeat casematch; auto.
  - auto.
  - unfold interrupt_worker. casematch; auto.
Qed.
Lemma stopping_driver ops s : stopping_ s = true → cleared (worker_ s) = false →
  ∃ n, driver_ (runs (step looks) s ops) = Nat.iter n interrupt (driver_ s).
Proof.
  revert s. induction ops as [|op ops IH]; intros s Hst Hc; [by exists O|].
  destruct (step_driver s op Hst Hc) as [Hc' Hd].
  destruct (IH _ (step_stopping s op Hst) Hc') as [n Hn]. simpl. rewrite Hn.
  destruct Hd as [-> | ->]; [by exists n|]. exists (S n). apply iter_interrupt.
Qed.

(** The request the worker is past its look with is still there, and running. *)
Lemma cleared_running c s i : good c s → worker_ s = Cleared i →
  ∃ r, lookup_id i (requests_ s) = Some r ∧ state r = Running.
Proof.
  intros [_ (k & dl & cp & rn & qu & Hs & _)] Hw. pose proof (sh_worker _ _ _ _ _ _ Hs) as Hrn.
  rewrite Hw in Hrn. apply ids_nonempty in Hrn as (r & -> & <-).
  destruct (shape_at _ _ _ _ _ _ cp r qu Hs eq_refl) as (_ & Hn1 & _).
  pose proof (sh_rn _ _ _ _ _ _ Hs) as Hr. apply Forall_cons in Hr as [Hr _]. exists r. split; [|done].
  rewrite (sh_requests _ _ _ _ _ _ Hs). simpl. rewrite (assoc_L (++)). by apply lookup_id_at.
Qed.
(** A step of a caller leaves it so. *)
Lemma step_cleared c s op i r : good c s → stopping_ s = true → worker_ s = Cleared i →
  lookup_id i (requests_ s) = Some r → state r = Running → op ≠ Work →
  worker_ (step looks s op) = Cleared i ∧ lookup_id i (requests_ (step looks s op)) = Some r ∧
  (driver_ (step looks s op) = driver_ s ∨ driver_ (step looks s op) = interrupt (driver_ s)).
Proof.
  intros [_ (k & dl & cp & rn & qu & Hs & _)] Hst Hw Hr Hrun Hop. destruct op as [l| | |j| |]; simpl; [| done|..].
  - unfold submit. rewrite Hst. auto.
  - unfold poll. rewrite (complete_head _ _ _ _ _ _ Hs). destruct cp as [|q cp]; simpl; [by casematch; auto|].
    split_and!; [done| |by left]. rewrite lookup_update by done. case_decide as E; [|by rewrite Hr].
    subst. destruct (shape_at _ _ _ _ _ _ [] q (cp ++ rn ++ qu) Hs eq_refl) as (_ & Hn & _).
    rewrite app_nil_r in Hn. rewrite (sh_requests _ _ _ _ _ _ Hs) in Hr. simpl in Hr.
    rewrite lookup_id_at in Hr by done. injection Hr as ->.
    pose proof (sh_cp _ _ _ _ _ _ Hs) as Hcp. apply Forall_cons in Hcp as [Hcp _]. congruence.
  - unfold release. destruct (lookup_id j (requests_ s)) as [q|] eqn:Hq; [|auto].
    case_bool_decide as Hd; [|auto]. simpl. rewrite lookup_erase; [auto|]. intros ->. congruence.
  - auto.
  - unfold interrupt_worker. casematch; auto.
Qed.
(** The worker that had passed its look makes the one call it was about to make. *)
Lemma cleared_driver ops c s i r : good c s → Forall op_ok ops → stopping_ s = true →
  worker_ s = Cleared i → lookup_id i (requests_ s) = Some r → state r = Running →
  worker_ (runs (step looks) s ops) = Exited →
  ∃ n m, driver_ (runs (step looks) s ops) =
    Nat.iter m interrupt (execute (looks i) r (Nat.iter n interrupt (driver_ s))).2.
Proof.
  revert c s. induction ops as [|op ops IH]; intros c s Hg Hops Hst Hw Hr Hrun Hex; [simpl in Hex; congruence|].
  apply Forall_cons in Hops as [Hop Hops]. simpl in *.
  destruct (step_evolves c s op Hg Hop) as (c' & Hg' & _). pose proof (step_stopping s op Hst) as Hst'.
  assert (op = Work ∨ op ≠ Work) as [->|Hne] by (destruct op; auto).
  - assert (∃ x d, execute (looks i) r (driver_ s) = (x, d) ∧ step looks s Work = with_worker (Executed i)
      (with_driver d (with_requests (update_id i (λ _, x) (requests_ s)) s))) as (x & d & E & Hs').
    { simpl. unfold run, worker_execute. rewrite Hw, Hr. destruct (execute _ _ _) as [x d]. eauto. }
    destruct (stopping_driver ops (step looks s Work) Hst') as [m Hm]; [by rewrite Hs'|].
    exists O, m. rewrite Hm, Hs'. simpl. by rewrite E.
  - destruct (step_cleared c s op i r) as (Hw' & Hr' & Hd); [done..|].
    destruct (IH c' _ Hg' Hops Hst' Hw' Hr' Hrun Hex) as (n & m & Hnm). rewrite Hnm.
    destruct Hd as [-> | ->]; [by exists n, m|]. exists (S n), m. by rewrite iter_interrupt.
Qed.

(** The service after any use of it. *)
Definition used (o : Options) (d : D) (ops : list Op) : Service D :=
  runs (step looks) (new_service o d) ops.

Lemma used_good o d ops :
  options_ok o → Forall op_ok ops →
  ∃ c, good c (used o d ops) ∧ moved (trace looks (new_service o d) ops) (mkCounts 1 1 1 1) c.
Proof. intros Ho Hops. apply runs_evolve; [by apply new_good|done]. Qed.

Lemma used_joinable o d ops : joinable_ (used o d ops) = true.
Proof.
  apply (runs_invariant (step looks) (λ s, joinable_ s = true)); [|done].
  intros s op Hj. destruct op; simpl;
    unfold submit, run, worker_take, worker_look, worker_execute, worker_complete, poll, release, interrupt_worker;
    repeat (casematch; simpl; try done); done.
Qed.

(** C8: Under every interleaving of submissions, the worker, polling, releases and
    stops, requests are numbered 1, 2, 3, ... as they are accepted, and are
    started, completed and delivered exactly once each in that order; nothing
    is delivered before it completed, one request at a time executes, and once
    the worker has returned every accepted request has completed. *)
Theorem sql_fifo o d ops :
  options_ok o → Forall op_ok ops →
  let t := trace looks (new_service o d) ops in
  ∃ a b c e,
    accepted_ids t = seqZ 1 a ∧ started_ids t = seqZ 1 b ∧
    completed_ids t = seqZ 1 c ∧ delivered_ids t = seqZ 1 e ∧
    0 ≤ e ≤ c ∧ c ≤ b ≤ a ∧ b ≤ c + 1 ∧ (worker_ (used o d ops) = Exited → c = a).
Proof.
  intros Ho Hops t. destruct (used_good o d ops Ho Hops) as (c & Hg & [? Ha] & [? Hb] & [? Hc] & [? He]).
  destruct (counts_ordered _ _ Hg) as (?&?&?&?&?&?&Hex). simpl in *.
  exists (n_accepted c - 1), (n_started c - 1), (n_completed c - 1), (n_delivered c - 1).
  split_and!; try done; try lia. intros Hx. rewrite (Hex Hx). done.
Qed.

(** At any time the memory reserved is exactly the sum over the requests held,
    within the configured budget, and their number within the configured
    maximum; each reserves room for the largest result it may produce. *)
Theorem sql_memory_bounded o d ops :
  options_ok o → Forall op_ok ops →
  let s := used o d ops in
  reserved_bytes_ s = total reserved_bytes (requests_ s) ∧
  reserved_bytes_ s ≤ memory_budget (options_ s) ∧
  zlen (requests_ s) ≤ max_outstanding (options_ s) ∧
  Forall (λ r, max_result_bytes (options_ s) + 1024 < reserved_bytes r) (requests_ s).
Proof. intros Ho Hops. destruct (used_good o d ops Ho Hops) as (c & [[] _] & _). done. Qed.

(** C9: Stopping terminates: from any state the worker returns within four turns
    for each held request and one more, whatever callers do meanwhile, and the
    join sees it. At most one request begins executing on the driver after the
    stop is requested: the one the worker had already looked at [stopping_] for,
    if it stood between that look and the call, is executed once, among
    interruptions; otherwise the driver is only ever interrupted. Every accepted
    request is then complete, and polling never times out again. *)
Theorem sql_stop_terminates o d before after fuel :
  options_ok o → Forall op_ok before → Forall op_ok after →
  let s := request_stop (used o d before) in
  let s' := runs (step looks) s after in
  4 * zlen (requests_ s) + 1 ≤ turns after → 4 * zlen (requests_ s) + 1 ≤ Z.of_nat fuel →
  worker_ s' = Exited ∧ worker_finished_ s' = true ∧
  match worker_ s with
  | Cleared i => ∃ r n m, lookup_id i (requests_ s) = Some r ∧
      driver_ s' = Nat.iter m interrupt (execute (looks i) r (Nat.iter n interrupt (driver_ s))).2
  | _ => ∃ n, driver_ s' = Nat.iter n interrupt (driver_ s)
  end ∧
  Forall settled (requests_ s') ∧ (poll s').1.1 ≠ SE_TIMEOUT ∧
  ∃ s'', stop looks fuel (used o d before) = Some s'' ∧ worker_ s'' = Exited ∧ joinable_ s'' = false.
Proof.
  intros Ho Hb Ha s s' Ht Hf. destruct (used_good o d before Ho Hb) as (c & Hg & _).
  assert (∃ c', good c' s) as [c' Hg'].
  { destruct (step_evolves c _ RequestStop Hg I) as (c' & ? & _). eauto. }
  pose proof (turns_left_bound _ _ Hg').
  assert (worker_ s' = Exited) as Hw by (eapply stopping_exits; [done..|lia]).
  destruct (runs_evolve after c' s Hg' Ha) as (c'' & [_ (k & dl & cp & rn & qu & Hs & _)] & _).
  pose proof (sh_finished _ _ _ _ _ _ Hs) as Hfin. pose proof (sh_worker _ _ _ _ _ _ Hs) as Hex.
  fold s' in Hfin, Hex. rewrite Hw in Hfin, Hex. destruct Hex as (-> & -> & _).
  split_and!; [done|done| | | |].
  - pose proof (stopping_driver after s eq_refl) as Hd.
    destruct (worker_ s) as [|i|i|i|] eqn:E; try by apply Hd.
    destruct (cleared_running _ _ _ Hg' E) as (r & Hr & Hrun).
    destruct (cleared_driver after c' s i r) as (n & m & ?); [done..|]. by exists r, n, m.
  - unfold s'. rewrite (sh_requests _ _ _ _ _ _ Hs), !app_nil_r. apply Forall_app.
    split; eapply Forall_impl; [apply Hs| |apply Hs|]; unfold settled; auto.
  - unfold poll. rewrite Hfin. by casematch.
  - unfold stop. rewrite used_joinable. fold s.
    destruct (step_evolves c' s Interrupt Hg' I) as (c3 & Hg3 & _). simpl in Hg3.
    assert (worker_ (runs (step looks) (interrupt_worker s) (replicate fuel Work)) = Exited) as Hw3.
    { eapply stopping_exits; [done| | |].
      - unfold interrupt_worker. by destruct (joinable_ s).
      - by apply Forall_replicate.
      - pose proof (turns_left_bound _ _ Hg3) as Hle.
        assert (requests_ (interrupt_worker s) = requests_ s) as Hreq
          by (unfold interrupt_worker; by destruct (joinable_ s)).
        rewrite Hreq in Hle. unfold turns.
        assert (total (λ op, match op with Work => 1 | _ => 0 end) (replicate fuel Work) = Z.of_nat fuel)
          as -> by (clear; induction fuel as [|n IH]; simpl; lia). lia. }
    eexists. split; [by apply join_runs|]. simpl. by split.
Qed.

(** The outcome of a completed request is kept: whatever else happens,
    cancellations and a stop included, the request stays complete or delivered
    with the same result until it is released. *)
Theorem sql_outcome_kept o d before after i r :
  options_ok o → Forall op_ok before → Forall op_ok after → Release i ∉ after →
  lookup_id i (requests_ (used o d before)) = Some r → state r = Complete ∨ state r = Delivered →
  ∃ r', lookup_id i (requests_ (used o d (before ++ after))) = Some r' ∧
    (state r' = Complete ∨ state r' = Delivered) ∧ outcome r' = outcome r ∧
    statements r' = statements r.
Proof.
  intros Ho Hb Ha Hrel Hr Hset. destruct (used_good o d before Ho Hb) as (c & Hg & _).
  unfold used. rewrite runs_app.
  eapply (runs_hold after c _ i (outcome r) (statements r)); [done..|]. by exists r.
Qed.

(** Backpressure is never permanent: a running service whose results have all
    been released accepts every batch that the copy accepts. *)
Theorem sql_idle_admits o d ops l r :
  options_ok o → Forall op_ok ops → Forall readable l →
  let s := used o d ops in
  requests_ s = [] → stopping_ s = false → next_id_ s < 2 ^ 64 - 1 →
  copy_request (Some l) (zlen l) (options_ s) = Ok r →
  (submit (Some l) (zlen l) s).1 = Ok (next_id_ s) ∧
  requests_ (submit (Some l) (zlen l) s).2 = [set_id (next_id_ s) r].
Proof.
  intros Ho Hops Hl s Hreq Hst Hid Hcopy.
  destruct (used_good o d ops Ho Hops) as (c & [[Hok Hres _ _ _] _] & _). fold s in Hok, Hres.
  rewrite Hreq in Hres. simpl in Hres. pose proof (ok_outstanding _ Hok).
  pose proof (ok_budget _ Hok). pose proof (ok_request _ Hok). pose proof (ok_result _ Hok).
  unfold submit. rewrite Hst, Hreq, Hcopy, Hres, zlen_nil.
  destruct (max_outstanding (options_ s) <=? 0) eqn:E1; bprop; [lia|].
  rewrite u64_small by (unfold is_u64; lia).
  apply copy_request_Ok in Hcopy as (_ & _ & ? & ->); [|done..].
  destruct (_ <? _) eqn:E2; bprop; [simpl in E2; lia|].
  destruct (_ =? _) eqn:E3; bprop; [lia|done].
Qed.
End Properties.

(** * What holds of every result *)
Section Outcomes.
Context `{Layout} {D : Type} `{DriverLaws D} (looks : Z → nat → Look).
(** A property the driver gives to the results it makes, while its own state
    satisfies [I]. *)
Context (P : Result → Prop) (I : D → Prop)
  (Hdefault : P default_result) (Hfail : ∀ code text x, P (fail code text x))
  (Hexecute : ∀ lk r d, I d → outcome r = default_result → statements r ≠ [] →
     P (outcome (execute lk r d).1) ∧ I (execute lk r d).2)
  (Hinterrupt : ∀ d, I d → I (interrupt d)).
Implicit Types s : Service D.

Definition made_good (w : Worker) (r : Request) : Prop :=
  P (outcome r) ∧ statements r ≠ [] ∧
  (state r = Queued ∨ w = Holding (id r) ∨ w = Cleared (id r) → outcome r = default_result).
Definition results_good s : Prop :=
  I (driver_ s) ∧ Forall (made_good (worker_ s)) (requests_ s).

Lemma made_good_weaken w r : made_good w r → made_good Waiting r.
Proof. intros (? & ? & Hd). split_and!; [done..|]. intros [?|[[=]|[=]]]. auto. Qed.
Lemma made_good_executed w i r : made_good w r → made_good (Executed i) r.
Proof. intros (? & ? & Hd). split_and!; [done..|]. intros [?|[[=]|[=]]]. auto. Qed.

Lemma submit_good c s l :
  good c s → Forall readable l → results_good s → results_good (step looks s (Submit l)).
Proof.
  intros [Ha _] Hl [Hi Hf]. simpl. destruct (submit (Some l) (zlen l) s) as [[i|e] s'] eqn:E; simpl;
    [|by apply submit_rejects in E as ->].
  apply submit_cases in E as (r & Hcopy & _ & _ & _ & _ & _ & _ & _ & ->); [|done..].
  apply copy_request_Ok in Hcopy as ([Hlen _] & _ & _ & ->); [|apply Ha|done].
  split; [done|]. simpl. apply Forall_app. split; [done|]. constructor; [|constructor].
  split_and!; simpl; [done| |done]. destruct l; [by rewrite zlen_nil in Hlen|done].
Qed.

Lemma take_good c s :
  good c s → worker_ s = Waiting → results_good s → results_good (worker_take s).
Proof.
  intros [_ (k & dl & cp & rn & qu & Hs & _)] Hw [Hi Hf]. unfold worker_take.
  rewrite (queued_head _ _ _ _ _ _ Hs). pose proof (sh_worker _ _ _ _ _ _ Hs) as Hrn.
  rewrite Hw in Hrn. subst rn. destruct qu as [|r qu]; simpl.
  - destruct (stopping_ s); [|done]. split; [done|]. simpl. eapply Forall_impl; [exact Hf|].
    intros r (? & ? & Hd). split_and!; [done..|]. intros [?|[[=]|[=]]]. auto.
  - destruct (shape_at _ _ _ _ _ _ cp r qu Hs eq_refl) as (_ & Hn1 & Hn2).
    rewrite (sh_requests _ _ _ _ _ _ Hs) in *. simpl in *. rewrite (assoc_L (++)) in *.
    split; [done|]. simpl. rewrite update_id_at by done.
    apply Forall_app in Hf as [Hf1 Hf]. apply Forall_cons in Hf as [(Hp & Hst & Hd) Hf2].
    assert (∀ l, id r ∉ ids l → Forall (made_good (worker_ s)) l → Forall (made_good (Holding (id r))) l) as Hother.
    { intros l Hn Hl. rewrite Forall_forall in *. intros q Hq. destruct (Hl q Hq) as (? & ? & Hdq).
      split_and!; [done..|]. intros [?|[[= Heq]|[=]]]; [auto|]. exfalso. apply Hn. rewrite Heq.
      apply list_elem_of_fmap. eauto. }
    apply Forall_app. split; [by apply Hother|]. constructor; [|by apply Hother].
    split_and!; simpl; [done..|]. intros _. apply Hd. left.
    pose proof (sh_qu _ _ _ _ _ _ Hs) as Hq. by apply Forall_cons in Hq as [? _].
Qed.

Lemma look_good c s rid :
  good c s → worker_ s = Holding rid → results_good s → results_good (worker_look rid s).
Proof.
  intros [_ (k & dl & cp & rn & qu & Hs & _)] Hw [Hi Hf]. unfold worker_look.
  pose proof (sh_worker _ _ _ _ _ _ Hs) as Hrn. rewrite Hw in Hrn.
  apply ids_nonempty in Hrn as (r & -> & <-).
  pose proof (sh_rn _ _ _ _ _ _ Hs) as Hrun. apply Forall_cons in Hrun as [Hrun _].
  destruct (stopping_ s); (split; [done|]); simpl; rewrite Hw in Hf.
  - destruct (shape_at _ _ _ _ _ _ cp r qu Hs eq_refl) as (_ & Hn1 & Hn2).
    rewrite (sh_requests _ _ _ _ _ _ Hs) in *. simpl in *. rewrite (assoc_L (++)) in *.
    rewrite update_id_at by done.
    apply Forall_app in Hf as [Hf1 Hf]. apply Forall_cons in Hf as [(Hp & Hst & Hd) Hf2].
    apply Forall_app. split.
    + eapply Forall_impl; [exact Hf1|]. intros q. apply made_good_executed.
    + constructor; [|eapply Forall_impl; [exact Hf2|]; intros q; apply made_good_executed].
      split_and!; simpl; [auto|done|]. intros [Hq|[[=]|[=]]]. congruence.
  - eapply Forall_impl; [exact Hf|]. intros q (? & ? & Hd). split_and!; [done..|].
    intros [?|[[=]|[= E]]]; apply Hd; [by left|]. right. left. by rewrite E.
Qed.

Lemma execute_good c s rid :
  good c s → worker_ s = Cleared rid → results_good s → results_good (worker_execute looks rid s).
Proof.
  intros [_ (k & dl & cp & rn & qu & Hs & _)] Hw [Hi Hf].
  pose proof (sh_worker _ _ _ _ _ _ Hs) as Hrn. rewrite Hw in Hrn.
  apply ids_nonempty in Hrn as (r & -> & <-).
  destruct (shape_at _ _ _ _ _ _ cp r qu Hs eq_refl) as (_ & Hn1 & Hn2).
  pose proof (sh_rn _ _ _ _ _ _ Hs) as Hrun. apply Forall_cons in Hrun as [Hrun _].
  pose proof (sh_requests _ _ _ _ _ _ Hs) as Hreq. simpl in Hreq. rewrite (assoc_L (++)) in Hreq.
  rewrite Hw, Hreq in Hf. apply Forall_app in Hf as [Hf1 Hf]. apply Forall_cons in Hf as [(Hp & Hst & Hd) Hf2].
  specialize (Hd (or_intror (or_intror eq_refl))).
  unfold worker_execute. rewrite Hreq, lookup_id_at by done.
  destruct (Hexecute (looks (id r)) r (driver_ s) Hi Hd Hst) as [Hp' Hid].
  destruct (execute_owner (looks (id r)) r (driver_ s)) as (_ & _ & Hst' & Hstate).
  destruct (execute (looks (id r)) r (driver_ s)) as [r' d]. simpl in Hp', Hid, Hst', Hstate.
  rewrite update_id_at by done. split; [done|]. simpl. apply Forall_app. split.
  - eapply Forall_impl; [exact Hf1|]. intros q. apply made_good_executed.
  - constructor; [|eapply Forall_impl; [exact Hf2|]; intros q; apply made_good_executed].
    split_and!; [done|congruence|]. intros [Hq|[[=]|[=]]]. congruence.
Qed.

Lemma update_good w w' i st l :
  st ≠ Queued → (∀ r, made_good w r → made_good w' r) →
  Forall (made_good w) l → Forall (made_good w') (update_id i (set_state st) l).
Proof.
  intros Hst Hw Hl. unfold update_id. apply Forall_fmap. eapply Forall_impl; [exact Hl|].
  intros r Hr. simpl. destruct (id r =? i); [|auto]. apply Hw in Hr as (? & ? & Hd).
  split_and!; [done..|]. simpl. intros [?|?]; [done|]. auto.
Qed.

Lemma step_good c s op :
  good c s → op_ok op → results_good s → results_good (step looks s op).
Proof.
  intros Hg Hop Hr. destruct op as [l| | |i| |]; simpl; [by eapply submit_good| |destruct Hr as [Hi Hf]..].
  - unfold run. destruct (worker_ s) as [|rid|rid|rid|] eqn:Hw;
      [by eapply take_good|by eapply look_good|by eapply execute_good| |done].
    destruct Hr as [Hi Hf]. split; [done|]. simpl. eapply update_good; [done| |exact Hf].
    intros r. apply made_good_weaken.
  - unfold poll. destruct (find_state Complete (requests_ s)) as [q|]; simpl;
      [|by destruct (worker_finished_ s)].
    split; [done|]. simpl. eapply update_good; [done| |exact Hf]. done.
  - unfold release. destruct (lookup_id i (requests_ s)) as [q|]; [|done].
    destruct (bool_decide _); [|done]. split; [done|]. simpl. unfold erase_id.
    apply Forall_forall. intros x [_ Hx]%list_elem_of_filter. by eapply Forall_forall in Hf.
  - done.
  - unfold interrupt_worker. destruct (joinable_ s); [|done]. split; [by apply Hinterrupt|done].
Qed.

Lemma used_results o d ops :
  options_ok o → Forall op_ok ops → I d → results_good (used looks o d ops).
Proof.
  intros Ho Hops Hd. assert (∀ ops c s, good c s → Forall op_ok ops → results_good s →
    results_good (runs (step looks) s ops)) as Hgen.
  { clear ops Hops. induction ops as [|op ops IH]; intros c s Hg Hops Hr; [done|].
    apply Forall_cons in Hops as [Hop Hops].
    destruct (step_evolves looks c s op Hg Hop) as (c' & Hg' & _).
    eapply IH; [done..|]. by eapply step_good. }
  eapply Hgen; [by apply new_good|done|]. by split.
Qed.
End Outcomes.

(** * Concrete runs *)
Module Sample.
(** A driver that reports one affected row for each statement, and counts the
    requests it executed. *)
#[export] Program Instance counting : Driver Z := {|
  execute _ r n := (set_outcome (mkResult SE_OK [] (zlen (statements r)) 0 [] []) r, n + 1);
  interrupt n := n;
|}.
#[export] Instance counting_laws : DriverLaws Z.
Proof. by split. Qed.
Definition calm : Z → nat → Look := λ _ _, mkLook false false.

(** Three submissions, of which the service holds two; one is executed and
    delivered, the other is cancelled by the stop. *)
Definition session : list Op :=
  [Submit [sample_statement]; Submit [sample_statement]; Submit [sample_statement];
   Work; Work; Work; Work; Poll; RequestStop; Work; Work; Work; Work; Poll].
Ltac submits :=
  repeat first [apply Forall_nil_2 | apply Forall_cons_2; [first [exact I | apply sample_readable]|]].
Lemma session_ok : Forall op_ok session.
Proof. submits. Qed.
End Sample.
Import Sample.

Lemma sql_fifo_witness :
  trace calm (new_service sample_options 0) session
  = [Accepted 1; Accepted 2; Started 1; Completed 1; Delivery 1; Started 2; Completed 2; Delivery 2] ∧
  ∃ a b c e,
    accepted_ids (trace calm (new_service sample_options 0) session) = seqZ 1 a ∧
    started_ids (trace calm (new_service sample_options 0) session) = seqZ 1 b ∧
    completed_ids (trace calm (new_service sample_options 0) session) = seqZ 1 c ∧
    delivered_ids (trace calm (new_service sample_options 0) session) = seqZ 1 e ∧
    0 ≤ e ≤ c ∧ c ≤ b ≤ a ∧ b ≤ c + 1 ∧ (worker_ (used calm sample_options 0 session) = Exited → c = a).
Proof.
  split; [vm_compute; reflexivity|].
  exact (sql_fifo calm sample_options 0 session sample_options_ok session_ok).
Defined.

Lemma sql_memory_bounded_witness :
  reserved_bytes_ (used calm sample_options 0 session) = 11282 ∧
  reserved_bytes_ (used calm sample_options 0 session) ≤ 20000.
Proof.
  split; [vm_compute; reflexivity|].
  exact (proj1 (proj2 (sql_memory_bounded calm sample_options 0 session sample_options_ok session_ok))).
Defined.

Lemma sql_stop_terminates_witness :
  let before := [Submit [sample_statement]; Submit [sample_statement]; Work] in
  let s' := runs (step calm) (request_stop (used calm sample_options 0 before)) (replicate 9 Work) in
  let s1 := request_stop (used calm sample_options 0 (before ++ [Work])) in
  worker_ s' = Exited ∧ driver_ s' = 0 ∧
  (status ∘ outcome <$> requests_ s') = [SE_SQL_CANCELLED; SE_SQL_CANCELLED] ∧
  worker_ s1 = Cleared 1 ∧ driver_ (runs (step calm) s1 (replicate 9 Work)) = 1.
Proof.
  split; [|split_and!; vm_compute; reflexivity].
  apply (sql_stop_terminates calm sample_options 0
    [Submit [sample_statement]; Submit [sample_statement]; Work] (replicate 9 Work) 9).
  - apply sample_options_ok.
  - submits.
  - repeat constructor.
  - vm_compute. discriminate.
  - vm_compute. discriminate.
Defined.

Lemma sql_outcome_kept_witness :
  let before := [Submit [sample_statement]; Work; Work; Work; Work] in
  ∃ r', lookup_id 1 (requests_ (used calm sample_options 0 (before ++ [RequestStop; Poll; Work]))) = Some r' ∧
    affected_rows (outcome r') = 1.
Proof.
  destruct (sql_outcome_kept calm sample_options 0 [Submit [sample_statement]; Work; Work; Work; Work]
    [RequestStop; Poll; Work] 1
    (mkRequest 1 5641 [copy_statement sample_statement] (mkResult SE_OK [] 1 0 [] []) Complete))
    as (r' & Hr & _ & Hout & _).
  - apply sample_options_ok.
  - submits.
  - repeat constructor.
  - set_solver.
  - vm_compute. reflexivity.
  - left. reflexivity.
  - exists r'. split; [exact Hr|]. rewrite Hout. reflexivity.
Defined.

Lemma sql_idle_admits_witness :
  let ops := [Submit [sample_statement]; Work; Work; Work; Work; Poll; Release 1] in
  next_id_ (used calm sample_options 0 ops) = 2 ∧
  (submit (Some [sample_statement]) (zlen [sample_statement]) (used calm sample_options 0 ops)).1
  = Ok (next_id_ (used calm sample_options 0 ops)).
Proof.
  split; [vm_compute; reflexivity|].
  refine (proj1 (sql_idle_admits calm sample_options 0
    [Submit [sample_statement]; Work; Work; Work; Work; Poll; Release 1]
    [sample_statement] (copied sample_options [sample_statement]) sample_options_ok _ sample_readable _ _ _ _)).
  - submits.
  - vm_compute. reflexivity.
  - vm_compute. reflexivity.
  - vm_compute. reflexivity.
  - vm_compute. reflexivity.
Defined.
