(* ===== verification/SqliteDriver.v ===== *)
(** SqliteDriver: one transaction per request over a SQLite connection
    ([src/src/Data/Sql/SqliteDriver.h], [SqliteDriver.cpp], [SqliteStatement.cpp]).
    SQLite itself is the class [Sqlite], its documented behaviour [SqliteLaws];
    what the code throws is an error of the monad [M]. *)
From S2P Require Import Prelude.
From S2P Require Import Text.
From S2P Require Import NetTypes.
From S2P Require Import SqlTypes.
From S2P Require Import SqlService.

(** SQLite's result and action codes. *)
Definition SQLITE_OK : Z := 0.
Definition SQLITE_DENY : Z := 1.
Definition SQLITE_NOMEM : Z := 7.
Definition SQLITE_INTERRUPT : Z := 9.
Definition SQLITE_TOOBIG : Z := 18.
Definition SQLITE_MISUSE : Z := 21.
Definition SQLITE_ROW : Z := 100.
Definition SQLITE_DONE : Z := 101.
Definition SQLITE_PRAGMA : Z := 19.
Definition SQLITE_TRANSACTION : Z := 22.
Definition SQLITE_ATTACH : Z := 24.
Definition SQLITE_DETACH : Z := 25.
Definition SQLITE_CREATE_VTABLE : Z := 29.
Definition SQLITE_DROP_VTABLE : Z := 30.
Definition SQLITE_FUNCTION : Z := 31.
Definition SQLITE_SAVEPOINT : Z := 32.
Definition SQLITE_INTEGER : Z := 1.
Definition SQLITE_FLOAT : Z := 2.
Definition SQLITE_TEXT : Z := 3.
Definition SQLITE_BLOB : Z := 4.
Definition SQLITE_NULL : Z := 5.

(** The library: a connection [DB], prepared statements [Stmt]. An authorizer maps an
    action and its second name to a code; a progress handler answers, call after
    call, whether to interrupt, and the library says how often it asked. *)
Class Sqlite (DB Stmt : Type) := {
  sqlite3_exec : (Z → option bytes → Z) → (nat → bool) → bytes → DB → Z * nat * DB;
  sqlite3_get_autocommit : DB → bool;
  sqlite3_prepare : (Z → option bytes → Z) → bytes → DB → Z * option Stmt * bytes;
  sqlite3_finalize : Stmt → DB → DB;
  sqlite3_bind_parameter_count : Stmt → Z;
  sqlite3_bind_null : Stmt → Z → Z * Stmt;
  sqlite3_bind_int64 : Stmt → Z → Z → Z * Stmt;
  sqlite3_bind_double : Stmt → Z → Z → Z * Stmt;
  sqlite3_bind_text : Stmt → Z → bytes → Z * Stmt;
  sqlite3_bind_blob : Stmt → Z → bytes → Z * Stmt;
  sqlite3_column_count : Stmt → Z;
  sqlite3_column_name : Stmt → Z → option bytes;
  sqlite3_step : (nat → bool) → Stmt → DB → Z * nat * Stmt * DB;
  sqlite3_column_type : Stmt → Z → Z;
  sqlite3_column_int64 : Stmt → Z → Z;
  sqlite3_column_double : Stmt → Z → Z;
  sqlite3_column_text : Stmt → Z → option bytes;
  sqlite3_column_blob : Stmt → Z → option bytes;
  sqlite3_column_bytes : Stmt → Z → Z;
  sqlite3_errcode : Stmt → DB → Z;
  sqlite3_total_changes64 : DB → Z;
  sqlite3_changes64 : DB → Z;
  sqlite3_last_insert_rowid : DB → Z;
  sqlite3_interrupt : DB → DB;
}.

(** [src/src/Data/Sql/SqliteDriver.cpp:46-65] *)
Definition authorize (internal_control : bool) (action : Z) (second : option bytes) : Z :=
  if (action =? SQLITE_TRANSACTION) || (action =? SQLITE_SAVEPOINT) then
    if internal_control then SQLITE_OK else SQLITE_DENY
  else if (action =? SQLITE_ATTACH) || (action =? SQLITE_DETACH) || (action =? SQLITE_PRAGMA)
          || (action =? SQLITE_CREATE_VTABLE) || (action =? SQLITE_DROP_VTABLE) then SQLITE_DENY
  else if action =? SQLITE_FUNCTION then
    match second with
    | Some name => if bool_decide (lowercase_copy name = txt "load_extension") then SQLITE_DENY else SQLITE_OK
    | None => SQLITE_OK
    end
  else SQLITE_OK.

(** [src/src/Data/Sql/SqliteDriver.cpp:78-86] Times are on the monotonic clock; the
    answer, and the start of the wait it remembers. *)
Definition busy (o : Options) (should_cancel : bool) (attempts now busy_started : Z) : bool * Z :=
  let busy_started' := if attempts =? 0 then now else busy_started in
  (negb (should_cancel || (busy_timeout_ms o <=? now - busy_started')), busy_started').

Section Driver.
Context `{Layout} {DB Stmt : Type} `{Sqlite DB Stmt}.
(** Whether copying these bytes succeeds, and the options of the connection. *)
Context (alloc : bytes → bool) (o : Options).

(** [src/src/Data/Sql/SqliteDriver.h:30-36] *)
Record SqliteDriver := mkDriver { database_ : DB; poisoned_ : bool }.

(** The connection while a request executes: [tick] counts the looks taken at the
    stop flag and the clock; [prepared] are the statements the two [Prepared]
    owners hold, the last created first. *)
Record Conn := mkConn { db : DB; tick : nat; prepared : list Stmt }.
Definition M (A : Type) : Type := Conn → result SqlError A * Conn.
Definition ret {A} (a : A) : M A := λ c, (Ok a, c).
Definition throw {A} (e : SqlError) : M A := λ c, (Err e, c).
Definition bind_M {A B} (m : M A) (k : A → M B) : M B :=
  λ c, match m c with (Ok a, c') => k a c' | (Err e, c') => (Err e, c') end.
Notation "'do!' x := m 'in' k" := (bind_M m (λ x, k))
  (at level 10, x name, m at level 100, k at level 200).
Notation "'do!' x , y := m 'in' k" := (bind_M m (λ p, let '(x, y) := p in k))
  (at level 10, x name, y name, m at level 100, k at level 200).
Definition get_db : M DB := λ c, (Ok (db c), c).

Definition bad_alloc : SqlError :=
  error SE_INTERNAL_ERROR "SQL result allocation failed; transaction rolled back".

Section Execution.
Context (looks : nat → Look).

(** [src/src/Data/Sql/SqliteDriver.cpp:67-71] *)
Definition cancel_at (t : nat) : bool := look_stopping (looks t) || look_late (looks t).
Definition should_cancel : M bool := λ c, (Ok (cancel_at (tick c)), mkConn (db c) (S (tick c)) (prepared c)).
(** [src/src/Data/Sql/SqliteDriver.cpp:73-76] *)
Definition progress (c : Conn) : nat → bool := λ n, cancel_at (tick c + n).

(** [src/src/Data/Sql/SqliteDriver.cpp:88-97] *)
Definition check (code : Z) (operation : string) : M unit :=
  if (code =? SQLITE_OK) || (code =? SQLITE_DONE) then ret tt
  else
    do! cancelled := should_cancel in
    if (cancelled : bool) then λ c,
      (Err (error (if look_stopping (looks (tick c)) then SE_SQL_CANCELLED else SE_TIMEOUT)
         "SQL request cancelled or execution deadline exceeded; transaction rolled back"),
       mkConn (db c) (S (tick c)) (prepared c))
    else if code =? SQLITE_TOOBIG
    then throw (error SE_RESULT_TOO_LARGE "SQLite value exceeds configured size limit")
    else throw (error SE_IO_ERROR operation).

Definition exec (internal_control : bool) (sql : string) : M Z := λ c,
  let '(code, asked, d) :=
    sqlite3_exec (authorize internal_control) (progress c) (txt sql) (db c) in
  (Ok code, mkConn d (tick c + asked) (prepared c)).

(** [src/src/Data/Sql/SqliteDriver.cpp:99-110] *)
Definition control (sql : string) : M unit :=
  do! code := exec true sql in
  do! d := get_db in
  if negb (code =? SQLITE_OK) && bool_decide (sql = "COMMIT"%string) && sqlite3_get_autocommit d
  then throw (error SE_OUTCOME_UNKNOWN
                "SQLite COMMIT failed after transaction ended; reconcile write outcome")
  else check code "SQLite transaction control failed".

(** [src/src/Data/Sql/SqliteStatement.cpp:9-22] *)
Definition bind (statement : Stmt) (index : Z) (value : Value) : Z * Stmt :=
  if type value =? SE_SQL_NULL then sqlite3_bind_null statement index
  else if type value =? SE_SQL_INT64 then sqlite3_bind_int64 statement index (integer value)
  else if type value =? SE_SQL_DOUBLE then sqlite3_bind_double statement index (real value)
  else if type value =? SE_SQL_TEXT then sqlite3_bind_text statement index (value_bytes value)
  else if type value =? SE_SQL_BLOB then sqlite3_bind_blob statement index (value_bytes value)
  else (SQLITE_MISUSE, statement).

(** Ownership of a prepared statement, and a write to the one that executes,
    which is the first prepared. *)
Definition own (statement : Stmt) : M unit :=
  λ c, (Ok tt, mkConn (db c) (tick c) (statement :: prepared c)).
Definition write_statement (statement : Stmt) (c : Conn) : list Stmt :=
  match reverse (prepared c) with [] => [] | _ :: others => reverse others ++ [statement] end.
Definition update (statement : Stmt) : M unit :=
  λ c, (Ok tt, mkConn (db c) (tick c) (write_statement statement c)).

(** [src/src/Data/Sql/SqliteStatement.cpp:43-44] {execute_statement} *)
Fixpoint bind_all (statement : Stmt) (index : Z) (values : list Value) : M Stmt :=
  match values with
  | [] => ret statement
  | v :: rest =>
      let '(code, statement') := bind statement index v in
      do! _ := update statement' in
      do! _ := check code "SQLite parameter binding failed" in
      bind_all statement' (index + 1) rest
  end.

(** [src/src/Data/Sql/SqliteStatement.cpp:59-64] *)
Definition account (addition acc : Z) : M Z :=
  if (max_result_bytes o <? addition) || (max_result_bytes o - addition <? acc)
  then throw (error SE_RESULT_TOO_LARGE
    "SQL result exceeds configured row/column/byte limit; transaction rolled back")
  else ret (acc + addition).

(** [src/src/Data/Sql/SqliteStatement.cpp:73-79] {read_columns} *)
Fixpoint read_names (statement : Stmt) (i : Z) (count : nat) (acc : Z) : M (list bytes * Z) :=
  match count with
  | O => ret ([], acc)
  | S count' =>
      match sqlite3_column_name statement i with
      | None => throw (error SE_INTERNAL_ERROR "SQLite column name allocation failed")
      | Some name =>
          if negb (alloc name) then throw bad_alloc
          else
            do! acc' := account (zlen name * 2 + 1) acc in
            do! names , acc'' := read_names statement (i + 1) count' acc' in
            ret (name :: names, acc'')
      end
  end.

(** [src/src/Data/Sql/SqliteStatement.cpp:66-80] *)
Definition read_columns (statement : Stmt) (acc : Z) : M (list bytes * Z) :=
  let count := sqlite3_column_count statement in
  if max_columns o <? count
  then throw (error SE_RESULT_TOO_LARGE "SQL result exceeds configured column limit")
  else
    do! acc' := account (count * sizeof_string) acc in
    read_names statement 0 (Z.to_nat count) acc'.

(** [src/src/Data/Sql/SqliteStatement.cpp:90-116] {read_row} One cell. *)
Definition read_cell (statement : Stmt) (i acc : Z) : M (Value * Z) :=
  let t := sqlite3_column_type statement i in
  if t =? SQLITE_NULL then ret (default_value, acc)
  else if t =? SQLITE_INTEGER
  then ret (mkValue SE_SQL_INT64 (sqlite3_column_int64 statement i) 0 [], acc)
  else if t =? SQLITE_FLOAT
  then ret (mkValue SE_SQL_DOUBLE 0 (sqlite3_column_double statement i) [], acc)
  else if (t =? SQLITE_TEXT) || (t =? SQLITE_BLOB) then
    let text := t =? SQLITE_TEXT in
    let data := if text then sqlite3_column_text statement i else sqlite3_column_blob statement i in
    let size := sqlite3_column_bytes statement i in
    do! d := get_db in
    if (bool_decide (data = None) && negb (size =? 0)) || (sqlite3_errcode statement d =? SQLITE_NOMEM)
    then throw (error SE_INTERNAL_ERROR "SQLite cell allocation failed")
    else
      do! acc' := account (size * 2 + 1) acc in
      let content := if size =? 0 then [] else pointed data size in
      if negb (alloc content) then throw bad_alloc
      else ret (mkValue (if text then SE_SQL_TEXT else SE_SQL_BLOB) 0 0 content, acc')
  else throw (error SE_INTERNAL_ERROR "unknown SQLite value type").

Fixpoint read_cells (statement : Stmt) (i : Z) (count : nat) (acc : Z) : M (list Value * Z) :=
  match count with
  | O => ret ([], acc)
  | S count' =>
      do! v , acc' := read_cell statement i acc in
      do! row , acc'' := read_cells statement (i + 1) count' acc' in
      ret (v :: row, acc'')
  end.

Definition add_row (row : list Value) (r : Result) : Result :=
  mkResult (status r) (message r) (affected_rows r) (last_insert_id r) (columns r) (rows r ++ [row]).

(** [src/src/Data/Sql/SqliteStatement.cpp:82-119] *)
Definition read_row (statement : Stmt) (r : Result) (acc : Z) : M (Result * Z) :=
  if max_rows o <=? zlen (rows r)
  then throw (error SE_RESULT_TOO_LARGE
    "SQL result exceeds configured row limit; transaction rolled back")
  else
    do! acc' := account (2 * sizeof_row + zlen (columns r) * sizeof_Value) acc in
    do! row , acc'' := read_cells statement 0 (length (columns r)) acc' in
    ret (add_row row r, acc'').

(** The owners go out of scope: the last created is finalized first. *)
Definition scoped {A} (m : M A) : M A := λ c,
  let '(r, c') := m (mkConn (db c) (tick c) []) in
  (r, mkConn (foldl (λ d st, sqlite3_finalize st d) (db c') (prepared c')) (tick c') []).

Definition step (statement : Stmt) : M (Z * Stmt) := λ c,
  let '(code, asked, statement', d) := sqlite3_step (progress c) statement (db c) in
  (Ok (code, statement'), mkConn d (tick c + asked) (write_statement statement' c)).

(** [src/src/Data/Sql/SqliteStatement.cpp:49-54] {execute_statement} The loop over
    the rows: [fuel] bounds it, and [row_loop_fuel] shows it never runs out. *)
Fixpoint row_loop (fuel : nat) (statement : Stmt) (r : Result) (acc : Z) : M (Result * Z) :=
  match fuel with
  | O => throw (error SE_INTERNAL_ERROR "")
  | S fuel' =>
      do! code , statement' := step statement in
      if code =? SQLITE_ROW then
        do! cancelled := should_cancel in
        do! _ := (if (cancelled : bool) then check SQLITE_INTERRUPT "SQL request cancelled" else ret tt) in
        do! r' , acc' := read_row statement' r acc in
        row_loop fuel' statement' r' acc'
      else
        do! _ := check code "SQLite statement execution failed" in
        ret (r, acc)
  end.
Definition row_fuel : nat := Z.to_nat (max_rows o) + 2.

Definition add_affected (n : Z) (r : Result) : Result :=
  mkResult (status r) (message r) (u64 (affected_rows r + n)) (last_insert_id r) (columns r) (rows r).
Definition set_columns (l : list bytes) (r : Result) : Result :=
  mkResult (status r) (message r) (affected_rows r) (last_insert_id r) (columns r ++ l) (rows r).

(** [src/src/Data/Sql/SqliteStatement.cpp:25-57] *)
Definition execute_statement (input : Statement) (final : bool) (r : Result) (acc : Z)
    : M (Result * Z) :=
  scoped (
    do! d := get_db in
    let '(code, statement, tail) := sqlite3_prepare (authorize false) (sql input) d in
    do! _ := (match statement with Some st => own st | None => ret tt end) in
    do! _ := check code "SQLite prepare failed; verify SQL syntax and permitted operations" in
    match statement with
    | None => throw (error SE_INVALID_ARGUMENT "empty SQL statement")
    | Some st =>
        do! d' := get_db in
        let '(extra_code, extra, _) := sqlite3_prepare (authorize false) tail d' in
        do! _ := (match extra with Some e => own e | None => ret tt end) in
        do! _ := check extra_code "invalid trailing SQL text" in
        if bool_decide (is_Some extra)
        then throw (error SE_INVALID_ARGUMENT
          "use a statement array for atomic batches; SQL text contains multiple statements")
        else if negb (sqlite3_bind_parameter_count st =? zlen (parameters input))
        then throw (error SE_INVALID_ARGUMENT "SQL parameter count does not match placeholders")
        else
          do! st' := bind_all st 1 (parameters input) in
          if negb final && negb (sqlite3_column_count st' =? 0)
          then throw (error SE_INVALID_ARGUMENT "only the final batch statement may return columns")
          else
            do! names , acc' := (if final then read_columns st' acc else ret ([], acc)) in
            do! before := get_db in
            do! r' , acc'' := row_loop row_fuel st' (set_columns names r) acc' in
            do! after := get_db in
            if sqlite3_total_changes64 after =? sqlite3_total_changes64 before then ret (r', acc'')
            else ret (add_affected (u64 (sqlite3_changes64 after)) r', acc'')
    end).

(** [src/src/Data/Sql/SqliteDriver.cpp:130-134] {execute} The loop over the batch. *)
Fixpoint execute_batch (l : list Statement) (r : Result) (acc : Z) : M Result :=
  match l with
  | [] => ret r
  | input :: rest =>
      do! cancelled := should_cancel in
      do! _ := (if (cancelled : bool) then check SQLITE_INTERRUPT "SQL request cancelled" else ret tt) in
      do! r' , acc' := execute_statement input (bool_decide (rest = [])) r acc in
      execute_batch rest r' acc'
  end.

Definition set_last_insert (n : Z) (r : Result) : Result :=
  mkResult (status r) (message r) (affected_rows r) n (columns r) (rows r).

(** [src/src/Data/Sql/SqliteDriver.cpp:130-135] {execute} *)
Definition body (l : list Statement) (r : Result) : M Result :=
  do! r' := execute_batch l r sizeof_Result in
  do! cancelled := should_cancel in
  do! _ := (if (cancelled : bool) then check SQLITE_INTERRUPT "SQL request cancelled" else ret tt) in
  ret r'.

(** [src/src/Data/Sql/SqliteDriver.cpp:127-139] {execute} *)
Definition transaction (l : list Statement) (r : Result) : M Result :=
  do! cancelled := should_cancel in
  if (cancelled : bool)
  then throw (error SE_SQL_CANCELLED "SQL request cancelled before execution")
  else
    do! _ := control "BEGIN" in
    do! r' := body l r in
    do! _ := control "COMMIT" in
    do! d := get_db in
    ret (set_last_insert (sqlite3_last_insert_rowid d) r').
End Execution.

(** [src/src/Data/Sql/SqliteDriver.cpp:147-157] {execute} The rollback runs without
    the request's progress handler. *)
Definition roll_back (r : Result) (d : DB) : Result * SqliteDriver :=
  if sqlite3_get_autocommit d then (r, mkDriver d false)
  else
    let '(rolled_back, _, d') := sqlite3_exec (authorize true) (λ _, false) (txt "ROLLBACK") d in
    if negb (rolled_back =? SQLITE_OK) || negb (sqlite3_get_autocommit d')
    then (fail SE_OUTCOME_UNKNOWN (txt "SQLite rollback failed; discard service and reconcile outcome") r,
          mkDriver d' true)
    else (r, mkDriver d' false).

(** [src/src/Data/Sql/SqliteDriver.cpp:117-158] {execute} *)
Definition sqlite_execute (looks : nat → Look) (request : Request) (self : SqliteDriver)
    : Request * SqliteDriver :=
  if poisoned_ self then
    (set_outcome (fail SE_INVALID_STATE
       (txt "SQLite connection unavailable after rollback failure; recreate service") (outcome request))
       request, self)
  else
    let '(done, c) := transaction looks (statements request) (outcome request)
                        (mkConn (database_ self) 0 []) in
    let r := match done with
      | Ok r => r
      | Err e => fail e.1 e.2 (outcome request)
      end in
    let '(r', self') := roll_back r (db c) in
    (set_outcome r' request, self').

(** [src/src/Data/Sql/SqliteDriver.cpp:112-115] {interrupt} *)
Definition sqlite_interrupt (self : SqliteDriver) : SqliteDriver :=
  mkDriver (sqlite3_interrupt (database_ self)) (poisoned_ self).

(** The driver the service runs ([make_sqlite_driver]). *)
#[export] Instance sqlite_driver : Driver SqliteDriver := {|
  execute := sqlite_execute; interrupt := sqlite_interrupt;
|}.
#[export] Instance sqlite_driver_laws : DriverLaws SqliteDriver.
Proof.
  split. intros looks r d. simpl. unfold sqlite_execute. destruct (poisoned_ d); [done|].
  destruct (transaction _ _ _ _) as [x c]. by destruct (roll_back _ _).
Qed.
End Driver.
