(* ===== verification/SqliteOpen.v ===== *)
(** SqliteOpen: opening and closing the connection of a SQLite driver
    ([src/src/Data/Sql/SqliteDriver.cpp]): the settings that close the ways out of the
    database file, in their order, and what a failure leaves behind. *)
From S2P Require Import Prelude.
From S2P Require Import Text.
From S2P Require Import NetTypes.
From S2P Require Import SqlTypes.
From S2P Require Import SqlService.
From S2P Require Import SqliteDriver.

(** Limits of a connection. *)
Inductive SqliteLimit := LimitLength | LimitSqlLength | LimitColumn | LimitVariableNumber | LimitAttached.
(** A setting of a connection. *)
Inductive Setting :=
| EnableLoadExtension (on : bool) | Defensive (on : bool) | TrustedSchema (on : bool)
| SetLimit (limit : SqliteLimit) (n : Z)
| SetAuthorizer (f : bool → Z → option bytes → Z)
| SetBusyHandler (f : bool → Z → Z → Z → bool * Z).
(** [sqlite3_open_v2] gives a code, and a handle even when it fails, unless there is no
    memory for one. *)
Class SqliteSetup (DB : Type) := {
  sqlite3_open_v2 : bytes → Z * option DB;
  sqlite3_configure : Setting → DB → Z * DB;
}.

Section Open.
Context `{Layout} {DB : Type} `{SqliteSetup DB}.
Context (o : Options).

(** [src/src/Data/Sql/SqliteDriver.cpp:88-97] {check} While no request runs nothing is
    cancelled. *)
Definition check_open (code : Z) (operation : string) : result SqlError unit :=
  if (code =? SQLITE_OK) || (code =? SQLITE_DONE) then Ok tt
  else if code =? SQLITE_TOOBIG then Err (error SE_RESULT_TOO_LARGE "SQLite value exceeds configured size limit")
  else Err (error SE_IO_ERROR operation).
(** A setting whose code is looked at, with what is said when it fails, or ignored. *)
Fixpoint configure (l : list (Setting * option string)) (d : DB) : result SqlError unit * DB :=
  match l with
  | [] => (Ok tt, d)
  | (setting, operation) :: l =>
      let '(code, d) := sqlite3_configure setting d in
      match (match operation with Some text => check_open code text | None => Ok tt end) with
      | Err e => (Err e, d)
      | Ok _ => configure l d
      end
  end.
(** [src/src/Data/Sql/SqliteDriver.cpp:21-33] {SqliteDriver} *)
Definition settings : list (Setting * option string) :=
  [(EnableLoadExtension false, Some "cannot disable SQLite extension loading"%string);
   (Defensive true, Some "cannot enable SQLite defensive mode"%string);
   (TrustedSchema false, Some "cannot disable SQLite trusted schema"%string);
   (SetLimit LimitLength (max_result_bytes o), None); (SetLimit LimitSqlLength (max_request_bytes o), None);
   (SetLimit LimitColumn (max_columns o), None); (SetLimit LimitVariableNumber 1024, None); (SetLimit LimitAttached 0, None);
   (SetAuthorizer authorize, Some "cannot configure SQLite authorizer"%string);
   (SetBusyHandler (busy o), Some "cannot configure SQLite busy handler"%string)].
(** [src/src/Data/Sql/SqliteDriver.cpp:15-39] {SqliteDriver} The driver or what is thrown,
    and the connections closed. *)
Definition open_sqlite : result SqlError (@SqliteDriver DB) * list DB :=
  let '(opened, database) := sqlite3_open_v2 (connection o) in
  match check_open opened "cannot open SQLite database", database with
  | Err e, _ => (Err e, match database with Some d => [d] | None => [] end)
  | Ok _, None => (Err (error SE_IO_ERROR "cannot disable SQLite extension loading"), [])
  | Ok _, Some d =>
      match configure settings d with
      | (Ok _, d) => (Ok (mkDriver d false), [])
      | (Err e, d) => (Err e, [d])
      end
  end.
(** [src/src/Data/Sql/SqliteDriver.cpp:41-44] {~SqliteDriver} The connections closed. *)
Definition close_sqlite (self : @SqliteDriver DB) : list DB := [database_ self].

(** ** What opening guarantees *)
(** The settings applied one after the other, each that is looked at accepted. *)
Fixpoint accepted (l : list (Setting * option string)) (d d' : DB) : Prop :=
  match l with
  | [] => d' = d
  | (setting, operation) :: l =>
      (is_Some operation → (sqlite3_configure setting d).1 = SQLITE_OK ∨ (sqlite3_configure setting d).1 = SQLITE_DONE) ∧
      accepted l (sqlite3_configure setting d).2 d'
  end.
Lemma check_open_Ok code text : check_open code text = Ok tt ↔ code = SQLITE_OK ∨ code = SQLITE_DONE.
Proof.
  unfold check_open. destruct (_ || _) eqn:E.
  - apply orb_true_iff in E. rewrite !Z.eqb_eq in E. tauto.
  - apply orb_false_iff in E. rewrite !Z.eqb_neq in E. split; [|tauto]. by case_match.
Qed.
Lemma check_open_Err code text e : check_open code text = Err e → e.1 = SE_IO_ERROR ∨ e.1 = SE_RESULT_TOO_LARGE.
Proof. unfold check_open. intros Hc. repeat case_match; simplify_eq; auto. Qed.
Lemma configure_case l : ∀ d, let '(r, d') := configure l d in
  match r with Ok _ => accepted l d d' | Err e => e.1 = SE_IO_ERROR ∨ e.1 = SE_RESULT_TOO_LARGE end.
Proof.
  induction l as [|[setting operation] l IH]; intros d; [done|]. cbn [configure accepted].
  destruct (sqlite3_configure setting d) as [code d1]. cbn [fst snd]. specialize (IH d1).
  destruct operation as [text|]; [destruct (check_open code text) as [[]|e] eqn:E; [|by eapply check_open_Err]|].
  - destruct (configure l d1) as [[u|e] d']; [|done]. split; [|done]. intros _. by eapply check_open_Ok.
  - destruct (configure l d1) as [[u|e] d']; [|done]. split; [|done]. by intros [].
Qed.
(** A driver that opens runs on a connection that took every setting: no extensions,
    defensive, schema not trusted, the limits of the options and no attached databases,
    the authorizer and the busy handler. A failure is reported as an error of input and
    output or size, never as success, and closes the connection that was opened, if there
    was one, exactly once; closing a driver closes its connection. *)
Theorem sqlite_open_hardened :
  let '(r, closed) := open_sqlite in
  match r with
  | Ok self => closed = [] ∧ poisoned_ self = false ∧ close_sqlite self = [database_ self] ∧
      ∃ d, (sqlite3_open_v2 (connection o)).2 = Some d ∧ accepted settings d (database_ self)
  | Err e => (e.1 = SE_IO_ERROR ∨ e.1 = SE_RESULT_TOO_LARGE) ∧
      length closed = match (sqlite3_open_v2 (connection o)).2 with Some _ => 1%nat | None => 0%nat end
  end.
Proof.
  unfold open_sqlite. destruct (sqlite3_open_v2 (connection o)) as [opened [d|]]; cbn [snd];
    (destruct (check_open opened _) as [u|e] eqn:E; [|split; [by eapply check_open_Err|done]]); [|split; [by left|done]].
  pose proof (configure_case settings d) as Hc. destruct (configure settings d) as [[v|e] d']; [|by split].
  split_and!; try done. by exists d.
Qed.
End Open.
