(* ===== verification/SqliteProperties.v ===== *)
(** SqliteProperties: what the SQLite driver promises, given SQLite's documented
    behaviour: a request is atomic, a transaction never outlives it, and a result
    is rectangular and within its limits. *)
From S2P Require Import Prelude.
From S2P Require Import Text.
From S2P Require Import NetTypes.
From S2P Require Import SqlTypes.
From S2P Require Import SqlService.
From S2P Require Import SqliteDriver.

(** SQLite's documented behaviour. [committed] is the durable content of the
    database; [ordinary] statements were prepared while transaction control was
    denied, so that running them cannot end the transaction, unless it fails. *)
Class SqliteLaws {DB Stmt C : Type} `{Sqlite DB Stmt} (committed : DB → C) (ordinary : Stmt → Prop) := {
  law_exec_code auth p text d : (sqlite3_exec auth p text d).1.1 ≠ SQLITE_DONE;
  law_begin auth p d :
    (∀ n, auth SQLITE_TRANSACTION n = SQLITE_OK) → sqlite3_get_autocommit d = true →
    let '(code, _, d') := sqlite3_exec auth p (txt "BEGIN") d in
    committed d' = committed d ∧ (code = SQLITE_OK → sqlite3_get_autocommit d' = false);
  law_commit auth p d :
    (∀ n, auth SQLITE_TRANSACTION n = SQLITE_OK) → sqlite3_get_autocommit d = false →
    let '(code, _, d') := sqlite3_exec auth p (txt "COMMIT") d in
    (code = SQLITE_OK → sqlite3_get_autocommit d' = true) ∧
    (sqlite3_get_autocommit d' = false → committed d' = committed d);
  law_rollback auth p d :
    (∀ n, auth SQLITE_TRANSACTION n = SQLITE_OK) → sqlite3_get_autocommit d = false →
    committed (sqlite3_exec auth p (txt "ROLLBACK") d).2 = committed d;
  law_prepare auth text d st :
    (∀ n, auth SQLITE_TRANSACTION n = SQLITE_DENY) → (∀ n, auth SQLITE_SAVEPOINT n = SQLITE_DENY) →
    (sqlite3_prepare auth text d).1.2 = Some st → ordinary st;
  law_bind st i v :
    let st' := (bind st i v).2 in
    (ordinary st → ordinary st') ∧ sqlite3_column_count st' = sqlite3_column_count st;
  law_step p st d :
    ordinary st → sqlite3_get_autocommit d = false →
    let '(code, _, st', d') := sqlite3_step p st d in
    ordinary st' ∧ committed d' = committed d ∧
    (code = SQLITE_ROW ∨ code = SQLITE_DONE ∨ code = SQLITE_OK → sqlite3_get_autocommit d' = false);
  law_step_columns p st d :
    let '(code, _, st', _) := sqlite3_step p st d in
    sqlite3_column_count st = 0 → code ≠ SQLITE_ROW;
  law_finalize st d :
    committed (sqlite3_finalize st d) = committed d ∧
    sqlite3_get_autocommit (sqlite3_finalize st d) = sqlite3_get_autocommit d;
  law_interrupt d : sqlite3_get_autocommit (sqlite3_interrupt d) = sqlite3_get_autocommit d;
  law_columns st i : 0 ≤ sqlite3_column_count st ∧ 0 ≤ sqlite3_column_bytes st i;
}.

Section Properties.
Context `{Layout} {DB Stmt C : Type} `{Sqlite DB Stmt}
  (committed : DB → C) (ordinary : Stmt → Prop) `{!SqliteLaws committed ordinary}
  (alloc : bytes → bool) (o : Options) (looks : nat → Look).
Arguments M {DB Stmt} A.
Implicit Types c : @Conn DB Stmt.

(** The statuses an error inside a transaction may carry. *)
Definition ordinary_error (e : SqlError) : Prop := e.1 ≠ SE_OK ∧ e.1 ≠ SE_OUTCOME_UNKNOWN.

(** [m] keeps the open transaction: the durable content never changes, and when
    [m] returns, with a value in [Q], the transaction is still open. *)
Definition keeps {A} (Q : A → Prop) (m : M A) : Prop :=
  ∀ c, sqlite3_get_autocommit (db c) = false →
  committed (db (m c).2) = committed (db c) ∧
  match (m c).1 with
  | Ok a => Q a ∧ sqlite3_get_autocommit (db (m c).2) = false
  | Err e => ordinary_error e
  end.

Lemma keeps_ret {A} (Q : A → Prop) a : Q a → keeps Q (ret a).
Proof. by intros Hq c Hc. Qed.
Lemma keeps_throw {A} (Q : A → Prop) e : ordinary_error e → keeps Q (throw e).
Proof. by intros He c Hc. Qed.
Lemma keeps_bind {A B} (P : A → Prop) (Q : B → Prop) m k :
  keeps P m → (∀ a, P a → keeps Q (k a)) → keeps Q (bind_M m k).
Proof.
  intros Hm Hk c Hc. unfold bind_M. destruct (Hm c Hc) as [Hv Ha].
  destruct (m c) as [[a|e] c'] eqn:E; simpl in *; [|by split].
  destruct Ha as [Hp Hc']. destruct (Hk a Hp c' Hc') as [Hv' Ha'].
  split; [congruence|done].
Qed.
Lemma keeps_weaken {A} (P Q : A → Prop) m : (∀ a, P a → Q a) → keeps P m → keeps Q m.
Proof. intros HPQ Hm c Hc. destruct (Hm c Hc) as [? Ha]. split; [done|].
  destruct (m c).1; naive_solver. Qed.

Lemma keeps_get_db : keeps (λ _, True) (get_db (Stmt := Stmt)).
Proof. by intros c Hc. Qed.
Lemma keeps_should_cancel : keeps (λ _, True) (should_cancel looks).
Proof. by intros c Hc. Qed.
Lemma keeps_own st : keeps (λ _, True) (own st).
Proof. by intros c Hc. Qed.
Lemma keeps_update st : keeps (λ _, True) (update st).
Proof. by intros c Hc. Qed.

Lemma keeps_check code op : keeps (λ _, code = SQLITE_OK ∨ code = SQLITE_DONE) (check looks code op).
Proof.
  unfold check. destruct ((code =? SQLITE_OK) || (code =? SQLITE_DONE)) eqn:E.
  - apply keeps_ret. bprop. destruct E; bprop; auto.
  - eapply keeps_bind; [apply keeps_should_cancel|]. intros [|] _.
    + intros c Hc. split; [done|]. simpl. by destruct (look_stopping _).
    + destruct (code =? SQLITE_TOOBIG); by apply keeps_throw.
Qed.
Lemma keeps_cancel (b : bool) :
  keeps (λ _, True) (if b then check looks SQLITE_INTERRUPT "SQL request cancelled" else ret tt).
Proof.
  destruct b; [|by apply keeps_ret]. eapply keeps_weaken; [|apply keeps_check]. done.
Qed.

(** Case analysis over the tests and binds of a computation that touches nothing. *)
Ltac keeping :=
  repeat match goal with
  | |- keeps _ (ret _) => by apply keeps_ret
  | |- keeps _ (throw _) => by apply keeps_throw
  | |- keeps _ (bind_M _ _) =>
      eapply (keeps_bind (λ _, True)); [eauto using keeps_get_db, keeps_should_cancel, keeps_own,
        keeps_update, keeps_cancel|intros ? _]
  | |- keeps _ (if ?b then _ else _) => destruct b
  | |- keeps _ (match ?x with _ => _ end) => destruct x
  end.

Lemma keeps_account n acc : keeps (λ _, True) (account (Stmt := Stmt) (DB := DB) o n acc).
Proof. unfold account. keeping. Qed.
Lemma keeps_names st n i acc : keeps (λ _, True) (read_names alloc o st i n acc).
Proof.
  revert i acc. induction n as [|n IH]; intros i acc; simpl; keeping; try apply keeps_account; auto.
Qed.
Lemma keeps_columns st acc : keeps (λ _, True) (read_columns alloc o st acc).
Proof. unfold read_columns. keeping; [apply keeps_account|apply keeps_names]. Qed.
Lemma keeps_cell st i acc : keeps (λ _, True) (read_cell alloc o st i acc).
Proof.
  unfold read_cell.
  repeat match goal with |- keeps _ (if ?b then _ else _) => destruct b end; keeping;
    apply keeps_account || keeping.
Qed.
Lemma keeps_cells st n i acc : keeps (λ _, True) (read_cells alloc o st i n acc).
Proof.
  revert i acc. induction n as [|n IH]; intros i acc; simpl; keeping; try apply keeps_cell; auto.
Qed.
Lemma keeps_row st r acc : keeps (λ p, status p.1 = status r) (read_row alloc o st r acc).
Proof. unfold read_row. keeping; try apply keeps_account; try apply keeps_cells. Qed.

Lemma keeps_bind_all st i l : ordinary st → keeps ordinary (bind_all looks st i l).
Proof.
  revert st i. induction l as [|v l IH]; intros st i Hst; simpl; [by apply keeps_ret|].
  destruct (law_bind st i v) as [Hb _]. destruct (bind st i v) as [code st']. simpl in Hb.
  eapply keeps_bind; [apply keeps_update|intros _ _].
  eapply keeps_bind; [apply keeps_check|intros _ _]. auto.
Qed.

(** A computation that only fails, leaving the database alone. *)
Definition fails {A} (m : M A) : Prop :=
  ∀ c, db (m c).2 = db c ∧ ∃ e, (m c).1 = Err e ∧ ordinary_error e.

Lemma fails_check code op : code ≠ SQLITE_OK → code ≠ SQLITE_DONE → fails (check looks code op).
Proof.
  intros H1 H2 c. unfold check.
  destruct ((code =? SQLITE_OK) || (code =? SQLITE_DONE)) eqn:E; [bprop; destruct E; bprop; done|].
  unfold bind_M, should_cancel, throw. repeat (casematch; simpl);
    (split; [done|eexists; split; [done|]; done]).
Qed.
Lemma fails_bind {A B} (m : M A) (k : A → M B) : fails m → fails (bind_M m k).
Proof.
  intros Hm c. destruct (Hm c) as (Hd & e & He & Hord). unfold bind_M.
  destruct (m c) as [[a|e'] c'] eqn:E; simpl in *; [done|].
  split; [done|]. exists e'. by simplify_eq.
Qed.

(** Stepping a statement may end the transaction, but only by failing. *)
Lemma keeps_step_bind {A} (Q : A → Prop) st k :
  ordinary st →
  (∀ code st', ordinary st' → code = SQLITE_ROW ∨ code = SQLITE_DONE ∨ code = SQLITE_OK →
    keeps Q (k (code, st'))) →
  (∀ code st', code ≠ SQLITE_ROW → code ≠ SQLITE_DONE → code ≠ SQLITE_OK → fails (k (code, st'))) →
  keeps Q (bind_M (step looks st) k).
Proof.
  intros Hst Hk Hf c Hc. unfold bind_M, step.
  pose proof (law_step (progress looks c) st (db c) Hst Hc) as Hlaw.
  destruct (sqlite3_step (progress looks c) st (db c)) as [[[code asked] st'] d].
  destruct Hlaw as (Hst' & Hv & Hac). set (c1 := mkConn d _ _).
  destruct (decide (code = SQLITE_ROW ∨ code = SQLITE_DONE ∨ code = SQLITE_OK)) as [Hc1|Hc1].
  - destruct (Hk code st' Hst' Hc1 c1) as [Hv1 Ha]; [simpl; auto|]. simpl in Hv1. split; [congruence|done].
  - destruct (Hf code st') with (c := c1) as (Hd & e & He & Hord); [naive_solver..|].
    split; [by rewrite Hd|]. by rewrite He.
Qed.

Lemma row_loop_keeps fuel st r acc :
  ordinary st → keeps (λ p, status p.1 = status r) (row_loop alloc o looks fuel st r acc).
Proof.
  revert st r acc. induction fuel as [|fuel IH]; intros st r acc Hst; [by apply keeps_throw|].
  apply keeps_step_bind; [done|intros code st' Hst' Hcode|intros code st' H1 H2 H3]; simpl.
  - destruct (code =? SQLITE_ROW).
    + eapply keeps_bind; [apply keeps_should_cancel|intros b _].
      eapply keeps_bind; [apply keeps_cancel|intros _ _].
      eapply keeps_bind; [apply keeps_row|intros [r' acc'] <-]. by apply IH.
    + eapply keeps_bind; [apply keeps_check|]. intros _ _. by apply keeps_ret.
  - destruct (code =? SQLITE_ROW) eqn:E; bprop; [done|]. by apply fails_bind, fails_check.
Qed.

Lemma keeps_scoped {A} (Q : A → Prop) (m : M A) : keeps Q m → keeps Q (scoped m).
Proof.
  intros Hm c Hc. unfold scoped. destruct (Hm (mkConn (db c) (tick c) []) Hc) as [Hv Ha].
  destruct (m _) as [r c']. simpl in *.
  assert (∀ l d, committed (foldl (λ d st, sqlite3_finalize st d) d l) = committed d ∧
    sqlite3_get_autocommit (foldl (λ d st, sqlite3_finalize st d) d l) = sqlite3_get_autocommit d) as Hfin.
  { clear -SqliteLaws0. induction l as [|st l IH]; intros d; [done|]. simpl.
    destruct (IH (sqlite3_finalize st d)) as [-> ->]. apply law_finalize. }
  destruct (Hfin (prepared c') (db c')) as [-> ->]. done.
Qed.

Lemma authorize_denies n :
  authorize false SQLITE_TRANSACTION n = SQLITE_DENY ∧ authorize false SQLITE_SAVEPOINT n = SQLITE_DENY.
Proof. done. Qed.

Lemma statement_keeps input final r acc :
  keeps (λ p, status p.1 = status r) (execute_statement alloc o looks input final r acc).
Proof.
  unfold execute_statement. apply keeps_scoped.
  eapply keeps_bind; [apply keeps_get_db|intros d _].
  pose proof (λ st, law_prepare (authorize false) (sql input) d st
    (λ n, proj1 (authorize_denies n)) (λ n, proj2 (authorize_denies n))) as Hord.
  destruct (sqlite3_prepare (authorize false) (sql input) d) as [[code statement] tail]. simpl in Hord.
  eapply (keeps_bind (λ _, True)); [destruct statement; [apply keeps_own|by apply keeps_ret]|intros _ _].
  eapply keeps_bind; [apply keeps_check|intros _ _].
  destruct statement as [st|]; [specialize (Hord st eq_refl)|by apply keeps_throw].
  eapply keeps_bind; [apply keeps_get_db|intros d' _].
  destruct (sqlite3_prepare (authorize false) tail d') as [[extra_code extra] tail'].
  eapply (keeps_bind (λ _, True)); [destruct extra; [apply keeps_own|by apply keeps_ret]|intros _ _].
  eapply keeps_bind; [apply keeps_check|intros _ _].
  destruct (bool_decide _); [by apply keeps_throw|].
  destruct (negb _); [by apply keeps_throw|].
  eapply keeps_bind; [by apply keeps_bind_all|intros st' Hst'].
  destruct (negb final && _); [by apply keeps_throw|].
  eapply (keeps_bind (λ _, True)); [destruct final; [apply keeps_columns|by apply keeps_ret]|].
  intros [names acc'] _. eapply keeps_bind; [apply keeps_get_db|intros before _].
  eapply keeps_bind; [by apply row_loop_keeps|intros [r' acc''] Hr]. keeping.
Qed.

Lemma batch_keeps l r acc : keeps (λ r', status r' = status r) (execute_batch alloc o looks l r acc).
Proof.
  revert r acc. induction l as [|input l IH]; intros r acc; simpl; [by apply keeps_ret|].
  eapply keeps_bind; [apply keeps_should_cancel|intros b _].
  eapply keeps_bind; [apply keeps_cancel|intros _ _].
  eapply keeps_bind; [apply statement_keeps|intros [r' acc'] <-]. apply IH.
Qed.

(** ** Transaction control *)
Lemma begin_opens c :
  sqlite3_get_autocommit (db c) = true →
  let '(x, c') := control looks "BEGIN" c in
  committed (db c') = committed (db c) ∧
  match x with Ok _ => sqlite3_get_autocommit (db c') = false | Err e => ordinary_error e end.
Proof.
  intros Hc. unfold control, exec, bind_M at 1.
  pose proof (law_begin (authorize true) (progress looks c) (db c) (λ n, eq_refl) Hc) as Hb.
  pose proof (law_exec_code (authorize true) (progress looks c) (txt "BEGIN") (db c)) as Hd.
  destruct (sqlite3_exec (authorize true) (progress looks c) (txt "BEGIN") (db c)) as [[code asked] d].
  destruct Hb as [Hv Hb]. simpl in *. unfold bind_M, get_db. simpl. rewrite andb_false_r. simpl.
  destruct (decide (code = SQLITE_OK)) as [->|Hne]; [simpl; auto|].
  destruct (fails_check code "SQLite transaction control failed" Hne Hd
    (mkConn d (tick c + asked) (prepared c))) as (E & e & He & Hord).
  destruct (check _ _ _ _) as [x c']. simpl in *. subst x. by rewrite E.
Qed.

Lemma commit_decides c :
  sqlite3_get_autocommit (db c) = false →
  let '(x, c') := control looks "COMMIT" c in
  match x with
  | Ok _ => sqlite3_get_autocommit (db c') = true
  | Err e => (e.1 = SE_OUTCOME_UNKNOWN ∧ sqlite3_get_autocommit (db c') = true)
             ∨ (ordinary_error e ∧ committed (db c') = committed (db c) ∧
                sqlite3_get_autocommit (db c') = false)
  end.
Proof.
  intros Hc. unfold control, exec, bind_M at 1.
  pose proof (law_commit (authorize true) (progress looks c) (db c) (λ n, eq_refl) Hc) as Hb.
  pose proof (law_exec_code (authorize true) (progress looks c) (txt "COMMIT") (db c)) as Hd.
  destruct (sqlite3_exec (authorize true) (progress looks c) (txt "COMMIT") (db c)) as [[code asked] d].
  destruct Hb as [Hok Hv]. simpl in *. unfold bind_M, get_db. simpl.
  destruct (decide (code = SQLITE_OK)) as [->|Hne]; [simpl; auto|].
  apply Z.eqb_neq in Hne as Hneb. rewrite Hneb. simpl.
  destruct (sqlite3_get_autocommit d) eqn:Hac; simpl; [by left|].
  destruct (fails_check code "SQLite transaction control failed" Hne Hd
    (mkConn d (tick c + asked) (prepared c))) as (E & e & He & Hord).
  destruct (check _ _ _ _) as [x c']. simpl in *. subst x. rewrite E. simpl. right. auto.
Qed.

Lemma body_keeps l r : keeps (λ r', status r' = status r) (body alloc o looks l r).
Proof.
  eapply keeps_bind; [apply batch_keeps|intros r' Hr'].
  eapply keeps_bind; [apply keeps_should_cancel|intros b _].
  eapply keeps_bind; [apply keeps_cancel|intros _ _]. by apply keeps_ret.
Qed.

(** How a transaction can end. *)
Lemma transaction_ends l r c :
  sqlite3_get_autocommit (db c) = true →
  let '(x, c') := transaction alloc o looks l r c in
  match x with
  | Ok r' => status r' = status r ∧ sqlite3_get_autocommit (db c') = true
  | Err e => (e.1 = SE_OUTCOME_UNKNOWN ∧ sqlite3_get_autocommit (db c') = true)
             ∨ (ordinary_error e ∧ committed (db c') = committed (db c))
  end.
Proof.
  intros Hc. unfold transaction, bind_M at 1, should_cancel at 1.
  destruct (cancel_at looks (tick c)); [by right|].
  set (c1 := mkConn (db c) (S (tick c)) (prepared c)).
  unfold bind_M at 1. pose proof (begin_opens c1 Hc) as Hb.
  destruct (control looks "BEGIN" c1) as [[[]|e] c2]; [|right; naive_solver].
  destruct Hb as [Hv2 Hc2]. change (db c1) with (db c) in Hv2.
  pose proof (body_keeps l r c2 Hc2) as [Hv Hbody]. unfold bind_M at 1.
  destruct (body alloc o looks l r c2) as [[r'|e] c5]; simpl in *; [|right; split; [done|congruence]].
  destruct Hbody as [Hr' Hc5]. unfold bind_M at 1. pose proof (commit_decides c5 Hc5) as Hcom.
  destruct (control looks "COMMIT" c5) as [[[]|e] c6]; simpl; [done|].
  destruct Hcom as [?|(? & ? & ?)]; [by left|right; split; [done|congruence]].
Qed.

(** A transaction that returns has committed. *)
Lemma transaction_commits l r c r' c' :
  transaction alloc o looks l r c = (Ok r', c') →
  ∃ c1, control looks "COMMIT" c1 = (Ok tt, c').
Proof.
  unfold transaction, bind_M at 1. destruct (should_cancel looks c) as [[[]|] c1]; try done.
  unfold bind_M at 1. destruct (control looks "BEGIN" c1) as [[[]|] c2]; [|done].
  unfold bind_M at 1. destruct (body alloc o looks l r c2) as [[r0|] c3]; [|done].
  unfold bind_M at 1. destruct (control looks "COMMIT" c3) as [[[]|] c4] eqn:E; [|done].
  unfold bind_M, get_db, ret. simpl. intros [= _ <-]. eauto.
Qed.

Lemma roll_back_closes r d :
  let '(r', self) := roll_back r d in
  (sqlite3_get_autocommit d = true ∨ committed (database_ self) = committed d) ∧
  if poisoned_ self then status r' = SE_OUTCOME_UNKNOWN
  else r' = r ∧ sqlite3_get_autocommit (database_ self) = true ∧
       (sqlite3_get_autocommit d = true → database_ self = d).
Proof.
  unfold roll_back. destruct (sqlite3_get_autocommit d) eqn:Hd; [simpl; rewrite Hd; split_and!; auto|].
  pose proof (law_rollback (authorize true) (λ _, false) d (λ n, eq_refl) Hd) as Hv.
  destruct (sqlite3_exec _ _ _ _) as [[code asked] d'] eqn:E. simpl in Hv.
  destruct (negb (code =? SQLITE_OK) || negb (sqlite3_get_autocommit d')) eqn:Hb; simpl; [auto|].
  bprop. split; [by right|]. split_and!; done.
Qed.

Lemma execute_atomic request self :
  status (outcome request) = SE_OK →
  (poisoned_ self = false → sqlite3_get_autocommit (database_ self) = true) →
  let self' := (sqlite_execute alloc o looks request self).2 in
  let st := status (outcome (sqlite_execute alloc o looks request self).1) in
  (poisoned_ self' = false → sqlite3_get_autocommit (database_ self') = true) ∧
  (poisoned_ self = false → poisoned_ self' = true → st = SE_OUTCOME_UNKNOWN) ∧
  (st ≠ SE_OK → st ≠ SE_OUTCOME_UNKNOWN →
    committed (database_ self') = committed (database_ self)) ∧
  (st = SE_OK → poisoned_ self = false ∧ poisoned_ self' = false ∧
    ∃ c c', (control looks "COMMIT" c : result SqlError unit * Conn) = (Ok tt, c') ∧ database_ self' = db c') ∧
  (poisoned_ self = true → self' = self ∧ st = SE_INVALID_STATE).
Proof.
  intros Hfresh Hself. unfold sqlite_execute. destruct (poisoned_ self) eqn:Hp.
  { simpl. rewrite Hp. split_and!; try done. }
  specialize (Hself eq_refl).
  pose proof (transaction_ends (statements request) (outcome request) (mkConn (database_ self) 0 []) Hself) as Ht.
  pose proof (transaction_commits (statements request) (outcome request) (mkConn (database_ self) 0 [])) as Hcom.
  destruct (transaction alloc o looks _ _ _) as [x c]. simpl in Ht.

  pose proof (λ r, roll_back_closes r (db c)) as Hr.
  destruct x as [r0|e]; [specialize (Hr r0)|specialize (Hr (fail e.1 e.2 (outcome request)))];
    destruct (roll_back _ (db c)) as [r' self']; destruct Hr as [Hv Hr]; simpl.
  - destruct Ht as [Hst Hac]. destruct (poisoned_ self') eqn:Hp'.
    + rewrite Hr. split_and!; done.
    + destruct Hr as (-> & Hac' & Hdb). split_and!; try done; [congruence|].
      intros _. split_and!; [done..|]. destruct (Hcom r0 _ eq_refl) as (c1 & Hc1).
      exists c1, c. split; [done|]. by apply Hdb.
  - destruct (poisoned_ self') eqn:Hp'.
    + rewrite Hr. split_and!; done.
    + destruct Hr as (-> & Hac' & Hdb). destruct Ht as [[He Hac]|[[He1 He2] Hc]]; simpl.
      * rewrite He. split_and!; done.
      * split_and!; try done. intros _ _. destruct Hv as [Hv|Hv]; [rewrite (Hdb Hv)|rewrite Hv]; done.
Qed.

Lemma sqlite_closes request self :
  status (outcome request) = SE_OK →
  (poisoned_ self = false → sqlite3_get_autocommit (database_ self) = true) →
  let self' := (sqlite_execute alloc o looks request self).2 in
  poisoned_ self' = false → sqlite3_get_autocommit (database_ self') = true.
Proof. intros Hf Hs. apply (execute_atomic request self Hf Hs). Qed.

(** C7: A request is one atomic transaction. Executing it on a usable connection
    ends with no transaction open, or with the driver poisoned and the outcome
    reported as unknown; a reported failure other than an unknown outcome means
    that the durable content is unchanged; success is reported only after a
    commit succeeded; and a poisoned driver touches nothing any more. *)
Theorem sqlite_atomic request self :
  status (outcome request) = SE_OK →
  (poisoned_ self = false → sqlite3_get_autocommit (database_ self) = true) →
  let self' := (sqlite_execute alloc o looks request self).2 in
  let st := status (outcome (sqlite_execute alloc o looks request self).1) in
  (poisoned_ self' = false → sqlite3_get_autocommit (database_ self') = true) ∧
  (poisoned_ self = false → poisoned_ self' = true → st = SE_OUTCOME_UNKNOWN) ∧
  (st ≠ SE_OK → st ≠ SE_OUTCOME_UNKNOWN →
    committed (database_ self') = committed (database_ self)) ∧
  (st = SE_OK → poisoned_ self = false ∧ poisoned_ self' = false ∧
    ∃ c c', (control looks "COMMIT" c : result SqlError unit * Conn) = (Ok tt, c') ∧ database_ self' = db c') ∧
  (poisoned_ self = true → self' = self ∧ st = SE_INVALID_STATE).
Proof. apply execute_atomic. Qed.

(** ** Results *)
Definition columns_size (l : list bytes) : Z := zlen l * sizeof_string + total (λ n, zlen n * 2 + 1) l.
Definition cell_size (v : Value) : Z := if SE_SQL_TEXT <=? type v then zlen (value_bytes v) * 2 + 1 else 0.
Definition row_size (width : Z) (row : list Value) : Z :=
  2 * sizeof_row + width * sizeof_Value + total cell_size row.
(** The memory a result is accounted at. *)
Definition result_size (r : Result) : Z :=
  sizeof_Result + columns_size (columns r) + total (row_size (zlen (columns r))) (rows r).

Record sized (r : Result) (acc : Z) : Prop := {
  sz_acc : result_size r ≤ acc;
  sz_limit : acc ≤ max_result_bytes o;
  sz_rectangular : Forall (λ row, length row = length (columns r)) (rows r);
  sz_rows : zlen (rows r) ≤ Z.max 0 (max_rows o);
  sz_columns : zlen (columns r) ≤ Z.max 0 (max_columns o);
}.
Definition bare (r : Result) : Prop := columns r = [] ∧ rows r = [].

(** What a computation returns, when it does. *)
Definition returns {A} (Q : A → Prop) (m : M A) : Prop :=
  ∀ c a, (m c).1 = Ok a → Q a.
Lemma returns_ret {A} (Q : A → Prop) a : Q a → returns Q (ret a).
Proof. by intros Hq c ? [= <-]. Qed.
Lemma returns_throw {A} (Q : A → Prop) e : returns Q (throw e).
Proof. by intros c ? [=]. Qed.
Lemma returns_any {A} (m : M A) : returns (λ _, True) m.
Proof. done. Qed.
Lemma returns_bind {A B} (P : A → Prop) (Q : B → Prop) m k :
  returns P m → (∀ a, P a → returns Q (k a)) → returns Q (bind_M m k).
Proof.
  intros Hm Hk c b. unfold bind_M. specialize (Hm c). destruct (m c) as [[a|e] c']; simpl in *; [|done].
  apply Hk, Hm. done.
Qed.
Lemma returns_scoped {A} (Q : A → Prop) m : returns Q m → returns Q (scoped m).
Proof.
  intros Hm c a. unfold scoped. specialize (Hm (mkConn (db c) (tick c) []) a).
  destruct (m _) as [r c']. done.
Qed.
Ltac returning P := eapply (returns_bind P); [try apply returns_any|].

Lemma account_returns n acc :
  returns (λ a, a = acc + n ∧ a ≤ max_result_bytes o) (account (DB := DB) (Stmt := Stmt) o n acc).
Proof.
  unfold account. destruct (_ || _) eqn:E; [apply returns_throw|]. bprop. apply returns_ret. lia.
Qed.

Lemma names_return st n i acc :
  acc ≤ max_result_bytes o →
  returns (λ p, length p.1 = n ∧ p.2 = acc + total (λ n, zlen n * 2 + 1) p.1 ∧ p.2 ≤ max_result_bytes o)
    (read_names alloc o st i n acc).
Proof.
  revert i acc. induction n as [|n IH]; intros i acc Hacc; simpl.
  - apply returns_ret. simpl. lia.
  - destruct (sqlite3_column_name st i) as [name|]; [|apply returns_throw].
    destruct (negb _); [apply returns_throw|].
    eapply returns_bind; [apply account_returns|intros acc' [-> Hle]].
    eapply returns_bind; [by apply IH|intros [names acc''] (Hl & Ha & Hle2)]. simpl in *.
    apply returns_ret. simpl. split_and!; [by rewrite Hl|lia|done].
Qed.

Lemma columns_return st acc :
  returns (λ p, p.2 = acc + columns_size p.1 ∧ p.2 ≤ max_result_bytes o ∧
      zlen p.1 = sqlite3_column_count st ∧ zlen p.1 ≤ max_columns o)
    (read_columns alloc o st acc).
Proof.
  unfold read_columns. destruct (_ <? _) eqn:E; [apply returns_throw|]. bprop.
  eapply returns_bind; [apply account_returns|intros acc' [-> Hle]].
  intros c p Hp. pose proof (names_return st (Z.to_nat (sqlite3_column_count st)) 0 _ Hle c p Hp)
    as (Hl & Ha & Hle2).
  destruct (law_columns st 0) as [Hc _].
  assert (zlen p.1 = sqlite3_column_count st) as Hz by (unfold zlen; lia).
  unfold columns_size. rewrite Hz. split_and!; lia.
Qed.

Lemma pointed_le (data : option bytes) n :
  0 ≤ n → zlen (if n =? 0 then [] else pointed data n) ≤ n.
Proof.
  intros. destruct (n =? 0) eqn:E; bprop; [rewrite zlen_nil; lia|].
  destruct data as [l|]; simpl; [|rewrite zlen_nil; lia]. unfold zlen. rewrite length_take. lia.
Qed.

Lemma cell_returns st i acc :
  acc ≤ max_result_bytes o →
  returns (λ p, acc + cell_size p.1 ≤ p.2 ∧ p.2 ≤ max_result_bytes o) (read_cell alloc o st i acc).
Proof.
  intros Hacc. unfold read_cell.
  repeat match goal with |- returns _ (if ?b then ret _ else _) =>
    destruct b; [apply returns_ret; simpl; unfold cell_size; simpl; lia|] end.
  destruct (_ || _); [|apply returns_throw].
  eapply returns_bind; [apply returns_any|intros d _].
  destruct (_ || _); [apply returns_throw|].
  eapply returns_bind; [apply account_returns|intros acc' [-> Hle]].
  destruct (negb _); [apply returns_throw|]. apply returns_ret. simpl. split; [|done].
  destruct (law_columns st i) as [_ Hsz].
  unfold cell_size. simpl.
  match goal with |- context [pointed ?data _] => pose proof (pointed_le data _ Hsz) end.
  destruct (SE_SQL_TEXT <=? _); lia.
Qed.

Lemma cells_return st n i acc :
  acc ≤ max_result_bytes o →
  returns (λ p, length p.1 = n ∧ acc + total cell_size p.1 ≤ p.2 ∧ p.2 ≤ max_result_bytes o)
    (read_cells alloc o st i n acc).
Proof.
  revert i acc. induction n as [|n IH]; intros i acc Hacc; simpl.
  - apply returns_ret. simpl. lia.
  - eapply returns_bind; [by apply cell_returns|intros [v acc'] [Hv Hle]].
    eapply returns_bind; [by apply IH|intros [row acc''] (Hl & Ha & Hle2)]. simpl in *.
    apply returns_ret. simpl. split_and!; [by rewrite Hl|lia|done].
Qed.

Lemma row_returns st r acc :
  sized r acc →
  returns (λ p, sized p.1 p.2 ∧ zlen (rows p.1) = zlen (rows r) + 1 ∧ zlen (rows r) < max_rows o)
    (read_row alloc o st r acc).
Proof.
  intros [Hacc Hlim Hrect Hrows Hcols]. unfold read_row.
  destruct (max_rows o <=? zlen (rows r)) eqn:E; [apply returns_throw|]. bprop.
  eapply returns_bind; [apply account_returns|intros acc' [-> Hle]].
  eapply returns_bind; [by apply cells_return|intros [row acc''] (Hl & Ha & Hle2)].
  apply returns_ret. simpl in *. split; [|split; [by rewrite zlen_app, zlen_cons|done]].
  split; simpl; auto.
  - unfold result_size in *. simpl. rewrite total_app, total_cons, total_nil. unfold row_size at 2. lia.
  - apply Forall_app. split; [done|]. by repeat constructor.
  - rewrite zlen_app, zlen_cons, zlen_nil. lia.
Qed.

Lemma row_loop_sized fuel st r acc :
  sized r acc → returns (λ p, sized p.1 p.2) (row_loop alloc o looks fuel st r acc).
Proof.
  revert st r acc. induction fuel as [|fuel IH]; intros st r acc Hs; [apply returns_throw|]. simpl.
  eapply returns_bind; [apply returns_any|intros [code st'] _].
  destruct (code =? SQLITE_ROW).
  - eapply returns_bind; [apply returns_any|intros b _].
    eapply returns_bind; [apply returns_any|intros _ _].
    eapply returns_bind; [by apply row_returns|intros [r' acc'] (Hs' & _)]. by apply IH.
  - eapply returns_bind; [apply returns_any|intros _ _]. by apply returns_ret.
Qed.

(** A statement without columns returns no row. *)
Lemma row_loop_bare fuel st r acc :
  sqlite3_column_count st = 0 → returns (λ p, p = (r, acc)) (row_loop alloc o looks fuel st r acc).
Proof.
  intros Hst. destruct fuel as [|fuel]; [apply returns_throw|]. simpl.
  apply (returns_bind (λ p, p.1 ≠ SQLITE_ROW)).
  - intros c p. unfold step. pose proof (law_step_columns (progress looks c) st (db c)) as Hl.
    destruct (sqlite3_step _ _ _) as [[[code asked] st'] d]. intros [= <-]. auto.
  - intros [code st'] Hne. simpl in Hne. apply Z.eqb_neq in Hne. rewrite Hne.
    eapply returns_bind; [apply returns_any|intros _ _]. by apply returns_ret.
Qed.

Lemma bind_all_columns st i l :
  returns (λ st', sqlite3_column_count st' = sqlite3_column_count st) (bind_all looks st i l).
Proof.
  revert st i. induction l as [|v l IH]; intros st i; simpl; [by apply returns_ret|].
  destruct (law_bind st i v) as [_ Hb]. destruct (bind st i v) as [code st']. simpl in Hb.
  eapply returns_bind; [apply returns_any|intros _ _].
  eapply returns_bind; [apply returns_any|intros _ _]. rewrite <- Hb. apply IH.
Qed.

Lemma sized_columns names r acc acc' :
  bare r → sizeof_Result ≤ acc → acc' = acc + columns_size names → acc' ≤ max_result_bytes o →
  zlen names ≤ max_columns o → sized (set_columns names r) acc'.
Proof.
  intros [Hc Hr] Hacc -> Hle Hcols. unfold set_columns. rewrite Hc, Hr.
  split; unfold result_size; simpl; rewrite ?zlen_nil; auto; lia.
Qed.

Lemma statement_returns input (final : bool) r acc :
  bare r → sizeof_Result ≤ acc →
  returns (λ p : Result * Z, if final then sized p.1 p.2 else bare p.1 ∧ p.2 = acc)
    (execute_statement alloc o looks input final r acc).
Proof.
  intros Hbare Hacc. unfold execute_statement. apply returns_scoped.
  returning (λ _ : DB, True). intros d _. destruct (sqlite3_prepare _ _ _) as [[code statement] tail].
  returning (λ _ : unit, True). intros _ _. returning (λ _ : unit, True). intros _ _.
  destruct statement as [st|]; [|apply returns_throw].
  returning (λ _ : DB, True). intros d' _. destruct (sqlite3_prepare _ _ _) as [[extra_code extra] tail'].
  returning (λ _ : unit, True). intros _ _. returning (λ _ : unit, True). intros _ _.
  destruct (bool_decide _); [apply returns_throw|]. destruct (negb _); [apply returns_throw|].
  eapply returns_bind; [apply bind_all_columns|intros st' Hst'].
  destruct final; simpl.
  - eapply returns_bind; [apply columns_return|intros [names acc'] (Ha & Hle & _ & Hcols)].
    returning (λ _ : DB, True). intros before _. simpl in *.
    eapply returns_bind; [apply row_loop_sized, (sized_columns _ _ acc); done|intros [r' acc''] Hs].
    returning (λ _ : DB, True). intros after _.
    destruct (_ =? _); apply returns_ret; [done|]. by destruct Hs.
  - destruct (sqlite3_column_count st' =? 0) eqn:E; [bprop|apply returns_throw]. simpl.
    eapply (returns_bind (λ p, p = ([], acc))); [by apply returns_ret|intros ? ->].
    returning (λ _ : DB, True). intros before _.
    eapply returns_bind; [by apply row_loop_bare|intros ? ->].
    assert (bare (set_columns [] r)) as Hb.
    { destruct Hbare as [Hc Hr]. unfold bare, set_columns. simpl. by rewrite Hc, Hr. }
    returning (λ _ : DB, True). intros after _.
    destruct (_ =? _); by apply returns_ret.
Qed.

Lemma batch_returns l r acc :
  l ≠ [] → bare r → sizeof_Result ≤ acc →
  returns (λ r', ∃ acc', sized r' acc') (execute_batch alloc o looks l r acc).
Proof.
  revert r acc. induction l as [|input l IH]; intros r acc Hne Hb Hacc; [done|]. simpl.
  returning (λ _ : bool, True). intros cancelled _. returning (λ _ : unit, True). intros _ _.
  eapply returns_bind; [by apply statement_returns|intros [r' acc'] Hr']. simpl in Hr'.
  destruct l as [|input' l].
  - rewrite bool_decide_eq_true_2 in Hr' by done. apply returns_ret. eauto.
  - rewrite bool_decide_eq_false_2 in Hr' by done. destruct Hr' as [? ->]. by apply IH.
Qed.

Lemma sized_last n r acc : sized r acc → sized (set_last_insert n r) acc.
Proof. by intros []. Qed.

Lemma transaction_returns l r :
  l ≠ [] → bare r → returns (λ r', ∃ acc, sized r' acc) (transaction alloc o looks l r).
Proof.
  intros Hne Hb. unfold transaction.
  returning (λ _ : bool, True). intros cancelled _. destruct cancelled; [apply returns_throw|].
  returning (λ _ : unit, True). intros _ _.
  apply (returns_bind (λ r', ∃ acc, sized r' acc)).
  - unfold body. eapply returns_bind; [by apply batch_returns|intros r' Hr'].
    returning (λ _ : bool, True). intros b _. returning (λ _ : unit, True). intros _ _. by apply returns_ret.
  - intros r' [acc Hr']. returning (λ _ : unit, True). intros _ _.
    returning (λ _ : DB, True). intros d _. apply returns_ret. exists acc. by apply sized_last.
Qed.

Lemma sqlite_result_bounds request self :
  outcome request = default_result → statements request ≠ [] →
  options_ok o → sizeof_Result ≤ max_result_bytes o →
  (poisoned_ self = false → sqlite3_get_autocommit (database_ self) = true) →
  let r := outcome (sqlite_execute alloc o looks request self).1 in
  result_size r ≤ max_result_bytes o ∧
  zlen (rows r) ≤ max_rows o ∧ zlen (columns r) ≤ max_columns o ∧
  Forall (λ row, length row = length (columns r)) (rows r) ∧
  (status r ≠ SE_OK → columns r = [] ∧ rows r = []).
Proof.
  intros Hfresh Hne Ho Hsize Hself. pose proof (ok_rows _ Ho). pose proof (ok_columns _ Ho).
  assert (∀ code text x, let r := fail code text x in
    result_size r ≤ max_result_bytes o ∧ zlen (rows r) ≤ max_rows o ∧ zlen (columns r) ≤ max_columns o ∧
    Forall (λ row, length row = length (columns r)) (rows r) ∧
    (status r ≠ SE_OK → columns r = [] ∧ rows r = [])) as Hfail.
  { intros code text x r. unfold r, result_size, columns_size, fail, zlen. simpl.
    split_and!; try lia; auto. }
  unfold sqlite_execute. rewrite Hfresh. destruct (poisoned_ self); [apply Hfail|].
  specialize (Hself eq_refl). pose proof (transaction_returns (statements request) default_result Hne
    (conj eq_refl eq_refl) (mkConn (database_ self) 0 [])) as Hret.
  pose proof (transaction_ends (statements request) default_result (mkConn (database_ self) 0 []) Hself) as Hst.
  destruct (transaction alloc o looks _ _ _) as [x c]. simpl in *.
  assert (let r := match x with Ok r => r | Err e => fail e.1 e.2 default_result end in
    result_size r ≤ max_result_bytes o ∧ zlen (rows r) ≤ max_rows o ∧ zlen (columns r) ≤ max_columns o ∧
    Forall (λ row, length row = length (columns r)) (rows r) ∧
    (status r ≠ SE_OK → columns r = [] ∧ rows r = [])) as Hr.
  { destruct x as [r|e]; [|apply Hfail]. destruct Hst as [Hst _].
    destruct (Hret r eq_refl) as [acc [Hacc Hlim Hrect Hrows Hcols]].
    simpl. split_and!; try lia; [done|]. by rewrite Hst. }
  unfold roll_back. repeat (casematch; simpl); auto; apply Hfail.
Qed.

(** A result is within its limits and rectangular. Whatever rows SQLite returns,
    the result of a request has at most the configured rows and columns, each
    row has one cell for each column, and the memory it is accounted at, names
    and contents included, is within the configured bytes; a failed request
    carries no rows at all. *)
Theorem sqlite_result_bounded request self :
  outcome request = default_result → statements request ≠ [] →
  options_ok o → sizeof_Result ≤ max_result_bytes o →
  (poisoned_ self = false → sqlite3_get_autocommit (database_ self) = true) →
  let r := outcome (sqlite_execute alloc o looks request self).1 in
  result_size r ≤ max_result_bytes o ∧
  zlen (rows r) ≤ max_rows o ∧ zlen (columns r) ≤ max_columns o ∧
  Forall (λ row, length row = length (columns r)) (rows r) ∧
  (status r ≠ SE_OK → columns r = [] ∧ rows r = []).
Proof. apply sqlite_result_bounds. Qed.

(** ** The row loop ends *)
Lemma row_count st r acc :
  returns (λ p, zlen (rows p.1) = zlen (rows r) + 1 ∧ zlen (rows r) < max_rows o) (read_row alloc o st r acc).
Proof.
  unfold read_row. destruct (_ <=? _) eqn:E; [apply returns_throw|]. bprop.
  returning (λ _ : Z, True). intros acc' _. returning (λ _ : list Value * Z, True). intros [row acc''] _.
  apply returns_ret. simpl. by rewrite zlen_app, zlen_cons.
Qed.

Lemma bind_ext {A B} (m : M A) (k k' : A → M B) c :
  (∀ a c', m c = (Ok a, c') → k a c' = k' a c') → bind_M m k c = bind_M m k' c.
Proof. unfold bind_M. destruct (m c) as [[a|e] c']; auto. Qed.

(** Reading rows terminates: however many rows SQLite has, the loop runs at most
    once more than the row limit allows; giving it more fuel than the model
    does never changes what it returns. *)
Theorem row_loop_fuel n st r acc c :
  (row_fuel o <= n)%nat →
  row_loop alloc o looks n st r acc c = row_loop alloc o looks (row_fuel o) st r acc c.
Proof.
  intros Hn. clear -Hn. assert (∀ n m st r acc c, Z.max 0 (max_rows o - zlen (rows r)) < Z.of_nat n →
    Z.max 0 (max_rows o - zlen (rows r)) < Z.of_nat m →
    row_loop alloc o looks n st r acc c = row_loop alloc o looks m st r acc c) as Hgen.
  { clear n c st r acc Hn. intros n. induction n as [|n IH]; intros [|m] st r acc c Hn Hm; try lia. simpl.
    apply bind_ext. intros [code st'] c1 _. destruct (code =? SQLITE_ROW); [|done].
    apply bind_ext. intros b c2 _. apply bind_ext. intros _ c3 _.
    apply bind_ext. intros [r' acc'] c4 Hrow.
    destruct (row_count st' r acc c3 (r', acc')) as [Hz Hlt]; [by rewrite Hrow|].
    simpl in Hz. apply IH; lia. }
  unfold row_fuel in *. pose proof (zlen_nonneg (rows r)). apply Hgen; lia.
Qed.
End Properties.

(** * A concrete library, for the concrete runs *)
Module Toy.
(** The durable lines and those of the open transaction; a statement starting with
    [s] returns the lines one per row, any other appends its text. *)
Record ToyDB := mkToy { lines : list bytes; pending : option (list bytes) }.
Record ToyStmt := mkToyStmt { query : bool; text : bytes; cursor : nat; values : list bytes }.

Definition toy_exec (auth : Z → option bytes → Z) (p : nat → bool) (t : bytes) (d : ToyDB)
    : Z * nat * ToyDB :=
  if negb (auth SQLITE_TRANSACTION None =? SQLITE_OK) then (23, O, d)
  else if bool_decide (t = txt "BEGIN") then
    match pending d with
    | None => (SQLITE_OK, O, mkToy (lines d) (Some (lines d))) | Some _ => (1, O, d)
    end
  else match pending d with
    | None => (1, O, d)
    | Some l => (SQLITE_OK, O, mkToy (if bool_decide (t = txt "COMMIT") then l else lines d) None)
    end.
Definition toy_prepare (auth : Z → option bytes → Z) (t : bytes) (d : ToyDB)
    : Z * option ToyStmt * bytes :=
  match t with
  | [] => (SQLITE_OK, None, [])
  | c :: _ => (SQLITE_OK, Some (mkToyStmt (bool_decide (c = x73)) t O []), [])
  end.
Definition toy_step (p : nat → bool) (st : ToyStmt) (d : ToyDB) : Z * nat * ToyStmt * ToyDB :=
  if p O then (SQLITE_INTERRUPT, 1%nat, st, d)
  else match pending d with
  | None => (1, 1%nat, st, d)
  | Some l =>
      if query st then
        if (cursor st <? length l)%nat
        then (SQLITE_ROW, 1%nat, mkToyStmt true (text st) (S (cursor st)) (take 1 (drop (cursor st) l)), d)
        else (SQLITE_DONE, 1%nat, st, d)
      else (SQLITE_DONE, 1%nat, st, mkToy (lines d) (Some (l ++ [text st])))
  end.
#[export] Instance toy : Sqlite ToyDB ToyStmt := {|
  sqlite3_exec := toy_exec;
  sqlite3_get_autocommit d := bool_decide (pending d = None);
  sqlite3_prepare := toy_prepare;
  sqlite3_finalize _ d := d;
  sqlite3_bind_parameter_count _ := 0;
  sqlite3_bind_null st _ := (SQLITE_MISUSE, st);
  sqlite3_bind_int64 st _ _ := (SQLITE_MISUSE, st);
  sqlite3_bind_double st _ _ := (SQLITE_MISUSE, st);
  sqlite3_bind_text st _ _ := (SQLITE_MISUSE, st);
  sqlite3_bind_blob st _ _ := (SQLITE_MISUSE, st);
  sqlite3_column_count st := if query st then 1 else 0;
  sqlite3_column_name _ _ := Some (txt "line");
  sqlite3_step := toy_step;
  sqlite3_column_type _ _ := SQLITE_TEXT;
  sqlite3_column_int64 _ _ := 0;
  sqlite3_column_double _ _ := 0;
  sqlite3_column_text st _ := head (values st);
  sqlite3_column_blob _ _ := None;
  sqlite3_column_bytes st _ := zlen (default [] (head (values st)));
  sqlite3_errcode _ _ := SQLITE_OK;
  sqlite3_total_changes64 d := zlen (default [] (pending d));
  sqlite3_changes64 _ := 1;
  sqlite3_last_insert_rowid d := zlen (lines d);
  sqlite3_interrupt d := d;
|}.

#[export] Instance toy_laws : SqliteLaws lines (λ _ : ToyStmt, True).
Proof.
  split.
  - intros auth p t d. simpl. unfold toy_exec. repeat (casematch; simpl); done.
  - intros auth p d Ha Hac. simpl in *. unfold toy_exec. rewrite Ha. simpl. bprop. by rewrite Hac.
  - intros auth p d Ha Hac. simpl in *. unfold toy_exec. rewrite Ha. simpl. bprop.
    by destruct (pending d).
  - intros auth p d Ha Hac. simpl in *. unfold toy_exec. rewrite Ha. simpl. bprop.
    by destruct (pending d).
  - done.
  - intros st i v. unfold bind. simpl. repeat (casematch; simpl); done.
  - intros p st d _ Hac. simpl in *. unfold toy_step. bprop.
    repeat (casematch; simpl); split_and!; try done; simplify_eq; intros; bprop;
      try (apply bool_decide_eq_false_2; congruence); naive_solver.
  - intros p st d. simpl. unfold toy_step. repeat (casematch; simpl); done.
  - done.
  - done.
  - intros st i. simpl. split; [by destruct (query st)|apply zlen_nonneg].
Qed.

Definition calm : nat → Look := λ _, mkLook false false.
(** The service stops while the second statement executes. *)
Definition stopping_midway : nat → Look := λ n, mkLook (6 <=? n)%nat false.
Definition batch : Request :=
  mkRequest 1 0 [mkStatement (txt "insert") []; mkStatement (txt "select") []] default_result Running.
Definition start : @SqliteDriver ToyDB := mkDriver (mkToy [txt "old"] None) false.
Definition always : bytes → bool := λ _, true.
End Toy.
Import Toy.

Lemma sqlite_atomic_witness :
  let run looks := sqlite_execute Toy.always sample_options looks Toy.batch Toy.start in
  rows (outcome (run Toy.calm).1) = [[mkValue SE_SQL_TEXT 0 0 (txt "old")]; [mkValue SE_SQL_TEXT 0 0 (txt "insert")]] ∧
  Toy.lines (database_ (run Toy.calm).2) = [txt "old"; txt "insert"] ∧
  status (outcome (run Toy.stopping_midway).1) = SE_SQL_CANCELLED ∧
  Toy.lines (database_ (run Toy.stopping_midway).2) = [txt "old"].
Proof.
  split; [vm_compute; reflexivity|]. split; [vm_compute; reflexivity|]. split; [vm_compute; reflexivity|].
  pose proof (sqlite_atomic Toy.lines (λ _, True) Toy.always sample_options Toy.stopping_midway
    Toy.batch Toy.start eq_refl (λ _, eq_refl)) as (_ & _ & Hsame & _).
  exact (Hsame ltac:(vm_compute; discriminate) ltac:(vm_compute; discriminate)).
Defined.

Lemma sqlite_result_bounded_witness :
  let r := outcome (sqlite_execute Toy.always sample_options Toy.calm Toy.batch Toy.start).1 in
  zlen (rows r) = 2 ∧ result_size r ≤ 4096 ∧ Forall (λ row, length row = 1%nat) (rows r).
Proof.
  split; [vm_compute; reflexivity|].
  destruct (sqlite_result_bounded Toy.lines (λ _, True) Toy.always sample_options Toy.calm
    Toy.batch Toy.start) as (Hsize & _ & _ & Hrect & _).
  - reflexivity.
  - discriminate.
  - apply sample_options_ok.
  - vm_compute. discriminate.
  - reflexivity.
  - split; [exact Hsize|exact Hrect].
Defined.

Lemma row_loop_fuel_witness :
  let st := Toy.mkToyStmt true (txt "select") 0 [] in
  let c := mkConn (Toy.mkToy [] (Some [txt "a"; txt "b"])) 0 [st] in
  (row_loop Toy.always sample_options Toy.calm 500 st default_result 0 c).1
  = (row_loop Toy.always sample_options Toy.calm (row_fuel sample_options) st default_result 0 c).1.
Proof.
  intros st c. apply (f_equal fst), row_loop_fuel. vm_compute. lia.
Defined.
