(* ===== verification/SqlAbi.v ===== *)
(** SqlAbi: the handle registry and the C entry points of the SQL service
    ([src/src/Data/Sql/Registry.cpp], [src/src/Abi/Sql.cpp]), over any driver. *)
From S2P Require Import Prelude.
From S2P Require Import Text.
From S2P Require Import NetTypes.
From S2P Require Import Abi.
From S2P Require Import SqlTypes.
From S2P Require Import SqlService.
From S2P Require Import SqlProperties.

Abbreviation sql_fail := SqlTypes.error.

(** [src/src/Data/Sql/Registry.cpp:8-12] *)
Record SqlRegistry (D : Type) := mkSqlRegistry { next_sql : Z; services : gmap Z (Service D) }.
Arguments mkSqlRegistry {D}. Arguments next_sql {D}. Arguments services {D}.
Definition first_sql : Z := 0x5300000000000001.
Definition last_sql : Z := 0x5400000000000000.
Definition empty_sql {D} : SqlRegistry D := mkSqlRegistry first_sql ∅.

(** [src/src/Abi/Sql.cpp:27-42] *)
Definition se_sql_options_init : se_sql_options :=
  mkSeOptions sizeof_sql_options SE_SQL_ABI_VERSION SE_SQL_SQLITE 128 (64 * 1024) (1024 * 1024)
    10000 128 5000 1000 (64 * 1024 * 1024) None [0; 0; 0; 0].
(** [src/src/Abi/Sql.cpp:44-50] *)
Definition se_sql_result_init : se_sql_result :=
  mkSeResult sizeof_sql_result SE_SQL_ABI_VERSION 0 SE_OK 0 0 0 0 [].

(** [src/include/ServerEngine/C/Sql.h:72-77] *)
Record se_sql_cell := mkSeCell { ce_type : Z; ce_size : Z; ce_integer : Z; ce_real : Z }.
Definition empty_cell : se_sql_cell := mkSeCell 0 0 0 0.

(** [src/src/Abi/Sql.cpp:11-20] *)
Definition boundary {A} (default : A) (r : result SqlError (se_status * A)) : se_status * se_error * A :=
  match r with
  | Ok (s, a) => (s, no_error, a)
  | Err e => (Abi.fail e.1 e.2, default)
  end.

(** [src/src/Abi/Sql.cpp:88-95] {se_sql_column_name} The reader: the size, and the
    name with its terminator when it fits. *)
Definition read_column (column capacity : Z) (r : Result)
    : result SqlError (se_status * (Z * option bytes)) :=
  match columns r !! Z.to_nat column with
  | None => Err (sql_fail SE_INVALID_ARGUMENT "SQL column index out of range")
  | Some text =>
      if capacity <=? zlen text then Ok (SE_BUFFER_TOO_SMALL, (u32 (zlen text), None))
      else Ok (SE_OK, (u32 (zlen text), Some (text ++ [x00])))
  end.

(** What indexing a row past its end would be: undefined in the source. *)
Definition undefined_cell : SqlError := sql_fail SE_INTERNAL_ERROR "undefined".

(** [src/src/Abi/Sql.cpp:105-116] {se_sql_get_cell} The reader. *)
Definition read_cell (row column capacity : Z) (r : Result)
    : result SqlError (se_status * (se_sql_cell * option bytes)) :=
  match rows r !! Z.to_nat row with
  | None => Err (sql_fail SE_INVALID_ARGUMENT "SQL cell index out of range")
  | Some cells =>
      if zlen (columns r) <=? column
      then Err (sql_fail SE_INVALID_ARGUMENT "SQL cell index out of range")
      else match cells !! Z.to_nat column with
      | None => Err undefined_cell
      | Some v =>
          let cell := mkSeCell (type v) (u32 (zlen (value_bytes v))) (integer v) (real v) in
          if capacity <? zlen (value_bytes v) then Ok (SE_BUFFER_TOO_SMALL, (cell, None))
          else Ok (SE_OK, (cell, Some (value_bytes v)))
      end
  end.

Section SqlAbi.
Context `{Layout} {D : Type} `{Driver D}.
(** Opening the database, and what a worker's looks see, for each service. *)
Context (open_driver : Options → result SqlError D) (looks : Z → Z → nat → Look).
Implicit Types r : SqlRegistry D.

(** [src/src/Data/Sql/Registry.cpp:21-30] *)
Definition register_service (s : Service D) r : result SqlError (Z * SqlRegistry D) :=
  if next_sql r =? last_sql then Err (sql_fail SE_INVALID_STATE "SQL service handle space exhausted")
  else Ok (next_sql r, mkSqlRegistry (u64 (next_sql r + 1)) (<[next_sql r := s]> (services r))).
(** [src/src/Data/Sql/Registry.cpp:32-39] *)
Definition find_service (handle : Z) r : result SqlError (Service D) :=
  match services r !! handle with
  | None => Err (sql_fail SE_INVALID_HANDLE "unknown or destroyed SQL service")
  | Some s => Ok s
  end.
(** [src/src/Data/Sql/Registry.cpp:41-50] *)
Definition remove_service (handle : Z) r : result SqlError (Service D * SqlRegistry D) :=
  match services r !! handle with
  | None => Err (sql_fail SE_INVALID_HANDLE "unknown or destroyed SQL service")
  | Some s => Ok (s, mkSqlRegistry (next_sql r) (delete handle (services r)))
  end.
Definition put (handle : Z) (s : Service D) r : SqlRegistry D :=
  mkSqlRegistry (next_sql r) (<[handle := s]> (services r)).
(** [sql_stop_terminates] shows this many turns suffice. *)
Definition stop_fuel (s : Service D) : nat := Z.to_nat (3 * zlen (requests_ s) + 1).
Definition stop_service (handle : Z) (s : Service D) : Service D :=
  default (request_stop s) (stop (looks handle) (stop_fuel s) s).

(** [src/src/Abi/Sql.cpp:52-60] *)
Definition se_sql_create (options : option se_sql_options) (service : bool) r
    : se_status * se_error * (Z * SqlRegistry D) :=
  boundary (0, r)
    (match options with
     | Some source =>
         check? service or sql_fail SE_INVALID_ARGUMENT "SQL options/output handle is null" in
         let? o := decode_options source in
         let? d := open_driver o in
         let? hr := register_service (new_service o d) r in
         Ok (SE_OK, hr)
     | None => Err (sql_fail SE_INVALID_ARGUMENT "SQL options/output handle is null")
     end).

(** [src/src/Abi/Sql.cpp:62-71] *)
Definition se_sql_submit (service : Z) (statements : option (list se_sql_statement)) (count : Z)
    (request_id : bool) r : se_status * se_error * (Z * SqlRegistry D) :=
  boundary (0, r)
    (check? request_id or sql_fail SE_INVALID_ARGUMENT "SQL request ID output is null" in
     let? s := find_service service r in
     match submit statements count s with
     | (Err e, _) => Err e
     | (Ok i, s') => Ok (SE_OK, (i, put service s' r))
     end).

(** [src/src/Abi/Sql.cpp:73-80] *)
Definition se_sql_poll (service : Z) (out : option (Z * Z)) r
    : se_status * se_error * (option se_sql_result * SqlRegistry D) :=
  boundary (None, r)
    (check? bool_decide (out = Some (sizeof_sql_result, SE_SQL_ABI_VERSION))
       or sql_fail SE_INVALID_ARGUMENT "SQL result layout/version is invalid" in
     let? s := find_service service r in
     let '(st, x, s') := poll s in
     Ok (st, (x, put service s' r))).

(** [src/src/Abi/Sql.cpp:82-97] *)
Definition se_sql_column_name (service request_id column : Z) (name : bool) (capacity : Z)
    (name_size : bool) r : se_status * se_error * (Z * option bytes) :=
  boundary (0, None)
    (check? name_size && ((capacity =? 0) || name)
       or sql_fail SE_INVALID_ARGUMENT "invalid SQL column name output" in
     let? s := find_service service r in
     read_result request_id (read_column column capacity) s).

(** [src/src/Abi/Sql.cpp:99-118] *)
Definition se_sql_get_cell (service request_id row column : Z) (cell data : bool) (capacity : Z) r
    : se_status * se_error * (se_sql_cell * option bytes) :=
  boundary (empty_cell, None)
    (check? cell && ((capacity =? 0) || data)
       or sql_fail SE_INVALID_ARGUMENT "invalid SQL cell output" in
     let? s := find_service service r in
     read_result request_id (read_cell row column capacity) s).

(** [src/src/Abi/Sql.cpp:120-126] *)
Definition se_sql_release_result (service request_id : Z) r : se_status * se_error * SqlRegistry D :=
  boundary r
    (let? s := find_service service r in
     match release request_id s with
     | (Err e, _) => Err e
     | (Ok _, s') => Ok (SE_OK, put service s' r)
     end).

(** [src/src/Abi/Sql.cpp:128-131] *)
Definition se_sql_stop (service : Z) r : se_status * se_error * SqlRegistry D :=
  boundary r
    (let? s := find_service service r in
     Ok (SE_OK, put service (stop_service service s) r)).

(** [src/src/Abi/Sql.cpp:133-136] The service removed is stopped and dropped. *)
Definition se_sql_destroy (service : Z) r : se_status * se_error * SqlRegistry D :=
  boundary r
    (let? sr := remove_service service r in
     let '(_, r') := sr in Ok (SE_OK, r')).

(** A call of the library, or a turn of the worker of a live service. *)
Inductive SqlCall :=
| SqlCreate (options : option se_sql_options) (service : bool)
| SqlSubmit (service : Z) (statements : option (list se_sql_statement)) (count : Z) (request_id : bool)
| SqlPoll (service : Z) (out : option (Z * Z))
| SqlRelease (service request_id : Z)
| SqlStop (service : Z)
| SqlDestroy (service : Z)
| SqlTurn (service : Z).

Definition sql_call (c : SqlCall) r : se_status * se_error * SqlRegistry D :=
  match c with
  | SqlCreate options service => let '(s, (_, r')) := se_sql_create options service r in (s, r')
  | SqlSubmit service statements count request_id =>
      let '(s, (_, r')) := se_sql_submit service statements count request_id r in (s, r')
  | SqlPoll service out => let '(s, (_, r')) := se_sql_poll service out r in (s, r')
  | SqlRelease service request_id => se_sql_release_result service request_id r
  | SqlStop service => se_sql_stop service r
  | SqlDestroy service => se_sql_destroy service r
  | SqlTurn service =>
      match find_service service r with
      | Ok s => (SE_OK, no_error, put service (run (looks service) s) r)
      | Err e => (SE_OK, no_error, r)
      end
  end.
Definition sql_step r (c : SqlCall) : SqlRegistry D := (sql_call c r).2.

(** ** The registry *)
Record sql_registry_ok r : Prop := {
  sr_next : first_sql ≤ next_sql r ≤ last_sql;
  sr_issued : ∀ k s, services r !! k = Some s → first_sql ≤ k < next_sql r;
}.
(** What a call may do: nothing, replace a service, drop one, or add the next. *)
Inductive sql_change r : SqlRegistry D → Prop :=
| sc_same : sql_change r r
| sc_put k s0 s : services r !! k = Some s0 → sql_change r (put k s r)
| sc_drop k : sql_change r (mkSqlRegistry (next_sql r) (delete k (services r)))
| sc_add s : next_sql r ≠ last_sql →
    sql_change r (mkSqlRegistry (u64 (next_sql r + 1)) (<[next_sql r := s]> (services r))).

Lemma find_service_Ok k r s : find_service k r = Ok s → services r !! k = Some s.
Proof. unfold find_service. casematch; congruence. Qed.

Lemma sql_step_change r c : sql_change r (sql_step r c).
Proof.
  unfold sql_step. destruct c as [options service|k l n q|k out|k i|k|k|k]; simpl.
  - unfold se_sql_create, register_service. destruct options as [o|]; [|apply sc_same].
    destruct service; simpl; [|apply sc_same]. destruct (decode_options o) as [o'|]; simpl; [|apply sc_same].
    destruct (open_driver o') as [d|]; simpl; [|apply sc_same].
    destruct (next_sql r =? last_sql) eqn:E; simpl; bprop; [apply sc_same|by apply sc_add].
  - unfold se_sql_submit. destruct q; simpl; [|apply sc_same].
    destruct (find_service k r) as [s|] eqn:E; simpl; [|apply sc_same]. apply find_service_Ok in E.
    destruct (submit l n s) as [[i|] s']; simpl; [by eapply sc_put|apply sc_same].
  - unfold se_sql_poll. destruct (bool_decide _); simpl; [|apply sc_same].
    destruct (find_service k r) as [s|] eqn:E; simpl; [|apply sc_same]. apply find_service_Ok in E.
    destruct (poll s) as [[st x] s']. simpl. by eapply sc_put.
  - unfold se_sql_release_result. destruct (find_service k r) as [s|] eqn:E; simpl; [|apply sc_same].
    apply find_service_Ok in E. destruct (release i s) as [[u|] s']; simpl; [by eapply sc_put|apply sc_same].
  - unfold se_sql_stop. destruct (find_service k r) as [s|] eqn:E; simpl; [|apply sc_same].
    apply find_service_Ok in E. by eapply sc_put.
  - unfold se_sql_destroy, remove_service. destruct (services r !! k); simpl; [apply sc_drop|apply sc_same].
  - destruct (find_service k r) as [s|] eqn:E; simpl; [|apply sc_same].
    apply find_service_Ok in E. by eapply sc_put.
Qed.

Lemma sql_change_ok r r' : sql_registry_ok r → sql_change r r' → sql_registry_ok r'.
Proof.
  unfold first_sql, last_sql. intros [Hn Hi] [|k s0 s Hs|k|s Hne]; unfold first_sql, last_sql in *.
  - done.
  - split; [done|]. simpl. intros j x. rewrite lookup_insert. case_decide; [subst; eauto|apply Hi].
  - split; [done|]. simpl. intros j x [_ Hx]%lookup_delete_Some. eauto.
  - assert (u64 (next_sql r + 1) = next_sql r + 1) as Hu by (apply u64_small; unfold is_u64; lia).
    split; simpl; rewrite Hu; unfold first_sql, last_sql; [lia|].
    intros j x. rewrite lookup_insert. case_decide; [lia|]. intros Hx. specialize (Hi _ _ Hx). lia.
Qed.

Lemma sql_change_gone r r' k :
  sql_registry_ok r → sql_change r r' → k < next_sql r → services r !! k = None →
  k < next_sql r' ∧ services r' !! k = None.
Proof.
  intros [Hn Hi] [|j s0 s Hs|j|s Hne] Hk Hg; simpl; try done.
  - split; [done|]. rewrite lookup_insert_ne; [done|]. intros ->. congruence.
  - split; [done|]. apply lookup_delete_None. by right.
  - unfold first_sql, last_sql in *. rewrite u64_small by (unfold is_u64; lia).
    split; [lia|]. rewrite lookup_insert_ne; [done|lia].
Qed.

Lemma create_issues_next options out r :
  (se_sql_create options out r).2.1 = 0 ∨ (se_sql_create options out r).2.1 = next_sql r.
Proof.
  unfold se_sql_create, register_service. destruct options as [o|]; [|by left].
  destruct out; simpl; [|by left]. destruct (decode_options o) as [o'|e]; simpl; [|by left].
  destruct (open_driver o'); simpl; [|by left]. destruct (_ =? _); simpl; [by left|by right].
Qed.

(** SQL handles never mislead: a handle issued is never one issued before, nor a
    network server's; and once a service is destroyed no call ever brings its
    handle back: submitting, polling, reading, releasing, stopping and
    destroying through it all report an invalid handle. *)
Theorem sql_handles calls calls' k :
  let r := runs sql_step empty_sql calls in
  (se_sql_destroy k r).1.1 = SE_OK →
  let r' := runs sql_step (se_sql_destroy k r).2 calls' in
  2 ^ 56 ≤ k ∧
  (∀ options out, let h := (se_sql_create options out r').2.1 in h = 0 ∨ k < h) ∧
  (∀ l n, (se_sql_submit k l n true r').1.1 = SE_INVALID_HANDLE) ∧
  (se_sql_poll k (Some (sizeof_sql_result, SE_SQL_ABI_VERSION)) r').1.1 = SE_INVALID_HANDLE ∧
  (∀ i row column capacity,
     (se_sql_get_cell k i row column true true capacity r').1.1 = SE_INVALID_HANDLE) ∧
  (∀ i, (se_sql_release_result k i r').1.1 = SE_INVALID_HANDLE) ∧
  (se_sql_stop k r').1.1 = SE_INVALID_HANDLE ∧ (se_sql_destroy k r').1.1 = SE_INVALID_HANDLE.
Proof.
  intros r Hd r'. assert (sql_registry_ok r) as Hr.
  { apply runs_invariant; [intros x c Hx; by eapply sql_change_ok, sql_step_change|].
    split; [by vm_compute|]. intros j x. simpl. by rewrite lookup_empty. }
  unfold se_sql_destroy, remove_service in Hd, r'.
  destruct (services r !! k) as [s|] eqn:Ek; simpl in *; [|done].
  pose proof (sr_issued _ Hr _ _ Ek) as Hk.
  assert (sql_registry_ok r' ∧ k < next_sql r' ∧ services r' !! k = None) as (_ & Hlt & Hgone).
  { unfold r'. apply (runs_invariant sql_step
      (λ x, sql_registry_ok x ∧ k < next_sql x ∧ services x !! k = None)).
    - intros x c (H1 & H2 & H3). pose proof (sql_step_change x c) as Hc.
      split; [by eapply sql_change_ok|by eapply sql_change_gone].
    - split; [by eapply sql_change_ok, sc_drop|]. split; [simpl; lia|apply lookup_delete_eq]. }
  assert (find_service k r' = Err (sql_fail SE_INVALID_HANDLE "unknown or destroyed SQL service")) as Hf
    by (unfold find_service; by rewrite Hgone).
  split; [unfold first_sql in Hk; lia|]. split.
  { intros options out. destruct (create_issues_next options out r'); simpl; lia. }
  unfold se_sql_submit, se_sql_poll, se_sql_get_cell, se_sql_release_result, se_sql_stop,
    se_sql_destroy, remove_service. rewrite Hgone, Hf.
  rewrite (bool_decide_eq_true_2 (Some _ = Some _)) by done.
  split_and!; intros; simpl; try done. by rewrite orb_true_r.
Qed.
End SqlAbi.

Import SqlProperties.Sample.

Module SampleAbi.
Definition options : se_sql_options :=
  mkSeOptions sizeof_sql_options SE_SQL_ABI_VERSION SE_SQL_SQLITE 128 (64 * 1024) (1024 * 1024)
    10000 128 5000 1000 (64 * 1024 * 1024) (Some (txt "app.db")) [0; 0; 0; 0].
Definition open_driver (o : Options) : result SqlError Z := Ok 0.
End SampleAbi.

Lemma sql_handles_witness :
  let r := runs (sql_step SampleAbi.open_driver (λ _, calm)) empty_sql
             [SqlCreate (Some SampleAbi.options) true] in
  (se_sql_submit 5980780305148018689 (Some [sample_statement]) 1 true r).1.1 = SE_OK ∧
  (se_sql_submit 5980780305148018689 (Some [sample_statement]) 1 true
    (runs (sql_step SampleAbi.open_driver (λ _, calm)) (se_sql_destroy 5980780305148018689 r).2
       [SqlCreate (Some SampleAbi.options) true])).1.1 = SE_INVALID_HANDLE.
Proof.
  split; [vm_compute; reflexivity|].
  refine (proj1 (proj2 (proj2 (sql_handles SampleAbi.open_driver (λ _, calm)
    [SqlCreate (Some SampleAbi.options) true] [SqlCreate (Some SampleAbi.options) true]
    5980780305148018689 _))) _ _).
  vm_compute. reflexivity.
Defined.
