(* ===== verification/SqlStack.v ===== *)
(** SqlStack: the SQL service over the SQLite driver, end to end: what a caller can
    read of a delivered result. *)
From S2P Require Import Prelude.
From S2P Require Import Text.
From S2P Require Import NetTypes.
From S2P Require Import SqlTypes.
From S2P Require Import SqlService.
From S2P Require Import SqlProperties.
From S2P Require Import SqliteDriver.
From S2P Require Import SqliteProperties.
From S2P Require Import SqlAbi.

Section Stack.
Context `{Layout} {DB Stmt C : Type} `{Sqlite DB Stmt}
  (committed : DB → C) (ordinary : Stmt → Prop) `{!SqliteLaws committed ordinary}
  (alloc : bytes → bool) (o : Options) (looks : Z → nat → Look).
Context (Ho : options_ok o) (Hsize : sizeof_Result ≤ max_result_bytes o).

#[local] Instance stack_driver : Driver (@SqliteDriver DB) := sqlite_driver alloc o.
#[local] Instance stack_laws : DriverLaws (@SqliteDriver DB) := sqlite_driver_laws alloc o.

(** The service after any use of it, from an opened database. *)
Definition stack (d : DB) (ops : list Op) : Service (@SqliteDriver DB) :=
  used looks o (mkDriver d false) ops.

(** A result a caller can index: within its limits and rectangular. *)
Definition readable_result (r : Result) : Prop :=
  result_size r ≤ max_result_bytes o ∧ zlen (rows r) ≤ max_rows o ∧
  zlen (columns r) ≤ max_columns o ∧ Forall (λ row, length row = length (columns r)) (rows r).
Definition settled_connection (self : @SqliteDriver DB) : Prop :=
  poisoned_ self = false → sqlite3_get_autocommit (database_ self) = true.

Lemma empty_readable r : columns r = [] → rows r = [] → readable_result r.
Proof.
  intros Hc Hr. pose proof (ok_rows _ Ho). pose proof (ok_columns _ Ho).
  unfold readable_result, result_size, columns_size. rewrite Hc, Hr. unfold zlen. simpl.
  split_and!; try lia. constructor.
Qed.

Lemma stack_results d ops :
  sqlite3_get_autocommit d = true → Forall op_ok ops →
  results_good readable_result settled_connection (stack d ops).
Proof.
  intros Hd Hops. apply used_results.
  - by apply empty_readable.
  - intros. by apply empty_readable.
  - intros lk r self Hself Hfresh Hne. simpl. split.
    + destruct (sqlite_result_bounds committed ordinary alloc o lk r self) as (?&?&?&?&_); auto.
      by split_and!.
    + refine (sqlite_closes committed ordinary alloc o lk r self _ Hself). by rewrite Hfresh.
  - intros self Hself. unfold settled_connection, interrupt. simpl. rewrite law_interrupt. done.
  - done.
  - done.
  - by intros _.
Qed.

(** C12: Whatever clients do and however the worker is scheduled, a delivered result
    can be read in full: it is within the configured limits, every cell of its
    table exists, and reading one gives its value, or its size and a request
    for a larger buffer, which retried with that size succeeds. *)
Theorem sql_results_readable d ops i r row column :
  sqlite3_get_autocommit d = true → Forall op_ok ops →
  lookup_id i (requests_ (stack d ops)) = Some r → state r = Delivered →
  0 ≤ row < zlen (rows (outcome r)) → 0 ≤ column < zlen (columns (outcome r)) →
  zlen (rows (outcome r)) ≤ max_rows o ∧ zlen (columns (outcome r)) ≤ max_columns o ∧
  result_size (outcome r) ≤ max_result_bytes o ∧
  ∃ cells v, rows (outcome r) !! Z.to_nat row = Some cells ∧ cells !! Z.to_nat column = Some v ∧
    let cell := mkSeCell (type v) (u32 (zlen (value_bytes v))) (integer v) (real v) in
    (∀ capacity, zlen (value_bytes v) ≤ capacity →
       read_result i (SqlAbi.read_cell row column capacity) (stack d ops)
       = Ok (SE_OK, (cell, Some (value_bytes v)))) ∧
    (∀ capacity, capacity < zlen (value_bytes v) →
       read_result i (SqlAbi.read_cell row column capacity) (stack d ops)
       = Ok (SE_BUFFER_TOO_SMALL, (cell, None))).
Proof.
  intros Hd Hops Hl Hst Hrow Hcol. destruct (stack_results d ops Hd Hops) as [_ Hgood].
  pose proof (lookup_id_Some _ _ _ Hl) as [<- Hin].
  rewrite Forall_forall in Hgood. destruct (Hgood r Hin) as ((Hsz & Hr & Hc & Hrect) & _).
  destruct (lookup_lt_is_Some_2 (rows (outcome r)) (Z.to_nat row)) as [cells Hcells];
    [unfold zlen in Hrow; lia|].
  assert (length cells = length (columns (outcome r))) as Hlen.
  { rewrite Forall_forall in Hrect. apply Hrect. by eapply list_elem_of_lookup_2. }
  destruct (lookup_lt_is_Some_2 cells (Z.to_nat column)) as [v Hv]; [unfold zlen in Hcol; lia|].
  split_and!; [done..|]. exists cells, v. split; [done|]. split; [done|].
  intros cell. split; intros capacity Hcap;
    unfold read_result; rewrite Hl, bool_decide_eq_true_2 by done; unfold SqlAbi.read_cell;
    rewrite Hcells, (proj2 (Z.leb_gt _ _)) by lia; rewrite Hv;
    [rewrite (proj2 (Z.ltb_ge _ _)) by lia|rewrite (proj2 (Z.ltb_lt _ _)) by lia]; done.
Qed.
End Stack.

Import SqliteProperties.Toy.

Module SampleStack.
Definition insert : se_sql_statement := mkSeStatement (Some (txt "insert")) 6 0 None.
Definition select : se_sql_statement := mkSeStatement (Some (txt "select")) 6 0 None.
Definition session : list Op := [Submit [insert; select]; Work; Work; Work; Work; Poll].
Definition run : Service (@SqliteDriver Toy.ToyDB) :=
  stack Toy.always sample_options (λ _, Toy.calm) (Toy.mkToy [txt "old"] None) session.
Definition delivered : Request :=
  mkRequest 1 5628 [mkStatement (txt "insert") []; mkStatement (txt "select") []]
    (mkResult SE_OK [] 1 2 [txt "line"]
      [[mkValue SE_SQL_TEXT 0 0 (txt "old")]; [mkValue SE_SQL_TEXT 0 0 (txt "insert")]]) Delivered.
Lemma stack_session_ok : Forall op_ok session.
Proof.
  assert (∀ s, s = insert ∨ s = select → readable s) as Hs.
  { intros s [->| ->]; unfold readable, is_u32; simpl;
      (split; [lia|]; split; [lia|]; split; [intros t [= <-]; vm_compute; discriminate|done]). }
  apply Forall_cons_2; [|repeat (apply Forall_cons_2; [exact I|]); apply Forall_nil_2].
  repeat (apply Forall_cons_2; [apply Hs; auto|]). apply Forall_nil_2.
Qed.
End SampleStack.

Lemma sql_results_readable_witness :
  read_result 1 (SqlAbi.read_cell 1 0 6) SampleStack.run
  = Ok (SE_OK, (mkSeCell SE_SQL_TEXT 6 0 0, Some (txt "insert"))).
Proof.
  assert (sizeof_Result ≤ max_result_bytes sample_options) as Hs by (vm_compute; discriminate).
  destruct (sql_results_readable Toy.lines (λ _, True) Toy.always sample_options (λ _, Toy.calm)
    sample_options_ok Hs (Toy.mkToy [txt "old"] None) SampleStack.session
    1 SampleStack.delivered 1 0) as (_ & _ & _ & cells & v & Hc & Hv & Hread & _).
  - reflexivity.
  - apply SampleStack.stack_session_ok.
  - vm_compute. reflexivity.
  - reflexivity.
  - vm_compute. split; [discriminate|reflexivity].
  - vm_compute. split; [discriminate|reflexivity].
  - vm_compute in Hc. injection Hc as <-. vm_compute in Hv. injection Hv as <-.
    apply (Hread 6). vm_compute. discriminate.
Defined.
