(* ===== verification/SdkSql.v ===== *)
(** SdkSql: the SQL half of the C++ layer that applications compile in
    ([src/include/ServerEngine/Cpp/Engine.h]), over the C interface of [SqlAbi]. A
    [shared_ptr] to a [SqlOwner] is the handle the owner holds: handles are never issued
    twice, so a handle names its owner. *)
From S2P Require Import Prelude.
From S2P Require Import Text.
From S2P Require Import NetTypes.
From S2P Require Import Abi.
From S2P Require SdkNetwork.
From S2P Require Import SqlTypes.
From S2P Require Import SqlService.
From S2P Require Import SqlAbi.

Abbreviation require := SdkNetwork.require.
(** [src/include/ServerEngine/Cpp/Engine.h:117-125] {SqlResult} Its fields. *)
Record SqlResult := mkSqlResult { metadata : se_sql_result; owner_ : option Z }.
Definition no_metadata : se_sql_result := mkSeResult 0 0 0 SE_OK 0 0 0 0 [].
(** [src/include/ServerEngine/Cpp/Engine.h:78-78] {SqlResult} *)
Definition empty_result : SqlResult := mkSqlResult no_metadata None.

(** The library, and the application's [Sql] and [SqlResult] objects by their places. *)
Record Sdk (D : Type) := mkSdk { engine : SqlRegistry D; sqls : gmap Z Z; results : gmap Z SqlResult }.
Arguments mkSdk {D}. Arguments engine {D}. Arguments sqls {D}. Arguments results {D}.

Section SdkSql.
Context `{Layout} {D : Type} `{Driver D}.
Context (open_driver : Options → result SqlError D) (looks : Z → Z → nat → Look).
Implicit Types s : Sdk D.

Definition with_engine r s : Sdk D := mkSdk r (sqls s) (results s).
Definition with_sqls m s : Sdk D := mkSdk (engine s) m (results s).
Definition with_results m s : Sdk D := mkSdk (engine s) (sqls s) m.
Definition set_result (k : Z) (x : SqlResult) s : Sdk D := with_results (<[k := x]> (results s)) s.

(** Whether any object still shares an owner. *)
Definition shared (h : Z) s : bool :=
  bool_decide (map_Exists (λ _ h', h' = h) (sqls s)) ||
  bool_decide (map_Exists (λ _ x, owner_ x = Some h) (results s)).
(** [src/include/ServerEngine/Cpp/Engine.h:71-71] {~SqlOwner} Run when the last share is
    given up. *)
Definition settle (h : Z) s : Sdk D :=
  if shared h s || (h =? 0) then s else with_engine (se_sql_destroy h (engine s)).2 s.

(** ** [SqlResult] *)
(** [src/include/ServerEngine/Cpp/Engine.h:89-94] *)
Definition reset (k : Z) s : Sdk D :=
  match results s !! k with
  | None => s
  | Some x =>
      match owner_ x with
      | None => set_result k empty_result s
      | Some h =>
          let s := if rs_request_id (metadata x) =? 0 then s
                   else with_engine (se_sql_release_result h (rs_request_id (metadata x)) (engine s)).2 s in
          settle h (set_result k empty_result s)
      end
  end.
(** [src/include/ServerEngine/Cpp/Engine.h:79-79] {~SqlResult} *)
Definition delete_result (k : Z) s : Sdk D := let s := reset k s in with_results (delete k (results s)) s.
(** [src/include/ServerEngine/Cpp/Engine.h:82-83] {SqlResult} *)
Definition move_result (k j : Z) s : Sdk D :=
  match results s !! j with
  | None => s
  | Some x => set_result k x (set_result j empty_result s)
  end.
(** [src/include/ServerEngine/Cpp/Engine.h:84-88] {operator=} *)
Definition assign_result (k j : Z) s : Sdk D := if k =? j then s else move_result k j (reset k s).
(** [src/include/ServerEngine/Cpp/Engine.h:120-124] *)
Definition ensure_result (x : SqlResult) : result bytes Z :=
  match owner_ x with
  | Some h =>
      if rs_request_id (metadata x) =? 0 then Err (txt "SQL result is empty or released")
      else if bool_decide (rs_status (metadata x) = SE_OK) then Ok h else Err (rs_message (metadata x))
  | None => Err (txt "SQL result is empty or released")
  end.
(** [src/include/ServerEngine/Cpp/Engine.h:95-103] *)
Definition integer_at (x : SqlResult) (row column : Z) s : result bytes Z :=
  let? h := ensure_result x in
  let '(status, e, (cell, _)) :=
    se_sql_get_cell h (rs_request_id (metadata x)) row column true false 0 (engine s) in
  let? _ := require status e in
  if ce_type cell =? SE_SQL_INT64 then Ok (ce_integer cell) else Err (txt "Expected SQL integer").
(** [src/include/ServerEngine/Cpp/Engine.h:104-116] The cell asked for its size, then read. *)
Definition text_at (x : SqlResult) (row column : Z) s : result bytes bytes :=
  let? h := ensure_result x in
  let i := rs_request_id (metadata x) in
  let '(status, e, (cell, _)) := se_sql_get_cell h i row column true false 0 (engine s) in
  let? _ := if bool_decide (status = SE_BUFFER_TOO_SMALL) then Ok tt else require status e in
  if negb (ce_type cell =? SE_SQL_TEXT) then Err (txt "Expected SQL text")
  else
    let size := ce_size cell in
    let value := replicate (Z.to_nat size) x00 in
    let '(status, e, (cell, data)) := se_sql_get_cell h i row column true true size (engine s) in
    let? _ := require status e in
    Ok (match data with Some d => d ++ drop (length d) value | None => value end).

(** ** [Sql] *)
(** [src/include/ServerEngine/Cpp/Engine.h:130-135] {Sql} The owner of a service that was
    not created holds no handle. *)
Definition new_sql (k : Z) (options : se_sql_options) s : result bytes unit * Sdk D :=
  let '(status, e, (h, r)) := se_sql_create open_driver (Some options) true (engine s) in
  match require status e with
  | Err text => (Err text, with_engine r s)
  | Ok _ => (Ok tt, with_sqls (<[k := h]> (sqls s)) (with_engine r s))
  end.
(** [src/include/ServerEngine/Cpp/Engine.h:163-165] {Sql} Its destruction gives up its share. *)
Definition delete_sql (k : Z) s : Sdk D :=
  match sqls s !! k with
  | None => s
  | Some h => settle h (with_sqls (delete k (sqls s)) s)
  end.
(** [src/include/ServerEngine/Cpp/Engine.h:138-144] {submit} *)
Definition submit_sql (h : Z) (statements : option (list se_sql_statement)) (count : Z) s : result bytes Z * Sdk D :=
  let '(status, e, (i, r)) := se_sql_submit h statements count true (engine s) in
  (match require status e with Ok _ => Ok i | Err text => Err text end, with_engine r s).
(** [src/include/ServerEngine/Cpp/Engine.h:145-150] {query} *)
Definition query_sql (h : Z) (sql : bytes) (parameters : option (list se_sql_parameter)) (count : Z) s
    : result bytes Z * Sdk D :=
  if 2 ^ 32 - 1 <? zlen sql then (Err (txt "SQL text exceeds ABI size"), s)
  else submit_sql h (Some [mkSeStatement (Some sql) (u32 (zlen sql)) count parameters]) 1 s.
(** [src/include/ServerEngine/Cpp/Engine.h:151-160] {poll} Into the result at [k]. *)
Definition poll_sql (h k : Z) s : result bytes se_status * Sdk D :=
  let s := reset k s in
  let '(status, e, (out, r)) :=
    se_sql_poll h (Some (rs_struct_size se_sql_result_init, rs_abi_version se_sql_result_init)) (engine s) in
  let x := mkSqlResult (default se_sql_result_init out) (if bool_decide (status = SE_OK) then Some h else None) in
  let s := set_result k x (with_engine r s) in
  (if bool_decide (status = SE_OK) then Ok status
   else if status_code status <? 0 then match require status e with Ok _ => Ok status | Err text => Err text end
   else Ok status, s).
(** [src/include/ServerEngine/Cpp/Engine.h:161-161] {stop} *)
Definition stop_sql (h : Z) s : result bytes unit * Sdk D :=
  let '(status, e, r) := se_sql_stop looks h (engine s) in (require status e, with_engine r s).

(** ** What an application does *)
(** Each operation names the objects it works on; a worker of the library may take a turn
    at any time. Objects are made in free places, and used only while they exist. *)
Inductive SdkCall :=
| NewSql (k : Z) (options : se_sql_options)
| DeleteSql (k : Z)
| SubmitSql (k : Z) (statements : list se_sql_statement)
| QuerySql (k : Z) (sql : bytes) (parameters : option (list se_sql_parameter)) (count : Z)
| PollSql (k j : Z)
| StopSql (k : Z)
| NewResult (k : Z)
| DeleteResult (k : Z)
| ResetResult (k : Z)
| MoveResult (k j : Z)
| AssignResult (k j : Z)
| WorkerTurn (h : Z).

Definition sdk_step s (c : SdkCall) : Sdk D :=
  match c with
  | NewSql k options => if bool_decide (is_Some (sqls s !! k)) then s else (new_sql k options s).2
  | DeleteSql k => delete_sql k s
  | SubmitSql k l => match sqls s !! k with Some h => (submit_sql h (Some l) (zlen l) s).2 | None => s end
  | QuerySql k sql parameters count =>
      match sqls s !! k with Some h => (query_sql h sql parameters count s).2 | None => s end
  | PollSql k j =>
      match sqls s !! k, results s !! j with Some h, Some _ => (poll_sql h j s).2 | _, _ => s end
  | StopSql k => match sqls s !! k with Some h => (stop_sql h s).2 | None => s end
  | NewResult k => if bool_decide (is_Some (results s !! k)) then s else set_result k empty_result s
  | DeleteResult k => delete_result k s
  | ResetResult k => reset k s
  | MoveResult k j => if bool_decide (is_Some (results s !! k)) then s else move_result k j s
  | AssignResult k j => if bool_decide (is_Some (results s !! k) ∧ is_Some (results s !! j)) then assign_result k j s else s
  | WorkerTurn h => with_engine (sql_step open_driver looks (engine s) (SqlTurn h)) s
  end.
Definition new_sdk : Sdk D := mkSdk empty_sql ∅ ∅.
Definition sdk_run (calls : list SdkCall) : Sdk D := runs sdk_step new_sdk calls.
End SdkSql.
