(* ===== verification/SdkSqlProperties.v ===== *)
(** SdkSqlProperties: the C++ layer gives back each result and each service once, and reads
    a result whole for as long as an object holds it. *)
From S2P Require Import Prelude.
From S2P Require Import Text.
From S2P Require Import NetTypes.
From S2P Require Import Abi.
From S2P Require Import SqlTypes.
From S2P Require Import SqlService.
From S2P Require Import SqlProperties.
From S2P Require Import SqlAbi.
From S2P Require Import SdkSql.

(** ** Requests by number *)
Lemma lookup_request_cons i r l : lookup_id i (r :: l) = if decide (id r = i) then Some r else lookup_id i l.
Proof. unfold lookup_id. rewrite filter_cons. by case_decide. Qed.
Lemma lookup_request_update i j f l : (∀ r, id r = j → id (f r) = j) →
  lookup_id i (update_id j f l) = if decide (i = j) then f <$> lookup_id j l else lookup_id i l.
Proof.
  intros Hf. induction l as [|r l IH]; [by case_decide|].
  unfold update_id in *. rewrite fmap_cons, !lookup_request_cons, IH. destruct (Z.eqb_spec (id r) j) as [E|E].
  - rewrite (Hf r E), E. repeat case_decide; simplify_eq; done.
  - repeat case_decide; simplify_eq; done.
Qed.
Lemma lookup_request_erase i j l : lookup_id i (erase_id j l) = if decide (i = j) then None else lookup_id i l.
Proof.
  induction l as [|r l IH]; [by case_decide|]. unfold erase_id in *. rewrite filter_cons, lookup_request_cons.
  repeat case_decide; rewrite ?lookup_request_cons, ?IH; repeat case_decide; simplify_eq; done.
Qed.
Lemma lookup_request_snoc i l r : lookup_id i (l ++ [r]) =
  match lookup_id i l with Some x => Some x | None => if decide (id r = i) then Some r else None end.
Proof.
  induction l as [|x l IH]; [apply lookup_request_cons|]. rewrite <- app_comm_cons, !lookup_request_cons, IH. by destruct (decide (id x = i)).
Qed.
Lemma ids_update j f l : (∀ r, id r = j → id (f r) = j) → ids (update_id j f l) = ids l.
Proof.
  intros Hf. unfold ids, update_id. rewrite <- list_fmap_compose. apply list_fmap_ext. intros _ r _. simpl.
  destruct (Z.eqb_spec (id r) j) as [E|E]; [by rewrite Hf|done].
Qed.
Lemma find_state_lookup st l r : NoDup (ids l) → find_state st l = Some r → lookup_id (id r) l = Some r ∧ state r = st.
Proof.
  unfold find_state. intros Hnd Hh. assert (r ∈ filter (λ r, state r = st) l) as Hf.
  { destruct (filter _ l); [done|]. injection Hh as ->. by left. }
  apply list_elem_of_filter in Hf as [Hst Hin]. split; [|done].
  apply list_elem_of_split in Hin as (l1 & l2 & ->). apply lookup_id_at. unfold ids in *.
  rewrite fmap_app, fmap_cons in Hnd. apply NoDup_app in Hnd as (_ & Hn & _). intros Hin. apply (Hn _ Hin). left.
Qed.
Lemma set_state_id st r : id (set_state st r) = id r.
Proof. done. Qed.

(** ** A service *)
Section Service.
Context `{Layout} {D : Type} `{DriverLaws D}.
Implicit Types sv : Service D.
Definition state_of sv (i : Z) : option RequestState := state <$> lookup_id i (requests_ sv).
Definition delivered sv (i : Z) : Prop := state_of sv i = Some Delivered.
Record service_ok sv : Prop := {
  so_nodup : NoDup (ids (requests_ sv));
  so_next : 0 < next_id_ sv < 2 ^ 64;
  so_ids i : i ∈ ids (requests_ sv) → 0 < i < next_id_ sv;
  so_worker i : worker_ sv = Holding i ∨ worker_ sv = Cleared i ∨ worker_ sv = Executed i → state_of sv i = Some Running;
}.
(** A step that delivers and releases nothing. *)
Definition undelivering sv sv' : Prop := service_ok sv' ∧ ∀ i, delivered sv' i ↔ delivered sv i.

Lemma undelivering_refl sv : service_ok sv → undelivering sv sv.
Proof. done. Qed.
Lemma undelivering_trans sv1 sv2 sv3 : undelivering sv1 sv2 → undelivering sv2 sv3 → undelivering sv1 sv3.
Proof. intros [_ Ha] [Hb Hc]. split; [done|]. intros i. by rewrite Hc, Ha. Qed.
(** Parts of the state that do not matter. *)
Lemma undelivering_ext sv sv' : requests_ sv' = requests_ sv → next_id_ sv' = next_id_ sv → worker_ sv' = worker_ sv →
  service_ok sv → undelivering sv sv'.
Proof.
  intros Hr Hn Hw [Ha Hb Hc Hd]. split; [split; unfold state_of in *; rewrite ?Hr, ?Hn, ?Hw; done|].
  intros i. unfold delivered, state_of. by rewrite Hr.
Qed.
Lemma state_of_id sv i st : state_of sv i = Some st → i ∈ ids (requests_ sv).
Proof.
  unfold state_of. destruct (lookup_id i _) as [r|] eqn:E; [|done]. apply lookup_id_Some in E as [<- Hin]. intros _.
  unfold ids. apply list_elem_of_fmap. eauto.
Qed.
(** One request rewritten, keeping its number. *)
Lemma state_of_update sv j f w i : (∀ r, id r = j → id (f r) = j) →
  state_of (with_worker w (with_requests (update_id j f (requests_ sv)) sv)) i =
  if decide (i = j) then state <$> (f <$> lookup_id j (requests_ sv)) else state_of sv i.
Proof. intros Hf. unfold state_of. cbn [with_worker with_requests requests_]. rewrite lookup_request_update by done. by case_decide. Qed.
Lemma update_ok sv j f w : service_ok sv → (∀ r, id r = j → id (f r) = j) →
  (∀ i, w = Holding i ∨ w = Cleared i ∨ w = Executed i → i = j ∧ ∃ r, lookup_id j (requests_ sv) = Some r ∧ state (f r) = Running) →
  (∀ r, lookup_id j (requests_ sv) = Some r → state r ≠ Delivered ∧ state (f r) ≠ Delivered) →
  undelivering sv (with_worker w (with_requests (update_id j f (requests_ sv)) sv)).
Proof.
  intros [Ha Hb Hc Hd] Hf Hw Hst. split.
  - split; cbn [with_worker with_requests requests_ next_id_ worker_]; rewrite ?ids_update by done; try done.
    intros i Hi. destruct (Hw i Hi) as [-> (r & Hr & Hrun)]. rewrite state_of_update, decide_True, Hr by done. simpl. by rewrite Hrun.
  - intros i. unfold delivered. rewrite state_of_update by done. case_decide; [subst|done].
    unfold state_of. destruct (lookup_id j _) as [r|] eqn:E; [|done]. destruct (Hst r eq_refl). simpl. split; congruence.
Qed.

Lemma new_service_ok o d : service_ok (new_service o d).
Proof. split; simpl; try lia; [constructor|by intros i Hi; apply elem_of_nil in Hi|by intros i [?|[?|?]]]. Qed.
Lemma request_stop_undelivering sv : service_ok sv → undelivering sv (request_stop sv).
Proof. by apply undelivering_ext. Qed.
Lemma copied_queued l n o r : copy_request l n o = Ok r → state r = Queued.
Proof. unfold copy_request, rbind, rguard. intros Hc. repeat case_match; simplify_eq; done. Qed.
Lemma submit_undelivering l n sv i sv' : service_ok sv → submit l n sv = (Ok i, sv') → undelivering sv sv'.
Proof.
  intros Hok. unfold submit. repeat (case_match; try done). intros [= <- <-]. bprop.
  pose proof (copied_queued _ _ _ _ ltac:(eassumption)) as Hq. destruct Hok as [Ha Hb Hc Hd].
  assert (u64 (next_id_ sv + 1) = next_id_ sv + 1) as Hu by (apply u64_small; unfold is_u64; lia).
  assert (∀ j, lookup_id j (requests_ sv ++ [set_id (next_id_ sv) a]) = match lookup_id j (requests_ sv) with
    | Some x => Some x | None => if decide (next_id_ sv = j) then Some (set_id (next_id_ sv) a) else None end) as Hl
    by (intros j; apply lookup_request_snoc).
  assert (ids (requests_ sv ++ [set_id (next_id_ sv) a]) = ids (requests_ sv) ++ [next_id_ sv]) as Hids by apply (fmap_app id).
  split.
  - split; cbn [requests_ next_id_ worker_]; rewrite ?Hids, ?Hu; [|lia|..].
    + apply NoDup_app. split; [done|]. split; [|apply NoDup_singleton]. intros j Hj ->%list_elem_of_singleton.
      apply Hc in Hj. lia.
    + intros j [Hj|Hj]%elem_of_app; [apply Hc in Hj; lia|]. apply list_elem_of_singleton in Hj as ->. lia.
    + intros j Hj. specialize (Hd j Hj). unfold state_of in *. cbn [requests_]. rewrite Hl.
      by destruct (lookup_id j (requests_ sv)).
  - intros j. unfold delivered, state_of. cbn [requests_]. rewrite Hl.
    destruct (lookup_id j _); [done|]. case_decide; [|done]. simpl. by rewrite Hq.
Qed.
(** A poll delivers at most one request, which was not delivered before. *)
Lemma poll_case sv : service_ok sv → let '(st, out, sv') := poll sv in service_ok sv' ∧
  match out with
  | Some x => st = SE_OK ∧ ¬ delivered sv (rs_request_id x) ∧ 0 < rs_request_id x ∧
      ∀ i, delivered sv' i ↔ i = rs_request_id x ∨ delivered sv i
  | None => 0 < status_code st ∧ ∀ i, delivered sv' i ↔ delivered sv i
  end.
Proof.
  intros Hok. unfold poll. destruct (find_state Complete _) as [r|] eqn:E; [|destruct (worker_finished_ sv); split_and!; simpl; done || lia].
  apply find_state_lookup in E as [Hl Hst]; [|apply Hok]. destruct Hok as [Ha Hb Hc Hd].
  assert (∀ i, state_of (with_requests (update_id (id r) (set_state Delivered) (requests_ sv)) sv) i =
    if decide (i = id r) then Some Delivered else state_of sv i) as Hs.
  { intros i. unfold state_of. cbn [with_requests requests_]. rewrite lookup_request_update by done. case_decide; [|done]. by rewrite Hl. }
  split; [|cbn [rs_request_id]; split_and!; [done|..]].
  - split; cbn [with_requests requests_ next_id_ worker_]; rewrite ?ids_update by done; try done.
    intros i Hi. rewrite Hs. case_decide as E; [|by apply Hd]. subst. specialize (Hd _ Hi). unfold state_of in Hd.
    rewrite Hl in Hd. simpl in Hd. congruence.
  - unfold delivered, state_of. rewrite Hl. simpl. congruence.
  - apply Hc. apply (state_of_id _ _ Complete). unfold state_of. rewrite Hl. simpl. congruence.
  - intros i. unfold delivered. rewrite Hs. case_decide; naive_solver.
Qed.
(** A release takes a delivered request away, and nothing else. *)
Lemma release_case i sv : service_ok sv → let '(res, sv') := release i sv in
  (res = Ok tt ↔ delivered sv i) ∧ (res = Ok tt → service_ok sv') ∧ (∀ j, res = Ok tt → delivered sv' j ↔ j ≠ i ∧ delivered sv j).
Proof.
  intros [Ha Hb Hc Hd]. unfold release, delivered, state_of. destruct (lookup_id i (requests_ sv)) as [r|] eqn:E; [|done].
  case_bool_decide as Hst; simpl; [|split_and!; [split; congruence|done|done]].
  split_and!; [split; [by rewrite Hst|done]| |].
  - intros _. assert (∀ j, j ∈ ids (erase_id i (requests_ sv)) → j ∈ ids (requests_ sv)) as Hsub.
    { intros j. unfold ids, erase_id. rewrite !list_elem_of_fmap. intros (x & -> & [_ Hx]%list_elem_of_filter). eauto. }
    split; cbn [requests_ next_id_ worker_]; [| done|auto|].
    + unfold ids, erase_id. eapply sublist_NoDup; [exact Ha|]. apply fmap_sublist, sublist_filter.
    + intros j Hj. specialize (Hd j Hj). unfold state_of in *. cbn [requests_]. rewrite lookup_request_erase.
      case_decide; [subst|done]. rewrite E in Hd. simpl in Hd. congruence.
  - intros j _. rewrite lookup_request_erase. case_decide; [subst; naive_solver|naive_solver].
Qed.
(** The worker's turns. *)
Context (looks : Z → nat → Look).
Lemma run_undelivering sv : service_ok sv → undelivering sv (run looks sv).
Proof.
  intros Hok. unfold run. destruct (worker_ sv) as [|i|i|i|] eqn:Hw; [| | | |by apply undelivering_refl].
  - unfold worker_take. destruct (find_state Queued _) as [r|] eqn:E.
    + apply find_state_lookup in E as [Hl Hst]; [|apply Hok]. apply update_ok; [done|done|..].
      * intros i [Hi|[Hi|Hi]]; [injection Hi as <-; split; [done|]; by exists r|done..].
      * intros r' Hr'. rewrite Hl in Hr'. injection Hr' as <-. simpl. rewrite Hst. done.
    + destruct (stopping_ sv); [|by apply undelivering_refl]. split; [|done]. destruct Hok as [Ha Hb Hc Hd]. split; try done.
      by intros i [?|[?|?]].
  - assert (state_of sv i = Some Running) as Hrun by (apply (so_worker _ Hok); auto). unfold worker_look.
    unfold state_of in Hrun. destruct (lookup_id i _) as [r|] eqn:E; [|done]. injection Hrun as Hrun.
    destruct (stopping_ sv).
    + apply update_ok; [done|done|..].
      * intros j [?|[?|Hj]]; [done..|]. injection Hj as <-. split; [done|]. by exists r.
      * intros r' Hr'. rewrite E in Hr'. injection Hr' as <-. simpl. by rewrite Hrun.
    + split; [|done]. pose proof Hok as [Ha Hb Hc Hd]. split; try done. intros j Hj. apply Hd. rewrite Hw.
      destruct Hj as [?|[Hj|?]]; [done| |done]. injection Hj as <-. auto.
  - assert (state_of sv i = Some Running) as Hrun by (apply (so_worker _ Hok); auto). unfold worker_execute.
    unfold state_of in Hrun. destruct (lookup_id i _) as [r|] eqn:E; [|done]. injection Hrun as Hrun.
    pose proof (lookup_id_Some _ _ _ E) as [Hid _].
    assert (∀ x d, id x = i → state x = Running → undelivering sv (with_worker (Executed i)
      (with_driver d (with_requests (update_id i (λ _, x) (requests_ sv)) sv)))) as Hx.
    { intros x d Hxi Hxs. eapply (undelivering_trans _ (with_worker (Executed i) (with_requests (update_id i (λ _, x) (requests_ sv)) sv))).
      - apply update_ok; [done|done|..].
        + intros j [?|[?|Hj]]; [done..|injection Hj as <-]. split; [done|]. by exists r.
        + intros r' Hr'. rewrite E in Hr'. injection Hr' as <-. rewrite Hrun, Hxs. done.
      - apply undelivering_ext; try done. apply update_ok; [done|done|..].
        + intros j [?|[?|Hj]]; [done..|injection Hj as <-]. split; [done|]. by exists r.
        + intros r' Hr'. rewrite E in Hr'. injection Hr' as <-. rewrite Hrun, Hxs. done. }
    pose proof (execute_owner (looks i) r (driver_ sv)) as Hlaw. cbn zeta in Hlaw.
    destruct (execute (looks i) r (driver_ sv)) as [x d]. simpl in Hlaw. destruct Hlaw as (Hxi & _ & _ & Hxs).
    apply Hx; congruence.
  - assert (state_of sv i = Some Running) as Hrun by (apply (so_worker _ Hok); auto). unfold worker_complete.
    unfold state_of in Hrun. apply update_ok; [done|done|by intros j [?|[?|?]]|].
    intros r Hr. rewrite Hr in Hrun. injection Hrun as Hrun. simpl. rewrite Hrun. done.
Qed.
Lemma join_undelivering fuel : ∀ sv sv', service_ok sv → join looks fuel sv = Some sv' → undelivering sv sv'.
Proof.
  induction fuel as [|fuel IH]; intros sv sv' Hok Hj; simpl in Hj; destruct (worker_ sv) eqn:Hw; try done;
    try (injection Hj as <-; by apply undelivering_ext).
  all: eapply undelivering_trans; [by apply run_undelivering|apply IH; [by apply run_undelivering|exact Hj]].
Qed.
Lemma stop_undelivering fuel sv : service_ok sv → undelivering sv (default (request_stop sv) (stop looks fuel sv)).
Proof.
  intros Hok. unfold stop. destruct (joinable_ sv) eqn:Ej; [|by apply request_stop_undelivering].
  assert (undelivering sv (interrupt_worker (request_stop sv))) as Hi.
  { unfold interrupt_worker. by case_match; apply undelivering_ext. }
  destruct (join looks fuel _) as [sv'|] eqn:E; [|by apply request_stop_undelivering].
  eapply undelivering_trans; [exact Hi|]. eapply join_undelivering; [apply Hi|exact E].
Qed.
End Service.

(** ** The application's objects *)
Section Sdk.
Context `{Layout} {D : Type} `{DriverLaws D}.
Context (open_driver : Options → result SqlError D) (looks : Z → Z → nat → Look).
Implicit Types s : Sdk D.
(** The result at [k] holds request [i] of the service [h]. *)
Definition holds (h i : Z) (x : SqlResult) : Prop := owner_ x = Some h ∧ rs_request_id (metadata x) = i.
Definition held s (k h i : Z) : Prop := ∃ x, results s !! k = Some x ∧ holds h i x.
Definition sharing s (h : Z) : Prop := (∃ k, sqls s !! k = Some h) ∨ ∃ k i, held s k h i.
Definition delivered_at (r : SqlRegistry D) (h i : Z) : Prop := ∃ sv, services r !! h = Some sv ∧ delivered sv i.
(** [x]: a service whose last share has just been given up. *)
Record owned (x : option Z) s : Prop := {
  ow_registry : sql_registry_ok (engine s);
  ow_services h sv : services (engine s) !! h = Some sv → service_ok sv;
  ow_live h : sharing s h → is_Some (services (engine s) !! h);
  ow_dead h : is_Some (services (engine s) !! h) → sharing s h ∨ x = Some h;
  ow_held h i : delivered_at (engine s) h i ↔ ∃ k, held s k h i;
  ow_once k1 k2 h i : held s k1 h i → held s k2 h i → k1 = k2;
}.

Lemma shared_sharing s h : shared h s = true ↔ sharing s h.
Proof.
  unfold shared, sharing, held, holds. rewrite orb_true_iff, !bool_decide_eq_true. unfold map_Exists. naive_solver.
Qed.
Lemma held_set s k x k' h i : held (set_result k x s) k' h i ↔ (k' = k ∧ holds h i x) ∨ (k' ≠ k ∧ held s k' h i).
Proof.
  unfold held. cbn [set_result with_results results]. destruct (decide (k' = k)) as [->|Hne].
  - rewrite lookup_insert_eq. naive_solver.
  - rewrite lookup_insert_ne by done. naive_solver.
Qed.
Lemma held_engine r s k h i : held (with_engine r s) k h i ↔ held s k h i.
Proof. done. Qed.
Lemma no_holds h i : ¬ holds h i empty_result.
Proof. by intros [? _]. Qed.
Lemma free_not_held s k h i : results s !! k = None → ¬ held s k h i.
Proof. intros Hk (x & Hx & _). congruence. Qed.

(** The invariant looks at the services, the shares and what is held. *)
Lemma owned_ext x s s' : engine s' = engine s → (∀ h, sharing s' h ↔ sharing s h) → (∀ h i, (∃ k, held s' k h i) ↔ ∃ k, held s k h i) →
  (∀ k1 k2 h i, held s' k1 h i → held s' k2 h i → k1 = k2) → owned x s → owned x s'.
Proof.
  intros He Hs Hh Ho [Ha Hb Hc Hd Hf Hg]. split; rewrite ?He; try done.
  - intros h Hsh. apply Hc. by apply Hs.
  - intros h Hsv. rewrite Hs. auto.
  - intros h i. rewrite Hh. apply Hf.
Qed.
Lemma put_registry_ok h sv sv' (r : SqlRegistry D) : services r !! h = Some sv → sql_registry_ok r → sql_registry_ok (SqlAbi.put h sv' r).
Proof. intros Hh Hr. eapply sql_change_ok; [exact Hr|]. by eapply sc_put. Qed.
Lemma put_live h sv sv' h' (r : SqlRegistry D) : services r !! h = Some sv →
  is_Some (services (SqlAbi.put h sv' r) !! h') ↔ is_Some (services r !! h').
Proof.
  intros Hh. cbn [SqlAbi.put services]. destruct (decide (h = h')) as [<-|]; [rewrite lookup_insert_eq, Hh|rewrite lookup_insert_ne by done];
    split; eauto.
Qed.
Lemma put_delivered h sv sv' h' i (r : SqlRegistry D) : services r !! h = Some sv →
  delivered_at (SqlAbi.put h sv' r) h' i ↔ if decide (h' = h) then delivered sv' i else delivered_at r h' i.
Proof.
  intros Hh. unfold delivered_at. cbn [SqlAbi.put services]. case_decide as E; [subst; rewrite lookup_insert_eq; naive_solver|].
  by rewrite lookup_insert_ne.
Qed.
Lemma delivered_live h sv i (r : SqlRegistry D) : services r !! h = Some sv → delivered_at r h i ↔ delivered sv i.
Proof. intros Hh. unfold delivered_at. rewrite Hh. naive_solver. Qed.
Lemma owned_put x s h sv sv' : owned x s → services (engine s) !! h = Some sv → undelivering sv sv' →
  owned x (with_engine (SqlAbi.put h sv' (engine s)) s).
Proof.
  intros [Ha Hb Hc Hd Hf Hg] Hh [Hok Hu]. split; cbn [with_engine engine]; try done.
  - by eapply put_registry_ok.
  - intros h' sv1. cbn [SqlAbi.put services]. rewrite lookup_insert_Some. naive_solver.
  - intros h' Hs. rewrite put_live by done. by apply Hc.
  - intros h'. rewrite put_live by done. apply Hd.
  - intros h' i. rewrite put_delivered by done. change (held (with_engine _ s)) with (held s). rewrite <- Hf.
    case_decide; [subst|done]. by rewrite (delivered_live _ _ _ _ Hh).
Qed.
Lemma settle_owned h s : owned (Some h) s → owned None (settle h s).
Proof.
  intros Ho. pose proof Ho as [Ha Hb Hc Hd Hf Hg]. unfold settle.
  assert (sharing s h ∨ services (engine s) !! h = None → owned None s) as Hkeep.
  { intros Hk. split; try done. intros h' Hs. left. destruct (Hd h' Hs) as [|E]; [done|]. injection E as <-.
    destruct Hk as [|Hn]; [done|]. rewrite Hn in Hs. by destruct Hs. }
  destruct (shared h s) eqn:Esh; [apply Hkeep; left; by apply shared_sharing|]. cbn [orb].
  assert (¬ sharing s h) as Hns by (rewrite <- shared_sharing; congruence).
  destruct (Z.eqb_spec h 0) as [->|Hz].
  { apply Hkeep. right. destruct (services (engine s) !! 0) as [sv|] eqn:E; [|done]. apply Ha in E. unfold first_sql in E. lia. }
  unfold se_sql_destroy, remove_service. destruct (services (engine s) !! h) as [sv|] eqn:E; [|specialize (Hkeep (or_intror eq_refl)); by destruct s].
  cbn [rbind boundary]. set (r' := mkSqlRegistry _ _). change (boundary _ _).2 with r'.
  assert (∀ h', services r' !! h' = if decide (h' = h) then None else services (engine s) !! h') as Hl.
  { intros h'. cbn [r' services]. case_decide; [subst; apply lookup_delete_eq|by apply lookup_delete_ne]. }
  split; cbn [with_engine engine]; try done.
  - eapply sql_change_ok; [exact Ha|]. apply sc_drop.
  - intros h' sv'. rewrite Hl. case_decide; [done|apply Hb].
  - intros h' Hs. rewrite Hl. case_decide; [by subst|by apply Hc].
  - intros h'. rewrite Hl. case_decide; [by intros []|]. intros Hs. destruct (Hd h' Hs); [by left|congruence].
  - intros h' i. change (held (with_engine _ s)) with (held s). rewrite <- Hf. unfold delivered_at. rewrite Hl. case_decide; [subst|done].
    split; [by intros (? & ? & _)|]. intros Hdl. destruct Hns. right. apply Hf in Hdl as (k & Hk). by exists k, i.
Qed.
Lemma held_settle h s : held (settle h s) = held s.
Proof. unfold settle. by case_match. Qed.
Lemma sqls_settle h s : sqls (settle h s) = sqls s.
Proof. unfold settle. by case_match. Qed.
(** Writing an empty result where nothing is held. *)
Lemma set_result_owned x k y s : (∀ h i, ¬ held s k h i) → owner_ y = None → owned x s → owned x (set_result k y s).
Proof.
  intros Hk Hy Ho. assert (∀ k' h i, held (set_result k y s) k' h i ↔ held s k' h i) as Hh.
  { intros k' h i. rewrite held_set. unfold holds at 1. rewrite Hy. destruct (decide (k' = k)) as [->|]; naive_solver. }
  apply (owned_ext _ s); [done|..|done].
  - intros h. unfold sharing. setoid_rewrite Hh. done.
  - intros h i. by setoid_rewrite Hh.
  - intros k1 k2 h i. rewrite !Hh. apply (ow_once _ _ Ho).
Qed.
Lemma reset_case k s : owned None s → owned None (reset k s) ∧ sqls (reset k s) = sqls s ∧
  ∀ k' h i, held (reset k s) k' h i ↔ k' ≠ k ∧ held s k' h i.
Proof.
  intros Ho. unfold reset. destruct (results s !! k) as [x|] eqn:Ek.
  2: { split; [done|]. split; [done|]. intros k' h i. destruct (decide (k' = k)) as [->|]; [|naive_solver].
       pose proof (free_not_held s k h i Ek). naive_solver. }
  destruct (owner_ x) as [h|] eqn:Ex.
  2: { assert (∀ h i, ¬ held s k h i) as Hk by (intros h i (y & Hy & Hh & _); congruence).
       split; [by apply set_result_owned|]. split; [done|]. intros k' h i. rewrite held_set.
       split; [intros [[_ Hn]|?]; [by destruct (no_holds h i)|done]|auto]. }
  set (i := rs_request_id (metadata x)). assert (held s k h i) as Hk by (by exists x).
  pose proof Ho as [Ha Hb Hc Hd Hf Hg]. assert (delivered_at (engine s) h i) as (sv & Hsv & Hdl) by (apply Hf; eauto).
  assert (0 < i) as Hi by by eapply (so_ids _ (Hb _ _ Hsv)), state_of_id.
  assert ((i =? 0) = false) as -> by (apply Z.eqb_neq; lia).
  unfold se_sql_release_result, find_service. rewrite Hsv. cbn [rbind].
  pose proof (release_case i sv (Hb _ _ Hsv)) as Hrel. destruct (release i sv) as [res sv'].
  destruct Hrel as (Hok & Hrok & Hrd). apply Hok in Hdl as ->. specialize (Hrok eq_refl). specialize (λ j, Hrd j eq_refl) as Hrd'.
  cbn [boundary snd]. set (s1 := set_result k empty_result _). rewrite sqls_settle, held_settle.
  assert (∀ k' h' i', held s1 k' h' i' ↔ k' ≠ k ∧ held s k' h' i') as Hh.
  { intros k' h' i'. unfold s1. rewrite held_set. split; [intros [[_ Hn]|?]; [by destruct (no_holds h' i')|done]|auto]. }
  split; [apply settle_owned|done]. assert (engine s1 = SqlAbi.put h sv' (engine s)) as He by done.
  assert (sqls s1 = sqls s) as Hsq by done. clearbody s1. split; rewrite ?He.
  - by eapply put_registry_ok.
  - intros h' sv1. cbn [SqlAbi.put services]. rewrite lookup_insert_Some. naive_solver.
  - intros h' Hs. rewrite put_live by done. apply Hc. unfold sharing in *. rewrite Hsq in Hs.
    destruct Hs as [?|(k' & i' & Hs)]; [by left|]. apply Hh in Hs as [_ Hs].
    right. eauto.
  - intros h'. rewrite put_live by done. intros Hl. unfold sharing. rewrite Hsq.
    destruct (Hd h' Hl) as [[?|(k' & i' & Hs)]|?]; [by left; left| |done].
    destruct (decide (k' = k)) as [->|Hne]; [|left; right; exists k', i'; by apply Hh].
    right. destruct Hs as (y & Hy & Hh' & _). rewrite Ek in Hy. injection Hy as <-. congruence.
  - intros h' i'. rewrite put_delivered by done. setoid_rewrite Hh. case_decide as E.
    + subst h'. rewrite Hrd', <- (delivered_live _ _ _ _ Hsv), Hf. split.
      * intros [Hne (k' & Hk')]. exists k'. split; [|done]. intros ->. destruct Hk' as (y & Hy & _ & Hi').
        rewrite Ek in Hy. by injection Hy as <-.
      * intros (k' & Hne & Hk'). split; [|eauto]. intros ->. by apply Hne, (Hg k' k h i).
    + rewrite Hf. split; [|naive_solver]. intros (k' & Hk'). exists k'. split; [|done]. intros ->.
      destruct Hk' as (y & Hy & Hh' & _). rewrite Ek in Hy. injection Hy as <-. congruence.
  - intros k1 k2 h' i'. rewrite !Hh. intros [_ ?] [_ ?]. by apply (Hg k1 k2 h' i').
Qed.
Lemma delete_result_owned k s : owned None s → owned None (delete_result k s).
Proof.
  intros Ho. destruct (reset_case k s Ho) as (Hr & _ & Hh). unfold delete_result. set (s1 := reset k s) in *.
  assert (∀ k' h i, held (with_results (delete k (results s1)) s1) k' h i ↔ held s1 k' h i) as Hd.
  { intros k' h i. rewrite Hh. unfold held at 1. cbn [with_results results]. destruct (decide (k' = k)) as [->|Hne].
    - rewrite lookup_delete_eq. naive_solver.
    - rewrite lookup_delete_ne by done. fold (held s1 k' h i). rewrite Hh. naive_solver. }
  apply (owned_ext _ s1); [done|..|done].
  - intros h. unfold sharing. by setoid_rewrite Hd.
  - intros h i. by setoid_rewrite Hd.
  - intros k1 k2 h i. rewrite !Hd. apply (ow_once _ _ Hr).
Qed.
Lemma move_owned x k j s : (∀ h i, ¬ held s k h i) → k ≠ j → owned x s → owned x (move_result k j s).
Proof.
  intros Hk Hne Ho. unfold move_result. destruct (results s !! j) as [y|] eqn:Ej; [|done].
  assert (∀ k' h i, held (set_result k y (set_result j empty_result s)) k' h i ↔
    (k' = k ∧ held s j h i) ∨ (k' ≠ k ∧ k' ≠ j ∧ held s k' h i)) as Hh.
  { intros k' h i. rewrite !held_set. pose proof (no_holds h i). assert (holds h i y ↔ held s j h i) as ->.
    { unfold held. rewrite Ej. naive_solver. } naive_solver. }
  assert (∀ h i, (∃ k', held (set_result k y (set_result j empty_result s)) k' h i) ↔ ∃ k', held s k' h i) as He.
  { intros h i. setoid_rewrite Hh. split; [intros (k' & [[_ ?]|(_ & _ & ?)]); eauto|]. intros (k' & Hs).
    destruct (decide (k' = j)) as [->|]; [exists k; auto|]. exists k'. right. split; [|done]. intros ->. by apply (Hk h i). }
  apply (owned_ext _ s); [done|..|done].
  - intros h. unfold sharing. cbn [set_result with_results sqls]. naive_solver.
  - done.
  - intros k1 k2 h i. rewrite !Hh. pose proof (ow_once _ _ Ho). naive_solver.
Qed.
Lemma assign_owned k j s : owned None s → owned None (assign_result k j s).
Proof.
  intros Ho. unfold assign_result. destruct (Z.eqb_spec k j) as [|Hne]; [done|]. destruct (reset_case k s Ho) as (Hr & _ & Hh).
  apply move_owned; [|done..]. intros h i. rewrite Hh. naive_solver.
Qed.
Lemma delete_sql_owned k s : owned None s → owned None (delete_sql k s).
Proof.
  intros Ho. unfold delete_sql. destruct (sqls s !! k) as [h|] eqn:Ek; [|done]. apply settle_owned.
  pose proof Ho as [Ha Hb Hc Hd Hf Hg]. split; try done.
  - intros h' [(k' & Hk')|Hs]; apply Hc; [left|by right]. exists k'. cbn [with_sqls sqls] in Hk'. by apply lookup_delete_Some in Hk' as [_ ?].
  - intros h' Hs. destruct (Hd h' Hs) as [[(k' & Hk')|?]|?]; [|left; by right|done].
    destruct (decide (k' = k)) as [->|]; [right; congruence|left; left; exists k'; cbn [with_sqls sqls]; by apply lookup_delete_Some].
Qed.
Lemma decode_error o e : decode_options o = Err e → e.1 ≠ SE_OK.
Proof. unfold decode_options, rbind, rguard. intros Hd. repeat case_match; simplify_eq; done. Qed.
(** Opening a database reports a failure as one. *)
Hypothesis opening_fails : ∀ o e, open_driver o = Err e → e.1 ≠ SE_OK.
Lemma create_case o r : let '(status, e, (h, r')) := se_sql_create open_driver (Some o) true r in
  (status ≠ SE_OK ∧ r' = r) ∨ (status = SE_OK ∧ h = next_sql r ∧ next_sql r ≠ last_sql ∧
    ∃ p d, r' = mkSqlRegistry (u64 (next_sql r + 1)) (<[next_sql r := new_service p d]> (services r))).
Proof.
  unfold se_sql_create, register_service. cbn [rguard rbind]. destruct (decode_options o) as [p|e] eqn:Ed; cbn [rbind].
  2: { left. split; [|done]. simpl. by eapply decode_error. }
  destruct (open_driver p) as [d|e] eqn:Eo; cbn [rbind]; [|left; split; [|done]; simpl; by eapply opening_fails].
  destruct (Z.eqb_spec (next_sql r) last_sql); simpl; [by left|]. right. split_and!; eauto.
Qed.
Lemma require_status status e : require status e = Ok tt ↔ status = SE_OK.
Proof. unfold SdkNetwork.require. by case_bool_decide. Qed.
(** A handle just issued names nothing yet. *)
Lemma new_sql_owned k options s : sqls s !! k = None → owned None s → owned None (new_sql open_driver k options s).2.
Proof.
  intros Hk Ho. unfold new_sql. pose proof (create_case options (engine s)) as Hc0.
  destruct (se_sql_create _ _ _ _) as [[status e] [h0 r0]]. destruct Hc0 as [[Hst ->]|(-> & -> & En & o & d & ->)].
  { destruct (require status e) as [[]|] eqn:Er; [by apply require_status in Er|]. by destruct s. }
  rewrite (proj2 (require_status SE_OK e)) by done. cbn [snd].
  pose proof Ho as [Ha Hb Hc Hd Hf Hg]. set (n := next_sql (engine s)) in *. set (sv := new_service o d).
  assert (services (engine s) !! n = None) as Hn.
  { destruct (services (engine s) !! n) eqn:E; [|done]. apply Ha in E. unfold n in E. lia. }
  set (s' := with_sqls _ _). set (r' := mkSqlRegistry _ _) in s'. assert (engine s' = r') as He by done.
  assert (∀ h i, delivered_at r' h i ↔ delivered_at (engine s) h i) as Hdl.
  { intros h i. unfold delivered_at. cbn [r' services]. destruct (decide (h = n)) as [->|]; [|by rewrite lookup_insert_ne].
    rewrite lookup_insert_eq, Hn. split; [|by intros (? & ? & _)]. by intros (? & [= <-] & ?). }
  split; rewrite ?He.
  - eapply sql_change_ok; [exact Ha|]. by apply sc_add.
  - intros h sv'. cbn [r' services]. rewrite lookup_insert_Some. intros [[_ <-]|[_ ?]]; [apply new_service_ok|eauto].
  - intros h Hsh. cbn [r' services]. destruct (decide (h = n)) as [->|Hne]; [rewrite lookup_insert_eq; eauto|].
    rewrite lookup_insert_ne by done. apply Hc. destruct Hsh as [(k' & Hk')|?]; [left|by right]. cbn in Hk'.
    apply lookup_insert_Some in Hk' as [[_ ?]|[_ ?]]; [congruence|eauto].
  - intros h. cbn [r' services]. destruct (decide (h = n)) as [->|Hne].
    + intros _. left. left. exists k. cbn. apply lookup_insert_eq.
    + rewrite lookup_insert_ne by done. intros Hsv. destruct (Hd h Hsv) as [[(k' & Hk')|?]|?]; [|left; by right|done].
      left. left. exists k'. cbn. rewrite lookup_insert_ne; [done|congruence].
  - intros h i. rewrite Hdl. apply Hf.
  - apply Hg.
Qed.
Lemma submit_sql_owned h l n s : owned None s → owned None (submit_sql h l n s).2.
Proof.
  intros Ho. assert (with_engine (engine s) s = s) as Hs by by destruct s. unfold submit_sql, se_sql_submit, find_service.
  cbn [rguard]. destruct (services (engine s) !! h) as [sv|] eqn:E; simpl; [|by rewrite Hs].
  destruct (submit l n sv) as [[i|e] sv'] eqn:Es; simpl; [|by rewrite Hs].
  eapply owned_put; [done|exact E|]. eapply submit_undelivering; [by eapply ow_services|exact Es].
Qed.
Lemma stop_sql_owned h s : owned None s → owned None (stop_sql looks h s).2.
Proof.
  intros Ho. assert (with_engine (engine s) s = s) as Hs by by destruct s. unfold stop_sql, se_sql_stop, find_service.
  destruct (services (engine s) !! h) as [sv|] eqn:E; simpl; [|by rewrite Hs].
  eapply owned_put; [done|exact E|]. unfold stop_service. apply stop_undelivering. by eapply ow_services.
Qed.
Lemma turn_owned h s : owned None s → owned None (with_engine (sql_step open_driver looks (engine s) (SqlTurn h)) s).
Proof.
  intros Ho. assert (with_engine (engine s) s = s) as Hs by by destruct s. unfold sql_step. simpl. unfold find_service.
  destruct (services (engine s) !! h) as [sv|] eqn:E; simpl; [|by rewrite Hs].
  eapply owned_put; [done|exact E|]. apply run_undelivering. by eapply ow_services.
Qed.
(** Writing a result where nothing was held; it may take up one request. *)
Lemma poll_sql_owned h k s : sharing (reset k s) h → owned None s → owned None (poll_sql h k s).2.
Proof.
  intros Hsh Ho. destruct (reset_case k s Ho) as (Hr & _ & Hh). unfold poll_sql. set (s1 := reset k s) in *. clearbody s1.
  assert (∀ h' i', ¬ held s1 k h' i') as Hfree by (intros h' i'; rewrite Hh; naive_solver). clear Hh Ho.
  destruct (ow_live _ _ Hr h Hsh) as [sv Hsv]. pose proof (ow_services _ _ Hr _ _ Hsv) as Hok.
  unfold se_sql_poll, find_service. rewrite bool_decide_eq_true_2 by done. cbn [rguard rbind]. rewrite Hsv. cbn [rbind].
  pose proof (poll_case sv Hok) as Hp. destruct (poll sv) as [[st out] sv']. destruct Hp as [Hok' Hp]. cbn [boundary snd].
  destruct out as [x|].
  2: { destruct Hp as [Hst Hd]. rewrite bool_decide_eq_false_2 by (intros ->; simpl in Hst; lia).
       apply set_result_owned; [done|done|]. by eapply owned_put. }
  destruct Hp as (-> & Hnd & Hpos & Hd). cbn [default]. set (s2 := set_result k _ _). pose proof Hr as [Ha Hb Hc Hl Hf Hg].
  assert (engine s2 = SqlAbi.put h sv' (engine s1)) as He by done. assert (sqls s2 = sqls s1) as Hsq by done.
  assert (∀ k' h' i', held s2 k' h' i' ↔ (k' = k ∧ h' = h ∧ i' = rs_request_id x) ∨ held s1 k' h' i') as Hh2.
  { intros k' h' i'. unfold s2. rewrite held_set. unfold holds at 1. cbn [owner_ metadata].
    rewrite bool_decide_eq_true_2 by done. rewrite held_engine. pose proof (Hfree h' i').
    destruct (decide (k' = k)) as [->|]; naive_solver. }
  assert (∀ k', ¬ held s1 k' h (rs_request_id x)) as Hnew.
  { intros k' Hk'. apply Hnd. rewrite <- (delivered_live _ _ _ _ Hsv). apply Hf. eauto. }
  clearbody s2. split; rewrite ?He.
  - by eapply put_registry_ok.
  - intros h' sv1. cbn [SqlAbi.put services]. rewrite lookup_insert_Some. naive_solver.
  - intros h' Hs. rewrite put_live by done. unfold sharing in Hs. rewrite Hsq in Hs. destruct Hs as [?|(k' & i' & Hs)].
    + apply Hc. by left.
    + apply Hh2 in Hs as [(_ & -> & _)|?]; [eauto|]. apply Hc. right. eauto.
  - intros h'. rewrite put_live by done. intros Hs. left. destruct (Hl h' Hs) as [[?|(k' & i' & ?)]|?]; [|right; exists k', i'; apply Hh2; auto|done].
    left. by rewrite Hsq.
  - intros h' i'. rewrite put_delivered by done. setoid_rewrite Hh2. case_decide as E; [subst h'|].
    + rewrite Hd, <- (delivered_live _ _ _ _ Hsv), Hf. naive_solver.
    + rewrite Hf. naive_solver.
  - intros k1 k2 h' i'. rewrite !Hh2. naive_solver.
Qed.
Lemma reset_sharing k h s : owned None s → (∃ j, sqls s !! j = Some h) → sharing (reset k s) h.
Proof. intros Ho. destruct (reset_case k s Ho) as (_ & Hs & _). intros Hj. left. by rewrite Hs. Qed.
Lemma step_owned s c : owned None s → owned None (sdk_step open_driver looks s c).
Proof.
  intros Ho. destruct c as [k o|k|k l|k text ps n|k j|k|k|k|k|k j|k j|h]; cbn [sdk_step].
  - case_bool_decide as Hk; [done|]. apply new_sql_owned; [|done]. by apply eq_None_not_Some.
  - by apply delete_sql_owned.
  - destruct (sqls s !! k) as [h|]; [by apply submit_sql_owned|done].
  - destruct (sqls s !! k) as [h|]; [|done]. unfold query_sql. case_match; [done|by apply submit_sql_owned].
  - destruct (sqls s !! k) as [h|] eqn:Ek; [|done]. destruct (results s !! j); [|done].
    apply poll_sql_owned; [|done]. apply reset_sharing; eauto.
  - destruct (sqls s !! k) as [h|]; [by apply stop_sql_owned|done].
  - case_bool_decide as Hk; [done|]. apply set_result_owned; [|done..]. intros h i. apply free_not_held. by apply eq_None_not_Some.
  - by apply delete_result_owned.
  - by apply reset_case.
  - case_bool_decide as Hk; [done|]. destruct (decide (k = j)) as [->|Hne].
    + unfold move_result. by rewrite (proj2 (eq_None_not_Some _) Hk).
    + apply move_owned; [|done..]. intros h i. apply free_not_held. by apply eq_None_not_Some.
  - case_bool_decide; [by apply assign_owned|done].
  - by apply turn_owned.
Qed.
Lemma run_owned calls : owned None (sdk_run open_driver looks calls).
Proof.
  unfold sdk_run. apply (runs_invariant _ (owned None)); [intros; by apply step_owned|]. split; cbn.
  - split; [by vm_compute|]. intros k sv. simpl. by rewrite lookup_empty.
  - intros h sv. by rewrite lookup_empty.
  - intros h [(k & Hk)|(k & i & x & Hx & _)]; cbn in *; by rewrite lookup_empty in *.
  - intros h [sv Hsv]. by rewrite lookup_empty in Hsv.
  - intros h i. split; [intros (sv & Hsv & _)|intros (k & x & Hx & _)]; cbn in *; by rewrite lookup_empty in *.
  - intros k1 k2 h i (x & Hx & _). cbn in *. by rewrite lookup_empty in Hx.
Qed.
(** C29: However an application makes, moves, resets and drops its objects, and
    whenever the library's workers run: a result an object holds is there to be read, for
    the service is alive and the request delivered and not released; a delivered request
    is held by exactly one object, so none is released twice and none is left reserved;
    and a service lives exactly as long as an object shares it, so that when the objects
    are gone nothing is left of the library's state. *)
Theorem sdk_results_owned calls :
  let s := sdk_run open_driver looks calls in
  (∀ k x h, results s !! k = Some x → owner_ x = Some h → ∃ sv, services (engine s) !! h = Some sv ∧
    ∃ r, lookup_id (rs_request_id (metadata x)) (requests_ sv) = Some r ∧ state r = Delivered) ∧
  (∀ h sv r, services (engine s) !! h = Some sv → r ∈ requests_ sv → state r = Delivered →
    ∃ k, held s k h (id r) ∧ ∀ k', held s k' h (id r) → k' = k) ∧
  (∀ h, is_Some (services (engine s) !! h) ↔ shared h s = true) ∧
  (sqls s = ∅ → results s = ∅ → services (engine s) = ∅).
Proof.
  intros s. pose proof (run_owned calls) as Ho. fold s in Ho. destruct Ho as [Ha Hb Hc Hd Hf Hg].
  assert (∀ h, is_Some (services (engine s) !! h) ↔ shared h s = true) as Hlive.
  { intros h. rewrite shared_sharing. split; [|apply Hc]. by intros [|]%Hd. }
  split_and!.
  - intros k x h Hx Hh. assert (delivered_at (engine s) h (rs_request_id (metadata x))) as (sv & Hsv & Hdl).
    { apply Hf. exists k, x. done. }
    exists sv. split; [done|]. unfold delivered, state_of in Hdl. apply fmap_Some in Hdl as (r & Hr & Hs). eauto.
  - intros h sv r Hsv Hin Hst. destruct (Hb h sv Hsv) as [Hnd _ _ _].
    assert (delivered_at (engine s) h (id r)) as (k & Hk)%Hf.
    { exists sv. split; [done|]. unfold delivered, state_of. apply list_elem_of_split in Hin as (l1 & l2 & E). rewrite E in *.
      rewrite lookup_id_at; [simpl; congruence|]. unfold ids in *. rewrite fmap_app, fmap_cons in Hnd.
      apply NoDup_app in Hnd as (_ & Hn & _). intros Hi. apply (Hn _ Hi). left. }
    exists k. split; [done|]. intros k' Hk'. by apply (Hg k' k h (id r)).
  - done.
  - intros Hsq Hre. apply map_empty. intros h. apply eq_None_not_Some. rewrite Hlive, shared_sharing. unfold sharing, held.
    rewrite Hsq, Hre. setoid_rewrite lookup_empty. naive_solver.
Qed.

Lemma get_cell_delivered (r : SqlRegistry D) h sv i x row column data capacity cells v :
  services r !! h = Some sv → lookup_id i (requests_ sv) = Some x → state x = Delivered → rows (outcome x) !! Z.to_nat row = Some cells →
  column < zlen (columns (outcome x)) → cells !! Z.to_nat column = Some v → zlen (value_bytes v) < 2 ^ 32 → (capacity = 0 ∨ data = true) →
  se_sql_get_cell h i row column true data capacity r =
  (if capacity <? zlen (value_bytes v) then SE_BUFFER_TOO_SMALL else SE_OK, no_error,
   (mkSeCell (type v) (zlen (value_bytes v)) (integer v) (real v), if capacity <? zlen (value_bytes v) then None else Some (value_bytes v))).
Proof.
  intros Hs Hl Hd Hr Hc Hv Hz Hcap. unfold se_sql_get_cell, find_service. rewrite Hs.
  assert ((capacity =? 0) || data = true) as Hg by (destruct Hcap as [-> | ->]; [done|apply orb_true_r]).
  rewrite Hg. cbn [andb rguard rbind]. unfold read_result. rewrite Hl, bool_decide_eq_true_2 by done.
  unfold read_cell. rewrite Hr, (proj2 (Z.leb_gt _ _)) by lia. rewrite Hv.
  rewrite (u32_small (zlen (value_bytes v))) by (pose proof (zlen_nonneg (value_bytes v)); unfold is_u32; lia).
  by destruct (_ <? _).
Qed.
(** What an object holds is read whole: for a successful result that the application
    holds, the text of a cell is all of the cell's bytes, whatever their number, an
    integer is the cell's, and asking a cell of another type for its text is refused; the
    call that asks for the size first never stands in the way. *)
Theorem sdk_reads_whole calls k x h :
  let s := sdk_run open_driver looks calls in
  results s !! k = Some x → owner_ x = Some h → rs_status (metadata x) = SE_OK →
  ∃ sv r, services (engine s) !! h = Some sv ∧ lookup_id (rs_request_id (metadata x)) (requests_ sv) = Some r ∧
  ∀ row column cells v, rows (outcome r) !! Z.to_nat row = Some cells → column < zlen (columns (outcome r)) →
    cells !! Z.to_nat column = Some v → zlen (value_bytes v) < 2 ^ 32 →
    text_at x row column s = (if type v =? SE_SQL_TEXT then Ok (value_bytes v) else Err (txt "Expected SQL text")) ∧
    (type v = SE_SQL_INT64 → value_bytes v = [] → integer_at x row column s = Ok (integer v)).
Proof.
  intros s Hx Hh Hst. pose proof (run_owned calls) as Ho. fold s in Ho. destruct Ho as [Ha Hb Hc Hd Hf Hg].
  set (i := rs_request_id (metadata x)) in *. assert (delivered_at (engine s) h i) as (sv & Hsv & Hdl) by (apply Hf; by exists k, x).
  assert (0 < i) as Hi by by eapply (so_ids _ (Hb _ _ Hsv)), state_of_id.
  unfold delivered, state_of in Hdl. apply fmap_Some in Hdl as (r & Hr & Hs). exists sv, r. split_and!; [done..|].
  intros row column cells v Hrow Hcol Hv Hz. symmetry in Hs. pose proof (zlen_nonneg (value_bytes v)) as Hnn.
  pose proof (λ data capacity, get_cell_delivered (engine s) h sv i r row column data capacity cells v Hsv Hr Hs Hrow Hcol Hv Hz) as Hget.
  assert (ensure_result x = Ok h) as He.
  { unfold ensure_result. rewrite Hh, bool_decide_eq_true_2 by done. fold i. by rewrite (proj2 (Z.eqb_neq _ _)) by lia. }
  unfold text_at, integer_at. rewrite He. cbn [rbind]. fold i. rewrite (Hget false 0) by auto. cbn [ce_type ce_size]. split.
  - assert ((if bool_decide ((if 0 <? zlen (value_bytes v) then SE_BUFFER_TOO_SMALL else SE_OK) = SE_BUFFER_TOO_SMALL) then Ok tt
      else require (if 0 <? zlen (value_bytes v) then SE_BUFFER_TOO_SMALL else SE_OK) no_error) = Ok tt) as ->.
    { by destruct (0 <? zlen (value_bytes v)). }
    cbn [rbind]. destruct (type v =? SE_SQL_TEXT); cbn [negb]; [|done]. rewrite Hget by auto. rewrite Z.ltb_irrefl. cbn [rbind].
    rewrite (proj2 (require_status SE_OK no_error)) by done. cbn [rbind]. rewrite drop_ge, app_nil_r; [done|].
    rewrite length_replicate. unfold zlen. lia.
  - intros Ht Hn. rewrite Hn, Ht. cbn [zlen length]. rewrite (proj2 (Z.ltb_ge 0 (zlen []))) by (rewrite zlen_nil; lia).
    rewrite (proj2 (require_status SE_OK no_error)) by done. done.
Qed.
End Sdk.

(** ** At work *)
Module Rows.
(** A driver whose every request yields one row: a number and a text. *)
Definition answer : Result :=
  mkResult SE_OK [] 0 0 [txt "id"; txt "name"]
    [[mkValue SE_SQL_INT64 7 0 []; mkValue SE_SQL_TEXT 0 0 (txt "ann")]].
#[export] Program Instance driver : Driver unit := {| execute _ r n := (set_outcome answer r, n); interrupt n := n |}.
#[export] Instance laws : DriverLaws unit.
Proof. by split. Qed.
Definition open_driver (o : Options) : result SqlError unit := Ok tt.
Lemma opening_fails : ∀ o e, open_driver o = Err e → e.1 ≠ SE_OK.
Proof. done. Qed.
Definition looks : Z → Z → nat → Look := λ _ _ _, mkLook false false.
Definition h : Z := 5980780305148018689.
(** A result polled, moved, and kept when its [Sql] is gone. *)
Definition use : list SdkCall :=
  [NewSql 1 SampleAbi.options; NewResult 5; QuerySql 1 (txt "SELECT id, name FROM players") None 0;
   WorkerTurn h; WorkerTurn h; WorkerTurn h; WorkerTurn h; PollSql 1 5; MoveResult 6 5; DeleteResult 5; DeleteSql 1].
Definition all : list SdkCall := use ++ [DeleteResult 6].
End Rows.
Import Rows.
Lemma sdk_results_owned_witness :
  size (services (engine (sdk_run Rows.open_driver Rows.looks Rows.use))) = 1%nat ∧
  services (engine (sdk_run Rows.open_driver Rows.looks Rows.all)) = ∅.
Proof.
  split; [vm_compute; reflexivity|].
  refine (proj2 (proj2 (proj2 (sdk_results_owned Rows.open_driver Rows.looks Rows.opening_fails Rows.all))) _ _); vm_compute; reflexivity.
Defined.
Lemma sdk_reads_whole_witness : ∃ x, results (sdk_run Rows.open_driver Rows.looks Rows.use) !! 6 = Some x ∧
  text_at x 0 1 (sdk_run Rows.open_driver Rows.looks Rows.use) = Ok (txt "ann").
Proof.
  set (s := sdk_run Rows.open_driver Rows.looks Rows.use).
  assert ((λ x, (owner_ x, rs_status (metadata x), rs_request_id (metadata x))) <$> results s !! 6 = Some (Some Rows.h, SE_OK, 1)) as Hx
    by (vm_compute; reflexivity).
  apply fmap_Some in Hx as (x & Hx & Ex). injection Ex as Eo Es Ei. exists x. split; [exact Hx|].
  destruct (sdk_reads_whole Rows.open_driver Rows.looks Rows.opening_fails Rows.use 6 x Rows.h Hx (eq_sym Eo) (eq_sym Es))
    as (sv & r & Hsv & Hr & Hread). fold s in Hsv, Hread.
  assert ((λ sv, outcome <$> lookup_id 1 (requests_ sv)) <$> services (engine s) !! Rows.h = Some (Some Rows.answer)) as Ha
    by (vm_compute; reflexivity).
  rewrite Hsv in Ha. cbn [fmap option_fmap option_map] in Ha. rewrite <- Ei in Hr. rewrite Hr in Ha. injection Ha as Ha.
  destruct (Hread 0 1 [mkValue SE_SQL_INT64 7 0 []; mkValue SE_SQL_TEXT 0 0 (txt "ann")] (mkValue SE_SQL_TEXT 0 0 (txt "ann"))) as [Ht _];
    [rewrite Ha; reflexivity|rewrite Ha; reflexivity|reflexivity|reflexivity|exact Ht].
Defined.
