(* ===== verification/RedisService.v ===== *)
(** RedisService: admission, the worker, delivery and stop of the Redis service
    ([src/src/Data/Redis/Types.h], [Service.h], [Service.cpp], [Connection.h]). Each
    block the code runs under [mutex_] is one step; the connection is the class
    [Connection], the service is verified against its laws. *)
From S2P Require Import Prelude.
From S2P Require Import Text.
From S2P Require Import NetTypes.

(** [src/include/ServerEngine/C/Redis.h:15-17] *)
Definition SE_REDIS_GET : Z := 1.
Definition SE_REDIS_SET : Z := 2.
Definition SE_REDIS_DELETE : Z := 3.

(** [src/src/Data/Redis/Types.h:14-26] *)
Record Options := mkOptions {
  address : bytes; username : bytes; password : bytes; port : Z;
  connect_timeout_ms : Z; command_timeout_ms : Z; max_inflight_requests : Z;
  max_key_bytes : Z; max_value_bytes : Z; max_queue_bytes : Z; max_result_bytes : Z;
}.
(** [src/src/Data/Redis/Types.h:28-37] The message is its text, without the terminator. *)
Record Completion := mkCompletion {
  request_id : Z; operation : Z; status : se_status; found : bool; affected_count : Z;
  content : bytes; message : bytes;
}.
(** [src/src/Data/Redis/Types.h:39-45] *)
Record Request := mkRequest {
  key : bytes; value : bytes; ttl_ms : Z; result_reservation : Z; completion : Completion;
}.
Definition set_completion (c : Completion) (r : Request) : Request :=
  mkRequest (key r) (value r) (ttl_ms r) (result_reservation r) c.

(** [src/src/Data/Redis/Service.cpp:11-20] {Completion::fail} *)
Definition fail (code : se_status) (description : bytes) (c : Completion) : Completion :=
  mkCompletion (request_id c) (operation c) code false 0 [] (take 191 description).

(** [src/src/Data/Redis/Connection.h:11-21] What the service asks of a connection:
    execute a request, and cancel from another thread. *)
Class Connection (K : Type) := {
  execute : Request → K → Request * K;
  cancel : K → K;
}.
(** It writes the completion alone, keeps its identity, and a value it returns fits
    the reservation: a read's may be as large as the limit, nothing else has one. *)
Class ConnectionLaws (K : Type) `{Connection K} (limit : Z) := {
  execute_owner r k : let r' := (execute r k).1 in
    key r' = key r ∧ value r' = value r ∧ result_reservation r' = result_reservation r ∧
    request_id (completion r') = request_id (completion r) ∧
    operation (completion r') = operation (completion r);
  execute_fits r k : content (completion r) = [] → let c := completion (execute r k).1 in
    (operation c = SE_REDIS_GET → zlen (content c) ≤ limit) ∧
    (operation c ≠ SE_REDIS_GET → content c = []);
}.

(** Where the worker stands: at the wait, with a request it took, with the same
    request executed, or returned. *)
Inductive Worker := Waiting | Taken | Executed | Returned.
#[global] Instance Worker_eq_dec : EqDecision Worker.
Proof. solve_decision. Defined.

(** [src/src/Data/Redis/Service.h:28-42] [running] is the worker's own list. *)
Record Service (K : Type) := mkService {
  options_ : Options; connection_ : K;
  pending_ : list Request; running : list Request; ready_ : list Request;
  next_id_ : Z; queue_bytes_ : Z; reserved_result_bytes_ : Z; inflight_ : Z;
  stopping_ : bool; stopped_ : bool; worker_ : Worker;
}.
Arguments mkService {K}. Arguments options_ {K}. Arguments connection_ {K}. Arguments pending_ {K}.
Arguments running {K}. Arguments ready_ {K}. Arguments next_id_ {K}. Arguments queue_bytes_ {K}.
Arguments reserved_result_bytes_ {K}. Arguments inflight_ {K}. Arguments stopping_ {K}.
Arguments stopped_ {K}. Arguments worker_ {K}.

(** [src/include/ServerEngine/C/Redis.h:39-50] *)
Record se_redis_result := mkSeResult {
  rr_struct_size : Z; rr_abi_version : Z; rr_request_id : Z; rr_operation : Z;
  rr_status : se_status; rr_found : Z; rr_value_size : Z; rr_affected_count : Z; rr_message : bytes;
}.
Definition sizeof_redis_result : Z := 264.

Definition request_bytes (r : Request) : Z := zlen (key r) + zlen (value r).
(** The key and value are released once the request has run. *)
Definition strip (r : Request) : Request := mkRequest [] [] (ttl_ms r) (result_reservation r) (completion r).

Section Service.
Context {K : Type} `{Connection K}.
Implicit Types s : Service K.

(** [src/src/Data/Redis/Service.cpp:22-25] {Service} *)
Definition new_service (o : Options) (k : K) : Service K :=
  mkService o k [] [] [] 1 0 0 0 false false Waiting.

(** [src/src/Data/Redis/Service.cpp:32-70] The arrays at [k] and [v] are what the
    sizes next to them say, or NULL. *)
Definition submit (op : Z) (k : option bytes) (key_size : Z) (v : option bytes) (value_size ttl : Z) s
    : se_status * Z * Service K :=
  if bool_decide (k = None) || (key_size =? 0) || (max_key_bytes (options_ s) <? key_size)
     || (bool_decide (v = None) && negb (value_size =? 0)) || (max_value_bytes (options_ s) <? value_size)
     || (2 ^ 63 - 1 <? ttl)
  then (SE_INVALID_ARGUMENT, 0, s)
  else if stopping_ s then (SE_STOPPED, 0, s)
  else
    let bytes := u64 (key_size + value_size) in
    let reservation := if op =? SE_REDIS_GET then max_value_bytes (options_ s) else 0 in
    if (max_inflight_requests (options_ s) <=? inflight_ s)
       || (u64 (max_queue_bytes (options_ s) - queue_bytes_ s) <? bytes)
       || (u64 (max_result_bytes (options_ s) - reserved_result_bytes_ s) <? reservation)
    then (SE_BACKPRESSURE, 0, s)
    else if next_id_ s =? 0 then (SE_INVALID_STATE, 0, s)
    else
      let request := mkRequest (take (Z.to_nat key_size) (default [] k))
        (if value_size =? 0 then [] else take (Z.to_nat value_size) (default [] v)) ttl reservation
        (mkCompletion (next_id_ s) op SE_OK false 0 [] []) in
      (SE_OK, next_id_ s,
       mkService (options_ s) (connection_ s) (pending_ s ++ [request]) (running s) (ready_ s)
         (u64 (next_id_ s + 1)) (u64 (queue_bytes_ s + bytes))
         (u64 (reserved_result_bytes_ s + reservation)) (u32 (inflight_ s + 1))
         (stopping_ s) (stopped_ s) (worker_ s)).

(** [src/src/Data/Redis/Service.cpp:79-90] {run} The requests cancelled by a stop. *)
Fixpoint cancel_pending (l : list Request) (queue_bytes : Z) : list Request * Z :=
  match l with
  | [] => ([], queue_bytes)
  | r :: rest =>
      let r' := strip (set_completion
        (fail SE_STOPPED (txt "Redis request cancelled before execution") (completion r)) r) in
      let '(rest', q) := cancel_pending rest (u64 (queue_bytes - u64 (request_bytes r))) in
      (r' :: rest', q)
  end.

(** [src/src/Data/Redis/Service.cpp:76-92] {run} The worker at the wait. *)
Definition worker_take s : Service K :=
  if stopping_ s then
    let '(cancelled, q) := cancel_pending (pending_ s) (queue_bytes_ s) in
    mkService (options_ s) (connection_ s) [] (running s) (ready_ s ++ cancelled) (next_id_ s) q
      (reserved_result_bytes_ s) (inflight_ s) true true Returned
  else match pending_ s with
  | [] => s
  | r :: rest =>
      mkService (options_ s) (connection_ s) rest (running s ++ [r]) (ready_ s) (next_id_ s)
        (queue_bytes_ s) (reserved_result_bytes_ s) (inflight_ s) (stopping_ s) (stopped_ s) Taken
  end.

(** [src/src/Data/Redis/Service.cpp:93-100] {run} *)
Definition worker_execute s : Service K :=
  match running s with
  | [] => s
  | r :: rest =>
      let '(r', k) := execute r (connection_ s) in
      mkService (options_ s) k (pending_ s) (r' :: rest) (ready_ s) (next_id_ s)
        (queue_bytes_ s) (reserved_result_bytes_ s) (inflight_ s) (stopping_ s) (stopped_ s) Executed
  end.

(** [src/src/Data/Redis/Service.cpp:101-108] {run} *)
Definition worker_complete s : Service K :=
  match running s with
  | [] => s
  | r :: rest =>
      mkService (options_ s) (connection_ s) (pending_ s) [] (ready_ s ++ strip r :: rest) (next_id_ s)
        (u64 (queue_bytes_ s - u64 (request_bytes r))) (reserved_result_bytes_ s) (inflight_ s)
        (stopping_ s) (stopped_ s) Waiting
  end.

(** [src/src/Data/Redis/Service.cpp:72-110] One turn of the worker. *)
Definition run s : Service K :=
  match worker_ s with
  | Waiting => worker_take s
  | Taken => worker_execute s
  | Executed => worker_complete s
  | Returned => s
  end.

(** [src/src/Data/Redis/Service.cpp:112-137] The decision when the wait ends: the
    status, the caller's record, and the bytes copied to its buffer. *)
Definition poll (capacity : Z) s : se_status * option se_redis_result * bytes * Service K :=
  match ready_ s with
  | [] => (if stopped_ s then SE_STOPPED else SE_TIMEOUT, None, [], s)
  | r :: rest =>
      let c := completion r in
      let result := mkSeResult sizeof_redis_result 65536 (request_id c) (operation c) (status c)
        (if found c then 1 else 0) (u32 (zlen (content c))) (affected_count c) (message c) in
      if capacity <? zlen (content c) then (SE_BUFFER_TOO_SMALL, Some result, [], s)
      else
        (SE_OK, Some result, content c,
         mkService (options_ s) (connection_ s) (pending_ s) (running s) rest (next_id_ s)
           (queue_bytes_ s) (u64 (reserved_result_bytes_ s - result_reservation r))
           (u32 (inflight_ s - 1)) (stopping_ s) (stopped_ s) (worker_ s))
  end.

(** [src/src/Data/Redis/Service.cpp:142-146] {stop} *)
Definition request_stop s : Service K :=
  mkService (options_ s) (connection_ s) (pending_ s) (running s) (ready_ s) (next_id_ s)
    (queue_bytes_ s) (reserved_result_bytes_ s) (inflight_ s) true (stopped_ s) (worker_ s).
(** [src/src/Data/Redis/Service.cpp:147-147] {stop} *)
Definition cancel_connection s : Service K :=
  mkService (options_ s) (cancel (connection_ s)) (pending_ s) (running s) (ready_ s) (next_id_ s)
    (queue_bytes_ s) (reserved_result_bytes_ s) (inflight_ s) (stopping_ s) (stopped_ s) (worker_ s).
(** [src/src/Data/Redis/Service.cpp:139-149] With the worker's three turns at most
    until the join: a request in hand is executed and completed, then it returns. *)
Definition stop s : Service K := run (run (run (cancel_connection (request_stop s)))).

(** The steps of concurrent callers and the worker. *)
Inductive Op :=
| Submit (op : Z) (k v : bytes) (ttl : Z)
| Work
| Poll (capacity : Z)
| RequestStop
| CancelConnection.

Definition submit_op (op : Z) (k v : bytes) (ttl : Z) s : se_status * Z * Service K :=
  submit op (Some k) (zlen k) (Some v) (zlen v) ttl s.
Definition step s (o : Op) : Service K :=
  match o with
  | Submit op k v ttl => (submit_op op k v ttl s).2
  | Work => run s
  | Poll capacity => (poll capacity s).2
  | RequestStop => request_stop s
  | CancelConnection => cancel_connection s
  end.
(** The identifiers a step accepts and delivers. *)
Definition accepted s (o : Op) : list Z :=
  match o with
  | Submit op k v ttl =>
      match (submit_op op k v ttl s).1 with (SE_OK, i) => [i] | _ => [] end
  | _ => []
  end.
Definition delivered s (o : Op) : list Z :=
  match o with
  | Poll capacity =>
      match (poll capacity s).1.1 with (SE_OK, Some r) => [rr_request_id r] | _ => [] end
  | _ => []
  end.
Fixpoint collect (f : Service K → Op → list Z) s (ops : list Op) : list Z :=
  match ops with [] => [] | o :: rest => f s o ++ collect f (step s o) rest end.
End Service.
