(* ===== verification/RedisProperties.v ===== *)
(** RedisProperties: the invariant of the Redis service and what it gives: request
    and result budgets, delivery of every accepted request once and in order, and
    a stop that leaves every outstanding request with an outcome. *)
From S2P Require Import Prelude.
From S2P Require Import Text.
From S2P Require Import NetTypes.
From S2P Require Import RedisService.

(** The options [decode] lets through fit their fields. *)
Record options_ok (o : Options) : Prop := {
  ok_inflight : 0 ≤ max_inflight_requests o < 2 ^ 32;
  ok_key : 0 ≤ max_key_bytes o < 2 ^ 32;
  ok_value : 0 ≤ max_value_bytes o < 2 ^ 32;
  ok_queue : 0 ≤ max_queue_bytes o < 2 ^ 64;
  ok_results : 0 ≤ max_result_bytes o < 2 ^ 64;
}.
Definition ids (l : list Request) : list Z := (λ r, request_id (completion r)) <$> l.
Lemma redis_ids_app l1 l2 : ids (l1 ++ l2) = ids l1 ++ ids l2.
Proof. apply fmap_app. Qed.

Lemma request_bytes_nonneg r : 0 ≤ request_bytes r.
Proof. unfold request_bytes. pose proof (zlen_nonneg (key r)). pose proof (zlen_nonneg (value r)). lia. Qed.

Section Properties.
Context {K : Type} (limit : Z) `{ConnectionLaws K limit}.
Implicit Types s : Service K.

(** Every outstanding request, in the order of delivery. *)
Definition outstanding s : list Request := ready_ s ++ running s ++ pending_ s.
(** What a request reserved, and that its value fits it. *)
Definition reserved_ok (r : Request) : Prop :=
  result_reservation r = if operation (completion r) =? SE_REDIS_GET then limit else 0.
Definition fits (r : Request) : Prop := zlen (content (completion r)) ≤ result_reservation r.
Definition fresh (r : Request) : Prop := content (completion r) = [].

(** [n] requests were accepted and [k] of them delivered. *)
Record good (n k : Z) s : Prop := {
  gd_options : options_ok (options_ s);
  gd_limit : max_value_bytes (options_ s) = limit;
  gd_ids : ids (outstanding s) = seqZ (k + 1) (n - k);
  gd_k : 0 ≤ k ≤ n;
  gd_n : n < 2 ^ 64;
  gd_next : next_id_ s = u64 (n + 1);
  gd_inflight : inflight_ s = zlen (outstanding s);
  gd_inflight_max : inflight_ s ≤ max_inflight_requests (options_ s);
  gd_reserved : reserved_result_bytes_ s = total result_reservation (outstanding s);
  gd_reserved_max : reserved_result_bytes_ s ≤ max_result_bytes (options_ s);
  gd_queue : queue_bytes_ s = total request_bytes (running s ++ pending_ s);
  gd_queue_max : queue_bytes_ s ≤ max_queue_bytes (options_ s);
  gd_reservations : Forall reserved_ok (outstanding s);
  gd_ready : Forall fits (ready_ s);
  gd_running : Forall (if decide (worker_ s = Executed) then fits else fresh) (running s);
  gd_pending : Forall fresh (pending_ s);
  gd_worker : match worker_ s with
    | Waiting => running s = []
    | Taken | Executed => zlen (running s) = 1
    | Returned => running s = [] ∧ pending_ s = [] ∧ stopping_ s = true
    end;
  gd_stopped : stopped_ s = bool_decide (worker_ s = Returned);
}.

Lemma good_new o k : options_ok o → max_value_bytes o = limit → good 0 0 (new_service o k).
Proof. intros Ho Hl. split; simpl; try done; try (destruct Ho; lia).
Qed.

Lemma reserved_nonneg l : 0 ≤ limit → Forall reserved_ok l → 0 ≤ total result_reservation l.
Proof.
  intros Hl. induction 1 as [|r l Hr _ IH]; [simpl; lia|]. rewrite total_cons, Hr. destruct (_ =? _); lia.
Qed.
Lemma good_limit n k s : good n k s → 0 ≤ limit < 2 ^ 32.
Proof. intros Hg. rewrite <- (gd_limit _ _ _ Hg). apply (ok_value _ (gd_options _ _ _ Hg)). Qed.
Lemma good_reserved_nonneg n k s : good n k s → 0 ≤ reserved_result_bytes_ s.
Proof.
  intros Hg. rewrite (gd_reserved _ _ _ Hg).
  apply reserved_nonneg; [pose proof (good_limit _ _ _ Hg); lia|apply (gd_reservations _ _ _ Hg)].
Qed.
Lemma good_queue_nonneg n k s : good n k s → 0 ≤ queue_bytes_ s.
Proof.
  intros Hg. rewrite (gd_queue _ _ _ Hg). apply total_nonneg. intros. apply request_bytes_nonneg.
Qed.

(** ** Submission *)
Lemma redis_submit_cases op key v ttl n k s :
  good n k s →
  let '(e, i, s') := submit_op op key v ttl s in
  (e ≠ SE_OK ∧ s' = s) ∨ (e = SE_OK ∧ i = n + 1 ∧ good (n + 1) k s').
Proof.
  intros Hg. unfold submit_op, submit.
  destruct (_ || _) eqn:Hargs; [by left|]. destruct (stopping_ s) eqn:Hst; [by left|]. bprop.
  pose proof (zlen_nonneg key). pose proof (zlen_nonneg v).
  pose proof (good_limit _ _ _ Hg) as Hlim. pose proof (good_reserved_nonneg _ _ _ Hg).
  pose proof (good_queue_nonneg _ _ _ Hg).
  destruct Hg as [Ho Hl Hids Hk Hn Hnext Hinf Him Hres Hrm Hq Hqm Hrs Hready Hrun Hpend Hw Hstop].
  destruct Ho as [? ? ? ? ?]. rewrite Hl in *.
  set (res := if op =? SE_REDIS_GET then limit else 0).
  assert (0 ≤ res < 2 ^ 32) by (unfold res; destruct (op =? _); lia).
  rewrite (u64_small (_ - queue_bytes_ s)), (u64_small (_ - reserved_result_bytes_ s)),
    (u64_small (zlen key + zlen v)) by (unfold is_u64; lia).
  destruct (_ || _) eqn:Hfull; [by left|]. destruct (next_id_ s =? 0) eqn:Hid; [by left|]. bprop.
  assert (n < 2 ^ 64 - 1) as Hn' by (rewrite Hnext in Hid; unfold u64 in Hid; destruct (decide (n = 2 ^ 64 - 1)); [subst n; done|lia]).
  assert (next_id_ s = n + 1) as Hnx by (rewrite Hnext; apply u64_small; unfold is_u64; lia).
  right. set (r := mkRequest _ _ _ _ _).
  assert (request_bytes r = zlen key + zlen v) as Hrb.
  { unfold request_bytes; simpl. rewrite (take_ge key) by (unfold zlen; lia).
    destruct (zlen v =? 0) eqn:Hv; bprop; [rewrite zlen_nil; lia|].
    by rewrite (take_ge v) by (unfold zlen; lia). }
  split; [done|]. split; [done|].
  set (s' := mkService _ _ _ _ _ _ _ _ _ _ _ _).
  assert (outstanding s' = outstanding s ++ [r]) as Ho'.
  { unfold outstanding. simpl. by rewrite !app_assoc. }
  assert (running s' ++ pending_ s' = (running s ++ pending_ s) ++ [r]) as Hr' by (simpl; by rewrite app_assoc).
  pose proof (zlen_nonneg (outstanding s)).
  assert (u32 (inflight_ s + 1) = inflight_ s + 1) as Hu1 by (apply u32_small; unfold is_u32; lia).
  assert (u64 (reserved_result_bytes_ s + res) = reserved_result_bytes_ s + res) as Hu2
    by (apply u64_small; unfold is_u64; lia).
  assert (u64 (queue_bytes_ s + (zlen key + zlen v)) = queue_bytes_ s + (zlen key + zlen v)) as Hu3
    by (apply u64_small; unfold is_u64; lia).
  split; rewrite ?Ho', ?Hr'; simpl; rewrite ?Hl, ?Hu1, ?Hu2, ?Hu3; try done; try lia.
  - by split; rewrite ?Hl.
  - rewrite redis_ids_app, Hids. replace (n + 1 - k) with (n - k + 1) by lia.
    rewrite seqZ_app by lia. f_equal. unfold ids; simpl. rewrite Hnx.
    by replace (k + 1 + (n - k)) with (n + 1) by lia.
  - by rewrite Hnx.
  - by rewrite zlen_app, Hinf.
  - rewrite total_app, Hres. simpl. lia.
  - rewrite total_app, Hq, total_cons, Hrb. simpl. lia.
  - apply Forall_app; split; [done|]. by constructor.
  - apply Forall_app; split; [done|]. by constructor.
  - destruct (worker_ s); try done. destruct Hw as (_ & _ & Hw). congruence.
Qed.

Lemma ids_strip l r : ids (strip r :: l) = ids (r :: l).
Proof. done. Qed.

(** ** The worker *)
Lemma cancel_pending_spec l q r : cancel_pending l q = r →
  0 ≤ q - total request_bytes l → q < 2 ^ 64 →
  r.2 = q - total request_bytes l ∧ ids r.1 = ids l ∧
  total result_reservation r.1 = total result_reservation l ∧ length r.1 = length l ∧
  Forall (λ c, status (completion c) = SE_STOPPED ∧ content (completion c) = [] ∧ key c = []) r.1 ∧
  (Forall reserved_ok l → Forall reserved_ok r.1).
Proof.
  intros <-. revert q. induction l as [|x l IH]; intros q Hq Hq'; simpl in *; [split_and!; auto; lia|].
  pose proof (request_bytes_nonneg x). assert (0 ≤ total request_bytes l).
  { apply total_nonneg. intros. apply request_bytes_nonneg. }
  rewrite (u64_small (request_bytes x)), (u64_small (q - _)) by (unfold is_u64; lia).
  specialize (IH (q - request_bytes x)). destruct (cancel_pending l _) as [rest q'].
  destruct IH as (Hq1 & Hi & Ht & Hlen & Hf & Hr); [lia..|]. simpl in *.
  split_and!; [lia|by f_equal|by rewrite Ht|by f_equal|by constructor|].
  intros [Hx Hl]%Forall_cons. constructor; [exact Hx|auto].
Qed.

Lemma fresh_fits n k s r : good n k s → fresh r → reserved_ok r → fits r.
Proof.
  intros Hg Hf Hr. unfold fits. rewrite Hf, Hr, zlen_nil. pose proof (good_limit _ _ _ Hg).
  destruct (_ =? _); lia.
Qed.

(** A step that only moves requests on keeps the books. *)
Lemma good_moved n k s s' :
  good n k s → options_ s' = options_ s → next_id_ s' = next_id_ s → inflight_ s' = inflight_ s →
  reserved_result_bytes_ s' = reserved_result_bytes_ s →
  ids (outstanding s') = ids (outstanding s) →
  total result_reservation (outstanding s') = total result_reservation (outstanding s) →
  Forall reserved_ok (outstanding s') →
  queue_bytes_ s' = total request_bytes (running s' ++ pending_ s') → queue_bytes_ s' ≤ queue_bytes_ s →
  Forall fits (ready_ s') →
  Forall (if decide (worker_ s' = Executed) then fits else fresh) (running s') →
  Forall fresh (pending_ s') →
  match worker_ s' with
  | Waiting => running s' = []
  | Taken | Executed => zlen (running s') = 1
  | Returned => running s' = [] ∧ pending_ s' = [] ∧ stopping_ s' = true
  end → stopped_ s' = bool_decide (worker_ s' = Returned) → good n k s'.
Proof.
  intros [] Eo En Ei Er Eids Et ? ? ? ? ? ? ? ?.
  assert (zlen (outstanding s') = zlen (outstanding s)) as Hlen.
  { unfold zlen. f_equal. apply (f_equal length) in Eids. unfold ids in Eids. by rewrite !length_fmap in Eids. }
  split; rewrite ?Eo, ?En, ?Ei, ?Er, ?Eids, ?Et, ?Hlen; try done; lia.
Qed.

Lemma fits_fresh_running n k s : worker_ s ≠ Executed → good n k s → Forall fresh (running s).
Proof. intros Hw Hg. pose proof (gd_running _ _ _ Hg) as Hr. by rewrite decide_False in Hr by done. Qed.

Lemma redis_take_good n k s : worker_ s = Waiting → good n k s → good n k (worker_take s).
Proof.
  intros Hw Hg. unfold worker_take.
  pose proof (gd_worker _ _ _ Hg) as Hrn. rewrite Hw in Hrn.
  pose proof (gd_queue _ _ _ Hg) as Hq. pose proof (gd_queue_max _ _ _ Hg).
  pose proof (ok_queue _ (gd_options _ _ _ Hg)). rewrite Hrn in Hq. simpl in Hq.
  pose proof (gd_reservations _ _ _ Hg) as Hrs. unfold outstanding in Hrs.
  apply Forall_app in Hrs as [Hrs1 Hrs2]. rewrite Hrn in Hrs2. simpl in Hrs2.
  destruct (stopping_ s) eqn:Hst.
  - destruct (cancel_pending _ _) as [c q'] eqn:Hc. apply cancel_pending_spec in Hc; [|lia..].
    destruct Hc as (Hq' & Hi & Ht & _ & Hf & Hr). simpl in *.
    assert (Forall fits c) as Hfits.
    { rewrite Forall_forall in Hf |- *. specialize (Hr Hrs2). rewrite Forall_forall in Hr. intros r Hin.
      eapply fresh_fits; [done| |by auto]. by destruct (Hf _ Hin) as (_ & ? & _). }
    eapply good_moved; try done; unfold outstanding; simpl; rewrite ?Hrn, ?app_nil_r; simpl; try done.
    + by rewrite !redis_ids_app, Hi.
    + by rewrite !total_app, Ht.
    + apply Forall_app; auto.
    + lia.
    + pose proof (good_queue_nonneg _ _ _ Hg). lia.
    + apply Forall_app; split; [apply (gd_ready _ _ _ Hg)|done].
  - destruct (pending_ s) as [|r rest] eqn:Hp; [done|].
    pose proof (gd_pending _ _ _ Hg) as Hpf. rewrite Hp in Hpf. apply Forall_cons in Hpf as [Hr Hrest].
    eapply good_moved; try done; unfold outstanding; simpl; rewrite ?Hrn, ?Hp; simpl; try done.
    + apply Forall_app; auto.
    + apply (gd_ready _ _ _ Hg).
    + by constructor.
    + rewrite (gd_stopped _ _ _ Hg), Hw. done.
Qed.

Lemma one_running n k s : worker_ s = Taken ∨ worker_ s = Executed → good n k s → ∃ r, running s = [r].
Proof.
  intros Hw Hg. pose proof (gd_worker _ _ _ Hg) as Hr. destruct (running s) as [|r [|r' l]].
  - destruct Hw as [-> | ->] in Hr; done.
  - by exists r.
  - destruct Hw as [-> | ->] in Hr; rewrite !zlen_cons in Hr; pose proof (zlen_nonneg l); lia.
Qed.

Lemma redis_execute_good n k s : worker_ s = Taken → good n k s → good n k (worker_execute s).
Proof.
  intros Hw Hg. destruct (one_running n k s) as [r Hr]; [by left|done|]. unfold worker_execute. rewrite Hr.
  pose proof (execute_owner r (connection_ s)) as Ho. pose proof (execute_fits r (connection_ s)) as Hf.
  destruct (execute r _) as [r' c]. simpl in *. destruct Ho as (Hk & Hv & Hres & Hid & Hop).
  assert (Forall fresh (running s)) as Hfr by (by eapply fits_fresh_running; [rewrite Hw|]).
  rewrite Hr in Hfr. apply Forall_cons in Hfr as [Hfr _]. specialize (Hf Hfr) as [Hf1 Hf2].
  pose proof (gd_reservations _ _ _ Hg) as Hrs. unfold outstanding in Hrs. rewrite Hr in Hrs.
  apply Forall_app in Hrs as [Hrs1 Hrs2]. apply Forall_cons in Hrs2 as [Hrr Hrs2].
  assert (reserved_ok r') as Hrr' by (unfold reserved_ok in *; by rewrite Hres, Hop).
  assert (request_bytes r' = request_bytes r) as Hrb by (unfold request_bytes; by rewrite Hk, Hv).
  eapply good_moved; try done; unfold outstanding; simpl; rewrite ?Hr; simpl; try done.
  - by rewrite !redis_ids_app; unfold ids; simpl; rewrite Hid.
  - rewrite !total_app, !total_cons. lia.
  - apply Forall_app; split; [done|]. by constructor.
  - rewrite (gd_queue _ _ _ Hg), Hr. simpl. rewrite Hrb. lia.
  - apply (gd_ready _ _ _ Hg).
  - constructor; [|done]. unfold fits. rewrite Hrr'. destruct (_ =? _) eqn:E; bprop.
    + by apply Hf1.
    + by rewrite Hf2, zlen_nil.
  - apply (gd_pending _ _ _ Hg).
  - rewrite (gd_stopped _ _ _ Hg), Hw. done.
Qed.

Lemma complete_good n k s : worker_ s = Executed → good n k s → good n k (worker_complete s).
Proof.
  intros Hw Hg. destruct (one_running n k s) as [r Hr]; [by right|done|]. unfold worker_complete. rewrite Hr.
  pose proof (gd_running _ _ _ Hg) as Hf. rewrite Hw, decide_True, Hr in Hf by done.
  apply Forall_cons in Hf as [Hf _].
  pose proof (gd_queue _ _ _ Hg) as Hq. rewrite Hr in Hq. simpl in Hq.
  pose proof (gd_queue_max _ _ _ Hg). pose proof (ok_queue _ (gd_options _ _ _ Hg)).
  pose proof (request_bytes_nonneg r).
  assert (0 ≤ total request_bytes (pending_ s)) by (apply total_nonneg; intros; apply request_bytes_nonneg).
  rewrite (u64_small (request_bytes r)), (u64_small (_ - _)) by (unfold is_u64; lia).
  pose proof (gd_reservations _ _ _ Hg) as Hrs. unfold outstanding in Hrs. rewrite Hr in Hrs.
  eapply good_moved; try done; unfold outstanding; simpl; rewrite ?Hr, <- ?app_assoc; simpl; try done; try lia.
  - by rewrite !redis_ids_app.
  - by rewrite !total_app.
  - apply Forall_app in Hrs as [? [? ?]%Forall_cons]. apply Forall_app; split; [done|]. by constructor.
  - apply Forall_app; split; [apply (gd_ready _ _ _ Hg)|]. by constructor.
  - apply (gd_pending _ _ _ Hg).
  - rewrite (gd_stopped _ _ _ Hg), Hw. done.
Qed.

Lemma run_good n k s : good n k s → good n k (run s).
Proof.
  intros Hg. unfold run. destruct (worker_ s) eqn:Hw;
    auto using redis_take_good, redis_execute_good, complete_good.
Qed.

(** ** Delivery *)
Lemma poll_cases capacity n k s :
  good n k s →
  let '(e, result, data, s') := poll capacity s in
  (e ≠ SE_OK ∧ s' = s) ∨
  (∃ r rest x, ready_ s = r :: rest ∧ e = SE_OK ∧ result = Some x ∧ rr_request_id x = k + 1 ∧
    data = content (completion r) ∧ k < n ∧ good n (k + 1) s').
Proof.
  intros Hg. unfold poll. destruct (ready_ s) as [|r rest] eqn:Hr; [left; split; [by destruct (stopped_ s)|done]|].
  destruct (_ <? _) eqn:Hc; [by left|]. bprop. right. exists r, rest. eexists.
  pose proof (good_limit _ _ _ Hg) as Hlim. pose proof (good_reserved_nonneg _ _ _ Hg).
  destruct Hg as [Ho Hl Hids Hk Hn Hnext Hinf Him Hres Hrm Hq Hqm Hrs Hready Hrun Hpend Hw Hstop].
  pose proof (ok_inflight _ Ho). pose proof (ok_results _ Ho).
  unfold outstanding in *. rewrite Hr in *. simpl in *. rewrite zlen_cons in Hinf.
  pose proof (zlen_nonneg (rest ++ running s ++ pending_ s)).
  apply Forall_cons in Hrs as [Hrr Hrs]. apply Forall_cons in Hready as [_ Hready].
  assert (0 ≤ result_reservation r) by (rewrite Hrr; destruct (_ =? _); lia).
  assert (0 ≤ total result_reservation (rest ++ running s ++ pending_ s))
    by (apply reserved_nonneg; [lia|done]).
  assert (k < n) as Hkn.
  { destruct (decide (n = k)) as [->|]; [|lia]. by rewrite Z.sub_diag in Hids. }
  rewrite seqZ_cons in Hids by lia. simpl in Hids. injection Hids as Hid Hids.
  rewrite (u64_small (_ - _)), (u32_small (_ - 1)) by (unfold is_u64, is_u32; lia).
  split_and!; [done|done|done|done|done|done|].
  split; unfold outstanding; simpl; try done; try lia.
  rewrite Hids. f_equal; lia.
Qed.

Lemma redis_step_good o n k s :
  good n k s → ∃ n' k', good n' k' (step s o) ∧
    accepted s o = seqZ (n + 1) (n' - n) ∧ delivered s o = seqZ (k + 1) (k' - k) ∧ n ≤ n' ∧ k ≤ k'.
Proof.
  intros Hg. destruct o as [op key v ttl| |capacity| |]; simpl.
  - pose proof (redis_submit_cases op key v ttl n k s Hg) as Hs.
    destruct (submit_op op key v ttl s) as [[e i] s']. simpl.
    destruct Hs as [[He ->]|(-> & -> & Hg')].
    + exists n, k. rewrite !Z.sub_diag. split_and!; [done| |done|lia|lia]. by destruct e.
    + exists (n + 1), k. rewrite Z.sub_diag. replace (n + 1 - n) with 1 by lia. split_and!; [done..|lia|lia].
  - exists n, k. rewrite !Z.sub_diag. split_and!; [by apply run_good|done..|lia|lia].
  - pose proof (poll_cases capacity n k s Hg) as Hp.
    destruct (poll capacity s) as [[[e res] data] s']. simpl.
    destruct Hp as [[He ->]|(r & rest & x & _ & -> & -> & Hid & _ & _ & Hg')].
    + exists n, k. rewrite !Z.sub_diag. split_and!; [done|done| |lia|lia]. by destruct e.
    + exists n, (k + 1). rewrite Z.sub_diag, Hid. replace (k + 1 - k) with 1 by lia.
      split_and!; [done..|lia|lia].
  - exists n, k. rewrite !Z.sub_diag. split_and!; [|done..|lia|lia].
    destruct Hg. split; try done. simpl. destruct (worker_ s); try done. naive_solver.
  - exists n, k. rewrite !Z.sub_diag. split_and!; [|done..|lia|lia]. by destruct Hg.
Qed.

Lemma steps_good ops : ∀ n k s, good n k s → ∃ n' k', good n' k' (runs step s ops) ∧
  collect accepted s ops = seqZ (n + 1) (n' - n) ∧ collect delivered s ops = seqZ (k + 1) (k' - k) ∧
  n ≤ n' ∧ k ≤ k'.
Proof.
  induction ops as [|o ops IH]; intros n k s Hg; simpl.
  { exists n, k. rewrite !Z.sub_diag. split_and!; [done..|lia|lia]. }
  destruct (redis_step_good o n k s Hg) as (n1 & k1 & Hg1 & -> & -> & ? & ?).
  destruct (IH n1 k1 _ Hg1) as (n2 & k2 & Hg2 & -> & -> & ? & ?).
  exists n2, k2. split_and!; [done| | |lia|lia].
  - replace (n1 + 1) with (n + 1 + (n1 - n)) by lia. rewrite <- seqZ_app by lia. f_equal; lia.
  - replace (k1 + 1) with (k + 1 + (k1 - k)) by lia. rewrite <- seqZ_app by lia. f_equal; lia.
Qed.

Lemma ready_total n k s : good n k s →
  total (λ r, zlen (content (completion r))) (ready_ s) ≤ reserved_result_bytes_ s.
Proof.
  intros Hg. rewrite (gd_reserved _ _ _ Hg). unfold outstanding. rewrite total_app.
  pose proof (gd_reservations _ _ _ Hg) as Hrs. unfold outstanding in Hrs. apply Forall_app in Hrs as [_ Hrs].
  pose proof (reserved_nonneg _ ltac:(pose proof (good_limit _ _ _ Hg); lia) Hrs).
  assert (total (λ r, zlen (content (completion r))) (ready_ s) ≤ total result_reservation (ready_ s)); [|lia].
  pose proof (gd_ready _ _ _ Hg) as Hf. clear -Hf.
  induction Hf as [|r l Hr _ IH]; [simpl; lia|]. rewrite !total_cons. unfold fits in Hr. lia.
Qed.

(** ** Stop *)
Lemma worker_take_stopping n k s : good n k s → worker_ s = Waiting → stopping_ s = true →
  let s' := worker_take s in
  worker_ s' = Returned ∧ ids (ready_ s') = ids (outstanding s) ∧ queue_bytes_ s' = 0 ∧
  Forall (λ r, status (completion r) = SE_STOPPED) (drop (length (ready_ s)) (ready_ s')).
Proof.
  intros Hg Hw Hst. unfold worker_take. rewrite Hst.
  pose proof (gd_worker _ _ _ Hg) as Hrn. rewrite Hw in Hrn.
  pose proof (gd_queue _ _ _ Hg) as Hq. rewrite Hrn in Hq. simpl in Hq.
  pose proof (gd_queue_max _ _ _ Hg). pose proof (ok_queue _ (gd_options _ _ _ Hg)).
  destruct (cancel_pending _ _) as [c q'] eqn:Hc. apply cancel_pending_spec in Hc; [|lia..].
  destruct Hc as (Hq' & Hi & _ & _ & Hf & _). simpl in *. unfold outstanding. rewrite Hrn.
  split_and!; [done|by rewrite !redis_ids_app, Hi|lia|].
  rewrite drop_app_length. eapply Forall_impl; [done|naive_solver].
Qed.

(** The first request in the worker's hands, if any, is what three turns add. *)
Definition settled s s' : Prop :=
  worker_ s' = Returned ∧ stopped_ s' = true ∧ pending_ s' = [] ∧ running s' = [] ∧ queue_bytes_ s' = 0 ∧
  ids (ready_ s') = ids (outstanding s) ∧ take (length (ready_ s)) (ready_ s') = ready_ s ∧
  Forall (λ r, status (completion r) = SE_STOPPED) (drop (length (ready_ s ++ running s)) (ready_ s')).

Lemma waiting_settled n k s : good n k s → worker_ s = Waiting → stopping_ s = true → settled s (worker_take s).
Proof.
  intros Hg Hw Hst. pose proof (worker_take_stopping n k s Hg Hw Hst) as (H1 & H2 & H3 & H4).
  pose proof (gd_worker _ _ _ Hg) as Hrn. rewrite Hw in Hrn.
  unfold settled, worker_take in *. rewrite Hst in *. destruct (cancel_pending _ _) as [c q]; simpl in *.
  rewrite Hrn in *. rewrite app_nil_r. split_and!; auto. by rewrite take_app_length.
Qed.

Lemma completed_settled n k s r : good n k s → worker_ s = Executed → running s = [r] →
  stopping_ s = true → settled s (run (worker_complete s)).
Proof.
  intros Hg Hw Hr Hst. pose proof (complete_good n k s Hw Hg) as Hg'.
  assert (run (worker_complete s) = worker_take (worker_complete s)) as ->
    by (unfold run, worker_complete; by rewrite Hr).
  assert (ready_ (worker_complete s) = ready_ s ++ [strip r]) as Hrd by (unfold worker_complete; by rewrite Hr).
  destruct (waiting_settled n k _ Hg') as (H1 & H2 & H3 & H4 & H5 & H6 & H7 & H8);
    [unfold worker_complete; by rewrite Hr..|].
  assert (running (worker_complete s) = []) as Hrn by (unfold worker_complete; by rewrite Hr).
  rewrite Hrn, app_nil_r, Hrd, length_app in H8. rewrite Hrd in H7.
  unfold settled. split_and!; auto.
  - rewrite H6. unfold outstanding, worker_complete. rewrite Hr. simpl. by rewrite <- app_assoc, !redis_ids_app.
  - apply (f_equal (take (length (ready_ s)))) in H7. rewrite take_take, length_app in H7.
    rewrite Nat.min_l in H7 by lia. rewrite H7. by rewrite take_app_length.
  - by rewrite Hr, length_app.
Qed.

Lemma executed_settled n k s r : good n k s → worker_ s = Taken → running s = [r] →
  stopping_ s = true → settled s (run (run (worker_execute s))).
Proof.
  intros Hg Hw Hr Hst. pose proof (redis_execute_good n k s Hw Hg) as Hg'.
  pose proof (execute_owner r (connection_ s)) as (_ & _ & _ & Hid & _).
  unfold worker_execute in *. rewrite Hr in *. destruct (execute r (connection_ s)) as [r' c]. simpl in Hid.
  set (s1 := mkService _ _ _ _ _ _ _ _ _ _ _ _) in *.
  replace (run s1) with (worker_complete s1) by done.
  destruct (completed_settled n k s1 r' Hg') as (H1 & H2 & H3 & H4 & H5 & H6 & H7 & H8); [done..|].
  unfold settled. split_and!; auto.
  - rewrite H6. unfold outstanding. simpl. rewrite !redis_ids_app, Hr. unfold ids. simpl. by rewrite Hid.
  - rewrite Hr. rewrite length_app in H8 |- *. exact H8.
Qed.

Lemma run_stopping s : stopping_ s = true → stopping_ (run s) = true.
Proof.
  unfold run, worker_take, worker_execute, worker_complete. intros Hs. rewrite Hs.
  repeat casematch; simpl; auto.
Qed.
Lemma stop_stopping s : stopping_ (stop s) = true.
Proof. unfold stop. by do 3 apply run_stopping. Qed.

Lemma stop_settled n k s : good n k s → settled s (stop s).
Proof.
  intros Hg. unfold stop. set (s0 := cancel_connection (request_stop s)).
  assert (good n k s0) as Hg0.
  { subst s0. destruct Hg; split; try done. simpl. destruct (worker_ s); try done. naive_solver. }
  change (settled s) with (settled s0). unfold run at 3.
  destruct (worker_ s0) eqn:Hw.
  - assert (settled s0 (worker_take s0)) as Hs by (by eapply waiting_settled).
    unfold run. destruct (Hs) as (-> & _). by destruct (Hs) as (-> & _).
  - destruct (one_running n k s0) as [r Hr]; [by left|done|]. by eapply executed_settled.
  - destruct (one_running n k s0) as [r Hr]; [by right|done|].
    assert (settled s0 (run (worker_complete s0))) as Hs by (by eapply completed_settled).
    unfold run at 1. by destruct (Hs) as (-> & _).
  - unfold run. rewrite Hw, Hw. pose proof (gd_worker _ _ _ Hg0) as Hwk. rewrite Hw in Hwk.
    destruct Hwk as (Hrn & Hp & Hst). unfold settled, outstanding. rewrite Hrn, Hp, !app_nil_r, (gd_stopped _ _ _ Hg0), Hw.
    split_and!; auto.
    + rewrite (gd_queue _ _ _ Hg0), Hrn, Hp. done.
    + by rewrite take_ge.
    + by rewrite drop_ge.
Qed.

(** ** The service's promises *)
(** C36: From a new service, through any submissions, polls, stops and worker turns:
    the accepted requests are numbered from one without a gap, each is delivered at
    most once and in that order, everything accepted and not delivered is counted
    against the slot, queue and result budgets, and the values waiting to be polled
    fit what admission reserved for them. *)
Theorem redis_accounted_fifo o c ops :
  options_ok o → max_value_bytes o = limit →
  let s := runs step (new_service o c) ops in
  ∃ n k, collect accepted (new_service o c) ops = seqZ 1 n ∧
    collect delivered (new_service o c) ops = seqZ 1 k ∧ 0 ≤ k ≤ n ∧
    ids (outstanding s) = seqZ (k + 1) (n - k) ∧
    inflight_ s = n - k ∧ inflight_ s ≤ max_inflight_requests (options_ s) ∧
    queue_bytes_ s = total request_bytes (running s ++ pending_ s) ∧
    queue_bytes_ s ≤ max_queue_bytes (options_ s) ∧
    reserved_result_bytes_ s = total result_reservation (outstanding s) ∧
    total (λ r, zlen (content (completion r))) (ready_ s) ≤ reserved_result_bytes_ s ∧
    reserved_result_bytes_ s ≤ max_result_bytes (options_ s).
Proof.
  intros Ho Hl s. destruct (steps_good ops 0 0 _ (good_new o c Ho Hl)) as (n & k & Hg & Ha & Hd & Hn & Hk).
  rewrite Z.sub_0_r in Ha, Hd. exists n, k. fold s in Hg.
  assert (inflight_ s = n - k) as Hi.
  { rewrite (gd_inflight _ _ _ Hg). pose proof (gd_ids _ _ _ Hg) as Hids. apply (f_equal length) in Hids.
    unfold ids in Hids. rewrite length_fmap, length_seqZ in Hids.
    pose proof (gd_k _ _ _ Hg). unfold zlen. lia. }
  split_and!; auto; try apply Hg; try lia; eauto using ready_total.
Qed.

(** A stop, whatever the worker is doing, ends it after at most three turns with
    no request queued or running and no queued bytes: every request accepted and not
    yet delivered has an outcome, in the order of submission, the outcomes that were
    waiting are untouched, the requests the worker had not taken are cancelled, and
    from then on nothing is admitted and no poll can time out. *)
Theorem redis_stop_settles o c ops :
  options_ok o → max_value_bytes o = limit →
  let s := runs step (new_service o c) ops in
  settled s (stop s) ∧
  (∀ op key v ttl, (submit_op op key v ttl (stop s)).1.1 ≠ SE_OK) ∧
  (∀ capacity, (poll capacity (stop s)).1.1.1 ≠ SE_TIMEOUT).
Proof.
  intros Ho Hl s. destruct (steps_good ops 0 0 _ (good_new o c Ho Hl)) as (n & k & Hg & _). fold s in Hg.
  pose proof (stop_settled n k s Hg) as Hs. split; [done|].
  assert (stopping_ (stop s) = true) as Hst by apply stop_stopping.
  destruct Hs as (_ & Hstop & _). split.
  - intros. unfold submit_op, submit. rewrite Hst. by destruct (_ || _).
  - intros. unfold poll. rewrite Hstop. destruct (ready_ _); [done|]. by destruct (_ <? _).
Qed.
End Properties.

(** A connection whose values are the keys, to evaluate the service with. *)
Module Echo.
Definition limit : Z := 4.
Definition answer (r : Request) (cancelled : bool) : Completion :=
  let c := completion r in
  if cancelled then fail SE_STOPPED (txt "cancelled") c
  else if operation c =? SE_REDIS_GET
  then mkCompletion (request_id c) (operation c) SE_OK true 0 (take 4 (key r)) (message c)
  else mkCompletion (request_id c) (operation c) SE_OK false 1 [] (message c).
#[global] Instance echo : Connection bool := {
  execute r k := (set_completion (answer r k) r, k);
  cancel _ := true;
}.
#[global] Instance echo_laws : ConnectionLaws bool limit.
Proof.
  split; intros r k; simpl; unfold answer, fail, limit.
  - repeat casematch; done.
  - intros _. repeat casematch; bprop; simpl; split; try done; intros.
    unfold zlen. rewrite length_take. lia.
Qed.
Definition options : Options := mkOptions [] [] [] 6379 1 1 2 8 4 32 8.
Lemma options_fine : options_ok options.
Proof. split; simpl; lia. Qed.
End Echo.

Definition echo_ops : list Op :=
  [Submit SE_REDIS_SET (txt "k") (txt "v") 0; Work; Work; Submit SE_REDIS_GET (txt "key") [] 0;
   Submit SE_REDIS_GET (txt "key") [] 0; Work; Poll 4; RequestStop; Work].
Lemma redis_accounted_fifo_witness :
  let s := runs step (new_service Echo.options false) echo_ops in
  (∃ n k, collect accepted (new_service Echo.options false) echo_ops = seqZ 1 n ∧
    collect delivered (new_service Echo.options false) echo_ops = seqZ 1 k ∧ 0 ≤ k ≤ n ∧
    ids (outstanding s) = seqZ (k + 1) (n - k) ∧
    inflight_ s = n - k ∧ inflight_ s ≤ max_inflight_requests (options_ s) ∧
    queue_bytes_ s = total request_bytes (running s ++ pending_ s) ∧
    queue_bytes_ s ≤ max_queue_bytes (options_ s) ∧
    reserved_result_bytes_ s = total result_reservation (outstanding s) ∧
    total (λ r, zlen (content (completion r))) (ready_ s) ≤ reserved_result_bytes_ s ∧
    reserved_result_bytes_ s ≤ max_result_bytes (options_ s)) ∧
  collect delivered (new_service Echo.options false) echo_ops = [1] ∧ ids (outstanding s) = [2].
Proof.
  split; [apply (redis_accounted_fifo Echo.limit Echo.options false echo_ops Echo.options_fine eq_refl)|].
  by split; vm_compute.
Defined.

Lemma redis_stop_settles_witness :
  let s := runs step (new_service Echo.options false)
    [Submit SE_REDIS_GET (txt "key") [] 0; Submit SE_REDIS_SET (txt "k") (txt "v") 0; Work] in
  worker_ s = Taken ∧
  (settled s (stop s) ∧
   (∀ op key v ttl, (submit_op op key v ttl (stop s)).1.1 ≠ SE_OK) ∧
   (∀ capacity, (poll capacity (stop s)).1.1.1 ≠ SE_TIMEOUT)) ∧
  ids (ready_ (stop s)) = [1; 2].
Proof.
  split; [by vm_compute|]. split; [|by vm_compute].
  apply (redis_stop_settles Echo.limit Echo.options false _ Echo.options_fine eq_refl).
Defined.
