(* ===== verification/RedisConnection.v ===== *)
(** RedisConnection: one command at a time over one socket, under a deadline, with
    the reply bounded before the parser sees it
    ([src/src/Data/Redis/Connection.cpp]). The encoder, parser and address parser are
    the class [Hiredis]; the other threads, the peer and the clock are two fields of
    the state: what each load of the flag [cancelled_] finds, and the events of each
    run of the executor. *)
From S2P Require Import Prelude.
From S2P Require Import Text.
From S2P Require Import NetTypes.
From S2P Require Import RedisService.

(** The fields of a reply that the source reads, and the types it tests for. *)
Inductive ReplyType := REPLY_STRING | REPLY_INTEGER | REPLY_NIL | REPLY_STATUS | REPLY_ERROR | REPLY_OTHER.
#[global] Instance ReplyType_eq_dec : EqDecision ReplyType.
Proof. solve_decision. Defined.
Record Reply := mkReply { type : ReplyType; integer : Z; str : bytes }.

(** hiredis, and asio's address parser. [None] is a failure; [get_reply] may have
    none to give yet, and [at_end] says the parser holds no byte beyond it. *)
Class Hiredis (R : Type) := {
  make_address : bytes → bool;
  formatCommandArgv : list bytes → option bytes;
  readerCreate : option R;
  readerFeed : R → bytes → option R;
  readerGetReply : R → option (option Reply * R);
  at_end : R → bool;
}.

(** The socket operation whose handler is to run. *)
Inductive Phase := Idle | Connecting | Writing | Reading.
(** What the executor runs: the pending operation's handler with its error or its
    bytes, the timer's, or the handler another thread's [cancel] posted. *)
Inductive Event := Finished (error : bool) (data : bytes) | Deadline | Cancelled.

(** [src/src/Data/Redis/Connection.cpp:304-319] [sent] records the commands handed to
    the socket and [fed] the bytes handed to the parser of the current command. *)
Record Impl (R : Type) := mkImpl {
  is_open : bool; phase : Phase; cancelled_ : bool; finished_ : bool; status_ : se_status;
  incoming_ : bytes; received_ : Z; reply_limit_ : Z; bulk_limit_ : Z;
  header_ : bytes; header_checked_ : bool; reader_ : option R; reply_ : option Reply;
  sent : list bytes; fed : bytes; stores : list bool; runs_ahead : list (list Event);
}.
Arguments mkImpl {R}. Arguments is_open {R}. Arguments phase {R}. Arguments cancelled_ {R}.
Arguments finished_ {R}. Arguments status_ {R}. Arguments incoming_ {R}. Arguments received_ {R}.
Arguments reply_limit_ {R}. Arguments bulk_limit_ {R}. Arguments header_ {R}.
Arguments header_checked_ {R}. Arguments reader_ {R}. Arguments reply_ {R}. Arguments sent {R}.
Arguments fed {R}. Arguments stores {R}. Arguments runs_ahead {R}.

Section Connection.
Context {R : Type} `{Hiredis R} (options : Options).
Implicit Types k : Impl R.

(** [src/src/Data/Redis/Connection.cpp:35-35] {Impl} *)
Definition new_impl (st : list bool) (ev : list (list Event)) : Impl R :=
  mkImpl false Idle false true SE_OK (replicate 4096 x00) 0 0 0 [] false None None [] [] st ev.

Definition with_open b k := mkImpl b (phase k) (cancelled_ k) (finished_ k) (status_ k) (incoming_ k)
  (received_ k) (reply_limit_ k) (bulk_limit_ k) (header_ k) (header_checked_ k) (reader_ k) (reply_ k)
  (sent k) (fed k) (stores k) (runs_ahead k).
Definition with_phase p k := mkImpl (is_open k) p (cancelled_ k) (finished_ k) (status_ k) (incoming_ k)
  (received_ k) (reply_limit_ k) (bulk_limit_ k) (header_ k) (header_checked_ k) (reader_ k) (reply_ k)
  (sent k) (fed k) (stores k) (runs_ahead k).
Definition with_cancelled b st k := mkImpl (is_open k) (phase k) b (finished_ k) (status_ k) (incoming_ k)
  (received_ k) (reply_limit_ k) (bulk_limit_ k) (header_ k) (header_checked_ k) (reader_ k) (reply_ k)
  (sent k) (fed k) st (runs_ahead k).
Definition with_finished b st k := mkImpl (is_open k) (phase k) (cancelled_ k) b st (incoming_ k)
  (received_ k) (reply_limit_ k) (bulk_limit_ k) (header_ k) (header_checked_ k) (reader_ k) (reply_ k)
  (sent k) (fed k) (stores k) (runs_ahead k).
Definition with_header h c k := mkImpl (is_open k) (phase k) (cancelled_ k) (finished_ k) (status_ k)
  (incoming_ k) (received_ k) (reply_limit_ k) (bulk_limit_ k) h c (reader_ k) (reply_ k)
  (sent k) (fed k) (stores k) (runs_ahead k).
Definition with_incoming i n k := mkImpl (is_open k) (phase k) (cancelled_ k) (finished_ k) (status_ k)
  i n (reply_limit_ k) (bulk_limit_ k) (header_ k) (header_checked_ k) (reader_ k) (reply_ k)
  (sent k) (fed k) (stores k) (runs_ahead k).
Definition with_reader (r : option R) p f k := mkImpl (is_open k) (phase k) (cancelled_ k) (finished_ k) (status_ k)
  (incoming_ k) (received_ k) (reply_limit_ k) (bulk_limit_ k) (header_ k) (header_checked_ k) r p
  (sent k) f (stores k) (runs_ahead k).
Definition with_runs e k := mkImpl (is_open k) (phase k) (cancelled_ k) (finished_ k) (status_ k)
  (incoming_ k) (received_ k) (reply_limit_ k) (bulk_limit_ k) (header_ k) (header_checked_ k)
  (reader_ k) (reply_ k) (sent k) (fed k) (stores k) e.

(** [cancelled_.load()], after what the other threads stored. *)
Definition load_cancelled k : bool * Impl R :=
  let now := cancelled_ k || default false (head (stores k)) in
  (now, with_cancelled now (tail (stores k)) k).

(** [src/src/Data/Redis/Connection.cpp:37-45] {cancel} The handler it posts is an event
    of the executor's next run. *)
Definition impl_cancel k : Impl R := with_cancelled true (stores k) k.

(** [src/src/Data/Redis/Connection.cpp:150-154] *)
Definition close k : Impl R := with_open false k.
(** [src/src/Data/Redis/Connection.cpp:156-165] *)
Definition finish (st : se_status) k : Impl R :=
  if finished_ k then k
  else
    let k := with_finished true st k in
    if decide (st = SE_OK) then k else close k.
(** [src/src/Data/Redis/Connection.cpp:177-185] {begin} *)
Definition begin k : Impl R := with_finished false SE_OK k.

(** [src/src/Data/Redis/Connection.cpp:244-267] {check_header} *)
Fixpoint check_bytes (l : bytes) k : bool * Impl R :=
  match l with
  | [] => (true, k)
  | b :: rest =>
      if 4096 <=? zlen (header_ k) then (false, finish SE_RESULT_TOO_LARGE k)
      else
        let h := header_ k ++ [b] in
        let k := with_header h (header_checked_ k) k in
        let count := length h in
        if (zlen h <? 2) || negb (bool_decide (h !! (count - 2)%nat = Some x0d))
           || negb (bool_decide (h !! (count - 1)%nat = Some x0a))
        then check_bytes rest k
        else
          let k := with_header h true k in
          if bool_decide (h !! 0%nat = Some x24) then
            match from_chars (- 2 ^ 63) (2 ^ 63 - 1) (drop 1 (take (count - 2) h)) with
            | Some (len, []) =>
                if len <? -1 then (false, finish SE_IO_ERROR k)
                else if (0 <=? len) && (bulk_limit_ k <? u64 len)
                then (false, finish SE_RESULT_TOO_LARGE k)
                else (true, k)
            | _ => (false, finish SE_IO_ERROR k)
            end
          else (true, k)
  end.
(** [src/src/Data/Redis/Connection.cpp:241-268] *)
Definition check_header (l : bytes) k : bool * Impl R :=
  if header_checked_ k then (true, k) else check_bytes l k.

(** [src/src/Data/Redis/Connection.cpp:275-276] {read_reply} *)
Definition scalar_reply (b : option byte) : bool :=
  match b with Some x2b | Some x2d | Some x3a | Some x24 => true | _ => false end.

(** [src/src/Data/Redis/Connection.cpp:270-302] {read_reply} The handler; a further
    read keeps the phase. The buffer takes at most its size. *)
Definition on_read (error : bool) (data : bytes) k : Impl R :=
  if error then finish SE_IO_ERROR k
  else
    let data := take 4096 data in
    let k := with_incoming (data ++ drop (length data) (incoming_ k)) (received_ k) k in
    if (received_ k =? 0) && negb (scalar_reply (head (incoming_ k))) then finish SE_IO_ERROR k
    else if u64 (reply_limit_ k - received_ k) <? zlen data then finish SE_RESULT_TOO_LARGE k
    else
      let k := with_incoming (incoming_ k) (u64 (received_ k + zlen data)) k in
      let '(ok, k) := check_header data k in
      if negb ok then k
      else match reader_ k with
      | None => k
      | Some r =>
          match readerFeed r data with
          | None => finish SE_IO_ERROR (with_reader (reader_ k) (reply_ k) (fed k ++ data) k)
          | Some r =>
              let k := with_reader (Some r) (reply_ k) (fed k ++ data) k in
              match readerGetReply r with
              | None => finish SE_IO_ERROR k
              | Some (None, r) => with_phase Reading (with_reader (Some r) (reply_ k) (fed k) k)
              | Some (Some p, r) =>
                  let k := with_reader (Some r) (Some p) (fed k) k in
                  if at_end r then finish SE_OK k else finish SE_IO_ERROR k
              end
          end
      end.

(** [src/src/Data/Redis/Connection.cpp:231-235] {command} The write's handler. *)
Definition on_written (error : bool) k : Impl R :=
  if error then finish SE_IO_ERROR k else with_phase Reading k.
(** [src/src/Data/Redis/Connection.cpp:196-197] {connect} The connect's handler. *)
Definition on_connected (error : bool) k : Impl R := finish (if error then SE_IO_ERROR else SE_OK) k.

(** [src/src/Data/Redis/Connection.cpp:167-175] {guarded} One handler; those of a
    finished operation do nothing, a posted cancellation always closes. *)
Definition handle (e : Event) k : Impl R :=
  match e with
  | Cancelled => close (finish SE_STOPPED (with_cancelled true (stores k) k))
  | Deadline => if finished_ k then k else finish SE_TIMEOUT k
  | Finished error data =>
      if finished_ k then k
      else match phase k with
      | Idle => k
      | Connecting => on_connected error k
      | Writing => on_written error k
      | Reading => on_read error data k
      end
  end.

(** [src/src/Data/Redis/Connection.cpp:187-191] The executor runs until nothing is
    pending: an operation the events leave unfinished meets its deadline. *)
Definition drain k : Impl R :=
  let k' := foldl (λ k e, handle e k) (with_runs (tail (runs_ahead k)) k) (default [] (head (runs_ahead k))) in
  if finished_ k' then k' else finish SE_TIMEOUT k'.

(** [src/src/Data/Redis/Connection.cpp:193-201] [None] is the exception of a bad address. *)
Definition connect k : option se_status * Impl R :=
  let k := begin k in
  if make_address (address options) then
    let k := drain (with_phase Connecting (with_open true k)) in
    let '(stopped, k) := load_cancelled k in
    if stopped then (Some SE_STOPPED, close k) else (Some (status_ k), k)
  else (None, k).

(** [src/src/Data/Redis/Connection.cpp:203-207] *)
Definition is_ok k : bool :=
  match reply_ k with
  | Some p => bool_decide (type p = REPLY_STATUS) && bool_decide (str p = txt "OK")
  | None => false
  end.

(** [src/src/Data/Redis/Connection.cpp:220-235] {command} The command is under way. *)
Definition start_command (encoded : bytes) (r : R) (maximum_reply : Z) k : Impl R :=
  mkImpl (is_open k) Writing (cancelled_ k) false SE_OK (incoming_ k) 0 maximum_reply
    (if 4096 <? maximum_reply then u64 (maximum_reply - 4096) else 0) [] false (Some r) None
    (sent k ++ [encoded]) [] (stores k) (runs_ahead k).
(** [src/src/Data/Redis/Connection.cpp:209-239] *)
Definition command (arguments : list bytes) (maximum_reply : Z) k : se_status * Impl R :=
  let '(stopped, k) := load_cancelled k in
  if stopped then (SE_STOPPED, k)
  else match formatCommandArgv arguments with
  | None => (SE_INTERNAL_ERROR, k)
  | Some encoded =>
      match readerCreate with
      | None => (SE_INTERNAL_ERROR, with_reader None (reply_ k) (fed k) k)
      | Some r => let k := drain (start_command encoded r maximum_reply k) in (status_ k, k)
      end
  end.

(** [src/src/Data/Redis/Connection.cpp:63-65] {execute} *)
Definition auth_arguments : list bytes :=
  txt "AUTH" :: (if bool_decide (username options = []) then [] else [username options])
  ++ [password options].
(** [src/src/Data/Redis/Connection.cpp:76-91] {execute} *)
Definition request_arguments (r : Request) : list bytes :=
  let operation := operation (completion r) in
  if operation =? SE_REDIS_GET then [txt "GET"; key r]
  else if operation =? SE_REDIS_DELETE then [txt "DEL"; key r]
  else [txt "SET"; key r; value r] ++ (if ttl_ms r =? 0 then [] else [txt "PX"; dec (ttl_ms r)]).

Definition set_content (v : bytes) (c : Completion) : Completion :=
  mkCompletion (request_id c) (operation c) (status c) (found c) (affected_count c) v (message c).
Definition set_found (c : Completion) : Completion :=
  mkCompletion (request_id c) (operation c) (status c) true (affected_count c) (content c) (message c).
Definition set_affected (n : Z) (c : Completion) : Completion :=
  mkCompletion (request_id c) (operation c) (status c) (found c) n (content c) (message c).

(** [src/src/Data/Redis/Connection.cpp:56-74] {execute} A socket and a session, or the
    completion's failure; [None] is an exception. *)
Definition establish k : option (option (se_status * bytes)) * Impl R :=
  if is_open k then (Some None, k)
  else match connect k with
  | (None, k) => (None, k)
  | (Some connected, k) =>
      if negb (bool_decide (connected = SE_OK))
      then (Some (Some (connected, txt "Redis connection failed or was cancelled")), k)
      else if bool_decide (password options = []) then (Some None, k)
      else
        let '(authenticated, k) := command auth_arguments 4096 k in
        if negb (bool_decide (authenticated = SE_OK)) || negb (is_ok k)
        then (Some (Some (if decide (authenticated = SE_OK) then SE_IO_ERROR else authenticated,
                          txt "Redis authentication failed or was cancelled")), close k)
        else (Some None, k)
  end.

(** [src/src/Data/Redis/Connection.cpp:107-138] {execute} What a reply means. *)
Definition conclude (c : Completion) k : Completion * Impl R :=
  match reply_ k with
  | None => (c, k)
  | Some p =>
      if bool_decide (type p = REPLY_ERROR)
      then (fail SE_IO_ERROR (txt "Redis rejected the command; check ACL and key type") c, k)
      else if operation c =? SE_REDIS_GET then
        if bool_decide (type p = REPLY_NIL) then (c, k)
        else if negb (bool_decide (type p = REPLY_STRING))
        then (fail SE_IO_ERROR (txt "Redis GET returned an unexpected reply type") c, close k)
        else if max_value_bytes options <? zlen (str p)
        then (fail SE_RESULT_TOO_LARGE (txt "Redis value exceeds max_value_bytes") c, k)
        else (set_found (if zlen (str p) =? 0 then c else set_content (str p) c), k)
      else if operation c =? SE_REDIS_DELETE then
        if negb (bool_decide (type p = REPLY_INTEGER)) || (integer p <? 0) || (1 <? integer p)
        then (fail SE_OUTCOME_UNKNOWN (txt "Redis DELETE returned an unexpected reply") c, close k)
        else (set_affected (u64 (integer p)) c, k)
      else if is_ok k then (set_affected 1 c, k)
      else (fail SE_OUTCOME_UNKNOWN (txt "Redis SET returned an unexpected reply") c, close k)
  end.

(** [src/src/Data/Redis/Connection.cpp:47-147] {execute} The completion it leaves; the
    exception of [establish] is before a write may have started. *)
Definition impl_execute (r : Request) k : Completion * Impl R :=
  let c := completion r in
  let before := txt "Redis request cancelled before execution" in
  let '(stopped, k) := load_cancelled k in
  if stopped then (fail SE_STOPPED before c, k)
  else match establish k with
  | (None, k) =>
      (fail SE_INTERNAL_ERROR (txt "Redis client failed locally") c, drain (close (finish SE_INTERNAL_ERROR k)))
  | (Some (Some (code, text)), k) => (fail code text c, k)
  | (Some None, k) =>
      let '(stopped, k) := load_cancelled k in
      if stopped then (fail SE_STOPPED before c, k)
      else
        let write_may_have_started := negb (operation c =? SE_REDIS_GET) in
        let '(st, k) := command (request_arguments r) (max_value_bytes options + 4096) k in
        if negb (bool_decide (st = SE_OK)) then
          (if write_may_have_started
           then fail SE_OUTCOME_UNKNOWN (txt "Redis write outcome unknown; reconcile before retrying") c
           else fail st (txt "Redis read failed, exceeded its limit, timed out or was cancelled") c, k)
        else conclude c k
  end.
End Connection.
