(* ===== verification/RedisReplies.v ===== *)
(** RedisReplies: what the Redis connection guarantees of a command, whatever the
    peer, the clock and the other threads do: what it sends, what outcome it reports,
    and how much of a reply reaches the parser; and the laws the service relies on. *)
From S2P Require Import Prelude.
From S2P Require Import Text.
From S2P Require Import NetTypes.
From S2P Require Import RedisService.
From S2P Require Import RedisConnection.

(** The shortest prefix that ends a line. *)
Fixpoint first_line (l : bytes) : option bytes :=
  match l with
  | [] => None
  | b :: rest =>
      if bool_decide (b = x0d) && bool_decide (head rest = Some x0a) then Some [x0d; x0a]
      else (λ h, b :: h) <$> first_line rest
  end.
(** The source's test, on the bytes gathered so far. *)
Definition ends_line (h : bytes) : bool :=
  negb ((zlen h <? 2) || negb (bool_decide (h !! (length h - 2)%nat = Some x0d))
        || negb (bool_decide (h !! (length h - 1)%nat = Some x0a))).

Lemma first_line_app l m h : first_line l = Some h → first_line (l ++ m) = Some h.
Proof.
  revert h. induction l as [|b l IH]; intros h Hl; [done|]. simpl in *.
  destruct l as [|c l].
  { simpl in Hl. by rewrite andb_false_r in Hl. }
  simpl head in *. destruct (_ && _); [done|].
  destruct (first_line (c :: l)) as [h'|]; [|done]. injection Hl as <-.
  by rewrite (IH h' eq_refl).
Qed.

Lemma ends_line_cons a l : (2 ≤ length l)%nat → ends_line (a :: l) = ends_line l.
Proof.
  intros Hl. unfold ends_line. destruct l as [|x [|y l]]; simpl in Hl; [lia..|].
  rewrite !(proj2 (Z.ltb_ge _ _)) by (rewrite !zlen_cons; pose proof (zlen_nonneg l); lia).
  simpl. by rewrite !Nat.sub_0_r.
Qed.

Lemma first_line_snoc h b : first_line h = None →
  first_line (h ++ [b]) = if ends_line (h ++ [b]) then Some (h ++ [b]) else None.
Proof.
  induction h as [|a h IH]; intros Hn; [simpl; by rewrite andb_false_r|].
  destruct h as [|c h].
  - unfold ends_line. simpl. destruct (decide (a = x0d)) as [->|Ha], (decide (b = x0a)) as [->|Hb]; try done.
    all: rewrite ?(bool_decide_eq_false_2 (a = x0d)), ?(bool_decide_eq_false_2 (Some a = Some x0d)),
      ?(bool_decide_eq_false_2 (Some b = Some x0a)) by congruence; simpl; by rewrite ?andb_false_r, ?orb_true_r.
  - simpl in Hn. destruct (_ && _) eqn:E; [done|].
    destruct (first_line (c :: h)) eqn:Hh; simpl in Hh; rewrite Hh in Hn; [done|].
    specialize (IH eq_refl).
    change ((a :: c :: h) ++ [b]) with (a :: ((c :: h) ++ [b])).
    rewrite ends_line_cons by (rewrite length_app; simpl; lia).
    cbn [first_line]. rewrite IH. change (head ((c :: h) ++ [b])) with (Some c). rewrite E.
    by destruct (ends_line _).
Qed.

(** The first line of a reply, when it announces a bulk string: its length is a
    number, and no larger than [bulk]. *)
Definition line_good (bulk : Z) (line : bytes) : Prop :=
  line !! 0%nat = Some x24 →
  ∃ n, from_chars (- 2 ^ 63) (2 ^ 63 - 1) (drop 1 (take (length line - 2) line)) = Some (n, []) ∧
    -1 ≤ n ≤ bulk.
(** What the header gathered says of the bytes of the reply so far. *)
Definition header_says (bulk : Z) (data h : bytes) (checked : bool) : Prop :=
  zlen h ≤ 4096 ∧
  if checked then first_line data = Some h ∧ line_good bulk h else first_line data = None ∧ h = data.
(** The bytes of a reply the parser may be given. *)
Definition feedable (limit bulk : Z) (data : bytes) : Prop :=
  zlen data ≤ limit ∧ zlen (default data (first_line data)) ≤ 4096 ∧
  ∀ line, first_line data = Some line → line_good bulk line.

Section Replies.
Context {R : Type} `{Hiredis R} (options : Options).
Implicit Types k : Impl R.

Lemma with_header_same k : with_header (header_ k) (header_checked_ k) k = k.
Proof. by destruct k. Qed.

Lemma check_bytes_spec l : ∀ k,
  header_says (bulk_limit_ k) (header_ k) (header_ k) false → header_checked_ k = false → 0 ≤ bulk_limit_ k →
  let '(ok, k') := check_bytes l k in ∃ h c,
  if ok : bool then k' = with_header h c k ∧ header_says (bulk_limit_ k) (header_ k ++ l) h c
  else ∃ st, st ≠ SE_OK ∧ k' = finish st (with_header h c k).
Proof.
  induction l as [|b l IH]; intros k (Hlen & Hnone & _) Hc Hb; simpl.
  { exists (header_ k), false. rewrite app_nil_r. rewrite <- Hc at 1. by rewrite with_header_same. }
  destruct (4096 <=? _) eqn:Hfull.
  { exists (header_ k), false, SE_RESULT_TOO_LARGE. rewrite <- Hc at 1. by rewrite with_header_same. }
  bprop. set (h := header_ k ++ [b]).
  assert (zlen h ≤ 4096) as Hh by (unfold h; rewrite zlen_app; change (zlen [b]) with 1; lia).
  pose proof (first_line_snoc _ b Hnone) as Hfl. fold h in Hfl. unfold ends_line in Hfl.
  destruct (_ || _) eqn:Hend.
  - specialize (IH (with_header h (header_checked_ k) k)). simpl in IH, Hfl. rewrite Hc in *.
    destruct (check_bytes l _) as [ok k']. destruct IH as (h' & c & Hr); [done..|].
    exists h', c. replace (header_ k ++ b :: l) with (h ++ l) by (unfold h; by rewrite <- app_assoc).
    by destruct ok.
  - simpl in Hfl. assert (first_line (header_ k ++ b :: l) = Some h) as Hall.
    { replace (header_ k ++ b :: l) with (h ++ l) by (unfold h; by rewrite <- app_assoc).
      by apply first_line_app. }
    assert (∀ st, st ≠ SE_OK → ∃ h' c st', st' ≠ SE_OK ∧
      finish st (with_header h true (with_header h (header_checked_ k) k)) = finish st' (with_header h' c k)) as Hbad.
    { intros st Hst. by exists h, true, st. }
    destruct (bool_decide (h !! 0%nat = Some x24)) eqn:Hd; bprop.
    + destruct (from_chars _ _ _) as [[n [|]]|] eqn:Hn; [|by apply Hbad..].
      destruct (n <? -1) eqn:H1; [by apply Hbad|].
      destruct (_ && _) eqn:H2; [by apply Hbad|]. exists h, true.
      split; [done|]. split; [done|]. split; [done|].
      intros _. exists n. split; [done|]. apply from_chars_range in Hn. bprop. simpl in H2.
      destruct (decide (0 ≤ n)); [|lia]. rewrite u64_small in H2 by (unfold is_u64; lia).
      destruct H2; bprop; lia.
    + exists h, true. split; [done|]. split; [done|]. split; [done|]. intros ?. congruence.
Qed.

(** Between the start of a command and its end: the bytes given to the parser are
    feedable, and while the command runs the counters and the header describe them;
    an operation that ended well has its reply. *)
Definition in_command (limit bulk : Z) k : Prop :=
  0 ≤ limit < 2 ^ 64 ∧ 0 ≤ bulk ∧ reply_limit_ k = limit ∧ bulk_limit_ k = bulk ∧
  feedable limit bulk (fed k) ∧ phase k ≠ Connecting ∧
  if finished_ k then (status_ k = SE_OK → is_Some (reply_ k))
  else is_Some (reader_ k) ∧ received_ k = zlen (fed k) ∧ header_says bulk (fed k) (header_ k) (header_checked_ k).

Lemma finish_fields st k : finished_ k = false → finish st k =
  (if decide (st = SE_OK) then with_finished true st k else close (with_finished true st k)).
Proof. unfold finish. by intros ->. Qed.

Lemma in_command_finish limit bulk st k :
  in_command limit bulk k → st ≠ SE_OK ∨ is_Some (reply_ k) → in_command limit bulk (finish st k).
Proof.
  intros (Hl & Hb & Hrl & Hbl & Hf & Hp & Hs) Hst. unfold finish. destruct (finished_ k) eqn:Hfin.
  { unfold in_command. rewrite Hfin. split_and!; try done; lia. }
  unfold in_command. destruct (decide (st = SE_OK)) as [->|Hn]; simpl; split_and!; try done; try apply Hf; try exact Hp; try lia.
  intros _. by destruct Hst; [congruence|].
Qed.

(** A command that ends badly needs the parser's log alone. *)
Lemma in_command_failed limit bulk st k :
  0 ≤ limit < 2 ^ 64 → 0 ≤ bulk → reply_limit_ k = limit → bulk_limit_ k = bulk →
  feedable limit bulk (fed k) → phase k ≠ Connecting → finished_ k = false → st ≠ SE_OK →
  in_command limit bulk (finish st k).
Proof.
  intros. unfold in_command. rewrite finish_fields by done. rewrite decide_False by done. simpl.
  by split_and!; try lia; try assumption.
Qed.

Lemma feedable_extend limit bulk data k h c :
  header_says bulk (fed k ++ data) h c → zlen (fed k) + zlen data ≤ limit →
  feedable limit bulk (fed k ++ data).
Proof.
  intros [Hh Hs] Hlen. unfold feedable. rewrite zlen_app. destruct c.
  - destruct Hs as [-> Hgood]. split_and!; [done|done|]. by intros ? [= <-].
  - destruct Hs as [-> ->]. split_and!; done.
Qed.

Lemma check_header_spec data k :
  header_says (bulk_limit_ k) (fed k) (header_ k) (header_checked_ k) → 0 ≤ bulk_limit_ k →
  let '(ok, k') := check_header data k in ∃ h c,
  if ok : bool then k' = with_header h c k ∧ header_says (bulk_limit_ k) (fed k ++ data) h c
  else ∃ st, st ≠ SE_OK ∧ k' = finish st (with_header h c k).
Proof.
  intros Hs Hb. unfold check_header. destruct (header_checked_ k) eqn:Hc.
  - exists (header_ k), true. rewrite <- Hc at 1. rewrite with_header_same. split; [done|].
    destruct Hs as (? & Hl & Hg). split; [done|]. split; [by apply first_line_app|done].
  - pose proof Hs as (Hlen & Hn & Hh). rewrite <- Hh.
    apply check_bytes_spec; [by rewrite Hh in *|done|done].
Qed.

Lemma in_command_read limit bulk e data k :
  in_command limit bulk k → finished_ k = false → in_command limit bulk (on_read e data k).
Proof.
  intros Hk Hfin. unfold on_read. destruct e; [by apply in_command_finish; [|left]|].
  set (got := take 4096 data). set (k1 := with_incoming _ _ k).
  assert (in_command limit bulk k1) as Hk1 by exact Hk.
  assert (finished_ k1 = false) as Hf1 by exact Hfin. clearbody k1. clear k Hk Hfin.
  destruct (_ && _); [by apply in_command_finish; [|left]|].
  destruct (_ <? _) eqn:Hsz; [by apply in_command_finish; [|left]|]. bprop.
  pose proof Hk1 as (Hl & Hb & Hrl & Hbl & Hf & Hp & Hs). rewrite Hf1 in Hs. destruct Hs as ([r Hrd] & Hr & Hh).
  pose proof (zlen_nonneg (fed k1)). pose proof (zlen_nonneg got). pose proof (proj1 Hf).
  rewrite Hrl, Hr, u64_small in Hsz by (unfold is_u64; lia).
  set (k2 := with_incoming _ _ k1).
  pose proof (check_header_spec got k2) as Hc. simpl in Hc. rewrite Hbl in Hc. specialize (Hc Hh Hb).
  destruct (check_header got k2) as [ok k3]. destruct Hc as (h & c & Hc). destruct ok; simpl.
  2: { destruct Hc as (st & Hst & ->). by apply in_command_failed. }
  destruct Hc as [-> Hsays]. simpl.
  assert (feedable limit bulk (fed k1 ++ got)) as Hfd by (eapply feedable_extend; [done|lia]).
  rewrite Hrd.
  assert (∀ st p k', fed k' = fed k1 ++ got → reply_limit_ k' = limit → bulk_limit_ k' = bulk →
    phase k' = phase k1 → finished_ k' = false → reply_ k' = p → st ≠ SE_OK ∨ is_Some p →
    in_command limit bulk (finish st k')) as Hend.
  { intros st p k' E1 E2 E3 E4 E5 E6 Hst. unfold in_command. rewrite finish_fields by done.
    destruct (decide (st = SE_OK)); simpl; rewrite E1, E2, E3, E4, E6; split_and!; try done; try apply Hfd; try exact Hp; try lia.
    intros _. by destruct Hst; [congruence|]. }
  destruct (readerFeed r got) as [r'|]; [|by eapply Hend; [..|left]].
  destruct (readerGetReply r') as [[[p|] r'']|]; simpl.
  - destruct (at_end r''); [eapply Hend; simpl; eauto|by eapply Hend; [..|left]].
  - unfold in_command; simpl. rewrite Hf1, zlen_app, u64_small by (unfold is_u64; lia).
    split_and!; eauto; try apply Hfd; try lia; try apply Hsays.
  - by eapply Hend; [..|left].
Qed.

Lemma in_command_handle limit bulk e k : in_command limit bulk k → in_command limit bulk (handle e k).
Proof.
  intros Hk. destruct e as [err data| |]; simpl.
  - destruct (finished_ k) eqn:Hf; [done|]. destruct (phase k) eqn:Hp; [done| | |by apply in_command_read].
    + by destruct Hk as (_ & _ & _ & _ & _ & ? & _).
    + unfold on_written. destruct err; [by apply in_command_finish; [|left]|].
      destruct Hk as (?&?&?&?&?&?&Hs). unfold in_command; simpl. rewrite Hf in *. split_and!; try lia; try done; apply Hs.
  - destruct (finished_ k); [done|]. by apply in_command_finish; [|left].
  - apply (in_command_finish limit bulk SE_STOPPED (with_cancelled true (stores k) k)) in Hk; [|by left].
    exact Hk.
Qed.

Lemma in_command_events limit bulk l k :
  in_command limit bulk k → in_command limit bulk (foldl (λ k e, handle e k) k l).
Proof. revert k. induction l as [|e l IH]; intros k Hk; [done|]. by apply IH, in_command_handle. Qed.

Lemma in_command_drain limit bulk k :
  in_command limit bulk k → in_command limit bulk (drain k) ∧ finished_ (drain k) = true.
Proof.
  intros Hk. unfold drain. set (k' := foldl _ _ _).
  assert (in_command limit bulk k') as Hk' by (by apply in_command_events).
  clearbody k'. destruct (finished_ k') eqn:Hf; [done|].
  split; [by apply in_command_finish; [|left]|]. by rewrite finish_fields by done.
Qed.

Lemma in_command_start encoded r limit k :
  0 ≤ limit < 2 ^ 64 → in_command limit (Z.max 0 (limit - 4096)) (start_command encoded r limit k).
Proof.
  intros Hl. unfold in_command, start_command, feedable, header_says; simpl.
  split_and!; try done; try lia; eauto; [|rewrite zlen_nil; lia].
  destruct (4096 <? limit) eqn:E; bprop; [rewrite u64_small by (unfold is_u64; lia)|]; lia.
Qed.

(** ** What reaches the socket *)
Lemma sent_finish st k : sent (finish st k) = sent k.
Proof. unfold finish. repeat casematch; done. Qed.
Lemma sent_check_bytes l : ∀ k, sent (check_bytes l k).2 = sent k.
Proof.
  induction l as [|b l IH]; intros k; simpl; [done|].
  repeat casematch; simpl; rewrite ?IH, ?sent_finish; done.
Qed.
Lemma sent_read e data k : sent (on_read e data k) = sent k.
Proof.
  unfold on_read. destruct e; [apply sent_finish|]. set (got := take 4096 data).
  set (k1 := with_incoming _ _ k). change (sent k) with (sent k1). clearbody k1 got.
  destruct (_ && _); [apply sent_finish|]. destruct (_ <? _); [apply sent_finish|].
  set (k2 := with_incoming _ _ k1). change (sent k1) with (sent k2). clearbody k2.
  assert (sent (check_header got k2).2 = sent k2) as Hc.
  { unfold check_header. destruct (header_checked_ k2); [done|apply sent_check_bytes]. }
  destruct (check_header got k2) as [ok k3]. simpl in Hc. rewrite <- Hc.
  destruct ok; [|done]. simpl. destruct (reader_ k3) as [r|]; [|done].
  destruct (readerFeed r got) as [r'|]; [|by rewrite sent_finish].
  destruct (readerGetReply r') as [[[p|] r'']|]; [|done|by rewrite sent_finish].
  destruct (at_end r''); by rewrite sent_finish.
Qed.
Lemma sent_handle e k : sent (handle e k) = sent k.
Proof.
  unfold handle, on_connected, on_written. destruct e as [err data| |].
  - destruct (finished_ k); [done|]. destruct (phase k); [done|apply sent_finish| |apply sent_read].
    by destruct err; [apply sent_finish|].
  - by destruct (finished_ k); [|apply sent_finish].
  - simpl. by rewrite sent_finish.
Qed.
Lemma sent_drain k : sent (drain k) = sent k.
Proof.
  unfold drain. set (k' := foldl _ _ _).
  assert (sent k' = sent k) as <-.
  { subst k'. change (sent k) with (sent (with_runs (tail (runs_ahead k)) k)).
    generalize (with_runs (tail (runs_ahead k)) k). generalize (default [] (head (runs_ahead k))).
    intros l. induction l as [|e l IH]; intros k'; [done|]. simpl. by rewrite IH, sent_handle. }
  by destruct (finished_ k'); [|apply sent_finish].
Qed.

(** A command is not sent, or sent once: then what it fed the parser is bounded, and
    if it ends well its reply is there. *)
Lemma command_cases arguments limit k :
  0 ≤ limit < 2 ^ 64 →
  let '(st, k') := command arguments limit k in
  (st ≠ SE_OK ∧ sent k' = sent k ∧ fed k' = fed k) ∨
  (∃ e, formatCommandArgv arguments = Some e ∧ sent k' = sent k ++ [e] ∧
    feedable limit (Z.max 0 (limit - 4096)) (fed k') ∧ (st = SE_OK → is_Some (reply_ k'))).
Proof.
  intros Hl. unfold command. simpl.
  destruct (_ || _); [by left|]. destruct (formatCommandArgv arguments) as [e|]; [|by left].
  destruct readerCreate as [r|]; [|by left]. right. exists e.
  set (k1 := with_cancelled _ _ k).
  pose proof (in_command_start e r limit k1 Hl) as Hs. apply in_command_drain in Hs as [Hs Hf].
  rewrite sent_drain. destruct Hs as (_ & _ & _ & _ & Hfd & _ & Hs). by rewrite Hf in Hs.
Qed.

(** The connection is there, or why not; at most the authentication was sent. *)
Lemma establish_cases k :
  let '(res, k') := establish options k in
  (sent k' = sent k ∨ ∃ e, formatCommandArgv (auth_arguments options) = Some e ∧ sent k' = sent k ++ [e]) ∧
  match res with Some (Some (code, _)) => code ≠ SE_OK | _ => True end.
Proof.
  unfold establish. destruct (is_open k); [by auto|]. unfold connect.
  destruct (make_address _); [|by auto]. simpl.
  set (k0 := drain _). assert (sent k0 = sent k) as Hk0 by (unfold k0; by rewrite sent_drain).
  clearbody k0. set (k1 := with_cancelled _ _ k0). assert (sent k1 = sent k) as Hk1 by exact Hk0.
  destruct (_ || _); simpl; [by split; [left|]|].
  destruct (bool_decide (status_ k0 = SE_OK)) eqn:Hst; bprop; simpl; [|by split; [left|]].
  destruct (bool_decide (password options = [])); [by split; [left|]|].
  pose proof (command_cases (auth_arguments options) 4096 k1 ltac:(lia)) as Hc.
  destruct (command _ _ k1) as [st k2].
  assert (sent k2 = sent k ∨ ∃ e, formatCommandArgv (auth_arguments options) = Some e ∧
    sent k2 = sent k ++ [e]) as Hsent.
  { rewrite Hk1 in Hc. destruct Hc as [(_ & Hc & _)|(e & He & Hc & _)]; eauto. }
  destruct (_ || _); simpl; [|done]. split; [done|]. by destruct (decide (st = SE_OK)).
Qed.

(** ** Outcomes *)
Definition pristine (c : Completion) : Prop :=
  status c = SE_OK ∧ found c = false ∧ affected_count c = 0 ∧ content c = [].
(** What each operation's reply means to the caller. *)
Definition answered (op : Z) (p : Reply) (c : Completion) : Prop :=
  if decide (type p = REPLY_ERROR) then status c = SE_IO_ERROR
  else if op =? SE_REDIS_GET then
    match type p with
    | REPLY_NIL => status c = SE_OK ∧ found c = false ∧ content c = []
    | REPLY_STRING =>
        if zlen (str p) <=? max_value_bytes options
        then status c = SE_OK ∧ found c = true ∧ content c = str p
        else status c = SE_RESULT_TOO_LARGE
    | _ => status c = SE_IO_ERROR
    end
  else if op =? SE_REDIS_DELETE then
    (status c = SE_OK ∧ type p = REPLY_INTEGER ∧ affected_count c = integer p ∧ 0 ≤ integer p ≤ 1) ∨
    status c = SE_OUTCOME_UNKNOWN
  else
    (status c = SE_OK ∧ type p = REPLY_STATUS ∧ str p = txt "OK" ∧ affected_count c = 1) ∨
    status c = SE_OUTCOME_UNKNOWN.

Lemma conclude_answered c k p : reply_ k = Some p → pristine c →
  let '(c', k') := conclude options c k in
  answered (operation c) p c' ∧ reply_ k' = reply_ k ∧ sent k' = sent k ∧ fed k' = fed k.
Proof.
  intros Hp (H1 & H2 & H3 & H4). unfold conclude, answered, is_ok. rewrite Hp.
  destruct (decide (type p = REPLY_ERROR)) as [He|He].
  { by rewrite bool_decide_eq_true_2 by done. }
  rewrite bool_decide_eq_false_2 by done. destruct (operation c =? SE_REDIS_GET).
  { destruct (type p) eqn:Ht; try done; simpl.
    rewrite Z.leb_antisym. destruct (_ <? _); [done|]. simpl. destruct (zlen (str p) =? 0) eqn:Hz; bprop; simpl; [|done].
    apply zlen_zero in Hz. by rewrite Hz. }
  destruct (operation c =? SE_REDIS_DELETE).
  { destruct (_ || _) eqn:E; simpl; [by auto|]. bprop. rewrite H1, u64_small by (unfold is_u64; lia).
    split; [left; repeat split; auto; lia|done]. }
  destruct (_ && _) eqn:E; simpl; [|by auto]. bprop. rewrite H1. by split; [left|].
Qed.

Lemma execute_cases r k :
  0 ≤ max_value_bytes options < 2 ^ 32 → pristine (completion r) →
  let '(c, k') := impl_execute options r k in ∃ auth cmd,
  sent k' = sent k ++ auth ++ cmd ∧
  (auth = [] ∨ ∃ a, formatCommandArgv (auth_arguments options) = Some a ∧ auth = [a]) ∧
  (cmd = [] ∧ status c ≠ SE_OK ∨
   ∃ e, formatCommandArgv (request_arguments r) = Some e ∧ cmd = [e] ∧
     (status c ≠ SE_OK ∧ (operation (completion r) ≠ SE_REDIS_GET → status c = SE_OUTCOME_UNKNOWN) ∨
      ∃ p, reply_ k' = Some p ∧ answered (operation (completion r)) p c)).
Proof.
  intros Hm Hp. unfold impl_execute. simpl. set (k1 := with_cancelled _ _ k).
  assert (sent k1 = sent k) as Hk1 by done. clearbody k1.
  destruct (_ || _); [simpl; exists [], []; rewrite !app_nil_r; auto|].
  pose proof (establish_cases k1) as He. destruct (establish options k1) as [res k2].
  rewrite Hk1 in He. destruct He as [Hs Hcode].
  assert (∃ auth, sent k2 = sent k ++ auth ∧
    (auth = [] ∨ ∃ a, formatCommandArgv (auth_arguments options) = Some a ∧ auth = [a])) as (auth & Hk2 & Hauth).
  { destruct Hs as [->|(a & Ha & ->)]; [exists []; rewrite app_nil_r|exists [a]]; eauto. }
  destruct res as [[[code text]|]|].
  - exists auth, []. rewrite app_nil_r. auto.
  - simpl. set (k3 := with_cancelled _ _ k2). assert (sent k3 = sent k2) as Hk3 by done. clearbody k3.
    destruct (_ || _); [simpl; exists auth, []; rewrite app_nil_r, Hk3; auto|].
    pose proof (command_cases (request_arguments r) (max_value_bytes options + 4096) k3 ltac:(lia)) as Hc.
    destruct (command _ _ k3) as [st k4]. destruct Hc as [(Hst & Hk4 & _)|(e & Hfmt & Hk4 & _ & Hrep)].
    + rewrite bool_decide_eq_false_2 by done. simpl. exists auth, []. rewrite app_nil_r, Hk4, Hk3.
      split_and!; auto. left. by destruct (_ =? _).
    + destruct (bool_decide (st = SE_OK)) eqn:Hst; bprop; simpl.
      * destruct (Hrep Hst) as [p Hrp]. pose proof (conclude_answered _ k4 p Hrp Hp) as Hc.
        destruct (conclude options _ k4) as [c k5]. destruct Hc as (Hans & Hrp' & Hs' & _).
        exists auth, [e]. rewrite Hs', Hk4, Hk3, Hk2, <- app_assoc. rewrite Hrp', Hrp. split_and!; eauto 10.
      * exists auth, [e]. rewrite Hk4, Hk3, Hk2, <- app_assoc. split_and!; auto. right. exists e.
        split_and!; auto. left. destruct (_ =? SE_REDIS_GET) eqn:Hop; bprop; simpl; by split; [|intros].
  - exists auth, []. rewrite sent_drain. simpl. rewrite sent_finish, app_nil_r. auto.
Qed.

Lemma execute_keeps r k : let c := (impl_execute options r k).1 in
  request_id c = request_id (completion r) ∧ operation c = operation (completion r).
Proof.
  unfold impl_execute, conclude. simpl. destruct (_ || _); [done|].
  destruct (establish options _) as [[[[code text]|]|] k2]; [done| |done]. simpl.
  destruct (_ || _); [done|]. destruct (command _ _ _) as [st k4].
  destruct (negb _); [by destruct (negb _)|]. by repeat casematch.
Qed.
Lemma execute_value r k : 0 ≤ max_value_bytes options → content (completion r) = [] →
  let c := (impl_execute options r k).1 in
  (operation c = SE_REDIS_GET → zlen (content c) ≤ max_value_bytes options) ∧
  (operation c ≠ SE_REDIS_GET → content c = []).
Proof.
  intros Hm Hc. unfold impl_execute, conclude. simpl. destruct (_ || _); [by simpl; auto|].
  destruct (establish options _) as [[[[code text]|]|] k2]; [by simpl; auto| |by simpl; auto]. simpl.
  destruct (_ || _); [by simpl; auto|]. destruct (command _ _ _) as [st k4].
  destruct (negb _); [by destruct (negb _); simpl; auto|].
  repeat casematch; simpl in *; bprop; rewrite ?Hc; split; intros; done || lia || congruence.
Qed.

(** ** What a command guarantees *)
(** C35: A Redis request goes to the server at most once, after at most one
    authentication. If its command never reached the socket the request has failed;
    if it did, the request ends as the server's complete reply says, or fails, and
    a write that fails without a reply is always reported as of unknown outcome. *)
Theorem redis_request_sent_once r k :
  0 ≤ max_value_bytes options < 2 ^ 32 → pristine (completion r) →
  let '(c, k') := impl_execute options r k in ∃ auth cmd,
  sent k' = sent k ++ auth ++ cmd ∧
  (auth = [] ∨ ∃ a, formatCommandArgv (auth_arguments options) = Some a ∧ auth = [a]) ∧
  (cmd = [] ∧ status c ≠ SE_OK ∨
   ∃ e, formatCommandArgv (request_arguments r) = Some e ∧ cmd = [e] ∧
     (status c ≠ SE_OK ∧ (operation (completion r) ≠ SE_REDIS_GET → status c = SE_OUTCOME_UNKNOWN) ∨
      ∃ p, reply_ k' = Some p ∧ answered (operation (completion r)) p c)).
Proof. apply execute_cases. Qed.

(** Whatever the server sends for a command, in whatever pieces, the parser is
    given no more bytes than the command's limit, no first line above 4096 bytes, and
    no announcement of a bulk string that is malformed or longer than the value
    limit; a command that ends well has a complete reply. *)
Theorem redis_reply_bounded arguments limit k :
  0 ≤ limit < 2 ^ 64 →
  let '(st, k') := command arguments limit k in
  (st ≠ SE_OK ∧ sent k' = sent k ∧ fed k' = fed k) ∨
  (∃ e, formatCommandArgv arguments = Some e ∧ sent k' = sent k ++ [e] ∧
    feedable limit (Z.max 0 (limit - 4096)) (fed k') ∧ (st = SE_OK → is_Some (reply_ k'))).
Proof. apply command_cases. Qed.
End Replies.

(** ** The service's connection *)
(** [src/src/Data/Redis/Connection.cpp:330-333] {Connection} *)
#[export] Instance impl_connection {R} `{Hiredis R} {options : Options} : Connection (Impl R) := {
  execute r k := let '(c, k) := impl_execute options r k in (set_completion c r, k);
  cancel := impl_cancel;
}.
Section Laws.
Context {R : Type} `{Hiredis R} (options : Options) (Hvalue : 0 ≤ max_value_bytes options).
Lemma impl_laws :
  @ConnectionLaws (Impl R) (impl_connection (options := options)) (max_value_bytes options).
Proof.
  split; intros r k; simpl.
  - pose proof (execute_keeps options r k). by destruct (impl_execute options r k).
  - intros Hc. pose proof (execute_value options r k Hvalue Hc) as Hv.
    by destruct (impl_execute options r k).
Qed.
End Laws.

(** A parser of three fixed replies, to evaluate the connection with. *)
Module Three.
Definition reply_of (l : bytes) : option Reply :=
  if decide (l = txt "+OK" ++ [x0d; x0a]) then Some (mkReply REPLY_STATUS 0 (txt "OK"))
  else if decide (l = txt ":1" ++ [x0d; x0a]) then Some (mkReply REPLY_INTEGER 1 [])
  else if decide (l = txt "$1" ++ [x0d; x0a] ++ txt "v" ++ [x0d; x0a])
  then Some (mkReply REPLY_STRING 0 (txt "v"))
  else None.
#[global] Instance three : Hiredis bytes := {
  make_address _ := true;
  formatCommandArgv l := Some (concat l);
  readerCreate := Some [];
  readerFeed r l := Some (r ++ l);
  readerGetReply r := Some (reply_of r, r);
  at_end _ := true;
}.
Definition options : Options := mkOptions (txt "::1") [] (txt "pw") 6379 100 100 2 8 4 32 8.
Definition ok_reply : bytes := txt "+OK" ++ [x0d; x0a].
Definition request (op : Z) : Request :=
  mkRequest (txt "k") (txt "v") 0 4 (mkCompletion 1 op SE_OK false 0 [] []).
(** The server accepts the password, then leaves the write without an answer. *)
Definition silent : Impl bytes :=
  new_impl [] [[Finished false []]; [Finished false []; Finished false ok_reply]; [Finished false []]].
(** It announces more than the limit, in two pieces. *)
Definition greedy : Impl bytes :=
  new_impl [] [[Finished false []; Finished false (txt "$5"); Finished false [x0d; x0a]]].
End Three.

Lemma redis_request_sent_once_witness :
  let r := Three.request SE_REDIS_SET in
  (let '(c, k') := impl_execute Three.options r Three.silent in ∃ auth cmd,
   sent k' = sent Three.silent ++ auth ++ cmd ∧
   (auth = [] ∨ ∃ a, formatCommandArgv (auth_arguments Three.options) = Some a ∧ auth = [a]) ∧
   (cmd = [] ∧ status c ≠ SE_OK ∨
    ∃ e, formatCommandArgv (request_arguments r) = Some e ∧ cmd = [e] ∧
      (status c ≠ SE_OK ∧ (operation (completion r) ≠ SE_REDIS_GET → status c = SE_OUTCOME_UNKNOWN) ∨
       ∃ p, reply_ k' = Some p ∧ answered Three.options (operation (completion r)) p c))) ∧
  status (impl_execute Three.options r Three.silent).1 = SE_OUTCOME_UNKNOWN ∧
  sent (impl_execute Three.options r Three.silent).2 = [txt "AUTHpw"; txt "SETkv"].
Proof.
  split; [|by vm_compute].
  apply (redis_request_sent_once Three.options (Three.request SE_REDIS_SET) Three.silent).
  - simpl; lia.
  - done.
Defined.

Lemma redis_reply_bounded_witness :
  (let '(st, k') := command [txt "GET"; txt "k"] 4100 Three.greedy in
   (st ≠ SE_OK ∧ sent k' = sent Three.greedy ∧ fed k' = fed Three.greedy) ∨
   (∃ e, formatCommandArgv [txt "GET"; txt "k"] = Some e ∧ sent k' = sent Three.greedy ++ [e] ∧
     feedable 4100 (Z.max 0 (4100 - 4096)) (fed k') ∧ (st = SE_OK → is_Some (reply_ k')))) ∧
  (command [txt "GET"; txt "k"] 4100 Three.greedy).1 = SE_RESULT_TOO_LARGE ∧
  fed (command [txt "GET"; txt "k"] 4100 Three.greedy).2 = txt "$5".
Proof.
  split; [|by vm_compute].
  apply (redis_reply_bounded [txt "GET"; txt "k"] 4100 Three.greedy). lia.
Defined.
