(* ===== verification/RedisAbi.v ===== *)
(** RedisAbi: the handle registry and the C entry points of the Redis service
    ([src/src/Abi/Redis.cpp]), over any connection. *)
From S2P Require Import Prelude.
From S2P Require Import Text.
From S2P Require Import NetTypes.
From S2P Require Import Abi.
From S2P Require Import RedisService.
From S2P Require Import RedisProperties.

Abbreviation abi_fail := Abi.fail.

(** [src/include/ServerEngine/C/Redis.h:20-37] *)
Record se_redis_options := mkRedisOptions {
  ro_struct_size : Z; ro_abi_version : Z;
  ro_address : option bytes; ro_username : option bytes; ro_password : option bytes;
  ro_port : Z; ro_security : Z; ro_connect_timeout_ms : Z; ro_command_timeout_ms : Z;
  ro_max_inflight_requests : Z; ro_max_key_bytes : Z; ro_max_value_bytes : Z; ro_reserved32 : Z;
  ro_max_queue_bytes : Z; ro_max_result_bytes : Z; ro_reserved : list Z;
}.
Definition sizeof_redis_options : Z := 112.

(** [src/src/Abi/Redis.cpp:104-119] *)
Definition se_redis_options_init : se_redis_options :=
  mkRedisOptions sizeof_redis_options SE_ABI_VERSION None None None 6379 SE_SECURITY_TLS 3000 3000
    128 1024 (1024 * 1024) 0 (8 * 1024 * 1024) (8 * 1024 * 1024) [0; 0; 0; 0].
(** [src/src/Abi/Redis.cpp:121-127] *)
Definition se_redis_result_init : se_redis_result :=
  mkSeResult sizeof_redis_result SE_ABI_VERSION 0 0 SE_OK 0 0 0 [].

(** [src/src/Abi/Redis.cpp:40-48] [None] when it is too long; NULL keeps the output. *)
Definition copy_string (source : option bytes) (limit : Z) (output : bytes) : option bytes :=
  match source with
  | None => Some output
  | Some text => if limit <? zlen text then None else Some text
  end.

(** [src/src/Data/Redis/Types.h:14-26] The members' initial values. *)
Definition default_options : Options :=
  mkOptions (txt "127.0.0.1") [] [] 6379 3000 3000 128 1024 (1024 * 1024) (8 * 1024 * 1024) (8 * 1024 * 1024).

(** [src/src/Abi/Redis.cpp:58-67] {decode} The numbers. *)
Definition limits_ok (i : se_redis_options) : bool :=
  negb (negb (ro_security i =? SE_SECURITY_NONE) || (ro_port i =? 0) || (65535 <? ro_port i)
    || (ro_connect_timeout_ms i <? 100) || (30000 <? ro_connect_timeout_ms i)
    || (ro_command_timeout_ms i <? 100) || (30000 <? ro_command_timeout_ms i)
    || (ro_max_inflight_requests i =? 0) || (65536 <? ro_max_inflight_requests i)
    || (ro_max_key_bytes i =? 0) || (65536 <? ro_max_key_bytes i)
    || (ro_max_value_bytes i =? 0) || (16 * 1024 * 1024 <? ro_max_value_bytes i)
    || (ro_max_queue_bytes i <? u64 (ro_max_key_bytes i + ro_max_value_bytes i))
    || (1024 * 1024 * 1024 <? ro_max_queue_bytes i)
    || (ro_max_result_bytes i <? ro_max_value_bytes i) || (1024 * 1024 * 1024 <? ro_max_result_bytes i)).

Section RedisAbi.
Context {K : Type} `{Connection K}.
(** Boost.Asio's address parser, the build option, and the connection a service's
    constructor makes. *)
Context (valid_address : bytes → bool) (supported : bool) (connection_of : Options → K).

(** [src/src/Abi/Redis.cpp:20-24] *)
Record Registry := mkRegistry { services : gmap Z (Service K); next_id : Z }.
Definition empty_registry : Registry := mkRegistry ∅ 1.
Implicit Types reg : Registry.
(** [src/src/Abi/Redis.cpp:32-38] *)
Definition find (handle : Z) reg : option (Service K) := services reg !! handle.

(** [src/src/Abi/Redis.cpp:69-74] {decode} The address and the credential. *)
Definition decode_texts (i : se_redis_options) : option (bytes * bytes * bytes) :=
  a ← copy_string (ro_address i) 64 (address default_options);
  if bool_decide (a = []) || negb (valid_address a) then None
  else
    u ← copy_string (ro_username i) 256 [];
    p ← copy_string (ro_password i) 4096 [];
    if negb (bool_decide (u = [])) && bool_decide (p = []) then None else Some (a, u, p).

(** [src/src/Abi/Redis.cpp:50-84] *)
Definition decode (input : option se_redis_options) : (se_status * se_error) + Options :=
  match input with
  | None => inl (abi_fail SE_INVALID_ARGUMENT (txt "invalid Redis options layout, version or reserved fields"))
  | Some i =>
      if negb (ro_struct_size i =? sizeof_redis_options) || negb (ro_abi_version i =? SE_ABI_VERSION)
         || negb (ro_reserved32 i =? 0) || existsb (λ v, negb (v =? 0)) (ro_reserved i)
      then inl (abi_fail SE_INVALID_ARGUMENT (txt "invalid Redis options layout, version or reserved fields"))
      else if ro_security i =? SE_SECURITY_TLS
      then inl (abi_fail SE_NOT_SUPPORTED (txt "Redis TLS is not implemented; no plaintext fallback"))
      else if negb (limits_ok i)
      then inl (abi_fail SE_INVALID_ARGUMENT (txt "invalid Redis endpoint, timeout or queue limits"))
      else match decode_texts i with
      | None => inl (abi_fail SE_INVALID_ARGUMENT
          (txt "invalid Redis numeric address or credential configuration"))
      | Some (a, u, p) =>
          inr (mkOptions a u p (u16 (ro_port i)) (ro_connect_timeout_ms i) (ro_command_timeout_ms i)
            (ro_max_inflight_requests i) (ro_max_key_bytes i) (ro_max_value_bytes i)
            (ro_max_queue_bytes i) (ro_max_result_bytes i))
      end
  end.

(** [src/src/Abi/Redis.cpp:129-149] The output is NULL when [redis] is false. *)
Definition se_redis_open (options : option se_redis_options) (redis : bool) reg
    : se_status * se_error * (Z * Registry) :=
  if negb redis then (abi_fail SE_INVALID_ARGUMENT (txt "Redis handle output is required"), (0, reg))
  else match decode options with
  | inl e => (e, (0, reg))
  | inr o =>
      if negb supported then (abi_fail SE_NOT_SUPPORTED (txt "Redis support was not compiled"), (0, reg))
      else if 2 ^ 56 - 1 <? next_id reg
      then (abi_fail SE_INVALID_STATE (txt "Redis handle space exhausted"), (0, reg))
      else
        let handle := Z.lor 0x5200000000000000 (next_id reg) in
        let services := match services reg !! handle with
          | Some _ => services reg
          | None => <[handle := new_service o (connection_of o)]> (services reg)
          end in
        (Abi.ok, (handle, mkRegistry services (u64 (next_id reg + 1))))
  end.

Definition put (handle : Z) (s : Service K) reg : Registry :=
  mkRegistry (<[handle := s]> (services reg)) (next_id reg).

(** [src/src/Abi/Redis.cpp:86-101] {submit} *)
Definition abi_submit (handle op : Z) (k : option bytes) (key_size : Z) (v : option bytes)
    (value_size ttl : Z) (request_id : bool) reg : se_status * se_error * (Z * Registry) :=
  if negb request_id then (abi_fail SE_INVALID_ARGUMENT (txt "request_id output is required"), (0, reg))
  else match find handle reg with
  | None => (abi_fail SE_INVALID_HANDLE (txt "invalid Redis handle"), (0, reg))
  | Some s =>
      let '(st, i, s') := submit op k key_size v value_size ttl s in
      let reg' := put handle s' reg in
      if decide (st = SE_BACKPRESSURE)
      then (abi_fail st (txt "Redis request or result budget is full; poll results"), (i, reg'))
      else if decide (st = SE_STOPPED) then (abi_fail st (txt "Redis service is stopped"), (i, reg'))
      else if decide (st = SE_OK) then (Abi.ok, (i, reg'))
      else (abi_fail st (txt "invalid Redis key, value, TTL or exhausted request IDs"), (i, reg'))
  end.
(** [src/src/Abi/Redis.cpp:151-155] *)
Definition se_redis_get (redis : Z) (k : option bytes) (key_size : Z) (request_id : bool) reg :=
  abi_submit redis SE_REDIS_GET k key_size None 0 0 request_id reg.
(** [src/src/Abi/Redis.cpp:157-161] *)
Definition se_redis_set (redis : Z) (k : option bytes) (key_size : Z) (v : option bytes)
    (value_size ttl : Z) (request_id : bool) reg :=
  abi_submit redis SE_REDIS_SET k key_size v value_size ttl request_id reg.
(** [src/src/Abi/Redis.cpp:163-167] *)
Definition se_redis_delete (redis : Z) (k : option bytes) (key_size : Z) (request_id : bool) reg :=
  abi_submit redis SE_REDIS_DELETE k key_size None 0 0 request_id reg.

(** [src/src/Abi/Redis.cpp:169-180] [result] is the header of the caller's record; the
    error record is cleared on entry, and the service's own status leaves it so. *)
Definition se_redis_poll (redis : Z) (result : option (Z * Z)) (value : bool) (capacity : Z) reg
    : se_status * se_error * (option se_redis_result * bytes * Registry) :=
  if negb (bool_decide (result = Some (sizeof_redis_result, SE_ABI_VERSION)))
     || (negb value && negb (capacity =? 0))
  then (abi_fail SE_INVALID_ARGUMENT (txt "invalid Redis result layout or payload buffer"), (None, [], reg))
  else match find redis reg with
  | None => (abi_fail SE_INVALID_HANDLE (txt "invalid Redis handle"), (None, [], reg))
  | Some s =>
      let '(st, out, data, s') := poll capacity s in
      (st, no_error, (out, data, put redis s' reg))
  end.

(** [src/src/Abi/Redis.cpp:182-190] *)
Definition se_redis_stop (redis : Z) reg : se_status * se_error * Registry :=
  match find redis reg with
  | None => (abi_fail SE_INVALID_HANDLE (txt "invalid Redis handle"), reg)
  | Some s => (Abi.ok, put redis (stop s) reg)
  end.

(** [src/src/Abi/Redis.cpp:192-207] The service removed is stopped and dropped. *)
Definition se_redis_destroy (redis : Z) reg : se_status * se_error * Registry :=
  match find redis reg with
  | None => (abi_fail SE_INVALID_HANDLE (txt "invalid Redis handle"), reg)
  | Some _ => (Abi.ok, mkRegistry (delete redis (services reg)) (next_id reg))
  end.
End RedisAbi.
Arguments Registry : clear implicits.
Arguments mkRegistry {K}.
Arguments services {K}. Arguments next_id {K}. Arguments empty_registry {K}.

Section Admission.
Context {K : Type} (limit : Z) `{ConnectionLaws K limit}.
Context (valid_address : bytes → bool).

(** The widths of the caller's fields, and what decoding makes of them. *)
Record c_options (i : se_redis_options) : Prop := {
  co_inflight : is_u32 (ro_max_inflight_requests i); co_key : is_u32 (ro_max_key_bytes i);
  co_value : is_u32 (ro_max_value_bytes i); co_port : is_u32 (ro_port i);
  co_queue : is_u64 (ro_max_queue_bytes i); co_results : is_u64 (ro_max_result_bytes i);
}.
Record admissible (o : Options) : Prop := {
  ad_ok : options_ok o;
  ad_port : 1 ≤ port o ≤ 65535;
  ad_inflight : 1 ≤ max_inflight_requests o ≤ 65536;
  ad_key : 1 ≤ max_key_bytes o ≤ 65536;
  ad_value : 1 ≤ max_value_bytes o ≤ 16 * 1024 * 1024;
  ad_queue : max_key_bytes o + max_value_bytes o ≤ max_queue_bytes o ≤ 1024 * 1024 * 1024;
  ad_results : max_value_bytes o ≤ max_result_bytes o ≤ 1024 * 1024 * 1024;
  ad_address : address o ≠ [] ∧ valid_address (address o) = true ∧ zlen (address o) ≤ 64;
  ad_credential : username o ≠ [] → password o ≠ [];
}.

Lemma copy_string_length source n output t :
  copy_string source n output = Some t → zlen output ≤ n → zlen t ≤ n.
Proof. unfold copy_string. repeat casematch; intros [= <-]; bprop; auto. Qed.
Lemma decode_texts_sound i a u p : decode_texts valid_address i = Some (a, u, p) →
  a ≠ [] ∧ valid_address a = true ∧ zlen a ≤ 64 ∧ (u ≠ [] → p ≠ []).
Proof.
  unfold decode_texts. destruct (copy_string _ 64 _) as [a'|] eqn:Ha; simpl; [|done].
  apply copy_string_length in Ha; [|by vm_compute].
  destruct (_ || _) eqn:E; [done|].
  destruct (copy_string (ro_username i) _ _) as [u'|]; simpl; [|done].
  destruct (copy_string (ro_password i) _ _) as [p'|]; simpl; [|done].
  destruct (_ && _) eqn:E2; [done|]. intros [= <- <- <-]. bprop. split_and!; auto.
  intros ?. by destruct E2 as [E2|E2]; bprop.
Qed.
Lemma decode_sound i o : c_options i → decode valid_address (Some i) = inr o → admissible o.
Proof.
  intros [[] [] [] [] [] []]. unfold decode. destruct (_ || _); [done|]. destruct (_ =? _); [done|].
  destruct (limits_ok i) eqn:Hl; simpl; [|done].
  destruct (decode_texts _ i) as [[[a u] p]|] eqn:Ht; [|done]. intros [= <-].
  apply decode_texts_sound in Ht. unfold limits_ok in Hl. bprop.
  rewrite u64_small in * by (unfold is_u64; lia).
  split; simpl; try lia; try tauto.
  - split; simpl; lia.
  - unfold u16. rewrite Z.mod_small by lia. lia.
Qed.

Lemma step_options (s : Service K) o : options_ (step s o) = options_ s.
Proof.
  destruct o; simpl; try done.
  - unfold submit_op, submit. repeat casematch; done.
  - unfold run, worker_take, worker_execute, worker_complete. repeat casematch; done.
  - unfold poll. repeat casematch; done.
Qed.
Lemma steps_options ops : ∀ s : Service K, options_ (runs step s ops) = options_ s.
Proof. induction ops as [|o ops IH]; intros s; [done|]. simpl. unfold runs in *. by rewrite IH, step_options. Qed.

(** Backpressure of the Redis service is never permanent: a service opened with
    decoded options, not stopped, whose completions have all been polled, accepts
    every request with a key, value and lifetime within those options. *)
Theorem redis_idle_admits i o c ops op key v ttl :
  c_options i → decode valid_address (Some i) = inr o → max_value_bytes o = limit →
  let s := runs step (new_service o c) ops in
  outstanding s = [] → stopping_ s = false → next_id_ s ≠ 0 →
  1 ≤ zlen key ≤ max_key_bytes o → zlen v ≤ max_value_bytes o → ttl < 2 ^ 63 →
  (submit_op op key v ttl s).1 = (SE_OK, next_id_ s).
Proof.
  intros Hi Hd Hl s Hout Hst Hid Hk Hv Httl. pose proof (decode_sound i o Hi Hd) as Ha.
  destruct (steps_good limit ops 0 0 _ (good_new limit o c (ad_ok _ Ha) Hl)) as (n & k & Hg & _).
  fold s in Hg. assert (options_ s = o) as Ho by (unfold s; by rewrite steps_options).
  destruct Ha as [[] ? ? ? ? ? ? _ _].
  pose proof (gd_inflight _ _ _ _ Hg) as H1. pose proof (gd_reserved _ _ _ _ Hg) as H2.
  pose proof (gd_queue _ _ _ _ Hg) as H3. unfold outstanding in Hout.
  apply app_eq_nil in Hout as [Hr Hrp]. apply app_eq_nil in Hrp as [Hrn Hp].
  unfold outstanding in *. rewrite Hr, Hrn, Hp in *. simpl in *. rewrite zlen_nil in H1.
  unfold submit_op, submit. rewrite Ho, H1, H2, H3, !Z.sub_0_r, Hst.
  pose proof (zlen_nonneg v).
  rewrite !u64_small by (unfold is_u64; lia).
  rewrite (bool_decide_eq_false_2 (Some key = None)), (bool_decide_eq_false_2 (Some v = None)) by done.
  rewrite (proj2 (Z.eqb_neq (zlen key) 0)), (proj2 (Z.ltb_ge _ (zlen key))), (proj2 (Z.ltb_ge _ (zlen v))),
    (proj2 (Z.ltb_ge _ ttl)), (proj2 (Z.leb_gt _ 0)), (proj2 (Z.eqb_neq _ 0) Hid) by lia. simpl.
  rewrite (proj2 (Z.ltb_ge _ (zlen key + zlen v))) by lia. simpl.
  rewrite (proj2 (Z.ltb_ge _ _)); [done|]. destruct (op =? _); lia.
Qed.
End Admission.

Module SampleRedis.
Definition options : se_redis_options :=
  mkRedisOptions sizeof_redis_options SE_ABI_VERSION None None None 6379 SE_SECURITY_NONE 3000 3000
    1 8 4 0 12 4 [0; 0; 0; 0].
Definition decoded : Options := mkOptions (txt "127.0.0.1") [] [] 6379 3000 3000 1 8 4 12 4.
Lemma options_widths : c_options options.
Proof. split; unfold is_u32, is_u64; simpl; lia. Qed.
End SampleRedis.

(** One slot, taken by the first request and free again once it is polled. *)
Lemma redis_idle_admits_witness :
  let ops := [Submit SE_REDIS_GET (txt "key") [] 0; Work; Work; Work; Poll 4] in
  let s := runs step (new_service SampleRedis.decoded false) ops in
  (submit_op SE_REDIS_SET (txt "k") (txt "v") 0 s).1 = (SE_OK, 2) ∧
  (submit_op SE_REDIS_SET (txt "k") (txt "v") 0
     (runs step (new_service SampleRedis.decoded false) (take 4 ops))).1 = (SE_BACKPRESSURE, 0).
Proof.
  split; [|by vm_compute].
  refine (eq_trans (redis_idle_admits Echo.limit (λ _, true) SampleRedis.options SampleRedis.decoded false
    [Submit SE_REDIS_GET (txt "key") [] 0; Work; Work; Work; Poll 4] SE_REDIS_SET (txt "k") (txt "v") 0
    SampleRedis.options_widths _ _ _ _ _ _ _ _) _); by vm_compute.
Defined.
