(* ===== verification/Port.v ===== *)
(** Port: the portability layer ([src/include/ServerEngine/Port/], [src/src/Port/]). What
    the preprocessor selects is a function of the build's predefined macros; what the
    operating system answers is an argument. *)
From S2P Require Import Prelude.
From S2P Require Import Text.
From S2P Require Import Logger.

(** * The build *)
Inductive Macro :=
| WIN32 | LINUX | APPLE | MACH | MSC_VER | CLANG | GNUC
| M_X64 | X86_64 | AMD64 | M_IX86 | I386 | M_ARM64 | AARCH64 | NDEBUG.
#[export] Instance macro_eq_dec : EqDecision Macro.
Proof. solve_decision. Defined.
Record Build := mkBuild { defined : Macro → bool; msc_full_ver : bytes; version : bytes }.
(** [src/include/ServerEngine/Port/Platform.h:8-12] *)
Definition os_windows (b : Build) : bool := defined b WIN32.
(** [src/include/ServerEngine/Port/Platform.h:14-18] *)
Definition os_linux (b : Build) : bool := defined b LINUX.
(** [src/include/ServerEngine/Port/Platform.h:20-24] *)
Definition os_macos (b : Build) : bool := defined b APPLE && defined b MACH.
(** [src/include/ServerEngine/Port/Platform.h:26-30] *)
Definition compiler_msvc (b : Build) : bool := defined b MSC_VER.
(** [src/include/ServerEngine/Port/Platform.h:32-36] *)
Definition compiler_clang (b : Build) : bool := defined b CLANG.
(** [src/include/ServerEngine/Port/Platform.h:38-42] *)
Definition compiler_gcc (b : Build) : bool := defined b GNUC && negb (defined b CLANG).

(** [src/include/ServerEngine/Port/Platform.h:46-51] *)
Inductive OperatingSystem := Windows | Linux | MacOS | UnknownSystem.
(** [src/include/ServerEngine/Port/Platform.h:53-58] *)
Inductive CpuArchitecture := X86 | X64 | Arm64 | UnknownArchitecture.
(** [src/include/ServerEngine/Port/Platform.h:60-71] *)
Definition current_operating_system (b : Build) : OperatingSystem :=
  if os_windows b then Windows else if os_linux b then Linux else if os_macos b then MacOS else UnknownSystem.
(** [src/include/ServerEngine/Port/Platform.h:73-84] *)
Definition current_cpu_architecture (b : Build) : CpuArchitecture :=
  if defined b M_X64 || defined b X86_64 || defined b AMD64 then X64
  else if defined b M_IX86 || defined b I386 then X86
  else if defined b M_ARM64 || defined b AARCH64 then Arm64 else UnknownArchitecture.
(** [src/include/ServerEngine/Port/Platform.h:86-93] *)
Definition is_debug_build (b : Build) : bool := negb (defined b NDEBUG).
(** [src/include/ServerEngine/Port/Platform.h:95-109] {to_string} *)
Definition system_to_string (o : OperatingSystem) : bytes :=
  match o with Windows => txt "Windows" | Linux => txt "Linux" | MacOS => txt "macOS" | UnknownSystem => txt "Unknown" end.
(** [src/include/ServerEngine/Port/Platform.h:111-125] {to_string} *)
Definition architecture_to_string (a : CpuArchitecture) : bytes :=
  match a with X86 => txt "x86" | X64 => txt "x64" | Arm64 => txt "arm64" | UnknownArchitecture => txt "unknown" end.
(** [src/include/ServerEngine/Port/Platform.h:127-138] *)
Definition compiler_name (b : Build) : bytes :=
  if compiler_msvc b then txt "MSVC" else if compiler_clang b then txt "Clang" else if compiler_gcc b then txt "GCC"
  else txt "Unknown".
(** [src/include/ServerEngine/Port/Platform.h:140-149] *)
Definition compiler_version (b : Build) : bytes :=
  if compiler_msvc b then msc_full_ver b else if compiler_clang b || compiler_gcc b then version b else txt "unknown".

(** The names tell systems, architectures and compilers apart; a version is only missing
    where the compiler is not known. *)
Lemma platform_names b b' :
  (system_to_string (current_operating_system b) = system_to_string (current_operating_system b') →
    current_operating_system b = current_operating_system b') ∧
  (architecture_to_string (current_cpu_architecture b) = architecture_to_string (current_cpu_architecture b') →
    current_cpu_architecture b = current_cpu_architecture b') ∧
  (compiler_name b = txt "Unknown" → compiler_version b = txt "unknown").
Proof.
  split_and!.
  - by destruct (current_operating_system b), (current_operating_system b').
  - by destruct (current_cpu_architecture b), (current_cpu_architecture b').
  - unfold compiler_name, compiler_version. by destruct (compiler_msvc b), (compiler_clang b), (compiler_gcc b).
Qed.

(** * Process *)
(** [src/src/Port/Process.cpp:19-28] *)
Definition current_process_id (b : Build) (GetCurrentProcessId getpid : Z) : Z :=
  if os_windows b then u32 GetCurrentProcessId else if os_linux b || os_macos b then u32 getpid else 0.

Section ExecutablePath.
(** A code unit of the file system: wide on Windows. *)
Context {W : Type}.
(** [GetModuleFileNameW] with a buffer of a size: what it returns and what the buffer
    then starts with. *)
Context (GetModuleFileNameW : Z → Z * list W).

(** [src/src/Port/Process.cpp:33-51] {current_executable_path} On Windows; [None] is the
    loop out of fuel. *)
Fixpoint module_path (fuel : nat) (size : Z) : option (list W) :=
  match fuel with
  | O => None
  | S fuel =>
      let '(copied, buffer) := GetModuleFileNameW (u32 size) in
      if copied =? 0 then Some []
      else if copied <? size then Some (take (Z.to_nat copied) buffer)
      else module_path fuel (u64 (size * 2))
  end.
Definition MAX_PATH : Z := 260.

(** What is documented: a path that fits with its terminator is copied and its length
    returned; otherwise what fits is, and the size. *)
Definition module_file_name (name : list W) : Prop :=
  ∀ size, 0 < size < 2 ^ 32 → let '(copied, buffer) := GetModuleFileNameW size in
    if zlen name <? size then copied = zlen name ∧ take (length name) buffer = name else copied = size.

Lemma module_path_from name k : ∀ size, module_file_name name → name ≠ [] → 0 < size → size * 2 ^ Z.of_nat k < 2 ^ 32 →
  zlen name < size * 2 ^ Z.of_nat k → module_path (S k) size = Some name.
Proof.
  assert (1 ≤ 2 ^ Z.of_nat k) as Hpow by (pose proof (Z.pow_pos_nonneg 2 (Z.of_nat k)); lia). revert Hpow.
  induction k as [|k IH]; intros Hpow size Hd Hne H0 Hb Hl; cbn [module_path]; assert (size < 2 ^ 32) as Hs by nia.
  all: specialize (Hd size ltac:(lia)) as Hc; rewrite u32_small by (split; lia).
  all: destruct (GetModuleFileNameW size) as [copied buffer]; destruct (zlen name <? size) eqn:Hf; bprop.
  all: assert (0 < zlen name) as Hn by (destruct name; [done|]; rewrite zlen_cons; pose proof (zlen_nonneg name); lia).
  1,3: destruct Hc as [-> Hc]; rewrite (proj2 (Z.eqb_neq _ _)), (proj2 (Z.ltb_lt _ _)) by lia; unfold zlen; by rewrite Nat2Z.id, Hc.
  - lia.
  - subst copied. rewrite (proj2 (Z.eqb_neq _ _)), (proj2 (Z.ltb_ge _ _)) by lia.
    rewrite Nat2Z.inj_succ, Z.pow_succ_r in Hb, Hl by lia. assert (1 ≤ 2 ^ Z.of_nat k) by (pose proof (Z.pow_pos_nonneg 2 (Z.of_nat k)); lia).
    rewrite u64_small by (split; nia). apply IH; try done; nia.
Qed.
(** The loop ends with the whole path, however long: twenty-four rounds are enough for
    every path the doubled sizes can hold within 32 bits. *)
Theorem executable_path_whole name : module_file_name name → name ≠ [] → zlen name < MAX_PATH * 2 ^ 23 →
  module_path 24 MAX_PATH = Some name.
Proof. intros Hd Hne Hl. apply (module_path_from name 23); try done. Qed.
End ExecutablePath.

(** A buffer as a C string. *)
Fixpoint c_str (buffer : bytes) : bytes :=
  match buffer with b :: buffer => if bool_decide (b = x00) then [] else b :: c_str buffer | [] => [] end.
(** [src/src/Port/Process.cpp:53-59] {current_executable_path} On Linux: [readlink] into a
    buffer of PATH_MAX bytes. *)
Definition link_path (readlink : Z → Z * bytes) : bytes :=
  let '(copied, buffer) := readlink (4096 - 1) in if copied <=? 0 then [] else take (Z.to_nat copied) buffer.
(** [src/src/Port/Process.cpp:61-69] {current_executable_path} On macOS: the size asked for,
    the answer of the second call, and [weakly_canonical]. *)
Definition dyld_path (size : Z) (NSGetExecutablePath : Z → Z * bytes) (weakly_canonical : bytes → bytes) : bytes :=
  let '(status, buffer) := NSGetExecutablePath (u32 size) in
  if negb (status =? 0) then [] else weakly_canonical (c_str buffer).
(** [src/src/Port/Process.cpp:75-84] The directory, or the error. *)
Definition current_working_directory (current_path : option bytes) : bytes := default [] current_path.

(** [src/include/ServerEngine/Port/Process.h:9-13] *)
Record ProcessInfo := mkProcessInfo { process_id : Z; executable_path : bytes; working_directory : bytes }.
(** [src/src/Port/Process.cpp:86-93] *)
Definition current_process_info (id : Z) (executable directory : bytes) : ProcessInfo := mkProcessInfo id executable directory.

(** * The EC provider *)
(** [src/include/ServerEngine/Security/EccProvider.h:7-11] *)
Record EccProviderStatus := mkEccStatus { available : bool; provider_name : bytes; detail : bytes }.
(** [src/src/Security/EccProvider.cpp:12-35] What [BCryptOpenAlgorithmProvider] answers. *)
Definition check_ecc_p256_provider (b : Build) (status : Z) : EccProviderStatus :=
  if os_windows b then
    if status =? 0 then mkEccStatus true (txt "Windows CNG ECDH P-256") (txt "available")
    else mkEccStatus false (txt "Windows CNG ECDH P-256") (txt "BCryptOpenAlgorithmProvider failed")
  else mkEccStatus false (txt "unavailable") (txt "ECC provider is not implemented for this platform yet").

(** * Clock *)
(** [src/src/Port/Clock.cpp:10-15] A reading of the clock, in ticks, so many a millisecond;
    [duration_cast] rounds towards zero. *)
Definition steady_milliseconds (ticks now : Z) : Z := u64 (Z.quot now ticks).
(** [src/src/Port/Clock.cpp:17-22] *)
Definition system_milliseconds (ticks now : Z) : Z := u64 (Z.quot now ticks).
(** The fields of [std::tm] that are used. *)
Record Tm := mkTm { tm_year : Z; tm_mon : Z; tm_mday : Z; tm_hour : Z; tm_min : Z; tm_sec : Z }.
(** [src/src/Port/Clock.cpp:24-53] [localtime]: what the structure holds after the call. *)
Definition local_date_time (ticks now : Z) (localtime : Z → Tm) : DateTime :=
  let milliseconds_since_epoch := Z.quot now ticks in
  let milliseconds := Z.rem milliseconds_since_epoch 1000 in
  let t := localtime (Z.quot now (ticks * 1000)) in
  mkDateTime (tm_year t + 1900) (tm_mon t + 1) (tm_mday t) (tm_hour t) (tm_min t) (tm_sec t) milliseconds.
(** [src/src/Port/Clock.cpp:55-62] What the thread is put to sleep for, if it is. *)
Definition sleep_for (duration : Z) : option Z := if duration <=? 0 then None else Some duration.

(** The seconds given to [localtime] and the milliseconds are of one moment. *)
Theorem local_time_consistent ticks now localtime : 0 < ticks → ∃ time,
  millisecond (local_date_time ticks now localtime) + 1000 * time = Z.quot now ticks ∧
  second (local_date_time ticks now localtime) = tm_sec (localtime time) ∧
  (0 ≤ now → 0 ≤ millisecond (local_date_time ticks now localtime) < 1000).
Proof.
  intros Ht. exists (Z.quot now (ticks * 1000)). simpl. split_and!; [|done|].
  - rewrite <- Z.quot_quot by lia. pose proof (Z.quot_rem' (Z.quot now ticks) 1000). lia.
  - intros Hn. apply Z.rem_bound_pos; [by apply Z.quot_pos; lia|lia].
Qed.

(** * Sockets *)
(** [src/include/ServerEngine/Port/Socket.h:10-16] *)
Definition InvalidSocket (b : Build) : Z := if os_windows b then 2 ^ 64 - 1 else -1.
(** [src/src/Port/Socket.cpp:107-110] *)
Definition is_valid_socket (b : Build) (socket : Z) : bool := negb (socket =? InvalidSocket b).
(** [src/include/ServerEngine/Port/Socket.h:18-32] *)
Record SocketSystem := mkSocketSystem { initialized : bool; error_message : bytes }.
(** [src/src/Port/Socket.cpp:25-35] {SocketSystem} *)
Definition socket_system_windows (WSAStartup : Z) : SocketSystem :=
  if negb (WSAStartup =? 0) then mkSocketSystem false (txt "WSAStartup failed: " ++ dec WSAStartup) else mkSocketSystem true [].
(** [src/src/Port/Socket.cpp:76-79] {SocketSystem} *)
Definition socket_system_posix : SocketSystem := mkSocketSystem true [].
Definition socket_system (b : Build) (WSAStartup : Z) : SocketSystem :=
  if os_windows b then socket_system_windows WSAStartup else socket_system_posix.
(** [src/src/Port/Socket.cpp:37-42] {~SocketSystem} Whether [WSACleanup] is called. *)
Definition cleans_up (b : Build) (s : SocketSystem) : bool := os_windows b && initialized s.
(** [src/src/Port/Socket.cpp:51-72] {socket_error_message} On Windows; the text of
    [FormatMessageA], if there is one. *)
Definition windows_error (prefix : bytes) (error : Z) (FormatMessageA : option bytes) : bytes :=
  match FormatMessageA with Some (b :: message) => b :: message | _ => prefix ++ dec error end.
(** [src/src/Port/Socket.cpp:90-93] *)
Definition socket_error_message (b : Build) (error : Z) (FormatMessageA : option bytes) (strerror : Z → bytes) : bytes :=
  if os_windows b then windows_error (txt "socket error: ") error FormatMessageA else strerror error.

(** ** At work *)
Definition linux_build : Build := mkBuild (λ m, bool_decide (m ∈ [LINUX; GNUC; X86_64; AMD64])) [] (txt "13.2.0").
Definition windows_build : Build := mkBuild (λ m, bool_decide (m ∈ [WIN32; MSC_VER; M_X64; NDEBUG])) (txt "193833133") [].
Example builds :
  (system_to_string (current_operating_system linux_build), compiler_name linux_build, compiler_version linux_build, is_debug_build linux_build)
    = (txt "Linux", txt "GCC", txt "13.2.0", true) ∧
  (system_to_string (current_operating_system windows_build), architecture_to_string (current_cpu_architecture windows_build),
   compiler_version windows_build) = (txt "Windows", txt "x64", txt "193833133").
Proof. split; vm_compute; reflexivity. Qed.
(** A path longer than the first buffer is found in the second. *)
Lemma executable_path_whole_witness :
  let name := replicate 300 x61 in
  let get size := if zlen name <? size then (zlen name, name ++ [x00]) else (size, take (Z.to_nat size) name) in
  fst (get MAX_PATH) = MAX_PATH ∧ module_path get 24 MAX_PATH = Some name.
Proof.
  split; [vm_compute; reflexivity|]. apply executable_path_whole; [|done|vm_compute; reflexivity].
  intros size _. cbv zeta. destruct (_ <? size); [|done]. split; [done|].
  by rewrite take_app_length.
Defined.
