(* ===== verification/RuntimeHub.v ===== *)
(** RuntimeHub: the live sessions of the text-line runtime
    ([src/include/ServerEngine/Runtime/ConnectionHub.h], [src/src/Runtime/ConnectionHub.cpp],
    [SessionRegistry.cpp], [Session.cpp]). Each operation is one critical section of
    the hub's mutex; the clock's reading is an argument. *)
From S2P Require Import Prelude.
From S2P Require Import Text.
From S2P Require Import Kinds.

(** [src/include/ServerEngine/Runtime/ServerOptions.h:14-19] *)
Record ListenerOptions := mkListenerOptions {
  lo_name : bytes; lo_transport : TransportKind.TransportKind; lo_endpoint : Endpoint; lo_enabled : bool;
}.
(** [src/include/ServerEngine/Runtime/ServerOptions.h:21-31] *)
Record ServerOptions := mkServerOptions {
  worker_count : Z; max_sessions : Z; max_message_bytes : Z; idle_timeout_ms : Z;
  receive_timeout_ms : Z; tcp_no_delay : bool; tcp_backend : TcpBackend.TcpBackend;
  security_mode : SecurityMode.SecurityMode; listener_options : list ListenerOptions;
}.
(** [src/include/ServerEngine/Net/TcpTypes.h:22-30] *)
Record TcpServerOptions := mkTcpOptions {
  to_bind_endpoint : Endpoint; to_worker_count : Z; to_max_connections : Z; to_max_message_bytes : Z;
  to_idle_timeout_ms : Z; to_receive_timeout_ms : Z; to_tcp_no_delay : bool;
}.
(** [src/src/Runtime/TcpListener.cpp:71-83] *)
Definition transport_options (o : ServerOptions) (l : ListenerOptions) : TcpServerOptions :=
  mkTcpOptions (lo_endpoint l) (worker_count o) (max_sessions o) (max_message_bytes o)
    (idle_timeout_ms o) (receive_timeout_ms o) (tcp_no_delay o).

(** [src/include/ServerEngine/Runtime/ConnectionHub.h:18-30] *)
Record SessionSnapshot := mkSnapshot {
  ss_id : Z; ss_transport : TransportKind.TransportKind; ss_remote_endpoint : Endpoint;
  ss_authenticated : bool; ss_user_name : bytes; ss_connected_at_ms : Z; ss_last_seen_at_ms : Z;
  ss_messages_received : Z; ss_messages_sent : Z; ss_bytes_received : Z; ss_bytes_sent : Z;
}.
(** The hub's one member besides its mutex. *)
Abbreviation Hub := (gmap Z SessionSnapshot).

(** [src/src/Runtime/ConnectionHub.cpp:9-22] *)
Definition add_session (id : Z) (transport : TransportKind.TransportKind) (remote : Endpoint) (now : Z)
    (hub : Hub) : Hub :=
  <[id := mkSnapshot id transport remote false [] now now 0 0 0 0]> hub.
(** [src/src/Runtime/ConnectionHub.cpp:24-28] *)
Definition remove_session (id : Z) (hub : Hub) : Hub := delete id hub.
(** [src/src/Runtime/ConnectionHub.cpp:30-42] *)
Definition authenticate (id : Z) (name : bytes) (now : Z) (hub : Hub) : bool * Hub :=
  match hub !! id with
  | None => (false, hub)
  | Some s =>
      (true, <[id := mkSnapshot (ss_id s) (ss_transport s) (ss_remote_endpoint s) true name
        (ss_connected_at_ms s) now (ss_messages_received s) (ss_messages_sent s)
        (ss_bytes_received s) (ss_bytes_sent s)]> hub)
  end.
(** [src/src/Runtime/ConnectionHub.cpp:44-49] *)
Definition is_authenticated (id : Z) (hub : Hub) : bool :=
  match hub !! id with Some s => ss_authenticated s | None => false end.
(** [src/src/Runtime/ConnectionHub.cpp:51-60] *)
Definition user_name (id : Z) (hub : Hub) : bytes :=
  match hub !! id with Some s => ss_user_name s | None => [] end.
(** [src/src/Runtime/ConnectionHub.cpp:62-73] *)
Definition record_received (id byte_count now : Z) (hub : Hub) : Hub :=
  match hub !! id with
  | None => hub
  | Some s =>
      <[id := mkSnapshot (ss_id s) (ss_transport s) (ss_remote_endpoint s) (ss_authenticated s)
        (ss_user_name s) (ss_connected_at_ms s) now (u64 (ss_messages_received s + 1))
        (ss_messages_sent s) (u64 (ss_bytes_received s + byte_count)) (ss_bytes_sent s)]> hub
  end.
(** [src/src/Runtime/ConnectionHub.cpp:75-86] *)
Definition record_sent (id byte_count now : Z) (hub : Hub) : Hub :=
  match hub !! id with
  | None => hub
  | Some s =>
      <[id := mkSnapshot (ss_id s) (ss_transport s) (ss_remote_endpoint s) (ss_authenticated s)
        (ss_user_name s) (ss_connected_at_ms s) now (ss_messages_received s)
        (u64 (ss_messages_sent s + 1)) (ss_bytes_received s) (u64 (ss_bytes_sent s + byte_count))]> hub
  end.
(** [src/src/Runtime/ConnectionHub.cpp:88-97] *)
Definition find (id : Z) (hub : Hub) : option SessionSnapshot := hub !! id.
(** [src/src/Runtime/ConnectionHub.cpp:99-111] The order is the container's. *)
Definition snapshot (hub : Hub) : list SessionSnapshot := (map_to_list hub).*2.
(** [src/src/Runtime/ConnectionHub.cpp:113-117] *)
Definition count (hub : Hub) : Z := msize hub.

(** [src/src/Runtime/SessionRegistry.cpp:11-23] The hub, the next identifier and the limit. *)
Definition try_add (transport : TransportKind.TransportKind) (remote : Endpoint) (now max : Z)
    (hub : Hub) (next_session_id : Z) : option Z * Hub * Z :=
  if max <=? count hub then (None, hub, next_session_id)
  else (Some next_session_id, add_session next_session_id transport remote now hub,
        u64 (next_session_id + 1)).
(** [src/src/Runtime/SessionRegistry.cpp:25-28] *)
Definition remove (id : Z) (hub : Hub) : Hub := remove_session id hub.

(** ** Only admission and removal change which sessions are live *)
Lemma dom_record_received id n now h : dom (record_received id n now h) = dom h.
Proof.
  unfold record_received. destruct (h !! id) eqn:E; [|done]. apply dom_insert_lookup_L. by eexists.
Qed.
Lemma dom_record_sent id n now h : dom (record_sent id n now h) = dom h.
Proof.
  unfold record_sent. destruct (h !! id) eqn:E; [|done]. apply dom_insert_lookup_L. by eexists.
Qed.
Lemma dom_authenticate id name now h : dom (authenticate id name now h).2 = dom h.
Proof.
  unfold authenticate. destruct (h !! id) eqn:E; [|done]. apply dom_insert_lookup_L. by eexists.
Qed.
Lemma count_dom (h : Hub) : count h = Z.of_nat (size (dom h : gset Z)).
Proof. exact (f_equal Z.of_nat (eq_sym (size_dom (D := gset Z) (h : gmap Z SessionSnapshot)))). Qed.
Lemma count_insert id s (h : Hub) : count (<[id := s]> h) ≤ count h + 1.
Proof.
  unfold count. destruct (h !! id) eqn:E.
  - rewrite (msize_insert_old _ _ _ _ E). lia.
  - rewrite (msize_insert_new _ _ _ E). lia.
Qed.
