(* ===== verification/ThreadedClient.v ===== *)
(** ThreadedClient: one client of the blocking backend
    ([src/src/Net/Threaded/ClientConnection.cpp], [SocketOperations.cpp]): the send
    loop over the system's partial writes, and the set-up of sockets with every
    early return. What the operating system answers is an argument. *)
From S2P Require Import Prelude.
From S2P Require Import Text.
From S2P Require Import Kinds.
From S2P Require Import RuntimeHub.

Definition INT_MAX : Z := 2 ^ 31 - 1.

(** [src/src/Net/Threaded/ClientConnection.cpp:47-62] {send} [sent] are the results
    of the successive [send_socket] calls; past them a call fails. The result, and
    the bytes the system took. *)
Fixpoint send_loop (fuel : nat) (sent : list Z) (remaining : bytes) : bool * bytes :=
  match fuel, remaining with
  | _, [] => (true, [])
  | O, _ => (false, [])
  | S fuel, _ =>
      let chunk_size := Z.min (zlen remaining) INT_MAX in
      let n := default (-1) (head sent) in
      if n <=? 0 then (false, [])
      else
        let n := Z.min n chunk_size in
        let '(ok, wire) := send_loop fuel (tail sent) (drop (Z.to_nat n) remaining) in
        (ok, take (Z.to_nat n) remaining ++ wire)
  end.
(** [src/src/Net/Threaded/ClientConnection.cpp:35-63] {send} *)
Definition client_send (closed : bool) (sent : list Z) (data : bytes) : bool * bytes :=
  if closed then (false, []) else send_loop (length data) sent data.

(** Every round takes at least a byte, so the length is fuel enough; what the system
    took is what was given to it, in order, and all of it exactly on success. *)
Lemma send_loop_exact fuel : ∀ sent data ok wire,
  (length data ≤ fuel)%nat → send_loop fuel sent data = (ok, wire) →
  wire `prefix_of` data ∧ (ok = true ↔ wire = data).
Proof.
  induction fuel as [|fuel IH]; intros sent data ok wire Hl; destruct data as [|b data]; simpl in Hl.
  - intros [= <- <-]. done.
  - lia.
  - intros [= <- <-]. done.
  - cbn [send_loop]. set (d := b :: data). set (n := default (-1) (head sent)).
    destruct (n <=? 0) eqn:Hn; bprop; [intros [= <- <-]; split; [apply prefix_nil|done]|].
    set (m := Z.min n _). assert (1 ≤ m) as Hm.
    { unfold m, d, INT_MAX. rewrite zlen_cons. pose proof (zlen_nonneg data). lia. }
    destruct (send_loop fuel _ _) as [ok' w] eqn:E. intros [= <- <-].
    apply IH in E as [Hp Hok]; [|rewrite length_drop; unfold d; simpl; lia].
    rewrite <- (take_drop (Z.to_nat m) d) at 2 4. split; [by apply prefix_app|].
    rewrite Hok. split; [by intros ->|apply app_inv_head].
Qed.

(** A send puts on the wire exactly what it was given or a prefix of it, in order,
    whatever the sizes of the system's partial writes; it reports success exactly when the
    connection was open and the system took every byte. *)
Theorem threaded_send_exact closed sent data ok wire : client_send closed sent data = (ok, wire) →
  wire `prefix_of` data ∧ (ok = true ↔ closed = false ∧ wire = data).
Proof.
  unfold client_send. destruct closed; [intros [= <- <-]; split; [apply prefix_nil|by split; [|intros []]]|].
  intros H. apply send_loop_exact in H as [Hp ->]; [|done]. tauto.
Qed.
Lemma threaded_send_exact_witness :
  let '(ok, wire) := client_send false [2; 1; 0] (txt "hello") in
  (ok, wire) = (false, txt "hel") ∧ wire `prefix_of` txt "hello".
Proof.
  split; [reflexivity|]. by apply (threaded_send_exact false [2; 1; 0] (txt "hello") false).
Defined.

(** * Socket set-up *)
(** What the system answers to the calls of [open_listener]. *)
Record Os := mkOs {
  os_inet_pton : bytes → bool; os_socket : option Z; os_bind : bool; os_listen : bool;
  os_nonblocking : bool; os_error : bytes;
}.
(** [src/src/Net/Threaded/SocketOperations.cpp:51-97] The result, and the handles open
    when it returns, from those open when it is called. *)
Definition open_listener (os : Os) (endpoint : Endpoint) (handles : gset Z) : result bytes Z * gset Z :=
  if negb (os_inet_pton os (ep_address endpoint))
  then (Err (txt "invalid IPv4 bind address: " ++ ep_address endpoint), handles)
  else match os_socket os with
  | None => (Err (txt "socket() failed: " ++ os_error os), handles)
  | Some socket =>
      let handles := {[socket]} ∪ handles in
      if negb (os_bind os)
      then (Err (txt "bind() failed: " ++ os_error os), handles ∖ {[socket]})
      else if negb (os_listen os)
      then (Err (txt "listen() failed: " ++ os_error os), handles ∖ {[socket]})
      else if negb (os_nonblocking os)
      then (Err (txt "setting listener nonblocking failed: " ++ os_error os), handles ∖ {[socket]})
      else (Ok socket, handles)
  end.
(** A failure leaks no handle; a success leaves the listener's alone. *)
Lemma open_listener_handles os endpoint handles :
  (∀ s, os_socket os = Some s → s ∉ handles) →
  let '(r, handles') := open_listener os endpoint handles in
  match r with Ok s => os_socket os = Some s ∧ handles' = {[s]} ∪ handles | Err _ => handles' = handles end.
Proof.
  intros Hs. unfold open_listener. destruct (negb _); [done|].
  destruct (os_socket os) as [s|]; [|done]. specialize (Hs s eq_refl).
  repeat case_match; simplify_eq; try done; set_solver.
Qed.

(** The options set on an accepted socket. *)
Inductive SocketOption := ReceiveTimeout (seconds microseconds : Z) | NoDelay.
(** [src/src/Net/Threaded/SocketOperations.cpp:145-177] The POSIX build. [None] when the
    mode cannot be set; the results of the others are ignored. *)
Definition configure_client_socket (blocking_set : bool) (o : TcpServerOptions) : option (list SocketOption) :=
  if negb blocking_set then None
  else
    let timeout_ms := Z.max 1 (to_receive_timeout_ms o) in
    Some (ReceiveTimeout (timeout_ms / 1000) ((timeout_ms mod 1000) * 1000)
          :: (if to_tcp_no_delay o then [NoDelay] else [])).
