(* ===== verification/RuntimeServer.v ===== *)
(** RuntimeServer: the text-line runtime over the blocking backend
    ([src/src/Runtime/Server.cpp], [TcpListener.cpp], [src/src/Net/Threaded/TcpServerImpl.cpp],
    [ClientConnection.cpp]): the accept thread of each listener, a thread per client and
    the owner's start and stop, interleaved between any two accesses to shared state.
    The application's handler is any finite script of the operations a session offers;
    it may differ at every call. A connection is named by its listener and number. *)
From S2P Require Import Prelude.
From S2P Require Import Text.
From S2P Require Import Kinds.
From S2P Require Import LineFramer.
From S2P Require Import RuntimeHub.
From S2P Require Import ThreadedClient.

Abbreviation Key := (Z * Z)%type.

(** [src/include/ServerEngine/Runtime/Session.h:32-34] What a handler does with the
    session it is given and with the hub, until it returns or throws. *)
Inductive Script :=
| Return
| Throw (what : bytes)
| Send (data : bytes) (k : bool → Script)
| Authenticate (name : bytes) (k : bool → Script)
| Look (k : bool → bytes → Script)
| Survey (k : list SessionSnapshot → Script).

(** [src/include/ServerEngine/Runtime/IMessageHandler.h:16-23] The handler's calls. *)
Inductive Call :=
| OnStarted (sid : Z) | OnMessage (sid : Z) (message : bytes) | OnStopped (sid : Z) | OnError (text : bytes).
Inductive Reason := Starting | Message | Stopping.

(** Where the thread that serves a connection stands: the accept thread until the
    launch, then the connection's own. Each name is the next thing it does. *)
Inductive Pc :=
| Accepted | Asking | Configuring | Entering
| Connecting | Admitting | Mapping (sid : Z) | Announcing (sid : Z) | Refusing
| Launching | Receiving | Reading | Popping | Delivering (line : bytes) | Dispatching (sid : Z) (line : bytes)
| Handling (r : Reason) (sid : Z) (s : Script)
| Ending | Disconnected | Reporting (sid : Z) | Releasing (sid : Z) | Notified | Finished.

(** [src/src/Net/Threaded/ClientConnection.h:36-41] The object and its thread. The last
    three fields record what happened: the bytes received, the lines popped, the session
    admitted for it and not released yet. *)
Record Conn := mkConn {
  remote_endpoint : Endpoint; closed_ : bool; framer : LineFramer; last_activity_ms : Z;
  launched : bool; pc : Pc; received : bytes; popped : list bytes; session : option Z;
}.
(** The accept thread: in its loop, serving a connection, or returned. *)
Inductive AcceptThread := Looping | Serving (c : Z) | Exited.
(** [src/src/Net/Threaded/TcpServerImpl.h:42-54] One started transport. *)
Record Port := mkPort {
  on_ : bool; next_connection_id_ : Z; accept_thread_ : AcceptThread; port_options : TcpServerOptions;
  port_transport : TransportKind.TransportKind;
}.
(** The owner thread, inside [start] or [stop]. *)
Inductive Owner :=
| Idle | StartingUp (ls : list ListenerOptions)
| StopPort (ls : list Z) | Interrupt (l : Z) (ls : list Z) | JoinAccept (l : Z) (ls : list Z)
| JoinClients (l : Z) (ls : list Z) | Forget (l : Z) (ls : list Z).

(** [src/include/ServerEngine/Runtime/Server.h:46-53] With the state of its listeners:
    [clients_] and [sessions_] hold the entries of every listener's own map. *)
Record Server := mkServer {
  options_ : ServerOptions; running_ : bool; hub_ : Hub; next_session_id_ : Z;
  tcp_listeners_ : list Z; next_listener : Z; ports : gmap Z Port;
  clients_ : gset Key; conns : gmap Key Conn; sessions_ : gmap Key Z;
  owner : Owner; calls : list Call;
}.

Definition with_running b s := mkServer (options_ s) b (hub_ s) (next_session_id_ s) (tcp_listeners_ s)
  (next_listener s) (ports s) (clients_ s) (conns s) (sessions_ s) (owner s) (calls s).
Definition with_hub h n s := mkServer (options_ s) (running_ s) h n (tcp_listeners_ s)
  (next_listener s) (ports s) (clients_ s) (conns s) (sessions_ s) (owner s) (calls s).
Definition with_ports t n p s := mkServer (options_ s) (running_ s) (hub_ s) (next_session_id_ s) t
  n p (clients_ s) (conns s) (sessions_ s) (owner s) (calls s).
Definition with_clients c s := mkServer (options_ s) (running_ s) (hub_ s) (next_session_id_ s) (tcp_listeners_ s)
  (next_listener s) (ports s) c (conns s) (sessions_ s) (owner s) (calls s).
Definition with_conns c s := mkServer (options_ s) (running_ s) (hub_ s) (next_session_id_ s) (tcp_listeners_ s)
  (next_listener s) (ports s) (clients_ s) c (sessions_ s) (owner s) (calls s).
Definition with_sessions m s := mkServer (options_ s) (running_ s) (hub_ s) (next_session_id_ s) (tcp_listeners_ s)
  (next_listener s) (ports s) (clients_ s) (conns s) m (owner s) (calls s).
Definition with_owner o s := mkServer (options_ s) (running_ s) (hub_ s) (next_session_id_ s) (tcp_listeners_ s)
  (next_listener s) (ports s) (clients_ s) (conns s) (sessions_ s) o (calls s).
Definition with_call c s := mkServer (options_ s) (running_ s) (hub_ s) (next_session_id_ s) (tcp_listeners_ s)
  (next_listener s) (ports s) (clients_ s) (conns s) (sessions_ s) (owner s) (calls s ++ [c]).

Definition set_pc p k := mkConn (remote_endpoint k) (closed_ k) (framer k) (last_activity_ms k) (launched k) p
  (received k) (popped k) (session k).
Definition set_session o k := mkConn (remote_endpoint k) (closed_ k) (framer k) (last_activity_ms k) (launched k)
  (pc k) (received k) (popped k) o.
Definition set_closed k := mkConn (remote_endpoint k) true (framer k) (last_activity_ms k) (launched k)
  (pc k) (received k) (popped k) (session k).
Definition set_launched now k := mkConn (remote_endpoint k) (closed_ k) (framer k) now true
  (pc k) (received k) (popped k) (session k).
Definition set_framer f now d k := mkConn (remote_endpoint k) (closed_ k) f now (launched k)
  (pc k) (received k ++ d) (popped k) (session k).
Definition set_popped f line k := mkConn (remote_endpoint k) (closed_ k) f (last_activity_ms k) (launched k)
  (pc k) (received k) (popped k ++ [line]) (session k).
Definition put key k s := with_conns (<[key := k]> (conns s)) s.
Definition set_accept l a s := with_ports (tcp_listeners_ s) (next_listener s)
  (alter (λ p, mkPort (on_ p) (next_connection_id_ p) a (port_options p) (port_transport p)) l (ports s)) s.

(** What the system, the clock and the application do at a step. *)
Inductive Recv := Data (d : bytes) | Eof | TimedOut | RecvError.
Inductive Waited := WaitError | Nothing | WouldBlock | AcceptError | Client (remote : Endpoint).
Record Env := mkEnv {
  e_ok : bool; e_now : Z; e_recv : Recv; e_script : Script; e_sent : list Z; e_text : bytes; e_os : Os;
}.

(** ** The transport *)
(** [src/src/Net/Threaded/TcpServerImpl.cpp:112-125] The entry and the flag go in one step:
    who finds the entry gone leaves the client to the thread that took it. *)
Definition disconnect key s : Server :=
  if decide (key ∈ clients_ s)
  then with_conns (alter set_closed key (conns s)) (with_clients (clients_ s ∖ {[key]}) s)
  else s.
(** [src/src/Net/Threaded/TcpServerImpl.cpp:95-110] {send} The result alone: what
    reaches the wire is [client_send]'s. *)
Definition send key (data : bytes) (sent : list Z) s : bool :=
  if decide (key ∈ clients_ s)
  then match conns s !! key with Some k => (client_send (closed_ k) sent data).1 | None => false end
  else false.
(** [src/src/Net/Threaded/TcpServerImpl.cpp:219-229] With its thread goes the object. *)
Definition finished (p : Pc) : bool := match p with Finished => true | _ => false end.
Definition reap_finished_clients l s : Server :=
  with_conns (filter (λ x : Key * Conn, x.1.1 ≠ l ∨ finished (pc x.2) = false) (conns s)) s.

(** [src/src/Net/Threaded/TcpServerImpl.cpp:243-249] With [on_error]'s callback
    ([src/src/Runtime/TcpListener.cpp:65-67], [Server.cpp:189-198]). *)
Definition report_error (text : bytes) s : Server := with_call (OnError text) s.

(** [src/src/Net/Threaded/TcpServerImpl.cpp:127-152] {accept_loop} Up to the new client. *)
Definition accept_turn l (w : Waited) (text : bytes) s : Server :=
  match ports s !! l with
  | None => s
  | Some p =>
      match accept_thread_ p with
      | Looping =>
          if negb (on_ p) then set_accept l Exited s
          else match w with
          | WaitError => report_error (txt "waiting for TCP client failed: " ++ text) s
          | Nothing | WouldBlock => s
          | AcceptError => report_error (txt "accept() failed: " ++ text) s
          | Client remote =>
              let s := reap_finished_clients l s in
              let c := next_connection_id_ p in
              with_conns (<[(l, c) := mkConn remote false
                  (new_framer (to_max_message_bytes (port_options p))) 0 false Accepted [] [] None]> (conns s))
                (with_ports (tcp_listeners_ s) (next_listener s)
                  (<[l := mkPort (on_ p) (u64 (c + 1)) (Serving c) (port_options p) (port_transport p)]> (ports s)) s)
          end
      | _ => s
      end
  end.

(** The client is dropped unregistered, and its socket with it. *)
Definition drop_client key k (next : AcceptThread) s : Server :=
  set_accept key.1 next (put key (set_pc Finished (set_closed k)) s).

(** ** The handler *)
(** Where the thread goes on when the handler is done. *)
Definition after (r : Reason) sid : Pc :=
  match r with Starting => Launching | Message => Popping | Stopping => Releasing sid end.
(** [src/src/Runtime/Session.cpp:33-67] One operation of the handler's script on its
    session; a throw goes through [report_handler_error]
    ([src/src/Runtime/Server.cpp:148-152,166-170,183-187]). *)
Definition handler_turn key k (r : Reason) sid (script : Script) (e : Env) s : Server :=
  match script with
  | Return => put key (set_pc (after r sid) k) s
  | Throw what => with_call (OnError what) (put key (set_pc (after r sid) k) s)
  | Send data next =>
      let sent := send key data (e_sent e) s in
      let hub := if sent then record_sent sid (zlen data) (e_now e) (hub_ s) else hub_ s in
      put key (set_pc (Handling r sid (next sent)) k) (with_hub hub (next_session_id_ s) s)
  | Authenticate name next =>
      let '(ok, hub) := authenticate sid name (e_now e) (hub_ s) in
      put key (set_pc (Handling r sid (next ok)) k) (with_hub hub (next_session_id_ s) s)
  | Look next =>
      put key (set_pc (Handling r sid (next (is_authenticated sid (hub_ s)) (user_name sid (hub_ s)))) k) s
  | Survey next => put key (set_pc (Handling r sid (next (snapshot (hub_ s)))) k) s
  end.

(** [src/src/Runtime/Server.cpp:132-153] {dispatch_session_started} The check and the call. *)
Definition dispatch_session_started key k sid (e : Env) s : Server :=
  if running_ s
  then with_call (OnStarted sid) (put key (set_pc (Handling Starting sid (e_script e)) k) s)
  else put key (set_pc (after Starting sid) k) s.
(** [src/src/Runtime/Server.cpp:155-171] {dispatch_message} *)
Definition dispatch_message key k sid (line : bytes) (e : Env) s : Server :=
  if running_ s
  then with_call (OnMessage sid line) (put key (set_pc (Handling Message sid (e_script e)) k)
         (with_hub (record_received sid (zlen line) (e_now e) (hub_ s)) (next_session_id_ s) s))
  else put key (set_pc (after Message sid) k) s.
(** [src/src/Runtime/Server.cpp:173-187] {dispatch_session_stopped} *)
Definition dispatch_session_stopped key k sid (e : Env) s : Server :=
  if running_ s
  then with_call (OnStopped sid) (put key (set_pc (Handling Stopping sid (e_script e)) k) s)
  else put key (set_pc (after Stopping sid) k) s.

(** ** The accept thread on a new client *)
(** [src/src/Net/Threaded/TcpServerImpl.cpp:165-179] {accept_loop} The critical section. *)
Definition register_client key k p s : Server :=
  if negb (on_ p) then drop_client key k Exited s
  else if to_max_connections (port_options p) <=? Z.of_nat (size (filter (λ x, x.1 = key.1) (clients_ s)))
  then report_error (txt "connection rejected: max TCP connections reached") (drop_client key k Looping s)
  else put key (set_pc Connecting k) (with_clients ({[key]} ∪ clients_ s) s).

(** [src/src/Runtime/TcpListener.cpp:116-124] {on_connected} *)
Definition admit_session key k p (e : Env) s : Server :=
  let '(id, hub, next) := try_add (port_transport p) (remote_endpoint k) (e_now e)
    (max_sessions (options_ s)) (hub_ s) (next_session_id_ s) in
  let s := with_hub hub next s in
  match id with
  | Some sid => put key (set_session (Some sid) (set_pc (Mapping sid) k)) s
  | None => put key (set_pc Refusing k) s
  end.

(** [src/src/Net/Threaded/TcpServerImpl.cpp:190-217] {launch_client} A failure takes the
    way of a normal end, on this thread; [receive_messages] starts by reading the clock. *)
Definition launch_client key k (e : Env) s : Server :=
  if e_ok e
  then set_accept key.1 Looping (put key (set_pc Receiving (set_launched (e_now e) k)) s)
  else put key (set_pc Ending k) s.

(** ** The client's thread *)
(** [src/src/Net/Threaded/ClientConnection.cpp:82-110] {receive_messages} After the read. *)
Definition receive_turn key k p (e : Env) s : Server :=
  match e_recv e with
  | Data d =>
      let d := take 4096 d in
      if bool_decide (d = []) then put key (set_pc Ending k) s
      else match append d (framer k) with
      | (true, f) => put key (set_pc Popping (set_framer f (e_now e) d k)) s
      | (false, f) =>
          report_error (txt "connection closed: message exceeds max_message_bytes")
            (put key (set_pc Ending (set_framer f (e_now e) [] k)) s)
      end
  | Eof => put key (set_pc Ending k) s
  | RecvError =>
      if closed_ k then put key (set_pc Ending k) s
      else report_error (txt "recv() failed: " ++ e_text e) (put key (set_pc Ending k) s)
  | TimedOut =>
      if closed_ k then put key (set_pc Ending k) s
      else
        let idle := to_idle_timeout_ms (port_options p) in
        if (0 <? idle) && (idle <=? u64 (e_now e - last_activity_ms k))
        then put key (set_pc Ending k) s
        else put key (set_pc Receiving k) s
  end.
(** [src/src/Net/Threaded/ClientConnection.cpp:90-95] {receive_messages} *)
Definition pop_turn key k s : Server :=
  if closed_ k then put key (set_pc Receiving k) s
  else match try_pop (framer k) with
  | (Some line, f) => put key (set_pc (Delivering line) (set_popped f line k)) s
  | (None, f) => put key (set_pc Receiving k) s
  end.
(** [src/src/Runtime/TcpListener.cpp:146-157] {on_disconnected} The mapping. *)
Definition unmap key k s : Server :=
  match sessions_ s !! key with
  | None => put key (set_pc Notified k) s
  | Some sid => put key (set_pc (Reporting sid) k) (with_sessions (delete key (sessions_ s)) s)
  end.
(** [src/src/Runtime/TcpListener.cpp:160-163] {on_disconnected} After the handler. *)
Definition release key k sid s : Server :=
  put key (set_session None (set_pc Notified k)) (with_hub (remove sid (hub_ s)) (next_session_id_ s) s).

(** [src/src/Net/Threaded/TcpServerImpl.cpp:153-164] {accept_loop} One step of the thread that
    serves a connection: the checks between the accept and the registration, then the
    operations above in the order of the loop, of [launch_client] and of [run_client]. *)
Definition turn key (e : Env) s : Server :=
  match conns s !! key, ports s !! key.1 with
  | Some k, Some p =>
      match pc k with
      | Accepted => if on_ p then put key (set_pc Asking k) s else drop_client key k Exited s
      | Asking => if running_ s then put key (set_pc Configuring k) s else drop_client key k Looping s
      | Configuring =>
          match configure_client_socket (e_ok e) (port_options p) with
          | Some _ => put key (set_pc Entering k) s
          | None => report_error (txt "setting client blocking failed: " ++ e_text e) (drop_client key k Looping s)
          end
      | Entering => register_client key k p s
      | Connecting => put key (set_pc (if running_ s then Admitting else Refusing) k) s
      | Admitting => admit_session key k p e s
      | Mapping sid => put key (set_pc (Announcing sid) k) (with_sessions (<[key := sid]> (sessions_ s)) s)
      | Announcing sid => dispatch_session_started key k sid e s
      | Refusing => disconnect key (put key (set_pc Launching k) s)
      | Launching => launch_client key k e s
      | Receiving => put key (set_pc (if closed_ k then Ending else Reading) k) s
      | Reading => receive_turn key k p e s
      | Popping => pop_turn key k s
      | Delivering line =>
          put key (set_pc (match sessions_ s !! key with Some sid => Dispatching sid line | None => Popping end) k) s
      | Dispatching sid line => dispatch_message key k sid line e s
      | Handling r sid script => handler_turn key k r sid script e s
      | Ending => disconnect key (put key (set_pc Disconnected k) s)
      | Disconnected => unmap key k s
      | Reporting sid => dispatch_session_stopped key k sid e s
      | Releasing sid => release key k sid s
      | Notified =>
          let s := put key (set_pc Finished k) s in
          if launched k then s
          else report_error (txt "starting TCP client thread failed: " ++ e_text e) (set_accept key.1 Looping s)
      | Finished => s
      end
  | _, _ => s
  end.

(** ** The owner *)
(** [src/src/Runtime/Server.cpp:34-53] {start} The checks. *)
Definition check_listeners (ls : list ListenerOptions) : result bytes unit :=
  if bool_decide (ls = []) then Err (txt "server has no listeners")
  else match head (filter (λ l, lo_enabled l && negb (bool_decide (lo_transport l = TransportKind.Tcp))) ls) with
  | Some l => Err (txt "transport is not implemented yet: " ++ TransportKind.to_string (lo_transport l))
  | None => Ok tt
  end.
(** [src/src/Runtime/Server.cpp:28-55] {start} Up to the first listener. *)
Definition start_server s : result bytes bool * Server :=
  if running_ s then (Ok true, s)
  else match check_listeners (listener_options (options_ s)) with
  | Err e => (Err e, s)
  | Ok _ => (Ok false, with_owner (StartingUp (listener_options (options_ s))) (with_running true s))
  end.
(** [src/src/Runtime/Server.cpp:97-106] {stop} Up to the first listener. *)
Definition stop_server s : Server :=
  if running_ s then with_owner (StopPort (tcp_listeners_ s)) (with_running false s) else s.

(** [src/src/Net/Threaded/TcpServerImpl.cpp:20-53] {start} Of a new transport: whether it
    listens. The completion-port backend does not exist in this build
    ([src/src/Net/TcpIocpServer.cpp:20-32]). *)
Definition transport_start (backend : TcpBackend.TcpBackend) (o : TcpServerOptions) (e : Env) : result bytes unit :=
  match backend with
  | TcpBackend.Iocp => Err (txt "IOCP TCP backend is only available on Windows")
  | TcpBackend.Threaded =>
      match (open_listener (e_os e) (to_bind_endpoint o) ∅).1 with
      | Err m => Err m
      | Ok _ => if e_ok e then Ok tt else Err (txt "starting TCP accept thread failed: " ++ e_text e)
      end
  end.
(** [src/src/Runtime/Server.cpp:66-92] {start} One listener; a failure stops the others. *)
Definition start_listener (l : ListenerOptions) (rest : list ListenerOptions) (e : Env) s : Server :=
  if negb (lo_enabled l) then with_owner (StartingUp rest) s
  else
    let o := transport_options (options_ s) l in
    match transport_start (tcp_backend (options_ s)) o e with
    | Err _ => stop_server s
    | Ok _ =>
        let n := next_listener s in
        with_owner (StartingUp rest)
          (with_ports (tcp_listeners_ s ++ [n]) (n + 1)
             (<[n := mkPort true 1 Looping o (lo_transport l)]> (ports s)) s)
    end.

(** [src/src/Net/Threaded/TcpServerImpl.cpp:61-72] {stop} The registry is emptied and
    every client in it interrupted. *)
Definition interrupt_clients l s : Server :=
  let mine := filter (λ x, x.1 = l) (clients_ s) in
  with_conns (map_imap (λ key k, Some (if decide (key ∈ mine) then set_closed k else k)) (conns s))
    (with_clients (clients_ s ∖ mine) s).
(** [src/src/Net/Threaded/TcpServerImpl.cpp:81-86] {stop} *)
Definition clients_done l s : bool :=
  bool_decide (map_Forall (λ (key : Key) k, key.1 ≠ l ∨ finished (pc k) = true) (conns s)).
(** [src/src/Net/Threaded/TcpServerImpl.cpp:73-79] {stop} *)
Definition accept_done l s : bool :=
  match ports s !! l with
  | Some p => match accept_thread_ p with Exited => true | _ => false end
  | None => true
  end.
(** [src/src/Runtime/TcpListener.cpp:36-48] {stop} Sessions left over, once the transport
    has stopped; the listener's connections went with their threads. *)
Definition forget_listener l s : Server :=
  let left := filter (λ x : Key * Z, x.1.1 = l) (sessions_ s) in
  let hub := foldr remove (hub_ s) (map_to_list left).*2 in
  with_conns (filter (λ x : Key * Conn, x.1.1 ≠ l) (conns s))
    (with_sessions (filter (λ x : Key * Z, x.1.1 ≠ l) (sessions_ s)) (with_hub hub (next_session_id_ s) s)).
(** [src/src/Net/Threaded/TcpServerImpl.cpp:55-59] {stop} *)
Definition close_port l s : Server :=
  with_ports (tcp_listeners_ s) (next_listener s)
    (alter (λ p, mkPort false (next_connection_id_ p) (accept_thread_ p) (port_options p) (port_transport p)) l
      (ports s)) s.

(** [src/src/Runtime/Server.cpp:97-110] One step of the owner in [start] or [stop];
    a join waits for its threads. *)
Definition owner_turn (e : Env) s : Server :=
  match owner s with
  | Idle => s
  | StartingUp [] => with_owner Idle s
  | StartingUp (l :: rest) => start_listener l rest e s
  | StopPort [] => with_owner Idle (with_ports [] (next_listener s) ∅ s)
  | StopPort (l :: rest) =>
      match ports s !! l with
      | Some p => if on_ p then with_owner (Interrupt l rest) (close_port l s) else with_owner (Forget l rest) s
      | None => with_owner (Forget l rest) s
      end
  | Interrupt l rest => with_owner (JoinAccept l rest) (interrupt_clients l s)
  | JoinAccept l rest => if accept_done l s then with_owner (JoinClients l rest) s else s
  | JoinClients l rest => if clients_done l s then with_owner (Forget l rest) s else s
  | Forget l rest => with_owner (StopPort rest) (forget_listener l s)
  end.

(** ** Steps *)
Inductive Action :=
| StartServer | StopServer | Own (e : Env) | AcceptTurn (l : Z) (w : Waited) (text : bytes) | Turn (key : Key) (e : Env).
(** The owner calls [start] and [stop] one after the other. *)
Definition step s (a : Action) : Server :=
  match a with
  | StartServer => match owner s with Idle => (start_server s).2 | _ => s end
  | StopServer => match owner s with Idle => stop_server s | _ => s end
  | Own e => owner_turn e s
  | AcceptTurn l w text => accept_turn l w text s
  | Turn key e => turn key e s
  end.
(** [src/src/Runtime/Server.cpp:15-21] {Server} *)
Definition new_server (o : ServerOptions) : Server :=
  mkServer o false ∅ 1 [] 1 ∅ ∅ ∅ ∅ Idle [].
