(* ===== verification/RuntimeInvariant.v ===== *)
(** RuntimeInvariant: what holds of the runtime between any two steps: which session
    belongs to which connection, what the handler has seen of it, what the framer has
    made of the bytes received, and what the owner has still to stop. *)
From S2P Require Import Prelude.
From S2P Require Import Text.
From S2P Require Import Kinds.
From S2P Require Import LineFramer.
From S2P Require Import RuntimeHub.
From S2P Require Import ThreadedClient.
From S2P Require Import RuntimeServer.

(** ** What the handler has seen of a session *)
Definition about (c : Call) : option Z :=
  match c with OnStarted sid | OnMessage sid _ | OnStopped sid => Some sid | OnError _ => None end.
Definition word (s : Server) (sid : Z) : list Call := filter (λ c, about c = Some sid) (calls s).
Definition begun (sid : Z) (ms : list bytes) : list Call := OnStarted sid :: (OnMessage sid <$> ms).
(** Nothing, or a start and messages, or those and a stop. *)
Definition word_ok (sid : Z) (w : list Call) : Prop :=
  w = [] ∨ ∃ ms, w = begun sid ms ∨ w = begun sid ms ++ [OnStopped sid].

(** ** One connection *)
(** The line its thread holds, popped and not given to the handler yet. *)
Definition in_hand (p : Pc) : list bytes :=
  match p with Delivering line | Dispatching _ line => [line] | _ => [] end.
(** The handler has seen the lines popped; once the runtime is stopping, maybe fewer. *)
Definition open_word (s : Server) (sid : Z) (k : Conn) : Prop :=
  (∃ ms, word s sid = begun sid ms ∧
     if running_ s then popped k = ms ++ in_hand (pc k) else ms `prefix_of` popped k) ∨
  (running_ s = false ∧ word s sid = []).
Definition conn_ok (s : Server) (key : Key) (k : Conn) : Prop :=
  match pc k with
  | Accepted | Asking | Configuring | Entering | Connecting | Admitting | Refusing =>
      session k = None ∧ sessions_ s !! key = None ∧ popped k = []
  | Mapping sid => session k = Some sid ∧ sessions_ s !! key = None ∧ popped k = [] ∧ word s sid = []
  | Announcing sid => session k = Some sid ∧ sessions_ s !! key = Some sid ∧ popped k = [] ∧ word s sid = []
  | Launching | Receiving | Reading | Popping | Delivering _ | Ending | Disconnected =>
      sessions_ s !! key = session k ∧ ∀ sid, session k = Some sid → open_word s sid k
  | Dispatching sid _ => session k = Some sid ∧ sessions_ s !! key = Some sid ∧ open_word s sid k
  | Handling Starting sid _ | Handling Message sid _ =>
      session k = Some sid ∧ sessions_ s !! key = Some sid ∧ open_word s sid k
  | Reporting sid => session k = Some sid ∧ sessions_ s !! key = None ∧ open_word s sid k
  | Handling Stopping sid _ | Releasing sid => session k = Some sid ∧ sessions_ s !! key = None
  | Notified | Finished => session k = None ∧ sessions_ s !! key = None
  end.
(** The lines popped and those in the framer are the lines of the bytes received. *)
Definition framer_ok (k : Conn) : Prop :=
  popped k ++ (strip_cr <$> (split_go [] (unread (framer k))).1) = messages (received k) ∧
  (split_go [] (unread (framer k))).2 = (split_go [] (received k)).2.

(** ** The owner *)
(** The listeners it has still to stop, and those it has not begun with. *)
Definition remaining (s : Server) : list Z :=
  match owner s with
  | StopPort ls => ls
  | Interrupt l ls | JoinAccept l ls | JoinClients l ls | Forget l ls => l :: ls
  | Idle | StartingUp _ => tcp_listeners_ s
  end.
Definition untouched (s : Server) : list Z :=
  match owner s with
  | Interrupt _ ls | JoinAccept _ ls | JoinClients _ ls | Forget _ ls => ls
  | _ => remaining s
  end.
Definition owner_ok (s : Server) : Prop :=
  match owner s with
  | Idle => running_ s = false → tcp_listeners_ s = []
  | StartingUp _ => running_ s = true
  | Forget l _ => running_ s = false ∧ ∀ key k, conns s !! key = Some k → key.1 = l → pc k = Finished
  | _ => running_ s = false
  end.

(** After [n] steps. *)
Record inv (n : Z) (s : Server) : Prop := {
  iv_conns key k : conns s !! key = Some k → conn_ok s key k ∧ framer_ok k;
  iv_hub sid : is_Some (hub_ s !! sid) ↔ ∃ key k, conns s !! key = Some k ∧ session k = Some sid;
  iv_unique key k key' k' sid : conns s !! key = Some k → conns s !! key' = Some k' →
    session k = Some sid → session k' = Some sid → key = key';
  iv_issued key k sid : conns s !! key = Some k → session k = Some sid → 1 ≤ sid < next_session_id_ s;
  iv_next : 1 ≤ next_session_id_ s ≤ 1 + n;
  iv_fresh sid : next_session_id_ s ≤ sid → word s sid = [];
  iv_words sid : word_ok sid (word s sid);
  iv_mapped key : is_Some (sessions_ s !! key) → is_Some (conns s !! key);
  iv_count : count (hub_ s) ≤ Z.max 0 (max_sessions (options_ s));
  iv_ports l p : ports s !! l = Some p → l < next_listener s ∧ 1 ≤ next_connection_id_ p ≤ 1 + n;
  iv_keys key k : conns s !! key = Some k →
    key.1 ∈ remaining s ∧ ∃ p, ports s !! key.1 = Some p ∧ 1 ≤ key.2 < next_connection_id_ p;
  iv_on l p : ports s !! l = Some p → on_ p = true → l ∈ untouched s;
  iv_untouched l : l ∈ untouched s → ∃ p, ports s !! l = Some p ∧ on_ p = true;
  iv_nodup : NoDup (remaining s);
  iv_owner : owner_ok s;
}.
