(* ===== verification/RuntimeSteps.v ===== *)
(** RuntimeSteps: every step of the runtime keeps its invariant. A turn of a
    connection's thread is local: it changes that connection, its session and the
    handler's calls about it, and nothing of the others. *)
From S2P Require Import Prelude.
From S2P Require Import Text.
From S2P Require Import Kinds.
From S2P Require Import LineFramer.
From S2P Require Import RuntimeHub.
From S2P Require Import ThreadedClient.
From S2P Require Import RuntimeServer.
From S2P Require Import RuntimeInvariant.

Implicit Types (s : Server) (key : Key) (k : Conn) (sid : Z).

(** ** Local steps *)
Definition port_view (p : Port) : bool * Z := (on_ p, next_connection_id_ p).
Record local_step s s' key k k' : Prop := {
  ls_conns : conns s' = <[key := k']> (conns s);
  ls_sessions key' : key' ≠ key → sessions_ s' !! key' = sessions_ s !! key';
  ls_words sid : session k ≠ Some sid → session k' ≠ Some sid → word s' sid = word s sid;
  ls_running : running_ s' = running_ s;
  ls_owner : owner s' = owner s;
  ls_listeners : tcp_listeners_ s' = tcp_listeners_ s;
  ls_options : options_ s' = options_ s;
  ls_next_listener : next_listener s' = next_listener s;
  ls_ports l : port_view <$> ports s' !! l = port_view <$> ports s !! l;
  ls_hub sid : is_Some (hub_ s' !! sid) ↔
    session k' = Some sid ∨ (is_Some (hub_ s !! sid) ∧ session k ≠ Some sid);
  ls_session :
    (session k' = session k ∧ next_session_id_ s' = next_session_id_ s) ∨
    (session k' = None ∧ next_session_id_ s' = next_session_id_ s) ∨
    (session k = None ∧ session k' = Some (next_session_id_ s) ∧
     next_session_id_ s' = next_session_id_ s + 1);
  ls_count : count (hub_ s') ≤ Z.max 0 (max_sessions (options_ s));
  ls_word_ok sid : session k = Some sid ∨ session k' = Some sid → word_ok sid (word s' sid);
  ls_ok : conn_ok s' key k';
  ls_framer : framer_ok k';
  ls_alive : pc k ≠ Finished;
}.

(** Another connection does not notice. *)
Lemma conn_ok_other s s' key k :
  sessions_ s' !! key = sessions_ s !! key → running_ s' = running_ s →
  (∀ sid, session k = Some sid → word s' sid = word s sid) →
  conn_ok s key k → conn_ok s' key k.
Proof.
  intros Hs Hr Hw. unfold conn_ok, open_word. rewrite Hs, Hr.
  destruct (pc k) as [| | | | | |sid|sid| | | | | |line|sid line|r sid sc| | |sid|sid| |]; try done.
  1,2: intros (Hk & H2 & H3 & H4); rewrite (Hw _ Hk); done.
  all: try (intros [H1 H2]; split; [done|]; intros sid Hk; rewrite (Hw _ Hk); auto; done).
  - intros (Hk & H2 & H3). rewrite (Hw _ Hk). done.
  - destruct r; try done; intros (Hk & H2 & H3); rewrite (Hw _ Hk); done.
  - intros (Hk & H2 & H3). rewrite (Hw _ Hk). done.
Qed.

Lemma inv_local n s s' key k k' :
  inv n s → conns s !! key = Some k → local_step s s' key k k' → n + 2 < 2 ^ 64 → inv (n + 1) s'.
Proof.
  intros Hi Hk Hl Hn. destruct Hl.
  destruct Hi as [iv_conns0 iv_hub0 iv_unique0 iv_issued0 iv_next0 iv_fresh0 iv_words0 iv_mapped0 iv_count0
    iv_ports0 iv_keys0 iv_on0 iv_untouched0 iv_nodup0 iv_owner0].
  assert (remaining s' = remaining s) as Erem by (unfold remaining; by rewrite ls_owner0, ls_listeners0).
  assert (untouched s' = untouched s) as Eunt by (unfold untouched; by rewrite Erem, ls_owner0).
  assert (∀ l p', ports s' !! l = Some p' → ∃ p, ports s !! l = Some p ∧ on_ p' = on_ p ∧
    next_connection_id_ p' = next_connection_id_ p) as Hports.
  { intros l p' Hp. specialize (ls_ports0 l). rewrite Hp in ls_ports0.
    destruct (ports s !! l) as [p|]; [|done]. injection ls_ports0 as ? ?. by exists p. }
  assert (∀ l p, ports s !! l = Some p → ∃ p', ports s' !! l = Some p' ∧ on_ p' = on_ p ∧
    next_connection_id_ p' = next_connection_id_ p) as Hports'.
  { intros l p Hp. specialize (ls_ports0 l). rewrite Hp in ls_ports0.
    destruct (ports s' !! l) as [p'|]; [|done]. injection ls_ports0 as ? ?. by exists p'. }
  assert (next_session_id_ s ≤ next_session_id_ s' ≤ next_session_id_ s + 1) as Hnext
    by (destruct ls_session0 as [[_ ?]|[[_ ?]|(_ & _ & ?)]]; lia).
  assert (∀ sid, session k' = Some sid → 1 ≤ sid < next_session_id_ s') as Hissued'.
  { intros sid E. destruct ls_session0 as [[E' ?]|[[? ?]|(_ & E' & ?)]]; [|congruence|].
    - rewrite E in E'. pose proof (iv_issued0 _ _ _ Hk (eq_sym E')). lia.
    - rewrite E in E'. injection E' as ->. lia. }
  (* a session of another connection is not this one's, before or after *)
  assert (∀ key2 k2 sid, conns s !! key2 = Some k2 → key2 ≠ key → session k2 = Some sid →
    session k ≠ Some sid ∧ session k' ≠ Some sid) as Hother.
  { intros key2 k2 sid H2 Hne E. split.
    - intros E'. by apply Hne, (iv_unique0 key2 k2 key k sid).
    - intros E'. destruct ls_session0 as [[Es ?]|[[? ?]|(_ & Es & ?)]]; [|congruence|].
      + apply Hne, (iv_unique0 key2 k2 key k sid); congruence.
      + rewrite E' in Es. injection Es as ->. pose proof (iv_issued0 _ _ _ H2 E). lia. }
  assert (∀ key2 k2, conns s' !! key2 = Some k2 → (key2 = key ∧ k2 = k') ∨ (key2 ≠ key ∧ conns s !! key2 = Some k2))
    as Hconns.
  { intros key2 k2. rewrite ls_conns0, lookup_insert_Some. naive_solver. }
  split.
  - intros key2 k2 [[-> ->]|[Hne H2]]%Hconns; [done|]. destruct (iv_conns0 _ _ H2) as [Hok Hfr].
    split; [|done]. eapply conn_ok_other; [by apply ls_sessions0|done| |done].
    intros sid E. destruct (Hother _ _ _ H2 Hne E). by apply ls_words0.
  - intros sid. rewrite ls_hub0, iv_hub0. split.
    + intros [E|[(key2 & k2 & H2 & E) Hne]].
      * exists key, k'. by rewrite ls_conns0, lookup_insert_eq.
      * exists key2, k2. split; [|done]. rewrite ls_conns0, lookup_insert_ne; [done|]. intros <-. congruence.
    + intros (key2 & k2 & [[-> ->]|[Hne H2]]%Hconns & E); [by left|]. right.
      destruct (Hother _ _ _ H2 Hne E). eauto.
  - intros key1 k1 key2 k2 sid H1 H2 E1 E2. apply Hconns in H1, H2.
    destruct H1 as [[-> ->]|[Hne1 H1]], H2 as [[-> ->]|[Hne2 H2]]; [done| | |by eapply iv_unique0].
    + by destruct (Hother _ _ _ H2 Hne2 E2).
    + by destruct (Hother _ _ _ H1 Hne1 E1).
  - intros key2 k2 sid [[-> ->]|[Hne H2]]%Hconns E; [by apply Hissued'|].
    pose proof (iv_issued0 _ _ _ H2 E). lia.
  - lia.
  - intros sid Hsid. rewrite ls_words0; [apply iv_fresh0; lia| |].
    + intros E. pose proof (iv_issued0 _ _ _ Hk E). lia.
    + intros E. pose proof (Hissued' _ E). lia.
  - intros sid. destruct (decide (session k = Some sid)); [by apply ls_word_ok0; left|].
    destruct (decide (session k' = Some sid)); [by apply ls_word_ok0; right|]. by rewrite ls_words0.
  - intros key2 Hm. rewrite ls_conns0. destruct (decide (key2 = key)) as [->|Hne].
    + rewrite lookup_insert_eq. by eexists.
    + rewrite lookup_insert_ne by done. rewrite ls_sessions0 in Hm by done. auto.
  - by rewrite ls_options0.
  - intros l p' (p & Hp & _ & E)%Hports. rewrite ls_next_listener0, E. pose proof (iv_ports0 _ _ Hp). lia.
  - intros key2 k2 Hk2. rewrite Erem.
    assert (∃ k0, conns s !! key2 = Some k0) as [k0 H0] by (apply Hconns in Hk2 as [[-> ->]|[_ ?]]; eauto).
    destruct (iv_keys0 _ _ H0) as (? & p & Hp & ?). split; [done|].
    destruct (Hports' _ _ Hp) as (p' & Hp' & _ & E). exists p'. by rewrite E.
  - intros l p' (p & Hp & E & _)%Hports. rewrite E, Eunt. by apply iv_on0.
  - intros l. rewrite Eunt. intros (p & Hp & E)%iv_untouched0.
    destruct (Hports' _ _ Hp) as (p' & Hp' & E' & _). exists p'. by rewrite E'.
  - by rewrite Erem.
  - unfold owner_ok in *. rewrite ls_owner0, ls_running0, ls_listeners0. destruct (owner s); try done.
    destruct iv_owner0 as [? Hf]. split; [done|]. intros key2 k2 [[-> ->]|[Hne H2]]%Hconns E; [|by eapply Hf].
    by destruct ls_alive0; eapply Hf.
Qed.

(** ** What the updates leave alone *)
Record frame s s' : Prop := {
  fr_running : running_ s' = running_ s;
  fr_owner : owner s' = owner s;
  fr_listeners : tcp_listeners_ s' = tcp_listeners_ s;
  fr_options : options_ s' = options_ s;
  fr_next_listener : next_listener s' = next_listener s;
  fr_next : next_session_id_ s' = next_session_id_ s;
  fr_ports l : port_view <$> ports s' !! l = port_view <$> ports s !! l;
  fr_hub : dom (hub_ s') = dom (hub_ s);
}.
#[local] Instance frame_preorder : PreOrder frame.
Proof. split; [by split|]. intros x y z [] []. split; intros; etrans; eauto. Qed.

Lemma frame_conns c s : frame s (with_conns c s).
Proof. by split. Qed.
Lemma frame_put key k s : frame s (put key k s).
Proof. apply frame_conns. Qed.
Lemma frame_call c s : frame s (with_call c s).
Proof. by split. Qed.
Lemma frame_clients c s : frame s (with_clients c s).
Proof. by split. Qed.
Lemma frame_sessions m s : frame s (with_sessions m s).
Proof. by split. Qed.
Lemma frame_accept l a s : frame s (set_accept l a s).
Proof.
  split; try done. intros l'. unfold set_accept. simpl. rewrite lookup_alter.
  case_decide; [subst|done]. by destruct (ports s !! _).
Qed.
Lemma frame_hub h s : dom h = dom (hub_ s) → frame s (with_hub h (next_session_id_ s) s).
Proof. by split. Qed.
Create HintDb runtime.
#[local] Hint Resolve frame_put frame_call frame_clients frame_sessions frame_accept frame_hub frame_conns : runtime.
(** Peel the updates of a state one by one. *)
Ltac frames := repeat (reflexivity || (etrans; [|solve [eauto with runtime]])).

Lemma frame_disconnect key s : frame s (disconnect key s).
Proof. unfold disconnect. case_decide; [|done]. etrans; [|apply frame_conns]. apply frame_clients. Qed.
Lemma frame_drop key k a s : frame s (drop_client key k a s).
Proof. unfold drop_client. etrans; [|apply frame_accept]. apply frame_put. Qed.
#[local] Hint Resolve frame_disconnect frame_drop : runtime.

Lemma frame_count s s' : frame s s' → count (hub_ s') = count (hub_ s).
Proof. intros []. by rewrite !count_dom, fr_hub0. Qed.
Lemma frame_lookup s s' sid : frame s s' → is_Some (hub_ s' !! sid) ↔ is_Some (hub_ s !! sid).
Proof. intros Hf. pose proof (fr_hub _ _ Hf) as E. by rewrite <- !(elem_of_dom (D := gset Z)), E. Qed.

(** A turn that keeps the connection's session, and says at most something of it. *)
Lemma inv_turn n s s' key k k' :
  inv n s → n + 2 < 2 ^ 64 → conns s !! key = Some k → pc k ≠ Finished →
  frame s s' → conns s' = <[key := k']> (conns s) → session k' = session k →
  (∀ key', key' ≠ key → sessions_ s' !! key' = sessions_ s !! key') →
  (∀ sid, session k ≠ Some sid → word s' sid = word s sid) →
  (∀ sid, session k = Some sid → word_ok sid (word s' sid)) →
  conn_ok s' key k' → framer_ok k' → inv (n + 1) s'.
Proof.
  intros Hi Hn Hk Hp Hf Hc Hs Hm Hw Hwok Hok Hfr. pose proof Hf as [].
  apply (inv_local n s s' key k k'); try done. split; try done.
  - intros sid ? ?. by apply Hw.
  - intros sid. rewrite (frame_lookup _ _ _ Hf), Hs. split; [|by intros [?|[? _]]; [apply (iv_hub _ _ Hi); eauto|]].
    intros Hin. destruct (decide (session k = Some sid)); auto.
  - by left.
  - rewrite (frame_count _ _ Hf). apply (iv_count _ _ Hi).
  - intros sid. rewrite Hs. intros [E|E]; auto.
Qed.

(** And that says nothing. *)
Lemma inv_quiet n s s' key k k' :
  inv n s → n + 2 < 2 ^ 64 → conns s !! key = Some k → pc k ≠ Finished →
  frame s s' → conns s' = <[key := k']> (conns s) → session k' = session k →
  sessions_ s' = sessions_ s → (∀ sid, word s' sid = word s sid) →
  conn_ok s key k' → framer_ok k' → inv (n + 1) s'.
Proof.
  intros Hi Hn Hk Hp Hf Hc Hs Hm Hw Hok Hfr. apply (inv_turn n s s' key k k'); try done.
  - intros. by rewrite Hm.
  - intros sid _. rewrite Hw. apply (iv_words _ _ Hi).
  - eapply conn_ok_other; [by rewrite Hm|by apply fr_running| |done]. intros. apply Hw.
Qed.

(** ** Words *)
Lemma word_call c s sid : word (with_call c s) sid = word s sid ++ (if decide (about c = Some sid) then [c] else []).
Proof. unfold word. simpl. by rewrite filter_app. Qed.
Lemma word_error t s sid : word (with_call (OnError t) s) sid = word s sid.
Proof. rewrite word_call. simpl. by rewrite app_nil_r. Qed.

(** ** Turns that say nothing *)
Lemma inv_put n s key k k' :
  inv n s → n + 2 < 2 ^ 64 → conns s !! key = Some k → pc k ≠ Finished →
  session k' = session k → conn_ok s key k' → framer_ok k' → inv (n + 1) (put key k' s).
Proof. intros. by eapply inv_quiet. Qed.
Lemma inv_error n s key k k' t s0 :
  inv n s → n + 2 < 2 ^ 64 → conns s !! key = Some k → pc k ≠ Finished →
  session k' = session k → conn_ok s key k' → framer_ok k' →
  frame s s0 → conns s0 = <[key := k']> (conns s) → sessions_ s0 = sessions_ s → calls s0 = calls s →
  inv (n + 1) (report_error t s0).
Proof.
  intros Hi Hn Hk Hp Hs Hok Hfr Hf Hc Hm Hcalls. eapply inv_quiet; try done.
  - etrans; [done|apply frame_call].
  - intros sid. unfold report_error. rewrite word_error. unfold word. by rewrite Hcalls.
Qed.

Lemma inv_drop n s key k a :
  inv n s → n + 2 < 2 ^ 64 → conns s !! key = Some k → pc k ≠ Finished → session k = None →
  sessions_ s !! key = None → inv (n + 1) (drop_client key k a s).
Proof.
  intros Hi Hn Hk Hp Hs Hm. eapply (inv_quiet n s _ key k (set_pc Finished (set_closed k))); try done.
  - apply frame_drop.
  - apply (iv_conns _ _ Hi _ _ Hk).
Qed.

Lemma conns_disconnect key k s : ∃ k', conns (disconnect key (put key k s)) = <[key := k']> (conns s) ∧
  (k' = k ∨ k' = set_closed k).
Proof.
  unfold disconnect. case_decide; simpl.
  - exists (set_closed k). split; [|by right]. apply map_eq. intros j. rewrite lookup_alter, !lookup_insert.
    repeat case_decide; simplify_eq; done.
  - exists k. auto.
Qed.
Lemma inv_disconnect n s key k k' :
  inv n s → n + 2 < 2 ^ 64 → conns s !! key = Some k → pc k ≠ Finished →
  session k' = session k → conn_ok s key k' → framer_ok k' → inv (n + 1) (disconnect key (put key k' s)).
Proof.
  intros Hi Hn Hk Hp Hs Hok Hfr. destruct (conns_disconnect key k' s) as (k2 & Hc & Hk2).
  eapply (inv_quiet n s _ key k k2); try done.
  - etrans; [apply frame_put|apply frame_disconnect].
  - by destruct Hk2 as [-> | ->].
  - unfold disconnect. by case_decide.
  - intros. unfold disconnect. by case_decide.
  - by destruct Hk2 as [-> | ->].
  - by destruct Hk2 as [-> | ->].
Qed.

(** ** Each step of a connection's thread *)
Section Turn.
Context (n : Z) (s : Server) (key : Key) (k : Conn) (e : Env).
Context (Hi : inv n s) (Hn : n + 2 < 2 ^ 64) (Hk : conns s !! key = Some k).

Lemma Hok : conn_ok s key k.
Proof. apply (iv_conns _ _ Hi _ _ Hk). Qed.
Lemma Hfr : framer_ok k.
Proof. apply (iv_conns _ _ Hi _ _ Hk). Qed.
#[local] Hint Resolve Hok Hfr : core.

(** The move to a program counter with the same duties. *)
Lemma inv_move p : pc k ≠ Finished → conn_ok s key (set_pc p k) → inv (n + 1) (put key (set_pc p k) s).
Proof. intros. by apply (inv_put n s key k); [..|apply Hfr]. Qed.

(** Discharge what a move leaves: the counter before, the lines, what else moved. *)
Ltac settle Hp := try done; try (by rewrite Hp); try apply Hfr; try solve [frames].

Lemma turn_register p : pc k = Entering → inv (n + 1) (register_client key k p s).
Proof.
  intros Hp. pose proof Hok as Hc. unfold conn_ok in Hc. rewrite Hp in Hc. destruct Hc as (H1 & H2 & H3).
  unfold register_client. destruct (negb _); [apply inv_drop; settle Hp|]. destruct (_ <=? _).
  - eapply (inv_error n s key k (set_pc Finished (set_closed k))); settle Hp.
  - eapply (inv_quiet n s _ key k (set_pc Connecting k)); settle Hp.
Qed.

Lemma framer_append d f : append d (framer k) = (true, f) → framer_ok (set_framer f (e_now e) d k).
Proof.
  intros Ha. pose proof Hfr as [F1 F2]. unfold framer_ok. simpl.
  assert (unread f = unread (framer k) ++ d) as ->.
  { unfold append in Ha. destruct (failed _); [done|]. destruct d as [|b d]; [injection Ha as <-; by rewrite app_nil_r|].
    destruct (scan _ _ _) as [[] c]; [|done]. injection Ha as <-. unfold unread. simpl. by rewrite drop_0. }
  unfold messages in *. rewrite !split_go_app. simpl. rewrite F2, !fmap_app, app_assoc, F1. done.
Qed.
Lemma framer_pop line f : try_pop (framer k) = (Some line, f) → framer_ok (set_popped f line k).
Proof.
  intros Ht. pose proof Hfr as [F1 F2]. unfold framer_ok. simpl. unfold try_pop in Ht.
  destruct (failed _); [done|]. fold (unread (framer k)) in Ht.
  destruct (find_newline _) as [j|] eqn:E; [|done]. injection Ht as <- <-.
  apply find_newline_split in E as [Hs Hj].
  assert (unread (mkFramer (LineFramer.max_message_bytes (framer k)) (pending (framer k))
    (consumed_bytes (framer k) + j + 1) (current_line_bytes (framer k)) false) = drop (S j) (unread (framer k))) as ->.
  { unfold unread. simpl. rewrite drop_drop. f_equal. lia. }
  rewrite Hs in F1, F2. simpl in F1, F2. split; [|done]. rewrite <- F1, <- app_assoc. done.
Qed.

Lemma turn_receive p : pc k = Reading → inv (n + 1) (receive_turn key k p e s).
Proof.
  intros Hp. pose proof Hok as Hc. unfold conn_ok in Hc. rewrite Hp in Hc.
  assert (∀ q k', match q with Receiving | Ending | Popping => True | _ => False end →
    pc k' = q → session k' = session k → popped k' = popped k → conn_ok s key k') as Hstay.
  { intros q k' Hq Hpc Hs Hpop. unfold open_word in Hc. rewrite Hp in Hc.
    unfold conn_ok, open_word. rewrite Hpc, Hs, Hpop. by destruct q. }
  assert (∀ q, match q with Receiving | Ending | Popping => True | _ => False end →
    inv (n + 1) (put key (set_pc q k) s)) as Hgo.
  { intros q Hq. apply inv_move; [by rewrite Hp|by eapply Hstay]. }
  unfold receive_turn. destruct (e_recv e) as [d| | |].
  - set (d' := take 4096 d). case_bool_decide; [by apply (Hgo Ending)|].
    destruct (append d' (framer k)) as [[] f] eqn:Ha.
    + apply (inv_put n s key k); settle Hp; [by eapply (Hstay Popping)|by apply framer_append].
    + apply (inv_error n s key k (set_pc Ending (set_framer f (e_now e) [] k))); settle Hp;
        [by eapply (Hstay Ending)|].
      pose proof Hfr as [F1 F2]. unfold framer_ok. simpl. rewrite app_nil_r.
      assert (unread f = unread (framer k)) as ->; [|done].
      unfold append in Ha. destruct (failed (framer k)); [by injection Ha as <-|].
      destruct d'; [done|]. destruct (scan _ _ _) as [[] c]; [done|]. by injection Ha as <-.
  - by apply (Hgo Ending).
  - destruct (closed_ k); [by apply (Hgo Ending)|].
    destruct (_ && _); [by apply (Hgo Ending)|by apply (Hgo Receiving)].
  - destruct (closed_ k); [by apply (Hgo Ending)|].
    apply (inv_error n s key k (set_pc Ending k)); settle Hp. by eapply (Hstay Ending).
Qed.

Lemma turn_pop : pc k = Popping → inv (n + 1) (pop_turn key k s).
Proof.
  intros Hp. pose proof Hok as Hc. unfold conn_ok, open_word in Hc. rewrite Hp in Hc.
  assert (inv (n + 1) (put key (set_pc Receiving k) s)) as Hback by (apply inv_move; [by rewrite Hp|done]).
  unfold pop_turn. destruct (closed_ k); [done|].
  destruct (try_pop (framer k)) as [[line|] f] eqn:Ht; [|done].
  apply (inv_put n s key k); settle Hp; [|by apply framer_pop].
  unfold conn_ok, open_word. simpl. destruct Hc as [H1 H2]. split; [done|]. intros sid E.
  destruct (H2 sid E) as [(ms & Hw & Hpop)|?]; [|by right]. left. exists ms. split; [done|].
  destruct (running_ s); simpl in *; [rewrite Hpop, app_nil_r; done|by apply prefix_app_r].
Qed.

Lemma handling_goes_on r sid sc p : pc k = Handling r sid sc →
  p = after r sid ∨ (∃ sc', p = Handling r sid sc') → conn_ok s key (set_pc p k).
Proof.
  intros Hp Hq. pose proof Hok as Hc. unfold conn_ok, open_word in *. rewrite Hp in Hc.
  destruct Hq as [->|[sc' ->]]; [|by destruct r].
  destruct r; simpl in *; [| |done]; destruct Hc as (-> & -> & Ho); (split; [done|]); by intros ? [= <-].
Qed.
Lemma turn_handler r sid sc : pc k = Handling r sid sc → inv (n + 1) (handler_turn key k r sid sc e s).
Proof.
  intros Hp. assert (pc k ≠ Finished) as Hne by (by rewrite Hp).
  pose proof (λ p, handling_goes_on r sid sc p Hp) as Hgo.
  assert (∀ sc' h, dom h = dom (hub_ s) →
    inv (n + 1) (put key (set_pc (Handling r sid sc') k) (with_hub h (next_session_id_ s) s))) as Hnext.
  { intros sc' h Hh. eapply (inv_quiet n s _ key k (set_pc (Handling r sid sc') k)); settle Hp.
    apply Hgo. eauto. }
  destruct sc as [|what|data next|name next|next|next]; simpl.
  - apply inv_move; auto.
  - apply (inv_error n s key k (set_pc (after r sid) k) what); settle Hp. auto.
  - apply Hnext. destruct (send _ _ _ _); [apply dom_record_sent|done].
  - destruct (authenticate _ _ _ _) as [ok h] eqn:Ha. apply Hnext.
    pose proof (dom_authenticate sid name (e_now e) (hub_ s)) as Hd. by rewrite Ha in Hd.
  - apply inv_move; eauto.
  - apply inv_move; eauto.
Qed.

(** The handler is told something: the word of the session grows by that call. *)
Lemma inv_told sid c k' h :
  pc k ≠ Finished → session k = Some sid → session k' = Some sid → about c = Some sid →
  dom h = dom (hub_ s) → word_ok sid (word s sid ++ [c]) → framer_ok k' →
  (∀ s', word s' sid = word s sid ++ [c] → running_ s' = running_ s → sessions_ s' = sessions_ s →
    conn_ok s' key k') →
  inv (n + 1) (with_call c (put key k' (with_hub h (next_session_id_ s) s))).
Proof.
  intros Hp Hs Hs' Hc Hh Hw Hf Hgo.
  assert (∀ sid', word (with_call c (put key k' (with_hub h (next_session_id_ s) s))) sid' =
    word s sid' ++ (if decide (sid' = sid) then [c] else [])) as Hword.
  { intros sid'. rewrite word_call, Hc. f_equal. repeat case_decide; congruence. }
  eapply (inv_turn n s _ key k k'); try done.
  - congruence.
  - intros sid' Hne. rewrite Hword. rewrite decide_False by congruence. by rewrite app_nil_r.
  - intros sid' E. rewrite Hword. assert (sid' = sid) as -> by congruence. by rewrite decide_True.
  - apply Hgo; try done. rewrite Hword. by rewrite decide_True.
Qed.

Lemma turn_announce sid : pc k = Announcing sid → inv (n + 1) (dispatch_session_started key k sid e s).
Proof.
  intros Hp. pose proof Hok as Hc. unfold conn_ok in Hc. rewrite Hp in Hc.
  destruct Hc as (H1 & H2 & H3 & H4). unfold dispatch_session_started.
  destruct (running_ s) eqn:Hr.
  - apply (inv_told sid); settle Hp.
    + rewrite H4. right. exists []. by left.
    + intros s' Hw' Hr' Hm'. unfold conn_ok. simpl. rewrite Hm'. split; [done|]. split; [done|].
      left. exists []. rewrite Hw', H4. split; [done|]. rewrite Hr', Hr. simpl. by rewrite H3.
  - apply inv_move; settle Hp. unfold conn_ok. simpl. split; [congruence|].
    intros sid' E. right. split; [done|]. congruence.
Qed.

Lemma turn_message sid line : pc k = Dispatching sid line → inv (n + 1) (dispatch_message key k sid line e s).
Proof.
  intros Hp. pose proof Hok as Hc. unfold conn_ok in Hc. rewrite Hp in Hc. destruct Hc as (H1 & H2 & Ho).
  unfold dispatch_message. destruct (running_ s) eqn:Hr.
  - destruct Ho as [(ms & Hw & Hpop)|[? _]]; [|congruence]. rewrite Hr, Hp in Hpop. simpl in Hpop.
    assert (word s sid ++ [OnMessage sid line] = begun sid (ms ++ [line])) as Hw'
      by (rewrite Hw; unfold begun; by rewrite fmap_app).
    apply (inv_told sid); settle Hp.
    + apply dom_record_received.
    + rewrite Hw'. right. exists (ms ++ [line]). by left.
    + intros s' E Hr' Hm'. unfold conn_ok. simpl. rewrite Hm'. split; [done|]. split; [done|].
      left. exists (ms ++ [line]). rewrite E, Hr', Hr. split; [done|]. simpl. by rewrite app_nil_r.
  - apply inv_move; settle Hp. unfold conn_ok. simpl. split; [congruence|].
    intros sid' E. assert (sid' = sid) as -> by congruence.
    unfold open_word in *. rewrite Hr in *. done.
Qed.

Lemma turn_stopped sid : pc k = Reporting sid → inv (n + 1) (dispatch_session_stopped key k sid e s).
Proof.
  intros Hp. pose proof Hok as Hc. unfold conn_ok in Hc. rewrite Hp in Hc. destruct Hc as (H1 & H2 & Ho).
  unfold dispatch_session_stopped. destruct (running_ s) eqn:Hr.
  - destruct Ho as [(ms & Hw & _)|[? _]]; [|congruence]. apply (inv_told sid); settle Hp.
    + rewrite Hw. right. exists ms. by right.
    + intros s' E Hr' Hm'. unfold conn_ok. simpl. by rewrite Hm'.
  - apply inv_move; settle Hp.
Qed.

(** ** The connection's session comes and goes *)
Lemma turn_admit p : pc k = Admitting → inv (n + 1) (admit_session key k p e s).
Proof.
  intros Hp. pose proof Hok as Hc. unfold conn_ok in Hc. rewrite Hp in Hc. destruct Hc as (H1 & H2 & H3).
  unfold admit_session, try_add. destruct (_ <=? _) eqn:Hfull.
  { eapply (inv_quiet n s _ key k (set_pc Refusing k)); settle Hp. }
  bprop. pose proof (iv_next _ _ Hi) as Hnx. set (sid := next_session_id_ s) in *.
  rewrite u64_small by (unfold is_u64; lia).
  assert (hub_ s !! sid = None) as Hnone.
  { destruct (hub_ s !! sid) eqn:E; [|done]. exfalso.
    destruct (proj1 (iv_hub _ _ Hi sid)) as (key2 & k2 & Hk2 & E2); [by rewrite E; eexists|].
    pose proof (iv_issued _ _ Hi _ _ _ Hk2 E2). unfold sid in *. lia. }
  eapply (inv_local n s _ key k); [done|done| |done]. split; settle Hp.
  - intros sid'. simpl. unfold add_session. rewrite lookup_insert. case_decide as E.
    + subst sid'. split; [by left|by eexists].
    + rewrite H1. split; [by right|]. intros [[= ?]|[? _]]; [congruence|done].
  - right; right. split; [done|]. split; [done|]. done.
  - simpl. unfold add_session. etrans; [apply count_insert|]. lia.
  - intros sid' [E|E]; [congruence|]. injection E as <-. left. by apply (iv_fresh _ _ Hi).
  - unfold conn_ok. simpl. split_and!; try done. by apply (iv_fresh _ _ Hi).
Qed.

Lemma turn_map sid : pc k = Mapping sid →
  inv (n + 1) (put key (set_pc (Announcing sid) k) (with_sessions (<[key := sid]> (sessions_ s)) s)).
Proof.
  intros Hp. pose proof Hok as Hc. unfold conn_ok in Hc. rewrite Hp in Hc. destruct Hc as (H1 & H2 & H3 & H4).
  eapply (inv_turn n s _ key k (set_pc (Announcing sid) k)); settle Hp.
  - intros key' Hne. simpl. by rewrite lookup_insert_ne.
  - intros sid' _. apply (iv_words _ _ Hi).
  - unfold conn_ok. simpl. rewrite lookup_insert_eq. done.
Qed.

Lemma turn_unmap : pc k = Disconnected → inv (n + 1) (unmap key k s).
Proof.
  intros Hp. pose proof Hok as Hc. unfold conn_ok in Hc. rewrite Hp in Hc. destruct Hc as (H1 & H2).
  unfold unmap. destruct (sessions_ s !! key) as [sid|] eqn:Em.
  - eapply (inv_turn n s _ key k (set_pc (Reporting sid) k)); settle Hp.
    + intros key' Hne. simpl. by rewrite lookup_delete_ne.
    + intros sid' _. apply (iv_words _ _ Hi).
    + unfold conn_ok. simpl. rewrite lookup_delete_eq. split; [done|]. split; [done|].
      destruct (H2 sid) as [(ms & Hw & Hpop)|?]; [done| |by right]. left. exists ms. split; [done|].
      by rewrite Hp in Hpop.
  - apply inv_move; settle Hp.
Qed.

Lemma turn_release sid : pc k = Releasing sid → inv (n + 1) (release key k sid s).
Proof.
  intros Hp. pose proof Hok as Hc. unfold conn_ok in Hc. rewrite Hp in Hc. destruct Hc as (H1 & H2).
  unfold release, remove, remove_session. eapply (inv_local n s _ key k); [done|done| |done]. split; settle Hp.
  - intros sid'. simpl. rewrite lookup_delete, H1. case_decide as E.
    + subst. split; [by intros []|]. by intros [?|[_ ?]].
    + split; [intros ?; right; split; [done|congruence]|by intros [?|[? _]]].
  - right; left. done.
  - simpl. unfold count. pose proof (msize_delete_le (hub_ s) sid). pose proof (iv_count _ _ Hi).
    unfold count in *. lia.
  - intros sid' _. apply (iv_words _ _ Hi).
Qed.

Lemma turn_launch : pc k = Launching → inv (n + 1) (launch_client key k e s).
Proof.
  intros Hp. pose proof Hok as Hc. unfold conn_ok, open_word in Hc. rewrite Hp in Hc.
  unfold launch_client. destruct (e_ok e).
  - eapply (inv_quiet n s _ key k (set_pc Receiving (set_launched (e_now e) k))); settle Hp.
  - apply inv_move; settle Hp.
Qed.
Lemma turn_deliver line : pc k = Delivering line → inv (n + 1)
  (put key (set_pc (match sessions_ s !! key with Some sid => Dispatching sid line | None => Popping end) k) s).
Proof.
  intros Hp. pose proof Hok as Hc. unfold conn_ok, open_word in Hc. rewrite Hp in Hc.
  destruct Hc as [H1 H2]. apply inv_move; settle Hp. unfold conn_ok, open_word.
  destruct (sessions_ s !! key) as [sid|] eqn:Em; simpl; [auto|].
  split; [congruence|]. intros sid E. congruence.
Qed.
Lemma turn_notified : pc k = Notified → inv (n + 1)
  (let s := put key (set_pc Finished k) s in
   if launched k then s
   else report_error (txt "starting TCP client thread failed: " ++ e_text e) (set_accept key.1 Looping s)).
Proof.
  intros Hp. pose proof Hok as Hc. unfold conn_ok in Hc. rewrite Hp in Hc.
  destruct (launched k); [apply inv_move; settle Hp|].
  apply (inv_error n s key k (set_pc Finished k)); settle Hp.
Qed.

Lemma turn_inv p : ports s !! key.1 = Some p → pc k ≠ Finished → inv (n + 1) (turn key e s).
Proof.
  intros Hport Hne. unfold turn. rewrite Hk, Hport. pose proof Hok as Hc. unfold conn_ok, open_word in Hc.
  destruct (pc k) as [| | | | | |sid|sid| | | | | |line|sid line|r sid sc| | |sid|sid| |] eqn:Hp.
  - destruct (on_ p); [apply inv_move|apply inv_drop]; settle Hp; apply Hc.
  - destruct (running_ s); [apply inv_move|apply inv_drop]; settle Hp; apply Hc.
  - destruct (configure_client_socket _ _); [apply inv_move; settle Hp|].
    apply (inv_error n s key k (set_pc Finished (set_closed k))); settle Hp. unfold conn_ok. simpl. tauto.
  - by apply turn_register.
  - destruct (running_ s); apply inv_move; settle Hp.
  - by apply turn_admit.
  - by apply turn_map.
  - by apply turn_announce.
  - destruct Hc as (H1 & H2 & _). apply (inv_disconnect n s key k); settle Hp. unfold conn_ok. simpl.
    split; [congruence|]. intros sid E. congruence.
  - by apply turn_launch.
  - destruct (closed_ k); apply inv_move; settle Hp.
  - by apply turn_receive.
  - by apply turn_pop.
  - by apply turn_deliver.
  - by apply turn_message.
  - by apply turn_handler.
  - apply (inv_disconnect n s key k); settle Hp.
  - by apply turn_unmap.
  - by apply turn_stopped.
  - by apply turn_release.
  - by apply turn_notified.
  - done.
Qed.
End Turn.

(** ** The accept thread *)
Lemma inv_more n s : inv n s → inv (n + 1) s.
Proof.
  intros Hi. destruct Hi as [iv_conns0 iv_hub0 iv_unique0 iv_issued0 iv_next0 iv_fresh0 iv_words0 iv_mapped0
    iv_count0 iv_ports0 iv_keys0 iv_on0 iv_untouched0 iv_nodup0 iv_owner0].
  split; try done; [lia|]. intros l p Hp. specialize (iv_ports0 _ _ Hp). lia.
Qed.

(** A connection that goes on as it was, and one just accepted. *)
Definition kin k k' : Prop := k' = k ∨ k' = set_closed k.
Definition newcomer k : Prop :=
  pc k = Accepted ∧ session k = None ∧ popped k = [] ∧ framer_ok k.
(** The owner's half of the invariant. *)
Record ledger (n : Z) (s : Server) : Prop := {
  lg_ports l p : ports s !! l = Some p → l < next_listener s ∧ 1 ≤ next_connection_id_ p ≤ 1 + n;
  lg_keys key k : conns s !! key = Some k →
    key.1 ∈ remaining s ∧ ∃ p, ports s !! key.1 = Some p ∧ 1 ≤ key.2 < next_connection_id_ p;
  lg_on l p : ports s !! l = Some p → on_ p = true → l ∈ untouched s;
  lg_untouched l : l ∈ untouched s → ∃ p, ports s !! l = Some p ∧ on_ p = true;
  lg_nodup : NoDup (remaining s);
  lg_owner : owner_ok s;
}.
Lemma inv_ledger n s : inv n s → ledger n s.
Proof. intros []. by split. Qed.

Lemma conn_ok_kin s s' key k k' :
  sessions_ s' !! key = sessions_ s !! key → (running_ s' = running_ s ∨ running_ s' = false) →
  (∀ sid, word s' sid = word s sid) → kin k k' → conn_ok s key k → conn_ok s' key k'.
Proof.
  intros Hm Hr Hw Hk Hok. assert (conn_ok s' key k) as Hok'; [|by destruct Hk as [-> | ->]].
  assert (∀ sid, open_word s sid k → open_word s' sid k) as Hopen.
  { intros sid [(ms & E & Hpop)|[E1 E2]].
    - left. exists ms. rewrite Hw. split; [done|]. destruct Hr as [-> | ->]; [done|].
      destruct (running_ s); [rewrite Hpop; by apply prefix_app_r|done].
    - right. rewrite Hw. split; [|done]. by destruct Hr as [-> | ->]. }
  unfold conn_ok in *. destruct (pc k); rewrite ?Hm, ?Hw; try done; try naive_solver.
  destruct r; naive_solver.
Qed.

(** A step of the accept thread or the owner: connections go on, arrive, or leave with
    no session; what the handler saw and who is live stay. *)
Lemma inv_reorganise n m s s' :
  inv n s → n ≤ m → ledger m s' →
  hub_ s' = hub_ s → next_session_id_ s' = next_session_id_ s → options_ s' = options_ s →
  calls s' = calls s ∨ (∃ t, calls s' = calls s ++ [OnError t]) →
  (∀ key, sessions_ s' !! key = sessions_ s !! key) →
  (running_ s' = running_ s ∨ running_ s' = false ∨ conns s' = ∅) →
  (∀ key k', conns s' !! key = Some k' →
    (∃ k, conns s !! key = Some k ∧ kin k k') ∨ (conns s !! key = None ∧ newcomer k')) →
  (∀ key k, conns s !! key = Some k →
    (∃ k', conns s' !! key = Some k' ∧ kin k k') ∨ pc k = Finished) →
  inv m s'.
Proof.
  intros Hi Hnm [] Eh En Eo Ec Hm Hr Hback Hforth.
  assert (∀ sid, word s' sid = word s sid) as Hw.
  { intros sid. unfold word. destruct Ec as [-> |[t ->]]; [done|]. rewrite filter_app. simpl. by rewrite app_nil_r. }
  assert (∀ k k', kin k k' → session k' = session k) as Hkin by (by intros k k' [-> | ->]).
  destruct Hi as [iv_conns0 iv_hub0 iv_unique0 iv_issued0 iv_next0 iv_fresh0
    iv_words0 iv_mapped0 iv_count0 _ _ _ _ _ _].
  assert (∀ key k' sid, conns s' !! key = Some k' → session k' = Some sid →
    ∃ k, conns s !! key = Some k ∧ session k = Some sid) as Hsess.
  { intros key k' sid H E. apply Hback in H as [(k & Hk & Hkk)|(_ & _ & ? & _)]; [|congruence].
    exists k. split; [done|]. by rewrite <- (Hkin _ _ Hkk). }
  split; try done.
  - intros key k' H. destruct (Hback _ _ H) as [(k & Hk & Hkk)|(Hno & H1 & H2 & H3 & H4)].
    + destruct (iv_conns0 _ _ Hk) as [Hok Hf]. split; [|by destruct Hkk as [-> | ->]].
      apply (conn_ok_kin s s' key k); try done. destruct Hr as [?|[?|E]]; auto. by rewrite E in H.
    + split; [|done]. unfold conn_ok. rewrite H1, Hm. split; [done|]. split; [|done].
      destruct (sessions_ s !! key) eqn:E; [|done]. destruct (iv_mapped0 key) as [? ?]; [by eexists|]. congruence.
  - intros sid. rewrite Eh, iv_hub0. split.
    + intros (key & k & Hk & E). destruct (Hforth _ _ Hk) as [(k' & Hk' & Hkk)|Hf].
      * exists key, k'. split; [done|]. by rewrite (Hkin _ _ Hkk).
      * destruct (iv_conns0 _ _ Hk) as [Hok _]. unfold conn_ok in Hok. rewrite Hf in Hok. destruct Hok. congruence.
    + intros (key & k' & Hk' & E). destruct (Hsess _ _ _ Hk' E) as (k & ? & ?). eauto.
  - intros key k key' k' sid H1 H2 E1 E2.
    destruct (Hsess _ _ _ H1 E1) as (? & ? & ?), (Hsess _ _ _ H2 E2) as (? & ? & ?). by eapply iv_unique0.
  - intros key k' sid H E. rewrite En. destruct (Hsess _ _ _ H E) as (? & ? & ?). eauto.
  - lia.
  - intros sid ?. rewrite Hw. apply iv_fresh0. lia.
  - intros sid. by rewrite Hw.
  - intros key. rewrite Hm. intros H. destruct (iv_mapped0 _ H) as [k Hk].
    destruct (Hforth _ _ Hk) as [(k' & Hk' & _)|Hf]; [by eexists|]. destruct (iv_conns0 _ _ Hk) as [Hok _].
    unfold conn_ok in Hok. rewrite Hf in Hok. destruct Hok as [_ Hno]. rewrite Hno in H. by destruct H.
  - by rewrite Eh, Eo.
Qed.

(** Nothing of the connections and the owner changes but the accept thread. *)
Lemma inv_same n s s' :
  inv n s → frame s s' → conns s' = conns s → sessions_ s' = sessions_ s → hub_ s' = hub_ s →
  calls s' = calls s ∨ (∃ t, calls s' = calls s ++ [OnError t]) → inv n s'.
Proof.
  intros Hi Hf Hc Hm Hh Hcalls.
  apply (inv_reorganise n n s s'); try done; try apply Hf; try (by rewrite Hm); try (left; apply Hf).
  - destruct Hf, (inv_ledger _ _ Hi) as [H1 H2 H3 H4 H5 H6].
    assert (remaining s' = remaining s) as Er by (unfold remaining; by rewrite fr_owner0, fr_listeners0).
    assert (untouched s' = untouched s) as Eu by (unfold untouched; by rewrite Er, fr_owner0).
    assert (∀ l p', ports s' !! l = Some p' → ∃ p, ports s !! l = Some p ∧ port_view p' = port_view p) as Hp.
    { intros l p' E. specialize (fr_ports0 l). rewrite E in fr_ports0.
      destruct (ports s !! l) as [p|]; [|done]. injection fr_ports0 as ? ?. exists p. split; [done|]. unfold port_view. congruence. }
    assert (∀ l p, ports s !! l = Some p → ∃ p', ports s' !! l = Some p' ∧ port_view p' = port_view p) as Hp'.
    { intros l p E. specialize (fr_ports0 l). rewrite E in fr_ports0.
      destruct (ports s' !! l) as [p'|]; [|done]. injection fr_ports0 as ? ?. exists p'. split; [done|]. unfold port_view. congruence. }
    split; rewrite ?Er, ?Eu, ?Hc, ?fr_next_listener0; try done.
    + intros l p' (p & E & [= _ E2])%Hp. rewrite E2. eauto.
    + intros key k Hk. destruct (H2 _ _ Hk) as (? & p & E & ?). split; [done|].
      destruct (Hp' _ _ E) as (p' & ? & [= _ E2]). exists p'. by rewrite E2.
    + intros l p' (p & E & [= E1 _])%Hp. rewrite E1. eauto.
    + intros l (p & E & Eon)%H4. destruct (Hp' _ _ E) as (p' & ? & [= E1 _]). exists p'. by rewrite E1.
    + unfold owner_ok in *. rewrite fr_owner0, fr_listeners0, fr_running0, Hc. done.
  - intros key k' Hk. left. exists k'. rewrite Hc in Hk. split; [done|by left].
  - intros key k Hk. left. exists k. rewrite Hc. split; [done|by left].
Qed.

Lemma reap_lookup l s key k :
  filter (λ x : Key * Conn, x.1.1 ≠ l ∨ finished (pc x.2) = false) (conns s) !! key = Some k ↔
  conns s !! key = Some k ∧ (key.1 ≠ l ∨ finished (pc k) = false).
Proof. by rewrite map_lookup_filter_Some. Qed.

Lemma accept_inv n s l w t : inv n s → n + 2 < 2 ^ 64 → inv (n + 1) (accept_turn l w t s).
Proof.
  intros Hi Hn. pose proof (inv_more _ _ Hi) as Hi1. unfold accept_turn.
  destruct (ports s !! l) as [p|] eqn:Hp; [|done]. destruct (accept_thread_ p); try done.
  destruct (on_ p) eqn:Hon; simpl; [|apply (inv_same (n + 1) s); try done; [apply frame_accept|by left]].
  destruct w as [| | | |remote]; try done; try (apply (inv_same (n + 1) s); try done; right; by eexists).
  pose proof (inv_ledger _ _ Hi) as [H1 H2 H3 H4 H5 H6]. destruct (H1 _ _ Hp) as [Hl Hc].
  set (c := next_connection_id_ p) in *. rewrite u64_small by (unfold is_u64; lia).
  assert (∀ k, conns s !! (l, c) = Some k → False) as Hnew.
  { intros k Hk. destruct (H2 _ _ Hk) as (_ & p' & Hp' & Hlt). simpl in *. rewrite Hp in Hp'.
    injection Hp' as <-. unfold c in Hlt. lia. }
  apply (inv_reorganise n (n + 1) s); simpl; try done; [lia| |by left|by left| |].
  - split; unfold untouched, remaining; simpl; try done.
    + intros l' p'. rewrite lookup_insert. case_decide; [|intros E; pose proof (H1 _ _ E); lia].
      intros [= <-]. subst l'. simpl. unfold c in *. lia.
    + intros key k. rewrite lookup_insert. case_decide as E; simpl.
      * intros _. subst key. simpl. split.
        { pose proof (H3 _ _ Hp Hon) as Hin. unfold untouched, remaining in Hin.
          destruct (owner s); try done; by right. }
        eexists. rewrite lookup_insert_eq. split; [done|]. simpl. lia.
      * rewrite reap_lookup. intros [Hk _]. destruct (H2 _ _ Hk) as (? & p' & Hp' & ?). split; [done|].
        rewrite lookup_insert. case_decide as E2; [|eauto]. eexists. split; [done|]. simpl.
        rewrite <- E2, Hp in Hp'. injection Hp' as <-. fold c in H. lia.
    + intros l' p'. rewrite lookup_insert. case_decide; [|apply H3]. intros [= <-] _. subst. by eapply H3.
    + intros l' (p' & Hp' & ?)%H4. rewrite lookup_insert. case_decide; [|eauto]. eexists. by split.
    + unfold owner_ok in *. simpl. destruct (owner s) as [| | | | | |l' ls] eqn:Eo; try done.
      destruct H6 as [? Hf]. split; [done|]. intros key k. rewrite lookup_insert. case_decide.
      * intros _ E. subst key. simpl in E. subst l'. pose proof (H3 _ _ Hp Hon) as Hin.
        unfold untouched, remaining in *. rewrite Eo in *. by apply NoDup_cons in H5 as [? _].
      * rewrite reap_lookup. intros [Hk _]. by apply Hf.
  - intros key k'. rewrite lookup_insert. case_decide as E; simpl.
    + intros [= <-]. right. subst key. split; [|done].
      by destruct (conns s !! (l, c)) as [k0|]; [destruct (Hnew k0)|].
    + rewrite reap_lookup. intros [Hk _]. left. exists k'. split; [done|by left].
  - intros key k Hk. destruct (decide (key.1 = l ∧ finished (pc k) = true)) as [[_ Hf]|Hn'].
    + right. by destruct (pc k).
    + left. exists k. split; [|by left]. rewrite lookup_insert_ne; [|intros <-; by destruct (Hnew _ Hk)].
      rewrite reap_lookup. split; [done|]. destruct (decide (key.1 = l)); [right|by left].
      destruct (finished (pc k)) eqn:Ef; [by destruct Hn'|done].
Qed.

(** ** The owner *)
(** The owner moves on, with no connection changed. *)
Lemma inv_owner n s s' :
  inv n s → ledger n s' → hub_ s' = hub_ s → next_session_id_ s' = next_session_id_ s →
  options_ s' = options_ s → calls s' = calls s → sessions_ s' = sessions_ s →
  (running_ s' = running_ s ∨ running_ s' = false ∨ conns s' = ∅) → conns s' = conns s → inv n s'.
Proof.
  intros Hi Hl Hh Hn Ho Hc Hm Hr Hcn. apply (inv_reorganise n n s); try done.
  - by left.
  - by rewrite Hm.
  - intros key k Hk. left. exists k. rewrite Hcn in Hk. split; [done|by left].
  - intros key k Hk. left. exists k. rewrite Hcn. split; [done|by left].
Qed.

Lemma stop_inv n s : inv n s → owner s = Idle ∨ (∃ ls, owner s = StartingUp ls) → inv n (stop_server s).
Proof.
  intros Hi Ho. unfold stop_server. destruct (running_ s) eqn:Hr; [|done].
  apply (inv_owner n s); try done; [|by right; left].
  destruct (inv_ledger _ _ Hi) as [H1 H2 H3 H4 H5 H6]. unfold untouched, remaining in *.
  destruct Ho as [E|[ls E]]; rewrite E in H2, H3, H4, H5;
    split; unfold untouched, remaining, owner_ok; simpl; done.
Qed.

Lemma start_inv n s : inv n s → owner s = Idle → inv n (start_server s).2.
Proof.
  intros Hi Ho. unfold start_server. destruct (running_ s) eqn:Hr; [done|].
  destruct (check_listeners _); [|done]. destruct (inv_ledger _ _ Hi) as [H1 H2 H3 H4 H5 H6].
  unfold untouched, remaining, owner_ok in *. rewrite Ho in *. specialize (H6 Hr).
  apply (inv_owner n s); try done.
  right; right. apply map_eq. intros key. simpl. rewrite lookup_empty.
    destruct (conns s !! key) eqn:E; [|done]. destruct (H2 _ _ E) as [Hin _]. rewrite H6 in Hin. by apply not_elem_of_nil in Hin.
Qed.

Lemma start_listener_inv n s l rest e :
  inv n s → 0 ≤ n → owner s = StartingUp (l :: rest) → inv n (start_listener l rest e s).
Proof.
  intros Hi Hn Ho. pose proof (inv_ledger _ _ Hi) as [H1 H2 H3 H4 H5 H6].
  unfold start_listener. destruct (lo_enabled l); simpl.
  - destruct (transport_start _ _ _) as [u|m]; [|apply stop_inv; eauto].
    apply (inv_owner n s); try done; [|by left].
    assert (next_listener s ∉ tcp_listeners_ s) as Hnew.
    { unfold untouched, remaining in H4. rewrite Ho in H4. intros Hin. destruct (H4 _ Hin) as (p & Hp & _).
      destruct (H1 _ _ Hp). lia. }
    unfold untouched, remaining, owner_ok in *. rewrite Ho in *.
    split; unfold untouched, remaining, owner_ok; simpl; try done.
    + intros l' p'. rewrite lookup_insert. case_decide; [|intros E; destruct (H1 _ _ E); lia].
      intros [= <-]. simpl. lia.
    + intros key k Hk. destruct (H2 _ _ Hk) as (Hin & p & Hp & ?).
      split; [apply elem_of_app; by left|]. exists p. rewrite lookup_insert_ne; [done|]. intros E.
      destruct (H1 _ _ Hp). lia.
    + intros l' p'. rewrite lookup_insert, elem_of_app. case_decide.
      * intros _ _. right. subst. by left.
      * intros Hp Hon. left. eauto.
    + intros l' [(p & Hp & ?)%H4|Hin]%elem_of_app.
      * exists p. rewrite lookup_insert_ne; [done|]. intros E. destruct (H1 _ _ Hp). lia.
      * apply list_elem_of_singleton in Hin as ->. rewrite lookup_insert_eq. by eexists.
    + apply NoDup_app. split; [done|]. split; [|apply NoDup_singleton].
      intros x Hx Hin. apply list_elem_of_singleton in Hin as ->. done.
  - apply (inv_owner n s); try done; [|by left].
    unfold untouched, remaining, owner_ok in *. rewrite Ho in *. by split.
Qed.

Lemma close_inv n s l rest p : inv n s → owner s = StopPort (l :: rest) → ports s !! l = Some p →
  inv n (with_owner (Interrupt l rest) (close_port l s)).
Proof.
  intros Hi Ho Hp. destruct (inv_ledger _ _ Hi) as [H1 H2 H3 H4 H5 H6].
  unfold untouched, remaining, owner_ok in *. rewrite Ho in H2, H3, H4, H5, H6.
  apply NoDup_cons in H5 as [Hl H5].
  apply (inv_owner n s); try done; [|by left].
  assert (∀ l' p', ports (close_port l s) !! l' = Some p' → ∃ p0, ports s !! l' = Some p0 ∧
    next_connection_id_ p' = next_connection_id_ p0 ∧ on_ p' = (if decide (l = l') then false else on_ p0)) as Hback.
  { intros l' p'. simpl. rewrite lookup_alter. case_decide; [|intros E; exists p'; done].
    subst l'. rewrite Hp. simpl. intros [= <-]. by exists p. }
  assert (∀ l' p0, ports s !! l' = Some p0 → ∃ p', ports (close_port l s) !! l' = Some p' ∧
    next_connection_id_ p' = next_connection_id_ p0 ∧ on_ p' = (if decide (l = l') then false else on_ p0)) as Hforth.
  { intros l' p0 E. simpl. rewrite lookup_alter. case_decide; [subst l'|eauto]. rewrite E. simpl. by eexists. }
  split; unfold untouched, remaining, owner_ok; cbn [with_owner owner ports]; try done.
  - intros l' p' (p0 & E & -> & _)%Hback. eauto.
  - intros key k Hk. destruct (H2 _ _ Hk) as (? & p0 & E & ?). split; [done|].
    destruct (Hforth _ _ E) as (p' & ? & E2 & _). exists p'. by rewrite E2.
  - intros l' p' (p0 & E & _ & ->)%Hback. case_decide; [done|]. intros Hon.
    specialize (H3 _ _ E Hon). apply elem_of_cons in H3 as [->|?]; done.
  - intros l' Hin. destruct (H4 l') as (p0 & E & Hon); [by right|].
    destruct (Hforth _ _ E) as (p' & ? & _ & E2). exists p'. split; [done|]. rewrite E2.
    case_decide; [subst; done|done].
  - by apply NoDup_cons.
Qed.

Lemma interrupt_inv n s l rest : inv n s → owner s = Interrupt l rest →
  inv n (with_owner (JoinAccept l rest) (interrupt_clients l s)).
Proof.
  intros Hi Ho. destruct (inv_ledger _ _ Hi) as [H1 H2 H3 H4 H5 H6].
  unfold untouched, remaining, owner_ok in *. rewrite Ho in H2, H3, H4, H5, H6.
  assert (∀ key, conns (interrupt_clients l s) !! key =
    (λ k, if decide (key ∈ filter (λ x : Key, x.1 = l) (clients_ s)) then set_closed k else k) <$> conns s !! key) as Hc.
  { intros key. simpl. rewrite map_lookup_imap. by destruct (conns s !! key). }
  apply (inv_reorganise n n s); try done.
  - split; unfold untouched, remaining, owner_ok; cbn [with_owner owner]; try done.
    intros key k. cbn [with_owner conns]. rewrite Hc. intros (k0 & E & _)%fmap_Some. eauto.
  - by left.
  - by left.
  - intros key k'. cbn [with_owner conns]. rewrite Hc. intros (k & E & ->)%fmap_Some. left. exists k.
    split; [done|]. case_decide; [by right|by left].
  - intros key k E. left. cbn [with_owner conns]. rewrite Hc, E. eexists. split; [done|].
    case_decide; [by right|by left].
Qed.

(** Nothing is left to release: the threads joined have released their sessions. *)
Lemma forget_inv n s l rest : inv n s → owner s = Forget l rest →
  inv n (with_owner (StopPort rest) (forget_listener l s)).
Proof.
  intros Hi Ho. destruct (inv_ledger _ _ Hi) as [H1 H2 H3 H4 H5 H6].
  unfold untouched, remaining, owner_ok in *. rewrite Ho in H2, H3, H4, H5, H6. destruct H6 as [Hr Hfin].
  assert (∀ key sid, sessions_ s !! key = Some sid → key.1 ≠ l) as Hno.
  { intros key sid Hm Hl. destruct (iv_mapped _ _ Hi key) as [k Hk]; [by eexists|].
    destruct (iv_conns _ _ Hi _ _ Hk) as [Hok _]. unfold conn_ok in Hok. rewrite (Hfin _ _ Hk Hl) in Hok.
    destruct Hok. congruence. }
  assert (filter (λ x : Key * Z, x.1.1 = l) (sessions_ s) = ∅) as Hleft.
  { apply map_empty. intros key. apply map_lookup_filter_None. right. intros sid Hm. by apply (Hno _ _ Hm). }
  assert (∀ key k, conns (forget_listener l s) !! key = Some k ↔ conns s !! key = Some k ∧ key.1 ≠ l) as Hc.
  { intros key k. unfold forget_listener. simpl. by rewrite map_lookup_filter_Some. }
  apply (inv_reorganise n n s); try done.
  - apply NoDup_cons in H5 as [Hl H5].
    split; unfold untouched, remaining, owner_ok; cbn [with_owner owner conns]; try done.
    intros key k [Hk Hne]%Hc. destruct (H2 _ _ Hk) as [[?|?]%elem_of_cons ?]; done.
  - simpl. rewrite Hleft. by rewrite map_to_list_empty.
  - by left.
  - intros key. simpl. destruct (sessions_ s !! key) as [sid|] eqn:E.
    + apply map_lookup_filter_Some. split; [done|]. by apply (Hno _ _ E).
    + apply map_lookup_filter_None. by left.
  - by left.
  - intros key k' [Hk _]%Hc. left. exists k'. split; [done|by left].
  - intros key k Hk. destruct (decide (key.1 = l)) as [E|E]; [right; eauto|].
    left. exists k. split; [by apply Hc|by left].
Qed.

Lemma owner_inv n s e : inv n s → 0 ≤ n → inv n (owner_turn e s).
Proof.
  intros Hi Hn. destruct (inv_ledger _ _ Hi) as [H1 H2 H3 H4 H5 H6]. unfold owner_turn.
  destruct (owner s) as [|[|l rest]|[|l rest]|l rest|l rest|l rest|l rest] eqn:Ho; [done|..].
  - apply (inv_owner n s); try done; [|by left].
    unfold untouched, remaining, owner_ok in *. rewrite Ho in *.
    split; unfold untouched, remaining, owner_ok; simpl; try done. congruence.
  - by apply start_listener_inv.
  - apply (inv_owner n s); try done; [|by left].
    assert (∀ key k, conns s !! key = Some k → False) as Hno.
    { intros key k Hk. destruct (H2 _ _ Hk) as [Hin _]. unfold remaining in Hin. rewrite Ho in Hin.
      by apply not_elem_of_nil in Hin. }
    split; unfold untouched, remaining, owner_ok; simpl; try done; try apply NoDup_nil_2.
    + intros key k Hk. by destruct (Hno _ _ Hk).
    + intros l Hin. by apply not_elem_of_nil in Hin.
  - destruct (H4 l) as (p & Hp & Hon); [unfold untouched, remaining; rewrite Ho; by left|].
    rewrite Hp, Hon. by eapply close_inv.
  - by apply interrupt_inv.
  - destruct (accept_done l s); [|done]. apply (inv_owner n s); try done; [|by left].
    unfold untouched, remaining, owner_ok in *. rewrite Ho in H2, H3, H4, H5, H6. by split.
  - destruct (clients_done l s) eqn:Hd; [|done]. apply (inv_owner n s); try done; [|by left].
    unfold untouched, remaining, owner_ok in *. rewrite Ho in H2, H3, H4, H5, H6.
    split; unfold untouched, remaining, owner_ok; simpl; try done. split; [done|].
    intros key k Hk E. unfold clients_done in Hd. bprop.
    destruct (Hd _ _ Hk) as [?|Hf]; [done|]. by destruct (pc k).
  - by apply forget_inv.
Qed.

(** ** Every step *)
Lemma step_inv n s a : inv n s → 0 ≤ n → n + 2 < 2 ^ 64 → inv (n + 1) (step s a).
Proof.
  intros Hi Hn Hb. pose proof (inv_more _ _ Hi) as Hi1. destruct a as [| |e|l w t|key e]; simpl.
  - destruct (owner s) eqn:Ho; try done. by apply start_inv.
  - destruct (owner s) eqn:Ho; try done. apply stop_inv; auto.
  - apply owner_inv; [done|lia].
  - by apply accept_inv.
  - destruct (conns s !! key) as [k|] eqn:Hk; [|unfold turn; by rewrite Hk].
    destruct (ports s !! key.1) as [p|] eqn:Hp; [|unfold turn; by rewrite Hk, Hp].
    destruct (finished (pc k)) eqn:E; [|by apply (turn_inv n s key k e Hi Hb Hk p); [..|intros F; rewrite F in E]].
    unfold turn. rewrite Hk, Hp. by destruct (pc k).
Qed.
Lemma new_inv o : inv 0 (new_server o).
Proof.
  split; simpl; try done; try lia; try (by intros ?); try apply NoDup_nil_2.
  - intros sid. rewrite lookup_empty. split; [intros []%is_Some_None|by intros (? & ? & ? & _)].
  - intros sid. by left.
  - intros key. by rewrite lookup_empty.
  - unfold count, msize. rewrite map_size_empty. lia.
  - intros l Hin. by apply not_elem_of_nil in Hin.
Qed.

(** Any number of steps, as long as the session numbers do not wrap. *)
Lemma steps_inv actions : ∀ n s, inv n s → 0 ≤ n → n + zlen actions + 1 < 2 ^ 64 →
  inv (n + zlen actions) (runs step s actions).
Proof.
  induction actions as [|a actions IH]; intros n s Hi Hn; unfold zlen; simpl.
  { by rewrite Z.add_0_r. }
  intros Hb. replace (n + _) with (n + 1 + zlen actions) by (unfold zlen; lia).
  apply IH; [apply step_inv; [done|lia..]|lia|unfold zlen; lia].
Qed.
