(* ===== verification/RuntimeProperties.v ===== *)
(** RuntimeProperties: what the runtime promises its handler and its owner, at any
    interleaving of the accept threads, the client threads and the owner. *)
From S2P Require Import Prelude.
From S2P Require Import Text.
From S2P Require Import Kinds.
From S2P Require Import LineFramer.
From S2P Require Import RuntimeHub.
From S2P Require Import ThreadedClient.
From S2P Require Import RuntimeServer.
From S2P Require Import RuntimeInvariant.
From S2P Require Import RuntimeSteps.

(** A run from the start, short of the wrap-around of the session numbers. *)
Definition run (o : ServerOptions) (actions : list Action) : Server := runs step (new_server o) actions.
Definition bounded (actions : list Action) : Prop := zlen actions + 1 < 2 ^ 64.

Lemma run_inv o actions : bounded actions → inv (zlen actions) (run o actions).
Proof.
  intros Hb. rewrite <- (Z.add_0_l (zlen actions)). apply steps_inv; [apply new_inv|lia|].
  unfold bounded in Hb. lia.
Qed.

(** ** The options never change *)
Lemma step_keeps_options s a : options_ (step s a) = options_ s.
Proof.
  destruct a as [| |e|l w t|key e]; simpl.
  - unfold start_server. by repeat case_match.
  - unfold stop_server. by repeat case_match.
  - unfold owner_turn, start_listener, stop_server. by repeat case_match.
  - unfold accept_turn. by repeat case_match.
  - unfold turn, dispatch_session_started, dispatch_session_stopped, dispatch_message, handler_turn, admit_session,
      register_client, launch_client, receive_turn, pop_turn, unmap, release, disconnect, drop_client.
    by repeat case_match.
Qed.
Lemma run_options o actions : options_ (run o actions) = o.
Proof.
  apply (runs_invariant step (λ s, options_ s = o)); [|done]. intros s a <-. apply step_keeps_options.
Qed.

(** ** The messages a handler was given of a session *)
Definition message_of (c : Call) : option bytes := match c with OnMessage _ m => Some m | _ => None end.
Definition seen (s : Server) (sid : Z) : list bytes := omap message_of (word s sid).

Lemma messages_of_begun sid ms : omap message_of (begun sid ms) = ms.
Proof. unfold begun. simpl. induction ms as [|m ms IH]; [done|]. simpl. by f_equal. Qed.
Lemma seen_begun s sid ms : word s sid = begun sid ms → seen s sid = ms.
Proof. intros E. unfold seen. rewrite E. apply messages_of_begun. Qed.
Lemma seen_none s sid : word s sid = [] → seen s sid = [].
Proof. unfold seen. by intros ->. Qed.
Lemma popped_prefix k : framer_ok k → popped k `prefix_of` messages (received k).
Proof. intros [<- _]. by eexists. Qed.

(** Not in or past the last call. *)
Definition still_open (p : Pc) : bool :=
  match p with Handling Stopping _ _ | Releasing _ | Notified | Finished => false | _ => true end.
Lemma open_seen s key k sid : conn_ok s key k → session k = Some sid → still_open (pc k) = true →
  if running_ s then seen s sid ++ in_hand (pc k) = popped k else seen s sid `prefix_of` popped k.
Proof.
  intros Hok Hs Ho.
  assert (open_word s sid k → if running_ s then seen s sid ++ in_hand (pc k) = popped k
    else seen s sid `prefix_of` popped k) as Hw.
  { intros [(ms & Hw & H)|[Hr Hw]].
    - rewrite (seen_begun _ _ _ Hw). by destruct (running_ s).
    - rewrite Hr, (seen_none _ _ Hw). apply prefix_nil. }
  assert (word s sid = [] → popped k = [] → in_hand (pc k) = [] → if running_ s
    then seen s sid ++ in_hand (pc k) = popped k else seen s sid `prefix_of` popped k) as Hn.
  { intros Hnil -> ->. rewrite (seen_none _ _ Hnil). by destruct (running_ s). }
  unfold conn_ok in Hok. destruct (pc k) as [| | | | | |s'|s'| | | | | |l|s' l|[] s' sc| | |s'|s'| |];
    simpl in Ho; try done; destruct_and?; simplify_eq;
    first [by apply Hn|apply Hw; auto].
Qed.

(** ** The sessions at rest *)
Lemma at_rest n s : inv n s → owner s = Idle → running_ s = false →
  conns s = ∅ ∧ hub_ s = ∅ ∧ sessions_ s = ∅ ∧ ∀ l p, ports s !! l = Some p → on_ p = false.
Proof.
  intros Hi Ho Hr. pose proof (iv_owner _ _ Hi) as Hw. unfold owner_ok in Hw. rewrite Ho in Hw. specialize (Hw Hr).
  assert (remaining s = []) as Hrem by (unfold remaining; by rewrite Ho).
  assert (∀ key k, conns s !! key = Some k → False) as Hno.
  { intros key k Hk. destruct (iv_keys _ _ Hi _ _ Hk) as [Hin _]. rewrite Hrem in Hin.
    by apply not_elem_of_nil in Hin. }
  split_and!.
  - apply map_empty. intros key. destruct (conns s !! key) eqn:E; [by destruct (Hno _ _ E)|done].
  - apply map_empty. intros sid. apply eq_None_not_Some. intros (key & k & Hk & _)%(iv_hub _ _ Hi). by eapply Hno.
  - apply map_empty. intros key. apply eq_None_not_Some. intros [k Hk]%(iv_mapped _ _ Hi). by eapply Hno.
  - intros l p Hp. destruct (on_ p) eqn:E; [|done]. pose proof (iv_on _ _ Hi _ _ Hp E) as Hin.
    unfold untouched in Hin. rewrite Ho, Hrem in Hin. by apply not_elem_of_nil in Hin.
Qed.

(** * Properties *)

(** C13: The handler's protocol. Whatever the threads do and however they interleave, what
    the handler is told of any session is nothing, or one [on_session_started], then
    messages, then at most one [on_session_stopped] and nothing after it. *)
Theorem runtime_session_protocol o actions sid : bounded actions →
  word_ok sid (word (run o actions) sid).
Proof. intros Hb. apply (iv_words _ _ (run_inv o _ Hb)). Qed.

(** C14: The live sessions are exactly those of the connections: a session in the hub
    belongs to one connection and no other, a session a listener has mapped is live and is
    its connection's, and admission keeps the count within [max_sessions] over all the
    listeners together. *)
Theorem runtime_sessions_accounted o actions : bounded actions → 0 ≤ max_sessions o →
  let s := run o actions in
  (∀ sid, is_Some (hub_ s !! sid) ↔ ∃ key k, conns s !! key = Some k ∧ session k = Some sid) ∧
  (∀ key k key' k' sid, conns s !! key = Some k → conns s !! key' = Some k' →
     session k = Some sid → session k' = Some sid → key = key') ∧
  (∀ key sid, sessions_ s !! key = Some sid → ∃ k, conns s !! key = Some k ∧ session k = Some sid) ∧
  count (hub_ s) ≤ max_sessions o.
Proof.
  intros Hb Hm s. pose proof (run_inv o _ Hb) as Hi. fold s in Hi. split_and!.
  - apply (iv_hub _ _ Hi).
  - apply (iv_unique _ _ Hi).
  - intros key sid Hs. destruct (iv_mapped _ _ Hi key) as [k Hk]; [by eexists|]. exists k. split; [done|].
    destruct (iv_conns _ _ Hi _ _ Hk) as [Hok _]. unfold conn_ok in Hok.
    destruct (pc k) as [| | | | | |s'|s'| | | | | |l|s' l|[] s' sc| | |s'|s'| |]; destruct_and?; congruence.
  - pose proof (iv_count _ _ Hi). unfold s in *. rewrite run_options in *. lia.
Qed.

(** C15: When [stop] has returned, nothing is left: no connection, no session in the hub
    or in a listener's map, no port that still accepts. *)
Theorem runtime_stop_releases o actions : bounded actions →
  let s := run o actions in owner s = Idle → running_ s = false →
  conns s = ∅ ∧ hub_ s = ∅ ∧ sessions_ s = ∅ ∧ ∀ l p, ports s !! l = Some p → on_ p = false.
Proof. intros Hb s. apply (at_rest _ _ (run_inv o _ Hb)). Qed.

(** C16: Messages reach the handler whole and in order. Of a live session of a running
    server the handler has seen, up to the one its thread holds, exactly the lines popped
    from the framer, and these are the first lines of the bytes received, however the
    reads cut them; once the server is stopping it may have seen fewer, never others. *)
Theorem runtime_messages_in_order o actions key k sid : bounded actions →
  let s := run o actions in
  conns s !! key = Some k → session k = Some sid → still_open (pc k) = true →
  (if running_ s then seen s sid ++ in_hand (pc k) = popped k else seen s sid `prefix_of` popped k) ∧
  popped k `prefix_of` messages (received k).
Proof.
  intros Hb s Hk Hs Ho. destruct (iv_conns _ _ (run_inv o _ Hb) _ _ Hk) as [Hok Hf].
  split; [by apply (open_seen s key)|by apply popped_prefix].
Qed.

(** * Witnesses: a client that sends two lines in three reads and leaves; the handler
    answers each, and throws at the end. *)
Module Greeter.
Definition here : Endpoint := mkEndpoint (txt "127.0.0.1") 8080.
Definition options : ServerOptions := mkServerOptions 4 2 64 0 1000 true TcpBackend.Threaded
  SecurityMode.Token [mkListenerOptions (txt "main") TransportKind.Tcp here true].
Definition os : Os := mkOs (λ _, true) (Some 3) true true true [].
Definition env (r : Recv) (s : Script) : Env := mkEnv true 7 r s [1; 9] [] os.
Definition quiet : Env := env Eof Return.
Definition key : Key := (1, 1).
Definition go (n : nat) (e : Env) : list Action := repeat (Turn key e) n.
Definition accepted : list Action := [StartServer; Own quiet; Own quiet; AcceptTurn 1 (Client here) []].
Definition read (d : bytes) : Env := env (Data d) (Send (txt "ok") (λ _, Return)).
Definition chatting : list Action :=
  accepted ++ go 12 (env Eof (Authenticate (txt "ann") (λ _, Return))) ++ go 4 (read (txt "h")) ++
  go 8 (read (txt "i" ++ [x0d; x0a] ++ txt "yo")).
Definition leaving : list Action := go 6 (read [x0a]) ++ go 12 (env Eof (Throw (txt "bye"))).
Definition stopping : list Action := StopServer :: go 3 quiet ++ repeat (Own quiet) 3 ++ [AcceptTurn 1 Nothing []] ++
  go 20 quiet ++ repeat (Own quiet) 6.
End Greeter.

Lemma runtime_session_protocol_witness :
  let s := run Greeter.options (Greeter.chatting ++ Greeter.leaving) in
  word s 1 = begun 1 [txt "hhi"; txt "yo"] ++ [OnStopped 1] ∧ word_ok 1 (word s 1).
Proof. split; [vm_compute; reflexivity|]. apply runtime_session_protocol. vm_compute. reflexivity. Defined.

Lemma runtime_sessions_accounted_witness :
  let s := run Greeter.options Greeter.chatting in
  count (hub_ s) = 1 ∧ sessions_ s !! Greeter.key = Some 1 ∧
  (∃ k, conns s !! Greeter.key = Some k ∧ session k = Some 1) ∧ count (hub_ s) ≤ 2.
Proof.
  assert (bounded Greeter.chatting ∧ 0 ≤ max_sessions Greeter.options) as [Hb Hm]
    by (split; vm_compute; [reflexivity|discriminate]).
  destruct (runtime_sessions_accounted Greeter.options _ Hb Hm) as (_ & _ & Hs & Hc).
  split; [vm_compute; reflexivity|]. split; [vm_compute; reflexivity|].
  split; [apply (Hs Greeter.key 1); vm_compute; reflexivity|exact Hc].
Defined.

Lemma runtime_stop_releases_witness :
  let s := run Greeter.options (Greeter.chatting ++ Greeter.stopping) in
  word s 1 = begun 1 [txt "hhi"] ∧ conns s = ∅ ∧ hub_ s = ∅ ∧ sessions_ s = ∅.
Proof.
  split; [vm_compute; reflexivity|].
  edestruct (runtime_stop_releases Greeter.options (Greeter.chatting ++ Greeter.stopping)) as (H1 & H2 & H3 & _);
    [vm_compute; reflexivity..|]. by split_and!.
Defined.

Lemma runtime_messages_in_order_witness :
  let s := run Greeter.options Greeter.chatting in
  ∃ k, conns s !! Greeter.key = Some k ∧ pc k = Popping ∧ seen s 1 = [txt "hhi"] ∧
    seen s 1 ++ in_hand (pc k) = popped k ∧ popped k `prefix_of` messages (received k).
Proof.
  assert ((λ k, (session k, pc k)) <$> conns (run Greeter.options Greeter.chatting) !! Greeter.key
    = Some (Some 1, Popping)) as H by (vm_compute; reflexivity).
  apply fmap_Some in H as (k & E & H). apply pair_eq in H as [Hs Hp]. symmetry in Hs, Hp.
  assert (bounded Greeter.chatting) as Hb by (vm_compute; reflexivity).
  assert (running_ (run Greeter.options Greeter.chatting) = true) as Hr by (vm_compute; reflexivity).
  pose proof (runtime_messages_in_order Greeter.options Greeter.chatting _ k 1 Hb E Hs) as H.
  rewrite Hr, Hp in H. destruct (H eq_refl) as [H1 H2]. intros s. exists k. rewrite Hp.
  split; [exact E|]. split; [exact eq_refl|]. split; [vm_compute; reflexivity|]. split; [exact H1|exact H2].
Defined.
