(* ===== verification/ServerSockets.v ===== *)
(** ServerSockets: the sockets of the text-line runtime, call by call
    ([src/src/Net/Threaded/SocketOperations.cpp], [TcpServerImpl.cpp], [ClientConnection.cpp],
    [src/src/Net/Iocp/WinSockSupport.cpp], [CompletionPort.cpp], [ServerLifecycle.cpp],
    [ServerAccept.cpp], [ServerConnections.cpp]). A function is a computation on the system:
    the sockets open and what has been set on each. What the system answers to a call depends
    on all that happened before ([Kernel]). The interface [ITcpServer] is a class; both
    backends are instances, on either build.
    A transport's threads get on between the calls of its owner, event by event ([Event]):
    the accept thread turn by turn, from wherever the stop finds it, a disconnection, the end
    of a client's thread. A stop runs the accept thread to its return, in three turns at most
    ([place_rank]), and ends the clients' threads as it joins them. A send is made by a
    callback, on a thread that keeps the client alive anyway, so it holds no socket open. *)
From S2P Require Import Prelude.
From S2P Require Import Text.
From S2P Require Import Kinds.
From S2P Require Import Port.
From S2P Require Import RuntimeHub.
From S2P Require Import RuntimeServer.

(** * The system *)
Record Sock := mkSock { flags : Z; bound : option Endpoint; listening : bool }.
Inductive Call :=
| NewSocket | ReuseAddress (s : Z) | BindTo (s : Z) (e : Endpoint) | Listen (s : Z)
| GetFlags (s : Z) | SetFlags (s f : Z) | Ioctl (s mode : Z)
| WaitReadable (s : Z) | AcceptFrom (s : Z) | ReceiveTimeout (s seconds microseconds : Z) | ReceiveTimeoutMs (s milliseconds : Z) | NoDelay (s : Z)
| Shutdown (s : Z) | Associate (s : Z) | PostReceive (s : Z)
| CloseSocket (s : Z) | StartThread | CreatePort | ClosePort.
(** The calls made, the open sockets, the completion ports that are open. *)
Record Sys := mkSys { calls : list Call; store : gmap Z Sock; ports : Z }.
Class Kernel := {
  answer : Sys → Call → Z;
  (** The mode of an accepted socket; the peer; the last error, its text and its number;
      the numbers of EAGAIN and EWOULDBLOCK. *)
  accepted_flags : Sys → Z;
  peer : Sys → option bytes * Z;
  last_error : Sys → bytes;
  error_code : Sys → Z;
  EAGAIN : Z;
  EWOULDBLOCK : Z;
  (** What an exception says. *)
  what : Sys → bytes;
  inet_pton : bytes → bool;
  (** The bit of O_NONBLOCK. *)
  nonblock : Z;
}.
Definition nonblocking `{Kernel} (k : Sock) : bool := Z.testbit (flags k) nonblock.

Section Sockets.
Context (b : Build) `{Kernel}.

Definition M (A : Type) : Type := Sys → A * Sys.
Definition ret {A} (a : A) : M A := λ st, (a, st).
Definition bind {A B} (m : M A) (k : A → M B) : M B := λ st, let '(a, st) := m st in k a st.
Definition gets {A} (f : Sys → A) : M A := λ st, (f st, st).

Definition set_flags (f : Z) (k : Sock) : Sock := mkSock f (bound k) (listening k).
(** What a call does to the sockets, by what was answered. *)
Definition effect (c : Call) (r : Z) (st : Sys) : Sys :=
  let set f := mkSys (calls st) f (ports st) in
  let set_ports n := mkSys (calls st) (store st) n in
  match c with
  | NewSocket => if is_valid_socket b r then set (<[r := mkSock 0 None false]> (store st)) else st
  | AcceptFrom _ => if is_valid_socket b r then set (<[r := mkSock (accepted_flags st) None false]> (store st)) else st
  | BindTo s e => if r =? 0 then set (alter (λ k, mkSock (flags k) (Some e) (listening k)) s (store st)) else st
  | Listen s => if r =? 0 then set (alter (λ k, mkSock (flags k) (bound k) true) s (store st)) else st
  | SetFlags s f => if r =? 0 then set (alter (set_flags f) s (store st)) else st
  | Ioctl s mode => if r =? 0 then set (alter (λ k, set_flags (if mode =? 0 then Z.clearbit (flags k) nonblock
      else Z.setbit (flags k) nonblock) k) s (store st)) else st
  | CloseSocket s => set (delete s (store st))
  | CreatePort => if r =? 0 then st else set_ports (ports st + 1)
  | ClosePort => set_ports (ports st - 1)
  | _ => st
  end.
Definition call (c : Call) : M Z := λ st, let r := answer st c in (r, effect c r (mkSys (calls st ++ [c]) (store st) (ports st))).
End Sockets.
Notation "'let!' x ':=' m 'in' k" := (bind m (λ x, k)) (at level 10, x name, m at level 100, k at level 200).

(** What the system keeps to: a new handle is not one that is open, and the flags it tells
    of a socket are the socket's. *)
Class KernelLaws (b : Build) `{Kernel} : Prop := {
  new_fresh st : is_valid_socket b (answer st NewSocket) = true → store st !! answer st NewSocket = None;
  accept_fresh st s : is_valid_socket b (answer st (AcceptFrom s)) = true → store st !! answer st (AcceptFrom s) = None;
  flags_told st s k : store st !! s = Some k → answer st (GetFlags s) < 0 ∨ answer st (GetFlags s) = flags k;
  nonblock_bit : 0 ≤ nonblock;
}.

(** * Operations on a socket *)
Section Operations.
Context (b : Build) `{Kernel}.
Local Abbreviation call := (call b).

(** [src/src/Port/Socket.cpp:44-49] The POSIX version, on lines 83-88, closes alike. *)
Definition close_socket (s : Z) : M unit :=
  if is_valid_socket b s then let! _ := call (CloseSocket s) in ret tt else ret tt.
(** [src/src/Net/Threaded/SocketOperations.cpp:35-47] *)
Definition set_nonblocking (s : Z) (enabled : bool) : M bool :=
  if os_windows b then let! r := call (Ioctl s (if enabled then 1 else 0)) in ret (r =? 0)
  else
    let! flags := call (GetFlags s) in
    if flags <? 0 then ret false
    else let! r := call (SetFlags s (if enabled then Z.lor flags (2 ^ nonblock) else Z.land flags (Z.lnot (2 ^ nonblock)))) in
      ret (r =? 0).
(** A failure after the socket is open: the message first, then the close. *)
Definition failed (prefix : bytes) (s : Z) : M (result bytes Z) :=
  let! e := gets last_error in let! _ := close_socket s in ret (Err (prefix ++ e)).
(** [src/src/Net/Threaded/SocketOperations.cpp:51-97] {open_listener} *)
Definition open_listener (e : Endpoint) : M (result bytes Z) :=
  if negb (inet_pton (ep_address e)) then ret (Err (txt "invalid IPv4 bind address: " ++ ep_address e))
  else
    let! s := call NewSocket in
    if negb (is_valid_socket b s) then let! m := gets last_error in ret (Err (txt "socket() failed: " ++ m))
    else
      let! _ := call (ReuseAddress s) in
      let! r := call (BindTo s e) in
      if negb (r =? 0) then failed (txt "bind() failed: ") s
      else
        let! r := call (Listen s) in
        if negb (r =? 0) then failed (txt "listen() failed: ") s
        else
          let! ok := set_nonblocking s true in
          if negb ok then failed (txt "setting listener nonblocking failed: ") s else ret (Ok s).
(** [src/src/Net/Threaded/SocketOperations.cpp:99-114] *)
Definition wait_for_client (s : Z) : M Z := call (WaitReadable s).
(** [src/src/Net/Threaded/SocketOperations.cpp:116-134] The handle, and the peer if there is one. *)
Definition accept_client (listener : Z) : M (Z * option Endpoint) :=
  let! s := call (AcceptFrom listener) in
  if negb (is_valid_socket b s) then ret (InvalidSocket b, None)
  else let! p := gets peer in ret (s, Some (mkEndpoint (default (txt "0.0.0.0") p.1) (u16 p.2))).
(** [src/src/Net/Threaded/SocketOperations.cpp:145-177] {configure_client_socket} The
    message, if it fails; SO_NOSIGPIPE is left out, which only some systems have. *)
Definition configure_client_socket (s : Z) (o : TcpServerOptions) : M (option bytes) :=
  let! ok := set_nonblocking s false in
  if negb ok then let! m := gets last_error in ret (Some (txt "setting client blocking failed: " ++ m))
  else
    let timeout_ms := Z.max 1 (to_receive_timeout_ms o) in
    let! _ := call (if os_windows b then ReceiveTimeoutMs s timeout_ms
                    else ReceiveTimeout s (timeout_ms / 1000) ((timeout_ms mod 1000) * 1000)) in
    let! _ := (if to_tcp_no_delay o then call (NoDelay s) else ret 0) in
    ret None.

(** [src/src/Net/Threaded/SocketOperations.cpp:136-143] WSAEWOULDBLOCK on Windows. *)
Definition last_accept_would_block : M bool :=
  gets (λ st, if os_windows b then error_code st =? 10035 else (error_code st =? EAGAIN) || (error_code st =? EWOULDBLOCK)).
(** [src/src/Net/Threaded/TcpServerImpl.cpp:130-147] {accept_loop} What a turn of the loop
    gets of the system, while it runs: what [accept_turn] takes, the text of the error, and
    the client's socket. *)
Definition next_client (listener : Z) : M (Waited * bytes * Z) :=
  let! ready := wait_for_client listener in
  if ready <? 0 then let! e := gets last_error in ret (WaitError, e, InvalidSocket b)
  else if ready =? 0 then ret (Nothing, [], InvalidSocket b)
  else
    let! c := accept_client listener in
    match c.2 with
    | Some remote => ret (Client remote, [], c.1)
    | None =>
        let! nothing := last_accept_would_block in
        if nothing then ret (WouldBlock, [], c.1) else let! e := gets last_error in ret (AcceptError, e, c.1)
    end.

(** ** Reasoning about a computation *)
Definition wp {A} (m : M A) (Q : A → Sys → Prop) (st : Sys) : Prop := let '(a, st) := m st in Q a st.
Lemma wp_bind {A B} (m : M A) (k : A → M B) Q st : wp m (λ a, wp (k a) Q) st → wp (bind m k) Q st.
Proof. unfold wp, bind. by destruct (m st). Qed.
Lemma wp_ret {A} (a : A) (Q : A → Sys → Prop) st : Q a st → wp (ret a) Q st.
Proof. done. Qed.
Lemma wp_mono {A} (m : M A) (Q Q' : A → Sys → Prop) st : (∀ a st, Q a st → Q' a st) → wp m Q st → wp m Q' st.
Proof. unfold wp. destruct (m st). auto. Qed.
(** Since [st0] one socket was opened, [s], which is as in [k]. *)
Definition has (st0 st : Sys) (s : Z) (k : Sock) : Prop :=
  store st = <[s := k]> (store st0) ∧ store st0 !! s = None ∧ is_valid_socket b s = true ∧ ports st = ports st0.
Definition same (st0 st : Sys) : Prop := store st = store st0 ∧ ports st = ports st0.
Lemma has_alter st0 st st' s k f : has st0 st s k → store st' = alter f s (store st) → ports st' = ports st → has st0 st' s (f k).
Proof. intros (Hs & Hf & Hv & Hp) Ha Hp'. unfold has. rewrite Ha, Hs, alter_insert_eq. split_and!; congruence. Qed.
Lemma has_closed st0 st st' s k : has st0 st s k → store st' = delete s (store st) → ports st' = ports st → same st0 st'.
Proof. intros (Hs & Hf & _ & Hp) Ha Hp'. unfold same. rewrite Ha, Hs, delete_insert_id by done. split; congruence. Qed.
Lemma wp_close st0 s k (Q : unit → Sys → Prop) st : has st0 st s k → (∀ st', same st0 st' → Q tt st') → wp (close_socket s) Q st.
Proof. intros Hh HQ. unfold close_socket. destruct Hh as (? & ? & Hv & ?). rewrite Hv. apply HQ. by eapply has_closed. Qed.
Lemma wp_failed st0 prefix s k (Q : result bytes Z → Sys → Prop) st :
  has st0 st s k → (∀ e st', same st0 st' → Q (Err e) st') → wp (failed prefix s) Q st.
Proof. intros Hh HQ. unfold failed. apply wp_bind, wp_bind. eapply wp_close; [done|]. intros st' Hs. by apply HQ. Qed.
Lemma wp_quiet st0 s k c (Q : Z → Sys → Prop) st : has st0 st s k →
  (∀ r st, store (effect b c r st) = store st ∧ ports (effect b c r st) = ports st) → (∀ r st', has st0 st' s k → Q r st') → wp (call c) Q st.
Proof. intros (? & ? & ? & ?) Hq HQ. unfold wp, ServerSockets.call. cbn zeta. apply HQ. unfold has. rewrite (proj1 (Hq _ _)), (proj2 (Hq _ _)). done. Qed.
(** [src/src/Net/Iocp/WinSockSupport.cpp:15-21] {reset} Of a handle that is given up. *)
Definition reset (s : Z) : M unit := if is_valid_socket b s then let! _ := call (CloseSocket s) in ret tt else ret tt.
(** [src/src/Net/Iocp/WinSockSupport.cpp:30-66] {open_listener} The handle is given up on
    each return but the last, after the message is set. *)
Definition open_overlapped (e : Endpoint) : M (result bytes Z) :=
  if negb (inet_pton (ep_address e)) then ret (Err (txt "invalid IPv4 bind address: " ++ ep_address e))
  else
    let! s := call NewSocket in
    let abandon prefix := let! m := gets last_error in let! _ := reset s in ret (Err (prefix ++ m)) in
    if s =? InvalidSocket b then abandon (txt "WSASocketW() failed: ")
    else
      let! _ := call (ReuseAddress s) in
      let! r := call (BindTo s e) in
      if negb (r =? 0) then abandon (txt "bind() failed: ")
      else
        let! r := call (Listen s) in
        if negb (r =? 0) then abandon (txt "listen() failed: ")
        else
          let! r := call (Ioctl s 1) in
          if negb (r =? 0) then abandon (txt "ioctlsocket(FIONBIO) failed: ") else ret (Ok s).

(** ** Both listeners *)
Context `{!KernelLaws b}.
Definition listens (e : Endpoint) (k : Sock) : Prop := bound k = Some e ∧ listening k = true ∧ nonblocking k = true.
(** What opening a listener promises: a new socket that listens, or nothing changed. *)
Definition opens (e : Endpoint) (st0 : Sys) (r : result bytes Z) (st : Sys) : Prop :=
  match r with Ok s => ∃ k, has st0 st s k ∧ listens e k | Err _ => same st0 st end.
Lemma wp_new (Q : Z → Sys → Prop) st :
  (∀ s st', is_valid_socket b s = false → same st st' → Q s st') → (∀ s st', has st st' s (mkSock 0 None false) → Q s st') →
  wp (call NewSocket) Q st.
Proof.
  intros HE HN. unfold wp, ServerSockets.call. cbn zeta. pose proof (new_fresh st) as Hf. simpl.
  destruct (is_valid_socket b (answer st NewSocket)) eqn:Hv; [|by apply HE]. apply HN. split_and!; auto.
Qed.
Lemma wp_set_nonblocking st0 s k on (Q : bool → Sys → Prop) st : has st0 st s k →
  (∀ st', has st0 st' s k → Q false st') → (∀ st' k', bound k' = bound k → listening k' = listening k →
    nonblocking k' = on → has st0 st' s k' → Q true st') → wp (set_nonblocking s on) Q st.
Proof.
  intros Hh HF HT. pose proof nonblock_bit as Hn.
  unfold set_nonblocking. destruct (os_windows b).
  - apply wp_bind. unfold wp, ServerSockets.call, ret. cbn zeta. cbn [effect]. destruct (_ =? 0) eqn:Hr; [|by apply HF].
    eapply HT; cycle 3; [eapply has_alter; [exact Hh|reflexivity|reflexivity]|done|done|]. unfold nonblocking. simpl.
    destruct on; simpl; [by apply Z.setbit_eq|by apply Z.clearbit_eq].
  - apply wp_bind. unfold wp at 1, ServerSockets.call at 1. cbn zeta. cbn [effect]. set (st1 := mkSys _ _ _).
    assert (has st0 st1 s k) as Hh1 by exact Hh. destruct Hh as (Hs & _).
    destruct (flags_told st s k) as [Hneg|Heq]; [by rewrite Hs, lookup_insert_eq|..].
    { rewrite (proj2 (Z.ltb_lt _ _) Hneg). by apply HF. }
    destruct (_ <? 0); [by apply HF|]. rewrite Heq. apply wp_bind. unfold wp, ServerSockets.call, ret. cbn zeta. cbn [effect].
    destruct (_ =? 0); [|by apply HF].
    eapply HT; cycle 3; [eapply has_alter; [exact Hh1|reflexivity|reflexivity]|done|done|]. unfold nonblocking. simpl.
    destruct on; [rewrite Z.lor_spec, Z.pow2_bits_true; [by rewrite orb_true_r|done]|].
    rewrite Z.land_spec, Z.lnot_spec, Z.pow2_bits_true by done. by rewrite andb_false_r.
Qed.
Lemma wp_bind_to st0 s k e (Q : Z → Sys → Prop) st : has st0 st s k →
  (∀ r st', r ≠ 0 → has st0 st' s k → Q r st') → (∀ st', has st0 st' s (mkSock (flags k) (Some e) (listening k)) → Q 0 st') → wp (call (BindTo s e)) Q st.
Proof.
  intros Hh HE HO. unfold wp, ServerSockets.call. cbn zeta. cbn [effect]. destruct (Z.eqb_spec (answer st (BindTo s e)) 0) as [->|Hne].
  - apply HO. eapply (has_alter _ _ _ _ _ (λ k, mkSock (flags k) (Some e) (listening k))); [exact Hh|done|done].
  - by apply HE.
Qed.
Lemma wp_listen st0 s k (Q : Z → Sys → Prop) st : has st0 st s k →
  (∀ r st', r ≠ 0 → has st0 st' s k → Q r st') → (∀ st', has st0 st' s (mkSock (flags k) (bound k) true) → Q 0 st') → wp (call (Listen s)) Q st.
Proof.
  intros Hh HE HO. unfold wp, ServerSockets.call. cbn zeta. cbn [effect]. destruct (Z.eqb_spec (answer st (Listen s)) 0) as [->|Hne].
  - apply HO. eapply (has_alter _ _ _ _ _ (λ k, mkSock (flags k) (bound k) true)); [exact Hh|done|done].
  - by apply HE.
Qed.
Lemma wp_configure st0 s k o (Q : option bytes → Sys → Prop) st : has st0 st s k →
  (∀ e st' k', has st0 st' s k' → Q (Some e) st') → (∀ st' k', nonblocking k' = false → has st0 st' s k' → Q None st') →
  wp (configure_client_socket s o) Q st.
Proof.
  intros Hh HE HO. apply wp_bind. eapply wp_set_nonblocking; [exact Hh|..].
  { intros st1 H1. apply wp_bind. by eapply HE. }
  intros st1 k1 _ _ Hn H1. apply wp_bind. eapply wp_quiet; [exact H1|by destruct (os_windows b)|]. intros _ st2 H2.
  apply wp_bind. destruct (to_tcp_no_delay o); [|by eapply HO].
  eapply wp_quiet; [exact H2|done|]. intros _ st3 H3. by eapply HO.
Qed.
(** A turn of the accept loop takes a client with a socket of its own or changes nothing;
    a client that is configured is in blocking mode, whatever mode its socket came in. *)
Theorem accepted_client_blocking listener o st : wp (next_client listener) (λ r st1,
  match r.1.1 with
  | Client _ => store st !! r.2 = None ∧ wp (configure_client_socket r.2 o) (λ e st2,
      ∃ k, store st2 = <[r.2 := k]> (store st) ∧ (e = None → nonblocking k = false)) st1
  | _ => same st st1
  end) st.
Proof.
  apply wp_bind. unfold wp at 1, wait_for_client, ServerSockets.call. cbn zeta. cbn [effect]. destruct (_ <? 0); [apply wp_bind; by split|].
  destruct (_ =? 0); [by split|]. set (st1 := mkSys _ _ _). apply wp_bind, wp_bind. unfold wp at 1, ServerSockets.call. cbn zeta.
  pose proof (accept_fresh st1 listener) as Hf. cbn [effect]. destruct (is_valid_socket b (answer st1 (AcceptFrom listener))) eqn:Hv; cbn [negb].
  - apply wp_bind, wp_ret. simpl. split; [by apply Hf|]. eapply (wp_configure st _ (mkSock (accepted_flags _) None false)).
    + split_and!; [done|by apply Hf|done..].
    + intros e st2 k (Hs & _). exists k. by split.
    + intros st2 k Hn (Hs & _). exists k. by split.
  - apply wp_ret. cbn [snd]. apply wp_bind. unfold wp at 1, last_accept_would_block, gets. destruct (if os_windows b then _ else _); [by split|].
    apply wp_bind. by split.
Qed.
Lemma open_listener_opens e st : wp (open_listener e) (opens e st) st.
Proof.
  unfold open_listener. destruct (negb (inet_pton _)); [by split|]. apply wp_bind, wp_new.
  { intros s st' Hv Hs. rewrite Hv. apply wp_bind. exact Hs. }
  intros s st1 H1. destruct (H1) as (_ & _ & Hv & _). rewrite Hv. cbn [negb].
  apply wp_bind. eapply wp_quiet; [exact H1|done|]. intros _ st2 H2. apply wp_bind. eapply wp_bind_to; [exact H2|..].
  { intros r st3 Hne H3. rewrite (proj2 (Z.eqb_neq _ _) Hne). by eapply wp_failed. }
  intros st3 H3. apply wp_bind. eapply wp_listen; [exact H3|..].
  { intros r st4 Hne H4. rewrite (proj2 (Z.eqb_neq _ _) Hne). by eapply wp_failed. }
  intros st4 H4. apply wp_bind. eapply wp_set_nonblocking; [exact H4|..].
  { intros st5 H5. by eapply wp_failed. }
  intros st5 k Hb Hl Hn H5. exists k. by split_and!.
Qed.
Lemma open_overlapped_opens e st : wp (open_overlapped e) (opens e st) st.
Proof.
  unfold open_overlapped. destruct (negb (inet_pton _)); [by split|]. apply wp_bind, wp_new.
  { intros s st' Hv Hs. apply negb_false_iff in Hv. rewrite Hv. apply wp_bind, wp_bind. unfold reset, is_valid_socket. by rewrite Hv. }
  intros s st1 H1. destruct (H1) as (_ & _ & Hv & _). apply negb_true_iff in Hv. rewrite Hv.
  assert (∀ prefix st' k, has st st' s k → wp (let! m := gets last_error in let! _ := reset s in ret (Err (prefix ++ m))) (opens e st) st') as Hg.
  { intros prefix st' k Hh. apply wp_bind, wp_bind. eapply wp_close; [exact Hh|]. by intros st'' Hs. }
  apply wp_bind. eapply wp_quiet; [exact H1|done|]. intros _ st2 H2. apply wp_bind. eapply wp_bind_to; [exact H2|..].
  { intros r st3 Hne H3. rewrite (proj2 (Z.eqb_neq _ _) Hne). by eapply Hg. }
  intros st3 H3. apply wp_bind. eapply wp_listen; [exact H3|..].
  { intros r st4 Hne H4. rewrite (proj2 (Z.eqb_neq _ _) Hne). by eapply Hg. }
  intros st4 H4. apply wp_bind. unfold wp at 1, ServerSockets.call. cbn zeta. cbn [effect]. destruct (_ =? 0) eqn:Hr.
  - eexists. split; [eapply (has_alter _ _ _ _ _ (λ k, set_flags (Z.setbit (flags k) nonblock) k)); [exact H4|done|done]|].
    split_and!; [done..|]. apply Z.setbit_eq, nonblock_bit.
  - by eapply Hg.
Qed.
End Operations.

(** * Sockets that come and go *)
(** From [st] to [st'] the sockets of [C] gave way to those of [C'], all open: the new ones
    were not open before, those given up are closed, and nothing else changed. *)
Record moves (C : gset Z) (st : Sys) (C' : gset Z) (st' : Sys) : Prop := {
  mv_open s : s ∈ C' → is_Some (store st' !! s) ∧ (s ∈ C ∨ store st !! s = None);
  mv_rest s : s ∉ C' → store st' !! s = if bool_decide (s ∈ C) then None else store st !! s;
  mv_ports : ports st' = ports st;
}.
Definition all_open (C : gset Z) (st : Sys) : Prop := ∀ s, s ∈ C → is_Some (store st !! s).
Lemma moves_same C st st' : all_open C st → same st st' → moves C st C st'.
Proof.
  intros Ho [Hs Hp]. split; [|by intros s Hn; rewrite Hs, bool_decide_eq_false_2|done].
  intros s Hin. rewrite Hs. auto.
Qed.
Lemma moves_trans C st C' st' C'' st'' : moves C st C' st' → moves C' st' C'' st'' → moves C st C'' st''.
Proof.
  intros [Ha Hb Hp] [Ha' Hb' Hp']. split; [| |congruence].
  - intros s Hs. destruct (Ha' s Hs) as [? Hor]. split; [done|]. destruct (decide (s ∈ C')) as [Hin|Hn]; [by apply Ha|].
    destruct Hor as [|Hnone]; [done|]. rewrite (Hb s Hn) in Hnone. case_bool_decide; auto.
  - intros s Hs. rewrite (Hb' s Hs). destruct (decide (s ∈ C')) as [Hin|Hn].
    + rewrite bool_decide_eq_true_2 by done. destruct (Ha s Hin) as [_ [Hc|Hnone]]; case_bool_decide; done.
    + rewrite bool_decide_eq_false_2 by done. by apply Hb.
Qed.
Lemma moves_open C st C' st' : moves C st C' st' → all_open C' st'.
Proof. intros Hm s Hs. by apply (mv_open _ _ _ _ Hm). Qed.
(** Any other open socket is left as it is. *)
Lemma moves_other C st C' st' s : moves C st C' st' → s ∉ C → is_Some (store st !! s) →
  s ∉ C' ∧ store st' !! s = store st !! s.
Proof.
  intros Hm Hn [k Hk]. assert (s ∉ C') as Hn'.
  { intros Hin. destruct (mv_open _ _ _ _ Hm s Hin) as [_ [|]]; congruence. }
  split; [done|]. rewrite (mv_rest _ _ _ _ Hm s Hn'). by rewrite bool_decide_eq_false_2.
Qed.
Lemma moves_frame L C st C' st' : moves C st C' st' → L ∉ C → is_Some (store st !! L) → moves ({[L]} ∪ C) st ({[L]} ∪ C') st'.
Proof.
  intros Hm Hn Ho. destruct (moves_other _ _ _ _ _ Hm Hn Ho) as [Hn' HL]. destruct Hm as [Ha Hb Hp]. split; [| |done].
  - intros s [->%elem_of_singleton|Hs]%elem_of_union; [rewrite HL; split; [done|set_solver]|].
    destruct (Ha s Hs) as [? [?|?]]; split; set_solver.
  - intros s Hs. rewrite (Hb s) by set_solver. apply not_elem_of_union in Hs as [HsL _].
    destruct (decide (s ∈ C)); [rewrite !bool_decide_eq_true_2 by set_solver|rewrite !bool_decide_eq_false_2 by set_solver]; done.
Qed.
Lemma moves_close C st st' s : all_open C st → store st' = delete s (store st) → ports st' = ports st → s ∈ C → moves C st (C ∖ {[s]}) st'.
Proof.
  intros Ho Hs Hp Hin. split; [| |done].
  - intros s' [Hs' Hne]%elem_of_difference. rewrite Hs, lookup_delete_ne by set_solver. auto.
  - intros s' Hs'. rewrite Hs. destruct (decide (s' = s)) as [->|Hne].
    + by rewrite lookup_delete_eq, bool_decide_eq_true_2.
    + rewrite lookup_delete_ne by done. by rewrite bool_decide_eq_false_2 by set_solver.
Qed.
Lemma moves_set C st st' s k : all_open C st → store st' = <[s := k]> (store st) → ports st' = ports st →
  s ∈ C ∨ store st !! s = None → moves C st ({[s]} ∪ C) st'.
Proof.
  intros Ho Hs Hp Hin. split; [| |done].
  - intros s' Hs'. rewrite Hs. destruct (decide (s' = s)) as [->|Hne]; [rewrite lookup_insert_eq; eauto|].
    rewrite lookup_insert_ne by done. assert (s' ∈ C) by set_solver. auto.
  - intros s' Hs'. rewrite Hs, lookup_insert_ne by set_solver. by rewrite bool_decide_eq_false_2 by set_solver.
Qed.
(** And then one more of the open ones is closed. *)
Lemma moves_closing L C st C' st' : moves C st C' st' → L ∉ C → is_Some (store st !! L) →
  ∀ st2, store st2 = delete L (store st') → ports st2 = ports st' → moves ({[L]} ∪ C) st C' st2.
Proof.
  intros Hm Hn Ho st2 Hs Hp. destruct (moves_other _ _ _ _ _ Hm Hn Ho) as [Hn' _].
  eapply moves_trans; [by apply moves_frame|]. replace C' with (({[L]} ∪ C') ∖ {[L]}) at 2 by set_solver.
  apply moves_close; [|done|done|set_solver]. eapply moves_open. by apply (moves_frame L C st).
Qed.

(** A computation of a transport, which holds the sockets [C t] open, and what holds of the
    transport it gives. *)
Definition does {T} (C : T → gset Z) (m : M T) (t : T) (R : T → Prop) : Prop := ∀ st, all_open (C t) st →
  wp m (λ t' st', moves (C t) st (C t') st' ∧ R t') st.
Lemma does_ret {T} (C : T → gset Z) t t' (R : T → Prop) : C t' = C t → R t' → does C (ret t') t R.
Proof. intros HC HR st Ho. apply wp_ret. split; [|done]. rewrite HC. by apply moves_same. Qed.
(** A part that moves the sockets to those of [t1], and the rest from there. *)
Lemma does_step {T A} (C : T → gset Z) (m : M A) k t (R : T → Prop) :
  (∀ st, all_open (C t) st → wp m (λ a st', ∃ t1, moves (C t) st (C t1) st' ∧ does C (k a) t1 R) st) → does C (bind m k) t R.
Proof.
  intros Hm st Ho. apply wp_bind. eapply wp_mono; [|by apply Hm]. intros a st1 (t1 & Hm1 & Hk).
  eapply wp_mono; [|apply Hk; by eapply moves_open]. intros t' st2 [Hm2 HR]. split; [|done]. by eapply moves_trans.
Qed.
Lemma does_bind {T} (C : T → gset Z) m k t (R R' : T → Prop) : does C m t R → (∀ t1, R t1 → does C (k t1) t1 R') → does C (bind m k) t R'.
Proof.
  intros Hm Hk. apply does_step. intros st Ho. eapply wp_mono; [|by apply Hm]. intros t1 st1 [? ?]. exists t1. auto.
Qed.
Lemma does_mono {T} (C : T → gset Z) m t (R R' : T → Prop) : does C m t R → (∀ t', R t' → R' t') → does C m t R'.
Proof. intros Hm HR st Ho. eapply wp_mono; [|by apply Hm]. intros t' st' [? ?]. auto. Qed.
(** From a transport that holds the same sockets. *)
Lemma does_from {T} (C : T → gset Z) m t t1 (R : T → Prop) : C t1 = C t → does C m t1 R → does C m t R.
Proof. intros HC Hm st Ho. rewrite <- HC in *. by apply Hm. Qed.
(** One operation after another, over a list. *)
Fixpoint each {T} (g : Z → T → M T) (l : list Z) (t : T) : M T :=
  match l with [] => ret t | s :: l => let! t := g s t in each g l t end.
Lemma does_each {T} (C : T → gset Z) (I : list Z → T → Prop) g l t :
  (∀ s l t, I (s :: l) t → does C (g s t) t (I l)) → I l t → does C (each g l t) t (I []).
Proof.
  intros Hg. revert t. induction l as [|s l IH]; intros t Hi; [by apply does_ret|].
  simpl. eapply does_bind; [by apply Hg|exact IH].
Qed.

Section Moving.
Context (b : Build) `{Kernel} `{!KernelLaws b} {T : Type} (C : T → gset Z).
Implicit Types (t : T) (R : T → Prop).
Lemma does_quiet c k t R : (∀ r st, store (effect b c r st) = store st ∧ ports (effect b c r st) = ports st) →
  (∀ r, does C (k r) t R) → does C (bind (call b c) k) t R.
Proof.
  intros Hc Hk. apply does_step. intros st Ho. unfold wp, ServerSockets.call. cbn zeta. exists t. split; [|apply Hk].
  apply moves_same; [done|]. split; [apply (Hc _ (mkSys _ _ _))|apply (Hc _ (mkSys _ _ _))].
Qed.
Lemma does_gets {A} (f : Sys → A) k t R : (∀ a, does C (k a) t R) → does C (bind (gets f) k) t R.
Proof. intros Hk. apply does_step. intros st Ho. exists t. split; [by apply moves_same|apply Hk]. Qed.
Lemma does_close s k t t1 R : is_valid_socket b s = true → s ∈ C t → C t1 = C t ∖ {[s]} →
  (∀ u, does C (k u) t1 R) → does C (bind (close_socket b s) k) t R.
Proof.
  intros Hv Hin HC Hk. apply does_step. intros st Ho. unfold close_socket. rewrite Hv. simpl. exists t1. split; [|apply Hk].
  rewrite HC. by apply moves_close.
Qed.
Lemma does_configure s o k t R : is_valid_socket b s = true → s ∈ C t →
  (∀ e, does C (k e) t R) → does C (bind (configure_client_socket b s o) k) t R.
Proof.
  intros Hv Hin Hk. apply does_step. intros st Ho. destruct (Ho s Hin) as [x Hx].
  assert (has b (mkSys (calls st) (delete s (store st)) (ports st)) st s x) as Hh.
  { split_and!; simpl; [by rewrite insert_delete_id|apply lookup_delete_eq|done..]. }
  assert (∀ e st' k', has b (mkSys (calls st) (delete s (store st)) (ports st)) st' s k' →
    ∃ t1, moves (C t) st (C t1) st' ∧ does C (k e) t1 R) as Hg.
  { intros e st' k' (Hs & _ & _ & Hp). exists t. split; [|apply Hk]. simpl in *. rewrite insert_delete_eq in Hs.
    replace (C t) with ({[s]} ∪ C t) at 2 by set_solver. by eapply moves_set; [..|left]. }
  eapply (wp_configure b); [exact Hh|eauto..].
Qed.
(** A turn of the accept loop: a socket that was not open, or nothing. *)
Lemma does_next listener k t R :
  (∀ r, (∀ e, r.1.1 ≠ Client e) → does C (k r) t R) →
  (∀ r t1 e, r.1.1 = Client e → is_valid_socket b r.2 = true → r.2 ∉ C t → C t1 = {[r.2]} ∪ C t → does C (k r) t1 R) →
  (∀ s, s ∉ C t → ∃ t1, C t1 = {[s]} ∪ C t) → does C (bind (next_client b listener) k) t R.
Proof.
  intros HN HC Hadd. apply does_step. intros st Ho. assert (∀ r st', same st st' → (∀ e, r.1.1 ≠ Client e) →
    ∃ t1, moves (C t) st (C t1) st' ∧ does C (k r) t1 R) as Hstay.
  { intros r st' Hs Hr. exists t. split; [by apply moves_same|by apply HN]. }
  apply wp_bind. unfold wp at 1, wait_for_client, ServerSockets.call. cbn zeta. cbn [effect]. destruct (_ <? 0).
  { apply wp_bind, wp_ret. by apply Hstay. }
  destruct (_ =? 0); [by apply wp_ret, Hstay|]. set (st1 := mkSys _ _ _). apply wp_bind, wp_bind.
  unfold wp at 1, ServerSockets.call. cbn zeta. pose proof (accept_fresh (b := b) st1 listener) as Hf. cbn [effect].
  destruct (is_valid_socket b (answer st1 (AcceptFrom listener))) eqn:Hv; cbn [negb].
  - apply wp_bind, wp_ret. cbn [snd]. specialize (Hf eq_refl). set (s := answer st1 _) in *.
    assert (s ∉ C t) as Hn by (intros Hin; destruct (Ho s Hin) as [? Hx]; simpl in Hf; congruence).
    destruct (Hadd s Hn) as [t1 Ht1]. apply wp_ret. exists t1. split.
    + rewrite Ht1. eapply moves_set; [done|reflexivity|done|by right].
    + by eapply HC.
  - apply wp_ret. cbn [snd]. apply wp_bind. unfold wp at 1, last_accept_would_block, gets.
    destruct (if os_windows b then _ else _); [by apply wp_ret, Hstay|]. apply wp_bind, wp_ret. by apply Hstay.
Qed.
End Moving.

(** * A transport *)
(** What its threads do between two calls of its owner: the accept thread gets on, the
    application's hook admitting the client or not; a connection is disconnected, by a
    callback, a worker or a timeout; a client's thread returns. A connection is named by its
    socket, which no other open one has. *)
Inductive Event := Accepting (admitted : bool) | Disconnecting (s : Z) | Ending (s : Z).
(** [src/include/ServerEngine/Net/ITcpServer.h:13-24] As far as its sockets go. *)
Class ITcpServer (T : Type) := {
  fresh : T;
  (** With what its threads do while it starts, when one more of them cannot be started. *)
  server_start : list Event → TcpServerOptions → T → Sys → (result bytes unit * T) * Sys;
  server_stop : T → Sys → T * Sys;
  server_step : Event → T → Sys → T * Sys;
  server_running : T → bool;
  (** The listening socket, and the completion ports it holds, while it runs; the sockets
      of its clients. *)
  server_socket : T → Z;
  server_ports : Z;
  server_clients : T → gset Z;
  (** What its members keep to between calls. *)
  server_ok : T → Prop;
}.
Definition held `{ITcpServer T} (t : T) : gset Z := {[server_socket t]} ∪ server_clients t.
(** What the runtime relies on: a start that fails changes nothing, one that succeeds
    adds a socket that listens; the threads take and close clients' sockets of their own;
    a stop closes what is held, the clients' sockets with the listening one. *)
Class ITcpServerLaws (b : Build) `{Kernel} (T : Type) `{ITcpServer T} : Prop := {
  fresh_idle : server_running fresh = false ∧ server_ok fresh;
  start_law early o t st : server_running t = false → server_ok t → wp (server_start early o t) (λ r st', server_ok r.2 ∧
    match r.1 with
    | Ok _ => server_running r.2 = true ∧ store st !! server_socket r.2 = None ∧ ports st' = ports st + server_ports ∧
        server_clients r.2 = ∅ ∧ ∃ k, store st' = <[server_socket r.2 := k]> (store st) ∧ listens (to_bind_endpoint o) k
    | Err _ => server_running r.2 = false ∧ same st st'
    end) st;
  step_law e t st : server_ok t → server_running t = true → all_open (server_clients t) st →
    wp (server_step e t) (λ t' st', moves (server_clients t) st (server_clients t') st' ∧
      server_ok t' ∧ server_running t' = true ∧ server_socket t' = server_socket t) st;
  stop_law t st : server_ok t →
    (server_running t = true → server_socket t ∉ server_clients t ∧ all_open (held t) st) →
    wp (server_stop t) (λ t' st', server_ok t' ∧ server_running t' = false ∧
    if server_running t then (∀ s, store st' !! s = if bool_decide (s ∈ held t) then None else store st !! s) ∧
      ports st' = ports st - server_ports
    else same st st') st;
}.

(** Where the accept thread stands: at the wait, with a client accepted, about to set its
    socket up, with one it has published, or returned. *)
Inductive Place := Waits | Offered (s : Z) | Configures (s : Z) | Publishes (s : Z) | Returned.
#[global] Instance Place_eq_dec : EqDecision Place.
Proof. solve_decision. Defined.
(** The turns it has left once the server does not run. *)
Definition place_rank (p : Place) : nat :=
  match p with Returned => 0 | Waits | Offered _ => 1 | Publishes _ => 2 | Configures _ => 3 end.

Section Backends.
Context (b : Build) `{Kernel}.
Local Abbreviation call := (call b).

(** ** A thread per client *)
(** A client's object is alive, and its socket open, while something refers to it: the map
    of clients or the copy a stop took of it, the client's thread, the accept thread. *)
Inductive Listed := Registered | Snapshot | Removed.
#[global] Instance Listed_eq_dec : EqDecision Listed.
Proof. solve_decision. Defined.
(** [src/src/Net/Threaded/ClientConnection.h:36-41] The socket is its key in the map. *)
Record ThreadedClient := mkClient { tc_closed : bool; tc_listed : Listed; tc_thread : bool }.
(** [src/src/Net/Threaded/TcpServerImpl.h:43-54] *)
Record Threaded := mkThreaded {
  th_system : SocketSystem; th_options : TcpServerOptions; th_running : bool; th_socket : Z;
  th_place : Place; th_clients : gmap Z ThreadedClient;
}.
Definition set_closed (c : ThreadedClient) : ThreadedClient := mkClient true (tc_listed c) (tc_thread c).
Definition set_listed (l : Listed) (c : ThreadedClient) : ThreadedClient := mkClient (tc_closed c) l (tc_thread c).
Definition set_thread (on : bool) (c : ThreadedClient) : ThreadedClient := mkClient (tc_closed c) (tc_listed c) on.
Definition with_clients (l : gmap Z ThreadedClient) (t : Threaded) : Threaded :=
  mkThreaded (th_system t) (th_options t) (th_running t) (th_socket t) (th_place t) l.
Definition at_place (p : Place) (t : Threaded) : Threaded :=
  mkThreaded (th_system t) (th_options t) (th_running t) (th_socket t) p (th_clients t).
Definition with_listener (running : bool) (s : Z) (t : Threaded) : Threaded :=
  mkThreaded (th_system t) (th_options t) running s (th_place t) (th_clients t).
Definition place_socket (p : Place) : option Z :=
  match p with Offered s | Configures s | Publishes s => Some s | _ => None end.
Definition referred (t : Threaded) (s : Z) (c : ThreadedClient) : bool :=
  negb (bool_decide (tc_listed c = Removed)) || tc_thread c || bool_decide (place_socket (th_place t) = Some s).
(** [src/src/Net/Threaded/ClientConnection.cpp:20-23] {~ClientConnection} The object changes;
    when nothing refers to it any more its destructor closes the socket. *)
Definition touch (s : Z) (f : ThreadedClient → ThreadedClient) (t : Threaded) : M Threaded :=
  match th_clients t !! s with
  | None => ret t
  | Some c =>
      if referred t s (f c) then ret (with_clients (<[s := f c]> (th_clients t)) t)
      else let! _ := close_socket b s in ret (with_clients (delete s (th_clients t)) t)
  end.
(** [src/src/Net/Threaded/SocketOperations.cpp:212-222] *)
Definition shutdown_socket (s : Z) : M unit :=
  if is_valid_socket b s then let! _ := call (Shutdown s) in ret tt else ret tt.
(** [src/src/Net/Threaded/ClientConnection.cpp:65-70] {disconnect} *)
Definition client_disconnect (s : Z) (t : Threaded) : M Threaded :=
  match th_clients t !! s with
  | None => ret t
  | Some c =>
      if tc_closed c then ret t
      else let! _ := shutdown_socket s in ret (with_clients (<[s := set_closed c]> (th_clients t)) t)
  end.
Definition is_listed (l : Listed) (s : Z) (t : Threaded) : bool :=
  match th_clients t !! s with Some c => bool_decide (tc_listed c = l) | None => false end.
(** [src/src/Net/Threaded/TcpServerImpl.cpp:112-125] {disconnect} Out of the map; the pointer
    taken from it keeps the socket open until the shutdown is done. *)
Definition threaded_disconnect (s : Z) (t : Threaded) : M Threaded :=
  if is_listed Registered s t
  then let! t := client_disconnect s t in touch s (set_listed Removed) t else ret t.
(** How many the map of clients has. *)
Definition registered (t : Threaded) : Z :=
  Z.of_nat (size (filter (λ x, tc_listed x.2 = Registered) (th_clients t))).
(** [src/src/Net/Threaded/TcpServerImpl.cpp:127-217] {accept_loop} A turn of the accept
    thread: lines 129-150, 153-158, 159-180 and 183-186, the last with [launch_client]. *)
Definition threaded_accept (admitted : bool) (t : Threaded) : M Threaded :=
  match th_place t with
  | Waits =>
      if negb (th_running t) then ret (at_place Returned t)
      else
        let! r := next_client b (th_socket t) in
        match r.1.1 with
        | Client _ => ret (at_place (Offered r.2) (with_clients (<[r.2 := mkClient false Removed false]> (th_clients t)) t))
        | _ => ret t
        end
  | Offered s =>
      if negb (th_running t) then touch s (λ c, c) (at_place Returned t)
      else if negb admitted then touch s (λ c, c) (at_place Waits t)
      else ret (at_place (Configures s) t)
  | Configures s =>
      let! e := configure_client_socket b s (th_options t) in
      match e with
      | Some _ => touch s (λ c, c) (at_place Waits t)
      | None =>
          if negb (th_running t) then touch s (λ c, c) (at_place Returned t)
          else if to_max_connections (th_options t) <=? registered t then touch s (λ c, c) (at_place Waits t)
          else touch s (set_listed Registered) (at_place (Publishes s) t)
      end
  | Publishes s =>
      let! failed := call StartThread in
      if failed =? 0 then touch s (set_thread true) (at_place Waits t)
      else let! t := threaded_disconnect s t in touch s (λ c, c) (at_place Waits t)
  | Returned => ret t
  end.
(** [src/src/Net/Threaded/TcpServerImpl.cpp:231-241] {run_client} The client's thread returns
    and gives up its reference. *)
Definition threaded_end (s : Z) (t : Threaded) : M Threaded :=
  match th_clients t !! s with
  | Some c => if tc_thread c then let! t := threaded_disconnect s t in touch s (set_thread false) t else ret t
  | None => ret t
  end.
Definition threaded_step (e : Event) (t : Threaded) : M Threaded :=
  match e with
  | Accepting admitted => threaded_accept admitted t
  | Disconnecting s => threaded_disconnect s t
  | Ending s => threaded_end s t
  end.
(** [src/src/Net/Threaded/TcpServerImpl.cpp:20-53] {start} *)
Definition threaded_start (o : TcpServerOptions) (t : Threaded) : M (result bytes unit * Threaded) :=
  if th_running t then ret (Ok tt, t)
  else if negb (initialized (th_system t)) then ret (Err (error_message (th_system t)), t)
  else
    let! r := open_listener b (to_bind_endpoint o) in
    match r with
    | Err e => ret (Err e, with_listener false (InvalidSocket b) t)
    | Ok s =>
        let t := mkThreaded (th_system t) o true s (th_place t) (th_clients t) in
        let! ok := call StartThread in
        if negb (ok =? 0) then
          let! e := gets what in let! _ := close_socket b s in
          ret (Err (txt "starting TCP accept thread failed: " ++ e), with_listener false (InvalidSocket b) t)
        else ret (Ok tt, at_place Waits t)
    end.
(** [src/src/Net/Threaded/TcpServerImpl.cpp:73-75] {stop} The accept thread gets on until it
    returns. *)
Fixpoint join_accept {T} (turn : T → M T) (fuel : nat) (t : T) : M T :=
  match fuel with O => ret t | S fuel => let! t := turn t in join_accept turn fuel t end.
(** [src/src/Net/Threaded/TcpServerImpl.cpp:69-72] {stop} *)
Definition interrupt_client (s : Z) (t : Threaded) : M Threaded :=
  if is_listed Snapshot s t then client_disconnect s t else ret t.
(** [src/src/Net/Threaded/TcpServerImpl.cpp:64-68] {stop} The clients swapped out of the map. *)
Definition snapshot_clients (t : Threaded) : Threaded :=
  with_clients ((λ c, if bool_decide (tc_listed c = Registered) then set_listed Snapshot c else c) <$> th_clients t) t.
(** [src/src/Net/Threaded/TcpServerImpl.cpp:88-88] {stop} The copy goes when stop returns. *)
Definition leave_snapshot (s : Z) (t : Threaded) : M Threaded := touch s (set_listed Removed) t.
Definition client_sockets (t : Threaded) : list Z := elements (dom (th_clients t)).
(** [src/src/Net/Threaded/TcpServerImpl.cpp:55-88] {stop} *)
Definition threaded_stop (t : Threaded) : M Threaded :=
  if negb (th_running t) then ret t
  else
    let t := snapshot_clients (with_listener false (th_socket t) t) in
    let! t := each interrupt_client (client_sockets t) t in
    let! t := join_accept (threaded_accept false) 3 t in
    let! _ := close_socket b (th_socket t) in
    let t := with_listener false (InvalidSocket b) t in
    let! t := each threaded_end (client_sockets t) t in
    each leave_snapshot (client_sockets t) t.
(** [src/include/ServerEngine/Net/TcpTypes.h:22-30] *)
Definition default_tcp_options : TcpServerOptions :=
  mkTcpOptions (mkEndpoint (txt "0.0.0.0") 0) 4 10000 65536 300000 1000 true.
(** Between calls nothing is in a stop's hands: every client's socket is one that is
    referred to, and what the accept thread holds is a client. *)
Record threaded_good (t : Threaded) : Prop := {
  tg_referred s c : th_clients t !! s = Some c → is_valid_socket b s = true ∧ referred t s c = true;
  tg_place s : place_socket (th_place t) = Some s → is_Some (th_clients t !! s);
}.
Record threaded_ok (t : Threaded) : Prop := {
  to_listener : th_running t = true → is_valid_socket b (th_socket t) = true;
  to_stopped : th_running t = false → th_clients t = ∅;
  to_good : threaded_good t;
}.
Definition threaded_server (sys : SocketSystem) : ITcpServer Threaded := {|
  fresh := mkThreaded sys default_tcp_options false (InvalidSocket b) Returned ∅;
  server_start _ := threaded_start; server_stop := threaded_stop; server_step := threaded_step;
  server_running := th_running; server_socket := th_socket; server_ports := 0;
  server_clients t := dom (th_clients t); server_ok := threaded_ok;
|}.

(** ** The completion port *)
(** [src/src/Net/Iocp/Server.h:59-73] [io_port]: whether the port's handle is open. A
    connection in the map is one that is not closed: they close under the map's mutex. *)
Record Iocp := mkIocpServer {
  io_system : SocketSystem; io_options : TcpServerOptions; io_running : bool; io_socket : Z; io_port : bool;
  io_place : Place; io_connections : gset Z;
}.
Definition io_at_place (p : Place) (t : Iocp) : Iocp :=
  mkIocpServer (io_system t) (io_options t) (io_running t) (io_socket t) (io_port t) p (io_connections t).
Definition with_connections (c : gset Z) (t : Iocp) : Iocp :=
  mkIocpServer (io_system t) (io_options t) (io_running t) (io_socket t) (io_port t) (io_place t) c.
Definition io_with (running : bool) (s : Z) (port : bool) (t : Iocp) : Iocp :=
  mkIocpServer (io_system t) (io_options t) running s port (io_place t) (io_connections t).
(** The socket the accept thread owns: until it is a connection's. *)
Definition place_handle (p : Place) : gset Z := match p with Offered s | Configures s => {[s]} | _ => ∅ end.
(** [src/src/Net/Iocp/CompletionPort.cpp:11-19] {open} *)
Definition open_port : M (option bytes) :=
  let! h := call CreatePort in
  if h =? 0 then let! e := gets last_error in ret (Some (txt "CreateIoCompletionPort() failed: " ++ e)) else ret None.
(** [src/src/Net/Iocp/CompletionPort.cpp:21-27] {close} *)
Definition close_port (open : bool) : M unit := if open then let! _ := call ClosePort in ret tt else ret tt.
(** [src/src/Net/Iocp/Connection.cpp:30-42] {close} Of a connection that is not closed. *)
Definition connection_close (s : Z) : M unit :=
  if is_valid_socket b s then let! _ := call (Shutdown s) in let! _ := call (CloseSocket s) in ret tt else ret tt.
(** [src/src/Net/Iocp/ServerConnections.cpp:45-63] {disconnect} *)
Definition iocp_disconnect (s : Z) (t : Iocp) : M Iocp :=
  if bool_decide (s ∈ io_connections t)
  then let! _ := connection_close s in ret (with_connections (io_connections t ∖ {[s]}) t) else ret t.
(** [src/src/Net/Iocp/ServerAccept.cpp:6-91] {accept_loop} A turn of the accept thread:
    lines 8-34, 35-46, 47-78 and 79-89. A socket that is dropped is closed by its handle. *)
Definition iocp_accept (admitted : bool) (t : Iocp) : M Iocp :=
  let drop s p := let! _ := reset b s in ret (io_at_place p t) in
  match io_place t with
  | Waits =>
      if negb (io_running t) then ret (io_at_place Returned t)
      else
        let! ready := call (WaitReadable (io_socket t)) in
        if (ready =? -1) || (ready =? 0) then ret t
        else
          let! s := call (AcceptFrom (io_socket t)) in
          if s =? InvalidSocket b then ret t else ret (io_at_place (Offered s) t)
  | Offered s =>
      if negb (io_running t) then drop s Returned
      else if negb admitted then drop s Waits else ret (io_at_place (Configures s) t)
  | Configures s =>
      let! _ := (if to_tcp_no_delay (io_options t) then call (NoDelay s) else ret 0) in
      if to_max_connections (io_options t) <=? Z.of_nat (size (io_connections t)) then drop s Waits
      else
        let! port := call (Associate s) in
        if port =? 0 then drop s Waits
        else ret (io_at_place (Publishes s) (with_connections ({[s]} ∪ io_connections t) t))
  | Publishes s =>
      if negb (io_running t) || negb (bool_decide (s ∈ io_connections t)) then
        let! t := iocp_disconnect s t in ret (io_at_place Waits t)
      else
        let! posted := call (PostReceive s) in
        if posted =? 0 then ret (io_at_place Waits t)
        else let! t := iocp_disconnect s t in ret (io_at_place Waits t)
  | Returned => ret t
  end.
Definition iocp_step (e : Event) (t : Iocp) : M Iocp :=
  match e with
  | Accepting admitted => iocp_accept admitted t
  | Disconnecting s => iocp_disconnect s t
  | Ending _ => ret t
  end.
(** [src/src/Net/Iocp/ServerConnections.cpp:84-89] *)
Definition close_all_connections (t : Iocp) : M Iocp := each iocp_disconnect (elements (io_connections t)) t.
(** [src/src/Net/Iocp/ServerLifecycle.cpp:54-88] {stop} *)
Definition iocp_stop (t : Iocp) : M Iocp :=
  if negb (io_running t) then ret t
  else
    let! t := join_accept (iocp_accept false) 3 (io_with false (io_socket t) (io_port t) t) in
    let! _ := reset b (io_socket t) in
    let! t := close_all_connections (io_with false (InvalidSocket b) (io_port t) t) in
    let! _ := close_port (io_port t) in
    ret (io_with false (InvalidSocket b) false t).
(** So many threads, up to one that cannot be created. *)
Fixpoint start_threads (n : nat) : M bool :=
  match n with O => ret true | S n => let! ok := call StartThread in if ok =? 0 then start_threads n else ret false end.
Fixpoint iocp_steps (l : list Event) (t : Iocp) : M Iocp :=
  match l with [] => ret t | e :: l => let! t := iocp_step e t in iocp_steps l t end.
(** [src/src/Net/Iocp/ServerLifecycle.cpp:17-52] {start} [early]: what the threads that were
    started do before the one that cannot be. *)
Definition iocp_start (early : list Event) (o : TcpServerOptions) (t : Iocp) : M (result bytes unit * Iocp) :=
  if io_running t then ret (Ok tt, t)
  else if negb (initialized (io_system t)) then ret (Err (error_message (io_system t)), t)
  else
    let! r := open_overlapped b (to_bind_endpoint o) in
    match r with
    | Err e => ret (Err e, t)
    | Ok s =>
        let! p := open_port in
        match p with
        | Some e => let! _ := reset b s in ret (Err e, io_with false (io_socket t) false t)
        | None =>
            let t := mkIocpServer (io_system t) o true s true Waits (io_connections t) in
            let! ok := start_threads (Z.to_nat (Z.max 1 (to_worker_count o)) + 2) in
            if negb ok then
              let! e := gets what in let! t := iocp_steps early t in let! t := iocp_stop t in
              ret (Err (txt "failed to start IOCP threads: " ++ e), t)
            else ret (Ok tt, t)
        end
    end.
(** [src/src/Net/TcpIocpServer.cpp:20-32] {start} *)
Definition facade_start (early : list Event) (o : TcpServerOptions) (t : Iocp) : M (result bytes unit * Iocp) :=
  if os_windows b then iocp_start early o t else ret (Err (txt "IOCP TCP backend is only available on Windows"), t).
(** [src/src/Net/TcpIocpServer.cpp:34-39] {stop} *)
Definition facade_stop (t : Iocp) : M Iocp := if os_windows b then iocp_stop t else ret t.
(** [src/src/Net/TcpIocpServer.cpp:41-48] {is_running} *)
Definition facade_running (t : Iocp) : bool := if os_windows b then io_running t else false.
Definition io_clients (t : Iocp) : gset Z := place_handle (io_place t) ∪ io_connections t.
Record iocp_ok (t : Iocp) : Prop := {
  io_listener : io_running t = true → is_valid_socket b (io_socket t) = true ∧ io_port t = true ∧ os_windows b = true;
  io_stopped : io_running t = false → io_clients t = ∅;
  io_valid s : s ∈ io_clients t → is_valid_socket b s = true;
  io_apart : place_handle (io_place t) ## io_connections t;
}.
Definition iocp_server (sys : SocketSystem) : ITcpServer Iocp := {|
  fresh := mkIocpServer sys default_tcp_options false (InvalidSocket b) false Returned ∅;
  server_start := facade_start; server_stop := facade_stop; server_step := iocp_step;
  server_running := facade_running; server_socket := io_socket; server_ports := 1;
  server_clients := io_clients; server_ok := iocp_ok;
|}.

(** ** They keep the interface *)
Context `{!KernelLaws b}.
Lemma same_refl st : same st st.
Proof. done. Qed.
Lemma same_trans st1 st2 st3 : same st1 st2 → same st2 st3 → same st1 st3.
Proof. intros [] []. split; congruence. Qed.
Lemma idle_post (P : Prop) (r : bool) (A : Prop) : r = false → A → (r = true → P) ∧ r = false ∧ A.
Proof. intros -> HA. by split. Qed.

(** *** A thread per client *)
Definition tsocks (t : Threaded) : gset Z := dom (th_clients t).
(** What an operation on the clients leaves alone. *)
Definition kept (t t' : Threaded) : Prop :=
  th_running t' = th_running t ∧ th_socket t' = th_socket t.
(** Every client but [s] is referred to. *)
Definition good_but (s : Z) (t : Threaded) : Prop :=
  (∀ s' c, th_clients t !! s' = Some c → is_valid_socket b s' = true ∧ (s' ≠ s → referred t s' c = true)) ∧
  (∀ s', place_socket (th_place t) = Some s' → is_Some (th_clients t !! s')).
Lemma good_good_but s t : threaded_good t → good_but s t.
Proof. intros [Hr Hp]. split; [|done]. intros s' c Hc. destruct (Hr s' c Hc). by split. Qed.
(** The client changed, or gone when nothing refers to it. *)
Definition touched (s : Z) (f : ThreadedClient → ThreadedClient) (t : Threaded) : gmap Z ThreadedClient :=
  partial_alter (λ o, c ← o; if referred t s (f c) then Some (f c) else None) s (th_clients t).
Lemma touched_lookup s f t s' c' : touched s f t !! s' = Some c' →
  (s' ≠ s ∧ th_clients t !! s' = Some c') ∨
  (s' = s ∧ ∃ c, th_clients t !! s = Some c ∧ c' = f c ∧ referred t s c' = true).
Proof.
  unfold touched. destruct (decide (s' = s)) as [->|Hne].
  - rewrite lookup_partial_alter_eq. destruct (th_clients t !! s) as [c|]; [|done]. simpl.
    destruct (referred t s (f c)) eqn:E; [|done]. intros [= <-]. right. split; [done|]. eauto.
  - rewrite lookup_partial_alter_ne by done. auto.
Qed.
Lemma does_touch s f t (R : Threaded → Prop) : good_but s t →
  (threaded_good (with_clients (touched s f t) t) → R (with_clients (touched s f t) t)) → does tsocks (touch s f t) t R.
Proof.
  intros [Hr Hp] HR. assert (threaded_good (with_clients (touched s f t) t)) as Hg.
  { split; cbn [with_clients th_clients th_place].
    - intros s' c [[Hne Hc]|(-> & c0 & Hc & -> & Hrc)]%touched_lookup; [destruct (Hr _ _ Hc); split; auto|].
      by destruct (Hr _ _ Hc).
    - intros s' Hs'. unfold touched. destruct (decide (s' = s)) as [->|Hne]; [|rewrite lookup_partial_alter_ne by done; by apply Hp].
      rewrite lookup_partial_alter_eq. destruct (Hp s Hs') as [c ->]. simpl. unfold referred. rewrite Hs', (bool_decide_eq_true_2 (Some s = Some s)) by done.
      rewrite orb_true_r. eauto. }
  specialize (HR Hg). unfold touch. destruct (th_clients t !! s) as [c|] eqn:Ec.
  2: { apply does_ret; [done|]. replace (touched s f t) with (th_clients t) in HR; [by destruct t|].
       unfold touched. apply map_eq. intros s'. destruct (decide (s' = s)) as [->|];
         [by rewrite lookup_partial_alter_eq, Ec|by rewrite lookup_partial_alter_ne]. }
  assert (touched s f t = if referred t s (f c) then <[s := f c]> (th_clients t) else delete s (th_clients t)) as Ht.
  { unfold touched. apply map_eq. intros s'. destruct (decide (s' = s)) as [->|Hne].
    - rewrite lookup_partial_alter_eq, Ec. simpl. destruct (referred t s (f c)); [by rewrite lookup_insert_eq|by rewrite lookup_delete_eq].
    - rewrite lookup_partial_alter_ne by done. destruct (referred t s (f c)); [by rewrite lookup_insert_ne|by rewrite lookup_delete_ne]. }
  rewrite Ht in HR. assert (s ∈ tsocks t) as Hin by (apply elem_of_dom; eauto).
  destruct (referred t s (f c)).
  - apply does_ret; [|done]. unfold tsocks. cbn [with_clients th_clients]. rewrite dom_insert_L. set_solver.
  - eapply (does_close b _ s _ t _); [by destruct (Hr _ _ Ec)|done| |intros _; by apply does_ret].
    unfold tsocks. cbn [with_clients th_clients]. by rewrite dom_delete_L.
Qed.
(** Shutting a client down changes its mark alone. *)
Lemma referred_closed t s c l : referred (with_clients l t) s (set_closed c) = referred t s c.
Proof. done. Qed.
Lemma does_client_disconnect s t (R : Threaded → Prop) : threaded_good t →
  (R t) → (∀ c, th_clients t !! s = Some c → R (with_clients (<[s := set_closed c]> (th_clients t)) t)) →
  does tsocks (client_disconnect s t) t R.
Proof.
  intros Hg HR HR'. unfold client_disconnect. destruct (th_clients t !! s) as [c|] eqn:Ec; [|by apply does_ret].
  destruct (tc_closed c); [by apply does_ret|].
  assert (does tsocks (ret (with_clients (<[s := set_closed c]> (th_clients t)) t)) t R) as Hret.
  { apply does_ret; [|auto]. unfold tsocks. cbn [with_clients th_clients].
    rewrite dom_insert_L. apply elem_of_dom_2 in Ec. set_solver. }
  unfold shutdown_socket. apply does_step. intros st Ho. destruct (is_valid_socket b s); simpl;
    (exists t; split; [by apply moves_same|done]).
Qed.
Lemma good_closed s c t : threaded_good t → th_clients t !! s = Some c →
  threaded_good (with_clients (<[s := set_closed c]> (th_clients t)) t).
Proof.
  intros [Hr Hp] Hc. split; cbn [with_clients th_clients th_place].
  - intros s' c'. destruct (decide (s' = s)) as [->|Hne]; [rewrite lookup_insert_eq; intros [= <-]; exact (Hr _ _ Hc)|].
    rewrite lookup_insert_ne by done. apply Hr.
  - intros s' Hs'. destruct (decide (s' = s)) as [->|Hne]; [rewrite lookup_insert_eq; eauto|rewrite lookup_insert_ne by done; auto].
Qed.
(** What becomes of the clients: each was one, none is newly in the map or in a copy, and
    [P] holds of those it is said of. *)
Definition clients_from (t t' : Threaded) (s : Z) (P : ThreadedClient → Prop) : Prop :=
  ∀ s' c', th_clients t' !! s' = Some c' → ∃ c, th_clients t !! s' = Some c ∧
    (tc_listed c' = tc_listed c ∨ tc_listed c' = Removed) ∧ (tc_thread c' = true → tc_thread c = true) ∧ (s' = s → P c').
Lemma clients_from_refl t s (P : ThreadedClient → Prop) : (∀ c, th_clients t !! s = Some c → P c) → clients_from t t s P.
Proof. intros HP s' c' Hc. exists c'. split_and!; auto. intros ->. auto. Qed.
Lemma clients_from_trans t t1 t2 s (P Q : ThreadedClient → Prop) : clients_from t t1 s Q → clients_from t1 t2 s P → clients_from t t2 s P.
Proof.
  intros H1 H2 s' c2 Hc2. destruct (H2 _ _ Hc2) as (c1 & Hc1 & Hl2 & Ht2 & HP). destruct (H1 _ _ Hc1) as (c & Hc & Hl1 & Ht1 & _).
  exists c. split_and!; auto. destruct Hl2 as [->|]; auto.
Qed.
Definition leaves (t : Threaded) (s : Z) (P : ThreadedClient → Prop) (t' : Threaded) : Prop :=
  threaded_good t' ∧ kept t t' ∧ th_place t' = th_place t ∧ clients_from t t' s P.
Lemma does_touch_leaves s f t (P : ThreadedClient → Prop) : threaded_good t →
  (∀ c, (tc_listed (f c) = tc_listed c ∨ tc_listed (f c) = Removed) ∧ (tc_thread (f c) = true → tc_thread c = true)) →
  (∀ c, th_clients t !! s = Some c → P (f c)) → does tsocks (touch s f t) t (leaves t s P).
Proof.
  intros Hg Hf HP. apply does_touch; [by apply good_good_but|]. intros Hg'. split_and!; try done.
  intros s' c' Hc'. cbn [with_clients th_clients] in Hc'. apply touched_lookup in Hc' as [[Hne Hc]|(-> & c & Hc & -> & _)].
  - exists c'. split_and!; auto. by intros ->.
  - exists c. destruct (Hf c). split_and!; auto.
Qed.
Lemma leaves_refl t s (P : ThreadedClient → Prop) : threaded_good t → (∀ c, th_clients t !! s = Some c → P c) → leaves t s P t.
Proof. intros Hg HP. split_and!; try done. by apply clients_from_refl. Qed.
Lemma leaves_trans t t1 t2 s (P Q : ThreadedClient → Prop) : leaves t s Q t1 → leaves t1 s P t2 → leaves t s P t2.
Proof.
  intros (_ & [Ha Hb] & Hp & Hc) (Hg & [Ha' Hb'] & Hp' & Hc'). unfold leaves, kept.
  split_and!; try congruence. by eapply clients_from_trans.
Qed.
Lemma does_close_mark s t : threaded_good t → does tsocks (client_disconnect s t) t (leaves t s (λ _, True)).
Proof.
  intros Hg. apply does_client_disconnect; [done|by apply leaves_refl|]. intros c Hc.
  split_and!; try done; [by apply good_closed|]. intros s' c'. cbn [with_clients th_clients].
  destruct (decide (s' = s)) as [->|Hne]; [rewrite lookup_insert_eq; intros [= <-]; exists c; auto|].
  rewrite lookup_insert_ne by done. eauto 10.
Qed.
Lemma does_disconnect s t : threaded_good t →
  does tsocks (threaded_disconnect s t) t (leaves t s (λ c, tc_listed c ≠ Registered)).
Proof.
  intros Hg. unfold threaded_disconnect, is_listed.
  assert (does tsocks (let! t := client_disconnect s t in touch s (set_listed Removed) t) t
    (leaves t s (λ c, tc_listed c ≠ Registered))) as Hd.
  { eapply does_bind; [by apply does_close_mark|]. intros t1 Hl.
    eapply does_mono; [apply (does_touch_leaves s _ _ (λ c, tc_listed c ≠ Registered)); [apply Hl|by intros c; split; [right|]|done]|].
    intros t2. by apply (leaves_trans _ _ _ _ _ (λ _, True)). }
  destruct (th_clients t !! s) as [c|] eqn:Ec; [|apply does_ret; [done|]; apply leaves_refl; [done|congruence]].
  case_bool_decide; [done|]. apply does_ret; [done|]. apply leaves_refl; [done|]. congruence.
Qed.
Lemma does_end s t : threaded_good t → does tsocks (threaded_end s t) t (leaves t s (λ c, tc_thread c = false)).
Proof.
  intros Hg. unfold threaded_end. destruct (th_clients t !! s) as [c|] eqn:Ec.
  2: { apply does_ret; [done|]. apply leaves_refl; [done|congruence]. }
  destruct (tc_thread c) eqn:Et; [|apply does_ret; [done|]; apply leaves_refl; [done|congruence]].
  eapply does_bind; [by apply does_disconnect|]. intros t1 Hl.
  eapply does_mono; [apply (does_touch_leaves s _ _ (λ c, tc_thread c = false)); [apply Hl|by intros c'; split; [left|]|done]|].
  intros t2. eapply leaves_trans. exact Hl.
Qed.
Definition no_registered (t : Threaded) : Prop := ∀ s c, th_clients t !! s = Some c → tc_listed c ≠ Registered.
Lemma leaves_registered t s (P : ThreadedClient → Prop) t' : leaves t s P t' → no_registered t → no_registered t'.
Proof.
  intros (_ & _ & _ & Hc) Hn s' c' Hc'. destruct (Hc _ _ Hc') as (c & Hlook & [->| ->] & _); [by eapply Hn|done].
Qed.
(** The accept thread moves on, with the client it holds or without it. *)
Lemma does_pass s f p t : threaded_good t → place_socket (th_place t) = Some s → place_socket p = None ∨ place_socket p = Some s →
  does tsocks (touch s f (at_place p t)) t (λ t', threaded_good t' ∧ kept t t' ∧ th_place t' = p ∧
    ((∀ c, tc_listed c ≠ Registered → tc_listed (f c) ≠ Registered) → no_registered t → no_registered t')).
Proof.
  intros [Hr Hp] Hs Hp'. apply (does_from _ _ t (at_place p t)); [done|]. apply does_touch.
  - split; cbn [at_place th_clients th_place].
    + intros s' c Hc. destruct (Hr _ _ Hc) as [Hv Href]. split; [done|]. intros Hne. unfold referred in *. rewrite Hs in Href.
      rewrite (bool_decide_eq_false_2 (Some s = Some s')) in Href by congruence. rewrite orb_false_r in Href.
      cbn [at_place th_place]. by rewrite Href.
    + intros s' Hs'. destruct Hp' as [Hp'|Hp']; [congruence|]. rewrite Hp' in Hs'. injection Hs' as <-. by apply Hp.
  - intros Hg. split_and!; try done. intros Hf Hn s' c' Hc'. cbn [with_clients th_clients] in Hc'.
    apply touched_lookup in Hc' as [[_ Hc]|(_ & c & Hc & -> & _)]; [by eapply Hn|]. eapply Hf, Hn. exact Hc.
Qed.
Definition accepts (t t' : Threaded) : Prop :=
  threaded_good t' ∧ kept t t' ∧ (th_running t = false →
    (place_rank (th_place t') ≤ pred (place_rank (th_place t)))%nat ∧ (no_registered t → no_registered t')).
Lemma does_accept admitted t : threaded_good t → does tsocks (threaded_accept admitted t) t (accepts t).
Proof.
  intros Hg. unfold threaded_accept. destruct (th_place t) as [|s|s|s|] eqn:Ep.
  - destruct (th_running t) eqn:Er; cbn [negb].
    + apply (does_next b).
      * intros r Hr. assert (accepts t t) as Ha by (split_and!; try done; congruence).
        destruct (r.1.1) eqn:Er'; try (by apply does_ret). by destruct (Hr remote).
      * intros r t1 e He Hv Hn Ht1. rewrite He. apply does_ret.
        { rewrite Ht1. unfold tsocks. cbn [at_place with_clients th_clients]. by rewrite dom_insert_L. }
        split_and!; [|done..|congruence]. destruct Hg as [Hgr Hgp]. split; cbn [at_place with_clients th_clients th_place].
        -- intros s' c. destruct (decide (s' = r.2)) as [->|Hne].
           ++ rewrite lookup_insert_eq. intros [= <-]. split; [done|]. unfold referred. rewrite (bool_decide_eq_true_2 (place_socket _ = _)) by done. apply orb_true_r.
           ++ rewrite lookup_insert_ne by done. intros Hc. destruct (Hgr _ _ Hc) as [? Href]. split; [done|].
              unfold referred in *. rewrite Ep in Href. cbn in Href |- *. rewrite orb_false_r in Href. by rewrite Href.
        -- intros s' [= <-]. rewrite lookup_insert_eq. eauto.
      * intros s Hs. exists (with_clients (<[s := mkClient false Removed false]> (th_clients t)) t).
        unfold tsocks. cbn [with_clients th_clients]. by rewrite dom_insert_L.
    + apply does_ret; [done|]. unfold accepts. rewrite Ep. split_and!; try done.
      destruct Hg as [Hgr Hgp]. split; [|done]. intros s c Hc. destruct (Hgr _ _ Hc) as [? Href]. split; [done|].
      unfold referred in *. rewrite Ep in Href. exact Href.
  - assert (∀ p, place_socket p = None → (place_rank p ≤ 1)%nat → (th_running t = true ∨ p = Returned) →
      does tsocks (touch s (λ c, c) (at_place p t)) t (accepts t)) as Hd.
    { intros p Hp Hrk Hr. eapply does_mono; [apply (does_pass s _ p t Hg); [by rewrite Ep|by left]|].
      intros t' (? & ? & Hpl & Hn). split_and!; try done. intros Hrf. rewrite Hpl, Ep. split; [destruct Hr as [Hr| ->]; [congruence|simpl; lia]|auto]. }
    destruct (th_running t) eqn:Er; cbn [negb]; [|by apply Hd; auto]. destruct admitted; cbn [negb]; [|by apply Hd; auto].
    apply does_ret; [done|]. unfold accepts. rewrite Er. split_and!; try done. destruct Hg as [Hgr Hgp].
    rewrite Ep in Hgp. split; [|exact Hgp]. intros s' c Hc. destruct (Hgr _ _ Hc) as [? Href]. split; [done|].
    unfold referred in *. rewrite Ep in Href. exact Href.
  - destruct (tg_place _ Hg s) as [c0 Hc0]; [by rewrite Ep|].
    apply (does_configure b); [by destruct (tg_referred _ Hg _ _ Hc0)|by apply elem_of_dom_2 in Hc0|]. intros e.
    assert (∀ p, place_socket p = None → (place_rank p ≤ 2)%nat → does tsocks (touch s (λ c, c) (at_place p t)) t (accepts t)) as Hd.
    { intros p Hp Hrk. eapply does_mono; [apply (does_pass s _ p t Hg); [by rewrite Ep|by left]|].
      intros t' (? & ? & Hpl & Hn). split_and!; try done. intros _. rewrite Hpl, Ep. split; [simpl; lia|auto]. }
    destruct e; [apply Hd; [done|simpl; lia]|]. destruct (th_running t) eqn:Er; cbn [negb]; [|apply Hd; [done|simpl; lia]].
    destruct (_ <=? _); [apply Hd; [done|simpl; lia]|].
    eapply does_mono; [apply (does_pass s _ (Publishes s) t Hg); [by rewrite Ep|by right]|].
    intros t' (? & ? & Hpl & _). split_and!; try done; congruence.
  - apply (does_quiet b); [done|]. intros r. destruct (r =? 0).
    + eapply does_mono; [apply (does_pass s _ Waits t Hg); [by rewrite Ep|by left]|].
      intros t' (? & ? & Hpl & Hn). split_and!; try done. intros _. rewrite Hpl, Ep. split; [simpl; lia|auto].
    + eapply does_bind; [by apply does_disconnect|]. intros t1 Hl. destruct (Hl) as (Hg1 & Hk1 & Hp1 & _).
      eapply does_mono; [apply (does_pass s _ Waits t1 Hg1); [by rewrite Hp1, Ep|by left]|].
      intros t' (? & [? ?] & Hpl & Hn). destruct Hk1 as [? ?]. unfold accepts, kept. rewrite Hpl, Ep.
      split_and!; [done|congruence..|]. intros _. split; [simpl; lia|]. intros Hreg. apply Hn; [auto|]. by eapply leaves_registered.
  - apply does_ret; [done|]. unfold accepts. rewrite Ep. by split_and!.
Qed.
Lemma does_join n t : threaded_good t → th_running t = false → no_registered t → (place_rank (th_place t) ≤ n)%nat →
  does tsocks (join_accept (threaded_accept false) n t) t (λ t', threaded_good t' ∧ kept t t' ∧ no_registered t' ∧ th_place t' = Returned).
Proof.
  revert t. induction n as [|n IH]; intros t Hg Hr Hn Hp.
  - apply does_ret; [done|]. split_and!; try done. by destruct (th_place t); simpl in Hp; try lia.
  - simpl. eapply does_bind; [by apply does_accept|]. intros t1 (Hg1 & [Hk1 Hk1'] & H1). destruct (H1 Hr) as [Hp1 Hn1].
    eapply does_mono; [apply IH; [done|congruence|auto|lia]|]. intros t' (? & [? ?] & ? & ?). split_and!; try done; split; congruence.
Qed.
(** The last two loops of a stop leave no client. *)
Lemma does_threads l t : threaded_good t → no_registered t → th_place t = Returned →
  (∀ s c, th_clients t !! s = Some c → s ∈ l ∨ tc_thread c = false) →
  does tsocks (each threaded_end l t) t (λ t', threaded_good t' ∧ kept t t' ∧ no_registered t' ∧ th_place t' = Returned ∧
    ∀ s c, th_clients t' !! s = Some c → tc_thread c = false).
Proof.
  intros Hg Hn Hp Hl.
  eapply does_mono; [apply (does_each _ (λ l t', threaded_good t' ∧ kept t t' ∧ no_registered t' ∧ th_place t' = Returned ∧
    ∀ s c, th_clients t' !! s = Some c → s ∈ l ∨ tc_thread c = false))|].
  - intros s k t1 (Hg1 & [Hk Hk'] & Hn1 & Hp1 & Hl1). eapply does_mono; [by apply does_end|]. intros t2 Hlv.
    pose proof (leaves_registered _ _ _ _ Hlv Hn1). destruct Hlv as (? & [? ?] & ? & Hc).
    split_and!; try done; [split; congruence|congruence|]. intros s' c' Hc'. destruct (Hc _ _ Hc') as (c & Hlook & _ & Ht & HP).
    destruct (Hl1 _ _ Hlook) as [[->|]%elem_of_cons|Hf]; [auto|by left|right; destruct (tc_thread c'); [by rewrite Ht in Hf|done]].
  - by split_and!.
  - intros t' (? & ? & ? & ? & Hl'). split_and!; try done. intros s c Hc. destruct (Hl' _ _ Hc) as [[]%elem_of_nil|]; done.
Qed.
Lemma does_leave l t : threaded_good t → no_registered t → th_place t = Returned →
  (∀ s c, th_clients t !! s = Some c → tc_thread c = false) → (∀ s c, th_clients t !! s = Some c → s ∈ l ∨ tc_listed c = Removed) →
  does tsocks (each leave_snapshot l t) t (λ t', threaded_good t' ∧ kept t t' ∧ th_clients t' = ∅).
Proof.
  intros Hg Hn Hp Ht Hl.
  eapply does_mono; [apply (does_each _ (λ l t', threaded_good t' ∧ kept t t' ∧ no_registered t' ∧ th_place t' = Returned ∧
    (∀ s c, th_clients t' !! s = Some c → tc_thread c = false) ∧ ∀ s c, th_clients t' !! s = Some c → s ∈ l ∨ tc_listed c = Removed))|].
  - intros s k t1 (Hg1 & [Hk Hk'] & Hn1 & Hp1 & Ht1 & Hl1).
    eapply does_mono; [apply (does_touch_leaves s _ _ (λ c, tc_listed c = Removed) Hg1); [by intros c; split; [right|]|done]|].
    intros t2 Hlv. pose proof (leaves_registered _ _ _ _ Hlv Hn1). destruct Hlv as (? & [? ?] & ? & Hc).
    split_and!; try done; [split; congruence|congruence| |]; intros s' c' Hc'; destruct (Hc _ _ Hc') as (c & Hlook & Hls & Hth & HP).
    + apply Ht1 in Hlook. destruct (tc_thread c'); [by rewrite Hth in Hlook|done].
    + destruct (Hl1 _ _ Hlook) as [[->|]%elem_of_cons|Hf]; [auto|by left|right; destruct Hls; congruence].
  - by split_and!.
  - intros t' (Hg' & ? & ? & Hp' & Ht' & Hl'). split_and!; try done. apply map_empty. intros s. destruct (th_clients t' !! s) as [c|] eqn:Hc; [|done].
    destruct (Hl' _ _ Hc) as [[]%elem_of_nil|Hrm]. destruct (tg_referred _ Hg' _ _ Hc) as [_ Href]. unfold referred in Href.
    rewrite Hrm, Hp', (Ht' _ _ Hc) in Href. done.
Qed.
(** ** Stopping *)
Lemma bind_assoc_wp {A B C} (m : M A) (k : A → M B) (k' : B → M C) Q st :
  wp (bind m (λ a, bind (k a) k')) Q st = wp (bind m k) (λ c, wp (k' c) Q) st.
Proof. unfold wp, bind. destruct (m st) as [a st1]. by destruct (k a st1). Qed.
Lemma snapshot_good t : threaded_good t → let t0 := snapshot_clients (with_listener false (th_socket t) t) in
  threaded_good t0 ∧ no_registered t0 ∧ tsocks t0 = tsocks t.
Proof.
  intros [Hgr Hgp] t0. split_and!; [split| |]; unfold t0, tsocks; cbn [snapshot_clients with_clients with_listener th_clients th_place].
  - intros s c Hs. cbn [snapshot_clients with_clients with_listener th_clients] in Hs.
    rewrite lookup_fmap in Hs. apply fmap_Some in Hs as (c0 & Hc0 & ->). destruct (Hgr _ _ Hc0) as [? Href].
    split; [done|]. unfold referred in *. cbn [snapshot_clients with_clients with_listener th_place].
    destruct (bool_decide (tc_listed c0 = Registered)); [reflexivity|exact Href].
  - intros s Hs. rewrite lookup_fmap. by apply fmap_is_Some, Hgp.
  - intros s c Hs. cbn [snapshot_clients with_clients with_listener th_clients] in Hs.
    rewrite lookup_fmap in Hs. apply fmap_Some in Hs as (c0 & _ & ->). by case_bool_decide.
  - apply dom_fmap_L.
Qed.
Lemma does_interrupts t : threaded_good t → th_running t = false → no_registered t →
  does tsocks (let! t := each interrupt_client (client_sockets t) t in join_accept (threaded_accept false) 3 t) t
    (λ t', threaded_good t' ∧ kept t t' ∧ no_registered t' ∧ th_place t' = Returned).
Proof.
  intros Hg Hr Hn. eapply does_bind; [apply (does_each _ (λ _ t', threaded_good t' ∧ kept t t' ∧ no_registered t'))|].
  - intros s l t1 (Hg1 & [Hk Hk'] & Hn1). unfold interrupt_client.
    destruct (is_listed _ _ _); [|by apply does_ret]. eapply does_mono; [by apply does_close_mark|].
    intros t2 Hlv. pose proof (leaves_registered _ _ _ _ Hlv Hn1). destruct Hlv as (? & [? ?] & _). split_and!; try done; split; congruence.
  - by split_and!.
  - intros t1 (Hg1 & [Hk Hk'] & Hn1).
    eapply does_mono; [apply does_join; [done|congruence|done|by destruct (th_place t1); simpl; lia]|].
    intros t2 (? & [? ?] & ? & ?). split_and!; try done; split; congruence.
Qed.
Lemma does_clear t : threaded_good t → no_registered t → th_place t = Returned →
  does tsocks (let t := with_listener false (InvalidSocket b) t in
    let! t := each threaded_end (client_sockets t) t in each leave_snapshot (client_sockets t) t) t
    (λ t', threaded_good t' ∧ kept (with_listener false (InvalidSocket b) t) t' ∧ th_clients t' = ∅).
Proof.
  intros Hg Hn Hp. cbn zeta. set (t0 := with_listener false (InvalidSocket b) t). apply (does_from _ _ _ t0); [done|].
  assert (∀ t s c, th_clients t !! s = Some c → s ∈ client_sockets t) as Hall.
  { intros t' s c Hc. unfold client_sockets. apply elem_of_elements. by apply elem_of_dom_2 in Hc. }
  eapply does_bind; [apply does_threads; [by destruct Hg; split|done|done|left; by eapply Hall]|].
  intros t1 (Hg1 & [Hk Hk'] & Hn1 & Hp1 & Ht1).
  eapply does_mono; [apply does_leave; [done..|left; by eapply Hall]|]. intros t2 (? & [? ?] & ?).
  split_and!; try done; split; congruence.
Qed.
Lemma threaded_laws sys : ITcpServerLaws b Threaded (H0 := threaded_server sys).
Proof.
  assert (∀ t, th_clients t = ∅ → (∀ s, place_socket (th_place t) = Some s → False) → threaded_good t) as Hidle.
  { intros t Hc Hp. split; [intros s c; by rewrite Hc, lookup_empty|]. intros s Hs. by destruct (Hp s). }
  split.
  - split; [done|]. split; [done|done|]. by apply Hidle.
  - intros early o t st Hr Hok. simpl in Hr, Hok |- *. pose proof (to_stopped _ Hok Hr) as Hc. pose proof (to_good _ Hok) as Hg.
    assert (∀ x, th_clients x = ∅ → th_place x = th_place t → threaded_good x) as Hgx.
    { intros x Hx Hpx. apply Hidle; [done|]. rewrite Hpx. intros s Hs. destruct (tg_place _ Hg s Hs) as [c Hl]. by rewrite Hc, lookup_empty in Hl. }
    assert (threaded_ok (with_listener false (InvalidSocket b) t)) as Hfail by (split; [done|done|by apply Hgx]).
    unfold threaded_start. rewrite Hr. destruct (negb _); [by apply wp_ret|].
    apply wp_bind. eapply wp_mono; [|apply (open_listener_opens b)]. intros [s|e] st1; [|intros Hs; by apply wp_ret]. intros (k & Hh & Hl).
    apply wp_bind. eapply (wp_quiet b); [exact Hh|done|]. intros r st2 H2. destruct (r =? 0); cbn [negb].
    + destruct H2 as (? & ? & ? & ?). apply wp_ret. simpl. split.
      * split; [done|done|]. by apply Hidle.
      * split_and!; try done; [lia|by rewrite Hc, dom_empty_L|by exists k].
    + apply wp_bind, wp_bind. eapply wp_close; [exact H2|]. intros st3 Hs. apply wp_ret. split; [|by split].
      split; [done|done|by apply Hgx].
  - intros e t st [Hv _ Hg] Hr Ho. simpl in Hr, Ho |- *. specialize (Hv Hr).
    assert (does tsocks (threaded_step e t) t (λ t', threaded_good t' ∧ kept t t')) as Hd.
    { destruct e as [admitted|s|s]; simpl; (eapply does_mono; [by (apply does_accept || apply does_disconnect || apply does_end)|]);
        intros t' (? & ? & _); done. }
    eapply wp_mono; [|by apply Hd]. intros t' st' (Hm & Hg' & Hk & Hk'). split_and!; [done| |congruence|done].
    split; [congruence|congruence|done].
  - intros t st Hok Hown. simpl in Hok, Hown |- *. pose proof Hok as [Hv _ Hg]. unfold threaded_stop.
    destruct (th_running t) eqn:Hr; cbn [negb]; [|by apply wp_ret]. destruct (Hown eq_refl) as [Hn Ho]. specialize (Hv eq_refl). clear Hown.
    unfold held in Ho. simpl in Ho. destruct (snapshot_good t Hg) as (Hg0 & Hn0 & Hs0). rewrite bind_assoc_wp.
    assert (all_open (tsocks t) st) as Hoc by (intros s Hs; apply Ho; set_solver).
    rewrite <- Hs0 in Hoc. eapply wp_mono; [|by apply (does_interrupts _ Hg0 eq_refl Hn0)]. rewrite Hs0.
    intros t1 st1 (Hm1 & Hg1 & [Hk1 Hk1'] & Hn1 & Hp1). rewrite Hk1'. clear Hoc.
    assert (is_Some (store st !! th_socket t)) as HL by (apply Ho; set_solver).
    pose proof (moves_closing (th_socket t) _ _ _ _ Hm1 Hn HL) as Hm1c. apply wp_bind. unfold close_socket.
    cbn [snapshot_clients with_clients with_listener th_socket]. rewrite Hv. unfold wp at 1. cbn [bind ret]. cbn zeta.
    specialize (Hm1c (mkSys (calls st1 ++ [CloseSocket (th_socket t)]) (delete (th_socket t) (store st1)) (ports st1)) eq_refl eq_refl).
    eapply wp_mono; [|apply does_clear; [done|done|done|by eapply moves_open]].
    intros t2 st2 (Hm2 & Hg2 & [Hk2 Hk2'] & Hc2). pose proof (moves_trans _ _ _ _ _ _ Hm1c Hm2) as Hm.
    split; [split; [|done|done]; cbn in Hk2; congruence|]. split; [cbn in Hk2; congruence|]. rewrite Z.sub_0_r. split; [|apply Hm].
    intros s. apply (mv_rest _ _ _ _ Hm). unfold tsocks. rewrite Hc2. set_solver.
Qed.

(** *** The completion port *)
Lemma wp_start_threads n (Q : bool → Sys → Prop) st :
  (∀ ok st', store st' = store st → ports st' = ports st → Q ok st') → wp (start_threads n) Q st.
Proof.
  revert st. induction n as [|n IH]; intros st HQ; simpl; [by apply HQ|]. apply wp_bind. unfold wp at 1, ServerSockets.call.
  cbn zeta. cbn [effect]. destruct (_ =? 0); [|by apply HQ]. apply IH. intros. by apply HQ.
Qed.
Lemma wp_open_port (Q : option bytes → Sys → Prop) st :
  (∀ e st', same st st' → Q (Some e) st') → (∀ st', store st' = store st → ports st' = ports st + 1 → Q None st') → wp open_port Q st.
Proof.
  intros HE HO. apply wp_bind. unfold wp at 1, ServerSockets.call. cbn zeta. cbn [effect]. destruct (_ =? 0); [|by apply HO]. by apply HE.
Qed.
Definition io_good (t : Iocp) : Prop :=
  (∀ s, s ∈ io_clients t → is_valid_socket b s = true) ∧ place_handle (io_place t) ## io_connections t.
Definition io_kept (t t' : Iocp) : Prop :=
  io_running t' = io_running t ∧ io_socket t' = io_socket t ∧ io_port t' = io_port t.
(** A connection leaves the map closed. *)
Definition without (s : Z) (t : Iocp) : Iocp := with_connections (io_connections t ∖ {[s]}) t.
Lemma does_io_disconnect s t (R : Iocp → Prop) : io_good t → (io_good (without s t) → R (without s t)) →
  does io_clients (iocp_disconnect s t) t R.
Proof.
  intros [Hv Hd] HR. assert (io_good (without s t)) as Hg.
  { unfold io_good, without, io_clients in *. cbn [with_connections io_place io_connections] in *. split; set_solver. }
  specialize (HR Hg). unfold iocp_disconnect. case_bool_decide as Hin.
  - apply does_step. intros st Ho. unfold connection_close. rewrite (Hv s) by (unfold io_clients; set_solver).
    apply wp_bind. unfold wp at 1, ServerSockets.call. cbn zeta. apply wp_bind. unfold wp at 1, ServerSockets.call. cbn zeta.
    apply wp_ret. exists (without s t). split; [|by apply does_ret].
    replace (io_clients (without s t)) with (io_clients t ∖ {[s]}).
    + apply moves_close; [done|done|done|]. unfold io_clients. set_solver.
    + unfold io_clients, without. cbn [with_connections io_place io_connections]. set_solver.
  - assert (without s t = t) as E.
    { unfold without. destruct t; unfold with_connections; cbn in *. f_equal. set_solver. }
    rewrite E in HR. by apply does_ret.
Qed.
(** The accept thread drops the socket it owns. *)
Lemma does_drop s p t (R : Iocp → Prop) : io_good t → place_handle (io_place t) = {[s]} → place_handle p = ∅ →
  (io_good (io_at_place p t) → R (io_at_place p t)) → does io_clients (let! _ := reset b s in ret (io_at_place p t)) t R.
Proof.
  intros [Hv Hd] Hs Hp HR. apply (does_close b io_clients s _ t (io_at_place p t)).
  - apply Hv. unfold io_clients. set_solver.
  - unfold io_clients. set_solver.
  - unfold io_clients. cbn [io_at_place io_place io_connections]. rewrite Hp, Hs. rewrite Hs in Hd. set_solver.
  - intros _. apply does_ret; [done|]. apply HR. unfold io_good, io_clients in *. cbn [io_at_place io_place io_connections] in *.
    rewrite Hp. split; set_solver.
Qed.
Definition io_accepts (t t' : Iocp) : Prop := io_good t' ∧ io_kept t t' ∧
  (io_running t = false → (place_rank (io_place t') ≤ pred (place_rank (io_place t)))%nat).
Lemma does_io_wait t : io_good t → io_place t = Waits → does io_clients
  (let! ready := call (WaitReadable (io_socket t)) in
   if (ready =? -1) || (ready =? 0) then ret t
   else let! s := call (AcceptFrom (io_socket t)) in
     if s =? InvalidSocket b then ret t else ret (io_at_place (Offered s) t)) t (λ t', io_good t' ∧ io_kept t t').
Proof.
  intros Hg Hp. apply (does_quiet b); [done|]. intros ready. destruct (_ || _); [by apply does_ret|].
  apply does_step. intros st Ho. unfold wp, ServerSockets.call. cbn zeta. pose proof (accept_fresh (b := b) st (io_socket t)) as Hf.
  cbn [effect]. set (s := answer st _) in *. unfold is_valid_socket in *. destruct (s =? InvalidSocket b) eqn:Es; cbn [negb].
  - exists t. split; [by apply moves_same|by apply does_ret].
  - specialize (Hf eq_refl). assert (s ∉ io_clients t) as Hn by (intros Hin; destruct (Ho s Hin); congruence).
    assert (io_clients (io_at_place (Offered s) t) = {[s]} ∪ io_clients t) as HC.
    { unfold io_clients. cbn [io_at_place io_place io_connections place_handle]. rewrite Hp. cbn [place_handle]. set_solver. }
    exists (io_at_place (Offered s) t). split.
    + rewrite HC. eapply moves_set; [done|reflexivity|done|by right].
    + apply does_ret; [done|]. split; [|done]. destruct Hg as [Hv Hd]. split.
      * rewrite HC. intros s' [->%elem_of_singleton|Hs']%elem_of_union; [by unfold is_valid_socket; rewrite Es|auto].
      * cbn [io_at_place io_place io_connections place_handle]. unfold io_clients in Hn. set_solver.
Qed.
(** The accept thread moves on with the socket it owns. *)
Lemma does_moves_on p t (R : Iocp → Prop) : io_good t → place_handle p = place_handle (io_place t) →
  (io_good (io_at_place p t) → R (io_at_place p t)) → does io_clients (ret (io_at_place p t)) t R.
Proof.
  intros Hg Hp HR. assert (io_clients (io_at_place p t) = io_clients t) as HC.
  { unfold io_clients. cbn [io_at_place io_place io_connections]. by rewrite Hp. }
  apply does_ret; [done|]. apply HR. destruct Hg as [Hv Hd]. split; [by rewrite HC|].
  cbn [io_at_place io_place io_connections]. by rewrite Hp.
Qed.
Lemma does_io_accept admitted t : io_good t → does io_clients (iocp_accept admitted t) t (io_accepts t).
Proof.
  intros Hg. unfold iocp_accept. destruct (io_place t) as [|s|s|s|] eqn:Ep.
  - destruct (io_running t) eqn:Er; cbn [negb].
    + eapply does_mono; [by apply does_io_wait|]. intros t' (? & ? & ? & ?). split_and!; try done. congruence.
    + apply does_moves_on; [done|by rewrite Ep|]. intros Hg'. split_and!; try done. intros _. simpl. lia.
  - assert (∀ p, place_handle p = ∅ → (place_rank p ≤ 1)%nat → (io_running t = true ∨ p = Returned) →
      does io_clients (let! _ := reset b s in ret (io_at_place p t)) t (io_accepts t)) as Hd.
    { intros p Hp Hrk Hr. apply does_drop; [done|by rewrite Ep|done|]. intros Hg'. split_and!; try done. intros Hrf. rewrite Ep.
      destruct Hr as [Hr| ->]; [congruence|simpl; lia]. }
    destruct (io_running t) eqn:Er; cbn [negb]; [|by apply Hd; auto]. destruct admitted; cbn [negb]; [|by apply Hd; auto].
    apply does_moves_on; [done|by rewrite Ep|]. intros Hg'. split_and!; try done. congruence.
  - assert (does io_clients (let! _ := reset b s in ret (io_at_place Waits t)) t (io_accepts t)) as Hd.
    { apply does_drop; [done|by rewrite Ep|done|]. intros Hg'. split_and!; try done. intros _. rewrite Ep. simpl. lia. }
    apply does_step. intros st Ho. assert (∀ (a : Z) st', same st st' → ∃ t1, moves (io_clients t) st (io_clients t1) st' ∧ does io_clients
      (if to_max_connections (io_options t) <=? Z.of_nat (size (io_connections t)) then let! _ := reset b s in ret (io_at_place Waits t)
       else let! port := call (Associate s) in if port =? 0 then let! _ := reset b s in ret (io_at_place Waits t)
         else ret (io_at_place (Publishes s) (with_connections ({[s]} ∪ io_connections t) t))) t1 (io_accepts t)) as Hrest.
    { intros a st' Hs. exists t. split; [by apply moves_same|]. destruct (_ <=? _); [done|].
      apply (does_quiet b); [done|]. intros port. destruct (port =? 0); [done|].
      set (t1 := io_at_place _ _). assert (io_clients t1 = io_clients t) as HC.
      { unfold io_clients, t1. cbn [io_at_place with_connections io_place io_connections place_handle]. rewrite Ep. cbn [place_handle]. set_solver. }
      apply does_ret; [done|]. destruct Hg as [Hv Hdj]. split_and!; try done.
      - split; [by rewrite HC|]. cbn [t1 io_at_place with_connections io_place io_connections place_handle]. set_solver.
      - intros _. rewrite Ep. simpl. lia. }
    destruct (to_tcp_no_delay _); [|by apply wp_ret, (Hrest 0)]. unfold wp, ServerSockets.call. cbn zeta. by apply (Hrest 0).
  - assert (does io_clients (let! t := iocp_disconnect s t in ret (io_at_place Waits t)) t (io_accepts t)) as Hd.
    { eapply does_bind; [apply does_io_disconnect with (R := λ t', t' = without s t ∧ io_good t'); [done|by split]|].
      intros t1 [-> Hg1]. apply does_moves_on; [done|cbn; by rewrite Ep|]. intros Hg2. split_and!; try done. intros _. rewrite Ep. simpl. lia. }
    destruct (_ || _); [done|]. apply (does_quiet b); [done|]. intros posted. destruct (posted =? 0); [|done].
    apply does_moves_on; [done|by rewrite Ep|]. intros Hg'. split_and!; try done. intros _. rewrite Ep. simpl. lia.
  - apply does_ret; [done|]. unfold io_accepts. by rewrite Ep.
Qed.
Lemma does_io_join n t : io_good t → io_running t = false → (place_rank (io_place t) ≤ n)%nat →
  does io_clients (join_accept (iocp_accept false) n t) t (λ t', io_good t' ∧ io_kept t t' ∧ io_place t' = Returned).
Proof.
  revert t. induction n as [|n IH]; intros t Hg Hr Hp.
  - apply does_ret; [done|]. split_and!; try done. by destruct (io_place t); simpl in Hp; try lia.
  - simpl. eapply does_bind; [by apply does_io_accept|]. intros t1 (Hg1 & (Hk1 & Hk2 & Hk3) & H1). specialize (H1 Hr).
    eapply does_mono; [apply IH; [done|congruence|lia]|]. intros t' (? & (? & ? & ?) & ?). unfold io_kept. split_and!; try done; congruence.
Qed.
Lemma does_close_all t : io_good t → does io_clients (close_all_connections t) t (λ t', io_good t' ∧ io_kept t t' ∧
  io_place t' = io_place t ∧ io_connections t' = ∅).
Proof.
  intros Hg. eapply does_mono; [apply (does_each _ (λ l t', io_good t' ∧ io_kept t t' ∧ io_place t' = io_place t ∧
    ∀ s, s ∈ io_connections t' → s ∈ l))|].
  - intros s l t1 (Hg1 & Hk & Hp & Hl). apply does_io_disconnect; [done|]. intros Hg2. split_and!; try done.
    unfold without. cbn [with_connections io_connections]. intros s' [Hs' Hne]%elem_of_difference.
    apply Hl, elem_of_cons in Hs' as [->|]; [set_solver|done].
  - split_and!; try done. intros s Hs. by apply elem_of_elements.
  - intros t' (? & ? & ? & Hl). split_and!; try done. apply set_eq. intros s. split; [|set_solver]. intros Hs. apply Hl in Hs. by apply elem_of_nil in Hs.
Qed.
Lemma wp_iocp_stop t (Q : Iocp → Sys → Prop) st : io_running t = true → is_valid_socket b (io_socket t) = true → io_port t = true →
  io_good t → io_socket t ∉ io_clients t → all_open ({[io_socket t]} ∪ io_clients t) st →
  (∀ t' st', iocp_ok t' → io_running t' = false →
    (∀ s, store st' !! s = if bool_decide (s ∈ {[io_socket t]} ∪ io_clients t) then None else store st !! s) →
    ports st' = ports st - 1 → Q t' st') → wp (iocp_stop t) Q st.
Proof.
  intros Hr Hv Hp Hg Hn Ho HQ. unfold iocp_stop. rewrite Hr. cbn [negb]. set (t0 := io_with false (io_socket t) (io_port t) t).
  assert (is_Some (store st !! io_socket t)) as HL by (apply Ho; set_solver).
  assert (all_open (io_clients t0) st) as Hoc by (intros s Hs; apply Ho; change (io_clients t0) with (io_clients t) in Hs; set_solver).
  apply wp_bind. eapply wp_mono; [|apply (does_io_join 3 t0); [done|done|by destruct (io_place t0); simpl; lia|done]].
  intros t1 st1 (Hm1 & Hg1 & (Hk1 & Hk2 & Hk3) & Hp1). pose proof (moves_closing (io_socket t) _ _ _ _ Hm1 Hn HL) as Hm1c.
  apply wp_bind. unfold reset. rewrite Hk2. change (io_socket t0) with (io_socket t). rewrite Hv. unfold wp at 1. cbn [bind ret]. cbn zeta.
  specialize (Hm1c (mkSys (calls st1 ++ [CloseSocket (io_socket t)]) (delete (io_socket t) (store st1)) (ports st1)) eq_refl eq_refl).
  set (t2 := io_with false (InvalidSocket b) (io_port t1) t1). apply wp_bind.
  eapply wp_mono; [|apply (does_close_all t2); [done|by eapply moves_open]].
  intros t3 st3 (Hm3 & Hg3 & (Hk4 & Hk5 & Hk6) & Hp3 & Hc3). pose proof (moves_trans _ _ _ _ _ _ Hm1c Hm3) as Hm.
  assert (io_clients t3 = ∅) as Hc by (unfold io_clients; rewrite Hc3, Hp3; change (io_place t2) with (io_place t1); by rewrite Hp1).
  rewrite Hc in Hm. rewrite Hk6. change (io_port t2) with (io_port t1). rewrite Hk3. change (io_port t0) with (io_port t). rewrite Hp.
  apply wp_bind. unfold wp at 1. cbn [close_port bind ret]. unfold ServerSockets.call. cbn zeta. cbn [effect]. apply wp_ret.
  pose proof (mv_ports _ _ _ _ Hm) as Hports. apply HQ; [|done| |simpl; lia].
  - destruct Hg3 as [Hv3 Hd3]. split; [done|intros _; exact Hc|exact Hv3|exact Hd3].
  - intros s. apply (mv_rest _ _ _ _ Hm). set_solver.
Qed.
Lemma does_io_step e t : io_good t → does io_clients (iocp_step e t) t (λ t', io_good t' ∧ io_kept t t').
Proof.
  intros Hg. destruct e as [admitted|s|s]; simpl; [|by apply does_io_disconnect|by apply does_ret].
  eapply does_mono; [by apply does_io_accept|]. by intros t' (? & ? & _).
Qed.
Lemma does_io_steps l t : io_good t → does io_clients (iocp_steps l t) t (λ t', io_good t' ∧ io_kept t t').
Proof.
  revert t. induction l as [|e l IH]; intros t Hg; [by apply does_ret|]. simpl.
  eapply does_bind; [by apply does_io_step|]. intros t1 (Hg1 & Hk1 & Hk2 & Hk3).
  eapply does_mono; [by apply IH|]. intros t2 (? & ? & ? & ?). unfold io_kept. split_and!; try done; congruence.
Qed.
(** Threads that get on for a while, and then a stop. *)
Lemma wp_steps_stop early t (R : Iocp → M (result bytes unit * Iocp)) Q st :
  io_running t = true → is_valid_socket b (io_socket t) = true → io_port t = true → io_good t → io_socket t ∉ io_clients t →
  all_open ({[io_socket t]} ∪ io_clients t) st →
  (∀ t' st', iocp_ok t' → io_running t' = false →
    (∀ s, store st' !! s = if bool_decide (s ∈ {[io_socket t]} ∪ io_clients t) then None else store st !! s) →
    ports st' = ports st - 1 → wp (R t') Q st') → wp (let! t := iocp_steps early t in let! t := iocp_stop t in R t) Q st.
Proof.
  intros Hr Hv Hp Hg Hn Ho HQ. assert (is_Some (store st !! io_socket t)) as HL by (apply Ho; set_solver).
  apply wp_bind. eapply wp_mono; [|apply does_io_steps; [done|intros s Hs; apply Ho; set_solver]].
  intros t1 st1 (Hm & Hg1 & Hk1 & Hk2 & Hk3). destruct (moves_other _ _ _ _ _ Hm Hn HL) as [Hn1 _].
  pose proof (moves_frame _ _ _ _ _ Hm Hn HL) as Hmf. rewrite <- Hk2 in Hmf at 2.
  apply wp_bind, wp_iocp_stop; [congruence|congruence|congruence|done|congruence|by eapply moves_open|].
  intros t' st' Hok Hr' Hs' Hp'. apply HQ; [done|done| |rewrite Hp'; by rewrite (mv_ports _ _ _ _ Hm)].
  intros s. rewrite Hs'. case_bool_decide as Hin; [|by apply (mv_rest _ _ _ _ Hmf)].
  destruct (mv_open _ _ _ _ Hmf s Hin) as [_ [Hc|Hnone]]; case_bool_decide; done.
Qed.
Lemma iocp_laws sys : ITcpServerLaws b Iocp (H0 := iocp_server sys).
Proof.
  split.
  - simpl. unfold facade_running. destruct (os_windows b); (split; [done|]); (split; [done|done| |]); unfold io_clients; simpl; set_solver.
  - intros early o t st Hr Hok. simpl in *. unfold facade_start, facade_running in *. destruct (os_windows b) eqn:Hw; [|by apply wp_ret].
    pose proof (io_stopped _ Hok Hr) as Hc. assert (place_handle (io_place t) = ∅ ∧ io_connections t = ∅) as [Hc1 Hc2].
    { unfold io_clients in Hc. split; set_solver. }
    unfold iocp_start. rewrite Hr. destruct (negb _); [by apply wp_ret|].
    apply wp_bind. eapply wp_mono; [|apply (open_overlapped_opens b)]. intros [s|e] st1; [|intros Hs; by apply wp_ret].
    intros (k & (Hs & Hf & Hv & Hp) & Hl). apply wp_bind, wp_open_port.
    { intros e st2 [Hs2 Hp2]. apply wp_bind. unfold reset. rewrite Hv. apply wp_ret. split; [|split; [done|split; simpl; [|congruence]]].
      - split; [simpl; congruence|done|apply Hok|apply Hok].
      - by rewrite Hs2, Hs, delete_insert_id. }
    intros st2 Hs2 Hp2. apply wp_bind, wp_start_threads. intros ok st3 Hs3 Hp3. set (t1 := mkIocpServer _ _ _ _ _ _ _).
    assert (io_clients t1 = ∅) as Hc3 by (unfold io_clients; simpl; rewrite Hc2; set_solver).
    assert (iocp_ok t1) as Hok1 by (split; [done|done|rewrite Hc3; set_solver|simpl; set_solver]). destruct ok; cbn [negb].
    + apply wp_ret. cbn [fst snd]. split; [done|]. split_and!; try done; [simpl; lia|]. exists k. split; [simpl; congruence|done].
    + apply wp_bind, wp_steps_stop; [done..|by split; apply Hok1|rewrite Hc3; set_solver|rewrite Hc3; simpl|].
      { intros s' Hs'. assert (s' = s) as -> by set_solver. rewrite Hs3, Hs2, Hs, lookup_insert_eq. eauto. }
      intros t' st4 Hok4 Ht Hs4 Hp4. apply wp_ret. split; [done|]. split; [done|]. simpl in Hs4. split; [|lia]. apply map_eq. intros s'.
      rewrite Hs4, Hc3, Hs3, Hs2, Hs. case_bool_decide as Hin; [assert (s' = s) as -> by set_solver; done|].
      by rewrite lookup_insert_ne by set_solver.
  - intros e t st Hok Hr Ho. simpl in *. unfold facade_running in *. destruct (os_windows b) eqn:Hw; [|done].
    assert (io_good t) as Hg by (by split; apply Hok).
    eapply wp_mono; [|by apply does_io_step]. intros t' st' (Hm & [Hv Hdj] & Hk1 & Hk2 & Hk3). destruct (io_listener _ Hok Hr) as (? & ? & _).
    split_and!; [done| |congruence|done]. split; [|congruence|exact Hv|exact Hdj]. intros _. split_and!; congruence.
  - intros t st Hok Hown. simpl in *. unfold facade_stop, facade_running in *. destruct (os_windows b) eqn:Hw.
    2: { apply wp_ret. split_and!; done. }
    destruct (io_running t) eqn:Hr.
    + destruct (io_listener _ Hok Hr) as (Hv & Hp & _). destruct (Hown eq_refl) as [Hn Ho]. apply wp_iocp_stop; [done|done|done|split; apply Hok|done|done|].
      intros t' st' Hok' Hr' Hs Hp'. by rewrite Hr'.
    + unfold iocp_stop. rewrite Hr. apply wp_ret. by split_and!.
Qed.
End Backends.

(** * The runtime, over either *)
Section Runtime.
Context (b : Build) `{Kernel} `{!KernelLaws b} {T : Type} `{ITcpServer T} `{!ITcpServerLaws b T}.

(** What the threads of running transports do, each event in the transport of its number. *)
Fixpoint meanwhile (l : list (nat * Event)) (ts : list T) : M (list T) :=
  match l with
  | [] => ret ts
  | (i, e) :: l =>
      match ts !! i with
      | Some t => let! t := server_step e t in meanwhile l (<[i := t]> ts)
      | None => meanwhile l ts
      end
  end.
(** [src/src/Runtime/Server.cpp:103-106] {stop} [during]: what the others' threads do, so
    many of them being left. *)
Fixpoint stop_all (during : nat → list (nat * Event)) (ts : list T) (fuel : nat) : M unit :=
  match fuel, ts with
  | S fuel, t :: ts => let! _ := server_stop t in let! ts := meanwhile (during (length ts)) ts in stop_all during ts fuel
  | _, _ => ret tt
  end.
(** [src/src/Runtime/Server.cpp:66-95] {start} The listener that fails is destroyed last.
    [during]: what the threads of those started do before the next is started; [early]: what
    its own do if it fails to start the last of them. *)
Fixpoint start_listeners (early : nat → list Event) (during : nat → list (nat * Event)) (o : ServerOptions) (ls : list ListenerOptions) (started : list T)
    : M (result bytes (list T)) :=
  match ls with
  | [] => ret (Ok started)
  | l :: ls =>
      if negb (lo_enabled l) then start_listeners early during o ls started
      else
        let! started := meanwhile (during (length ls)) started in
        let! r := server_start (early (length ls)) (transport_options o l) fresh in
        match r.1 with
        | Err e =>
            let! _ := stop_all during started (length started) in let! _ := server_stop r.2 in
            ret (Err (txt "failed to start listener '" ++ lo_name l ++ txt "': " ++ e))
        | Ok _ => start_listeners early during o ls (started ++ [r.2])
        end
  end.
(** [src/src/Runtime/Server.cpp:28-95] {start} Of a server that does not run. *)
Definition runtime_start (early : nat → list Event) (during : nat → list (nat * Event)) (o : ServerOptions) : M (result bytes (list T)) :=
  match check_listeners (listener_options o) with
  | Err e => ret (Err e)
  | Ok _ => start_listeners early during o (listener_options o) []
  end.

(** ** What the runtime holds *)
Definition endpoints (ls : list ListenerOptions) : list Endpoint := lo_endpoint <$> filter (λ l, lo_enabled l = true) ls.
Definition sockets (ts : list T) : gset Z := ⋃ (held <$> ts).
Definition listening_at (es : list Endpoint) (ts : list T) (st : Sys) : Prop :=
  Forall2 (λ e t, ∃ k, store st !! server_socket t = Some k ∧ listens e k) es ts.
(** The transports run, each with sockets of its own, all open, and the other sockets are
    those of [B]. *)
Record keeps (B : gmap Z Sock) (ts : list T) (st : Sys) : Prop := {
  kp_running i t : ts !! i = Some t → server_running t = true ∧ server_ok t ∧ server_socket t ∉ server_clients t;
  kp_apart i j t t' : ts !! i = Some t → ts !! j = Some t' → i ≠ j → held t ## held t';
  kp_open s : s ∈ sockets ts → is_Some (store st !! s) ∧ B !! s = None;
  kp_rest s : s ∉ sockets ts → store st !! s = B !! s;
}.
(** Since [st0] these transports were started, one for each endpoint. *)
Definition holds (st0 : Sys) (es : list Endpoint) (ts : list T) (st : Sys) : Prop :=
  keeps (store st0) ts st ∧ listening_at es ts st ∧ ports st = ports st0 + server_ports * zlen ts.

Lemma elem_of_sockets s ts : s ∈ sockets ts ↔ ∃ i t, ts !! i = Some t ∧ s ∈ held t.
Proof.
  unfold sockets. rewrite elem_of_union_list. split.
  - intros (X & HX & Hs). apply list_elem_of_fmap in HX as (t & -> & Ht). apply list_elem_of_lookup in Ht as [i Hi]. eauto.
  - intros (i & t & Hi & Hs). exists (held t). split; [|done]. apply list_elem_of_fmap. exists t. split; [done|]. by eapply list_elem_of_lookup_2.
Qed.
Lemma held_sockets i t ts s : ts !! i = Some t → s ∈ held t → s ∈ sockets ts.
Proof. intros Hi Hs. apply elem_of_sockets. eauto. Qed.
Lemma keeps_step B ts st i t t' st' : keeps B ts st → ts !! i = Some t → moves (server_clients t) st (server_clients t') st' →
  server_ok t' → server_running t' = true → server_socket t' = server_socket t →
  keeps B (<[i := t']> ts) st' ∧ ∀ s, s ∈ sockets ts → s ∉ server_clients t → store st' !! s = store st !! s.
Proof.
  intros [Hrun Hap Hop Hre] Hi Hm Hok Hr Hsock.
  assert (∀ s, s ∈ sockets ts → s ∉ server_clients t → s ∉ server_clients t' ∧ store st' !! s = store st !! s) as Hkeep.
  { intros s Hs Hn. eapply moves_other; [exact Hm|exact Hn|apply (Hop s Hs)]. }
  assert (server_socket t ∉ server_clients t' ∧ store st' !! server_socket t = store st !! server_socket t) as [Hn' HL].
  { apply Hkeep; [eapply held_sockets; [exact Hi|unfold held; set_solver]|by destruct (Hrun _ _ Hi) as (_ & _ & ?)]. }
  assert (i < length ts)%nat as Hlen by by eapply lookup_lt_Some.
  assert (∀ j x s, j ≠ i → ts !! j = Some x → s ∈ held x → s ∈ sockets ts ∧ s ∉ held t ∧ s ∉ held t') as Hother.
  { intros j x s Hj Hx Hs. pose proof (held_sockets _ _ _ _ Hx Hs) as Hin. pose proof (Hap _ _ _ _ Hx Hi Hj) as Hdis.
    assert (s ∉ held t) as Hn by set_solver. split_and!; try done. unfold held in *. rewrite Hsock.
    destruct (Hkeep s Hin) as [? _]; set_solver. }
  split; [split|].
  - intros j x [(-> & -> & _)|[Hne Hx]]%list_lookup_insert_Some; [by rewrite Hsock|by eapply Hrun].
  - intros j1 j2 x1 x2 [(<- & <- & _)|[Hn1 Hx1]]%list_lookup_insert_Some [(<- & <- & _)|[Hn2 Hx2]]%list_lookup_insert_Some Hne; [done|..|by eapply Hap].
    + apply elem_of_disjoint. intros s Hs1 Hs2. by destruct (Hother j2 x2 s) as (_ & _ & ?).
    + apply elem_of_disjoint. intros s Hs1 Hs2. by destruct (Hother j1 x1 s) as (_ & _ & ?).
  - intros s (j & x & [(<- & <- & _)|[Hn1 Hx1]]%list_lookup_insert_Some & Hs)%elem_of_sockets.
    + unfold held in Hs. rewrite Hsock in Hs. apply elem_of_union in Hs as [->%elem_of_singleton|Hs].
      { rewrite HL. apply Hop. eapply held_sockets; [exact Hi|unfold held; set_solver]. }
      destruct (mv_open _ _ _ _ Hm s Hs) as [? [Hc|Hnone]]; (split; [done|]).
      * apply Hop. eapply held_sockets; [exact Hi|unfold held; set_solver].
      * rewrite <- Hre; [done|]. intros Hin. destruct (Hop s Hin) as [[? ?] _]. congruence.
    + destruct (Hother j x s) as (Hin & Hn & _); [done..|]. rewrite (proj2 (Hkeep s Hin ltac:(unfold held in Hn; set_solver))). by apply Hop.
  - intros s Hs. assert (s ∉ held t') as Hnh.
    { intros Hin. apply Hs. eapply held_sockets; [by apply list_lookup_insert_eq|done]. }
    unfold held in Hnh. rewrite Hsock in Hnh. rewrite (mv_rest _ _ _ _ Hm s) by set_solver. case_bool_decide as Hc.
    + symmetry. apply Hop. eapply held_sockets; [exact Hi|unfold held; set_solver].
    + apply Hre. intros (j & x & Hx & Hin)%elem_of_sockets. destruct (decide (j = i)) as [->|Hne].
      * assert (x = t) as -> by congruence. unfold held in Hin. set_solver.
      * apply Hs. eapply (held_sockets j x); [by rewrite list_lookup_insert_ne|done].
  - intros s Hs Hn. by apply Hkeep.
Qed.
(** Whatever the threads do, each transport keeps its listener and has clients of its own. *)
Lemma meanwhile_keeps B l ts st : keeps B ts st → wp (meanwhile l ts) (λ ts' st', keeps B ts' st' ∧ ports st' = ports st ∧
  length ts' = length ts ∧ ∀ es, listening_at es ts st → listening_at es ts' st') st.
Proof.
  revert ts st. induction l as [|[i e] l IH]; intros ts st Hk; [by apply wp_ret|]. simpl.
  destruct (ts !! i) as [t|] eqn:Hi; [|by apply IH]. destruct (kp_running _ _ _ Hk _ _ Hi) as (Hr & Hok & Hn).
  assert (all_open (server_clients t) st) as Ho.
  { intros s Hs. apply (kp_open _ _ _ Hk). eapply held_sockets; [exact Hi|unfold held; set_solver]. }
  apply wp_bind. eapply wp_mono; [|by apply step_law]. intros t' st1 (Hm & Hok' & Hr' & Hs').
  destruct (keeps_step _ _ _ _ _ _ _ Hk Hi Hm Hok' Hr' Hs') as [Hk1 Hsame].
  eapply wp_mono; [|by apply IH]. intros ts' st2 (Hk2 & Hp2 & Hlen & Hl). split_and!; [done|rewrite Hp2; apply Hm|by rewrite Hlen, length_insert|].
  intros es Hes. apply Hl. apply Forall2_same_length_lookup in Hes as [Hel Hes]. apply Forall2_same_length_lookup.
  split; [by rewrite length_insert|]. intros j ep x Hep Hx. assert (∃ y, ts !! j = Some y ∧ server_socket x = server_socket y) as (y & Hy & Exy).
  { apply list_lookup_insert_Some in Hx as [(-> & -> & _)|[_ Hx]]; eauto. }
  rewrite Exy. destruct (Hes _ _ _ Hep Hy) as (k & Hlook & Hls). exists k. split; [|done]. rewrite Hsame; [done|..].
  - eapply held_sockets; [exact Hy|unfold held; set_solver].
  - destruct (decide (j = i)) as [->|Hne]; [by assert (y = t) as -> by congruence|].
    pose proof (kp_apart _ _ _ Hk _ _ _ _ Hy Hi Hne) as Hdis. unfold held in Hdis. set_solver.
Qed.
Lemma keeps_one B ts st t st' k : keeps B ts st → server_running t = true → server_ok t → server_clients t = ∅ →
  store st !! server_socket t = None → store st' = <[server_socket t := k]> (store st) → keeps B (ts ++ [t]) st'.
Proof.
  intros [Hrun Hap Hop Hre] Hr Hok Hc Hf Hs. assert (held t = {[server_socket t]}) as Hh by (unfold held; rewrite Hc; set_solver).
  assert (server_socket t ∉ sockets ts) as Hnew by (intros Hin; destruct (Hop _ Hin) as [[? ?] _]; congruence).
  assert (∀ j x, ts !! j = Some x → held x ## held t) as Hdis.
  { intros j x Hx. rewrite Hh. apply elem_of_disjoint. intros s Hin ->%elem_of_singleton. apply Hnew. by eapply held_sockets. }
  assert (∀ s, s ∈ sockets (ts ++ [t]) ↔ s ∈ sockets ts ∨ s = server_socket t) as Hsock.
  { intros s. unfold sockets. rewrite fmap_app, union_list_app. simpl. rewrite Hh. set_solver. }
  split.
  - intros i x [Hx|[_ Hx]]%lookup_app_Some; [by eapply Hrun|]. apply list_lookup_singleton_Some in Hx as [_ <-]. rewrite Hc. split_and!; [done..|set_solver].
  - intros i j x y [Hx|[Hi Hx]]%lookup_app_Some [Hy|[Hj Hy]]%lookup_app_Some Hne; [by eapply Hap| | |].
    + apply list_lookup_singleton_Some in Hy as [_ <-]. by eapply Hdis.
    + apply list_lookup_singleton_Some in Hx as [_ <-]. symmetry. by eapply Hdis.
    + apply list_lookup_singleton_Some in Hx as [? _]. apply list_lookup_singleton_Some in Hy as [? _]. lia.
  - intros s [Hin| ->]%Hsock.
    + rewrite Hs, lookup_insert_ne by congruence. by apply Hop.
    + rewrite Hs, lookup_insert_eq. split; [eauto|]. by rewrite <- Hre.
  - intros s Hn. rewrite Hsock in Hn. rewrite Hs, lookup_insert_ne by naive_solver. apply Hre. tauto.
Qed.
Lemma keeps_less B t ts st st' : keeps B (t :: ts) st →
  (∀ s, store st' !! s = if bool_decide (s ∈ held t) then None else store st !! s) → keeps B ts st'.
Proof.
  intros [Hrun Hap Hop Hre] Hs.
  assert (∀ s, s ∈ sockets ts → s ∉ held t) as Hdis.
  { intros s (i & x & Hx & Hin)%elem_of_sockets Hin'. pose proof (Hap (S i) O x t Hx eq_refl ltac:(lia)). set_solver. }
  assert (∀ s, s ∈ sockets (t :: ts) ↔ s ∈ held t ∨ s ∈ sockets ts) as Hsock.
  { intros s. unfold sockets. simpl. set_solver. }
  split.
  - intros i x Hx. by apply (Hrun (S i)).
  - intros i j x y Hx Hy Hne. apply (Hap (S i) (S j)); [done..|lia].
  - intros s Hin. rewrite Hs, bool_decide_eq_false_2 by auto. apply Hop. rewrite Hsock. auto.
  - intros s Hn. rewrite Hs. case_bool_decide as Hin; [symmetry; apply Hop; rewrite Hsock; auto|]. apply Hre. rewrite Hsock. tauto.
Qed.
(** A stop of them all leaves the other sockets, whatever clients there are meanwhile. *)
Lemma stop_all_exact B during fuel : ∀ ts st, length ts = fuel → keeps B ts st →
  wp (stop_all during ts fuel) (λ _ st', store st' = B ∧ ports st' = ports st - server_ports * zlen ts) st.
Proof.
  induction fuel as [|fuel IH]; intros ts st Hlen Hk; destruct ts as [|t ts]; try discriminate Hlen.
  { apply wp_ret. split; [|rewrite zlen_nil; lia]. apply map_eq. intros s. apply (kp_rest _ _ _ Hk). unfold sockets. simpl. set_solver. }
  destruct (kp_running _ _ _ Hk O t eq_refl) as (Hr & Hok & Hn). simpl. apply wp_bind. eapply wp_mono; [|apply stop_law; [done|]].
  - cbn beta. rewrite Hr. intros t' st1 (_ & _ & Hs & Hp). pose proof (keeps_less _ _ _ _ _ Hk Hs) as Hk1.
    apply wp_bind. eapply wp_mono; [|by apply meanwhile_keeps]. intros ts1 st2 (Hk2 & Hp2 & Hlen2 & _).
    eapply wp_mono; [|apply IH; [|exact Hk2]]; [|simpl in Hlen; lia]. intros _ st3 [Hs3 Hp3]. split; [done|].
    rewrite zlen_cons. unfold zlen in *. rewrite Hlen2 in Hp3. lia.
  - intros _. split; [done|]. intros s Hs. apply (kp_open _ _ _ Hk). by eapply (held_sockets O).
Qed.
Lemma start_listeners_holds early during o ls st0 : ∀ es ts st, holds st0 es ts st → wp (start_listeners early during o ls ts) (λ r st',
  match r with Ok ts' => holds st0 (es ++ endpoints ls) ts' st' | Err _ => same st0 st' end) st.
Proof.
  induction ls as [|l ls IH]; intros es ts st Hh; simpl; [unfold endpoints; by rewrite app_nil_r|].
  unfold endpoints. rewrite filter_cons. destruct (lo_enabled l); simpl; [|by apply IH].
  destruct Hh as (Hk & Hl & Hp). apply wp_bind. eapply wp_mono; [|by apply meanwhile_keeps].
  intros ts1 st1 (Hk1 & Hp1 & Hlen1 & Hl1). specialize (Hl1 _ Hl).
  destruct fresh_idle as [Hi Hok]. apply wp_bind. eapply wp_mono; [|by apply start_law]. intros [[[]|e] t] st2 [Hok2 Hr]; simpl in Hok2, Hr |- *.
  - destruct Hr as (Hr & Hf & Hp2 & Hc & k & Hs & Hls). rewrite (cons_middle _ es), (assoc_L app). apply IH.
    pose proof (keeps_one _ _ _ _ _ _ Hk1 Hr Hok2 Hc Hf Hs) as Hk2. split_and!; [done| |].
    + apply Forall2_app; [|repeat constructor; exists k; by rewrite Hs, lookup_insert_eq].
      eapply Forall2_impl; [exact Hl1|]. intros ep x (k' & Hk' & ?). exists k'. split; [|done]. rewrite Hs, lookup_insert_ne; congruence.
    + unfold zlen in *. rewrite length_app, Hlen1. simpl. lia.
  - destruct Hr as [Hr [Hs Hp2]]. assert (keeps (store st0) ts1 st2) as Hk2 by (destruct Hk1; split; by rewrite ?Hs).
    apply wp_bind. eapply wp_mono; [|apply (stop_all_exact _ _ _ _ _ eq_refl Hk2)].
    cbn beta. intros _ st3 [Hs3 Hp3]. apply wp_bind. eapply wp_mono; [|apply stop_law; [done|congruence]]. cbn beta. rewrite Hr.
    intros t' st4 (_ & _ & Hs4 & Hp4). apply wp_ret. unfold zlen in *. rewrite Hlen1 in Hp3. split; [congruence|lia].
Qed.
(** C32: The runtime opens its listeners all or none, and closes what it holds, whatever
    transport implements [ITcpServer]. For any system that gives no handle twice and tells a
    socket's flags truly, whatever it answers to each call, and whatever the transports'
    threads do between two operations of the interface, clients coming and going: a start that fails, at any
    listener and at any call, leaves open exactly the sockets and ports that were open
    before; one that succeeds holds, for each enabled listener in order, a new socket of its
    own, bound to its endpoint, listening, in non-blocking mode, and nothing else but
    clients' sockets. This stays so at any later moment; and a stop then, whatever other
    sockets the process has open by that time, closes exactly the listeners' sockets and
    those of all clients, and leaves every other one as it is. *)
Theorem runtime_listeners_all_or_none early during o later after st :
  let '(r, st') := runtime_start early during o st in
  match r with
  | Err _ => same st st'
  | Ok ts => holds st (endpoints (listener_options o)) ts st' ∧
      let '(ts1, st1) := meanwhile later ts st' in
      holds st (endpoints (listener_options o)) ts1 st1 ∧
      ∀ st2, (∀ s, s ∈ sockets ts1 → store st2 !! s = store st1 !! s) →
        let '(_, st3) := stop_all after ts1 (length ts1) st2 in
        (∀ s, store st3 !! s = if bool_decide (s ∈ sockets ts1) then None else store st2 !! s) ∧
        ports st3 = ports st2 - server_ports * zlen ts1
  end.
Proof.
  unfold runtime_start. destruct (check_listeners _) as [[]|e]; [|by split].
  assert (holds st [] [] st) as Hnone.
  { split_and!; [split|constructor|rewrite zlen_nil; lia]; try done. }
  pose proof (start_listeners_holds early during o (listener_options o) st [] [] st Hnone) as Hs. unfold wp in Hs.
  destruct (start_listeners early during o _ [] st) as [[ts|e] st'] eqn:E; [|done]. split; [exact Hs|]. destruct Hs as (Hk & Hl & Hp).
  pose proof (meanwhile_keeps _ later ts st' Hk) as Hm. unfold wp in Hm. destruct (meanwhile later ts st') as [ts1 st1].
  destruct Hm as (Hk1 & Hp1 & Hlen & Hl1). split; [split_and!; [done|by apply Hl1|unfold zlen in *; rewrite Hlen; lia]|].
  intros st2 Hsame. set (B := filter (λ x, x.1 ∉ sockets ts1) (store st2)).
  assert (∀ s, B !! s = if bool_decide (s ∈ sockets ts1) then None else store st2 !! s) as HB.
  { intros s. unfold B. rewrite map_lookup_filter. destruct (store st2 !! s) as [k|]; simpl; [|by case_bool_decide].
    case_bool_decide; case_guard; done || tauto. }
  assert (keeps B ts1 st2) as Hk2.
  { destruct Hk1 as [Ha Hb Hc Hd]. split; try done; intros s Hs; rewrite HB.
    - rewrite bool_decide_eq_true_2 by done. split; [|done]. rewrite Hsame by done. by apply Hc.
    - by rewrite bool_decide_eq_false_2. }
  pose proof (stop_all_exact B after (length ts1) ts1 st2 eq_refl Hk2) as Hst. unfold wp in Hst.
  destruct (stop_all after ts1 (length ts1) st2) as [[] st3]. destruct Hst as [-> Hp3]. by split.
Qed.
End Runtime.
(** [src/src/Runtime/TcpListener.cpp:13-24] {TcpListener} The backend of the options; the
    sockets that listen. *)
Definition start_backend (b : Build) `{Kernel} (sys : SocketSystem) (during : nat → list (nat * Event)) (o : ServerOptions) : M (result bytes (list Z)) :=
  let sockets {T} (socket : T → Z) (r : result bytes (list T)) := match r with Ok ts => Ok (socket <$> ts) | Err e => Err e end in
  match tcp_backend o with
  | TcpBackend.Iocp => let! r := runtime_start (H0 := iocp_server b sys) (λ _, []) during o in ret (sockets io_socket r)
  | TcpBackend.Threaded => let! r := runtime_start (H0 := threaded_server b sys) (λ _, []) during o in ret (sockets th_socket r)
  end.

(** ** At work *)
Module Machine.
(** A machine that counts its handles upwards from 3; port 1 cannot be bound. *)
Definition new_handle (b : Build) (st : Sys) : Z :=
  let h := 3 + zlen (calls st) in if bool_decide (store st !! h = None) then h else InvalidSocket b.
Definition kernel (b : Build) : Kernel := {|
  answer st c := match c with
    | NewSocket | AcceptFrom _ => new_handle b st
    | GetFlags s => match store st !! s with Some k => flags k | None => -1 end
    | BindTo _ e => if ep_port e =? 1 then -1 else 0
    | WaitReadable _ | Associate _ | CreatePort => 1 | _ => 0 end;
  accepted_flags _ := 0; peer _ := (None, 0); last_error _ := txt "denied"; error_code _ := 11; EAGAIN := 11; EWOULDBLOCK := 11; what _ := [];
  inet_pton _ := true; nonblock := 11;
|}.
Lemma kernel_laws b : KernelLaws b (H := kernel b).
Proof.
  assert (∀ st, is_valid_socket b (new_handle b st) = true → store st !! new_handle b st = None) as Hn.
  { intros st. unfold new_handle. case_bool_decide; [done|]. unfold is_valid_socket. by rewrite Z.eqb_refl. }
  split; [apply Hn|by intros st s; apply Hn| |done]. intros st s k Hk. right. simpl. by rewrite Hk.
Qed.
#[export] Instance linux_kernel : Kernel := kernel linux_build.
#[export] Instance linux_laws : KernelLaws linux_build := kernel_laws linux_build.
#[export] Instance linux_threads : ITcpServer Threaded := threaded_server linux_build socket_system_posix.
#[export] Instance linux_threads_laws : ITcpServerLaws linux_build Threaded := threaded_laws linux_build socket_system_posix.
Definition options (backend : TcpBackend.TcpBackend) (port : Z) : ServerOptions :=
  mkServerOptions 2 16 1024 0 500 true backend SecurityMode.None_
    [mkListenerOptions (txt "a") TransportKind.Tcp (mkEndpoint (txt "0.0.0.0") 7000) true;
     mkListenerOptions (txt "off") TransportKind.Tcp (mkEndpoint (txt "0.0.0.0") 7001) false;
     mkListenerOptions (txt "b") TransportKind.Tcp (mkEndpoint (txt "0.0.0.0") port) true].
Definition idle : Sys := mkSys [] ∅ 0.
Definition quiet : nat → list (nat * Event) := λ _, [].
(** The first listener takes a client and starts its thread; then a second, which it holds
    still when it is stopped. *)
Definition visits : list (nat * Event) := replicate 6 (0%nat, Accepting true).
Definition busy : nat → list (nat * Event) := λ n, if Nat.eqb n 0 then visits else [].
End Machine.
Import Machine.
Example backends_start :
  (start_backend linux_build socket_system_posix quiet (options TcpBackend.Threaded 7002) idle).1 = Ok [3; 10] ∧
  (start_backend windows_build (H := kernel windows_build) (socket_system_windows 0) quiet (options TcpBackend.Iocp 7002) idle).1 = Ok [3; 13] ∧
  (start_backend linux_build socket_system_posix quiet (options TcpBackend.Iocp 7002) idle).1 =
    Err (txt "failed to start listener 'a': IOCP TCP backend is only available on Windows") ∧
  (start_backend windows_build (H := kernel windows_build) (socket_system_windows 0) quiet (options TcpBackend.Iocp 1) idle).1 =
    Err (txt "failed to start listener 'b': bind() failed: denied").
Proof. split_and!; vm_compute; reflexivity. Qed.
(** Clients are accepted while the second listener starts and after it: the second start
    fails and nothing is left; or both start, and the stop closes all five sockets. *)
Lemma runtime_listeners_all_or_none_witness :
  let start port := runtime_start (T := Threaded) (λ _, []) busy (options TcpBackend.Threaded port) idle in
  same idle (start 1).2 ∧
  ∃ ts, (start 7002).1 = Ok ts ∧ size (sockets ts) = 4%nat ∧
    holds idle [mkEndpoint (txt "0.0.0.0") 7000; mkEndpoint (txt "0.0.0.0") 7002] ts (start 7002).2 ∧
    let '(ts1, st1) := meanwhile [(1%nat, Accepting true); (0%nat, Disconnecting 11)] ts (start 7002).2 in
    size (sockets ts1) = 5%nat ∧ ∀ s, store (stop_all quiet ts1 (length ts1) st1).2 !! s =
      if bool_decide (s ∈ sockets ts1) then None else store st1 !! s.
Proof.
  cbv zeta. split.
  - pose proof (runtime_listeners_all_or_none (T := Threaded) linux_build (λ _, []) busy (options TcpBackend.Threaded 1) [] quiet idle) as T.
    destruct (runtime_start (T := Threaded) (λ _, []) busy (options TcpBackend.Threaded 1) idle) as [r st] eqn:E. destruct r as [ts|e]; [|exact T].
    apply (f_equal fst) in E. vm_compute in E. discriminate E.
  - pose proof (runtime_listeners_all_or_none (T := Threaded) linux_build (λ _, []) busy (options TcpBackend.Threaded 7002)
      [(1%nat, Accepting true); (0%nat, Disconnecting 11)] quiet idle) as T.
    destruct (runtime_start (T := Threaded) (λ _, []) busy (options TcpBackend.Threaded 7002) idle) as [r st] eqn:E. destruct r as [ts|e].
    2: { apply (f_equal fst) in E. vm_compute in E. discriminate E. }
    exists ts. destruct T as [Hh T].
    assert ((λ r, (λ ts, size (sockets ts)) <$> match r.1 with Ok ts => Some ts | Err _ => None end)
      (runtime_start (T := Threaded) (λ _, []) busy (options TcpBackend.Threaded 7002) idle) = Some 4%nat) as Hsize by (vm_compute; reflexivity).
    assert ((λ r, (λ ts, size (sockets (meanwhile [(1%nat, Accepting true); (0%nat, Disconnecting 11)] ts r.2).1)) <$>
      match r.1 with Ok ts => Some ts | Err _ => None end)
      (runtime_start (T := Threaded) (λ _, []) busy (options TcpBackend.Threaded 7002) idle) = Some 5%nat) as Hlater by (vm_compute; reflexivity).
    rewrite E in Hsize, Hlater. cbn [fst snd fmap option_fmap option_map] in Hsize, Hlater |- *.
    apply (inj Some) in Hsize, Hlater. split_and!; [done..|].
    destruct (meanwhile _ ts st) as [ts1 st1]. destruct T as [_ T]. split; [exact Hlater|]. intros s.
    specialize (T st1 (λ s _, eq_refl)). destruct (stop_all quiet ts1 (length ts1) st1) as [u st3]. apply T.
Defined.
