(* ===== verification/GnsOptions.v ===== *)
(** GnsOptions: the options of the datagram transport and what they become at the vendor
    library ([src/src/Net/Transports/Gns/Options.cpp], [NativeConfig.cpp]). The library's
    own address parser is a parameter. *)
From S2P Require Import Prelude.
From S2P Require Import Text.

Definition SE_DATAGRAM_ABI_VERSION : Z := 0x00010000.
Definition SE_DATAGRAM_UNRELIABLE : Z := 0.
Definition SE_DATAGRAM_RELIABLE_ORDERED : Z := 1.
Definition SE_DATAGRAM_CONNECTED : Z := 1.
Definition SE_DATAGRAM_MESSAGE : Z := 2.
Definition SE_DATAGRAM_DISCONNECTED : Z := 3.
Definition SE_DATAGRAM_OVERFLOW : Z := 4.
Definition SE_DATAGRAM_ALLOW_REMOTE_UNAUTHENTICATED : Z := 1.

(** [src/include/ServerEngine/C/DatagramTransport.h:31-42] *)
Record se_datagram_options := mkDatagramOptions {
  do_struct_size : Z; do_abi_version : Z; do_flags : Z; do_max_peers : Z; do_max_message_bytes : Z;
  do_max_send_queue_bytes : Z; do_max_event_queue_count : Z; do_connect_timeout_ms : Z;
  do_max_event_queue_bytes : Z; do_reserved : list Z;
}.
Definition sizeof_datagram_options : Z := 72.
(** [src/include/ServerEngine/C/DatagramTransport.h:44-54] *)
Record se_datagram_event := mkDatagramEvent {
  de_struct_size : Z; de_abi_version : Z; de_kind : Z; de_delivery : Z; de_peer_id : Z;
  de_payload_size : Z; de_reason : Z; de_message : bytes; de_reserved : list Z;
}.
Definition sizeof_datagram_event : Z := 192.

(** [src/src/Abi/DatagramTransport.cpp:31-43] *)
Definition se_datagram_options_init : se_datagram_options :=
  mkDatagramOptions sizeof_datagram_options SE_DATAGRAM_ABI_VERSION 0 64 (64 * 1024) (256 * 1024) 4096
    10000 (8 * 1024 * 1024) [0; 0; 0; 0].

(** [src/src/Net/Transports/Gns/Options.cpp:8-13] *)
Definition native_receive_bytes (o : se_datagram_options) : Z := Z.max 4096 (u32 (do_max_message_bytes o * 2)).
(** [src/src/Net/Transports/Gns/Options.cpp:15-20] *)
Definition native_receive_count (o : se_datagram_options) : Z :=
  Z.max 2 (Z.min 1024 (do_max_event_queue_count o)).
(** [src/src/Net/Transports/Gns/Options.cpp:30-38] {valid_options} The limits one by one. *)
Definition limits_ok (o : se_datagram_options) : bool :=
  negb ((do_max_peers o =? 0) || (1024 <? do_max_peers o)
    || (do_max_message_bytes o <? 64) || (512 * 1024 <? do_max_message_bytes o)
    || (do_max_send_queue_bytes o <? 4096) || (do_max_send_queue_bytes o <? do_max_message_bytes o)
    || (16 * 1024 * 1024 <? do_max_send_queue_bytes o)
    || (do_max_event_queue_count o =? 0) || (65536 <? do_max_event_queue_count o)
    || (do_max_event_queue_bytes o <? sizeof_datagram_event + do_max_message_bytes o)
    || (256 * 1024 * 1024 <? do_max_event_queue_bytes o)
    || (do_connect_timeout_ms o <? 100) || (60000 <? do_connect_timeout_ms o)).
(** [src/src/Net/Transports/Gns/Options.cpp:22-43] *)
Definition valid_options (options : option se_datagram_options) : bool :=
  match options with
  | None => false
  | Some o =>
      (do_struct_size o =? sizeof_datagram_options) && (do_abi_version o =? SE_DATAGRAM_ABI_VERSION)
      && (Z.land (do_flags o) (Z.lxor (2 ^ 32 - 1) SE_DATAGRAM_ALLOW_REMOTE_UNAUTHENTICATED) =? 0)
      && forallb (λ v, v =? 0) (do_reserved o)
      && limits_ok o
      && (u64 (u64 (do_max_send_queue_bytes o + native_receive_bytes o) * do_max_peers o)
            <=? 512 * 1024 * 1024)
  end.
(** [src/src/Net/Transports/Gns/Options.cpp:45-51] *)
Definition empty_event : se_datagram_event :=
  mkDatagramEvent sizeof_datagram_event SE_DATAGRAM_ABI_VERSION 0 0 0 0 0 [] [0; 0; 0; 0].

(** [options_.flags & SE_DATAGRAM_ALLOW_REMOTE_UNAUTHENTICATED] as a condition. *)
Definition allow_remote (o : se_datagram_options) : bool :=
  negb (Z.land (do_flags o) SE_DATAGRAM_ALLOW_REMOTE_UNAUTHENTICATED =? 0).

(** The conversion to a 32-bit signed integer. *)
Definition i32 (z : Z) : Z := let w := u32 z in if 2 ^ 31 <=? w then w - 2 ^ 32 else w.

(** [src/src/Net/Transports/Gns/NativeConfig.cpp:8-20] {NativeConfig} The values that are
    verified: the user data and the callback pointer follow them. *)
Definition native_config (o : se_datagram_options) : list Z :=
  [0; 2; i32 (do_connect_timeout_ms o); i32 (do_max_send_queue_bytes o); i32 (native_receive_bytes o);
   i32 (native_receive_count o); i32 (do_max_message_bytes o); 256].
(** [src/src/Net/Transports/Gns/NativeConfig.cpp:26-43] What the library reads back of each
    value: [None] when it fails or the value has another type or size. *)
Definition matches (o : se_datagram_options) (actual : list (option Z)) : bool :=
  bool_decide (take 8 actual = Some <$> native_config o).

(** ** Addresses *)
Definition hex_digit (b : byte) : bool :=
  let c := byte_Z b in ((48 <=? c) && (c <=? 57)) || ((97 <=? c) && (c <=? 102)) || ((65 <=? c) && (c <=? 70)).
(** [src/src/Net/Transports/Gns/NativeConfig.cpp:49-59] {parse_address} The loop: the
    length, the dots and the colons of at most [room] characters. *)
Fixpoint scan_address (room : nat) (length dots colons : Z) (text : bytes) : option (Z * Z * Z) :=
  match room, text with
  | O, _ | _, [] => Some (length, dots, colons)
  | S room, c :: text =>
      if bool_decide (c = x2e) then scan_address room (length + 1) (dots + 1) colons text
      else if bool_decide (c = x3a) then scan_address room (length + 1) dots (colons + 1) text
      else if hex_digit c then scan_address room (length + 1) dots colons text
      else None
  end.

(** The library's addresses: its parser, with the port it found, and its loopback test. *)
Class Addresses (Addr : Type) := {
  parse_string : bytes → option (Addr * Z);
  is_local_host : Addr → bool;
}.
(** [src/src/Net/Transports/Gns/NativeConfig.cpp:45-66] *)
Definition parse_address {Addr} `{Addresses Addr} (text : option bytes) (port : Z) (allow : bool)
    : option (Addr * Z) :=
  match text with
  | None => None
  | Some t =>
      if (port =? 0) || (65535 <? port) then None
      else match scan_address 64 0 0 0 t with
      | None => None
      | Some (length, dots, colons) =>
          if (length =? 0) || (length =? 64) || (colons =? 1) || ((colons =? 0) && negb (dots =? 3)) then None
          else match parse_string t with
          | None => None
          | Some (a, p) =>
              if negb (p =? 0) || (negb allow && negb (is_local_host a)) then None else Some (a, u16 port)
          end
      end
  end.

(** ** What validation makes safe *)
Lemma i32_small z : 0 ≤ z < 2 ^ 31 → i32 z = z.
Proof. intros. unfold i32. rewrite u32_small by (unfold is_u32; lia). by rewrite (proj2 (Z.leb_gt _ _)) by lia. Qed.

(** The widths of the caller's fields. *)
Record c_options (o : se_datagram_options) : Prop := {
  co_peers : is_u32 (do_max_peers o); co_message : is_u32 (do_max_message_bytes o);
  co_send : is_u32 (do_max_send_queue_bytes o); co_count : is_u32 (do_max_event_queue_count o);
  co_timeout : is_u32 (do_connect_timeout_ms o); co_bytes : is_u64 (do_max_event_queue_bytes o);
}.
Record sound_options (o : se_datagram_options) : Prop := {
  so_peers : 1 ≤ do_max_peers o ≤ 1024;
  so_message : 64 ≤ do_max_message_bytes o ≤ 512 * 1024;
  so_count : 1 ≤ do_max_event_queue_count o ≤ 65536;
  so_bytes : sizeof_datagram_event + do_max_message_bytes o ≤ do_max_event_queue_bytes o ≤ 256 * 1024 * 1024;
  so_config : native_config o = [0; 2; do_connect_timeout_ms o; do_max_send_queue_bytes o;
    native_receive_bytes o; native_receive_count o; do_max_message_bytes o; 256];
  so_receive : do_max_message_bytes o < native_receive_bytes o;
  so_total : (do_max_send_queue_bytes o + native_receive_bytes o) * do_max_peers o ≤ 512 * 1024 * 1024;
}.
Lemma valid_options_sound o : c_options o → valid_options (Some o) = true → sound_options o.
Proof.
  intros [[] [] [] [] [] []]. unfold valid_options, limits_ok. intros Hv. bprop.
  assert (native_receive_bytes o = Z.max 4096 (do_max_message_bytes o * 2)) as Hr.
  { unfold native_receive_bytes. rewrite u32_small by (unfold is_u32; lia). done. }
  match goal with H : u64 _ ≤ _ |- _ => rename H into Ht end. rewrite Hr in Ht.
  assert (is_u64 ((do_max_send_queue_bytes o + Z.max 4096 (do_max_message_bytes o * 2)) * do_max_peers o)) as Hu
    by (unfold is_u64; nia).
  rewrite (u64_small (do_max_send_queue_bytes o + _)), u64_small in Ht by (exact Hu || (unfold is_u64; lia)).
  split; try lia.
  unfold native_config. rewrite Hr. rewrite !i32_small by (unfold native_receive_count; lia). done.
Qed.

(** What validated datagram options become is well formed: every value handed to the
    vendor library is the caller's own, none cut by its conversion to a signed 32-bit
    integer; the library's receive limits exceed the largest message; and all native
    queues together stay within half a gigabyte. *)
Theorem datagram_options_wellformed o : c_options o → valid_options (Some o) = true →
  native_config o = [0; 2; do_connect_timeout_ms o; do_max_send_queue_bytes o; native_receive_bytes o;
    native_receive_count o; do_max_message_bytes o; 256] ∧
  Forall (λ v, 0 ≤ v < 2 ^ 31) (native_config o) ∧
  do_max_message_bytes o < native_receive_bytes o ∧ 2 ≤ native_receive_count o ≤ 1024 ∧
  (do_max_send_queue_bytes o + native_receive_bytes o) * do_max_peers o ≤ 512 * 1024 * 1024.
Proof.
  intros Hc Hv. pose proof Hc as [_ _ _ _ [] _]. destruct (valid_options_sound o Hc Hv) as [? ? ? ? Hn ? ?].
  pose proof Hv as Hv'. unfold valid_options, limits_ok in Hv'. bprop. rewrite Hn.
  assert (2 ≤ native_receive_count o ≤ 1024) by (unfold native_receive_count; lia).
  assert (native_receive_bytes o ≤ 1024 * 1024 * 1024) by (unfold native_receive_bytes, u32; dlia).
  split_and!; try done; try lia. repeat constructor; lia.
Qed.
Lemma datagram_options_wellformed_witness :
  native_config se_datagram_options_init = [0; 2; 10000; 262144; 131072; 1024; 65536; 256] ∧
  Forall (λ v, 0 ≤ v < 2 ^ 31) (native_config se_datagram_options_init).
Proof.
  split; [reflexivity|].
  apply (datagram_options_wellformed se_datagram_options_init); [|reflexivity].
  split; unfold is_u32, is_u64; simpl; lia.
Defined.
