(* ===== verification/GnsEndpoint.v ===== *)
(** GnsEndpoint: one endpoint of the datagram transport: its peers, its listener and its
    queue of events ([src/src/Net/Transports/Gns/Endpoint.cpp], [EndpointEvents.cpp]). What
    the vendor library answers is an argument of each operation; the calls made to it are
    recorded in order. *)
From S2P Require Import Prelude.
From S2P Require Import Text.
From S2P Require Import NetTypes.
From S2P Require Import GnsOptions.

(** ** The calls to the library *)
(** What it hands out and takes back: a connection, a listen socket, a poll group; zero is
    the invalid handle of each. *)
Inductive Res := RConn (h : Z) | RListen (l : Z) | RGroup (g : Z).
#[global] Instance Res_eq_dec : EqDecision Res.
Proof. solve_decision. Defined.
(** An incoming connection is [Open] when the library announces it. *)
Inductive Native :=
| Open (r : Res) | Close (r : Res) | Accept (h : Z) | SendMessage (h : Z) (data : bytes) (reliable : bool)
| Init | Kill.
#[global] Instance Native_eq_dec : EqDecision Native.
Proof. solve_decision. Defined.
(** Results of [SendMessageToConnection]. *)
Inductive EResult := EOk | ELimitExceeded | EInvalidParam | EInvalidState | ENoConnection | EOther.
(** States of a native connection. *)
Inductive ConnState := Connecting | Connected | ClosedByPeer | ProblemDetectedLocally | OtherState.
(** A status change, with what the library and the allocator answer while it is handled. *)
Record Change := mkChange {
  ch_conn : Z; ch_listen : Z; ch_state : ConnState; ch_local : bool; ch_unencrypted : bool; ch_reason : Z;
  ch_config : list (option Z); ch_group : bool; ch_accept : bool; ch_memory : bool; ch_push_memory : bool;
}.
(** What [ReceiveMessagesOnPollGroup] answers; a message of negative size has no data. *)
Inductive Receipt := ReceiveError | Received (conn : Z) (data : option bytes) (reliable memory : bool).
(** A listen socket or a connection made, with its configuration as read back. *)
Record Made := mkMade { m_handle : Z; m_config : list (option Z); m_group : bool; m_memory : bool }.

(** ** The endpoint *)
(** [src/src/Net/Transports/Gns/Endpoint.h:16-19] *)
Record Peer := mkPeer { peer_id : Z; connected : bool }.
(** [src/src/Net/Transports/Gns/Endpoint.h:20-23] *)
Record QueuedEvent := mkQueued { metadata : se_datagram_event; q_bytes : bytes }.
(** [src/src/Net/Transports/Gns/Endpoint.h:48-56] [delivered] records the events taken. *)
Record Endpoint := mkEndpoint {
  id_ : Z; options_ : se_datagram_options; listener_ : Z; group_ : Z; peers_ : gmap Z Peer;
  events_ : list QueuedEvent; event_bytes_ : Z; stopped_ : bool; overflow_ : bool; overflow_reported_ : bool;
  delivered : list QueuedEvent;
}.
Definition with_listener l e := mkEndpoint (id_ e) (options_ e) l (group_ e) (peers_ e) (events_ e) (event_bytes_ e)
  (stopped_ e) (overflow_ e) (overflow_reported_ e) (delivered e).
Definition with_peers p e := mkEndpoint (id_ e) (options_ e) (listener_ e) (group_ e) p (events_ e) (event_bytes_ e)
  (stopped_ e) (overflow_ e) (overflow_reported_ e) (delivered e).
Definition with_events q b e := mkEndpoint (id_ e) (options_ e) (listener_ e) (group_ e) (peers_ e) q b
  (stopped_ e) (overflow_ e) (overflow_reported_ e) (delivered e).
Definition with_delivered q e := mkEndpoint (id_ e) (options_ e) (listener_ e) (group_ e) (peers_ e) (events_ e)
  (event_bytes_ e) (stopped_ e) (overflow_ e) (overflow_reported_ e) (delivered e ++ [q]).
Definition with_overflow e := mkEndpoint (id_ e) (options_ e) (listener_ e) (group_ e) (peers_ e) (events_ e)
  (event_bytes_ e) (stopped_ e) true (overflow_reported_ e) (delivered e).
Definition with_reported e := mkEndpoint (id_ e) (options_ e) (listener_ e) (group_ e) (peers_ e) (events_ e)
  (event_bytes_ e) (stopped_ e) (overflow_ e) true (delivered e).

(** An operation's view: the endpoint, the runtime's peer counter and the calls made. *)
Record Ctx := mkCtx { c_ep : Endpoint; c_next : Z; c_native : list Native }.
Definition on_ep (f : Endpoint → Endpoint) c : Ctx := mkCtx (f (c_ep c)) (c_next c) (c_native c).
Definition emit (n : Native) c : Ctx := mkCtx (c_ep c) (c_next c) (c_native c ++ [n]).

(** [src/src/Net/Transports/Gns/Endpoint.cpp:18-23] {Endpoint} Given the poll group. *)
Definition new_endpoint (id : Z) (o : se_datagram_options) (group : Z) : Endpoint :=
  mkEndpoint id o 0 group ∅ [] 0 false false false [].
(** [src/src/Net/Transports/Gns/Runtime.cpp:61-66] [None] when it throws. *)
Definition next_peer_id c : option (Z * Ctx) :=
  if 0x00ffffffffffffff <? c_next c then None
  else Some (Z.lor 0x5000000000000000 (c_next c), mkCtx (c_ep c) (u64 (c_next c + 1)) (c_native c)).

(** What the endpoint holds of the library, in the order [shutdown] gives it back. *)
Definition holdings e : list Res :=
  (RConn <$> (map_to_list (peers_ e)).*1)
  ++ (if listener_ e =? 0 then [] else [RListen (listener_ e)])
  ++ (if group_ e =? 0 then [] else [RGroup (group_ e)]).
(** [src/src/Net/Transports/Gns/Endpoint.cpp:99-115] *)
Definition shutdown c : Ctx :=
  let e := c_ep c in
  mkCtx (mkEndpoint (id_ e) (options_ e) 0 0 ∅ [] 0 true (overflow_ e) (overflow_reported_ e) (delivered e))
    (c_next c) (c_native c ++ (Close <$> holdings e)).
(** [src/src/Net/Transports/Gns/EndpointEvents.cpp:8-12] *)
Definition overflow c : Ctx := shutdown (on_ep with_overflow c).

(** [src/src/Net/Transports/Gns/EndpointEvents.cpp:14-33] *)
Definition push (event : se_datagram_event) (data : bytes) (memory : bool) c : Ctx :=
  let e := c_ep c in
  if stopped_ e then c
  else
    let cost := u64 (sizeof_datagram_event + zlen data) in
    if (do_max_event_queue_count (options_ e) <=? zlen (events_ e))
       || (u64 (do_max_event_queue_bytes (options_ e) - event_bytes_ e) <? cost)
    then overflow c
    else if negb memory then overflow c
    else
      let queued := mkQueued (mkDatagramEvent (de_struct_size event) (de_abi_version event) (de_kind event)
        (de_delivery event) (de_peer_id event) (u32 (zlen data)) (de_reason event) (de_message event)
        (de_reserved event)) data in
      on_ep (with_events (events_ e ++ [queued]) (u64 (event_bytes_ e + cost))) c.

(** [src/src/Net/Transports/Gns/EndpointEvents.cpp:35-52] The status, the record written,
    the bytes copied. *)
Definition take_event (capacity : Z) e : se_status * option se_datagram_event * bytes * Endpoint :=
  if overflow_ e && negb (overflow_reported_ e)
  then (SE_OK, Some (mkDatagramEvent sizeof_datagram_event SE_DATAGRAM_ABI_VERSION SE_DATAGRAM_OVERFLOW
         0 0 0 0 [] [0; 0; 0; 0]), [], with_reported e)
  else if stopped_ e then (SE_STOPPED, None, [], e)
  else match events_ e with
  | [] => (SE_TIMEOUT, None, [], e)
  | queued :: rest =>
      if capacity <? zlen (q_bytes queued) then (SE_BUFFER_TOO_SMALL, Some (metadata queued), [], e)
      else (SE_OK, Some (metadata queued), q_bytes queued,
        with_delivered queued (with_events rest
          (u64 (event_bytes_ e - (sizeof_datagram_event + zlen (q_bytes queued)))) e))
  end.

(** An event of a kind about a peer. *)
Definition peer_event (kind delivery id reason : Z) (message : bytes) : se_datagram_event :=
  mkDatagramEvent sizeof_datagram_event SE_DATAGRAM_ABI_VERSION kind delivery id 0 reason (take 127 message)
    [0; 0; 0; 0].
(** [src/src/Net/Transports/Gns/EndpointEvents.cpp:54-68] *)
Definition drop_peer (native reason : Z) (message : bytes) (memory : bool) c : Ctx :=
  match peers_ (c_ep c) !! native with
  | None => c
  | Some found =>
      push (peer_event SE_DATAGRAM_DISCONNECTED 0 (peer_id found) reason message) [] memory
        (emit (Close (RConn native)) (on_ep (λ e, with_peers (delete native (peers_ e)) e) c))
  end.

(** ** The operations *)
Section Operations.
Context {Addr : Type} `{Addresses Addr}.

(** [src/src/Net/Transports/Gns/Endpoint.cpp:31-47] *)
Definition listen (address : option bytes) (port : Z) (made : Made) c : se_status * Ctx :=
  let e := c_ep c in
  if stopped_ e then (SE_STOPPED, c)
  else match parse_address address port (allow_remote (options_ e)) with
  | None => (SE_INVALID_ARGUMENT, c)
  | Some _ =>
      if negb (listener_ e =? 0) then (SE_INVALID_STATE, c)
      else if m_handle made =? 0 then (SE_IO_ERROR, c)
      else
        let c := emit (Open (RListen (m_handle made))) c in
        if negb (matches (options_ e) (m_config made))
        then (SE_IO_ERROR, emit (Close (RListen (m_handle made))) c)
        else (SE_OK, on_ep (with_listener (m_handle made)) c)
  end.

(** [src/src/Net/Transports/Gns/Endpoint.cpp:49-67] The status and the peer, or what is
    thrown; the guard closes a connection that is not published. *)
Definition connect (address : option bytes) (port : Z) (made : Made) c : result bytes (se_status * Z) * Ctx :=
  let e := c_ep c in
  let h := m_handle made in
  if stopped_ e then (Ok (SE_STOPPED, 0), c)
  else match parse_address address port (allow_remote (options_ e)) with
  | None => (Ok (SE_INVALID_ARGUMENT, 0), c)
  | Some _ =>
      if do_max_peers (options_ e) <=? msize (peers_ e) then (Ok (SE_BACKPRESSURE, 0), c)
      else if h =? 0 then (Ok (SE_IO_ERROR, 0), c)
      else
        let c := emit (Open (RConn h)) c in
        let close := emit (Close (RConn h)) in
        if negb (matches (options_ e) (m_config made)) || negb (m_group made)
        then (Ok (SE_IO_ERROR, 0), close c)
        else match next_peer_id c with
        | None => (Err (txt "Datagram peer ID space exhausted"), close c)
        | Some (id, c) =>
            if negb (m_memory made) then (Err (txt "std::bad_alloc"), close c)
            else match peers_ e !! h with
            | Some _ => (Ok (SE_INTERNAL_ERROR, 0), close c)
            | None => (Ok (SE_OK, id), on_ep (λ e, with_peers (<[h := mkPeer id false]> (peers_ e)) e) c)
            end
        end
  end.
End Operations.

(** [src/src/Net/Transports/Gns/Endpoint.cpp:26-29] The native handle and the entry. *)
Definition find_peer (id : Z) e : option (Z * Peer) :=
  head (filter (λ x : Z * Peer, peer_id x.2 = id) (map_to_list (peers_ e))).
(** [src/src/Net/Transports/Gns/Endpoint.cpp:69-88] *)
Definition send (peer delivery : Z) (data : bytes) (answer : EResult) c : se_status * Ctx :=
  let e := c_ep c in
  if stopped_ e then (SE_STOPPED, c)
  else if do_max_message_bytes (options_ e) <? zlen data then (SE_RESULT_TOO_LARGE, c)
  else match find_peer peer e with
  | None => (SE_INVALID_HANDLE, c)
  | Some (h, found) =>
      if negb (connected found) then (SE_INVALID_STATE, c)
      else
        (match answer with
         | EOk => SE_OK | ELimitExceeded => SE_BACKPRESSURE | EInvalidParam => SE_INVALID_ARGUMENT
         | EInvalidState => SE_INVALID_STATE | ENoConnection => SE_INVALID_STATE | EOther => SE_IO_ERROR
         end, emit (SendMessage h data (delivery =? SE_DATAGRAM_RELIABLE_ORDERED)) c)
  end.
(** [src/src/Net/Transports/Gns/Endpoint.cpp:90-97] *)
Definition disconnect (id : Z) (memory : bool) c : se_status * Ctx :=
  if stopped_ (c_ep c) then (SE_STOPPED, c)
  else match find_peer id (c_ep c) with
  | None => (SE_INVALID_HANDLE, c)
  | Some (h, _) => (SE_OK, drop_peer h 0 (txt "Local disconnect") memory c)
  end.

(** ** Callbacks *)
(** [src/src/Net/Transports/Gns/EndpointEvents.cpp:70-74] *)
Definition owns (change : Change) e : bool :=
  negb (stopped_ e) && (bool_decide (is_Some (peers_ e !! ch_conn change))
    || (negb (listener_ e =? 0) && (ch_listen change =? listener_ e))).
(** [src/src/Net/Transports/Gns/EndpointEvents.cpp:80-96] {on_status} A connection not
    seen before; an exception closes it and stops the endpoint (lines 114-117). *)
Definition admit_incoming (change : Change) c : Ctx :=
  let e := c_ep c in
  let h := ch_conn change in
  let c := emit (Open (RConn h)) c in
  let close := emit (Close (RConn h)) in
  if stopped_ e || (do_max_peers (options_ e) <=? msize (peers_ e))
     || (negb (allow_remote (options_ e)) && negb (ch_local change))
  then close c
  else if negb (matches (options_ e) (ch_config change)) || negb (ch_group change) then close c
  else match next_peer_id c with
  | None => overflow (close c)
  | Some (id, c) =>
      if negb (ch_memory change) then overflow (close c)
      else
        let c := emit (Accept h) (on_ep (λ e, with_peers (<[h := mkPeer id false]> (peers_ e)) e) c) in
        if ch_accept change then c else drop_peer h 0 (txt "Accept failed") (ch_push_memory change) c
  end.
(** [src/src/Net/Transports/Gns/EndpointEvents.cpp:98-109] {on_status} *)
Definition on_connected (change : Change) found c : Ctx :=
  let h := ch_conn change in
  if ch_unencrypted change then drop_peer h 0 (txt "Encryption required") (ch_push_memory change) c
  else if connected found then c
  else
    push (peer_event SE_DATAGRAM_CONNECTED 0 (peer_id found) 0 []) [] (ch_push_memory change)
      (on_ep (λ e, with_peers (<[h := mkPeer (peer_id found) true]> (peers_ e)) e) c).
(** [src/src/Net/Transports/Gns/EndpointEvents.cpp:76-118] *)
Definition on_status (change : Change) c : Ctx :=
  match peers_ (c_ep c) !! ch_conn change, ch_state change with
  | None, Connecting => admit_incoming change c
  | None, _ => c
  | Some found, Connected => on_connected change found c
  | Some _, ClosedByPeer | Some _, ProblemDetectedLocally =>
      drop_peer (ch_conn change) (ch_reason change) (txt "Transport disconnected") (ch_push_memory change) c
  | Some _, _ => c
  end.

(** [src/src/Net/Transports/Gns/EndpointEvents.cpp:129-143] {receive} One message. *)
Definition receive_one (conn : Z) (data : option bytes) (reliable memory : bool) c : Ctx :=
  match peers_ (c_ep c) !! conn with
  | None => c
  | Some found =>
      match data with
      | None => drop_peer conn 0 (txt "Receive limit exceeded") memory c
      | Some d =>
          if do_max_message_bytes (options_ (c_ep c)) <? zlen d
          then drop_peer conn 0 (txt "Receive limit exceeded") memory c
          else if negb (connected found) then drop_peer conn 0 (txt "Message before connected event") memory c
          else push (peer_event SE_DATAGRAM_MESSAGE
                 (if reliable then SE_DATAGRAM_RELIABLE_ORDERED else SE_DATAGRAM_UNRELIABLE)
                 (peer_id found) 0 []) d memory c
      end
  end.
(** [src/src/Net/Transports/Gns/EndpointEvents.cpp:120-145] The answers in the order of the
    calls; past them there is no message. *)
Fixpoint receive (budget : nat) (answers : list Receipt) c : Ctx :=
  match budget, answers with
  | O, _ | _, [] => c
  | S budget, answer :: answers =>
      if stopped_ (c_ep c) then c
      else match answer with
      | ReceiveError => overflow c
      | Received conn data reliable memory => receive budget answers (receive_one conn data reliable memory c)
      end
  end.
