(* ===== verification/GnsRuntime.v ===== *)
(** GnsRuntime: the registry of datagram endpoints, the pump and the C entry points
    ([src/src/Net/Transports/Gns/Runtime.cpp], [src/src/Abi/DatagramTransport.cpp]). Every
    operation holds the runtime's mutex; a poll that waits releases it, so that it is a
    step to begin with and a step for each wake-up. *)
From S2P Require Import Prelude.
From S2P Require Import Text.
From S2P Require Import NetTypes.
From S2P Require Import Abi.
From S2P Require Import GnsOptions.
From S2P Require Import GnsEndpoint.

(** [src/src/Net/Transports/Gns/Runtime.cpp:15-20] An endpoint stays among the objects
    when it leaves the registry: a poll that waits on it finds it. [native] records the
    calls to the library. *)
Record Runtime := mkRuntime {
  objects : gmap Z Endpoint; endpoints : gset Z; next_endpoint : Z; next_peer : Z; initialized : bool;
  native : list Native;
}.
Definition new_runtime : Runtime := mkRuntime ∅ ∅ 1 1 false [].
Definition called (n : Native) r : Runtime :=
  mkRuntime (objects r) (endpoints r) (next_endpoint r) (next_peer r) (initialized r) (native r ++ [n]).
Definition with_initialized b r : Runtime :=
  mkRuntime (objects r) (endpoints r) (next_endpoint r) (next_peer r) b (native r).
Definition with_endpoints s r : Runtime :=
  mkRuntime (objects r) s (next_endpoint r) (next_peer r) (initialized r) (native r).

(** An operation on one of the objects. *)
Definition on_object {A} (id : Z) (default : A) (f : Ctx → A * Ctx) r : A * Runtime :=
  match objects r !! id with
  | None => (default, r)
  | Some e =>
      let '(a, c) := f (mkCtx e (next_peer r) (native r)) in
      (a, mkRuntime (<[id := c_ep c]> (objects r)) (endpoints r) (next_endpoint r) (c_next c) (initialized r)
            (c_native c))
  end.
Definition update_object (id : Z) (f : Ctx → Ctx) r : Runtime := (on_object id tt (λ c, (tt, f c)) r).2.
(** [src/src/Net/Transports/Gns/Runtime.cpp:52-58] *)
Definition with_endpoint {A} (id : Z) (invalid : A) (f : Ctx → A * Ctx) r : A * Runtime :=
  if decide (id ∈ endpoints r) then on_object id invalid f r else (invalid, r).

(** [src/src/Net/Transports/Gns/Runtime.cpp:27-33] [None] when it throws. *)
Definition init (ok : bool) r : option Runtime :=
  if initialized r then Some r else if ok then Some (with_initialized true (called Init r)) else None.
(** [src/src/Net/Transports/Gns/Runtime.cpp:34-39] *)
Definition release_if_empty r : Runtime :=
  if initialized r && bool_decide (endpoints r = ∅) then with_initialized false (called Kill r) else r.
Definition owner r (change : Change) (id : Z) : bool :=
  match objects r !! id with Some e => owns change e | None => false end.
(** [src/src/Net/Transports/Gns/Runtime.cpp:68-81] *)
Definition status_changed r (change : Change) : Runtime :=
  match head (filter (λ id, owner r change id = true) (elements (endpoints r))) with
  | Some id => update_object id (on_status change) r
  | None =>
      match ch_state change with
      | Connecting => called (Close (RConn (ch_conn change))) (called (Open (RConn (ch_conn change))) r)
      | _ => r
      end
  end.
(** [src/src/Net/Transports/Gns/Runtime.cpp:44-48] The changes the library reports, then
    what each endpoint receives. *)
Definition pump (changes : list Change) (receipts : Z → list Receipt) r : Runtime :=
  if negb (initialized r) then r
  else foldl (λ r id, update_object id (receive 64 (receipts id)) r) (foldl status_changed r changes)
         (elements (endpoints r)).

(** What [create] finds: whether the library starts, the poll group (zero when invalid)
    and whether the allocations succeed. *)
Record Created := mkCreated { cr_init : bool; cr_group : Z; cr_memory : bool; cr_error : bytes }.
(** [src/src/Net/Transports/Gns/Runtime.cpp:83-98] A group made for an endpoint that
    cannot be registered goes with it. *)
Definition create (o : se_datagram_options) (made : Created) r : result bytes (se_status * Z) * Runtime :=
  if 64 <=? Z.of_nat (size (endpoints r)) then (Ok (SE_BACKPRESSURE, 0), r)
  else if 0x00ffffffffffffff <? next_endpoint r then (Ok (SE_INTERNAL_ERROR, 0), r)
  else match init (cr_init made) r with
  | None => (Err (txt "GNS initialization failed: " ++ cr_error made), r)
  | Some r =>
      let id := Z.lor 0x4700000000000000 (next_endpoint r) in
      let r := mkRuntime (objects r) (endpoints r) (u64 (next_endpoint r + 1)) (next_peer r) (initialized r)
        (native r) in
      if cr_group made =? 0 then (Err (txt "GNS poll group creation failed"), release_if_empty r)
      else
        let r := called (Open (RGroup (cr_group made))) r in
        if negb (cr_memory made)
        then (Err (txt "std::bad_alloc"), release_if_empty (called (Close (RGroup (cr_group made))) r))
        else (Ok (SE_OK, id),
              mkRuntime (<[id := new_endpoint id o (cr_group made)]> (objects r)) ({[id]} ∪ endpoints r)
                (next_endpoint r) (next_peer r) (initialized r) (native r))
  end.

(** One round of a poll: what the pump finds, and whether the deadline has passed. *)
Record Round := mkRound { rd_changes : list Change; rd_receipts : Z → list Receipt; rd_expired : bool }.
(** [event = ...] of a round: the record and the bytes written, if any. *)
Definition Taken : Type := se_status * option se_datagram_event * bytes.
Definition take_object (id capacity : Z) r : Taken * Runtime :=
  on_object id (SE_INVALID_HANDLE, None, [])
    (λ c, let '(t, e) := take_event capacity (c_ep c) in (t, mkCtx e (c_next c) (c_native c))) r.
(** [src/src/Net/Transports/Gns/Runtime.cpp:127-138] {poll} [None] is a wait. *)
Definition poll_round (id capacity timeout_ms : Z) (round : Round) r : option Taken * Runtime :=
  let '(t, r) := take_object id capacity r in
  if negb (bool_decide (t.1.1 = SE_TIMEOUT)) then (Some t, r)
  else
    let '(t, r) := take_object id capacity (pump (rd_changes round) (rd_receipts round) r) in
    if negb (bool_decide (t.1.1 = SE_TIMEOUT)) || (timeout_ms =? 0) then (Some t, r)
    else if rd_expired round then (Some (SE_TIMEOUT, None, []), r)
    else (None, r).
(** [src/src/Net/Transports/Gns/Runtime.cpp:117-126] {poll} Up to the first round. *)
Definition poll (id capacity timeout_ms : Z) (round : Round) r : option Taken * Runtime :=
  if decide (id ∈ endpoints r) then poll_round id capacity timeout_ms round r
  else (Some (SE_INVALID_HANDLE, None, []), r).
(** [src/src/Net/Transports/Gns/Runtime.cpp:141-152] *)
Definition destroy (id : Z) r : se_status * Runtime :=
  if decide (id ∈ endpoints r)
  then (SE_OK, let r := update_object id shutdown r in
               release_if_empty (with_endpoints (endpoints r ∖ {[id]}) r))
  else (SE_INVALID_HANDLE, r).

(** ** The C entry points *)
(** [src/src/Abi/DatagramTransport.cpp:7-19] *)
Definition description (status : se_status) : bytes :=
  match status with
  | SE_NOT_SUPPORTED => txt "Datagram transport disabled; configure SE_WITH_GNS=ON"
  | SE_INVALID_ARGUMENT => txt "Invalid datagram transport argument, ABI layout, address or limit"
  | SE_INVALID_HANDLE => txt "Unknown datagram endpoint or peer handle"
  | SE_INVALID_STATE => txt "Datagram peer not connected or endpoint already listening"
  | SE_BACKPRESSURE => txt "Datagram capacity full; message not accepted, poll and retry later"
  | SE_RESULT_TOO_LARGE => txt "Datagram message exceeds endpoint limit"
  | SE_IO_ERROR => txt "GNS could not open/configure transport; check address, port and dependency version"
  | _ => txt "Datagram transport internal failure"
  end.
(** [src/src/Abi/DatagramTransport.cpp:20-27] The status, or what is thrown. *)
Definition boundary (r : result bytes se_status) : se_status * se_error :=
  (Abi.protect tt
    (match r with
     | Err what => Err what
     | Ok status =>
         Ok (if status_code status <? 0 then Abi.fail status (description status) else (status, no_error), tt)
     end)).1.
Definition status_of {A} (r : result bytes (se_status * A)) : result bytes se_status :=
  match r with Ok (st, _) => Ok st | Err what => Err what end.
Definition output_of (r : result bytes (se_status * Z)) : Z := match r with Ok (_, v) => v | Err _ => 0 end.

Section Abi.
Context {Addr : Type} `{Addresses Addr} (supported : bool).

(** [src/src/Abi/DatagramTransport.cpp:46-57] [endpoint]: whether the output is given. *)
Definition se_datagram_create (options : option se_datagram_options) (endpoint : bool) (made : Created) r
    : se_status * se_error * Z * Runtime :=
  match options with
  | Some o =>
      if negb endpoint || negb (valid_options options) then (boundary (Ok SE_INVALID_ARGUMENT), 0, r)
      else if supported
      then let '(res, r) := create o made r in (boundary (status_of res), output_of res, r)
      else (boundary (Ok SE_NOT_SUPPORTED), 0, r)
  | None => (boundary (Ok SE_INVALID_ARGUMENT), 0, r)
  end.
(** [src/src/Abi/DatagramTransport.cpp:58-68] *)
Definition se_datagram_listen (endpoint : Z) (address : option bytes) (port : Z) (made : Made) r
    : se_status * se_error * Runtime :=
  if supported
  then let '(st, r) := with_endpoint endpoint SE_INVALID_HANDLE (listen address port made) r in (boundary (Ok st), r)
  else (boundary (Ok SE_NOT_SUPPORTED), r).
(** [src/src/Abi/DatagramTransport.cpp:69-82] *)
Definition se_datagram_connect (endpoint : Z) (address : option bytes) (port : Z) (peer : bool) (made : Made) r
    : se_status * se_error * Z * Runtime :=
  if negb peer then (boundary (Ok SE_INVALID_ARGUMENT), 0, r)
  else if supported
  then let '(res, r) := with_endpoint endpoint (Ok (SE_INVALID_HANDLE, 0)) (connect address port made) r in
       (boundary (status_of res), output_of res, r)
  else (boundary (Ok SE_NOT_SUPPORTED), 0, r).
(** [src/src/Abi/DatagramTransport.cpp:83-96] [data] is NULL or holds the caller's bytes. *)
Definition se_datagram_send (endpoint peer delivery : Z) (data : option bytes) (size : Z) (answer : EResult) r
    : se_status * se_error * Runtime :=
  if (bool_decide (data = None) && negb (size =? 0))
     || (negb (delivery =? SE_DATAGRAM_UNRELIABLE) && negb (delivery =? SE_DATAGRAM_RELIABLE_ORDERED))
  then (boundary (Ok SE_INVALID_ARGUMENT), r)
  else if supported
  then let '(st, r) := with_endpoint endpoint SE_INVALID_HANDLE
         (send peer delivery (take (Z.to_nat size) (default [] data)) answer) r in (boundary (Ok st), r)
  else (boundary (Ok SE_NOT_SUPPORTED), r).
(** [src/src/Abi/DatagramTransport.cpp:97-111] [event] is the header of the caller's record.
    What is not written by the poll is the empty record; [None] is a wait. *)
Definition se_datagram_poll (endpoint : Z) (event : option (Z * Z)) (payload : bool) (capacity timeout_ms : Z)
    (round : Round) r : option (se_status * se_error * option se_datagram_event * bytes) * Runtime :=
  if negb (bool_decide (event = Some (sizeof_datagram_event, SE_DATAGRAM_ABI_VERSION)))
     || (negb payload && negb (capacity =? 0))
  then (Some (boundary (Ok SE_INVALID_ARGUMENT), None, []), r)
  else if supported
  then
    let '(t, r) := poll endpoint capacity timeout_ms round r in
    ((λ t : Taken, (boundary (Ok t.1.1), Some (default empty_event t.1.2), t.2)) <$> t, r)
  else (Some (boundary (Ok SE_NOT_SUPPORTED), Some empty_event, []), r).
(** [src/src/Abi/DatagramTransport.cpp:112-122] *)
Definition se_datagram_disconnect (endpoint peer : Z) (memory : bool) r : se_status * se_error * Runtime :=
  if supported
  then let '(st, r) := with_endpoint endpoint SE_INVALID_HANDLE (disconnect peer memory) r in (boundary (Ok st), r)
  else (boundary (Ok SE_NOT_SUPPORTED), r).
(** [src/src/Abi/DatagramTransport.cpp:123-133] *)
Definition se_datagram_destroy (endpoint : Z) r : se_status * se_error * Runtime :=
  if supported then let '(st, r) := destroy endpoint r in (boundary (Ok st), r)
  else (boundary (Ok SE_NOT_SUPPORTED), r).

(** ** Steps: the calls through the C boundary, and a waiting poll's wake-up *)
Inductive Action :=
| Create (options : option se_datagram_options) (made : Created)
| Listen (endpoint : Z) (address : option bytes) (port : Z) (made : Made)
| Connect (endpoint : Z) (address : option bytes) (port : Z) (made : Made)
| SendTo (endpoint peer delivery : Z) (data : bytes) (answer : EResult)
| Poll (endpoint capacity timeout_ms : Z) (round : Round)
| Resume (endpoint capacity timeout_ms : Z) (round : Round)
| Disconnect (endpoint peer : Z) (memory : bool)
| Destroy (endpoint : Z).
Definition step r (a : Action) : Runtime :=
  match a with
  | Create options made => (se_datagram_create options true made r).2
  | Listen endpoint address port made => (se_datagram_listen endpoint address port made r).2
  | Connect endpoint address port made => (se_datagram_connect endpoint address port true made r).2
  | SendTo endpoint peer delivery data answer =>
      (se_datagram_send endpoint peer delivery (Some data) (zlen data) answer r).2
  | Poll endpoint capacity timeout_ms round =>
      (se_datagram_poll endpoint (Some (sizeof_datagram_event, SE_DATAGRAM_ABI_VERSION)) true capacity timeout_ms
        round r).2
  | Resume endpoint capacity timeout_ms round => (poll_round endpoint capacity timeout_ms round r).2
  | Disconnect endpoint peer memory => (se_datagram_disconnect endpoint peer memory r).2
  | Destroy endpoint => (se_datagram_destroy endpoint r).2
  end.
End Abi.
