(* ===== verification/GnsInvariant.v ===== *)
(** GnsInvariant: what holds of a datagram endpoint between any two operations: its queue
    is within its limits and exactly accounted, and the events of a peer follow its life.
    Every operation of [GnsEndpoint] keeps it. *)
From S2P Require Import Prelude.
From S2P Require Import Text.
From S2P Require Import NetTypes.
From S2P Require Import GnsOptions.
From S2P Require Import GnsEndpoint.

(** ** The life of a peer, as its events tell it *)
Inductive PeerState := New | Up | Down.
Definition advance (s : option PeerState) (kind : Z) : option PeerState :=
  match s with
  | Some New =>
      if kind =? SE_DATAGRAM_CONNECTED then Some Up
      else if kind =? SE_DATAGRAM_DISCONNECTED then Some Down else None
  | Some Up =>
      if kind =? SE_DATAGRAM_MESSAGE then Some Up
      else if kind =? SE_DATAGRAM_DISCONNECTED then Some Down else None
  | _ => None
  end.
(** The events taken, then those queued. *)
Definition history (e : Endpoint) : list QueuedEvent := delivered e ++ events_ e.
Definition kinds_in (l : list QueuedEvent) (id : Z) : list Z :=
  (λ q, de_kind (metadata q)) <$> filter (λ q, de_peer_id (metadata q) = id) l.
Definition life_in (l : list QueuedEvent) (id : Z) : option PeerState :=
  foldl advance (Some New) (kinds_in l id).
Abbreviation kinds e := (kinds_in (history e)).
Abbreviation life e := (life_in (history e)).

Lemma kinds_app l k id : kinds_in (l ++ k) id = kinds_in l id ++ kinds_in k id.
Proof. unfold kinds_in. by rewrite filter_app, fmap_app. Qed.
Lemma advance_none l : foldl advance None l = None.
Proof. induction l as [|x l IH]; [done|]. simpl. apply IH. Qed.
Lemma life_prefix l k id : is_Some (life_in (l ++ k) id) → is_Some (life_in l id).
Proof.
  unfold life_in. rewrite kinds_app, foldl_app. destruct (foldl advance (Some New) (kinds_in l id)) as [s|]; [eauto|].
  rewrite advance_none. by intros [? ?].
Qed.
Lemma kinds_one q id : kinds_in [q] id = if decide (de_peer_id (metadata q) = id) then [de_kind (metadata q)] else [].
Proof. unfold kinds_in. rewrite filter_cons. by case_decide. Qed.
Lemma life_snoc l q id : life_in (l ++ [q]) id =
  if decide (de_peer_id (metadata q) = id) then advance (life_in l id) (de_kind (metadata q)) else life_in l id.
Proof.
  unfold life_in. rewrite kinds_app, kinds_one. case_decide; [by rewrite foldl_app|by rewrite app_nil_r].
Qed.

(** ** Identifiers *)
Definition pid (k : Z) : Z := Z.lor 0x5000000000000000 k.
Definition issued (n id : Z) : Prop := ∃ k, 1 ≤ k < n ∧ id = pid k.
Lemma pid_add k : 0 ≤ k < 2 ^ 56 → pid k = 0x5000000000000000 + k.
Proof.
  intros Hk. unfold pid. rewrite Z.lor_comm. change 0x5000000000000000 with (Z.shiftl 80 56).
  rewrite lor_shift_add by lia. rewrite Z.shiftl_mul_pow2 by lia. lia.
Qed.
Lemma issued_more n n' id : issued n id → n ≤ n' → issued n' id.
Proof. intros (k & ? & ->) ?. exists k. split; [lia|done]. Qed.
Lemma issued_next n : 1 ≤ n → issued (n + 1) (pid n).
Proof. exists n. split; [lia|done]. Qed.
Lemma not_issued n : 1 ≤ n < 2 ^ 56 → ¬ issued n (pid n).
Proof. intros Hn (k & Hk & E). rewrite !pid_add in E by lia. lia. Qed.

(** ** The invariant *)
Definition cost (q : QueuedEvent) : Z := sizeof_datagram_event + zlen (q_bytes q).
(** What survives a shutdown. *)
Record base (n : Z) (e : Endpoint) : Prop := {
  b_options : sound_options (options_ e);
  b_life id : is_Some (life e id);
  b_fresh id : kinds e id ≠ [] → issued n id;
  b_reported : overflow_reported_ e = true → overflow_ e = true;
}.
Record accounted (e : Endpoint) : Prop := {
  a_bytes : event_bytes_ e = total cost (events_ e);
  a_fits : event_bytes_ e ≤ do_max_event_queue_bytes (options_ e);
  a_count : zlen (events_ e) ≤ do_max_event_queue_count (options_ e);
  a_peers : msize (peers_ e) ≤ do_max_peers (options_ e);
}.
(** With [n] the runtime's next peer number. *)
Record good (n : Z) (e : Endpoint) : Prop := {
  g_base : base n e;
  g_accounted : accounted e;
  g_live h p : peers_ e !! h = Some p →
    issued n (peer_id p) ∧ life e (peer_id p) = Some (if connected p then Up else New);
  g_distinct h h' p p' : peers_ e !! h = Some p → peers_ e !! h' = Some p' → peer_id p = peer_id p' → h = h';
  g_stopped : stopped_ e = true → events_ e = [] ∧ holdings e = [];
  g_overflow : overflow_ e = true → stopped_ e = true;
}.
Definition cgood (c : Ctx) : Prop := 1 ≤ c_next c ≤ 2 ^ 56 ∧ good (c_next c) (c_ep c).

Lemma holdings_nil e : holdings e = [] ↔ peers_ e = ∅ ∧ listener_ e = 0 ∧ group_ e = 0.
Proof.
  unfold holdings. split.
  - intros [Hp [Hl Hg]%app_nil]%app_nil. apply fmap_nil_inv, fmap_nil_inv, map_to_list_empty_iff in Hp.
    split; [done|]. repeat case_match; bprop; done.
  - intros (-> & -> & ->). by rewrite map_to_list_empty.
Qed.
Lemma good_more n n' e : good n e → n ≤ n' → good n' e.
Proof.
  intros [[] [] Hl Hd Hs Ho] Hn. split; try done; [split; try done|].
  - intros id Hk. eapply issued_more; eauto.
  - intros h p Hp. destruct (Hl _ _ Hp). split; [|done]. eapply issued_more; eauto.
Qed.

(** ** Shutdown *)
Lemma shutdown_good n c : base n (c_ep c) → good n (c_ep (shutdown c)).
Proof.
  intros [Ho Hl Hf Hr]. split; simpl; try done.
  - split; simpl; try done.
    + intros id. apply (life_prefix _ (events_ (c_ep c))). unfold history. simpl. rewrite app_nil_r. apply Hl.
    + intros id. unfold history. simpl. rewrite app_nil_r. intros Hk. apply Hf. unfold history.
      rewrite kinds_app. intros [E _]%app_nil. done.
  - destruct Ho. unfold sizeof_datagram_event in *. split; simpl; try rewrite msize_empty; try rewrite zlen_nil; lia.
Qed.
Lemma overflow_good n c : base n (c_ep c) → good n (c_ep (overflow c)).
Proof. intros [Ho Hl Hf Hr]. unfold overflow. apply shutdown_good. by split. Qed.

(** ** Pushing an event *)
(** Of the peer the event is about, what its life is once the event is told; of the
    others, what it is. *)
Lemma push_good n c ev data memory s :
  let e := c_ep c in
  base n e → accounted e → overflow_ e = false → zlen data ≤ do_max_message_bytes (options_ e) →
  issued n (de_peer_id ev) → advance (life e (de_peer_id ev)) (de_kind ev) = Some s →
  (∀ h p, peers_ e !! h = Some p → issued n (peer_id p) ∧
    (if decide (peer_id p = de_peer_id ev) then Some s else life e (peer_id p)) = Some (if connected p then Up else New)) →
  (∀ h h' p p', peers_ e !! h = Some p → peers_ e !! h' = Some p' → peer_id p = peer_id p' → h = h') →
  stopped_ e = false → good n (c_ep (push ev data memory c)).
Proof.
  intros e Hb Ha Hov Hd Hi Hs Hl Hdi Hst. unfold push. fold e. rewrite Hst.
  pose proof (total_nonneg cost (events_ e)) as Htot.
  pose proof (b_options _ _ Hb) as Hso. pose proof (b_life _ _ Hb) as Hlife. pose proof (b_fresh _ _ Hb) as Hf.
  pose proof (b_reported _ _ Hb) as Hr. destruct Hso as [Hso1 Hso2 Hso3 Hso4 _ _ _]. destruct Ha as [Hab Haf Hac Hap]. pose proof (zlen_nonneg data).
  unfold sizeof_datagram_event in *.
  assert (0 ≤ event_bytes_ e) as H0.
  { rewrite Hab. apply Htot. intros q. unfold cost, sizeof_datagram_event. pose proof (zlen_nonneg (q_bytes q)). lia. }
  rewrite (u64_small (192 + _)), (u64_small (_ - _)) by (unfold is_u64; lia).
  destruct (_ || _) eqn:Ho; [by apply overflow_good|]. bprop.
  destruct memory; simpl; [|by apply overflow_good].
  set (q := mkQueued _ data). rewrite u64_small by (unfold is_u64; lia).
  assert (∀ id, life_in (history (with_events (events_ e ++ [q]) (event_bytes_ e + (192 + zlen data)) e)) id =
    if decide (de_peer_id ev = id) then advance (life e id) (de_kind ev) else life e id) as Hsn.
  { intros id. unfold history. simpl. rewrite app_assoc. apply life_snoc. }
  split; simpl; try done; try congruence.
  - split; simpl; [apply (b_options _ _ Hb)| | |done].
    + intros id. rewrite Hsn. case_decide; [subst; rewrite Hs; by eexists|apply Hlife].
    + intros id. unfold history. simpl. rewrite app_assoc, kinds_app, kinds_one.
      case_decide as E; [simpl in E; by rewrite <- E|]. rewrite app_nil_r. apply Hf.
  - assert (cost q = 192 + zlen data) as Hq by done. split; simpl; fold e; try lia.
    + rewrite total_app, total_cons, total_nil. lia.
    + rewrite zlen_app, zlen_cons, zlen_nil. lia.
  - intros h p Hp. rewrite Hsn. destruct (Hl _ _ Hp) as [? Hp']. split; [done|].
    rewrite <- Hp'. destruct (decide (de_peer_id ev = peer_id p)) as [E|E].
    + rewrite decide_True by done. by rewrite <- E.
    + by rewrite decide_False by congruence.
  - unfold e in *. congruence.
  - unfold e in *. congruence.
Qed.

(** ** Losing a peer *)
Lemma good_running n e : good n e → peers_ e ≠ ∅ → stopped_ e = false ∧ overflow_ e = false.
Proof.
  intros Hg Hp. assert (stopped_ e = false) as Hs.
  { apply not_true_iff_false. intros [_ H]%(g_stopped _ _ Hg). by apply holdings_nil in H as [? _]. }
  split; [done|]. apply not_true_iff_false. intros H%(g_overflow _ _ Hg). congruence.
Qed.
Lemma peers_nonempty (e : Endpoint) h p : peers_ e !! h = Some p → peers_ e ≠ ∅.
Proof. intros Hp E. rewrite E in Hp. by rewrite lookup_empty in Hp. Qed.
Lemma base_peers n e q : base n (with_peers q e) ↔ base n e.
Proof. by split; intros [? ? ? ?]; split. Qed.

Lemma drop_good n c native reason message memory :
  good n (c_ep c) → good n (c_ep (drop_peer native reason message memory c)).
Proof.
  intros Hg. unfold drop_peer. destruct (peers_ (c_ep c) !! native) as [p|] eqn:Hp; [|done].
  destruct (good_running _ _ Hg (peers_nonempty _ _ _ Hp)) as [Hst Hov].
  pose proof (b_options _ _ (g_base _ _ Hg)) as Hso. destruct Hso as [_ Hm _ _ _ _ _].
  destruct (g_live _ _ Hg _ _ Hp) as [Hi Hlife].
  apply (push_good n _ _ _ _ Down); simpl; try done.
  - apply base_peers, g_base, Hg.
  - destruct (g_accounted _ _ Hg). split; simpl; try done. rewrite (msize_delete _ _ _ Hp). lia.
  - rewrite zlen_nil. lia.
  - change (history _) with (history (c_ep c)). rewrite Hlife. by destruct (connected p).
  - intros h q [Hne Hq]%lookup_delete_Some. destruct (g_live _ _ Hg _ _ Hq) as [? Hql]. split; [done|].
    rewrite decide_False; [done|]. intros E. by apply Hne, (g_distinct _ _ Hg native h p q).
  - intros h h' q q' [_ Hq]%lookup_delete_Some [_ Hq']%lookup_delete_Some. by apply (g_distinct _ _ Hg).
Qed.

Lemma push_keeps_next ev d m c : c_next (push ev d m c) = c_next c.
Proof. unfold push. by repeat case_match. Qed.
Lemma drop_keeps_next h r t m c : c_next (drop_peer h r t m c) = c_next c.
Proof. unfold drop_peer. case_match; [|done]. by rewrite push_keeps_next. Qed.
Lemma drop_cgood native reason message memory c : cgood c → cgood (drop_peer native reason message memory c).
Proof. intros [Hn Hg]. split; rewrite drop_keeps_next; [done|by apply drop_good]. Qed.
Lemma shutdown_cgood c : cgood c → cgood (shutdown c).
Proof. intros [Hn Hg]. split; [done|]. apply shutdown_good, g_base, Hg. Qed.
Lemma overflow_cgood c : cgood c → cgood (overflow c).
Proof. intros [Hn Hg]. split; [done|]. apply overflow_good, g_base, Hg. Qed.
Lemma emit_cgood n c : cgood (emit n c) ↔ cgood c.
Proof. done. Qed.

(** ** Gaining a peer *)
Lemma next_cgood c id c' : cgood c → next_peer_id c = Some (id, c') →
  cgood c' ∧ c_ep c' = c_ep c ∧ ¬ issued (c_next c) id ∧ issued (c_next c') id ∧ c_next c ≤ c_next c'.
Proof.
  intros [Hn Hg]. unfold next_peer_id. destruct (_ <? _) eqn:E; [done|]. bprop. intros [= <- <-].
  rewrite u64_small by (unfold is_u64; lia). simpl. unfold cgood. simpl. split_and!; try lia; try done.
  - eapply good_more; [done|lia].
  - apply (not_issued (c_next c)). lia.
  - apply (issued_next (c_next c)). lia.
Qed.
Lemma insert_good n e h id : good n e → peers_ e !! h = None → issued n id → kinds e id = [] →
  (∀ h' p, peers_ e !! h' = Some p → peer_id p ≠ id) → stopped_ e = false →
  msize (peers_ e) < do_max_peers (options_ e) →
  good n (with_peers (<[h := mkPeer id false]> (peers_ e)) e).
Proof.
  intros Hg Hh Hi Hk Hne Hst Hm. split; simpl.
  - apply base_peers, g_base, Hg.
  - destruct (g_accounted _ _ Hg). split; simpl; try done. rewrite (msize_insert_new _ _ _ Hh). lia.
  - intros h' p [[<- <-]|[? Hp]]%lookup_insert_Some; [|by apply (g_live _ _ Hg h')]. split; [done|].
    change (history _) with (history e). unfold life_in. simpl. by rewrite Hk.
  - intros h1 h2 p1 p2 [[<- <-]|[? H1]]%lookup_insert_Some [[<- <-]|[? H2]]%lookup_insert_Some E; simpl in *; try done.
    + by destruct (Hne _ _ H2).
    + by destruct (Hne _ _ H1).
    + by apply (g_distinct _ _ Hg _ _ p1 p2).
  - congruence.
  - apply (g_overflow _ _ Hg).
Qed.
Lemma insert_cgood c c' h id : cgood c → next_peer_id c = Some (id, c') → peers_ (c_ep c) !! h = None →
  stopped_ (c_ep c) = false → msize (peers_ (c_ep c)) < do_max_peers (options_ (c_ep c)) →
  cgood (on_ep (λ e, with_peers (<[h := mkPeer id false]> (peers_ e)) e) c').
Proof.
  intros Hc Hnext Hh Hst Hm. destruct (next_cgood _ _ _ Hc Hnext) as ([Hn' Hg'] & He & Hno & Hi & Hle).
  destruct Hc as [Hn Hg]. split; [done|]. simpl. rewrite He in *. apply insert_good; try done.
  - destruct (kinds (c_ep c) id) eqn:E; [done|]. destruct Hno. apply (b_fresh _ _ (g_base _ _ Hg)). by rewrite E.
  - intros h' p Hp E. apply Hno. rewrite <- E. apply (g_live _ _ Hg _ _ Hp).
Qed.

(** ** The operations *)
Section Operations.
Context {Addr : Type} `{Addresses Addr}.
Lemma listen_cgood address port made c : cgood c → cgood (listen address port made c).2.
Proof.
  intros Hc. unfold listen. destruct (stopped_ _) eqn:Hst; [done|]. repeat (case_match; try done).
  destruct Hc as [Hn Hg]. split; [done|]. destruct Hg as [[? ? ? ?] [? ? ? ?] ? ? ? ?]. simpl. split; try done.
  simpl. congruence.
Qed.
Lemma connect_cgood address port made c : cgood c → cgood (connect address port made c).2.
Proof.
  intros Hc. unfold connect. destruct (stopped_ _) eqn:Hst; [done|].
  destruct (parse_address _ _ _); [|done]. destruct (_ <=? _) eqn:Hm; [done|]. bprop.
  destruct (_ =? 0); [done|]. destruct (_ || _); [done|].
  destruct (next_peer_id _) as [[id c']|] eqn:Hnext; [|done].
  apply (emit_cgood (Open (RConn (m_handle made)))) in Hc.
  destruct (next_cgood _ _ _ Hc Hnext) as (Hc' & He & _).
  destruct (m_memory made); simpl; [|done]. destruct (_ !! _) eqn:Hh; [done|].
  by apply (insert_cgood _ _ _ _ Hc Hnext).
Qed.
End Operations.
Lemma send_keeps peer delivery data answer c : c_ep (send peer delivery data answer c).2 = c_ep c ∧
  c_next (send peer delivery data answer c).2 = c_next c.
Proof. unfold send. by repeat case_match. Qed.
Lemma send_cgood peer delivery data answer c : cgood c → cgood (send peer delivery data answer c).2.
Proof. intros [Hn Hg]. destruct (send_keeps peer delivery data answer c) as [He Hx]. split; by rewrite ?He, Hx. Qed.
Lemma disconnect_cgood id memory c : cgood c → cgood (disconnect id memory c).2.
Proof. intros Hc. unfold disconnect. repeat case_match; try done. by apply drop_cgood. Qed.

(** ** The callbacks *)
Lemma on_connected_cgood change found c : cgood c → peers_ (c_ep c) !! ch_conn change = Some found →
  cgood (on_connected change found c).
Proof.
  intros Hc Hp. unfold on_connected. destruct (ch_unencrypted change); [by apply drop_cgood|].
  destruct (connected found) eqn:Hf; [done|]. destruct Hc as [Hn Hg].
  split; rewrite push_keeps_next; [done|]. simpl.
  destruct (good_running _ _ Hg (peers_nonempty _ _ _ Hp)) as [Hst Hov].
  pose proof (b_options _ _ (g_base _ _ Hg)) as Hso. destruct Hso as [_ Hm _ _ _ _ _].
  destruct (g_live _ _ Hg _ _ Hp) as [Hi Hlife]. rewrite Hf in Hlife.
  apply (push_good _ _ _ _ _ Up); simpl; try done.
  - apply base_peers, g_base, Hg.
  - destruct (g_accounted _ _ Hg). split; simpl; try done. by rewrite (msize_insert_old _ _ _ _ Hp).
  - rewrite zlen_nil. lia.
  - change (history _) with (history (c_ep c)). by rewrite Hlife.
  - intros h q [[<- <-]|[Hne Hq]]%lookup_insert_Some; simpl.
    + by rewrite decide_True.
    + destruct (g_live _ _ Hg _ _ Hq) as [? Hql]. split; [done|].
      rewrite decide_False; [done|]. intros E. by apply Hne, (g_distinct _ _ Hg _ h found q).
  - intros h1 h2 p1 p2 [[<- <-]|[? H1]]%lookup_insert_Some [[<- <-]|[? H2]]%lookup_insert_Some E; simpl in *; try done.
    + by apply (g_distinct _ _ Hg _ _ found p2).
    + by apply (g_distinct _ _ Hg _ _ p1 found).
    + by apply (g_distinct _ _ Hg _ _ p1 p2).
Qed.
Lemma admit_incoming_cgood change c : cgood c → peers_ (c_ep c) !! ch_conn change = None →
  cgood (admit_incoming change c).
Proof.
  intros Hc Hh. unfold admit_incoming. apply (emit_cgood (Open (RConn (ch_conn change)))) in Hc.
  destruct (_ || _ || _) eqn:E; [done|]. bprop. destruct (_ || _); [done|].
  destruct (next_peer_id _) as [[id c']|] eqn:Hnext; [|by apply overflow_cgood].
  destruct (next_cgood _ _ _ Hc Hnext) as (Hc' & He & _).
  destruct (ch_memory change); simpl; [|by apply overflow_cgood].
  pose proof (insert_cgood _ _ (ch_conn change) id Hc Hnext Hh B1 B2) as Hin.
  destruct (ch_accept change); [done|by apply drop_cgood].
Qed.
Lemma on_status_cgood change c : cgood c → cgood (on_status change c).
Proof.
  intros Hc. unfold on_status. destruct (_ !! _) as [found|] eqn:Hp.
  - destruct (ch_state change); try done; [by apply on_connected_cgood|by apply drop_cgood..].
  - destruct (ch_state change); try done. by apply admit_incoming_cgood.
Qed.
Lemma receive_one_cgood conn data reliable memory c : cgood c → cgood (receive_one conn data reliable memory c).
Proof.
  intros Hc. unfold receive_one. destruct (_ !! _) as [p|] eqn:Hp; [|done].
  destruct data as [d|]; [|by apply drop_cgood]. destruct (_ <? _) eqn:Hd; [by apply drop_cgood|]. bprop.
  destruct (connected p) eqn:Hcon; simpl; [|by apply drop_cgood].
  destruct Hc as [Hn Hg]. split; rewrite push_keeps_next; [done|].
  destruct (good_running _ _ Hg (peers_nonempty _ _ _ Hp)) as [Hst Hov].
  destruct (g_live _ _ Hg _ _ Hp) as [Hi Hlife]. rewrite Hcon in Hlife.
  apply (push_good _ _ _ _ _ Up); simpl; try done; try apply Hg.
  - by rewrite Hlife.
  - intros h q Hq. destruct (g_live _ _ Hg _ _ Hq) as [? Hql]. split; [done|].
    case_decide as E; [|done]. by rewrite <- Hql, E.
Qed.
Lemma receive_cgood budget : ∀ answers c, cgood c → cgood (receive budget answers c).
Proof.
  induction budget as [|budget IH]; intros [|a answers] c Hc; simpl; try done.
  destruct (stopped_ (c_ep c)); [done|]. destruct a; [by apply overflow_cgood|]. apply IH. by apply receive_one_cgood.
Qed.

(** ** Taking an event *)
Lemma take_event_good n capacity e : good n e → good n (take_event capacity e).2.
Proof.
  intros Hg. unfold take_event. destruct (_ && _) eqn:E.
  { bprop. destruct Hg as [[? ? ? ?] [? ? ? ?] ? ? ? ?]. by split. }
  destruct (stopped_ e) eqn:Hst; [done|]. destruct (events_ e) as [|q rest] eqn:Hev; [done|].
  destruct (_ <? _); [done|]. simpl. destruct Hg as [[? Hl Hf ?] [Hb Hfit Hcnt ?] Hlive ? ? ?].
  rewrite Hev in *. rewrite total_cons in Hb. rewrite zlen_cons in Hcnt.
  assert (0 ≤ total cost rest) as Hr.
  { apply total_nonneg. intros x. unfold cost, sizeof_datagram_event. pose proof (zlen_nonneg (q_bytes x)). lia. }
  assert (0 ≤ cost q) as Hq by (unfold cost, sizeof_datagram_event; pose proof (zlen_nonneg (q_bytes q)); lia).
  assert (event_bytes_ e - cost q = total cost rest) as Hd by lia.
  fold (cost q). rewrite Hd.
  pose proof b_options0 as [_ _ _ Hso _ _ _].
  rewrite u64_small by (unfold is_u64; lia).
  assert (∀ id, history (with_delivered q (with_events rest id e)) = history e) as Hh.
  { intros id. unfold history. simpl. by rewrite Hev, <- app_assoc. }
  split; try rewrite Hh; simpl; try done; try congruence.
  - split; try rewrite Hh; done.
  - split; simpl; try done; lia.
Qed.
