(* ===== verification/GnsLedger.v ===== *)
(** GnsLedger: what the datagram transport holds of the vendor library is what it opened
    and has not closed, operation by operation. *)
From S2P Require Import Prelude.
From S2P Require Import Text.
From S2P Require Import NetTypes.
From S2P Require Import GnsOptions.
From S2P Require Import GnsEndpoint.
From S2P Require Import GnsInvariant.

(** How often a resource was opened, less how often it was closed. *)
Definition entry (r : Res) (n : Native) : Z :=
  match n with
  | Open r' => if decide (r = r') then 1 else 0
  | Close r' => if decide (r = r') then -1 else 0
  | _ => 0
  end.
Definition balance (l : list Native) (r : Res) : Z := total (entry r) l.
(** Whether an endpoint holds it. *)
Definition held (r : Res) (e : Endpoint) : Z :=
  match r with
  | RConn h => if decide (is_Some (peers_ e !! h)) then 1 else 0
  | RListen l => if negb (listener_ e =? 0) && (l =? listener_ e) then 1 else 0
  | RGroup g => if negb (group_ e =? 0) && (g =? group_ e) then 1 else 0
  end.
Lemma held_nonneg r e : 0 ≤ held r e.
Proof. destruct r; simpl; repeat case_match; lia. Qed.
Lemma held_none r e : holdings e = [] → held r e = 0.
Proof.
  intros (Hp & Hl & Hg)%holdings_nil. destruct r; simpl; rewrite ?Hp, ?Hl, ?Hg; try done.
Qed.

Lemma total_closes r l : NoDup l → balance (Close <$> l) r = if decide (r ∈ l) then -1 else 0.
Proof.
  induction 1 as [|x l Hx _ IH]; [done|]. unfold balance in *. rewrite fmap_cons, total_cons, IH. simpl.
  destruct (decide (r = x)) as [->|Hne].
  - rewrite decide_False by done. rewrite decide_True by apply list_elem_of_here. done.
  - destruct (decide (r ∈ l)).
    + rewrite decide_True by (by apply list_elem_of_further). done.
    + rewrite decide_False; [done|]. intros [->|?]%elem_of_cons; done.
Qed.
Lemma holdings_nodup e : NoDup (holdings e).
Proof.
  unfold holdings. apply NoDup_app. split; [|split].
  - apply NoDup_fmap_2; [intros ? ? [=]; done|apply NoDup_fst_map_to_list].
  - intros x (h & -> & _)%list_elem_of_fmap. repeat case_match; simpl; set_solver.
  - repeat case_match; simpl; try apply NoDup_nil_2; try apply NoDup_singleton.
    apply NoDup_cons. split; [set_solver|apply NoDup_singleton].
Qed.
Ltac no_member :=
  match goal with
  | H : _ ∈ [] |- _ => by apply not_elem_of_nil in H
  | H : _ ∈ [_] |- _ => apply list_elem_of_singleton in H; simplify_eq
  end.
Lemma elem_of_holdings r e : r ∈ holdings e ↔ held r e = 1.
Proof.
  unfold holdings. rewrite !elem_of_app, list_elem_of_fmap. destruct r as [h|l|g]; simpl.
  - split.
    + intros [(h' & [= <-] & Hin)|[Hin|Hin]]; [|by destruct (_ =? 0); no_member..].
      apply list_elem_of_fmap in Hin as ([h' p] & -> & Hin%elem_of_map_to_list). by rewrite decide_True by (by eexists).
    + case_decide as Hs; [|done]. intros _. destruct Hs as [p Hp]. left. exists h. split; [done|].
      apply list_elem_of_fmap. exists (h, p). split; [done|]. by apply elem_of_map_to_list.
  - split.
    + intros [(? & ? & _)|[Hin|Hin]]; [done|..]; destruct (_ =? 0); no_member. simpl. by rewrite Z.eqb_refl.
    + intros Hin. right. left. destruct (listener_ e =? 0); simpl in Hin; [done|].
      destruct (l =? listener_ e) eqn:E; [|done]. bprop. subst. apply list_elem_of_here.
  - split.
    + intros [(? & ? & _)|[Hin|Hin]]; [done|..]; destruct (_ =? 0); no_member. simpl. by rewrite Z.eqb_refl.
    + intros Hin. right. right. destruct (group_ e =? 0); simpl in Hin; [done|].
      destruct (g =? group_ e) eqn:E; [|done]. bprop. subst. apply list_elem_of_here.
Qed.
Lemma balance_holdings r e : balance (Close <$> holdings e) r = - held r e.
Proof.
  rewrite total_closes by apply holdings_nodup. destruct (decide (r ∈ holdings e)) as [Hin|Hin].
  - apply elem_of_holdings in Hin. lia.
  - rewrite elem_of_holdings in Hin. assert (held r e = 0 ∨ held r e = 1) as [->| ]; [|done|done].
    destruct r; simpl; repeat case_match; auto.
Qed.

(** ** Operations conserve *)
Definition plain (n : Native) : Prop := match n with Init | Kill => False | _ => True end.
Record conserves (c c' : Ctx) : Prop := {
  cs_trace : ∃ l, c_native c' = c_native c ++ l ∧ Forall plain l;
  cs_ledger r : balance (c_native c') r - held r (c_ep c') = balance (c_native c) r - held r (c_ep c);
}.
Lemma conserves_refl c c' : c_native c' = c_native c → (∀ r, held r (c_ep c') = held r (c_ep c)) → conserves c c'.
Proof. intros Hn Hh. split; [exists []; by rewrite app_nil_r|]. intros r. by rewrite Hn, Hh. Qed.
Lemma conserves_trans c c' c'' : conserves c c' → conserves c' c'' → conserves c c''.
Proof.
  intros [(l & Hl & Hp) H1] [(k & Hk & Hq) H2]. split; [|intros r; by rewrite H2].
  exists (l ++ k). rewrite Hk, Hl, app_assoc. split; [done|]. by apply Forall_app.
Qed.
Lemma conserves_emit c c' l : c_native c' = c_native c ++ l → Forall plain l →
  (∀ r, held r (c_ep c') = held r (c_ep c) + balance l r) → conserves c c'.
Proof.
  intros Hn Hp Hh. split; [by exists l|]. intros r. rewrite Hn, Hh. unfold balance. rewrite total_app. lia.
Qed.
Lemma shutdown_conserves c : conserves c (shutdown c).
Proof.
  apply (conserves_emit _ _ (Close <$> holdings (c_ep c))); [done|by apply Forall_fmap, Forall_true|].
  intros r. rewrite balance_holdings. simpl. rewrite held_none by done. lia.
Qed.
Lemma overflow_conserves c : conserves c (overflow c).
Proof. eapply conserves_trans; [|apply shutdown_conserves]. by apply conserves_refl. Qed.
Lemma push_conserves ev d m c : conserves c (push ev d m c).
Proof.
  unfold push. repeat case_match; try apply overflow_conserves; by apply conserves_refl.
Qed.
(** Opened and given back at once. *)
Lemma rejected_conserves r c : conserves c (emit (Close r) (emit (Open r) c)).
Proof.
  apply (conserves_emit _ _ [Open r; Close r]); [simpl; by rewrite <- app_assoc|by repeat constructor|].
  intros r'. unfold balance. simpl. case_decide; lia.
Qed.
Lemma delete_conserves h p c : peers_ (c_ep c) !! h = Some p →
  conserves c (emit (Close (RConn h)) (on_ep (λ e, with_peers (delete h (peers_ e)) e) c)).
Proof.
  intros Hp. apply (conserves_emit _ _ [Close (RConn h)]); [done|by repeat constructor|].
  intros r. unfold balance. simpl. destruct r as [h'|l|g]; simpl; try lia.
  destruct (decide (RConn h' = RConn h)) as [[= ->]|Hne].
  - rewrite lookup_delete_eq. rewrite decide_False by (by intros []). rewrite decide_True by (by eexists). done.
  - rewrite lookup_delete_ne by congruence. lia.
Qed.
Lemma drop_conserves h r t m c : conserves c (drop_peer h r t m c).
Proof.
  unfold drop_peer. destruct (_ !! h) eqn:Hp; [|by apply conserves_refl].
  eapply conserves_trans; [by eapply (delete_conserves h)|apply push_conserves].
Qed.
Lemma next_keeps c id c' : next_peer_id c = Some (id, c') → c_ep c' = c_ep c ∧ c_native c' = c_native c.
Proof. unfold next_peer_id. case_match; [done|]. by intros [= _ <-]. Qed.
Lemma insert_conserves h p c c' : peers_ (c_ep c) !! h = None →
  c_ep c' = with_peers (<[h := p]> (peers_ (c_ep c))) (c_ep c) → c_native c' = c_native c ++ [Open (RConn h)] →
  conserves c c'.
Proof.
  intros Hp He Hn. apply (conserves_emit _ _ [Open (RConn h)]); [done|by repeat constructor|].
  intros r. rewrite He. unfold balance. simpl. destruct r as [h'|l|g]; simpl; try lia.
  destruct (decide (RConn h' = RConn h)) as [[= ->]|Hne].
  - rewrite lookup_insert_eq. rewrite decide_True by (by eexists). rewrite decide_False; [done|].
    rewrite Hp. by intros [].
  - rewrite lookup_insert_ne by congruence. lia.
Qed.
Lemma emit_plain n c : plain n → (∀ r, entry r n = 0) → conserves c (emit n c).
Proof.
  intros Hp Hn. apply (conserves_emit _ _ [n]); [done|by constructor|].
  intros r. unfold balance. simpl. rewrite Hn. lia.
Qed.

(** ** The operations *)
Section Operations.
Context {Addr : Type} `{Addresses Addr}.
Lemma listen_conserves address port made c : conserves c (listen address port made c).2.
Proof.
  unfold listen. destruct (stopped_ _); [by apply conserves_refl|].
  destruct (parse_address _ _ _); [|by apply conserves_refl].
  destruct (listener_ (c_ep c) =? 0) eqn:Hl; simpl; [|by apply conserves_refl].
  destruct (m_handle made =? 0) eqn:Hm; [by apply conserves_refl|].
  destruct (matches _ _); simpl; [|apply (rejected_conserves (RListen _))]. bprop.
  apply (conserves_emit _ _ [Open (RListen (m_handle made))]); [done|by repeat constructor|].
  intros r. unfold balance. simpl. destruct r as [h|l|g]; simpl; try lia.
  rewrite (proj2 (Z.eqb_neq _ _) Hm), Hl. simpl.
  destruct (decide (RListen l = RListen (m_handle made))) as [[= ->]|Hne]; [by rewrite Z.eqb_refl|].
  rewrite (proj2 (Z.eqb_neq l _)) by congruence. done.
Qed.
Lemma connect_conserves address port made c : conserves c (connect address port made c).2.
Proof.
  unfold connect. destruct (stopped_ _); [by apply conserves_refl|].
  destruct (parse_address _ _ _); [|by apply conserves_refl].
  destruct (_ <=? _); [by apply conserves_refl|]. destruct (_ =? 0); [by apply conserves_refl|].
  destruct (_ || _); [apply (rejected_conserves (RConn _))|].
  destruct (next_peer_id _) as [[id c']|] eqn:Hnext; [|apply (rejected_conserves (RConn _))].
  apply next_keeps in Hnext as [He Hn].
  assert (conserves c (emit (Close (RConn (m_handle made))) c')) as Hclose.
  { eapply conserves_trans; [apply (rejected_conserves (RConn (m_handle made)))|].
    apply conserves_refl; simpl; [by rewrite Hn|by rewrite He]. }
  destruct (m_memory made); simpl; [|done]. destruct (_ !! _) eqn:Hp; simpl; [done|].
  eapply (insert_conserves (m_handle made)); [done|simpl; by rewrite He|done].
Qed.
End Operations.
Lemma send_conserves peer delivery data answer c : conserves c (send peer delivery data answer c).2.
Proof. unfold send. repeat case_match; first [by apply conserves_refl|by apply emit_plain]. Qed.
Lemma disconnect_conserves id memory c : conserves c (disconnect id memory c).2.
Proof. unfold disconnect. repeat case_match; try (by apply conserves_refl). apply drop_conserves. Qed.
Lemma on_connected_conserves change found c : peers_ (c_ep c) !! ch_conn change = Some found →
  conserves c (on_connected change found c).
Proof.
  intros Hp. unfold on_connected. destruct (ch_unencrypted change); [apply drop_conserves|].
  destruct (connected found); [by apply conserves_refl|].
  eapply conserves_trans; [|apply push_conserves]. apply conserves_refl; [done|].
  intros [h|l|g]; simpl; try done. destruct (decide (h = ch_conn change)) as [->|Hne].
  - rewrite lookup_insert_eq, Hp, !decide_True by (by eexists). done.
  - by rewrite lookup_insert_ne.
Qed.
Lemma admit_incoming_conserves change c : peers_ (c_ep c) !! ch_conn change = None →
  conserves c (admit_incoming change c).
Proof.
  intros Hp. unfold admit_incoming. set (h := ch_conn change) in *.
  destruct (_ || _ || _); [apply (rejected_conserves (RConn h))|].
  destruct (_ || _); [apply (rejected_conserves (RConn h))|].
  destruct (next_peer_id _) as [[id c']|] eqn:Hnext.
  2: { eapply conserves_trans; [apply (rejected_conserves (RConn h))|apply overflow_conserves]. }
  apply next_keeps in Hnext as [He Hn]. destruct (ch_memory change); simpl.
  2: { eapply conserves_trans; [apply (rejected_conserves (RConn h))|].
       eapply conserves_trans; [|apply overflow_conserves].
       apply conserves_refl; simpl; [by rewrite Hn|by rewrite He]. }
  eapply conserves_trans.
  { eapply (insert_conserves h (mkPeer id false) c
      (on_ep (λ e, with_peers (<[h := mkPeer id false]> (peers_ e)) e) c')); [done|simpl; by rewrite He|done]. }
  eapply conserves_trans; [by apply (emit_plain (Accept h))|].
  destruct (ch_accept change); [by apply conserves_refl|apply drop_conserves].
Qed.
Lemma on_status_conserves change c : conserves c (on_status change c).
Proof.
  unfold on_status. destruct (_ !! _) as [found|] eqn:Hp.
  - destruct (ch_state change); try (by apply conserves_refl); [by apply on_connected_conserves|apply drop_conserves..].
  - destruct (ch_state change); try (by apply conserves_refl). by apply admit_incoming_conserves.
Qed.
Lemma receive_conserves budget : ∀ answers c, conserves c (receive budget answers c).
Proof.
  induction budget as [|budget IH]; intros [|a answers] c; simpl; try (by apply conserves_refl).
  destruct (stopped_ (c_ep c)); [by apply conserves_refl|]. destruct a; [by apply overflow_conserves|].
  eapply conserves_trans; [|apply IH]. unfold receive_one.
  repeat case_match; first [by apply conserves_refl|apply drop_conserves|apply push_conserves].
Qed.
Lemma take_held r capacity e : held r (take_event capacity e).2 = held r e.
Proof. unfold take_event. by repeat case_match. Qed.
