(* ===== verification/GnsProperties.v ===== *)
(** GnsProperties: what the datagram transport promises through its C boundary, in every
    sequence of calls, wake-ups of waiting polls and answers of the vendor library. *)
From S2P Require Import Prelude.
From S2P Require Import Text.
From S2P Require Import NetTypes.
From S2P Require Import Abi.
From S2P Require Import GnsOptions.
From S2P Require Import GnsEndpoint.
From S2P Require Import GnsRuntime.
From S2P Require Import GnsInvariant.
From S2P Require Import GnsLedger.

(** ** Once stopped, always stopped *)
Definition evolves (e e' : Endpoint) : Prop :=
  stopped_ e = true → stopped_ e' = true ∧ delivered e' = delivered e ∧ overflow_ e' = overflow_ e ∧
    (overflow_reported_ e = true → overflow_reported_ e' = true).
Lemma evolves_refl e : evolves e e.
Proof. intros Hs. by split_and!. Qed.
Lemma evolves_trans e e' e'' : evolves e e' → evolves e' e'' → evolves e e''.
Proof.
  intros H1 H2 Hs. destruct (H1 Hs) as (Hs' & Hd & Ho & Hr). destruct (H2 Hs') as (? & Hd' & Ho' & Hr').
  rewrite Hd', Ho'. split_and!; auto.
Qed.
Lemma push_evolves ev d m c : evolves (c_ep c) (c_ep (push ev d m c)).
Proof. unfold evolves, push. intros Hs. rewrite Hs. by split_and!. Qed.
Lemma shutdown_evolves c : evolves (c_ep c) (c_ep (shutdown c)).
Proof. intros Hs. by split_and!. Qed.
Lemma drop_evolves h r t m c : evolves (c_ep c) (c_ep (drop_peer h r t m c)).
Proof.
  unfold drop_peer. case_match; [|apply evolves_refl].
  eapply evolves_trans; [|apply push_evolves]. intros Hs. by split_and!.
Qed.
Lemma on_status_evolves change c : evolves (c_ep c) (c_ep (on_status change c)).
Proof.
  unfold on_status, on_connected, admit_incoming. destruct (_ !! _) as [found|].
  - destruct (ch_state change); try apply evolves_refl; try apply drop_evolves.
    destruct (ch_unencrypted change); [apply drop_evolves|]. destruct (connected found); [apply evolves_refl|].
    eapply evolves_trans; [|apply push_evolves]. intros Hs. by split_and!.
  - destruct (ch_state change); try apply evolves_refl. intros Hs. simpl. rewrite Hs. by split_and!.
Qed.
Lemma receive_evolves budget answers c : evolves (c_ep c) (c_ep (receive budget answers c)).
Proof. destruct budget, answers; simpl; try apply evolves_refl. intros Hs. rewrite Hs. by split_and!. Qed.
Lemma take_event_evolves capacity e : evolves e (take_event capacity e).2.
Proof. unfold take_event. intros Hs. rewrite Hs. destruct (_ && _); by split_and!. Qed.

(** ** The peer counter only grows *)
Lemma next_grows c id c' : cgood c → next_peer_id c = Some (id, c') → c_next c ≤ c_next c'.
Proof. intros Hc Hn. apply (next_cgood _ _ _ Hc Hn). Qed.
Lemma admit_next change c : cgood c → c_next c ≤ c_next (admit_incoming change c).
Proof.
  intros Hc. unfold admit_incoming. destruct (_ || _ || _); [simpl; lia|]. destruct (_ || _); [simpl; lia|].
  destruct (next_peer_id _) as [[id c']|] eqn:Hnext; [|simpl; lia].
  apply (next_grows (emit _ c)) in Hnext; [|done]. simpl in Hnext.
  destruct (ch_memory change); [|done]. simpl. destruct (ch_accept change); [done|].
  by rewrite drop_keeps_next.
Qed.
Lemma on_status_next change c : cgood c → c_next c ≤ c_next (on_status change c).
Proof.
  intros Hc. unfold on_status, on_connected.
  repeat case_match; rewrite ?drop_keeps_next, ?push_keeps_next; try done; by apply admit_next.
Qed.
Lemma receive_next budget : ∀ answers c, c_next (receive budget answers c) = c_next c.
Proof.
  induction budget as [|budget IH]; intros [|a answers] c; simpl; try done.
  destruct (stopped_ (c_ep c)); [done|]. destruct a; [done|]. rewrite IH. unfold receive_one.
  by repeat case_match; rewrite ?drop_keeps_next, ?push_keeps_next.
Qed.

(** ** An operation on an endpoint *)
Record sound {A} (f : Ctx → A * Ctx) : Prop := {
  s_good c : cgood c → cgood (f c).2 ∧ c_next c ≤ c_next (f c).2;
  s_conserves c : conserves c (f c).2;
  s_evolves c : evolves (c_ep c) (c_ep (f c).2);
}.
Section Operations.
Context {Addr : Type} `{Addresses Addr}.
Lemma listen_sound address port made : sound (listen address port made).
Proof.
  split; [|intros ?; apply listen_conserves|].
  { intros c Hc. split; [by apply listen_cgood|]. unfold listen. by repeat case_match. }
  intros c Hs. unfold listen. by rewrite Hs.
Qed.
Lemma connect_sound address port made : sound (connect address port made).
Proof.
  split; [|intros ?; apply connect_conserves|].
  { intros c Hc. split; [by apply connect_cgood|]. unfold connect. repeat (case_match; try done).
    all: match goal with H : next_peer_id _ = Some _ |- _ => by apply next_grows in H end. }
  intros c Hs. unfold connect. by rewrite Hs.
Qed.
End Operations.
Lemma send_sound peer delivery data answer : sound (send peer delivery data answer).
Proof.
  split; [|intros ?; apply send_conserves|].
  { intros c Hc. split; [by apply send_cgood|]. by rewrite (proj2 (send_keeps _ _ _ _ _)). }
  intros c Hs. unfold send. by rewrite Hs.
Qed.
Lemma disconnect_sound peer memory : sound (disconnect peer memory).
Proof.
  split; [|intros ?; apply disconnect_conserves|].
  { intros c Hc. split; [by apply disconnect_cgood|]. unfold disconnect.
    by repeat case_match; simpl; rewrite ?drop_keeps_next. }
  intros c Hs. unfold disconnect. by rewrite Hs.
Qed.
Lemma shutdown_sound : sound (λ c, (tt, shutdown c)).
Proof. split; intros c; [intros Hc; split; [by apply shutdown_cgood|done]|apply shutdown_conserves|apply shutdown_evolves]. Qed.
Lemma on_status_sound change : sound (λ c, (tt, on_status change c)).
Proof.
  split; intros c; [intros Hc; split; [by apply on_status_cgood|by apply on_status_next]|apply on_status_conserves|apply on_status_evolves].
Qed.
Lemma receive_sound budget answers : sound (λ c, (tt, receive budget answers c)).
Proof.
  split; intros c; [intros Hc; split; [by apply receive_cgood|simpl; by rewrite receive_next]|apply receive_conserves|apply receive_evolves].
Qed.
Definition taking (capacity : Z) (c : Ctx) : Taken * Ctx :=
  let '(t, e) := take_event capacity (c_ep c) in (t, mkCtx e (c_next c) (c_native c)).
Lemma taking_ep capacity c : (taking capacity c).2 = mkCtx (take_event capacity (c_ep c)).2 (c_next c) (c_native c).
Proof. unfold taking. by destruct (take_event _ _). Qed.
Lemma taking_sound capacity : sound (taking capacity).
Proof.
  split; intros c; rewrite taking_ep; simpl; [|apply conserves_refl; [done|]|apply take_event_evolves].
  - intros [Hn Hg]. split; [split; [done|by apply take_event_good]|done].
  - intros r. apply take_held.
Qed.

(** ** The runtime's invariant *)
(** Calls to the library fall between its start and its end. *)
Definition alive_step (s : option bool) (n : Native) : option bool :=
  match n, s with
  | Init, Some false => Some true
  | Kill, Some true => Some false
  | Init, _ | Kill, _ => None
  | _, Some true => Some true
  | _, _ => None
  end.
Definition alive (l : list Native) : option bool := foldl alive_step (Some false) l.
Lemma alive_plain l k : alive l = Some true → Forall plain k → alive (l ++ k) = Some true.
Proof.
  unfold alive. rewrite foldl_app. intros ->. induction 1 as [|n k Hn _ IH]; [done|]. simpl. by destruct n.
Qed.
Lemma alive_snoc l n : alive (l ++ [n]) = alive_step (alive l) n.
Proof. unfold alive. by rewrite foldl_app. Qed.

Definition eid (k : Z) : Z := Z.lor 0x4700000000000000 k.
Record inv (r : Runtime) : Prop := {
  ri_peer : 1 ≤ next_peer r ≤ 2 ^ 56;
  ri_next : 1 ≤ next_endpoint r ≤ 2 ^ 56;
  ri_good id e : objects r !! id = Some e → good (next_peer r) e;
  ri_ids id e : objects r !! id = Some e → ∃ k, 1 ≤ k < next_endpoint r ∧ id = eid k;
  ri_registered id : id ∈ endpoints r → is_Some (objects r !! id);
  ri_gone id e : objects r !! id = Some e → id ∉ endpoints r → stopped_ e = true;
  ri_init : initialized r = true ↔ endpoints r ≠ ∅;
  ri_alive : alive (native r) = Some (initialized r);
  ri_ledger res : balance (native r) res = map_total (held res) (objects r);
}.
(** A step of the objects: the registry is left alone. *)
Record moved (r r' : Runtime) : Prop := {
  mv_inv : inv r';
  mv_endpoints : endpoints r' = endpoints r;
  mv_initialized : initialized r' = initialized r;
  mv_later id e : objects r !! id = Some e → ∃ e', objects r' !! id = Some e' ∧ evolves e e';
}.
Lemma moved_refl r : inv r → moved r r.
Proof. intros Hi. split; try done. intros id e He. exists e. split; [done|apply evolves_refl]. Qed.
Lemma moved_trans r r' r'' : moved r r' → moved r' r'' → moved r r''.
Proof.
  intros [H1 E1 I1 L1] [H2 E2 I2 L2]. split; [done|congruence|congruence|].
  intros id e (e' & He' & Hev)%L1. apply L2 in He' as (e'' & ? & ?). exists e''. split; [done|].
  by eapply evolves_trans.
Qed.
(** The library is called only on behalf of a registered endpoint, thus while it runs. *)
Lemma object_moved {A} id (default : A) f r : inv r → sound f →
  id ∈ endpoints r ∨ (∀ c, c_native (f c).2 = c_native c) → moved r (on_object id default f r).2.
Proof.
  intros Hi [Hg Hc Hev] Hcase. unfold on_object. destruct (objects r !! id) as [e|] eqn:He; [|by apply moved_refl].
  destruct Hi as [Hp Hn Hgood Hids Hreg Hgone Hinit Halive Hled].
  set (c := mkCtx e (next_peer r) (native r)). specialize (Hg c). specialize (Hc c). specialize (Hev c).
  destruct Hg as [[Hn' Hg'] Hle]; [split; [done|by eapply Hgood]|].
  assert (alive (c_native (f c).2) = Some (initialized r)) as Hal.
  { destruct Hcase as [Hin|Hq]; [|by rewrite Hq]. destruct Hc as [(l & -> & Hl) _].
    assert (initialized r = true) as Hit by (apply Hinit; intros E; rewrite E in Hin; set_solver).
    rewrite Hit in *. by apply alive_plain. }
  pose proof (cs_ledger _ _ Hc) as Hbal. destruct (f c) as [a c'] eqn:Hf. simpl in *.
  split; simpl; try done; [split; simpl; try done|].
  - intros id' e' [[<- <-]|[_ He']]%lookup_insert_Some; [done|]. eapply good_more; [by eapply Hgood|done].
  - intros id' e' [[<- <-]|[_ He']]%lookup_insert_Some; by eapply Hids.
  - intros id' Hin. destruct (decide (id = id')) as [<-|Hne].
    + rewrite lookup_insert_eq. by eexists.
    + rewrite lookup_insert_ne by done. by apply Hreg.
  - intros id' e' [[<- <-]|[_ He']]%lookup_insert_Some; [|by apply Hgone].
    intros Hnin. destruct (Hev (Hgone _ _ He Hnin)) as [? _]. done.
  - intros res. rewrite (map_total_update _ _ _ _ _ He). specialize (Hbal res). rewrite <- Hled. lia.
  - intros id' e' He'. destruct (decide (id = id')) as [<-|Hne].
    + rewrite lookup_insert_eq. simplify_eq. by eexists.
    + rewrite lookup_insert_ne by done. exists e'. split; [done|apply evolves_refl].
Qed.
Lemma update_moved id f r : inv r → sound (λ c, (tt, f c)) → id ∈ endpoints r → moved r (update_object id f r).
Proof. intros Hi Hf Hin. apply object_moved; [done|done|by left]. Qed.
Lemma with_endpoint_moved {A} id (d : A) f r : inv r → sound f → moved r (with_endpoint id d f r).2.
Proof.
  intros Hi Hf. unfold with_endpoint. case_decide; [|by apply moved_refl]. apply object_moved; [done|done|by left].
Qed.
Lemma take_moved id capacity r : inv r → moved r (take_object id capacity r).2.
Proof.
  intros Hi. apply (object_moved id _ (taking capacity)); [done|apply taking_sound|].
  right. intros c. by rewrite taking_ep.
Qed.

(** ** The pump *)
Lemma called_plain_moved r n m : inv r → initialized r = true → plain n → plain m →
  (∀ res, entry res n + entry res m = 0) → moved r (called m (called n r)).
Proof.
  intros Hi Hin Hn Hm Hz. split; try done; [|intros id e He; exists e; split; [done|apply evolves_refl]].
  destruct Hi as [Hp Hnx Hgood Hids Hreg Hgone Hinit Halive Hled]. split; simpl; try done.
  - rewrite <- app_assoc, Hin. apply alive_plain; [by rewrite Halive, Hin|by repeat constructor].
  - intros res. rewrite <- Hled. unfold balance. rewrite !total_app. simpl. specialize (Hz res). lia.
Qed.
Lemma status_moved change r : inv r → initialized r = true → moved r (status_changed r change).
Proof.
  intros Hi Hin. unfold status_changed. destruct (head _) as [id|] eqn:Hh.
  - apply update_moved; [done|apply on_status_sound|].
    apply head_Some_elem_of in Hh. apply list_elem_of_filter in Hh as [_ Hh]. by apply elem_of_elements.
  - destruct (ch_state change); try by apply moved_refl.
    apply called_plain_moved; try done. intros res. simpl. case_decide; lia.
Qed.
Lemma fold_moved {A} (f : Runtime → A → Runtime) (l : list A) (P : A → Prop) (r0 r : Runtime) :
  (∀ r x, moved r0 r → P x → moved r (f r x)) → moved r0 r → Forall P l → moved r0 (foldl f r l).
Proof.
  intros Hf Hr Hl. revert r Hr. induction Hl as [|x l Hx _ IH]; intros r Hr; [done|]. simpl.
  apply IH. eapply moved_trans; [done|by apply Hf].
Qed.
Lemma pump_moved changes receipts r : inv r → moved r (pump changes receipts r).
Proof.
  intros Hi. unfold pump. destruct (initialized r) eqn:Hin; cbn [negb]; [|by apply moved_refl].
  assert (moved r (foldl status_changed r changes)) as Hm.
  { apply (fold_moved _ _ (λ _, True)); [|by apply moved_refl|by apply Forall_true].
    intros r' x [Hi' _ Hin' _] _. apply status_moved; [done|congruence]. }
  apply (fold_moved _ _ (λ id, id ∈ endpoints r)); [|done|].
  - intros r' id [Hi' He' _ _] Hid. apply update_moved; [done|apply receive_sound|by rewrite He'].
  - apply Forall_forall. intros id. by rewrite elem_of_elements.
Qed.
Lemma poll_round_moved id capacity timeout_ms round r : inv r → moved r (poll_round id capacity timeout_ms round r).2.
Proof.
  intros Hi. unfold poll_round. pose proof (take_moved id capacity r Hi) as H1.
  destruct (take_object id capacity r) as [t r1]. simpl in H1. destruct (negb _); [done|].
  pose proof (pump_moved (rd_changes round) (rd_receipts round) r1 (mv_inv _ _ H1)) as H2.
  pose proof (take_moved id capacity _ (mv_inv _ _ H2)) as H3.
  destruct (take_object id capacity (pump _ _ r1)) as [t' r2]. simpl in H3.
  assert (moved r r2) by (eapply moved_trans; [done|by eapply moved_trans]).
  by repeat case_match.
Qed.
Lemma poll_moved id capacity timeout_ms round r : inv r → moved r (poll id capacity timeout_ms round r).2.
Proof. intros Hi. unfold poll. case_decide; [by apply poll_round_moved|by apply moved_refl]. Qed.

(** ** Registration *)
Definition later (r r' : Runtime) : Prop :=
  ∀ id e, objects r !! id = Some e → ∃ e', objects r' !! id = Some e' ∧ evolves e e'.
Lemma later_same r r' : objects r' = objects r → later r r'.
Proof. intros E id e He. exists e. rewrite E. split; [done|apply evolves_refl]. Qed.
Lemma eid_add k : 0 ≤ k < 2 ^ 56 → eid k = 0x4700000000000000 + k.
Proof.
  intros Hk. unfold eid. rewrite Z.lor_comm. change 0x4700000000000000 with (Z.shiftl 71 56).
  rewrite lor_shift_add by lia. rewrite Z.shiftl_mul_pow2 by lia. lia.
Qed.

Lemma init_inv ok r r' : inv r → init ok r = Some r' →
  objects r' = objects r ∧ endpoints r' = endpoints r ∧ next_endpoint r' = next_endpoint r ∧
  next_peer r' = next_peer r ∧ initialized r' = true ∧ alive (native r') = Some true ∧
  (∀ res, balance (native r') res = map_total (held res) (objects r)).
Proof.
  intros Hi. unfold init. pose proof (ri_alive _ Hi) as Ha. pose proof (ri_ledger _ Hi) as Hl.
  destruct (initialized r) eqn:Hin.
  - intros [= <-]. by rewrite Ha.
  - destruct ok; [|done]. intros [= <-]. simpl. rewrite alive_snoc, Ha. split_and!; try done.
    intros res. unfold balance in *. by rewrite total_app, Hl, Z.add_0_r.
Qed.
(** The library is stopped again when nothing is registered. *)
Lemma release_inv r : 1 ≤ next_peer r ≤ 2 ^ 56 → 1 ≤ next_endpoint r ≤ 2 ^ 56 →
  (∀ id e, objects r !! id = Some e → good (next_peer r) e) →
  (∀ id e, objects r !! id = Some e → ∃ k, 1 ≤ k < next_endpoint r ∧ id = eid k) →
  (∀ id, id ∈ endpoints r → is_Some (objects r !! id)) →
  (∀ id e, objects r !! id = Some e → id ∉ endpoints r → stopped_ e = true) →
  initialized r = true → alive (native r) = Some true →
  (∀ res, balance (native r) res = map_total (held res) (objects r)) → inv (release_if_empty r).
Proof.
  intros Hp Hn Hgood Hids Hreg Hgone Hin Ha Hled. unfold release_if_empty. rewrite Hin. simpl.
  case_bool_decide as He; split; simpl; try done; try congruence.
  - by rewrite alive_snoc, Ha.
  - intros res. unfold balance in *. by rewrite total_app, Hled, Z.add_0_r.
Qed.
Lemma held_new res id o g : (g =? 0) = false → held res (new_endpoint id o g) = if decide (res = RGroup g) then 1 else 0.
Proof.
  intros Hg. destruct res as [h|l|g']; [done..|]. unfold held, new_endpoint, group_. rewrite Hg. cbn [negb andb].
  destruct (decide _) as [[= ->]|Hne]; [by rewrite Z.eqb_refl|]. by rewrite (proj2 (Z.eqb_neq g' g)) by congruence.
Qed.
Lemma create_step o made r : inv r → sound_options o →
  inv (create o made r).2 ∧ later r (create o made r).2.
Proof.
  intros Hi Ho. unfold create. pose proof (later_same r r eq_refl) as Hlr.
  destruct (_ <=? _); [done|]. destruct (_ <? next_endpoint r) eqn:Hb; [done|]. bprop.
  destruct (init (cr_init made) r) as [r1|] eqn:Hinit; [|done].
  destruct (init_inv _ _ _ Hi Hinit) as (E1 & E2 & E3 & E4 & Hin & Ha & Hled). clear Hinit.
  destruct Hi as [Hp Hn Hgood Hids Hreg Hgone _ _ _].
  rewrite E3, u64_small by (unfold is_u64; lia).
  set (id := Z.lor _ (next_endpoint r)).
  assert (∀ id' e, objects r !! id' = Some e → ∃ k, 1 ≤ k < next_endpoint r + 1 ∧ id' = eid k) as Hids'.
  { intros id' e (k & ? & ->)%Hids. exists k. split; [lia|done]. }
  destruct (_ =? 0) eqn:Hz; simpl.
  { split; [apply release_inv; simpl; rewrite ?E1, ?E2, ?E4; try done; lia|].
    apply later_same. unfold release_if_empty. simpl. by case_match. }
  destruct (cr_memory made); simpl.
  2: { split.
    - apply release_inv; simpl; rewrite ?E1, ?E2, ?E4; try done; try lia.
      + rewrite <- app_assoc. apply alive_plain; [done|by repeat constructor].
      + intros res. rewrite <- Hled. unfold balance. rewrite !total_app. simpl. case_decide; lia.
    - apply later_same. unfold release_if_empty. simpl. by case_match. }
  assert (objects r !! id = None) as Hnew.
  { apply eq_None_not_Some. intros [e (k & Hk & E)%Hids]. unfold id in E. fold (eid (next_endpoint r)) in E.
    rewrite !eid_add in E by lia. lia. }
  split.
  - split; simpl; rewrite ?E1, ?E2, ?E4; try done; try lia.
    + intros id' e [[<- <-]|[_ He]]%lookup_insert_Some; [|by eapply Hgood].
      split; simpl; try done. destruct Ho. unfold sizeof_datagram_event in *.
      split; simpl; rewrite ?msize_empty, ?zlen_nil; lia.
    + intros id' e [[<- <-]|[_ He]]%lookup_insert_Some; [|by eapply Hids'].
      exists (next_endpoint r). split; [lia|done].
    + intros id' [Hid%elem_of_singleton|Hid]%elem_of_union.
      * subst. rewrite lookup_insert_eq. by eexists.
      * apply lookup_insert_is_Some'. by right; apply Hreg.
    + intros id' e [[<- <-]|[_ He]]%lookup_insert_Some Hnin; [set_solver|]. apply (Hgone _ _ He). set_solver.
    + rewrite Hin. split; [intros _; set_solver|done].
    + rewrite Hin. by apply alive_plain; [|repeat constructor].
    + intros res. rewrite map_total_insert by done. rewrite <- Hled. unfold balance. rewrite total_app, (held_new _ _ _ _ Hz). simpl. lia.
  - intros id' e He. simpl. rewrite E1. exists e. split; [|apply evolves_refl].
    rewrite lookup_insert_ne; [done|]. intros E. by rewrite <- E, Hnew in He.
Qed.
Lemma destroy_step id r : inv r → inv (destroy id r).2 ∧ later r (destroy id r).2.
Proof.
  intros Hi. unfold destroy. destruct (decide _) as [Hid|]; [|split; [done|by apply later_same]]. simpl.
  destruct (ri_registered _ Hi _ Hid) as [e He].
  destruct (update_moved id shutdown r Hi shutdown_sound Hid) as [Hi1 E1 I1 Hl1].
  assert (initialized r = true) as Hin by (apply (ri_init _ Hi); set_solver).
  assert (∃ e', objects (update_object id shutdown r) !! id = Some e' ∧ stopped_ e' = true) as (e1 & He1 & Hs1).
  { unfold update_object, on_object. rewrite He. simpl. rewrite lookup_insert_eq. by eexists. }
  destruct Hi1 as [Hp Hn Hgood Hids Hreg Hgone Hinit Ha Hled]. split.
  - apply release_inv; simpl; try done; try congruence.
    + intros id' Hin'. apply Hreg. set_solver.
    + intros id' e' He' Hnin. destruct (decide (id' = id)) as [->|Hne]; [congruence|].
      apply (Hgone _ _ He'). set_solver.
  - intros id' e' He'. destruct (Hl1 _ _ He') as (e2 & He2 & ?). exists e2. split; [|done].
    unfold release_if_empty. simpl. by case_match.
Qed.

(** ** Every step *)
Definition c_action (a : Action) : Prop :=
  match a with Create (Some o) _ => c_options o | _ => True end.
Section Steps.
Context {Addr : Type} `{Addresses Addr} (supported : bool).
Ltac entry_moved L := destruct supported; [|by apply moved_refl]; pose proof L; by destruct (with_endpoint _ _ _ _).
Lemma listen_call_moved id ad port made r : inv r → moved r (se_datagram_listen supported id ad port made r).2.
Proof. intros Hi. unfold se_datagram_listen. entry_moved (with_endpoint_moved id SE_INVALID_HANDLE _ r Hi (listen_sound ad port made)). Qed.
Lemma connect_call_moved id ad port made r : inv r → moved r (se_datagram_connect supported id ad port true made r).2.
Proof.
  intros Hi. unfold se_datagram_connect. cbn [negb].
  entry_moved (with_endpoint_moved id (Ok (SE_INVALID_HANDLE, 0)) _ r Hi (connect_sound ad port made)).
Qed.
Lemma send_call_moved id p d data size ans r : inv r → moved r (se_datagram_send supported id p d data size ans r).2.
Proof.
  intros Hi. unfold se_datagram_send. destruct (_ || _); [by apply moved_refl|].
  entry_moved (with_endpoint_moved id SE_INVALID_HANDLE _ r Hi (send_sound p d (take (Z.to_nat size) (default [] data)) ans)).
Qed.
Lemma poll_call_moved id ev payload cap t rd r : inv r → moved r (se_datagram_poll supported id ev payload cap t rd r).2.
Proof.
  intros Hi. unfold se_datagram_poll. destruct (_ || _); [by apply moved_refl|]. destruct supported; [|by apply moved_refl].
  pose proof (poll_moved id cap t rd r Hi). by destruct (poll _ _ _ _ _).
Qed.
Lemma disconnect_call_moved id p m r : inv r → moved r (se_datagram_disconnect supported id p m r).2.
Proof. intros Hi. unfold se_datagram_disconnect. entry_moved (with_endpoint_moved id SE_INVALID_HANDLE _ r Hi (disconnect_sound p m)). Qed.
(** Steps that neither register nor unregister an endpoint. *)
Definition plain_action (a : Action) : bool := match a with Create _ _ | Destroy _ => false | _ => true end.
Lemma plain_moved r a : inv r → plain_action a = true → moved r (step supported r a).
Proof.
  intros Hi Ha. destruct a; try done; cbn [step];
    auto using listen_call_moved, connect_call_moved, send_call_moved, poll_call_moved, disconnect_call_moved, poll_round_moved.
Qed.
Lemma step_keeps r a : inv r → c_action a → inv (step supported r a) ∧ later r (step supported r a).
Proof.
  intros Hi Ha. assert (inv r ∧ later r r) as Hsame by (split; [done|by apply later_same]).
  destruct (plain_action a) eqn:Hp.
  { destruct (plain_moved r a Hi Hp) as [? _ _ ?]. by split. }
  destruct a as [[o|] made| | | | | | |id]; try done; cbn [step].
  - unfold se_datagram_create. cbn [negb orb].
    destruct (valid_options (Some o)) eqn:Ev; cbn [negb]; [|done]. destruct supported; [|done].
    pose proof (create_step o made r Hi (valid_options_sound _ Ha Ev)) as Hc. by destruct (create o made r).
  - unfold se_datagram_destroy. destruct supported; [|done]. pose proof (destroy_step id r Hi). by destruct (destroy id r).
Qed.
Lemma new_inv_runtime : inv new_runtime.
Proof. by split; simpl; try done; try (by intros ? ? ?%lookup_empty_Some); try (by intros ? ?%not_elem_of_empty). Qed.
Lemma runs_keep actions : ∀ r, inv r → Forall c_action actions →
  inv (runs (step supported) r actions) ∧ later r (runs (step supported) r actions).
Proof.
  induction actions as [|a actions IH]; intros r Hi Hf; [by split; [|apply later_same]|].
  apply Forall_cons in Hf as [Ha Hf]. destruct (step_keeps r a Hi Ha) as [Hi' Hl].
  destruct (IH _ Hi' Hf) as [Hi'' Hl']. split; [done|].
  intros id e (e' & He' & Hev)%Hl. apply Hl' in He' as (e'' & ? & ?). exists e''. split; [done|].
  by eapply evolves_trans.
Qed.
Definition run (actions : list Action) : Runtime := runs (step supported) new_runtime actions.
Lemma run_inv_runtime actions : Forall c_action actions → inv (run actions).
Proof. intros Hf. apply (runs_keep actions); [apply new_inv_runtime|done]. Qed.

(** C17: The events of a datagram peer tell its life: nothing, then at most one CONNECTED,
    then messages only while connected, and a DISCONNECTED after which there is nothing;
    a live peer's record and its events agree, and no two live peers of an endpoint
    share an identifier. This holds of what was delivered together with what is queued,
    through every poll, callback and overflow. *)
Theorem datagram_peer_protocol actions id e : Forall c_action actions → objects (run actions) !! id = Some e →
  (∀ peer, is_Some (life e peer)) ∧
  (∀ h p, peers_ e !! h = Some p → life e (peer_id p) = Some (if connected p then Up else New)) ∧
  (∀ h h' p p', peers_ e !! h = Some p → peers_ e !! h' = Some p' → peer_id p = peer_id p' → h = h').
Proof.
  intros Hf He. pose proof (ri_good _ (run_inv_runtime _ Hf) _ _ He) as Hg. split_and!.
  - apply (b_life _ _ (g_base _ _ Hg)).
  - intros h p Hp. apply (g_live _ _ Hg _ _ Hp).
  - apply (g_distinct _ _ Hg).
Qed.

(** C19: The memory of a datagram endpoint is bounded and exactly accounted: the bytes it
    counts are those of the queued events, they and their number stay within the
    options' limits, as do the peers, and the options are within the engine's. *)
Theorem datagram_queue_bounded actions id e : Forall c_action actions → objects (run actions) !! id = Some e →
  event_bytes_ e = total cost (events_ e) ∧
  event_bytes_ e ≤ do_max_event_queue_bytes (options_ e) ≤ 256 * 1024 * 1024 ∧
  zlen (events_ e) ≤ do_max_event_queue_count (options_ e) ≤ 65536 ∧
  msize (peers_ e) ≤ do_max_peers (options_ e) ≤ 1024.
Proof.
  intros Hf He. pose proof (ri_good _ (run_inv_runtime _ Hf) _ _ He) as Hg.
  destruct (g_accounted _ _ Hg). destruct (b_options _ _ (g_base _ _ Hg)). lia.
Qed.

(** Whether a step of the C interface hands out the OVERFLOW event of an endpoint: a poll,
    or one that was waiting. *)
Definition is_overflow (event : option se_datagram_event) : bool :=
  match event with Some event => de_kind event =? SE_DATAGRAM_OVERFLOW | None => false end.
Definition reports_overflow (id : Z) r (a : Action) : bool :=
  match a with
  | Poll id' capacity timeout_ms round =>
      (id' =? id) && match (se_datagram_poll supported id' (Some (sizeof_datagram_event, SE_DATAGRAM_ABI_VERSION)) true
                              capacity timeout_ms round r).1 with
                     | Some (_, _, event, _) => is_overflow event | None => false end
  | Resume id' capacity timeout_ms round =>
      (id' =? id) && match (poll_round id' capacity timeout_ms round r).1 with
                     | Some (_, event, _) => is_overflow event | None => false end
  | _ => false
  end.
Fixpoint overflows (id : Z) r (actions : list Action) : Z :=
  match actions with
  | [] => 0
  | a :: actions => Z.b2z (reports_overflow id r a) + overflows id (step supported r a) actions
  end.
(** An overflow that no poll has told of yet. *)
Definition unreported (e : Endpoint) : bool := overflow_ e && negb (overflow_reported_ e).
Lemma stopped_take capacity e : stopped_ e = true → take_event capacity e =
  if unreported e then (SE_OK, Some (mkDatagramEvent sizeof_datagram_event SE_DATAGRAM_ABI_VERSION SE_DATAGRAM_OVERFLOW
    0 0 0 0 [] [0; 0; 0; 0]), [], with_reported e) else (SE_STOPPED, None, [], e).
Proof. intros Hs. unfold take_event, unreported. by rewrite Hs. Qed.
Lemma stopped_round id capacity timeout_ms round r e : objects r !! id = Some e → stopped_ e = true →
  ∃ t, (poll_round id capacity timeout_ms round r).1 = Some t ∧ is_overflow t.1.2 = unreported e ∧
    objects (poll_round id capacity timeout_ms round r).2 !! id = Some (if unreported e then with_reported e else e).
Proof.
  intros He Hs. unfold poll_round, take_object, on_object. rewrite He. cbn [c_ep c_next c_native]. rewrite stopped_take by done.
  destruct (unreported e); rewrite bool_decide_eq_false_2 by done; cbn [negb fst snd objects c_ep]; rewrite lookup_insert_eq; eauto.
Qed.
Lemma report_step id r a e e' : inv r → c_action a → objects r !! id = Some e → stopped_ e = true →
  objects (step supported r a) !! id = Some e' →
  Z.b2z (reports_overflow id r a) ≤ Z.b2z (unreported e) - Z.b2z (unreported e').
Proof.
  intros Hi Ha He Hs He'. assert (Z.b2z (unreported e') ≤ Z.b2z (unreported e)) as Hle.
  { destruct (step_keeps r a Hi Ha) as [_ Hl]. destruct (Hl _ _ He) as (e1 & He1 & Hev). rewrite He' in He1. injection He1 as <-.
    destruct (Hev Hs) as (_ & _ & Ho & Hr). unfold unreported. rewrite Ho.
    destruct (overflow_ e), (overflow_reported_ e), (overflow_reported_ e'); simpl; lia || by discriminate Hr. }
  assert (reports_overflow id r a = true → unreported e = true ∧ unreported e' = false) as Hrep.
  2: { destruct (reports_overflow id r a); simpl in *; [destruct Hrep as [-> ->]; simpl; lia|lia]. }
  assert (∀ capacity timeout_ms round, is_overflow (default (SE_OK, None, []) (poll_round id capacity timeout_ms round r).1).1.2 = true →
    objects (poll_round id capacity timeout_ms round r).2 !! id = Some e' → unreported e = true ∧ unreported e' = false) as Hround.
  { intros capacity timeout_ms round Ht Ho. destruct (stopped_round id capacity timeout_ms round r e He Hs) as (t & Et & Hov & Hobj).
    rewrite Et in Ht. simpl in Ht. rewrite Hov in Ht. rewrite Ht, Ho in Hobj. injection Hobj as ->. split; [done|].
    unfold unreported. simpl. apply andb_false_r. }
  destruct a; try done; cbn [reports_overflow step] in *; intros [Hid Hrep]%andb_true_iff; apply Z.eqb_eq in Hid as ->.
  - unfold se_datagram_poll in *. rewrite (bool_decide_eq_true_2 (Some _ = Some _)) in Hrep, He' by done.
    cbn [negb andb orb] in Hrep, He'. destruct supported; [|done]. unfold GnsRuntime.poll in *.
    destruct (decide _) as [Hin|]; [|done]. pose proof (Hround capacity timeout_ms round) as Hg.
    destruct (poll_round id capacity timeout_ms round r) as [[[[st ev] bs]|] r']; [|done]. cbn in *. apply Hg; [|done]. destruct (if status_code st <? 0 then _ else _); destruct ev; [exact Hrep|discriminate Hrep].
  - pose proof (Hround capacity timeout_ms round) as Hg.
    destruct (poll_round id capacity timeout_ms round r) as [[[[st ev] bs]|] r']; [|done]. by apply Hg.
Qed.
Lemma overflows_once id more : ∀ r e, inv r → Forall c_action more → objects r !! id = Some e → stopped_ e = true →
  ∃ e', objects (runs (step supported) r more) !! id = Some e' ∧
    overflows id r more ≤ Z.b2z (unreported e) - Z.b2z (unreported e').
Proof.
  induction more as [|a more IH]; intros r e Hi Hm He Hs; [exists e; split; [done|simpl; lia]|].
  apply Forall_cons in Hm as [Ha Hm]. destruct (step_keeps r a Hi Ha) as [Hi' Hl]. destruct (Hl _ _ He) as (e1 & He1 & Hev).
  destruct (IH _ _ Hi' Hm He1 (proj1 (Hev Hs))) as (e' & He' & Hle). exists e'. split; [done|]. simpl.
  pose proof (report_step _ _ _ _ _ Hi Ha He Hs He1). lia.
Qed.
(** C20: A stopped datagram endpoint stays stopped: whatever is called afterwards, nothing
    is queued or delivered and nothing is held. A poll then answers SE_STOPPED with no
    event; only if the endpoint stopped by an overflow not reported yet does it answer
    SE_OK with the OVERFLOW event and no bytes, and that poll marks the overflow reported,
    so that the next one answers SE_STOPPED. Over the whole later history the polls of the C
    interface, those that were waiting included, hand out the OVERFLOW event at most once,
    and never when it had been reported before. *)
Theorem datagram_stop_terminal actions more id e :
  Forall c_action actions → Forall c_action more → objects (run actions) !! id = Some e → stopped_ e = true →
  ∃ e', objects (run (actions ++ more)) !! id = Some e' ∧ stopped_ e' = true ∧
    delivered e' = delivered e ∧ events_ e' = [] ∧ holdings e' = [] ∧
    (overflow_ e = true → overflow_reported_ e = true → overflow_reported_ e' = true) ∧
    (∀ capacity,
      if overflow_ e && negb (overflow_reported_ e')
      then ∃ event e'', take_event capacity e' = (SE_OK, Some event, [], e'') ∧
        de_kind event = SE_DATAGRAM_OVERFLOW ∧ overflow_reported_ e'' = true ∧
        ∀ capacity', take_event capacity' e'' = (SE_STOPPED, None, [], e'')
      else take_event capacity e' = (SE_STOPPED, None, [], e')) ∧
    overflows id (run actions) more ≤ Z.b2z (unreported e) - Z.b2z (unreported e').
Proof.
  intros Hf Hm He Hs. destruct (runs_keep more _ (run_inv_runtime _ Hf) Hm) as [Hi Hl].
  destruct (overflows_once id more _ _ (run_inv_runtime _ Hf) Hm He Hs) as (e1 & He1 & Hover).
  unfold run in *. rewrite runs_app. destruct (Hl _ _ He) as (e' & He' & Hev).
  rewrite He' in He1. injection He1 as <-. destruct (Hev Hs) as (Hs' & Hd & Ho & Hr). exists e'.
  destruct (g_stopped _ _ (ri_good _ Hi _ _ He') Hs') as [Hq Hh]. split_and!; try done.
  intros capacity. rewrite <- Ho. fold (unreported e'). rewrite stopped_take by done. destruct (unreported e'); [|done].
  eexists _, _. split_and!; [reflexivity|reflexivity|reflexivity|]. intros capacity'. rewrite stopped_take by done.
  unfold unreported. simpl. by rewrite andb_false_r.
Qed.

(** With nothing registered, nothing of the library is held. *)
Lemma all_released r res : inv r → endpoints r = ∅ → balance (native r) res = 0.
Proof.
  intros Hi He. rewrite (ri_ledger _ Hi).
  assert (∀ id e, objects r !! id = Some e → held res e = 0) as Hz.
  { intros id e Ho. apply held_none. apply (g_stopped _ _ (ri_good _ Hi _ _ Ho)).
    apply (ri_gone _ Hi _ _ Ho). rewrite He. set_solver. }
  clear -Hz. induction (objects r) as [|id e m Hm IH] using map_ind; [apply map_total_empty|].
  rewrite map_total_insert by done. rewrite (Hz id e) by apply lookup_insert_eq.
  rewrite IH; [done|]. intros id' e' He'. apply (Hz id'). rewrite lookup_insert_ne; [done|]. congruence.
Qed.
(** C18: Nothing of the vendor library leaks or is given back twice: of every connection,
    listen socket and poll group, the times it was handed out less the times it was
    closed are the endpoints that hold it, none once every endpoint is destroyed; and
    the library is called only between its start and its end, which comes with the last
    endpoint's destruction. *)
Theorem datagram_native_released actions : Forall c_action actions →
  let r := run actions in
  (∀ res, balance (native r) res = map_total (held res) (objects r)) ∧
  (endpoints r = ∅ → ∀ res, balance (native r) res = 0) ∧
  alive (native r) = Some (initialized r) ∧ (initialized r = true ↔ endpoints r ≠ ∅).
Proof.
  intros Hf r. pose proof (run_inv_runtime _ Hf) as Hi. fold r in Hi. split_and!; try apply Hi.
  intros He res. by apply all_released.
Qed.
End Steps.

(** * Witnesses: a client that connects, sends twice and leaves. *)
Module Duel.
Definition options : se_datagram_options :=
  mkDatagramOptions sizeof_datagram_options SE_DATAGRAM_ABI_VERSION 0 2 64 4096 3 1000 1000 [0; 0; 0; 0].
#[global] Instance addresses : Addresses bool := {|
  parse_string t := if bool_decide (t = txt "127.0.0.1") then Some (true, 0) else None;
  is_local_host a := a;
|}.
Definition config : list (option Z) := Some <$> native_config options.
Definition made (h : Z) : Made := mkMade h config true true.
Definition id : Z := eid 1.
Definition peer : Z := pid 1.
Definition change (state : ConnState) : Change := mkChange 7 5 state true false 1000 config true true true true.
Definition round (changes : list Change) (messages : list bytes) : Round :=
  mkRound changes (λ i, if i =? id then (λ m, Received 7 (Some m) true true) <$> messages else []) true.
Definition poll (capacity : Z) (r : Round) : Action := Poll id capacity 0 r.
Definition quiet : Round := round [] [].
Definition opening : list Action :=
  [Create (Some options) (mkCreated true 3 true []); Listen id (Some (txt "127.0.0.1")) 9000 (made 5)].
Definition playing : list Action :=
  opening ++ [poll 0 (round [change Connecting; change Connected] [txt "go"]); poll 8 quiet].
Definition leaving : list Action := [poll 8 (round [change ClosedByPeer] []); poll 8 quiet].
Definition flood : list Action := [poll 8 (round [] [txt "a"; txt "b"; txt "c"; txt "d"])].
Definition creates (a : Action) : bool := match a with Create _ _ => true | _ => false end.
Lemma actions_ok l : existsb creates l = false → Forall c_action (playing ++ l).
Proof.
  intros Hl. unfold playing, opening. rewrite <- !app_assoc. apply Forall_cons. split.
  { split; unfold is_u32, is_u64; simpl; lia. }
  apply Forall_cons. split; [done|]. apply Forall_cons. split; [done|]. apply Forall_cons. split; [done|].
  simpl. induction l as [|a l IH]; [done|]. simpl in Hl. apply orb_false_iff in Hl as [Ha Hl].
  apply Forall_cons. split; [by destruct a|auto].
Qed.
End Duel.

Lemma datagram_peer_protocol_witness :
  ∃ e, objects (run true (Duel.playing ++ Duel.leaving)) !! Duel.id = Some e ∧
    kinds e Duel.peer = [SE_DATAGRAM_CONNECTED; SE_DATAGRAM_MESSAGE; SE_DATAGRAM_DISCONNECTED] ∧
    is_Some (life e Duel.peer).
Proof.
  assert ((λ e, kinds e Duel.peer) <$> objects (run true (Duel.playing ++ Duel.leaving)) !! Duel.id
    = Some [1; 2; 3]) as H by (vm_compute; reflexivity).
  apply fmap_Some in H as (e & He & Hk). exists e. split; [exact He|]. split; [symmetry; exact Hk|].
  assert (Forall c_action (Duel.playing ++ Duel.leaving)) as Hf by (apply Duel.actions_ok; reflexivity).
  destruct (datagram_peer_protocol true _ _ _ Hf He) as [Hl _]. apply Hl.
Defined.

Lemma datagram_queue_bounded_witness :
  ∃ e, objects (run true (Duel.playing ++ Duel.leaving)) !! Duel.id = Some e ∧
    event_bytes_ e = total cost (events_ e) ∧ zlen (delivered e) = 3.
Proof.
  assert ((λ e, zlen (delivered e)) <$> objects (run true (Duel.playing ++ Duel.leaving)) !! Duel.id
    = Some 3) as H by (vm_compute; reflexivity).
  apply fmap_Some in H as (e & He & Hk). exists e. split; [exact He|].
  assert (Forall c_action (Duel.playing ++ Duel.leaving)) as Hf by (apply Duel.actions_ok; reflexivity).
  destruct (datagram_queue_bounded true _ _ _ Hf He) as [Hb _]. split; [exact Hb|symmetry; exact Hk].
Defined.

(** Four messages at once do not fit three events: the poll that finds out reports it, and
    it alone. *)
Lemma datagram_stop_terminal_witness :
  ∃ e e', objects (run true (Duel.playing ++ Duel.flood)) !! Duel.id = Some e ∧ overflow_reported_ e = true ∧
    objects (run true ((Duel.playing ++ Duel.flood) ++ [Duel.poll 8 Duel.quiet])) !! Duel.id = Some e' ∧
    delivered e' = delivered e ∧ zlen (delivered e) = 2 ∧ take_event 8 e' = (SE_STOPPED, None, [], e') ∧
    overflows true Duel.id (run true Duel.playing) Duel.flood = 1 ∧
    overflows true Duel.id (run true (Duel.playing ++ Duel.flood)) [Duel.poll 8 Duel.quiet] ≤ 0.
Proof.
  assert ((λ e, (stopped_ e, overflow_ e, overflow_reported_ e, zlen (delivered e)))
    <$> objects (run true (Duel.playing ++ Duel.flood)) !! Duel.id
    = Some (true, true, true, 2)) as H by (vm_compute; reflexivity).
  apply fmap_Some in H as (e & He & Hk). injection Hk as Hs Ho Hr Hz. symmetry in Hs, Ho, Hr, Hz.
  assert (Forall c_action (Duel.playing ++ Duel.flood)) as Hf by (apply Duel.actions_ok; reflexivity).
  assert (Forall c_action [Duel.poll 8 Duel.quiet]) as Hm by (repeat constructor).
  destruct (datagram_stop_terminal true _ _ _ _ Hf Hm He Hs) as (e' & He' & _ & Hd & _ & _ & Hr' & Ht & Hc).
  exists e, e'. split; [exact He|]. split; [exact Hr|]. split; [exact He'|]. split; [exact Hd|]. split; [exact Hz|].
  specialize (Ht 8). rewrite (Hr' Ho Hr), Ho in Ht. split; [exact Ht|]. split; [vm_compute; reflexivity|].
  unfold unreported in Hc. rewrite Ho, Hr, (Hr' Ho Hr), !andb_false_r in Hc. exact Hc.
Defined.

Lemma datagram_native_released_witness :
  let r := run true (Duel.playing ++ Duel.leaving ++ [Destroy Duel.id]) in
  native r = [Init; Open (RGroup 3); Open (RListen 5); Open (RConn 7); Accept 7; Close (RConn 7);
    Close (RListen 5); Close (RGroup 3); Kill] ∧ ∀ res, balance (native r) res = 0.
Proof.
  split; [vm_compute; reflexivity|].
  assert (Forall c_action (Duel.playing ++ Duel.leaving ++ [Destroy Duel.id])) as Hf
    by (apply Duel.actions_ok; reflexivity).
  destruct (datagram_native_released true _ Hf) as (_ & Hz & _). apply Hz. vm_compute. reflexivity.
Defined.
