(* ===== verification/GnsKept.v ===== *)
(** GnsKept: facts about an endpoint's queue that no operation but taking an event can
    break, through every layer of the datagram transport. *)
From S2P Require Import Prelude.
From S2P Require Import Text.
From S2P Require Import NetTypes.
From S2P Require Import Abi.
From S2P Require Import GnsOptions.
From S2P Require Import GnsEndpoint.
From S2P Require Import GnsRuntime.
From S2P Require Import GnsProperties.

(** A queued record carries its header and the size of its bytes. *)
Definition ev_ok (q : QueuedEvent) : Prop :=
  de_struct_size (metadata q) = sizeof_datagram_event ∧ de_abi_version (metadata q) = SE_DATAGRAM_ABI_VERSION ∧
  de_payload_size (metadata q) = u32 (zlen (q_bytes q)).
(** A fact that stands when the queue, its history and the stop stand, when an event is
    appended, and when the endpoint is stopped. *)
Class Kept (P : Endpoint → Prop) : Prop := {
  k_same e e' : delivered e' = delivered e → events_ e' = events_ e → stopped_ e' = stopped_ e → P e → P e';
  k_push e e' q : ev_ok q → stopped_ e = false → delivered e' = delivered e → events_ e' = events_ e ++ [q] →
    stopped_ e' = false → P e → P e';
  k_stop e e' : delivered e' = delivered e → events_ e' = [] → stopped_ e' = true → P e → P e';
}.

(** ** Every operation of an endpoint *)
(** Steps that take an event from an endpoint. *)
Definition aims (id : Z) (a : Action) : bool :=
  match a with Poll id' _ _ _ | Resume id' _ _ _ => id' =? id | _ => false end.
(** Steps of other threads that leave the registry alone and do not poll an endpoint. *)
Definition calm (id : Z) (a : Action) : Prop := plain_action a = true ∧ aims id a = false.

Section Kept.
Context (P : Endpoint → Prop) `{!Kept P}.
Definition keeps (f : Ctx → Ctx) : Prop := ∀ c, P (c_ep c) → P (c_ep (f c)).
Ltac same := eapply (k_same (P := P)); [..|eassumption]; done.
Lemma shutdown_kept : keeps shutdown.
Proof. intros c Hc. by apply (k_stop (c_ep c)). Qed.
Lemma overflow_kept : keeps overflow.
Proof. intros c Hc. by apply (k_stop (c_ep c)). Qed.
Lemma push_kept kind delivery id reason message data memory : keeps (push (peer_event kind delivery id reason message) data memory).
Proof.
  intros c Hc. unfold push. destruct (stopped_ (c_ep c)) eqn:Hs; [done|]. destruct (_ || _); [by apply overflow_kept|].
  destruct memory; [|by apply overflow_kept].
  eapply (k_push (P := P) (c_ep c)); [|exact Hs|done|reflexivity|exact Hs|exact Hc]. by split_and!.
Qed.
Lemma drop_kept native reason message memory : keeps (drop_peer native reason message memory).
Proof. intros c Hc. unfold drop_peer. destruct (_ !! _); [|done]. apply push_kept. same. Qed.
Lemma next_kept c id c' : next_peer_id c = Some (id, c') → c_ep c' = c_ep c.
Proof. unfold next_peer_id. case_match; [done|]. by intros [= <- <-]. Qed.
Lemma admit_kept change : keeps (admit_incoming change).
Proof.
  intros c Hc. unfold admit_incoming. destruct (_ || _ || _); [done|]. destruct (_ || _); [done|].
  destruct (next_peer_id _) as [[id c']|] eqn:Hn; [|by apply overflow_kept]. apply next_kept in Hn. simpl in Hn.
  destruct (ch_memory change); [|apply overflow_kept; simpl; by rewrite Hn].
  destruct (ch_accept change); [simpl; rewrite Hn; same|]. apply drop_kept. simpl. rewrite Hn. same.
Qed.
Lemma on_status_kept change : keeps (on_status change).
Proof.
  intros c Hc. unfold on_status, on_connected.
  repeat case_match; try done; try (by apply drop_kept); try (by apply admit_kept). apply push_kept. same.
Qed.
Lemma receive_kept budget : ∀ answers, keeps (receive budget answers).
Proof.
  induction budget as [|budget IH]; intros [|answer answers] c Hc; simpl; try done.
  destruct (stopped_ (c_ep c)); [done|]. destruct answer; [by apply overflow_kept|]. apply IH. unfold receive_one.
  repeat case_match; try done; try (by apply drop_kept); by apply push_kept.
Qed.
Lemma disconnect_kept id memory : keeps (λ c, (disconnect id memory c).2).
Proof. intros c Hc. unfold disconnect. repeat case_match; try done. by apply drop_kept. Qed.
Lemma send_kept peer delivery data answer : keeps (λ c, (send peer delivery data answer c).2).
Proof. intros c Hc. unfold send. by repeat case_match. Qed.
Section Addresses.
Context {Addr : Type} `{Addresses Addr}.
Lemma listen_kept address port made : keeps (λ c, (listen address port made c).2).
Proof. intros c Hc. unfold listen. repeat case_match; try done. same. Qed.
Lemma connect_kept address port made : keeps (λ c, (connect address port made c).2).
Proof.
  intros c Hc. unfold connect. destruct (stopped_ _); [done|]. destruct (parse_address _ _ _); [|done].
  destruct (_ <=? _); [done|]. destruct (_ =? 0); [done|]. destruct (_ || _); [done|].
  destruct (next_peer_id _) as [[id c']|] eqn:Hn; [|done]. apply next_kept in Hn. simpl in Hn.
  destruct (m_memory made); [|simpl; by rewrite Hn]. destruct (_ !! _); simpl; rewrite Hn; [done|]. same.
Qed.
End Addresses.

(** ** Every step of the library *)
Definition kept_at (id : Z) (r : Runtime) : Prop := ∀ e, objects r !! id = Some e → P e.
Lemma on_object_kept {A} id id' (d : A) f r : (id' = id → keeps (λ c, (f c).2)) → kept_at id r →
  kept_at id (on_object id' d f r).2.
Proof.
  intros Hf Hr. unfold on_object. destruct (objects r !! id') as [e|] eqn:He; [|done].
  assert (id' = id → P (c_ep (f (mkCtx e (next_peer r) (native r))).2)) as Hfe.
  { intros E. apply (Hf E). simpl. apply Hr. by rewrite <- E. }
  destruct (f _) as [a c]. intros e' He'. simpl in *.
  apply lookup_insert_Some in He' as [[E <-]|[_ He']]; [by apply Hfe|by apply Hr].
Qed.
Lemma with_endpoint_kept {A} id id' (d : A) f r : keeps (λ c, (f c).2) → kept_at id r →
  kept_at id (with_endpoint id' d f r).2.
Proof. intros Hf Hr. unfold with_endpoint. case_decide; [|done]. by apply on_object_kept. Qed.
Lemma status_changed_kept id change r : kept_at id r → kept_at id (status_changed r change).
Proof.
  intros Hr. unfold status_changed. destruct (head _) as [id'|]; [|by destruct (ch_state change)].
  apply on_object_kept; [|done]. intros _. apply on_status_kept.
Qed.
Lemma fold_kept {B} id (f : Runtime → B → Runtime) l : (∀ r x, kept_at id r → kept_at id (f r x)) →
  ∀ r, kept_at id r → kept_at id (foldl f r l).
Proof. intros Hf. induction l as [|x l IH]; intros r Hr; [done|]. simpl. by apply IH, Hf. Qed.
Lemma pump_kept id changes receipts r : kept_at id r → kept_at id (pump changes receipts r).
Proof.
  intros Hr. unfold pump. destruct (initialized r); [|done]. cbn [negb]. apply fold_kept.
  - intros r' id' Hr'. apply on_object_kept; [|done]. intros _. apply receive_kept.
  - apply fold_kept; [|done]. intros r' ch. by apply status_changed_kept.
Qed.
(** What taking does to the fact, or that it is done elsewhere. *)
Definition spared (id id' : Z) : Prop := id' = id → ∀ capacity e, P e → P (take_event capacity e).2.
Lemma take_kept id id' capacity r : spared id id' → kept_at id r → kept_at id (take_object id' capacity r).2.
Proof.
  intros Hs Hr. apply on_object_kept; [|done]. intros E c Hc. specialize (Hs E capacity _ Hc).
  by destruct (take_event capacity (c_ep c)).
Qed.
Lemma poll_round_kept id id' capacity timeout_ms round r : spared id id' → kept_at id r →
  kept_at id (poll_round id' capacity timeout_ms round r).2.
Proof.
  intros Hs Hr. unfold poll_round. pose proof (take_kept id id' capacity r Hs Hr) as H1.
  destruct (take_object _ _ r) as [t r1]. destruct (negb _); [done|].
  pose proof (take_kept id id' capacity _ Hs (pump_kept id (rd_changes round) (rd_receipts round) r1 H1)) as H2.
  destruct (take_object _ _ _) as [t2 r2]. by repeat case_match.
Qed.
Section Steps.
Context {Addr : Type} `{Addresses Addr} (supported : bool).
Lemma poll_call_kept id id' ev payload capacity timeout_ms round r : spared id id' → kept_at id r →
  kept_at id (se_datagram_poll supported id' ev payload capacity timeout_ms round r).2.
Proof.
  intros Hs Hr. unfold se_datagram_poll, poll. destruct (_ || _); [done|]. destruct supported; [|done].
  pose proof (poll_round_kept id id' capacity timeout_ms round r Hs Hr) as Hp. case_decide; [|done]. by destruct (poll_round _ _ _ _ _).
Qed.
Ltac entry_kept L := destruct supported; [|done]; pose proof L; by destruct (with_endpoint _ _ _ _).
Lemma listen_call_kept id id' ad port made r : kept_at id r → kept_at id (se_datagram_listen supported id' ad port made r).2.
Proof. intros Hr. unfold se_datagram_listen. entry_kept (with_endpoint_kept id id' SE_INVALID_HANDLE _ r (listen_kept ad port made) Hr). Qed.
Lemma connect_call_kept id id' ad port made r : kept_at id r → kept_at id (se_datagram_connect supported id' ad port true made r).2.
Proof.
  intros Hr. unfold se_datagram_connect. cbn [negb].
  entry_kept (with_endpoint_kept id id' (Ok (SE_INVALID_HANDLE, 0)) _ r (connect_kept ad port made) Hr).
Qed.
Lemma send_call_kept id id' p d data size ans r : kept_at id r → kept_at id (se_datagram_send supported id' p d data size ans r).2.
Proof.
  intros Hr. unfold se_datagram_send. destruct (_ || _); [done|].
  entry_kept (with_endpoint_kept id id' SE_INVALID_HANDLE _ r (send_kept p d (take (Z.to_nat size) (default [] data)) ans) Hr).
Qed.
Lemma disconnect_call_kept id id' p m r : kept_at id r → kept_at id (se_datagram_disconnect supported id' p m r).2.
Proof. intros Hr. unfold se_datagram_disconnect. entry_kept (with_endpoint_kept id id' SE_INVALID_HANDLE _ r (disconnect_kept p m) Hr). Qed.
Lemma action_kept id a r : plain_action a = true → (aims id a = true → spared id id) → kept_at id r →
  kept_at id (step supported r a).
Proof.
  intros Hp Hs Hr.
  assert (∀ id', (id' =? id = true → spared id id) → spared id id') as Hsp.
  { intros id' Hi E. subst. apply Hi; [apply Z.eqb_refl|done]. }
  destruct a; try done; cbn [step];
    auto using listen_call_kept, connect_call_kept, send_call_kept, disconnect_call_kept, poll_call_kept, poll_round_kept.
Qed.
Lemma calm_kept id l : Forall (calm id) l → ∀ r, kept_at id r → kept_at id (runs (step supported) r l).
Proof.
  induction 1 as [|a l [Hp Ha] _ IH]; intros r Hr; [done|]. simpl. apply IH, action_kept; [done|congruence|done].
Qed.
Lemma calm_moved id l : Forall (calm id) l → ∀ r, inv r → moved r (runs (step supported) r l).
Proof.
  induction 1 as [|a l [Hp Ha] _ IH]; intros r Hi; [by apply moved_refl|]. simpl.
  pose proof (plain_moved supported r a Hi Hp) as Hm. eapply moved_trans; [exact Hm|]. apply IH, Hm.
Qed.

(** ** One attempt of a poll *)
(** The event taken, from an endpoint the fact holds of; a wait leaves the endpoint so. *)
Definition taken_at (id capacity : Z) (t : option Taken) (r : Runtime) : Prop :=
  ∃ e e', P e ∧ objects r !! id = Some e' ∧
    match t with
    | Some t => take_event capacity e = (t, e')
    | None => e' = e
    end.
Lemma take_timeout capacity e t e' : take_event capacity e = (t, e') → t.1.1 = SE_TIMEOUT → t = (SE_TIMEOUT, None, []) ∧ e' = e.
Proof. unfold take_event. intros Ht Hs. repeat case_match; by simplify_eq/=. Qed.
Lemma take_object_spec id capacity e r : objects r !! id = Some e →
  let '(t, r') := take_object id capacity r in (∃ e', take_event capacity e = (t, e') ∧ objects r' !! id = Some e').
Proof.
  intros He. unfold take_object, on_object. rewrite He. cbn [c_ep]. destruct (take_event capacity e) as [t e'].
  exists e'. split; [done|]. apply lookup_insert_eq.
Qed.
Lemma poll_round_taken id capacity timeout_ms round r : kept_at id r → is_Some (objects r !! id) → inv r →
  let '(t, r') := poll_round id capacity timeout_ms round r in
  taken_at id capacity t r' ∧ (t = None → timeout_ms ≠ 0 ∧ rd_expired round = false).
Proof.
  intros Hr [e He] Hi. unfold poll_round. pose proof (take_object_spec id capacity e r He) as H1.
  pose proof (take_moved id capacity r Hi) as M1.
  destruct (take_object id capacity r) as [t r1]. destruct H1 as (e1 & Ht & He1).
  case_bool_decide as Hst; cbn [negb]; [|split; [by exists e, e1; eauto|done]].
  destruct (take_timeout _ _ _ _ Ht Hst) as [-> ->].
  assert (kept_at id r1) as Hr1 by (intros x Hx; rewrite He1 in Hx; injection Hx as <-; by apply Hr).
  pose proof (pump_kept id (rd_changes round) (rd_receipts round) r1 Hr1) as Hr2.
  destruct (mv_later _ _ (pump_moved (rd_changes round) (rd_receipts round) r1 (mv_inv _ _ M1)) _ _ He1) as (e2 & He2 & _).
  set (r2 := pump _ _ r1) in *. pose proof (take_object_spec id capacity e2 r2 He2) as H3.
  destruct (take_object id capacity r2) as [t r3]. destruct H3 as (e3 & Ht3 & He3). pose proof (Hr2 _ He2) as Hp2.
  case_bool_decide as Hst3; cbn [negb orb]; [|split; [by exists e2, e3|done]].
  pose proof (take_timeout _ _ _ _ Ht3 Hst3) as [-> ->].
  destruct (Z.eqb_spec timeout_ms 0); [split; [by exists e2, e2|done]|].
  destruct (rd_expired round); (split; [by exists e2, e2|done]).
Qed.
Lemma kept_taken id capacity r : taken_at id capacity None r → kept_at id r ∧ is_Some (objects r !! id).
Proof. intros (e & e' & Hp & He & ->). split; [|by eexists]. intros e' He'. congruence. Qed.
End Steps.
End Kept.
