(* ===== verification/SdkDatagram.v ===== *)
(** SdkDatagram: the C++ objects that own datagram endpoints
    ([src/include/ServerEngine/Cpp/DatagramTransport.h]), over the C interface of
    [GnsRuntime]: construction, moves, closing, the calls that throw, and the poll that
    grows its buffer. *)
From S2P Require Import Prelude.
From S2P Require Import Text.
From S2P Require Import NetTypes.
From S2P Require Import Abi.
From S2P Require Import GnsOptions.
From S2P Require Import GnsEndpoint.
From S2P Require Import GnsRuntime.

(** [src/src/Abi/DatagramTransport.cpp:30-30] *)
Definition se_datagram_get_abi_version : Z := SE_DATAGRAM_ABI_VERSION.
(** What is thrown: [DatagramTransportError] with its status, [std::logic_error],
    [std::length_error]. *)
Inductive Thrown := TransportError (status : se_status) (what : bytes) | LogicError (what : bytes) | LengthError (what : bytes).
(** [src/include/ServerEngine/Cpp/DatagramTransport.h:21-28] {DatagramTransportError} *)
Definition transport_error (status : se_status) (message : bytes) : Thrown :=
  TransportError status (if bool_decide (message = []) then txt "Datagram transport operation failed" else message).
(** [src/include/ServerEngine/Cpp/DatagramTransport.h:122-125] *)
Definition require (status : se_status) (e : se_error) : result Thrown unit :=
  if bool_decide (status = SE_OK) then Ok tt else Err (transport_error status (Abi.message e)).
(** [src/include/ServerEngine/Cpp/DatagramTransport.h:126-130] *)
Definition check_version : result Thrown unit :=
  if se_datagram_get_abi_version =? SE_DATAGRAM_ABI_VERSION then Ok tt
  else Err (transport_error SE_INVALID_STATE (txt "Datagram transport ABI mismatch")).
(** [src/include/ServerEngine/Cpp/DatagramTransport.h:43-49] *)
Definition default_options : result Thrown se_datagram_options :=
  let? _ := check_version in Ok se_datagram_options_init.

(** [src/include/ServerEngine/Cpp/DatagramTransport.h:30-37] *)
Record DatagramEvent := mkEvent { metadata : se_datagram_event; payload : bytes }.
(** [src/include/ServerEngine/Cpp/DatagramTransport.h:32-32] {DatagramEvent} *)
Definition new_event : DatagramEvent :=
  mkEvent (mkDatagramEvent 0 0 0 0 0 0 0 [] [0; 0; 0; 0]) (replicate 256 x00).
(** [src/include/ServerEngine/Cpp/DatagramTransport.h:33-36] {bytes} *)
Definition event_bytes (ev : DatagramEvent) : bytes := take (Z.to_nat (de_payload_size (metadata ev))) (payload ev).

(** The library, and the application's [DatagramEndpoint] objects by their places: the
    handle each holds, zero when it is closed or moved from. *)
Record Sdk := mkSdk { library : Runtime; handles : gmap Z Z }.
Definition with_library r s : Sdk := mkSdk r (handles s).
Definition set_handle (k h : Z) s : Sdk := mkSdk (library s) (<[k := h]> (handles s)).

Section SdkDatagram.
Context {Addr : Type} `{Addresses Addr} (supported : bool).
Implicit Types s : Sdk.

(** ** Ownership *)
Definition release (h : Z) s : Sdk :=
  if h =? 0 then s else with_library (se_datagram_destroy supported h (library s)).2 s.
(** [src/include/ServerEngine/Cpp/DatagramTransport.h:51-58] {DatagramEndpoint} An object
    whose constructor throws does not exist. *)
Definition construct (k : Z) (options : se_datagram_options) (made : Created) s : result Thrown unit * Sdk :=
  match check_version with
  | Err e => (Err e, s)
  | Ok _ =>
      let '(status, e, h, r) := se_datagram_create supported (Some options) true made (library s) in
      let s := with_library r s in
      if bool_decide (status = SE_OK) then (Ok tt, set_handle k h s)
      else (Err (transport_error status (Abi.message e)), release h s)
  end.
(** [src/include/ServerEngine/Cpp/DatagramTransport.h:70-74] *)
Definition close (k : Z) s : Sdk :=
  match handles s !! k with Some h => release h (set_handle k 0 s) | None => s end.
(** [src/include/ServerEngine/Cpp/DatagramTransport.h:59-59] {~DatagramEndpoint} *)
Definition destruct_object (k : Z) s : Sdk :=
  let s := close k s in mkSdk (library s) (delete k (handles s)).
(** [src/include/ServerEngine/Cpp/DatagramTransport.h:62-62] {DatagramEndpoint} A new object
    at [k] takes the handle of [j]. *)
Definition move_object (k j : Z) s : Sdk :=
  match handles s !! j with Some h => set_handle k h (set_handle j 0 s) | None => s end.
(** [src/include/ServerEngine/Cpp/DatagramTransport.h:63-67] {operator=} *)
Definition assign_object (k j : Z) s : Sdk := if k =? j then s else move_object k j (close k s).

(** ** Calls on an open object *)
(** [src/include/ServerEngine/Cpp/DatagramTransport.h:131-134] *)
Definition ensure_open (k : Z) s : result Thrown Z :=
  match handles s !! k with
  | Some h => if h =? 0 then Err (LogicError (txt "Datagram endpoint is closed or moved from")) else Ok h
  | None => Err (LogicError (txt "Datagram endpoint is closed or moved from"))
  end.
(** [src/include/ServerEngine/Cpp/DatagramTransport.h:75-80] {listen} *)
Definition listen_on (k port : Z) (address : bytes) (made : Made) s : result Thrown unit * Sdk :=
  match ensure_open k s with
  | Err e => (Err e, s)
  | Ok h => let '(status, e, r) := se_datagram_listen supported h (Some address) port made (library s) in
      (require status e, with_library r s)
  end.
(** [src/include/ServerEngine/Cpp/DatagramTransport.h:81-88] {connect} *)
Definition connect_to (k port : Z) (address : bytes) (made : Made) s : result Thrown Z * Sdk :=
  match ensure_open k s with
  | Err e => (Err e, s)
  | Ok h => let '(status, e, peer, r) := se_datagram_connect supported h (Some address) port true made (library s) in
      (let? _ := require status e in Ok peer, with_library r s)
  end.
(** [src/include/ServerEngine/Cpp/DatagramTransport.h:89-98] {send} *)
Definition send_to (k peer delivery : Z) (data : bytes) (answer : EResult) s : result Thrown se_status * Sdk :=
  match ensure_open k s with
  | Err e => (Err e, s)
  | Ok h =>
      if 2 ^ 32 - 1 <? zlen data then (Err (LengthError (txt "Datagram message exceeds ABI byte size")), s)
      else
        let '(status, e, r) := se_datagram_send supported h peer delivery (Some data) (u32 (zlen data)) answer (library s) in
        (if bool_decide (status = SE_BACKPRESSURE) then Ok status else let? _ := require status e in Ok status,
         with_library r s)
  end.
(** [src/include/ServerEngine/Cpp/DatagramTransport.h:114-119] {disconnect} *)
Definition disconnect_peer (k peer : Z) (memory : bool) s : result Thrown unit * Sdk :=
  match ensure_open k s with
  | Err e => (Err e, s)
  | Ok h => let '(status, e, r) := se_datagram_disconnect supported h peer memory (library s) in
      (require status e, with_library r s)
  end.

(** ** Polling *)
(** A wake-up of a poll that waits: what other threads did meanwhile, and the round. *)
Definition Wake : Type := list Action * Round.
(** The rounds of a poll that waits; [None] when it waits still. *)
Fixpoint waited (h capacity timeout_ms : Z) (wakes : list Wake) r : option Taken * Runtime :=
  match wakes with
  | [] => (None, r)
  | (others, round) :: wakes =>
      match poll_round h capacity timeout_ms round (runs (step supported) r others) with
      | (Some t, r) => (Some t, r)
      | (None, r) => waited h capacity timeout_ms wakes r
      end
  end.
(** One call of [se_datagram_poll] into the event's record and buffer. *)
Definition poll_into (h timeout_ms : Z) (round : Round) (wakes : list Wake) (ev : DatagramEvent) r
    : option (se_status * se_error * DatagramEvent) * Runtime :=
  let capacity := u32 (zlen (payload ev)) in
  let answer (next : option se_datagram_event) (data : bytes) :=
    mkEvent (default (metadata ev) next) (data ++ drop (length data) (payload ev)) in
  match se_datagram_poll supported h (Some (de_struct_size (metadata ev), de_abi_version (metadata ev))) true capacity
          timeout_ms round r with
  | (Some (status, e, next, data), r) => (Some (status, e, answer next data), r)
  | (None, r) =>
      let '(t, r) := waited h capacity timeout_ms wakes r in
      ((λ t : Taken, (boundary (Ok t.1.1), answer (Some (default empty_event t.1.2)) t.2)) <$> t, r)
  end.
(** [src/include/ServerEngine/Cpp/DatagramTransport.h:99-113] {poll} Other threads may act
    between the attempts. *)
Definition poll_endpoint (k timeout_ms : Z) (first : Round) (wakes : list Wake) (between : Wake) (ev : DatagramEvent) s
    : option (result Thrown se_status * DatagramEvent) * Sdk :=
  match ensure_open k s with
  | Err e => (Some (Err e, ev), s)
  | Ok h =>
      let report status e ev : option (result Thrown se_status * DatagramEvent) :=
        Some (if bool_decide (status = SE_TIMEOUT) || bool_decide (status = SE_STOPPED) then Ok status
              else let? _ := require status e in Ok status, ev) in
      match poll_into h timeout_ms first wakes (mkEvent empty_event (payload ev)) (library s) with
      | (None, r) => (None, with_library r s)
      | (Some (status, e, ev), r) =>
          if bool_decide (status = SE_BUFFER_TOO_SMALL) then
            let ev := mkEvent (metadata ev) (resize (Z.to_nat (de_payload_size (metadata ev))) x00 (payload ev)) in
            match poll_into h 0 between.2 [] ev (runs (step supported) r between.1) with
            | (None, r) => (None, with_library r s)
            | (Some (status, e, ev), r) => (report status e ev, with_library r s)
            end
          else (report status e ev, with_library r s)
      end
  end.

(** ** What an application does *)
(** Objects are made in free places. *)
Inductive SdkCall :=
| Construct (k : Z) (options : se_datagram_options) (made : Created)
| Destruct (k : Z)
| MoveObject (k j : Z)
| AssignObject (k j : Z)
| CloseObject (k : Z)
| ListenOn (k port : Z) (address : bytes) (made : Made)
| ConnectTo (k port : Z) (address : bytes) (made : Made)
| SendOn (k peer delivery : Z) (data : bytes) (answer : EResult)
| PollOn (k timeout_ms : Z) (first : Round) (wakes : list Wake) (between : Wake) (ev : DatagramEvent)
| DisconnectPeer (k peer : Z) (memory : bool).
Definition free (k : Z) s : bool := bool_decide (handles s !! k = None).
Definition call s (c : SdkCall) : Sdk :=
  match c with
  | Construct k options made => if free k s then (construct k options made s).2 else s
  | Destruct k => destruct_object k s
  | MoveObject k j => if free k s then move_object k j s else s
  | AssignObject k j => if free k s then s else assign_object k j s
  | CloseObject k => close k s
  | ListenOn k port address made => (listen_on k port address made s).2
  | ConnectTo k port address made => (connect_to k port address made s).2
  | SendOn k peer delivery data answer => (send_to k peer delivery data answer s).2
  | PollOn k timeout_ms first wakes between ev => (poll_endpoint k timeout_ms first wakes between ev s).2
  | DisconnectPeer k peer memory => (disconnect_peer k peer memory s).2
  end.
End SdkDatagram.
Definition new_sdk : Sdk := mkSdk new_runtime ∅.
