(* ===== verification/SdkDatagramProperties.v ===== *)
(** SdkDatagramProperties: what the C++ owners of datagram endpoints promise: each handle
    has one owner and is given back once, and a poll takes an event whole. *)
From S2P Require Import Prelude.
From S2P Require Import Text.
From S2P Require Import NetTypes.
From S2P Require Import Abi.
From S2P Require Import GnsOptions.
From S2P Require Import GnsEndpoint.
From S2P Require Import GnsRuntime.
From S2P Require Import GnsInvariant.
From S2P Require Import GnsLedger.
From S2P Require Import GnsProperties.
From S2P Require Import GnsKept.
From S2P Require Import SdkDatagram.

(** ** What creation and destruction do to the registry *)
Lemma release_endpoints r : endpoints (release_if_empty r) = endpoints r.
Proof. unfold release_if_empty. by case_match. Qed.
Lemma create_registers o made r : inv r →
  match create o made r with
  | (Ok (SE_OK, id), r') => id ∉ endpoints r ∧ id ≠ 0 ∧ (endpoints r' = {[id]} ∪ endpoints r)
  | (res, r') => (endpoints r' = endpoints r) ∧ (output_of res = 0)
  end.
Proof.
  intros Hi. unfold create. destruct (_ <=? _); [done|]. destruct (_ <? next_endpoint r) eqn:Hb; [done|]. bprop.
  destruct (init (cr_init made) r) as [r1|] eqn:Hinit; [|done].
  destruct (init_inv _ _ _ Hi Hinit) as (_ & E2 & E3 & _).
  destruct (_ =? 0); [by rewrite release_endpoints; simpl|].
  destruct (cr_memory made); simpl; [|by rewrite release_endpoints].
  rewrite E2, E3. fold (eid (next_endpoint r)). pose proof (ri_next _ Hi).
  split_and!; [|rewrite eid_add; lia|done].
  intros [e He]%(ri_registered _ Hi). apply (ri_ids _ Hi) in He as (k & Hk & E). rewrite !eid_add in E by lia. lia.
Qed.
Lemma destroy_unregisters id r : id ∈ endpoints r → inv r → endpoints (destroy id r).2 = endpoints r ∖ {[id]}.
Proof.
  intros Hin Hi. unfold destroy. rewrite decide_True by done. simpl. rewrite release_endpoints. simpl.
  by rewrite (mv_endpoints _ _ (update_moved id shutdown r Hi shutdown_sound Hin)).
Qed.

(** ** Ownership *)
Record Owned (supported : bool) (s : Sdk) : Prop := {
  ow_inv : inv (library s);
  ow_one k j h : handles s !! k = Some h → handles s !! j = Some h → h ≠ 0 → k = j;
  ow_all h : h ∈ endpoints (library s) ↔ h ≠ 0 ∧ ∃ k, handles s !! k = Some h;
  ow_supported h : h ∈ endpoints (library s) → supported = true;
}.
Section Ownership.
Context {Addr : Type} `{Addresses Addr} (supported : bool).
Implicit Types s : Sdk.
Abbreviation owned := (Owned supported).
(** A step of the library that registers nothing changes no ownership. *)
Lemma moved_owned s r : owned s → moved (library s) r → owned (with_library r s).
Proof. intros [Hi Ho Ha Hs] [Hi' He _ _]. split; simpl; [done|done| |]; intros h; rewrite He; [apply Ha|apply Hs]. Qed.
Lemma close_owned k s : owned s → owned (close supported k s).
Proof.
  intros Hs. pose proof Hs as [Hi Ho Ha Hsup]. unfold close, release. destruct (handles s !! k) as [h|] eqn:Hk; [|done].
  assert (∀ j h', h' ≠ 0 → <[k:=0]> (handles s) !! j = Some h' ↔ j ≠ k ∧ handles s !! j = Some h') as Hl.
  { intros j h' Hh'. rewrite lookup_insert_Some. split; [intros [[-> ?]|[? ?]]; [congruence|done]|]. intros [? ?]. by right. }
  assert (∀ j j' h', <[k:=0]> (handles s) !! j = Some h' → <[k:=0]> (handles s) !! j' = Some h' → h' ≠ 0 → j = j') as Hone.
  { intros j j' h' Hj Hj' Hh'. apply Hl in Hj as [_ Hj]; [|done]. apply Hl in Hj' as [_ Hj']; [|done]. by eapply Ho. }
  destruct (Z.eqb_spec h 0) as [->|Hh]; simpl.
  - split; simpl; [done|done| |done]. intros h'. rewrite Ha. split; intros [Hne [j Hj]]; (split; [done|]); exists j.
    + apply Hl; [done|]. split; [|done]. intros ->. congruence.
    + by apply Hl in Hj as [_ Hj].
  - assert (h ∈ endpoints (library s)) as Hin by (apply Ha; eauto). rewrite (Hsup _ Hin).
    unfold se_datagram_destroy. pose proof (destroy_unregisters h _ Hin Hi) as He. destruct (destroy_step h _ Hi) as [Hi' _].
    destruct (destroy h (library s)) as [st r]. simpl in *. split; simpl; [done|done| |]; intros h'; rewrite He.
    2: { done. }
    rewrite elem_of_difference, elem_of_singleton, Ha. split.
    + intros [[Hne [j Hj]] Hne']. split; [done|]. exists j. apply Hl; [done|]. split; [|done]. intros ->. congruence.
    + intros [Hne [j Hj]]. apply Hl in Hj as [Hjk Hj]; [|done]. split; [by eauto|]. intros ->. by apply Hjk, (Ho _ _ h).
Qed.
Lemma close_handles k s j : handles (close supported k s) !! j = if decide (j = k) then (λ _, 0) <$> (handles s !! k) else handles s !! j.
Proof.
  unfold close, release. destruct (handles s !! k) as [h|] eqn:Hk.
  - assert (handles (if h =? 0 then set_handle k 0 s else with_library (se_datagram_destroy supported h (library (set_handle k 0 s))).2 (set_handle k 0 s)) =
      <[k:=0]> (handles s)) as -> by (by case_match). case_decide; [subst; by rewrite lookup_insert_eq|by rewrite lookup_insert_ne].
  - case_decide; [by subst|done].
Qed.
Lemma destruct_owned k s : owned s → owned (destruct_object supported k s).
Proof.
  intros Hs%(close_owned k). pose proof (close_handles k s k) as Hk. rewrite decide_True in Hk by done.
  unfold destruct_object. destruct Hs as [Hi Ho Ha Hsup]. set (s1 := close supported k s) in *.
  split; simpl; [done| | |done].
  - intros j j' h [_ Hj]%lookup_delete_Some [_ Hj']%lookup_delete_Some. by eapply Ho.
  - intros h. rewrite Ha. split; intros [Hne [j Hj]]; (split; [done|]); exists j.
    + apply lookup_delete_Some. split; [|done]. intros <-. rewrite Hk in Hj. destruct (handles s !! k); simplify_eq/=.
    + by apply lookup_delete_Some in Hj as [_ Hj].
Qed.
(** Taking over a handle, into a place that holds none. *)
Lemma move_object_owned k j s : owned s → (∀ h, handles s !! k = Some h → h = 0) → k ≠ j → owned (move_object k j s).
Proof.
  intros [Hi Ho Ha Hsup] Hk Hkj. unfold move_object. destruct (handles s !! j) as [h|] eqn:Hj; [|by split].
  assert (∀ i h', h' ≠ 0 → <[k:=h]> (<[j:=0]> (handles s)) !! i = Some h' ↔
    ∃ i', handles s !! i' = Some h' ∧ i = if decide (i' = j) then k else i') as Hl.
  { intros i h' Hne. rewrite lookup_insert_Some, lookup_insert_Some. split.
    - intros [[-> ->]|[Hki [[-> ?]|[Hji Hi']]]]; [|congruence|].
      + exists j. by rewrite decide_True.
      + exists i. by rewrite decide_False by congruence.
    - intros (i' & Hi' & ->). case_decide as E; [left; subst; split; [done|congruence]|]. right.
      split; [|by right]. intros <-. by apply Hk in Hi'. }
  split; simpl; [done| | |done].
  - intros i i' h' Hh Hh' Hne. apply Hl in Hh as (x & Hx & ->); [|done]. apply Hl in Hh' as (y & Hy & ->); [|done].
    by rewrite (Ho _ _ _ Hx Hy Hne).
  - intros h'. rewrite Ha. split; intros [Hne [i Hh]]; (split; [done|]).
    + eexists. apply Hl; [done|]. by eexists.
    + apply Hl in Hh as (x & Hx & _); [|done]. by exists x.
Qed.
Lemma construct_owned k o made s : owned s → c_options o → handles s !! k = None → owned (construct supported k o made s).2.
Proof.
  intros Hs Hc Hk. unfold construct. change check_version with (@Ok Thrown unit tt).
  unfold se_datagram_create. cbn [negb orb].
  destruct (valid_options (Some o)) eqn:Ev; cbn [negb]; [|destruct s; exact Hs].
  destruct supported eqn:Esup; [|destruct s; exact Hs].
  pose proof Hs as [Hi Ho Ha Hsup]. destruct (create_step o made _ Hi (valid_options_sound _ Hc Ev)) as [Hi' _].
  pose proof (create_registers o made _ Hi) as Hr. destruct (create o made (library s)) as [res r] eqn:Ec. simpl in Hi'.
  assert (endpoints r = endpoints (library s) → Owned true (with_library r s)) as Hsame.
  { intros E. split; simpl; try done; intros h; rewrite E; apply Ha. }
  destruct res as [[st id]|what]; [|destruct Hr as [He _]; by apply Hsame].
  destruct (decide (st = SE_OK)) as [->|Hne].
  - destruct Hr as (Hnew & Hid & He). split; simpl; [done| | |done].
    + intros i j h [[-> <-]|[? Hx]]%lookup_insert_Some [[-> E]|[? Hy]]%lookup_insert_Some Hne; subst; [done|..].
      * exfalso. apply Hnew, Ha. eauto.
      * exfalso. apply Hnew, Ha. eauto.
      * by eapply Ho.
    + intros h. rewrite He, elem_of_union, elem_of_singleton, Ha. split.
      * intros [->|[Hh [j Hj]]]; (split; [done|]); [exists k; apply lookup_insert_eq|]. exists j.
        rewrite lookup_insert_ne; [done|congruence].
      * intros [Hh [j [[-> ->]|[_ Hj]]%lookup_insert_Some]]; [by left|right; eauto].
  - assert (endpoints r = endpoints (library s) ∧ id = 0) as [He ->] by (by destruct st).
    destruct st; done || exact (Hsame He).
Qed.
(** Other threads neither register nor unregister. *)
Definition wakes_plain (wakes : list Wake) : Prop := Forall (λ w : Wake, Forall (λ a, plain_action a = true) w.1) wakes.
Lemma others_moved l : Forall (λ a, plain_action a = true) l → ∀ r, inv r → moved r (runs (step supported) r l).
Proof.
  induction 1 as [|a l Ha _ IH]; intros r Hi; [by apply moved_refl|]. simpl.
  pose proof (plain_moved supported r a Hi Ha) as Hm. eapply moved_trans; [exact Hm|]. apply IH, Hm.
Qed.
Lemma waited_moved h capacity timeout_ms wakes : wakes_plain wakes →
  ∀ r, inv r → moved r (waited supported h capacity timeout_ms wakes r).2.
Proof.
  induction 1 as [|[l round] wakes Hl _ IH]; intros r Hi; [by apply moved_refl|]. cbn [waited].
  pose proof (others_moved _ Hl r Hi) as H1. set (r1 := runs _ _ _) in *.
  pose proof (poll_round_moved h capacity timeout_ms round r1 (mv_inv _ _ H1)) as H2.
  destruct (poll_round _ _ _ _ _) as [[t|] r2]; simpl in *; [by eapply moved_trans|].
  eapply moved_trans; [by eapply moved_trans|]. apply IH, H2.
Qed.
Lemma poll_into_moved h timeout_ms round wakes ev r : wakes_plain wakes → inv r →
  moved r (poll_into supported h timeout_ms round wakes ev r).2.
Proof.
  intros Hw Hi. unfold poll_into.
  pose proof (poll_call_moved supported h (Some (de_struct_size (metadata ev), de_abi_version (metadata ev))) true
    (u32 (zlen (payload ev))) timeout_ms round r Hi) as H1.
  destruct (se_datagram_poll _ _ _ _ _ _ _ _) as [[[[[st e] next] data]|] r1]; simpl in *; [done|].
  pose proof (waited_moved h (u32 (zlen (payload ev))) timeout_ms wakes Hw r1 (mv_inv _ _ H1)) as H2.
  destruct (waited _ _ _ _ _ _) as [t r2]. simpl in *. by eapply moved_trans.
Qed.
Lemma poll_endpoint_owned k timeout_ms first wakes between ev s : owned s → wakes_plain wakes → wakes_plain [between] →
  owned (poll_endpoint supported k timeout_ms first wakes between ev s).2.
Proof.
  intros Hs Hw Hb. unfold poll_endpoint. destruct (ensure_open k s) as [h|]; [|done].
  pose proof (poll_into_moved h timeout_ms first wakes (mkEvent empty_event (payload ev)) _ Hw (ow_inv _ _ Hs)) as H1.
  destruct (poll_into _ _ _ _ _ _ _) as [[[[st e] ev1]|] r1]; simpl in *; [|by apply moved_owned].
  case_bool_decide; [|by apply moved_owned]. apply Forall_cons in Hb as [Hb _].
  pose proof (others_moved _ Hb r1 (mv_inv _ _ H1)) as H2. set (r2 := runs _ _ _) in *.
  set (ev2 := mkEvent _ _). pose proof (poll_into_moved h 0 between.2 [] ev2 r2 (Forall_nil_2 _) (mv_inv _ _ H2)) as H3.
  destruct (poll_into _ _ _ _ _ _ _) as [[[[st2 e2] ev3]|] r3]; simpl in *; (apply moved_owned; [done|]);
    (eapply moved_trans; [exact H1|]; by eapply moved_trans).
Qed.
(** What the theorems ask of a call. *)
Definition call_ok (c : SdkCall) : Prop :=
  match c with
  | Construct _ o _ => c_options o
  | PollOn _ _ _ wakes between _ => wakes_plain wakes ∧ wakes_plain [between]
  | _ => True
  end.
Lemma call_owned s c : owned s → call_ok c → owned (call supported s c).
Proof.
  intros Hs Hc. pose proof (ow_inv _ _ Hs) as Hi.
  destruct c as [k o made|k|k j|k j|k|k port ad made|k port ad made|k peer d data ans|k t first wakes between ev|k peer m]; cbn [call].
  - unfold free. case_bool_decide; [|done]. by apply construct_owned.
  - by apply destruct_owned.
  - unfold free. case_bool_decide as Hk; [|done]. destruct (decide (k = j)) as [<-|]; [by unfold move_object; rewrite Hk|].
    apply move_object_owned; [done| |done]. by rewrite Hk.
  - destruct (free k s); [done|]. unfold assign_object. destruct (Z.eqb_spec k j); [done|].
    apply move_object_owned; [by apply close_owned| |done]. intros h. rewrite close_handles, decide_True by done.
    by destruct (handles s !! k); intros [= <-].
  - by apply close_owned.
  - unfold listen_on. destruct (ensure_open k s) as [h|]; [|done].
    pose proof (listen_call_moved supported h (Some ad) port made _ Hi). destruct (se_datagram_listen _ _ _ _ _ _) as [[? ?] ?].
    by apply moved_owned.
  - unfold connect_to. destruct (ensure_open k s) as [h|]; [|done].
    pose proof (connect_call_moved supported h (Some ad) port made _ Hi). destruct (se_datagram_connect _ _ _ _ _ _ _) as [[[? ?] ?] ?].
    by apply moved_owned.
  - unfold send_to. destruct (ensure_open k s) as [h|]; [|done]. destruct (_ <? _); [done|].
    pose proof (send_call_moved supported h peer d (Some data) (u32 (zlen data)) ans _ Hi).
    destruct (se_datagram_send _ _ _ _ _ _ _ _) as [[? ?] ?]. by apply moved_owned.
  - destruct Hc. by apply poll_endpoint_owned.
  - unfold disconnect_peer. destruct (ensure_open k s) as [h|]; [|done].
    pose proof (disconnect_call_moved supported h peer m _ Hi). destruct (se_datagram_disconnect _ _ _ _ _) as [[? ?] ?].
    by apply moved_owned.
Qed.
Lemma new_owned : owned new_sdk.
Proof.
  split; simpl; [apply new_inv_runtime| | |].
  - by intros k j h ?%lookup_empty_Some.
  - intros h. split; [by intros ?%not_elem_of_empty|]. by intros [_ [k ?%lookup_empty_Some]].
  - by intros h ?%not_elem_of_empty.
Qed.
Definition run_sdk (calls : list SdkCall) : Sdk := runs (call supported) new_sdk calls.
Lemma run_sdk_owned calls : Forall call_ok calls → owned (run_sdk calls).
Proof.
  unfold run_sdk. intros Hf. generalize new_owned. generalize new_sdk. induction Hf as [|c calls Hc _ IH]; intros s Hs; [done|].
  simpl. apply IH. by apply call_owned.
Qed.
Definition open_at (k h : Z) s : Prop := handles s !! k = Some h ∧ h ≠ 0.
(** C30: Every endpoint of the library has exactly one owner among the application's objects,
    in every sequence of constructions, moves, assignments, closings and calls, with other
    threads at work while a poll waits: the handles of the open objects are different and
    are the registered endpoints, so that no call on an open object finds an unknown
    endpoint, a moved-from or closed object holds nothing, and once no object is open
    everything taken from the vendor library has been given back and it is stopped. *)
Theorem datagram_objects_own calls : Forall call_ok calls →
  let s := run_sdk calls in
  (∀ k j h, open_at k h s → open_at j h s → k = j) ∧
  (∀ h, h ∈ endpoints (library s) ↔ ∃ k, open_at k h s) ∧
  (initialized (library s) = true ↔ ∃ k h, open_at k h s) ∧
  ((∀ k h, ¬ open_at k h s) → ∀ res, balance (native (library s)) res = 0).
Proof.
  intros Hf s. destruct (run_sdk_owned _ Hf) as [Hi Ho Ha Hsup]. fold s in Hi, Ho, Ha, Hsup.
  assert (∀ h, h ∈ endpoints (library s) ↔ ∃ k, open_at k h s) as Hreg by (intros h; rewrite Ha; unfold open_at; naive_solver).
  split_and!.
  - intros k j h [Hk Hne] [Hj _]. by eapply Ho.
  - exact Hreg.
  - rewrite (ri_init _ Hi). split.
    + intros [h Hh]%set_choose_L. apply Hreg in Hh as [k Hk]. eauto.
    + intros (k & h & Hk) He. assert (h ∈ endpoints (library s)) as Hh by (apply Hreg; eauto). rewrite He in Hh. set_solver.
  - intros Hnone res. apply all_released; [done|]. apply elem_of_equiv_empty_L. intros h Hh. apply Hreg in Hh as [k Hk]. by eapply Hnone.
Qed.

(** ** Every queued record is whole *)
Definition whole_queue (e : Endpoint) : Prop := Forall ev_ok (events_ e).
#[export] Instance whole_queue_kept : Kept whole_queue.
Proof.
  split; unfold whole_queue.
  - by intros e e' _ -> _.
  - intros e e' q Hq _ _ -> _ Hf. apply Forall_app. split; [done|]. by constructor.
  - intros e e' _ -> _ _. constructor.
Qed.
Lemma take_whole capacity e : whole_queue e → whole_queue (take_event capacity e).2.
Proof.
  unfold whole_queue, take_event. intros Hf. destruct (_ && _); [done|]. destruct (stopped_ e); [done|].
  destruct (events_ e) as [|q rest] eqn:E; [simpl; by rewrite E|]. destruct (_ <? _); simpl; [by rewrite E|].
  by apply Forall_cons in Hf as [_ Hf].
Qed.
Definition wholes (r : Runtime) : Prop := ∀ id, kept_at whole_queue id r.
Lemma whole_spared id id' : spared whole_queue id id'.
Proof. intros _ capacity e. apply take_whole. Qed.
Lemma others_whole l : Forall (λ a, plain_action a = true) l → ∀ r, wholes r → wholes (runs (step supported) r l).
Proof.
  induction 1 as [|a l Ha _ IH]; intros r Hr; [done|]. simpl. apply IH. intros id. apply action_kept; [apply _|done| |apply Hr].
  intros _. apply whole_spared.
Qed.
Lemma waited_whole h capacity timeout_ms wakes : wakes_plain wakes →
  ∀ r, wholes r → wholes (waited supported h capacity timeout_ms wakes r).2.
Proof.
  induction 1 as [|[l round] wakes Hl _ IH]; intros r Hr; [done|]. cbn [waited].
  assert (wholes (poll_round h capacity timeout_ms round (runs (step supported) r l)).2) as H1.
  { intros id. apply poll_round_kept; [apply _|apply whole_spared|by apply others_whole]. }
  destruct (poll_round _ _ _ _ _) as [[t|] r2]; [done|]. by apply IH.
Qed.
Lemma poll_into_whole h timeout_ms round wakes ev r : wakes_plain wakes → wholes r →
  wholes (poll_into supported h timeout_ms round wakes ev r).2.
Proof.
  intros Hw Hr. unfold poll_into.
  pose proof (λ id, poll_call_kept whole_queue supported id h (Some (de_struct_size (metadata ev), de_abi_version (metadata ev))) true
    (u32 (zlen (payload ev))) timeout_ms round r (whole_spared id h) (Hr id)) as H1.
  destruct (se_datagram_poll _ _ _ _ _ _ _ _) as [[[[[st e] next] data]|] r1]; simpl in *; [done|].
  pose proof (waited_whole h (u32 (zlen (payload ev))) timeout_ms wakes Hw r1 H1). by destruct (waited _ _ _ _ _ _).
Qed.
Lemma create_objects o made r id e : objects (create o made r).2 !! id = Some e →
  objects r !! id = Some e ∨ ∃ i g, e = new_endpoint i o g.
Proof.
  unfold create, init. destruct (_ <=? _); [by left|]. destruct (_ <? next_endpoint r); [by left|].
  destruct (initialized r); [|destruct (cr_init made); [|by left]]; simpl;
    (destruct (_ =? 0); [unfold release_if_empty; simpl; by case_match; left|];
     destruct (cr_memory made); simpl; [|unfold release_if_empty; simpl; by case_match; left];
     intros [[_ <-]|[_ He]]%lookup_insert_Some; [right; eauto|by left]).
Qed.
Lemma destroy_whole h r : wholes r → wholes (destroy h r).2.
Proof.
  intros Hr id. unfold destroy. case_decide; [|apply Hr]. cbn [snd]. unfold release_if_empty. simpl.
  assert (kept_at whole_queue id (update_object h shutdown r)) as H1.
  { apply on_object_kept; [|apply Hr]. intros _ c Hc. by apply (shutdown_kept whole_queue). }
  by case_match.
Qed.
Lemma release_whole h s : wholes (library s) → wholes (library (release supported h s)).
Proof.
  intros Hs. unfold release. case_match; [done|]. unfold se_datagram_destroy. destruct supported; [|done].
  pose proof (destroy_whole h _ Hs). by destruct (destroy h (library s)).
Qed.
Lemma close_whole k s : wholes (library s) → wholes (library (close supported k s)).
Proof. intros Hs. unfold close. case_match; [|done]. by apply release_whole. Qed.
Lemma construct_whole k o made s : wholes (library s) → wholes (library (construct supported k o made s).2).
Proof.
  intros Hs. unfold construct. change check_version with (@Ok Thrown unit tt).
  assert (wholes (se_datagram_create supported (Some o) true made (library s)).2) as Hc.
  { unfold se_datagram_create. destruct (_ || _); [done|]. destruct supported; [|done].
    pose proof (create_objects o made (library s)) as Ho. destruct (create o made (library s)) as [res r]. simpl in *.
    intros id e [He|(i & g & ->)]%Ho; [by eapply Hs|]. constructor. }
  destruct (se_datagram_create _ _ _ _ _) as [[[st e] h] r]. case_bool_decide; [done|]. by apply release_whole.
Qed.
Lemma move_library k j s : library (move_object k j s) = library s.
Proof. unfold move_object. by case_match. Qed.
Lemma call_whole s c : wholes (library s) → call_ok c → wholes (library (call supported s c)).
Proof.
  intros Hs Hc.
  destruct c as [k o made|k|k j|k j|k|k port ad made|k port ad made|k peer d data ans|k t first wakes between ev|k peer m]; cbn [call].
  - destruct (free k s); [|done]. by apply construct_whole.
  - by apply close_whole.
  - destruct (free k s); [|done]. by rewrite move_library.
  - destruct (free k s); [done|]. unfold assign_object. case_match; [done|]. rewrite move_library. by apply close_whole.
  - by apply close_whole.
  - unfold listen_on. destruct (ensure_open k s) as [h|]; [|done].
    pose proof (λ id, listen_call_kept whole_queue supported id h (Some ad) port made _ (Hs id)). by destruct (se_datagram_listen _ _ _ _ _ _) as [[? ?] ?].
  - unfold connect_to. destruct (ensure_open k s) as [h|]; [|done].
    pose proof (λ id, connect_call_kept whole_queue supported id h (Some ad) port made _ (Hs id)). by destruct (se_datagram_connect _ _ _ _ _ _ _) as [[[? ?] ?] ?].
  - unfold send_to. destruct (ensure_open k s) as [h|]; [|done]. destruct (_ <? _); [done|].
    pose proof (λ id, send_call_kept whole_queue supported id h peer d (Some data) (u32 (zlen data)) ans _ (Hs id)).
    by destruct (se_datagram_send _ _ _ _ _ _ _ _) as [[? ?] ?].
  - destruct Hc as [Hw Hb]. unfold poll_endpoint. destruct (ensure_open k s) as [h|]; [|done].
    pose proof (poll_into_whole h t first wakes (mkEvent empty_event (payload ev)) _ Hw Hs) as H1.
    destruct (poll_into _ _ _ _ _ _ _) as [[[[st e] ev1]|] r1]; simpl in *; [|done].
    case_bool_decide; [|done]. apply Forall_cons in Hb as [Hb _]. set (ev2 := mkEvent _ _).
    pose proof (poll_into_whole h 0 between.2 [] ev2 _ (Forall_nil_2 _) (others_whole _ Hb _ H1)) as H3.
    by destruct (poll_into _ _ _ _ _ _ _) as [[[[st2 e2] ev3]|] r3].
  - unfold disconnect_peer. destruct (ensure_open k s) as [h|]; [|done].
    pose proof (λ id, disconnect_call_kept whole_queue supported id h peer m _ (Hs id)). by destruct (se_datagram_disconnect _ _ _ _ _) as [[? ?] ?].
Qed.
Lemma run_whole calls : Forall call_ok calls → wholes (library (run_sdk calls)).
Proof.
  unfold run_sdk. intros Hf. assert (wholes (library new_sdk)) as Hn by (intros id e He; simpl in He; by apply lookup_empty_Some in He).
  revert Hn. generalize new_sdk. induction Hf as [|c calls Hc _ IH]; intros s Hs; [done|]. simpl. apply IH. by apply call_whole.
Qed.

(** ** A poll takes an event whole *)
(** Nobody else takes events of the endpoint; the queue's first event, when asked for,
    stays first until the endpoint stops. *)
Record resting (past : list QueuedEvent) (first : option QueuedEvent) (e : Endpoint) : Prop := {
  rs_past : delivered e = past;
  rs_whole : whole_queue e;
  rs_first q : first = Some q → stopped_ e = true ∨ ∃ rest, events_ e = q :: rest;
}.
#[export] Instance resting_kept past first : Kept (resting past first).
Proof.
  split.
  - intros e e' Hd He Hs [Hp Hw Hf]. split; [congruence|by apply (k_same e e')|]. rewrite He, Hs. exact Hf.
  - intros e e' q Hq Hs Hd He Hs' [Hp Hw Hf]. split; [congruence|by apply (k_push e e' q)|].
    intros q' Hq'. right. destruct (Hf _ Hq') as [|[rest E]]; [congruence|]. exists (rest ++ [q]). by rewrite He, E.
  - intros e e' Hd He Hs [Hp Hw Hf]. split; [congruence|by apply (k_stop e e')|]. auto.
Qed.
Definition wakes_calm (h : Z) (wakes : list Wake) : Prop := Forall (λ w : Wake, Forall (calm h) w.1) wakes.
Lemma wakes_calm_plain h wakes : wakes_calm h wakes → wakes_plain wakes.
Proof.
  intros Hw. eapply Forall_impl; [exact Hw|]. intros w Hl. eapply Forall_impl; [exact Hl|]. by intros a [? _].
Qed.
Definition patient (timeout_ms : Z) (round : Round) : Prop := timeout_ms ≠ 0 ∧ rd_expired round = false.
Section Attempt.
Context (P : Endpoint → Prop) `{!Kept P}.
Lemma waited_taken h capacity timeout_ms wakes : wakes_calm h wakes →
  ∀ r, kept_at P h r → is_Some (objects r !! h) → inv r →
  let '(t, r') := waited supported h capacity timeout_ms wakes r in
  taken_at P h capacity t r' ∧ (t = None → Forall (λ w : Wake, rd_expired w.2 = false) wakes).
Proof.
  induction 1 as [|[l round] wakes Hl _ IH]; intros r Hr [e He] Hi; cbn [waited].
  - split; [|constructor]. exists e, e. split_and!; [by apply Hr|done|done].
  - pose proof (calm_moved supported h l Hl r Hi) as M1. pose proof (calm_kept P supported h l Hl r Hr) as K1.
    set (r1 := runs _ r l) in *. destruct (mv_later _ _ M1 _ _ He) as (e1 & He1 & _).
    pose proof (poll_round_taken P h capacity timeout_ms round r1 K1 (mk_is_Some _ _ He1) (mv_inv _ _ M1)) as H2.
    pose proof (poll_round_moved h capacity timeout_ms round r1 (mv_inv _ _ M1)) as M2.
    destruct (poll_round _ _ _ _ _) as [[t|] r2]; simpl in M2; [by destruct H2|]. destruct H2 as [Ht Hn].
    apply kept_taken in Ht as [Hr2 Hs2]. pose proof (IH r2 Hr2 Hs2 (mv_inv _ _ M2)) as H3.
    destruct (waited _ _ _ _ _ _) as [t r3]. destruct H3 as [Ht Hn3]. split; [done|]. intros E. constructor; [by apply Hn|auto].
Qed.
(** A call of [se_datagram_poll] with a fresh record, and what it puts into the event. *)
Definition answered (ev : DatagramEvent) (t : Taken) : se_status * se_error * DatagramEvent :=
  (boundary (Ok t.1.1), mkEvent (default empty_event t.1.2) (t.2 ++ drop (length t.2) (payload ev))).
Lemma poll_into_taken h timeout_ms round wakes ev r : supported = true →
  de_struct_size (metadata ev) = sizeof_datagram_event → de_abi_version (metadata ev) = SE_DATAGRAM_ABI_VERSION →
  h ∈ endpoints r → wakes_calm h wakes → kept_at P h r → inv r →
  let '(a, r') := poll_into supported h timeout_ms round wakes ev r in
  ∃ t, a = answered ev <$> t ∧ taken_at P h (u32 (zlen (payload ev))) t r' ∧
    (t = None → patient timeout_ms round ∧ Forall (λ w : Wake, rd_expired w.2 = false) wakes).
Proof.
  intros Hsup Hsz Hver Hin Hw Hr Hi. unfold poll_into, se_datagram_poll, poll.
  rewrite Hsz, Hver, bool_decide_eq_true_2 by done. cbn [negb orb andb]. rewrite Hsup. rewrite decide_True by done.
  pose proof (poll_round_taken P h (u32 (zlen (payload ev))) timeout_ms round r Hr (ri_registered _ Hi _ Hin) Hi) as H1.
  pose proof (poll_round_moved h (u32 (zlen (payload ev))) timeout_ms round r Hi) as M1.
  destruct (poll_round _ _ _ _ _) as [[t|] r1]; simpl in M1; cbn beta iota delta [fmap option_fmap option_map].
  - destruct H1 as [Ht _]. destruct (boundary (Ok t.1.1)) as [st er] eqn:Eb. exists (Some t).
    split_and!; [simpl; unfold answered; by rewrite Eb|done|done].
  - destruct H1 as [Ht Hn]. apply kept_taken in Ht as [Hr1 Hs1].
    pose proof (waited_taken h (u32 (zlen (payload ev))) timeout_ms wakes Hw r1 Hr1 Hs1 (mv_inv _ _ M1)) as H2. rewrite Hsup in H2.
    destruct (waited _ _ _ _ _ _) as [t r2]. destruct H2 as [Ht Hn2]. cbn beta iota. exists t. split_and!; [by destruct t|done|].
    intros E. split; [by apply Hn|auto].
Qed.
End Attempt.
Lemma boundary_status st : (boundary (Ok st)).1 = st.
Proof. by destruct st. Qed.
Lemma poll_report_ok st e : match st with SE_OK | SE_TIMEOUT | SE_STOPPED => True | _ => False end →
  (if bool_decide (st = SE_TIMEOUT) || bool_decide (st = SE_STOPPED) then Ok st
   else let? _ := require st e in Ok st : result Thrown se_status) = Ok st.
Proof. by destruct st. Qed.
(** The event that tells of an overflow, or the record and the bytes of the next event. *)
Definition reports (past : list QueuedEvent) (ev : DatagramEvent) (e : Endpoint) : Prop :=
  (de_kind (metadata ev) = SE_DATAGRAM_OVERFLOW ∧ event_bytes ev = [] ∧ delivered e = past) ∨
  (∃ q, delivered e = past ++ [q] ∧ metadata ev = GnsEndpoint.metadata q ∧ event_bytes ev = q_bytes q).
Lemma bytes_whole q tail : de_payload_size (GnsEndpoint.metadata q) = u32 (zlen (q_bytes q)) → zlen (q_bytes q) < 2 ^ 32 →
  event_bytes (mkEvent (GnsEndpoint.metadata q) (q_bytes q ++ tail)) = q_bytes q.
Proof.
  intros Hs Hb. unfold event_bytes. cbn [metadata payload]. pose proof (zlen_nonneg (q_bytes q)).
  rewrite Hs, u32_small by (unfold is_u32; lia). unfold zlen. rewrite Nat2Z.id. by rewrite take_app_length.
Qed.
Lemma take_outcome past first capacity e t e' ev : resting past first e → take_event capacity e = (t, e') → capacity < 2 ^ 32 →
  match t.1.1 with
  | SE_OK => reports past (answered ev t).2 e'
  | SE_TIMEOUT => first = None ∧ delivered e' = past
  | SE_STOPPED => delivered e' = past
  | SE_BUFFER_TOO_SMALL => e' = e ∧ ∃ q rest, events_ e = q :: rest ∧ t = (SE_BUFFER_TOO_SMALL, Some (GnsEndpoint.metadata q), []) ∧
      capacity < zlen (q_bytes q) ∧ (∀ q', first = Some q' → q' = q)
  | _ => False
  end.
Proof.
  intros [Hp Hw Hf] Ht Hc. unfold take_event in Ht. destruct (_ && _); [simplify_eq/=; by left|].
  destruct (stopped_ e) eqn:Hs; [by simplify_eq/=|]. destruct (events_ e) as [|q rest] eqn:He.
  { simplify_eq/=. split; [|done]. destruct first as [q|]; [|done]. by destruct (Hf q eq_refl) as [|[? ?]]. }
  unfold whole_queue in Hw. rewrite He in Hw. apply Forall_cons in Hw as [(_ & _ & Hsize) _]. destruct (_ <? _) eqn:Hl; bprop; simplify_eq/=.
  - split; [done|]. exists q, rest. split_and!; try done. intros q' Hq'. destruct (Hf _ Hq') as [|[rest' E]]; [done|]. congruence.
  - right. exists q. split_and!; [done|done|]. apply bytes_whole; [done|lia].
Qed.
Lemma head_bound n e q rest : good n e → events_ e = q :: rest → zlen (q_bytes q) < 2 ^ 32.
Proof.
  intros Hg He. pose proof (a_bytes _ (g_accounted _ _ Hg)) as Hb. pose proof (a_fits _ (g_accounted _ _ Hg)) as Hfit.
  destruct (b_options _ _ (g_base _ _ Hg)) as [_ _ _ Hmax _ _ _]. rewrite He, total_cons in Hb.
  assert (0 ≤ total cost rest) by (apply total_nonneg; intros x; unfold cost, sizeof_datagram_event; pose proof (zlen_nonneg (q_bytes x)); lia).
  unfold cost, sizeof_datagram_event in *. lia.
Qed.
(** After an attempt that asked for a larger buffer, the other attempt has it. *)
Lemma second_attempt h past q rest e buffer (between : Wake) r :
  supported = true → inv r → h ∈ endpoints r → objects r !! h = Some e → delivered e = past → whole_queue e →
  events_ e = q :: rest → Forall (calm h) between.1 →
  let '(a, r') := poll_into supported h 0 between.2 []
      (mkEvent (GnsEndpoint.metadata q) (resize (Z.to_nat (de_payload_size (GnsEndpoint.metadata q))) x00 buffer))
      (runs (step supported) r between.1) in
  ∃ st er ev' e', a = Some (st, er, ev') ∧ objects r' !! h = Some e' ∧
    match st with SE_OK => reports past ev' e' | SE_STOPPED => delivered e' = past | _ => False end.
Proof.
  intros Hsup Hi Hin He Hpast Hwhole Hq Hb.
  pose proof (head_bound _ _ _ _ (ri_good _ Hi _ _ He) Hq) as Hbound.
  pose proof Hwhole as Hwq. unfold whole_queue in Hwq. rewrite Hq in Hwq.
  apply Forall_cons in Hwq as [(Hsz & Hver & Hsize) _]. pose proof (zlen_nonneg (q_bytes q)).
  rewrite Hsize, u32_small by (unfold is_u32; lia). set (bigger := resize _ _ _).
  assert (u32 (zlen bigger) = zlen (q_bytes q)) as Hcap.
  { unfold bigger, zlen at 1. rewrite length_resize. unfold zlen. rewrite Nat2Z.id. apply u32_small. unfold is_u32, zlen in *. lia. }
  pose proof (calm_moved supported h _ Hb r Hi) as M2.
  assert (kept_at (resting past (Some q)) h r) as Hr1.
  { intros x Hx. rewrite He in Hx. injection Hx as <-. split; [done|done|]. intros ? [= <-]. right. by exists rest. }
  pose proof (calm_kept _ supported h _ Hb r Hr1) as Hr2. set (r2 := runs _ r _) in *.
  assert (h ∈ endpoints r2) as Hin2 by (by rewrite (mv_endpoints _ _ M2)).
  pose proof (poll_into_taken _ h 0 between.2 [] (mkEvent (GnsEndpoint.metadata q) bigger) r2 Hsup Hsz Hver Hin2 (Forall_nil_2 _) Hr2 (mv_inv _ _ M2)) as H3.
  destruct (poll_into _ _ _ _ _ _ _) as [a r3]. destruct H3 as ([t|] & -> & Ht3 & Hn3); [|by destruct (Hn3 eq_refl) as [[? _] _]].
  destruct Ht3 as (e2 & e3 & Hp2 & He3 & Ht3). cbn [payload] in Ht3. cbn [fmap option_fmap option_map].
  pose proof (take_outcome _ _ _ _ _ _ (mkEvent (GnsEndpoint.metadata q) bigger) Hp2 Ht3 (proj2 (u32_range _))) as Hout. unfold answered in *.
  pose proof (boundary_status t.1.1) as Hbs. destruct (boundary (Ok t.1.1)) as [st er2]. cbn [fst snd] in Hbs. subst st.
  destruct t as [[st next] data]. cbn [fst snd] in *. eexists _, _, _, e3. split; [done|]. split; [done|].
  destruct st; try done; [by destruct Hout|]. destruct Hout as (_ & q' & rest' & _ & _ & Hlt & Hfirst).
  rewrite (Hfirst q eq_refl) in Hcap. rewrite Hcap in Hlt. lia.
Qed.
(** From any state of the library that its invariants allow. *)
Lemma poll_endpoint_case s k h e timeout_ms first wakes between ev :
  supported = true → owned s → wholes (library s) → open_at k h s → objects (library s) !! h = Some e →
  wakes_calm h wakes → wakes_calm h [between] →
  let '(a, s') := poll_endpoint supported k timeout_ms first wakes between ev s in
  match a with
  | None => patient timeout_ms first ∧ Forall (λ w : Wake, rd_expired w.2 = false) wakes
  | Some (res, ev') => ∃ status e', res = Ok status ∧ objects (library s') !! h = Some e' ∧
      match status with
      | SE_OK => reports (delivered e) ev' e'
      | SE_TIMEOUT | SE_STOPPED => delivered e' = delivered e
      | _ => False
      end
  end.
Proof.
  intros Hsup Ho Hwh [Hk Hne] He Hw Hb. unfold poll_endpoint, ensure_open. rewrite Hk, (proj2 (Z.eqb_neq h 0) Hne).
  assert (h ∈ endpoints (library s)) as Hin by (apply (ow_all _ _ Ho); eauto).
  assert (kept_at (resting (delivered e) None) h (library s)) as Hr.
  { intros e0 He0. rewrite He in He0. injection He0 as <-. split; [done|by eapply Hwh|done]. }
  assert (∀ z, u32 z < 2 ^ 32) as Hu by (intros z; apply u32_range).
  pose proof (poll_into_taken _ h timeout_ms first wakes (mkEvent empty_event (payload ev)) _ Hsup eq_refl eq_refl Hin Hw Hr (ow_inv _ _ Ho)) as H1.
  pose proof (poll_into_moved h timeout_ms first wakes (mkEvent empty_event (payload ev)) _ (wakes_calm_plain _ _ Hw) (ow_inv _ _ Ho)) as M1.
  destruct (poll_into _ _ _ _ _ _ _) as [a r1]. destruct H1 as ([t|] & -> & Ht & Hn); [|by apply Hn].
  destruct Ht as (e0 & e1 & Hp & He1 & Ht). simpl in M1. cbn [fmap option_fmap option_map answered].
  pose proof (take_outcome _ _ _ _ _ _ (mkEvent empty_event (payload ev)) Hp Ht (Hu _)) as Hout. unfold answered in *.
  pose proof (boundary_status t.1.1) as Hbs. destruct (boundary (Ok t.1.1)) as [st er]. cbn [fst snd] in Hbs. subst st.
  destruct t as [[st next] data]. cbn [fst snd] in *. destruct st; try done.
  1-2,4: rewrite bool_decide_eq_false_2, poll_report_ok by done; eexists _, e1; split; [done|]; split; [done|]; tauto.
  rewrite bool_decide_eq_true_2 by done. destruct Hout as (-> & q & rest & Hq & [= -> ->] & _ & _).
  cbn [metadata payload length app]. rewrite drop_0. change (default empty_event (Some (GnsEndpoint.metadata q))) with (GnsEndpoint.metadata q).
  destruct Hp as [Hpast Hwhole _].
  pose proof (second_attempt h (delivered e) q rest e0 (payload ev) between r1 Hsup (mv_inv _ _ M1)) as H3.
  destruct (poll_into _ _ _ _ _ _ _) as [a r3]. destruct H3 as (st & er3 & ev' & e3 & -> & He3 & Hst); try done.
  { by rewrite (mv_endpoints _ _ M1). }
  { by apply Forall_cons in Hb as [Hb _]. }
  destruct st; try done; rewrite poll_report_ok by done; eexists _, e3; (split; [done|by split]).
Qed.
(** One call of the wrapper's poll on an open endpoint takes an event whole, whatever
    the size of its payload and of the buffer given, however long it waits, and whatever
    other threads do meanwhile, between its rounds and between its two attempts, except
    poll or destroy that endpoint: it never throws, and either finds nothing in time, or
    that the endpoint has stopped, or reports exactly the record and the bytes the endpoint
    gives up, or the event that tells of an overflow. It waits on only while it has a
    timeout and no round has seen it pass. *)
Theorem datagram_poll_whole calls k h e timeout_ms first wakes between ev :
  supported = true → Forall call_ok calls → open_at k h (run_sdk calls) → objects (library (run_sdk calls)) !! h = Some e →
  wakes_calm h wakes → wakes_calm h [between] →
  let '(a, s') := poll_endpoint supported k timeout_ms first wakes between ev (run_sdk calls) in
  match a with
  | None => patient timeout_ms first ∧ Forall (λ w : Wake, rd_expired w.2 = false) wakes
  | Some (res, ev') => ∃ status e', res = Ok status ∧ objects (library s') !! h = Some e' ∧
      match status with
      | SE_OK => reports (delivered e) ev' e'
      | SE_TIMEOUT | SE_STOPPED => delivered e' = delivered e
      | _ => False
      end
  end.
Proof. intros Hsup Hf. by apply poll_endpoint_case; [|apply run_sdk_owned|apply run_whole]. Qed.
End Ownership.

(** ** At work *)
Module Relay.
Import GnsProperties.Duel.
(** A buffer of no bytes. *)
Definition event : DatagramEvent := mkEvent empty_event [].
Definition calls : list SdkCall :=
  [Construct 1 options (mkCreated true 3 true []); ListenOn 1 9000 (txt "127.0.0.1") (made 5);
   PollOn 1 0 (round [change Connecting; change Connected] [txt "go"]) [] ([], quiet) event].
Definition after : Sdk := run_sdk true calls.
(** While the poll is between its attempts, another thread makes the endpoint drop the peer. *)
Definition polled : option (result Thrown se_status * DatagramEvent) * Sdk :=
  poll_endpoint true 1 50 quiet [] ([Disconnect id peer true], quiet) event after.
Lemma calls_ok : Forall call_ok calls.
Proof.
  apply Forall_cons. split; [split; unfold is_u32, is_u64; simpl; lia|]. apply Forall_cons. split; [done|].
  apply Forall_cons. split; [|constructor]. split; repeat constructor.
Qed.
End Relay.
Lemma datagram_objects_own_witness :
  open_at 1 Duel.id Relay.after ∧ initialized (library Relay.after) = true ∧
  (∀ res, balance (native (library (run_sdk true (Relay.calls ++ [MoveObject 2 1; Destruct 2])))) res = 0).
Proof.
  assert (open_at 1 Duel.id Relay.after) as Ho by (split; [vm_compute; reflexivity|vm_compute; discriminate]).
  split; [exact Ho|].
  destruct (datagram_objects_own true Relay.calls Relay.calls_ok) as (_ & _ & Hi & _).
  split; [apply Hi; exists 1, Duel.id; exact Ho|].
  assert (Forall call_ok (Relay.calls ++ [MoveObject 2 1; Destruct 2])) as Hc.
  { apply Forall_app. split; [exact Relay.calls_ok|]. by repeat constructor. }
  destruct (datagram_objects_own true _ Hc) as (_ & _ & _ & Hn). apply Hn. intros k h [Hk Hne].
  assert (handles (run_sdk true (Relay.calls ++ [MoveObject 2 1; Destruct 2])) = {[1 := 0]}) as E by (vm_compute; reflexivity).
  rewrite E in Hk. apply lookup_singleton_Some in Hk as [_ <-]. by apply Hne.
Defined.
Lemma datagram_poll_whole_witness :
  fst <$> Relay.polled.1 = Some (Ok SE_OK) ∧
  ∃ e e' ev, objects (library Relay.after) !! Duel.id = Some e ∧ reports (delivered e) ev e' ∧
    (event_bytes <$> (snd <$> Relay.polled.1)) = Some (event_bytes ev) ∧ event_bytes ev = txt "go".
Proof.
  split; [vm_compute; reflexivity|].
  destruct (objects (library Relay.after) !! Duel.id) as [e|] eqn:He; [|vm_compute in He; discriminate He].
  assert (open_at 1 Duel.id Relay.after) as Ho by (split; [vm_compute; reflexivity|vm_compute; discriminate]).
  assert (wakes_calm Duel.id [([Disconnect Duel.id Duel.peer true], Duel.quiet)]) as Hb by (by repeat constructor).
  pose proof (datagram_poll_whole true Relay.calls 1 Duel.id e 50 Duel.quiet [] ([Disconnect Duel.id Duel.peer true], Duel.quiet)
    Relay.event eq_refl Relay.calls_ok Ho He (Forall_nil_2 _) Hb) as T.
  change (poll_endpoint true 1 50 Duel.quiet [] ([Disconnect Duel.id Duel.peer true], Duel.quiet) Relay.event (run_sdk true Relay.calls)) with Relay.polled in T.
  assert (event_bytes <$> (snd <$> Relay.polled.1) = Some (txt "go")) as Hev by (vm_compute; reflexivity).
  assert (fst <$> Relay.polled.1 = Some (Ok SE_OK)) as Hst by (vm_compute; reflexivity).
  destruct Relay.polled as [[[res ev]|] s']; [|discriminate Hst]. simpl in Hev, Hst. injection Hst as ->. injection Hev as Hev.
  destruct T as (status & e' & Hs & _ & Hr). injection Hs as <-. exists e, e', ev. split; [reflexivity|]. split; [exact Hr|].
  split; [reflexivity|exact Hev].
Defined.
