(* ===== verification/IocpServer.v ===== *)
(** IocpServer: the completion-port backend ([src/src/Net/Iocp/]): the accept thread, the
    workers, the idle monitor, the owner and the application's threads, interleaved at
    every critical section and callback. A thread is a stack of frames, the next thing it
    does on top; a callback runs a script of the operations the application may call.
    Windows is the environment: which operation completes, with what, and whether a
    submission succeeds, are arguments of a step. *)
From S2P Require Import Prelude.
From S2P Require Import Text.
From S2P Require Import Kinds.
From S2P Require Import LineFramer.
From S2P Require Import RuntimeHub.

(** What the application does in a callback or on a thread of its own. *)
Inductive AppOp := AppSend (id : Z) (data : bytes) | AppDisconnect (id : Z).
(** The callbacks it receives. *)
Inductive Call := OnConnected (id : Z) | OnMessage (id : Z) (line : bytes) | OnDisconnected (id : Z) | OnError (text : bytes).

(** [src/src/Net/Iocp/Operation.h:15-43] An operation submitted to Windows. *)
Inductive OpKind := Receive | SendOp (buffer : bytes) (offset : Z).
Record Op := mkOp { o_conn : Z; o_kind : OpKind }.

(** [src/src/Net/Iocp/Connection.h:50-61] Without its constants. *)
Record Conn := mkConn {
  closing_ : bool; last_activity_ms_ : Z; send_queue_ : list bytes; send_in_progress_ : bool;
  messages_ : LineFramer; active_callbacks_ : Z; disconnect_notification_pending_ : bool;
}.
Definition with_closed c := mkConn true (last_activity_ms_ c) [] (send_in_progress_ c) (messages_ c)
  (active_callbacks_ c) (disconnect_notification_pending_ c).
Definition with_active n c := mkConn (closing_ c) (last_activity_ms_ c) (send_queue_ c) (send_in_progress_ c)
  (messages_ c) n (disconnect_notification_pending_ c).
Definition with_pending b c := mkConn (closing_ c) (last_activity_ms_ c) (send_queue_ c) (send_in_progress_ c)
  (messages_ c) (active_callbacks_ c) b.
Definition with_sends q b c := mkConn (closing_ c) (last_activity_ms_ c) q b (messages_ c) (active_callbacks_ c)
  (disconnect_notification_pending_ c).
Definition with_framer f c := mkConn (closing_ c) (last_activity_ms_ c) (send_queue_ c) (send_in_progress_ c) f
  (active_callbacks_ c) (disconnect_notification_pending_ c).
(** [src/src/Net/Iocp/Connection.cpp:25-28] *)
Definition mark_active (now : Z) c := mkConn (closing_ c) now (send_queue_ c) (send_in_progress_ c) (messages_ c)
  (active_callbacks_ c) (disconnect_notification_pending_ c).
(** [src/src/Net/Iocp/Connection.cpp:14-18] {Connection} *)
Definition new_conn (max now : Z) : Conn := mkConn false now [] false (new_framer max) 0 false.

(** Where a thread stands. The lifecycle frames are the owner's. *)
Inductive Frame :=
| AcceptLoop | Accepting (id : Z) | Admitting (id : Z) | Publishing (id : Z) | Connecting (id : Z)
| AfterConnected (id : Z)
| WorkerLoop | Completed (op : Op) (ok : bool) (transferred : Z) (data : bytes)
| CompleteSend (id : Z) (buffer : bytes) (offset transferred : Z) | FreeOp
| Deliver (id : Z) (data : bytes) | Feed (id : Z) (data : bytes) | PopLine (id : Z) | GiveLine (id : Z) (line : bytes)
| AfterDeliver (id : Z) | PostReceive (id : Z) | ReceiveFailed (id : Z) (text : bytes)
| IdleLoop | IdleScan (now : Z) (ids : list Z)
| EndScope (id : Z) | Disconnecting (id : Z) | Requesting (id : Z) | Notifying (id : Z) | Reporting (text : bytes)
| Script (ops : list AppOp) | SendTo (id : Z) (data : bytes) | SubmitSend (id : Z) (data : bytes)
| Stopping | JoinAccept | JoinIdle | CloseAll | CloseEach (ids : list Z) | Drain | WakeWorkers | JoinWorkers.

#[export] Instance app_op_eq_dec : EqDecision AppOp.
Proof. solve_decision. Defined.
#[export] Instance op_eq_dec : EqDecision Op.
Proof. assert (EqDecision OpKind) by solve_decision. solve_decision. Defined.
#[export] Instance frame_eq_dec : EqDecision Frame.
Proof. solve_decision. Defined.

(** [src/src/Net/Iocp/Server.h:61-72] With the operations at Windows ([inflight]), the null
    completions posted and the threads. *)
Record Iocp := mkIocp {
  options_ : TcpServerOptions; running_ : bool; next_connection_id_ : Z; connections_ : gset Z;
  conns : gmap Z Conn; inflight : gmap Z Op; next_op : Z; pending_operations_ : Z; wakes : Z; workers : Z;
  threads : gmap Z (list Frame); calls : list Call;
}.
Definition with_running b s := mkIocp (options_ s) b (next_connection_id_ s) (connections_ s) (conns s) (inflight s)
  (next_op s) (pending_operations_ s) (wakes s) (workers s) (threads s) (calls s).
Definition with_next n s := mkIocp (options_ s) (running_ s) n (connections_ s) (conns s) (inflight s)
  (next_op s) (pending_operations_ s) (wakes s) (workers s) (threads s) (calls s).
Definition with_connections r s := mkIocp (options_ s) (running_ s) (next_connection_id_ s) r (conns s) (inflight s)
  (next_op s) (pending_operations_ s) (wakes s) (workers s) (threads s) (calls s).
Definition with_conn id c s := mkIocp (options_ s) (running_ s) (next_connection_id_ s) (connections_ s)
  (<[id := c]> (conns s)) (inflight s) (next_op s) (pending_operations_ s) (wakes s) (workers s) (threads s) (calls s).
Definition with_inflight i n p s := mkIocp (options_ s) (running_ s) (next_connection_id_ s) (connections_ s) (conns s)
  i n p (wakes s) (workers s) (threads s) (calls s).
Definition with_wakes w s := mkIocp (options_ s) (running_ s) (next_connection_id_ s) (connections_ s) (conns s)
  (inflight s) (next_op s) (pending_operations_ s) w (workers s) (threads s) (calls s).
Definition with_threads t s := mkIocp (options_ s) (running_ s) (next_connection_id_ s) (connections_ s) (conns s)
  (inflight s) (next_op s) (pending_operations_ s) (wakes s) (workers s) t (calls s).
Definition with_call c s := mkIocp (options_ s) (running_ s) (next_connection_id_ s) (connections_ s) (conns s)
  (inflight s) (next_op s) (pending_operations_ s) (wakes s) (workers s) (threads s) (calls s ++ [c]).

(** The threads by number; the application's are the others. *)
Definition owner_thread : Z := -1.
Definition accept_thread : Z := 0.
Definition idle_thread : Z := 1.
Definition worker_thread (k : Z) : Z := 2 + k.
Definition finished s (t : Z) : bool := match threads s !! t with Some (_ :: _) => false | _ => true end.

(** What the system and the application do at a step. *)
Inductive Waited := WaitError | Nothing | WouldBlock | AcceptError | Client.
Record Env := mkEnv {
  e_wait : Waited; e_ok : bool; e_submit : bool; e_text : bytes; e_now : Z; e_script : list AppOp;
  e_pick : option Z; e_transferred : Z; e_data : bytes;
}.

(** ** Operations given to Windows *)
(** [src/src/Net/Iocp/Connection.cpp:131-164] {submit} With the operation's construction
    ([Operation.h:21-25]); a failure destroys it. *)
Definition submit_new (op : Op) (e : Env) s : bool * Iocp :=
  if e_submit e
  then (true, with_inflight (<[next_op s := op]> (inflight s)) (next_op s + 1) (pending_operations_ s + 1) s)
  else (false, s).
(** [src/src/Net/Iocp/CompletionPort.cpp:55-61] *)
Definition operation_finished s : Iocp :=
  with_inflight (inflight s) (next_op s) (pending_operations_ s - 1) s.
(** [src/src/Net/Iocp/Connection.cpp:97-114] *)
Definition post_next_send id c (e : Env) s : bool * Iocp :=
  match send_queue_ c with
  | [] => (true, with_conn id (with_sends [] false c) s)
  | data :: rest =>
      let '(ok, s) := submit_new (mkOp id (SendOp data 0)) e s in
      (ok, with_conn id (with_sends rest ok c) s)
  end.

(** ** The accept thread *)
(** [src/src/Net/Iocp/ServerAccept.cpp:6-40] {accept_loop} Up to the new identifier. *)
Definition accept_step (e : Env) s : list Frame * Iocp :=
  if negb (running_ s) then ([], s)
  else match e_wait e with
  | WaitError => ([Reporting (txt "select(listener) failed: " ++ e_text e); AcceptLoop], s)
  | Nothing | WouldBlock => ([AcceptLoop], s)
  | AcceptError => ([Reporting (txt "accept() failed: " ++ e_text e); AcceptLoop], s)
  | Client => ([Accepting (next_connection_id_ s); AcceptLoop], with_next (u64 (next_connection_id_ s + 1)) s)
  end.
(** [src/src/Net/Iocp/ServerAccept.cpp:48-69] {accept_loop} The capacity, the association
    with the port, and the new connection's first callback begun. *)
Definition admit_step id (e : Env) s : list Frame * Iocp :=
  if to_max_connections (options_ s) <=? Z.of_nat (size (connections_ s))
  then ([Reporting (txt "connection rejected: max TCP IOCP connections reached")], s)
  else if negb (e_ok e) then ([Reporting (e_text e)], s)
  else ([Publishing id],
        with_conn id (with_active 1 (new_conn (to_max_message_bytes (options_ s)) (e_now e))) s).

(** ** Connections *)
(** [src/src/Net/Iocp/ServerConnections.cpp:45-59] {disconnect} The critical section, with
    [Connection::close] ([Connection.cpp:30-42]) inside it. *)
Definition disconnect_step id s : list Frame * Iocp :=
  if decide (id ∈ connections_ s)
  then match conns s !! id with
  | Some c => ([Requesting id], with_connections (connections_ s ∖ {[id]}) (with_conn id (with_closed c) s))
  | None => ([], s)
  end
  else ([], s).
(** [src/src/Net/Iocp/Connection.cpp:65-73] *)
Definition request_disconnect_notification c : bool * Conn :=
  if active_callbacks_ c =? 0 then (true, c) else (false, with_pending true c).
(** [src/src/Net/Iocp/Connection.cpp:54-63] *)
Definition end_callback c : bool * Conn :=
  let c := with_active (active_callbacks_ c - 1) c in
  if (active_callbacks_ c =? 0) && disconnect_notification_pending_ c then (true, with_pending false c)
  else (false, c).
(** [src/src/Net/Iocp/Connection.cpp:44-52] *)
Definition begin_callback c : bool * Conn :=
  if closing_ c then (false, c) else (true, with_active (active_callbacks_ c + 1) c).
(** [src/src/Net/Iocp/Connection.cpp:75-83] *)
Definition post_receive id c (e : Env) s : result bytes unit * Iocp :=
  if closing_ c then (Err (txt "connection is closing"), s)
  else let '(ok, s) := submit_new (mkOp id Receive) e s in
       (if ok then Ok tt else Err (txt "WSARecv() failed: " ++ e_text e), s).
(** [src/src/Net/Iocp/Connection.cpp:85-95] {send} *)
Definition conn_send id c (data : bytes) (e : Env) s : bool * Iocp :=
  if closing_ c then (false, s)
  else
    let c := with_sends (send_queue_ c ++ [data]) (send_in_progress_ c) c in
    if send_in_progress_ c then (true, with_conn id c s) else post_next_send id c e s.
(** [src/src/Net/Iocp/Connection.cpp:116-129] The operation is destroyed unless it is
    submitted again for what is left of it. *)
Definition complete_send id c (buffer : bytes) (offset transferred : Z) (e : Env) s : bool * Iocp :=
  if closing_ c then (true, operation_finished s)
  else
    let c := mark_active (e_now e) c in
    let offset := offset + transferred in
    if offset <? zlen buffer
    then if e_submit e
      then (true, with_inflight (<[next_op s := mkOp id (SendOp buffer offset)]> (inflight s)) (next_op s + 1)
                    (pending_operations_ s) (with_conn id c s))
      else (false, operation_finished (with_conn id c s))
    else let '(ok, s) := post_next_send id c e s in (ok, operation_finished s).

(** ** The workers *)
(** [src/src/Net/Iocp/ServerIo.cpp:10-18] {worker_loop} [None] is a wait. *)
Definition worker_step (e : Env) s : option (list Frame * Iocp) :=
  match e_pick e with
  | None => if 0 <? wakes s then Some ([], with_wakes (wakes s - 1) s) else None
  | Some k =>
      match inflight s !! k with
      | None => None
      | Some op =>
          Some ([Completed op (e_ok e) (e_transferred e) (e_data e); WorkerLoop],
                with_inflight (delete k (inflight s)) (next_op s) (pending_operations_ s) s)
      end
  end.
(** [src/src/Net/Iocp/ServerIo.cpp:20-37] {worker_loop} *)
Definition completed_step (op : Op) (ok : bool) (transferred : Z) (data : bytes) (e : Env) s : list Frame * Iocp :=
  let id := o_conn op in
  match conns s !! id with
  | None => ([], s)
  | Some c =>
      if negb ok || (transferred =? 0) || negb (running_ s) || closing_ c then ([Disconnecting id; FreeOp], s)
      else match o_kind op with
      | SendOp buffer offset => ([CompleteSend id buffer offset transferred], s)
      | Receive => ([Deliver id (take (Z.to_nat transferred) data); FreeOp], with_conn id (mark_active (e_now e) c) s)
      end
  end.
(** [src/src/Net/Iocp/ServerIo.cpp:41-52] {deliver_received} *)
Definition feed_step id (data : bytes) s : list Frame * Iocp :=
  match conns s !! id with
  | None => ([], s)
  | Some c =>
      if negb (running_ s) then ([EndScope id], s)
      else match append data (messages_ c) with
      | (true, f) => ([PopLine id], with_conn id (with_framer f c) s)
      | (false, f) =>
          ([Reporting (txt "connection closed: message exceeds max_message_bytes"); Disconnecting id; EndScope id],
           with_conn id (with_framer f c) s)
      end
  end.
(** [src/src/Net/Iocp/ServerIo.cpp:54-63] {deliver_received} *)
Definition pop_step id s : list Frame * Iocp :=
  match conns s !! id with
  | None => ([], s)
  | Some c =>
      match try_pop (messages_ c) with
      | (Some line, f) => ([GiveLine id line], with_conn id (with_framer f c) s)
      | (None, f) => ([EndScope id; AfterDeliver id], with_conn id (with_framer f c) s)
      end
  end.
(** [src/src/Net/Iocp/ServerConnections.cpp:99-110] {idle_monitor_loop} *)
Definition idle_expired (now idle : Z) c : bool :=
  negb (closing_ c) && (0 <? last_activity_ms_ c) && (last_activity_ms_ c <=? now)
  && (idle <=? now - last_activity_ms_ c).

(** ** One frame *)
Definition on_conn id s (f : Conn → list Frame * Iocp) : list Frame * Iocp :=
  match conns s !! id with Some c => f c | None => ([], s) end.
(** [src/src/Net/Iocp/ServerConnections.cpp:22-43] and the callers of the operations above.
    What the frame becomes and the new state; [None] when it waits. *)
Definition frame_step (f : Frame) (e : Env) s : option (list Frame * Iocp) :=
  match f with
  | AcceptLoop => Some (accept_step e s)
  | Accepting id =>
      Some (if negb (e_ok e) || negb (running_ s) then [] else [Admitting id], s)
  | Admitting id => Some (admit_step id e s)
  | Publishing id => Some ([Connecting id], with_connections ({[id]} ∪ connections_ s) s)
  | Connecting id =>
      Some ([Script (e_script e); EndScope id; AfterConnected id], with_call (OnConnected id) s)
  | AfterConnected id =>
      Some (on_conn id s (λ c, (if negb (running_ s) || closing_ c then [Disconnecting id] else [PostReceive id], s)))
  | WorkerLoop => worker_step e s
  | Completed op ok n data => Some (completed_step op ok n data e s)
  | CompleteSend id buffer offset transferred =>
      Some (on_conn id s (λ c,
        let '(ok, s) := complete_send id c buffer offset transferred e s in
        (if ok then [] else [Reporting (txt "WSASend() failed: " ++ e_text e); Disconnecting id], s)))
  | FreeOp => Some ([], operation_finished s)
  | Deliver id data =>
      Some (on_conn id s (λ c,
        let '(entered, c) := begin_callback c in (if entered then [Feed id data] else [], with_conn id c s)))
  | Feed id data => Some (feed_step id data s)
  | PopLine id => Some (pop_step id s)
  | GiveLine id line =>
      Some (on_conn id s (λ c,
        if negb (running_ s) || closing_ c then ([EndScope id], s)
        else ([Script (e_script e); PopLine id], with_call (OnMessage id line) s)))
  | AfterDeliver id =>
      Some (on_conn id s (λ c, (if negb (running_ s) || closing_ c then [] else [PostReceive id], s)))
  | PostReceive id =>
      Some (on_conn id s (λ c,
        match post_receive id c e s with
        | (Ok _, s) => ([], s)
        | (Err text, s) => ([ReceiveFailed id text], s)
        end))
  | ReceiveFailed id text =>
      Some (on_conn id s (λ c, ((if closing_ c then [] else [Reporting text]) ++ [Disconnecting id], s)))
  | IdleLoop =>
      Some (if negb (running_ s) then []
            else if to_idle_timeout_ms (options_ s) =? 0 then [IdleLoop]
            else [IdleScan (e_now e) (elements (connections_ s)); IdleLoop], s)
  | IdleScan now [] => Some ([], s)
  | IdleScan now (id :: ids) =>
      Some (match conns s !! id with
            | Some c => if idle_expired now (to_idle_timeout_ms (options_ s)) c
                        then [Disconnecting id; IdleScan now ids] else [IdleScan now ids]
            | None => [IdleScan now ids]
            end, s)
  | EndScope id =>
      Some (on_conn id s (λ c,
        let '(notify, c) := end_callback c in (if notify then [Notifying id] else [], with_conn id c s)))
  | Disconnecting id => Some (disconnect_step id s)
  | Requesting id =>
      Some (on_conn id s (λ c,
        let '(notify, c) := request_disconnect_notification c in
        (if notify then [Notifying id] else [], with_conn id c s)))
  | Notifying id => Some ([Script (e_script e)], with_call (OnDisconnected id) s)
  | Reporting text => Some ([Script (e_script e)], with_call (OnError text) s)
  | Script [] => Some ([], s)
  | Script (AppSend id data :: ops) => Some ([SendTo id data; Script ops], s)
  | Script (AppDisconnect id :: ops) => Some ([Disconnecting id; Script ops], s)
  | SendTo id data =>
      Some (if bool_decide (data = []) then [] else if decide (id ∈ connections_ s) then [SubmitSend id data] else [], s)
  | SubmitSend id data =>
      Some (on_conn id s (λ c,
        let '(ok, s) := conn_send id c data e s in (if ok then [] else [Disconnecting id], s)))
  | Stopping =>
      Some (if running_ s then ([JoinAccept; JoinIdle; CloseAll; Drain; WakeWorkers; JoinWorkers], with_running false s)
            else ([], s))
  | JoinAccept => if finished s accept_thread then Some ([], s) else None
  | JoinIdle => if finished s idle_thread then Some ([], s) else None
  | CloseAll => Some ([CloseEach (elements (connections_ s))], s)
  | CloseEach [] => Some ([], s)
  | CloseEach (id :: ids) => Some ([Disconnecting id; CloseEach ids], s)
  | Drain => if pending_operations_ s =? 0 then Some ([], s) else None
  | WakeWorkers => Some ([], with_wakes (wakes s + workers s) s)
  | JoinWorkers =>
      if forallb (λ k, finished s (worker_thread k)) (seqZ 0 (workers s)) then Some ([], s) else None
  end.

(** ** Steps *)
(** A thread runs its top frame. *)
Definition run_thread (t : Z) (e : Env) s : Iocp :=
  match threads s !! t with
  | Some (f :: rest) =>
      match frame_step f e s with
      | Some (fs, s) => with_threads (<[t := fs ++ rest]> (threads s)) s
      | None => s
      end
  | _ => s
  end.
(** [src/src/Net/Iocp/ServerLifecycle.cpp:17-52] [opened]: whether the listener and the
    port open; [created]: how many threads can be created. *)
Definition start (o : TcpServerOptions) (opened : bool) (created : Z) s : Iocp :=
  if running_ s || negb opened then s
  else
    let worker_count := Z.max 1 (to_worker_count o) in
    let order := ((λ k, (worker_thread k, [WorkerLoop])) <$> seqZ 0 worker_count)
      ++ [(accept_thread, [AcceptLoop]); (idle_thread, [IdleLoop])] in
    let n := Z.min worker_count (Z.max 0 created) in
    let s := mkIocp o true (next_connection_id_ s) (connections_ s) (conns s) (inflight s) (next_op s)
      (pending_operations_ s) 0 n
      (foldl (λ t x, <[x.1 := x.2]> t) (threads s) (take (Z.to_nat created) order)) (calls s) in
    if created <? zlen order then with_threads (<[owner_thread := [Stopping]]> (threads s)) s else s.
Inductive Action :=
| Start (o : TcpServerOptions) (opened : bool) (created : Z) | Stop | Spawn (t : Z) (ops : list AppOp) | Run (t : Z) (e : Env).
(** The owner calls [start] and [stop] one after the other; the application calls from
    any thread of its own. *)
Definition step s (a : Action) : Iocp :=
  match a with
  | Start o opened created => if finished s owner_thread then start o opened created s else s
  | Stop => if finished s owner_thread then with_threads (<[owner_thread := [Stopping]]> (threads s)) s else s
  | Spawn t ops =>
      if (t <? owner_thread) && finished s t then with_threads (<[t := [Script ops]]> (threads s)) s else s
  | Run t e => run_thread t e s
  end.
Definition new_server (o : TcpServerOptions) : Iocp := mkIocp o false 1 ∅ ∅ ∅ 0 0 0 0 ∅ [].
