(* ===== verification/IocpInvariant.v ===== *)
(** IocpInvariant: the accounting of the completion-port backend. Every obligation to a
    connection (a callback begun, a notification owed, a receive in progress) is a frame
    of some thread, an operation at Windows or a flag of the connection; the invariant
    counts them, and each step keeps the counts. *)
From S2P Require Import Prelude.
From S2P Require Import Text.
From S2P Require Import Kinds.
From S2P Require Import LineFramer.
From S2P Require Import RuntimeHub.
From S2P Require Import IocpServer.

(** ** Counting frames and operations *)
Inductive Kind := KPub | KCon | KEnd | KFeed | KRecv | KSend | KReq | KNot | KPrep.
(** The kind of obligation a frame stands for, and to which connection. *)
Definition frame_kind (f : Frame) : option (Kind * Z) :=
  match f with
  | Accepting id | Admitting id => Some (KPrep, id)
  | Publishing id => Some (KPub, id)
  | Connecting id => Some (KCon, id)
  | EndScope id => Some (KEnd, id)
  | Feed id _ | PopLine id | GiveLine id _ => Some (KFeed, id)
  | AfterConnected id | PostReceive id | Deliver id _ | AfterDeliver id => Some (KRecv, id)
  | Completed op _ _ _ => Some (match o_kind op with Receive => KRecv | SendOp _ _ => KSend end, o_conn op)
  | CompleteSend id _ _ _ => Some (KSend, id)
  | Requesting id => Some (KReq, id)
  | Notifying id => Some (KNot, id)
  | _ => None
  end.
Definition kind_eqb (k k' : Kind) : bool :=
  match k, k' with
  | KPub, KPub | KCon, KCon | KEnd, KEnd | KFeed, KFeed | KRecv, KRecv | KSend, KSend | KReq, KReq | KNot, KNot
  | KPrep, KPrep => true
  | _, _ => false
  end.
Definition weight (k : Kind) (id : Z) (f : Frame) : Z :=
  match frame_kind f with Some (k', id') => if kind_eqb k k' && (id =? id') then 1 else 0 | None => 0 end.
(** A frame that holds an operation Windows gave back. *)
Definition holds (f : Frame) : Z :=
  match f with Completed _ _ _ _ | CompleteSend _ _ _ _ | FreeOp => 1 | _ => 0 end.
Definition summed (w : Frame → Z) (s : Iocp) : Z := map_total (total w) (threads s).
Definition wt (s : Iocp) (k : Kind) (id : Z) : Z := summed (weight k id) s.
#[global] Arguments wt : simpl never.
Definition op_weight (receive : bool) (id : Z) (op : Op) : Z :=
  if (o_conn op =? id) && Bool.eqb receive (match o_kind op with Receive => true | SendOp _ _ => false end) then 1 else 0.
Definition ops (s : Iocp) (receive : bool) (id : Z) : Z := map_total (op_weight receive id) (inflight s).

Lemma weight_nonneg k id f : 0 ≤ weight k id f.
Proof. unfold weight. repeat case_match; lia. Qed.
Lemma holds_nonneg f : 0 ≤ holds f.
Proof. destruct f; simpl; lia. Qed.
Lemma op_weight_nonneg r id op : 0 ≤ op_weight r id op.
Proof. unfold op_weight. case_match; lia. Qed.
Lemma ops_nonneg s r id : 0 ≤ ops s r id.
Proof. apply map_total_nonneg. intros op. apply op_weight_nonneg. Qed.
Lemma summed_top w s t f rest : (∀ f, 0 ≤ w f) → threads s !! t = Some (f :: rest) → w f ≤ summed w s.
Proof.
  intros Hw Ht. assert (w f ≤ total w (f :: rest)) as H1.
  { rewrite total_cons. pose proof (total_nonneg w rest Hw). lia. }
  etransitivity; [exact H1|]. apply (map_total_le _ _ t); [|done]. intros l. by apply total_nonneg.
Qed.
(** A thread replaces its top frame. *)
Lemma summed_run w s s' t f rest fs : threads s !! t = Some (f :: rest) → threads s' = threads s →
  summed w (with_threads (<[t := fs ++ rest]> (threads s')) s') = summed w s - w f + total w fs.
Proof.
  intros Ht ->. unfold summed. simpl. rewrite (map_total_update _ _ _ _ _ Ht), total_app, total_cons. lia.
Qed.

(** ** What each connection is owed *)
Definition about (c : Call) : option Z :=
  match c with OnConnected id | OnMessage id _ | OnDisconnected id => Some id | OnError _ => None end.
Definition word_of (l : list Call) (id : Z) : list Call := filter (λ c, about c = Some id) l.
Abbreviation word s id := (word_of (calls s) id).
Definition begun (id : Z) (ms : list bytes) : list Call := OnConnected id :: (OnMessage id <$> ms).
Lemma begun_snoc id ms line : begun id ms ++ [OnMessage id line] = begun id (ms ++ [line]).
Proof. unfold begun. by rewrite fmap_app. Qed.
Definition b2z (b : bool) : Z := if b then 1 else 0.

(** The history of a connection: not told yet, open, or over. *)
Inductive Told (id : Z) : Z → Z → list Call → Prop :=
| told_nothing : Told id 1 0 []
| told_open ms : Told id 0 0 (begun id ms)
| told_over ms : Told id 0 1 (begun id ms ++ [OnDisconnected id]).
Record owed (id : Z) (c : Conn) (reg : bool) (w : Kind → Z) (receives sends d : Z) (l : list Call) : Prop := {
  ow_token : b2z reg + b2z (disconnect_notification_pending_ c) + w KPub + w KReq + w KNot + d = 1;
  ow_active : active_callbacks_ c = w KPub + w KCon + w KEnd + w KFeed;
  ow_closing : b2z (negb (closing_ c)) = b2z reg + w KPub;
  ow_pending : disconnect_notification_pending_ c = true → 1 ≤ active_callbacks_ c;
  ow_quiet : 1 ≤ w KNot + d → active_callbacks_ c = 0;
  ow_receive : w KPub + w KCon + w KFeed + w KRecv + receives ≤ 1;
  ow_send : w KSend + sends ≤ b2z (send_in_progress_ c);
  ow_prep : w KPrep = 0;
  ow_told : Told id (w KPub + w KCon) d l;
}.
Definition ok (id : Z) (c : option Conn) (reg : bool) (w : Kind → Z) (receives sends : Z) (l : list Call) : Prop :=
  match c with
  | None => reg = false ∧ (∀ k, k ≠ KPrep → w k = 0) ∧ w KPrep ≤ 1 ∧ receives = 0 ∧ sends = 0 ∧ l = []
  | Some c => ∃ d, owed id c reg w receives sends d l
  end.
Definition ok_at (s : Iocp) (id : Z) : Prop :=
  ok id (conns s !! id) (bool_decide (id ∈ connections_ s)) (λ k, wt s k id) (ops s true id) (ops s false id) (word s id).
(** After [n] steps. *)
Record inv (n : Z) (s : Iocp) : Prop := {
  iv_ok id : ok_at s id;
  iv_next : 1 ≤ next_connection_id_ s ≤ 1 + n;
  iv_fresh id : next_connection_id_ s ≤ id → conns s !! id = None ∧ wt s KPrep id = 0;
  iv_pending : pending_operations_ s = msize (inflight s) + summed holds s;
  iv_ops k op : inflight s !! k = Some op → k < next_op s;
}.
Lemma ok_ext id c reg w w' r q l : (∀ k, w' k = w k) → ok id c reg w r q l → ok id c reg w' r q l.
Proof.
  intros Hw. destruct c as [c|]; simpl.
  - intros [d []]. exists d. by split; rewrite ?Hw.
  - intros (? & Hk & ? & ?). rewrite Hw. split_and!; try done; [|apply H1..]. intros k Hne. rewrite Hw. by apply Hk.
Qed.

(** ** Steps that concern one connection *)
Record local (id0 : Z) (s s' : Iocp) : Prop := {
  lc_threads : threads s' = threads s;
  lc_conns id : id ≠ id0 → conns s' !! id = conns s !! id;
  lc_reg id : id ≠ id0 → (id ∈ connections_ s' ↔ id ∈ connections_ s);
  lc_ops r id : id ≠ id0 → ops s' r id = ops s r id;
  lc_word id : id ≠ id0 → word s' id = word s id;
}.
Lemma local_refl id0 s : local id0 s s.
Proof. by split. Qed.
Lemma local_trans id0 s s' s'' : local id0 s s' → local id0 s' s'' → local id0 s s''.
Proof.
  intros [] []. split; try congruence; intros; [rewrite lc_conns1|rewrite lc_reg1|rewrite lc_ops1|rewrite lc_word1]; auto.
Qed.
Lemma local_conn id c s : local id s (with_conn id c s).
Proof. split; try done. intros id' Hne. simpl. by rewrite lookup_insert_ne. Qed.
Lemma local_call c id s : about c = Some id → local id s (with_call c s).
Proof.
  intros Hc. split; try done. intros id' Hne. unfold word_of. simpl. rewrite filter_app, filter_cons, decide_False by congruence.
  by rewrite app_nil_r.
Qed.
Lemma told_word c id s : about c = Some id → word (with_call c s) id = word s id ++ [c].
Proof. intros Hc. unfold word_of. simpl. by rewrite filter_app, filter_cons, decide_True by done. Qed.
Lemma local_add id s : local id s (with_connections ({[id]} ∪ connections_ s) s).
Proof. split; try done. intros id' Hne. simpl. set_solver. Qed.
Lemma local_remove id s : local id s (with_connections (connections_ s ∖ {[id]}) s).
Proof. split; try done. intros id' Hne. simpl. set_solver. Qed.
Lemma op_weight_other r id op : id ≠ o_conn op → op_weight r id op = 0.
Proof. intros Hne. unfold op_weight. by rewrite (proj2 (Z.eqb_neq _ _)) by congruence. Qed.
Lemma ops_insert k op r id n p s : inflight s !! k = None →
  ops (with_inflight (<[k := op]> (inflight s)) n p s) r id = ops s r id + op_weight r id op.
Proof. intros Hk. unfold ops. simpl. rewrite map_total_insert by done. lia. Qed.
Lemma ops_delete k op r id n p s : inflight s !! k = Some op →
  ops (with_inflight (delete k (inflight s)) n p s) r id = ops s r id - op_weight r id op.
Proof. intros Hk. unfold ops. simpl. by rewrite (map_total_delete _ _ _ _ Hk). Qed.
Lemma local_submit k op n p s : inflight s !! k = None →
  local (o_conn op) s (with_inflight (<[k := op]> (inflight s)) n p s).
Proof. intros Hk. split; try done. intros r id Hne. rewrite ops_insert, op_weight_other by done. lia. Qed.
Lemma local_complete k op n p s : inflight s !! k = Some op →
  local (o_conn op) s (with_inflight (delete k (inflight s)) n p s).
Proof. intros Hk. split; try done. intros r id Hne. rewrite (ops_delete _ _ _ _ _ _ _ Hk), op_weight_other by done. lia. Qed.
Lemma local_finished id s : local id s (operation_finished s).
Proof. by split. Qed.

(** The globals, given how many operations threads hold. *)
Definition globals (n held : Z) (s : Iocp) : Prop :=
  1 ≤ next_connection_id_ s ≤ 1 + n ∧ pending_operations_ s = msize (inflight s) + held ∧
  ∀ k op, inflight s !! k = Some op → k < next_op s.
Definition of_conn (id0 : Z) (f : Frame) : Prop :=
  match frame_kind f with Some (_, id) => id = id0 | None => True end.
Lemma weight_other k id id0 f : of_conn id0 f → id ≠ id0 → weight k id f = 0.
Proof.
  unfold of_conn, weight. destruct (frame_kind f) as [[k' id']|]; [|done]. intros -> Hne.
  rewrite (proj2 (Z.eqb_neq id id0)) by done. by rewrite andb_false_r.
Qed.
Lemma total_zero w (fs : list Frame) : Forall (λ f, w f = 0) fs → total w fs = 0.
Proof. induction 1 as [|f fs Hf _ IH]; [done|]. rewrite total_cons. lia. Qed.

Lemma frame_rule n n' s t f rest fs s' id0 : inv n s → threads s !! t = Some (f :: rest) → local id0 s s' →
  Forall (of_conn id0) (f :: fs) →
  ok id0 (conns s' !! id0) (bool_decide (id0 ∈ connections_ s'))
    (λ k, wt s k id0 - weight k id0 f + total (weight k id0) fs) (ops s' true id0) (ops s' false id0) (word s' id0) →
  globals n' (summed holds s - holds f + total holds fs) s' →
  id0 < next_connection_id_ s' → next_connection_id_ s ≤ next_connection_id_ s' →
  inv n' (with_threads (<[t := fs ++ rest]> (threads s')) s').
Proof.
  intros Hi Ht Hl Hf Hok (Hn & Hp & Ho) Hid Hmono.
  pose proof (λ w, summed_run w s s' t f rest fs Ht (lc_threads _ _ _ Hl)) as Hsum.
  set (s2 := with_threads _ s') in *.
  assert (∀ k id, id ≠ id0 → wt s2 k id = wt s k id) as Hother.
  { intros k id Hne. unfold wt. rewrite Hsum. apply Forall_cons in Hf as [Hf Hfs].
    rewrite (weight_other k id id0 f Hf Hne), total_zero; [lia|].
    eapply Forall_impl; [done|]. intros g Hg. by eapply weight_other. }
  split; try done.
  - intros id. destruct (decide (id = id0)) as [->|Hne].
    + unfold ok_at. eapply ok_ext; [|exact Hok]. intros k. apply Hsum.
    + pose proof (iv_ok _ _ Hi id) as Hid'. unfold ok_at in *. simpl.
      rewrite (lc_conns _ _ _ Hl _ Hne), (bool_decide_ext _ _ (lc_reg _ _ _ Hl _ Hne)).
      change (ops s2) with (ops s'). rewrite !(lc_ops _ _ _ Hl) by done. rewrite (lc_word _ _ _ Hl _ Hne).
      eapply ok_ext; [|exact Hid']. intros k. by apply Hother.
  - intros id Hge. assert (id ≠ id0) as Hne by (simpl in Hge; lia). simpl. rewrite (lc_conns _ _ _ Hl _ Hne).
    rewrite Hother by done. apply (iv_fresh _ _ Hi). simpl in Hge. lia.
  - simpl. by rewrite Hp, Hsum.
Qed.
(** A step that concerns no connection. *)
Lemma quiet_rule n n' s t f rest fs s' : inv n s → threads s !! t = Some (f :: rest) → threads s' = threads s →
  Forall (λ f, frame_kind f = None) (f :: fs) → conns s' = conns s → connections_ s' = connections_ s →
  inflight s' = inflight s → (∀ id, word s' id = word s id) → next_connection_id_ s' = next_connection_id_ s →
  next_op s' = next_op s → pending_operations_ s' = pending_operations_ s - holds f + total holds fs → n ≤ n' →
  inv n' (with_threads (<[t := fs ++ rest]> (threads s')) s').
Proof.
  intros Hi Ht Hth Hf Hc Hr Hin Hw Hnx Hno Hp Hle.
  pose proof (λ w, summed_run w s s' t f rest fs Ht Hth) as Hsum.
  set (s2 := with_threads _ s') in *.
  assert (∀ k id, wt s2 k id = wt s k id) as Hwt.
  { intros k id. unfold wt. rewrite Hsum. apply Forall_cons in Hf as [Hf Hfs]. unfold weight at 2. rewrite Hf, total_zero; [lia|].
    eapply Forall_impl; [done|]. intros g Hg. unfold weight. by rewrite Hg. }
  destruct Hi as [Hok Hn Hfr Hpe Ho]. split; simpl.
  - intros id. specialize (Hok id). unfold ok_at, ops in *. simpl. rewrite Hc, Hr, Hin, Hw.
    eapply ok_ext; [|exact Hok]. intros k. apply Hwt.
  - rewrite Hnx. lia.
  - intros id Hge. rewrite Hc, Hwt. apply Hfr. by rewrite <- Hnx.
  - rewrite Hin, Hp, Hsum. lia.
  - rewrite Hin, Hno. done.
Qed.
