(* ===== verification/IocpSteps.v ===== *)
(** IocpSteps: every frame of every thread keeps the accounting of [IocpInvariant]. *)
From S2P Require Import Prelude.
From S2P Require Import Text.
From S2P Require Import Kinds.
From S2P Require Import LineFramer.
From S2P Require Import RuntimeHub.
From S2P Require Import IocpServer.
From S2P Require Import IocpInvariant.

Section Frames.
Context (n : Z) (s : Iocp) (t : Z) (f : Frame) (rest : list Frame) (e : Env).
Hypothesis Hi : inv n s.
Hypothesis Ht : threads s !! t = Some (f :: rest).

Lemma top_count k id : weight k id f ≤ wt s k id.
Proof. apply (summed_top _ _ t f rest); [|done]. intros g. apply weight_nonneg. Qed.
Lemma conn_below id c : conns s !! id = Some c → id < next_connection_id_ s.
Proof.
  intros Hc. destruct (decide (next_connection_id_ s ≤ id)) as [Hle|]; [|lia].
  apply (iv_fresh _ _ Hi) in Hle as [Hn _]. congruence.
Qed.
(** A frame that stands for an obligation stands for one to a connection that exists. *)
Lemma obliged k id : frame_kind f = Some (k, id) → k ≠ KPrep → ∃ c d, conns s !! id = Some c ∧
  owed id c (bool_decide (id ∈ connections_ s)) (λ k, wt s k id) (ops s true id) (ops s false id) d (word s id).
Proof.
  intros Hf Hk. pose proof (iv_ok _ _ Hi id) as Hok. unfold ok_at in Hok. destruct (conns s !! id) as [c|]; simpl in Hok.
  - destruct Hok as [d Hd]. by exists c, d.
  - destruct Hok as (_ & Hz & _). pose proof (top_count k id) as Hc. unfold weight in Hc at 1. rewrite Hf in Hc.
    rewrite Z.eqb_refl, (Hz k Hk) in Hc. destruct k; simpl in Hc; lia.
Qed.
Lemma known id c : conns s !! id = Some c → ∃ d,
  owed id c (bool_decide (id ∈ connections_ s)) (λ k, wt s k id) (ops s true id) (ops s false id) d (word s id).
Proof. intros Hc. pose proof (iv_ok _ _ Hi id) as Hok. unfold ok_at in Hok. by rewrite Hc in Hok. Qed.

(** No operation changes hands. *)
Lemma conn_rule fs s' id c' d : local id s s' → Forall (of_conn id) (f :: fs) → conns s' !! id = Some c' →
  owed id c' (bool_decide (id ∈ connections_ s')) (λ k, wt s k id - weight k id f + total (weight k id) fs)
    (ops s true id) (ops s false id) d (word s' id) →
  inflight s' = inflight s → next_op s' = next_op s → pending_operations_ s' = pending_operations_ s →
  total holds fs = holds f → next_connection_id_ s' = next_connection_id_ s → id < next_connection_id_ s →
  inv (n + 1) (with_threads (<[t := fs ++ rest]> (threads s')) s').
Proof.
  intros Hl Hf Hc Ho Hin Hno Hp Hh Hnx Hid. eapply (frame_rule n _ s t f rest fs s' id); try done; try lia.
  - rewrite Hc. exists d. unfold ops. by rewrite Hin.
  - destruct Hi as [_ ? _ Hpe Hop]. unfold globals. rewrite Hin, Hno. split; [lia|]. split; [lia|done].
Qed.
(** Nothing changes but the thread. *)
Lemma skip_rule fs : Forall (λ f, frame_kind f = None) (f :: fs) → total holds fs = holds f →
  inv (n + 1) (with_threads (<[t := fs ++ rest]> (threads s)) s).
Proof. intros Hf Hh. apply (quiet_rule n _ s t f rest fs s); try done; lia. Qed.
End Frames.

(** Evaluate the weights of concrete frames, with what the frame on top contributes. *)
Ltac weigh H := cbn in H; rewrite ?Z.eqb_refl in H; cbn in H.
Ltac tally Hi Ht id :=
  let go k := (let H := fresh "N" in pose proof (top_count _ _ _ _ Ht k id) as H; unfold weight in H at 1; weigh H) in
  go KPub; go KCon; go KEnd; go KFeed; go KRecv; go KSend; go KReq; go KNot; go KPrep.
Ltac kinds := unfold weight; cbn; rewrite ?Z.eqb_refl; cbn.

Lemma b2z_bounds b : 0 ≤ b2z b ≤ 1.
Proof. destruct b; simpl; lia. Qed.
Lemma told_bounds id k d l : Told id k d l → 0 ≤ k ≤ 1 ∧ 0 ≤ d ≤ 1 ∧ k + d ≤ 1.
Proof. destruct 1; lia. Qed.
Ltac bounds Ho :=
  let r := fresh "O" in
  destruct Ho as [Htok Hact Hcl Hpe Hq Hr Hsd Hpr Htold];
  pose proof (told_bounds _ _ _ _ Htold);
  match type of Htok with b2z ?r + b2z ?p + _ + _ + _ + _ = 1 =>
    pose proof (b2z_bounds r); pose proof (b2z_bounds p) end;
  match type of Hcl with b2z ?c = _ => pose proof (b2z_bounds c) end;
  match type of Hsd with _ ≤ b2z ?i => pose proof (b2z_bounds i) end;
  match type of Hr with _ + ?r ≤ _ => assert (0 ≤ r) by apply ops_nonneg end;
  match type of Hsd with _ + ?r ≤ _ => assert (0 ≤ r) by apply ops_nonneg end.
(** The new accounts, line by line. *)
Ltac known_flags :=
  repeat match goal with
  | K : context [b2z true] |- _ => cbn [b2z] in K
  | K : context [b2z false] |- _ => cbn [b2z] in K
  | K : context [b2z (negb true)] |- _ => cbn [b2z negb] in K
  | K : context [b2z (negb false)] |- _ => cbn [b2z negb] in K
  | H : ?b = true, K : context [b2z ?b] |- _ => rewrite H in K; cbn [b2z negb] in K
  | H : ?b = false, K : context [b2z ?b] |- _ => rewrite H in K; cbn [b2z negb] in K
  | H : ?b = true, K : context [b2z (negb ?b)] |- _ => rewrite H in K; cbn [b2z negb] in K
  | H : ?b = false, K : context [b2z (negb ?b)] |- _ => rewrite H in K; cbn [b2z negb] in K
  | H : ?b = true |- context [b2z ?b] => rewrite H; cbn [b2z negb]
  | H : ?b = false |- context [b2z ?b] => rewrite H; cbn [b2z negb]
  | H : ?b = true |- context [b2z (negb ?b)] => rewrite H; cbn [b2z negb]
  | H : ?b = false |- context [b2z (negb ?b)] => rewrite H; cbn [b2z negb]
  end.
Ltac retold H := match type of H with Told _ ?a _ _ =>
  match goal with |- Told _ ?b _ _ => replace b with a by lia; exact H end end.
Ltac owes H := split; kinds; known_flags; first [lia|done|retold H|intros; lia|idtac].
Ltac open_case Hi Ht K id c d Hc Ho Hid :=
  destruct (obliged _ _ _ _ _ Hi Ht K id eq_refl) as (c & d & Hc & Ho); [done|];
  pose proof (conn_below _ _ Hi id c Hc) as Hid; tally Hi Ht id;
  bounds Ho.
Ltac by_conn Hi Ht id d := eapply (conn_rule _ _ _ _ _ Hi Ht _ _ id _ d); try done; try apply local_conn;
  [by repeat constructor|cbn; try by rewrite lookup_insert_eq|].
Ltac by_skip Hi Ht id c d Htold := eapply (conn_rule _ _ _ _ _ Hi Ht _ _ id c d); try done; try apply local_refl;
  [by repeat constructor|owes Htold].

Section Cases.
Context (n : Z) (s : Iocp) (t : Z) (rest : list Frame) (e : Env).
Hypothesis Hi : inv n s.
Abbreviation top f := (threads s !! t = Some (f :: rest)).
Abbreviation keeps f := (∀ fs s', frame_step f e s = Some (fs, s') →
  inv (n + 1) (with_threads (<[t := fs ++ rest]> (threads s')) s')).

Lemma end_scope_inv id : top (EndScope id) → keeps (EndScope id).
Proof.
  intros Ht fs s' Hs. open_case Hi Ht KEnd id c d Hc Ho Hid.
  cbn in Hs. unfold on_conn in Hs. rewrite Hc in Hs. unfold end_callback in Hs. cbn in Hs.
  destruct (_ && _) eqn:E; bprop; injection Hs as <- <-.
  - by_conn Hi Ht id d. owes Htold.
  - by_conn Hi Ht id d. owes Htold. intros Hp. destruct E as [E|E]; bprop; [|congruence]. lia.
Qed.
Lemma requesting_inv id : top (Requesting id) → keeps (Requesting id).
Proof.
  intros Ht fs s' Hs. open_case Hi Ht KReq id c d Hc Ho Hid.
  cbn in Hs. unfold on_conn in Hs. rewrite Hc in Hs. unfold request_disconnect_notification in Hs.
  destruct (_ =? _) eqn:E; bprop; injection Hs as <- <-.
  - by_conn Hi Ht id d. owes Htold.
  - by_conn Hi Ht id d. owes Htold.
Qed.
Lemma publishing_inv id : top (Publishing id) → keeps (Publishing id).
Proof.
  intros Ht fs s' Hs. open_case Hi Ht KPub id c d Hc Ho Hid. injection Hs as <- <-.
  eapply (conn_rule _ _ _ _ _ Hi Ht _ _ id c d); try done; [apply local_add|by repeat constructor|].
  cbn. rewrite bool_decide_eq_true_2 by set_solver. owes Htold.
Qed.
Lemma connecting_inv id : top (Connecting id) → keeps (Connecting id).
Proof.
  intros Ht fs s' Hs. open_case Hi Ht KCon id c d Hc Ho Hid. injection Hs as <- <-.
  eapply (conn_rule _ _ _ _ _ Hi Ht _ _ id c d); try done; [by apply local_call|by repeat constructor|].
  rewrite told_word by done. owes Htold.
  inversion Htold; try lia. subst. replace (_ + _) with 0 by lia. apply (told_open _ []).
Qed.
Lemma after_connected_inv id : top (AfterConnected id) → keeps (AfterConnected id).
Proof.
  intros Ht fs s' Hs. open_case Hi Ht KRecv id c d Hc Ho Hid.
  cbn in Hs. unfold on_conn in Hs. rewrite Hc in Hs. destruct (_ || _); injection Hs as <- <-;
    by_skip Hi Ht id c d Htold.
Qed.
Lemma after_deliver_inv id : top (AfterDeliver id) → keeps (AfterDeliver id).
Proof.
  intros Ht fs s' Hs. open_case Hi Ht KRecv id c d Hc Ho Hid.
  cbn in Hs. unfold on_conn in Hs. rewrite Hc in Hs. destruct (_ || _); injection Hs as <- <-;
    by_skip Hi Ht id c d Htold.
Qed.
Lemma deliver_inv id data : top (Deliver id data) → keeps (Deliver id data).
Proof.
  intros Ht fs s' Hs. open_case Hi Ht KRecv id c d Hc Ho Hid.
  cbn in Hs. unfold on_conn in Hs. rewrite Hc in Hs. unfold begin_callback in Hs.
  destruct (closing_ c) eqn:E; injection Hs as <- <-.
  - by_conn Hi Ht id d. owes Htold.
  - by_conn Hi Ht id d. owes Htold.
Qed.
Lemma feed_inv id data : top (Feed id data) → keeps (Feed id data).
Proof.
  intros Ht fs s' Hs. open_case Hi Ht KFeed id c d Hc Ho Hid.
  cbn in Hs. unfold feed_step in Hs. rewrite Hc in Hs. destruct (negb (running_ s)).
  { injection Hs as <- <-. by_skip Hi Ht id c d Htold. }
  destruct (append data (messages_ c)) as [[] fr]; injection Hs as <- <-; by_conn Hi Ht id d; owes Htold.
Qed.
Lemma pop_inv id : top (PopLine id) → keeps (PopLine id).
Proof.
  intros Ht fs s' Hs. open_case Hi Ht KFeed id c d Hc Ho Hid.
  cbn in Hs. unfold pop_step in Hs. rewrite Hc in Hs.
  destruct (try_pop (messages_ c)) as [[line|] fr]; injection Hs as <- <-; by_conn Hi Ht id d; owes Htold.
Qed.
Lemma give_inv id line : top (GiveLine id line) → keeps (GiveLine id line).
Proof.
  intros Ht fs s' Hs. open_case Hi Ht KFeed id c d Hc Ho Hid.
  cbn in Hs. unfold on_conn in Hs. rewrite Hc in Hs. destruct (_ || _); injection Hs as <- <-.
  - by_skip Hi Ht id c d Htold.
  - eapply (conn_rule _ _ _ _ _ Hi Ht _ _ id c d); try done; [by apply local_call|by repeat constructor|].
    rewrite told_word by done. owes Htold.
    inversion Htold as [|ms|]; try lia. replace (_ + _) with 0 by lia. rewrite begun_snoc. apply told_open.
Qed.
Lemma notifying_inv id : top (Notifying id) → keeps (Notifying id).
Proof.
  intros Ht fs s' Hs. open_case Hi Ht KNot id c d Hc Ho Hid. injection Hs as <- <-.
  eapply (conn_rule _ _ _ _ _ Hi Ht _ _ id c 1); try done; [by apply local_call|by repeat constructor|].
  rewrite told_word by done. owes Htold.
  inversion Htold as [|ms|]; try lia. replace (_ + _) with 0 by lia. apply told_over.
Qed.
Lemma receive_failed_inv id text : top (ReceiveFailed id text) → keeps (ReceiveFailed id text).
Proof.
  intros Ht fs s' Hs. cbn in Hs. unfold on_conn in Hs. destruct (conns s !! id) as [c|].
  - destruct (closing_ c); injection Hs as <- <-; apply (skip_rule n s t _ rest Hi Ht); by repeat constructor.
  - injection Hs as <- <-. apply (skip_rule n s t _ rest Hi Ht []); by repeat constructor.
Qed.
Lemma disconnecting_inv id : top (Disconnecting id) → keeps (Disconnecting id).
Proof.
  intros Ht fs s' Hs. cbn in Hs. unfold disconnect_step in Hs.
  destruct (decide _) as [Hin|Hout]; [|injection Hs as <- <-; by apply (skip_rule n s t _ rest Hi Ht []); repeat constructor].
  destruct (conns s !! id) as [c|] eqn:Hc.
  2: { injection Hs as <- <-. apply (skip_rule n s t _ rest Hi Ht []); by repeat constructor. }
  injection Hs as <- <-. destruct (known n s Hi id c Hc) as [d Ho]. pose proof (conn_below _ _ Hi id c Hc) as Hid.
  tally Hi Ht id. bounds Ho. rewrite bool_decide_eq_true_2 in * by done.
  eapply (conn_rule _ _ _ _ _ Hi Ht _ _ id _ d); try done.
  - eapply local_trans; [apply local_conn|apply (local_remove id (with_conn id (with_closed c) s))].
  - by repeat constructor.
  - cbn. by rewrite lookup_insert_eq.
  - cbn. rewrite bool_decide_eq_false_2 by set_solver. owes Htold.
Qed.

(** ** Operations *)
Lemma op_fresh : inflight s !! next_op s = None.
Proof. apply eq_None_not_Some. intros [op Hop]. apply (iv_ops _ _ Hi) in Hop. lia. Qed.
Lemma globals_submit fs f op p c id : top f → p = pending_operations_ s + 1 - holds f + total holds fs →
  globals (n + 1) (summed holds s - holds f + total holds fs)
    (with_inflight (<[next_op s := op]> (inflight s)) (next_op s + 1) p (with_conn id c s)).
Proof.
  intros Ht ->. destruct Hi as [_ ? _ Hpe Hop]. unfold globals. cbn. split; [lia|]. split.
  - rewrite (msize_insert_new _ _ _ op_fresh). lia.
  - intros k o [[<- _]|[_ Hk]]%lookup_insert_Some; [lia|]. apply Hop in Hk. lia.
Qed.
Lemma globals_same fs f s' : top f → inflight s' = inflight s → next_op s' = next_op s →
  pending_operations_ s' = pending_operations_ s - holds f + total holds fs →
  next_connection_id_ s' = next_connection_id_ s →
  globals (n + 1) (summed holds s - holds f + total holds fs) s'.
Proof.
  intros Ht Hin Hno Hp Hnx. destruct Hi as [_ ? _ Hpe Hop]. unfold globals. rewrite Hin, Hno, Hp, Hnx.
  split; [lia|]. split; [lia|done].
Qed.
Lemma ops_submit op r id' p c id : 
  ops (with_inflight (<[next_op s := op]> (inflight s)) (next_op s + 1) p (with_conn id c s)) r id' =
  ops s r id' + op_weight r id' op.
Proof. apply (ops_insert (next_op s) op r id' _ _ (with_conn id c s)). apply op_fresh. Qed.
Lemma local_submit_conn op p c id : o_conn op = id →
  local id s (with_inflight (<[next_op s := op]> (inflight s)) (next_op s + 1) p (with_conn id c s)).
Proof.
  intros <-. eapply local_trans; [apply local_conn|].
  apply (local_submit (next_op s) op _ _ (with_conn (o_conn op) c s)). apply op_fresh.
Qed.
(** A submission by the thread on top, with the connection's new record. *)
Lemma submit_rule f fs op p id c' d : top f → Forall (of_conn id) (f :: fs) → o_conn op = id →
  id < next_connection_id_ s → p = pending_operations_ s + 1 - holds f + total holds fs →
  owed id c' (bool_decide (id ∈ connections_ s)) (λ k, wt s k id - weight k id f + total (weight k id) fs)
    (ops s true id + op_weight true id op) (ops s false id + op_weight false id op) d (word s id) →
  let s' := with_inflight (<[next_op s := op]> (inflight s)) (next_op s + 1) p (with_conn id c' s) in
  inv (n + 1) (with_threads (<[t := fs ++ rest]> (threads s')) s').
Proof.
  intros Ht Hf Hop Hid Hp Ho s'. apply (frame_rule n _ s t f rest fs s' id Hi Ht); try done.
  - by apply local_submit_conn.
  - unfold s'. rewrite !ops_submit. cbn. rewrite lookup_insert_eq. by exists d.
  - by apply globals_submit.
Qed.
(** The connection's new record, and an operation perhaps destroyed. *)
Lemma change_rule f fs p id c' d : top f → Forall (of_conn id) (f :: fs) →
  id < next_connection_id_ s → p = pending_operations_ s - holds f + total holds fs →
  owed id c' (bool_decide (id ∈ connections_ s)) (λ k, wt s k id - weight k id f + total (weight k id) fs)
    (ops s true id) (ops s false id) d (word s id) →
  let s' := with_inflight (inflight s) (next_op s) p (with_conn id c' s) in
  inv (n + 1) (with_threads (<[t := fs ++ rest]> (threads s')) s').
Proof.
  intros Ht Hf Hid Hp Ho s'. apply (frame_rule n _ s t f rest fs s' id Hi Ht); try done.
  - eapply local_trans; [apply local_conn|by split].
  - cbn. rewrite lookup_insert_eq. by exists d.
  - by apply globals_same.
Qed.
Lemma op_receive id : op_weight true id (mkOp id Receive) = 1 ∧ op_weight false id (mkOp id Receive) = 0.
Proof. unfold op_weight. simpl. by rewrite Z.eqb_refl. Qed.
Lemma op_send id b o : op_weight true id (mkOp id (SendOp b o)) = 0 ∧ op_weight false id (mkOp id (SendOp b o)) = 1.
Proof. unfold op_weight. simpl. by rewrite Z.eqb_refl. Qed.
Lemma same_conn id c : conns s !! id = Some c → with_conn id c s = s.
Proof. intros Hc. unfold with_conn. rewrite insert_id by done. by destruct s. Qed.
Lemma with_conn_twice id c c' : with_conn id c' (with_conn id c s) = with_conn id c' s.
Proof. unfold with_conn. simpl. by rewrite insert_insert_eq. Qed.

Lemma post_receive_inv id : top (PostReceive id) → keeps (PostReceive id).
Proof.
  intros Ht fs s' Hs. open_case Hi Ht KRecv id c d Hc Ho Hid.
  cbn in Hs. unfold on_conn in Hs. rewrite Hc in Hs. unfold post_receive, submit_new in Hs.
  destruct (closing_ c) eqn:Ecl; [injection Hs as <- <-; by_skip Hi Ht id c d Htold|].
  destruct (e_submit e); injection Hs as <- <-; [|by_skip Hi Ht id c d Htold].
  pose proof (submit_rule (PostReceive id) [] (mkOp id Receive) (pending_operations_ s + 1) id c d Ht) as Hrule.
  rewrite (same_conn id c Hc) in Hrule. apply Hrule; try done; [by repeat constructor|simpl; lia|].
  destruct (op_receive id) as [-> ->]. owes Htold.
Qed.
(** What [post_next_send] does, whoever called it with how many operations in hand. *)
Lemma post_next_send_inv f fs id c0 c ok s1 d : top f → conns s !! id = Some c0 → Forall (of_conn id) (f :: fs) →
  id < next_connection_id_ s → total holds fs = 0 →
  post_next_send id c e s = (ok, s1) →
  (∀ q b n0 n1, n1 + wt s KSend id - weight KSend id f + ops s false id ≤ b2z b →
    n0 + ops s true id = ops s true id →
    owed id (with_sends q b c) (bool_decide (id ∈ connections_ s))
      (λ k, wt s k id - weight k id f + total (weight k id) fs)
      (ops s true id + n0) (ops s false id + n1) d (word s id)) →
  wt s KSend id - weight KSend id f + ops s false id ≤ 0 →
  inv (n + 1) (with_threads (<[t := fs ++ rest]> (threads s1))
    (with_inflight (inflight s1) (next_op s1) (pending_operations_ s1 - holds f) s1)).
Proof.
  intros Ht Hc Hf Hid Hh Hs Ho Hz. unfold post_next_send in Hs. destruct (send_queue_ c) as [|data queue].
  - injection Hs as <- <-. apply (change_rule f fs (pending_operations_ s - holds f) id (with_sends [] false c) d Ht Hf Hid); [lia|].
    specialize (Ho [] false 0 0). rewrite !Z.add_0_r in Ho. apply Ho; [simpl; lia|done].
  - unfold submit_new in Hs. destruct (e_submit e); injection Hs as <- <-.
    + destruct (op_send id data 0) as [Hr Hs'].
      apply (submit_rule f fs (mkOp id (SendOp data 0)) (pending_operations_ s + 1 - holds f) id (with_sends queue true c) d
        Ht Hf eq_refl Hid); [lia|].
      rewrite Hr, Hs'. apply Ho; [simpl; lia|done].
    + apply (change_rule f fs (pending_operations_ s - holds f) id (with_sends queue false c) d Ht Hf Hid); [lia|].
      specialize (Ho queue false 0 0). rewrite !Z.add_0_r in Ho. apply Ho; [simpl; lia|done].
Qed.
Lemma complete_send_inv id b o tr : top (CompleteSend id b o tr) → keeps (CompleteSend id b o tr).
Proof.
  intros Ht fs s' Hs. open_case Hi Ht KSend id c d Hc Ho Hid.
  cbn in Hs. unfold on_conn in Hs. rewrite Hc in Hs. unfold complete_send in Hs.
  destruct (closing_ c) eqn:Ecl.
  { injection Hs as <- <-. unfold operation_finished.
    pose proof (change_rule (CompleteSend id b o tr) [] (pending_operations_ s - 1) id c d Ht) as Hrule.
    rewrite (same_conn id c Hc) in Hrule. apply Hrule; try done; [by repeat constructor|simpl; lia|owes Htold]. }
  destruct (_ <? _).
  { destruct (e_submit e); injection Hs as <- <-.
    - apply (submit_rule (CompleteSend id b o tr) [] (mkOp id (SendOp b (o + tr))) (pending_operations_ s) id
        (mark_active (e_now e) c) d Ht); try done; [by repeat constructor|simpl; lia|].
      destruct (op_send id b (o + tr)) as [-> ->]. owes Htold.
    - apply (change_rule (CompleteSend id b o tr) [_; _] (pending_operations_ s - 1) id (mark_active (e_now e) c) d Ht);
        try done; [by repeat constructor|simpl; lia|owes Htold]. }
  destruct (post_next_send id (mark_active (e_now e) c) e s) as [ok s1] eqn:Hp. injection Hs as <- <-.
  apply (post_next_send_inv (CompleteSend id b o tr) _ id c (mark_active (e_now e) c) ok s1 d Ht Hc); try done.
  - destruct ok; by repeat constructor.
  - by destruct ok.
  - intros q b' n0 n1 H1' H2'. weigh H1'. unfold weight in H1'. weigh H1'. destruct ok; owes Htold.
  - kinds. lia.
Qed.
Lemma submit_send_inv id data : top (SubmitSend id data) → keeps (SubmitSend id data).
Proof.
  intros Ht fs s' Hs. cbn in Hs. unfold on_conn in Hs. destruct (conns s !! id) as [c|] eqn:Hc.
  2: { injection Hs as <- <-. apply (skip_rule n s t _ rest Hi Ht []); by repeat constructor. }
  unfold conn_send in Hs. destruct (closing_ c).
  { injection Hs as <- <-. apply (skip_rule n s t _ rest Hi Ht [_]); by repeat constructor. }
  destruct (known n s Hi id c Hc) as [d Ho]. pose proof (conn_below _ _ Hi id c Hc) as Hid.
  tally Hi Ht id. bounds Ho. destruct (send_in_progress_ c) eqn:Esip.
  { injection Hs as <- <-. by_conn Hi Ht id d. owes Htold. }
  destruct (post_next_send id _ e s) as [ok s1] eqn:Hp. injection Hs as <- <-.
  pose proof (post_next_send_inv (SubmitSend id data) (if ok then [] else [Disconnecting id]) id c
    (with_sends (send_queue_ c ++ [data]) false c) ok s1 d Ht Hc) as Hrule.
  assert (with_inflight (inflight s1) (next_op s1) (pending_operations_ s1 - holds (SubmitSend id data)) s1 = s1) as Heq
    by (destruct s1; unfold with_inflight; simpl; by rewrite Z.sub_0_r).
  rewrite Heq in Hrule. apply Hrule; try done.
  - destruct ok; by repeat constructor.
  - by destruct ok.
  - intros q b' n0 n1 H1' H2'. unfold weight in H1'. weigh H1'. destruct ok; owes Htold.
  - kinds. known_flags. lia.
Qed.
Lemma completed_inv op ok tr data : top (Completed op ok tr data) → keeps (Completed op ok tr data).
Proof.
  intros Ht fs s' Hs. destruct op as [id kind]. destruct kind as [|b o].
  - open_case Hi Ht KRecv id c d Hc Ho Hid. cbn in Hs. unfold completed_step in Hs. cbn [o_conn o_kind] in Hs.
    rewrite Hc in Hs. destruct (_ || _); injection Hs as <- <-; [by_skip Hi Ht id c d Htold|].
    by_conn Hi Ht id d. owes Htold.
  - open_case Hi Ht KSend id c d Hc Ho Hid. cbn in Hs. unfold completed_step in Hs. cbn [o_conn o_kind] in Hs.
    rewrite Hc in Hs. destruct (_ || _); injection Hs as <- <-; by_skip Hi Ht id c d Htold.
Qed.

(** ** Admission and dequeuing *)
Lemma ok_none id : conns s !! id = None → bool_decide (id ∈ connections_ s) = false ∧
  (∀ k, k ≠ KPrep → wt s k id = 0) ∧ wt s KPrep id ≤ 1 ∧ ops s true id = 0 ∧ ops s false id = 0 ∧ word s id = [].
Proof. intros Hc. pose proof (iv_ok _ _ Hi id) as Hok. unfold ok_at in Hok. by rewrite Hc in Hok. Qed.
Lemma prep_none f id : top f → frame_kind f = Some (KPrep, id) → conns s !! id = None ∧ id < next_connection_id_ s.
Proof.
  intros Ht Hf. pose proof (top_count s t f rest Ht KPrep id) as Hk. unfold weight in Hk at 1. rewrite Hf in Hk.
  cbn in Hk. rewrite Z.eqb_refl in Hk. split.
  - destruct (conns s !! id) as [c|] eqn:Hc; [|done]. destruct (known n s Hi id c Hc) as [d Ho].
    pose proof (ow_prep _ _ _ _ _ _ _ _ Ho). lia.
  - destruct (decide (next_connection_id_ s ≤ id)) as [Hle|]; [|lia]. apply (iv_fresh _ _ Hi) in Hle as [_ Hz]. lia.
Qed.
Lemma ok_none_intro id (w : Kind → Z) reg r q l : reg = false → (∀ k, k ≠ KPrep → w k = 0) → w KPrep ≤ 1 → r = 0 →
  q = 0 → l = [] → ok id None reg w r q l.
Proof. done. Qed.
Lemma accept_loop_inv : n + 2 < 2 ^ 64 → top AcceptLoop → keeps AcceptLoop.
Proof.
  intros Hb Ht fs s' Hs. cbn in Hs. unfold accept_step in Hs. destruct (running_ s); cbn [negb] in Hs.
  2: { injection Hs as <- <-. apply (skip_rule n s t _ rest Hi Ht []); by repeat constructor. }
  destruct (e_wait e).
  1-4: injection Hs as <- <-; apply (skip_rule n s t _ rest Hi Ht); by repeat constructor.
  pose proof (iv_next _ _ Hi) as Hn. rewrite u64_small in Hs by (unfold is_u64; lia). injection Hs as <- <-.
  destruct (iv_fresh _ _ Hi (next_connection_id_ s)) as [Hc Hz]; [lia|].
  destruct (ok_none _ Hc) as (Hr & Hk & _ & Hrec & Hsend & Hw).
  apply (frame_rule n _ s t _ rest [_; _] _ (next_connection_id_ s) Hi Ht); try by repeat constructor.
  - cbn. rewrite Hc. apply ok_none_intro; try done.
    + intros k Hne. rewrite (Hk k Hne). kinds. destruct k; done.
    + rewrite Hz. kinds. lia.
  - destruct Hi as [_ _ _ Hpe Hop]. unfold globals. cbn. split; [lia|]. split; [lia|done].
  - cbn. lia.
  - cbn. lia.
Qed.
Lemma accepting_inv id : top (Accepting id) → keeps (Accepting id).
Proof.
  intros Ht fs s' Hs. destruct (prep_none _ id Ht eq_refl) as [Hc Hid].
  pose proof (top_count s t _ rest Ht KPrep id) as N. unfold weight in N at 1. weigh N.
  destruct (ok_none _ Hc) as (Hr & Hk & Hp & Hrec & Hsend & Hw).
  cbn in Hs. destruct (_ || _); injection Hs as <- <-;
    (match goal with |- inv _ (with_threads (<[_ := ?fs ++ _]> _) _) =>
       apply (frame_rule n _ s t _ rest fs _ id Hi Ht); try (by repeat constructor) end;
      [rewrite Hc; apply ok_none_intro; try done;
        [intros k Hne; rewrite (Hk k Hne); kinds; by destruct k|kinds; lia]
      |apply globals_same; try done; cbn; lia]).
Qed.
Lemma admitting_inv id : top (Admitting id) → keeps (Admitting id).
Proof.
  intros Ht fs s' Hs. destruct (prep_none _ id Ht eq_refl) as [Hc Hid].
  pose proof (top_count s t _ rest Ht KPrep id) as N. unfold weight in N at 1. weigh N.
  destruct (ok_none _ Hc) as (Hr & Hk & Hp & Hrec & Hsend & Hw).
  assert (∀ text, inv (n + 1) (with_threads (<[t := [Reporting text] ++ rest]> (threads s)) s)) as Hreport.
  { intros text. apply (frame_rule n _ s t _ rest [_] s id Hi Ht); try by repeat constructor.
    - rewrite Hc. apply ok_none_intro; try done; [intros k Hne; rewrite (Hk k Hne); kinds; by destruct k|kinds; lia].
    - apply globals_same; try done; cbn; lia. }
  cbn in Hs. unfold admit_step in Hs. destruct (_ <=? _); [injection Hs as <- <-; apply Hreport|].
  destruct (negb (e_ok e)); [injection Hs as <- <-; apply Hreport|]. injection Hs as <- <-.
  apply (frame_rule n _ s t _ rest [_] _ id Hi Ht); try by repeat constructor.
  - apply local_conn.
  - cbn. rewrite lookup_insert_eq. exists 0. change (ops (with_conn id _ s)) with (ops s). rewrite Hr, Hrec, Hsend.
    split; kinds; rewrite ?(Hk KPub), ?(Hk KCon), ?(Hk KEnd), ?(Hk KFeed), ?(Hk KRecv), ?(Hk KSend), ?(Hk KReq), ?(Hk KNot) by done;
      try lia; try done. change (filter _ (calls s)) with (word s id). rewrite Hw. apply told_nothing.
  - apply globals_same; try done; cbn; lia.
Qed.
Lemma worker_inv : top WorkerLoop → keeps WorkerLoop.
Proof.
  intros Ht fs s' Hs. cbn in Hs. unfold worker_step in Hs. destruct (e_pick e) as [k|].
  2: { destruct (_ <? _); [|done]. injection Hs as <- <-.
       apply (quiet_rule n _ s t _ rest [] _ Hi Ht); try by repeat constructor; simpl; lia. }
  destruct (inflight s !! k) as [op|] eqn:Hop; [|done]. injection Hs as <- <-. set (id := o_conn op).
  assert (∀ r, op_weight r id op ≤ ops s r id) as Hle.
  { intros r. apply (map_total_le _ _ k); [|done]. intros o. apply op_weight_nonneg. }
  assert (∃ c, conns s !! id = Some c) as [c Hc].
  { destruct (conns s !! id) as [c|] eqn:Hc; [by eexists|]. destruct (ok_none _ Hc) as (_ & _ & _ & Hrec & Hsend & _).
    pose proof (Hle true). pose proof (Hle false). unfold op_weight, id in *. rewrite Z.eqb_refl in *. simpl in *.
    destruct (o_kind op); simpl in *; lia. }
  destruct (known n s Hi id c Hc) as [d Ho]. pose proof (conn_below _ _ Hi id c Hc) as Hid. tally Hi Ht id. bounds Ho.
  apply (frame_rule n _ s t _ rest [_; _] _ id Hi Ht).
  - by apply local_complete.
  - by repeat constructor.
  - rewrite !(ops_delete _ _ _ _ _ _ _ Hop). cbn. rewrite Hc. exists d.
    unfold op_weight. fold id. rewrite Z.eqb_refl. destruct (o_kind op) eqn:Ek; cbn [Bool.eqb andb].
    + split; unfold weight; cbn; rewrite ?Ek; fold id; rewrite ?Z.eqb_refl; cbn; first [lia|done|retold Htold|idtac].
    + split; unfold weight; cbn; rewrite ?Ek; fold id; rewrite ?Z.eqb_refl; cbn; first [lia|done|retold Htold|idtac].
  - destruct Hi as [_ ? _ Hpen Hops]. unfold globals. cbn. split; [lia|]. split.
    + rewrite (msize_delete _ _ _ Hop). lia.
    + intros k' o [_ Hk]%lookup_delete_Some. by apply Hops in Hk.
  - done.
  - cbn. lia.
Qed.

(** ** Every frame *)
Lemma error_word text id : word (with_call (OnError text) s) id = word s id.
Proof. unfold word_of. simpl. rewrite filter_app. simpl. by rewrite app_nil_r. Qed.
Lemma plain_inv f : top f → frame_kind f = None → f ≠ AcceptLoop → f ≠ WorkerLoop →
  (∀ id, f ≠ Disconnecting id) → (∀ id data, f ≠ SubmitSend id data) → (∀ id text, f ≠ ReceiveFailed id text) → keeps f.
Proof.
  intros Ht Hk H1 H2 H3 H4 H5 fs s' Hs.
  assert (∀ fs', Forall (λ f, frame_kind f = None) fs' → total holds fs' = holds f →
    inv (n + 1) (with_threads (<[t := fs' ++ rest]> (threads s)) s)) as Hskip.
  { intros fs' Hf Hh. apply (skip_rule n s t f rest Hi Ht); [by constructor|done]. }
  destruct f; try done; cbn in Hs;
    repeat match type of Hs with
    | context [match ?x with _ => _ end] => lazymatch x with context [match _ with _ => _ end] => fail | _ => destruct x end
    end; try done; try (injection Hs as <- <-; apply Hskip; by repeat constructor);
    try (injection Hs as <- <-; apply (quiet_rule n _ s t _ rest _ _ Hi Ht); try by repeat constructor;
      try apply error_word; simpl; lia).
  - by destruct (H5 _ _ eq_refl).
  - by destruct (H3 _ eq_refl).
  - by destruct (H4 _ _ eq_refl).
Qed.
Theorem frame_inv f : n + 2 < 2 ^ 64 → top f → keeps f.
Proof.
  intros Hb Ht. destruct f; try (apply plain_inv; done);
    eauto using accept_loop_inv, accepting_inv, admitting_inv, publishing_inv, connecting_inv, after_connected_inv,
      worker_inv, completed_inv, complete_send_inv, deliver_inv, feed_inv, pop_inv, give_inv, after_deliver_inv,
      post_receive_inv, receive_failed_inv, end_scope_inv, disconnecting_inv, requesting_inv, notifying_inv,
      submit_send_inv.
Qed.
End Cases.
