(* ===== verification/IocpLifecycle.v ===== *)
(** IocpLifecycle: start and stop of the completion-port backend: which threads run at
    each stage of a stop, and that nothing is left at Windows when it has returned. *)
From S2P Require Import Prelude.
From S2P Require Import Text.
From S2P Require Import Kinds.
From S2P Require Import LineFramer.
From S2P Require Import RuntimeHub.
From S2P Require Import IocpServer.
From S2P Require Import IocpInvariant.
From S2P Require Import IocpSteps.

(** ** What a frame may do *)
(** The accept thread's own frames, and the owner's. *)
Definition accepting (f : Frame) : bool :=
  match f with AcceptLoop | Accepting _ | Admitting _ | Publishing _ => true | _ => false end.
Definition lifecycle (f : Frame) : bool :=
  match f with
  | Stopping | JoinAccept | JoinIdle | CloseAll | CloseEach _ | Drain | WakeWorkers | JoinWorkers => true
  | _ => false
  end.
Definition all_closing (s : Iocp) : Prop := ∀ id c, conns s !! id = Some c → closing_ c = true.
Record tame (f : Frame) (fs : list Frame) (s s' : Iocp) : Prop := {
  tm_threads : threads s' = threads s;
  tm_workers : workers s' = workers s;
  tm_running : f ≠ Stopping → running_ s' = running_ s;
  tm_accepting : accepting f = false → Forall (λ g, accepting g = false) fs;
  tm_lifecycle : lifecycle f = false → Forall (λ g, lifecycle g = false) fs;
  tm_registry : accepting f = false → connections_ s' ⊆ connections_ s;
  tm_pending : all_closing s → pending_operations_ s' ≤ pending_operations_ s;
}.
Lemma tame_same f fs s : f ≠ Stopping → (accepting f = false → Forall (λ g, accepting g = false) fs) →
  (lifecycle f = false → Forall (λ g, lifecycle g = false) fs) → tame f fs s s.
Proof. by split. Qed.
Lemma post_next_send_pending id c e s : pending_operations_ (post_next_send id c e s).2 ≤ pending_operations_ s + 1.
Proof. unfold post_next_send, submit_new. repeat case_match; simplify_eq; simpl; lia. Qed.
(** What a frame's step computes. *)
Ltac expose Hs :=
  cbn in Hs; unfold on_conn, accept_step, admit_step, worker_step, completed_step, complete_send, feed_step, pop_step,
    post_receive, conn_send, post_next_send, submit_new, disconnect_step, begin_callback, end_callback,
    request_disconnect_notification, operation_finished in Hs.
Lemma frame_tame f e s fs s' : frame_step f e s = Some (fs, s') → tame f fs s s'.
Proof.
  intros Hs.
  destruct f; expose Hs; repeat (case_match; simplify_eq);
    (split; cbn; try done; try (intros; repeat constructor; done); try (intros; set_solver); try (intros; lia)).
  - injection Hs as <- <-. simpl. lia.
  - intros Hall. by rewrite (Hall _ _ H) in *.
  - intros Hall. by rewrite (Hall _ _ H) in *.
Qed.

(** ** The stages of a stop *)
Inductive Stage := Rest | Asked | AtAccept | AtIdle | AtCloseAll | AtClose (ids : list Z) | AtDrain | AtWake | AtJoin.
Definition due (g : Stage) : list Frame :=
  match g with
  | Rest => []
  | Asked => [Stopping]
  | AtAccept => [JoinAccept; JoinIdle; CloseAll; Drain; WakeWorkers; JoinWorkers]
  | AtIdle => [JoinIdle; CloseAll; Drain; WakeWorkers; JoinWorkers]
  | AtCloseAll => [CloseAll; Drain; WakeWorkers; JoinWorkers]
  | AtClose ids => [CloseEach ids; Drain; WakeWorkers; JoinWorkers]
  | AtDrain => [Drain; WakeWorkers; JoinWorkers]
  | AtWake => [WakeWorkers; JoinWorkers]
  | AtJoin => [JoinWorkers]
  end.
Definition owner_stack (s : Iocp) : list Frame := default [] (threads s !! owner_thread).
(** The connections the owner is about to close besides those of its list. *)
Definition closing_now (l : list Frame) : list Z := omap (λ f, match f with Disconnecting id => Some id | _ => None end) l.
Definition workers_done (s : Iocp) : Prop := ∀ k, 0 ≤ k < workers s → finished s (worker_thread k) = true.
(** What has been reached by then. *)
Definition reached (g : Stage) (s : Iocp) : Prop :=
  let closed := finished s accept_thread = true ∧ finished s idle_thread = true ∧ connections_ s = ∅ in
  match g with
  | Rest | Asked => running_ s = false → closed ∧ pending_operations_ s = 0 ∧ workers_done s
  | AtAccept => running_ s = false
  | AtIdle => running_ s = false ∧ finished s accept_thread = true
  | AtCloseAll => running_ s = false ∧ finished s accept_thread = true ∧ finished s idle_thread = true
  | AtClose ids => running_ s = false ∧ finished s accept_thread = true ∧ finished s idle_thread = true ∧
      ∀ id, id ∈ connections_ s → id ∈ ids ∨ id ∈ closing_now (owner_stack s)
  | AtDrain => running_ s = false ∧ closed
  | AtWake | AtJoin => running_ s = false ∧ closed ∧ pending_operations_ s = 0
  end.
(** What a callback runs on the owner's thread is above the frames of the stop. *)
Record staged (s : Iocp) : Prop := {
  sg_stage : ∃ g top, owner_stack s = top ++ due g ∧ Forall (λ f, lifecycle f = false) top ∧ reached g s;
  sg_accepting t l : threads s !! t = Some l → t ≠ accept_thread → Forall (λ f, accepting f = false) l;
  sg_lifecycle t l : threads s !! t = Some l → t ≠ owner_thread → Forall (λ f, lifecycle f = false) l;
  sg_workers k : workers s ≤ k → finished s (worker_thread k) = true;
  sg_count : 0 ≤ workers s;
}.

(** With the accept thread gone and the registry empty every connection is closing. *)
Lemma closed_closing n s : inv n s → staged s → finished s accept_thread = true → connections_ s = ∅ → all_closing s.
Proof.
  intros Hi Hg Hf He id c Hc. destruct (known n s Hi id c Hc) as [d Ho]. pose proof (ow_closing _ _ _ _ _ _ _ _ Ho) as Hcl.
  assert (wt s KPub id = 0) as Hz.
  { unfold wt, summed. assert (∀ t l, threads s !! t = Some l → total (weight KPub id) l = 0) as Ht.
    { intros t l Hl. destruct (decide (t = accept_thread)) as [->|Hne].
      - unfold finished in Hf. rewrite Hl in Hf. by destruct l.
      - pose proof (sg_accepting _ Hg _ _ Hl Hne) as Hacc. apply total_zero. eapply Forall_impl; [done|].
        intros f Hfa. unfold weight. destruct f; try done. cbn. by destruct (o_kind op). }
    clear -Ht. induction (threads s) as [|t l m Hm IH] using map_ind; [apply map_total_empty|].
    rewrite map_total_insert by done. rewrite (Ht t l) by apply lookup_insert_eq. rewrite IH; [done|].
    intros t' l' Hl. apply (Ht t'). rewrite lookup_insert_ne; [done|]. congruence. }
  cbv beta in Hcl. rewrite Hz, He, bool_decide_eq_false_2 in Hcl by set_solver. by destruct (closing_ c).
Qed.
Lemma pending_nonneg n s : inv n s → 0 ≤ pending_operations_ s.
Proof.
  intros Hi. rewrite (iv_pending _ _ Hi). unfold summed. pose proof (msize_nonneg (inflight s)).
  assert (0 ≤ map_total (total holds) (threads s)); [|lia].
  apply map_total_nonneg. intros l. apply total_nonneg, holds_nonneg.
Qed.

Lemma closing_now_app l k : closing_now (l ++ k) = closing_now l ++ closing_now k.
Proof. apply omap_app. Qed.
Lemma closing_now_cons id f l : id ∈ closing_now (f :: l) → f = Disconnecting id ∨ id ∈ closing_now l.
Proof. destruct f; simpl; try (by right). intros [->|?]%elem_of_cons; [by left|by right]. Qed.
Lemma disconnecting_removes n s id e fs s' : inv n s → frame_step (Disconnecting id) e s = Some (fs, s') →
  id ∉ connections_ s'.
Proof.
  intros Hi Hs. cbn in Hs. unfold disconnect_step in Hs.
  destruct (decide _) as [Hin|]; [|by injection Hs as <- <-].
  destruct (conns s !! id) as [c|] eqn:Hc; injection Hs as <- <-; [simpl; set_solver|].
  destruct (ok_none n s Hi id Hc) as [Hreg _]. by apply bool_decide_eq_false in Hreg.
Qed.

(** ** A thread's step *)
Section Turn.
Context (n : Z) (s s' : Iocp) (t : Z) (f : Frame) (rest fs : list Frame) (e : Env).
Hypothesis Hi : inv n s.
Hypothesis Hg : staged s.
Hypothesis Ht : threads s !! t = Some (f :: rest).
Hypothesis Hs : frame_step f e s = Some (fs, s').
Let s2 := with_threads (<[t := fs ++ rest]> (threads s')) s'.
Let Htame := frame_tame f e s fs s' Hs.

Lemma turn_finished t' : finished s t' = true → finished s2 t' = true.
Proof.
  unfold finished, s2. simpl. rewrite (tm_threads _ _ _ _ Htame). destruct (decide (t = t')) as [<-|Hne].
  - by rewrite Ht.
  - by rewrite lookup_insert_ne.
Qed.
Lemma turn_accepting : t = accept_thread ∨ accepting f = false.
Proof.
  destruct (decide (t = accept_thread)) as [|Hne]; [by left|right].
  pose proof (sg_accepting _ Hg _ _ Ht Hne) as Hf. by apply Forall_cons in Hf as [Hf _].
Qed.
Lemma turn_lifecycle : t = owner_thread ∨ lifecycle f = false.
Proof.
  destruct (decide (t = owner_thread)) as [|Hne]; [by left|right].
  pose proof (sg_lifecycle _ Hg _ _ Ht Hne) as Hf. by apply Forall_cons in Hf as [Hf _].
Qed.
Lemma turn_registry : finished s accept_thread = true → connections_ s' ⊆ connections_ s.
Proof.
  intros Hf. apply (tm_registry _ _ _ _ Htame). destruct turn_accepting as [->|]; [|done].
  unfold finished in Hf. by rewrite Ht in Hf.
Qed.
Lemma turn_closed : finished s accept_thread = true → connections_ s = ∅ → connections_ s' = ∅.
Proof. intros Hf He. pose proof (turn_registry Hf). set_solver. Qed.
Lemma turn_pending : finished s accept_thread = true → connections_ s = ∅ → pending_operations_ s = 0 →
  inv (n + 1) s2 → pending_operations_ s' = 0.
Proof.
  intros Hf He Hp Hi2. pose proof (tm_pending _ _ _ _ Htame (closed_closing n s Hi Hg Hf He)).
  pose proof (pending_nonneg _ _ Hi2) as H0. unfold s2 in H0. simpl in H0. lia.
Qed.
(** What was reached stays so while the stage lasts. *)
Lemma turn_reached g : reached g s → f ≠ Stopping → inv (n + 1) s2 → (∀ ids, g ≠ AtClose ids) → reached g s2.
Proof.
  intros Hr Hne Hi2 Hids. pose proof (tm_running _ _ _ _ Htame Hne) as Hrun.
  assert (running_ s2 = running_ s) as Hrun2 by done.
  assert (workers_done s → workers_done s2) as Hw.
  { intros Hw k Hk. apply turn_finished, Hw. unfold s2 in Hk. simpl in Hk. by rewrite (tm_workers _ _ _ _ Htame) in Hk. }
  destruct g; unfold reached in *; rewrite Hrun2; try (by destruct (Hids ids)).
  - intros Hx. destruct (Hr Hx) as ((? & ? & ?) & ? & ?). split_and!; auto using turn_finished, turn_closed, turn_pending.
  - intros Hx. destruct (Hr Hx) as ((? & ? & ?) & ? & ?). split_and!; auto using turn_finished, turn_closed, turn_pending.
  - done.
  - destruct Hr. split; auto using turn_finished.
  - destruct Hr as (? & ? & ?). split_and!; auto using turn_finished.
  - destruct Hr as (? & ? & ? & ?). split_and!; auto using turn_finished, turn_closed.
  - destruct Hr as (? & (? & ? & ?) & ?). split_and!; auto using turn_finished, turn_closed, turn_pending.
  - destruct Hr as (? & (? & ? & ?) & ?). split_and!; auto using turn_finished, turn_closed, turn_pending.
Qed.

Lemma turn_threads t' l : threads s2 !! t' = Some l → (t' = t ∧ l = fs ++ rest) ∨ (t' ≠ t ∧ threads s !! t' = Some l).
Proof.
  unfold s2. simpl. rewrite (tm_threads _ _ _ _ Htame). intros [[<- <-]|[? ?]]%lookup_insert_Some; [by left|by right].
Qed.
Lemma turn_owner : owner_stack s2 = if decide (t = owner_thread) then fs ++ rest else owner_stack s.
Proof.
  unfold owner_stack, s2. simpl. rewrite (tm_threads _ _ _ _ Htame). case_decide as E.
  - by rewrite E, lookup_insert_eq.
  - by rewrite lookup_insert_ne.
Qed.
(** A frame above the stop's own: the stage lasts. *)
Lemma turn_same_stage g top : owner_stack s = top ++ due g → Forall (λ f, lifecycle f = false) top → reached g s →
  lifecycle f = false → inv (n + 1) s2 →
  ∃ g top, owner_stack s2 = top ++ due g ∧ Forall (λ f, lifecycle f = false) top ∧ reached g s2.
Proof.
  intros Ho Htop Hr Hf Hi2. exists g. rewrite turn_owner.
  assert (f ≠ Stopping) as Hne by (by intros ->).
  assert (∃ top', (if decide (t = owner_thread) then fs ++ rest else owner_stack s) = top' ++ due g ∧
    Forall (λ f, lifecycle f = false) top' ∧
    (∀ id, id ∈ connections_ s' → id ∈ connections_ s → id ∈ closing_now (owner_stack s) →
       id ∈ closing_now (top' ++ due g))) as (top' & Ho' & Htop' & Hcl).
  { case_decide as E.
    - unfold owner_stack in Ho. rewrite <- E, Ht in Ho. simpl in Ho. destruct top as [|f0 top].
      { destruct g; simpl in Ho; simplify_eq; done. }
      simpl in Ho. injection Ho as <- Ho. apply Forall_cons in Htop as [_ Htop].
      exists (fs ++ top). rewrite <- app_assoc, <- Ho. split; [done|]. split.
      { apply Forall_app. split; [by apply (tm_lifecycle _ _ _ _ Htame)|done]. }
      intros id Hin' Hin Hcl. unfold owner_stack in Hcl. rewrite <- E, Ht in Hcl. simpl in Hcl.
      rewrite closing_now_app. apply elem_of_app. right.
      apply closing_now_cons in Hcl as [Hfd|]; [|done]. exfalso.
      by apply (disconnecting_removes n s id e fs s' Hi); [rewrite <- Hfd|].
    - exists top. split_and!; try done. intros id _ _. by rewrite Ho. }
  exists top'. split; [done|]. split; [done|].
  destruct g; try (apply turn_reached; done).
  destruct Hr as (Hr1 & Hr2 & Hr3 & Hr4). unfold reached. rewrite turn_owner, Ho'.
  split_and!; auto using turn_finished.
  - unfold s2. simpl. by rewrite (tm_running _ _ _ _ Htame).
  - intros id Hin. pose proof (turn_registry Hr2) as Hsub.
    destruct (Hr4 id) as [?|?]; [by apply Hsub|by left|right]. apply Hcl; [done|by apply Hsub|done].
Qed.
End Turn.

(** The stop's own frames. *)
Lemma turn_next_stage n s s' t f rest fs e g : inv n s → staged s → threads s !! t = Some (f :: rest) →
  frame_step f e s = Some (fs, s') → owner_stack s = due g → t = owner_thread → lifecycle f = true → reached g s →
  let s2 := with_threads (<[t := fs ++ rest]> (threads s')) s' in inv (n + 1) s2 →
  ∃ g top, owner_stack s2 = top ++ due g ∧ Forall (λ f, lifecycle f = false) top ∧ reached g s2.
Proof.
  intros Hi Hg Ht Hs Ho E Hf Hr s2 Hi2.
  pose proof (turn_owner s s' t f rest fs e Hs) as Hown. fold s2 in Hown. rewrite decide_True in Hown by done.
  pose proof (turn_finished s s' t f rest fs e Ht Hs) as Hfin. fold s2 in Hfin.
  pose proof (turn_closed n s s' t f rest fs e Hi Hg Ht Hs) as Hcld.
  rewrite Hown.
  unfold owner_stack in Ho. rewrite <- E, Ht in Ho. simpl in Ho.
  assert (∀ g', reached g' s → f ≠ Stopping → (∀ ids, g' ≠ AtClose ids) → reached g' s2) as Hkeep
    by (intros; by apply (turn_reached n s s' t f rest fs e)).
  assert (∀ g', fs ++ rest = due g' → reached g' s2 → ∃ g top, fs ++ rest = top ++ due g ∧
    Forall (λ f, lifecycle f = false) top ∧ reached g s2) as Hnext by (intros g' Hd Hr'; by exists g', []).
  destruct g; simpl in Ho; simplify_eq; cbn in Hs.
  - destruct (running_ s) eqn:Hrun; injection Hs as <- <-; [by apply (Hnext AtAccept)|].
    apply (Hnext Rest); [done|]. intros _. destruct (Hr Hrun) as ((? & ? & ?) & ? & Hw).
    split_and!; auto. intros k Hk. by apply Hfin, (Hw k Hk).
  - destruct (finished s accept_thread) eqn:Hfa; [|done]. injection Hs as <- <-.
    apply (Hnext AtIdle); [done|]. apply Hkeep; done.
  - destruct (finished s idle_thread) eqn:Hfi; [|done]. injection Hs as <- <-.
    apply (Hnext AtCloseAll); [done|]. destruct Hr. apply Hkeep; done.
  - injection Hs as <- <-. apply (Hnext (AtClose (elements (connections_ s)))); [done|].
    destruct Hr as (? & ? & ?). unfold reached. split_and!; auto.
    intros id Hin. left. by apply elem_of_elements.
  - destruct Hr as (? & ? & ? & Hcl). destruct ids as [|id ids]; injection Hs as <- <-.
    + apply (Hnext AtDrain); [done|]. apply Hkeep; try done. split_and!; try done.
      apply set_eq. intros id. split; [|set_solver]. intros Hin. destruct (Hcl id Hin) as [Hb|Hb].
      * by apply not_elem_of_nil in Hb.
      * unfold owner_stack in Hb. rewrite Ht in Hb. simpl in Hb. by apply not_elem_of_nil in Hb.
    + exists (AtClose ids), [Disconnecting id]. split; [done|]. split; [by repeat constructor|].
      unfold reached. rewrite Hown. split_and!; auto.
      intros id' Hin. destruct (Hcl id' Hin) as [[->|?]%elem_of_cons|Hb]; [right; simpl; apply list_elem_of_here|by left|].
      unfold owner_stack in Hb. rewrite Ht in Hb. simpl in Hb. by apply not_elem_of_nil in Hb.
  - destruct (_ =? _) eqn:Hp; [|done]. bprop. injection Hs as <- <-. destruct Hr.
    apply (Hnext AtWake); [done|]. apply Hkeep; done.
  - injection Hs as <- <-. destruct Hr as (? & (? & ? & ?) & ?). apply (Hnext AtJoin); [done|].
    split_and!; auto.
  - destruct (forallb _ _) eqn:Hall; [|done]. injection Hs as <- <-. destruct Hr as (? & (? & ? & ?) & ?).
    apply (Hnext Rest); [done|]. intros _. split_and!; auto.
    intros k Hk. apply Hfin. rewrite forallb_forall in Hall. apply Hall.
    apply list_elem_of_In, elem_of_seqZ. unfold s2 in Hk. simpl in Hk. lia.
Qed.
Lemma turn_staged n s s' t f rest fs e : inv n s → staged s → threads s !! t = Some (f :: rest) →
  frame_step f e s = Some (fs, s') → let s2 := with_threads (<[t := fs ++ rest]> (threads s')) s' in
  inv (n + 1) s2 → staged s2.
Proof.
  intros Hi Hg Ht Hs s2 Hi2. pose proof (frame_tame _ _ _ _ _ Hs) as Htame.
  pose proof (turn_threads s s' t f rest fs e Hs) as Hth. fold s2 in Hth.
  pose proof (turn_finished s s' t f rest fs e Ht Hs) as Hfin. fold s2 in Hfin. destruct (sg_stage _ Hg) as (g & top & Ho & Htop & Hr). split.
  - destruct (lifecycle f) eqn:Hf; [|by apply (turn_same_stage n s s' t f rest fs e Hi Hg Ht Hs g top)].
    destruct (turn_lifecycle s t f rest Hg Ht) as [E|]; [|congruence]. destruct top as [|f0 top].
    + by apply (turn_next_stage n s s' t f rest fs e g).
    + unfold owner_stack in Ho. rewrite <- E, Ht in Ho. simpl in Ho. injection Ho as <- _.
      apply Forall_cons in Htop as [? _]. congruence.
  - intros t' l [[-> ->]|[Hne Hl]]%Hth Hna; [|by apply (sg_accepting _ Hg t')].
    pose proof (sg_accepting _ Hg _ _ Ht Hna) as Hacc. apply Forall_cons in Hacc as [Hf Hrest].
    apply Forall_app. split; [by apply (tm_accepting _ _ _ _ Htame)|done].
  - intros t' l [[-> ->]|[Hne Hl]]%Hth Hno; [|by apply (sg_lifecycle _ Hg t')].
    pose proof (sg_lifecycle _ Hg _ _ Ht Hno) as Hacc. apply Forall_cons in Hacc as [Hf Hrest].
    apply Forall_app. split; [by apply (tm_lifecycle _ _ _ _ Htame)|done].
  - intros k Hk. apply Hfin, (sg_workers _ Hg). unfold s2 in Hk. simpl in Hk.
    by rewrite <- (tm_workers _ _ _ _ Htame).
  - unfold s2. simpl. rewrite (tm_workers _ _ _ _ Htame). apply (sg_count _ Hg).
Qed.

(** ** Threads placed *)
Definition plain (f : Frame) : Prop := frame_kind f = None ∧ holds f = 0.
Definition place (l : list (Z * list Frame)) (th : gmap Z (list Frame)) : gmap Z (list Frame) :=
  foldl (λ t x, <[x.1 := x.2]> t) th l.
Lemma place_lookup l th t x : place l th !! t = Some x → (t, x) ∈ l ∨ th !! t = Some x.
Proof.
  revert th. induction l as [|[t' y] l IH]; intros th Hl; [by right|]. simpl in Hl.
  destruct (IH _ Hl) as [Hin|Hth]; [left; by right|].
  apply lookup_insert_Some in Hth as [[-> ->]|[_ ?]]; [left; apply list_elem_of_here|by right].
Qed.
Lemma place_ne l th t : (∀ x, (t, x) ∉ l) → place l th !! t = th !! t.
Proof.
  revert th. induction l as [|[t' y] l IH]; intros th Hl; [done|]. simpl. rewrite IH.
  - rewrite lookup_insert_ne; [done|]. intros ->. apply (Hl y), list_elem_of_here.
  - intros x Hx. apply (Hl x). by right.
Qed.
Lemma place_total w l th : (∀ f, plain f → w f = 0) → Forall (λ x, Forall plain x.2) l →
  Forall (λ x, total w (default [] (th !! x.1)) = 0) l → map_total (total w) (place l th) = map_total (total w) th.
Proof.
  intros Hw. revert th. induction l as [|[t y] l IH]; intros th Hp Hz; [done|]. simpl.
  apply Forall_cons in Hp as [Hy Hp], Hz as [Ht Hz]. simpl in Hy, Ht.
  assert (total w y = 0) as Hy0 by (apply total_zero; eapply Forall_impl; [done|]; auto).
  rewrite IH; [|done|].
  - destruct (th !! t) as [o|] eqn:Ho; simpl in Ht.
    + rewrite (map_total_update _ _ _ _ _ Ho). lia.
    + rewrite map_total_insert by done. lia.
  - eapply Forall_impl; [exact Hz|]. intros [t' y'] Ht'. simpl in *. destruct (decide (t = t')) as [<-|].
    + by rewrite lookup_insert_eq.
    + by rewrite lookup_insert_ne.
Qed.
Lemma finished_stack s t : finished s t = true ↔ default [] (threads s !! t) = [].
Proof. unfold finished. destruct (threads s !! t) as [[|]|]; naive_solver. Qed.
Lemma place_inv n n' s s' l : inv n s → n ≤ n' → threads s' = place l (threads s) →
  Forall (λ x, finished s x.1 = true ∧ Forall plain x.2) l →
  (conns s', connections_ s', inflight s', next_op s', pending_operations_ s', next_connection_id_ s', calls s') =
  (conns s, connections_ s, inflight s, next_op s, pending_operations_ s, next_connection_id_ s, calls s) →
  inv n' s'.
Proof.
  intros Hi Hle Hth Hl Heq. injection Heq as Hc Hr Hin Hno Hp Hnx Hca.
  assert (∀ w, (∀ f, plain f → w f = 0) → summed w s' = summed w s) as Hsum.
  { intros w Hw. unfold summed. rewrite Hth. apply place_total; [done|..]; eapply Forall_impl; try exact Hl.
    - by intros x [_ ?].
    - intros x [Hf _]. apply finished_stack in Hf. by rewrite Hf. }
  assert (∀ k id, wt s' k id = wt s k id) as Hwt.
  { intros k id. apply Hsum. intros f [Hf _]. unfold weight. by rewrite Hf. }
  destruct Hi as [Hok Hn Hfr Hpe Ho]. split.
  - intros id. specialize (Hok id). unfold ok_at, ops in *. rewrite Hc, Hr, Hin, Hca.
    eapply ok_ext; [|exact Hok]. intros k. apply Hwt.
  - lia.
  - intros id Hge. rewrite Hc, Hwt. apply Hfr. by rewrite <- Hnx.
  - rewrite Hin, Hp, Hsum; [done|]. by intros f [_ ?].
  - rewrite Hin, Hno. done.
Qed.
Lemma reached_ext g s s' : reached g s → owner_stack s' = owner_stack s → (∀ t, 0 ≤ t → finished s' t = finished s t) →
  (running_ s', connections_ s', pending_operations_ s', workers s') =
  (running_ s, connections_ s, pending_operations_ s, workers s) → reached g s'.
Proof.
  intros Hr Ho Hf Heq. injection Heq as Hrun Hreg Hp Hw. unfold reached, workers_done in *.
  rewrite Ho, Hrun, Hreg, Hp, Hw, !Hf by (unfold accept_thread, idle_thread; lia).
  destruct g; try exact Hr; intros Hx; destruct (Hr Hx) as (Hc & Hz & Hk); (split; [exact Hc|split; [exact Hz|]]);
    intros k Hb; (rewrite Hf by (unfold worker_thread; lia)); by apply Hk.
Qed.
(** When the owner has nothing left to run. *)
Lemma owner_rest s : staged s → finished s owner_thread = true → reached Rest s.
Proof.
  intros Hg Hf. apply finished_stack in Hf. destruct (sg_stage _ Hg) as (g & top & Ho & _ & Hr).
  unfold owner_stack in Ho. rewrite Hf in Ho. symmetry in Ho. apply app_eq_nil in Ho as [_ Ho]. by destruct g.
Qed.

(** ** Every step *)
Definition crew (count : Z) : list (Z * list Frame) :=
  ((λ k, (worker_thread k, [WorkerLoop])) <$> seqZ 0 count) ++ [(accept_thread, [AcceptLoop]); (idle_thread, [IdleLoop])].
Lemma crew_taken count created t l : 1 ≤ count → (t, l) ∈ take (Z.to_nat created) (crew count) →
  (∃ k, 0 ≤ k < Z.min count (Z.max 0 created) ∧ t = worker_thread k ∧ l = [WorkerLoop]) ∨
  (t = accept_thread ∧ l = [AcceptLoop]) ∨ (t = idle_thread ∧ l = [IdleLoop]).
Proof.
  intros Hc [i Hi]%list_elem_of_lookup. apply lookup_take_Some in Hi as [Hi Hlt]. unfold crew in Hi.
  apply lookup_app_Some in Hi as [Hi|[Hge Hi]].
  - left. apply list_lookup_fmap_Some in Hi as (k & Hx & Hk). apply lookup_seqZ in Hk as [-> Hk]. injection Hx as -> ->.
    exists (0 + Z.of_nat i). split; [lia|done].
  - right. apply list_elem_of_lookup_2 in Hi. apply elem_of_cons in Hi as [Hi|Hi]; [left; by simplify_eq|].
    apply elem_of_cons in Hi as [Hi|Hi]; [right; by simplify_eq|]. by apply elem_of_nil in Hi.
Qed.
Lemma all_finished s t : staged s → finished s owner_thread = true → running_ s = false → owner_thread ≤ t →
  finished s t = true.
Proof.
  intros Hg Hf Hr Ht. destruct (owner_rest s Hg Hf Hr) as ((Ha & Hid & _) & _ & Hw).
  destruct (decide (t = owner_thread)) as [->|]; [done|]. destruct (decide (t = accept_thread)) as [->|]; [done|].
  destruct (decide (t = idle_thread)) as [->|]; [done|].
  unfold owner_thread, accept_thread, idle_thread in *. replace t with (worker_thread (t - 2)) by (unfold worker_thread; lia).
  destruct (decide (workers s ≤ t - 2)); [by apply (sg_workers _ Hg)|apply Hw; lia].
Qed.
(** The threads a start places: the workers, then the accept and idle threads, and the
    owner's stop when one could not be created. *)
Definition placed (count created : Z) : list (Z * list Frame) :=
  take (Z.to_nat created) (crew count) ++ (if created <? zlen (crew count) then [(owner_thread, [Stopping])] else []).
Lemma placed_cases count created t l : 1 ≤ count → (t, l) ∈ placed count created →
  (∃ k, 0 ≤ k < Z.min count (Z.max 0 created) ∧ t = worker_thread k ∧ l = [WorkerLoop]) ∨
  (t = accept_thread ∧ l = [AcceptLoop]) ∨ (t = idle_thread ∧ l = [IdleLoop]) ∨ (t = owner_thread ∧ l = [Stopping]).
Proof.
  intros Hc [Hl|Hl]%elem_of_app; [apply crew_taken in Hl; [naive_solver|done]|].
  case_match; [|by apply elem_of_nil in Hl]. apply list_elem_of_singleton in Hl. injection Hl as -> ->. auto.
Qed.
Section Started.
Context (n : Z) (s : Iocp) (count created : Z).
Hypothesis Hi : inv n s.
Hypothesis Hg : staged s.
Hypothesis Hf : finished s owner_thread = true.
Hypothesis Hrun : running_ s = false.
Hypothesis Hcount : 1 ≤ count.
Context (s2 : Iocp).
Hypothesis Hth : threads s2 = place (placed count created) (threads s).

Lemma started_inv :
  (conns s2, connections_ s2, inflight s2, next_op s2, pending_operations_ s2, next_connection_id_ s2, calls s2) =
  (conns s, connections_ s, inflight s, next_op s, pending_operations_ s, next_connection_id_ s, calls s) →
  inv (n + 1) s2.
Proof.
  intros Heq. eapply (place_inv n _ s s2 _ Hi); [lia|exact Hth| |exact Heq].
  apply Forall_forall. intros [t l] Hl.
  assert (owner_thread ≤ t ∧ Forall plain l) as [Ht Hp].
  { apply placed_cases in Hl as [(k & Hk & -> & ->)|[[-> ->]|[[-> ->]|[-> ->]]]]; [..|done];
      (split; [unfold owner_thread, worker_thread, accept_thread, idle_thread; lia|by repeat constructor]). }
  split; [by apply all_finished|done].
Qed.
Lemma started_lookup t l : threads s2 !! t = Some l →
  l = [] ∨ (t, l) ∈ placed count created ∨ t < owner_thread ∧ threads s !! t = Some l.
Proof.
  intros Hl. rewrite Hth in Hl. apply place_lookup in Hl as [Hl|Hl]; [by right; left|].
  destruct (decide (t < owner_thread)); [by right; right|]. left.
  assert (finished s t = true) as Hft by (apply all_finished; [done..|lia]). apply finished_stack in Hft. by rewrite Hl in Hft.
Qed.
Lemma started_owner : ∃ g, owner_stack s2 = due g ∧ (g = Rest ∨ g = Asked).
Proof.
  unfold owner_stack. destruct (threads s2 !! owner_thread) as [l|] eqn:Hl; [|exists Rest; auto].
  destruct (started_lookup _ _ Hl) as [->|[Hb|[Hb _]]]; [exists Rest; auto| |lia].
  apply placed_cases in Hb; [|done]. unfold owner_thread, worker_thread, accept_thread, idle_thread in Hb.
  destruct Hb as [(k & ? & ? & _)|[[? _]|[[? _]|[_ ->]]]]; try lia. exists Asked; auto.
Qed.
Lemma started_staged : running_ s2 = true → workers s2 = Z.min count (Z.max 0 created) → staged s2.
Proof.
  intros Hru Hw. split.
  - destruct started_owner as (g & Ho & Hgs). exists g, []. split; [done|]. split; [done|].
    unfold reached. rewrite Hru. by destruct Hgs as [-> | ->].
  - intros t l Hl Hne. destruct (started_lookup _ _ Hl) as [->|[Hb|[_ Hb]]]; [done| |by apply (sg_accepting _ Hg t)].
    apply placed_cases in Hb as [(k & Hk & -> & ->)|[[-> ->]|[[-> ->]|[-> ->]]]]; try done; by repeat constructor.
  - intros t l Hl Hne. destruct (started_lookup _ _ Hl) as [->|[Hb|[_ Hb]]]; [done| |by apply (sg_lifecycle _ Hg t)].
    apply placed_cases in Hb as [(k & Hk & -> & ->)|[[-> ->]|[[-> ->]|[-> ->]]]]; try done; by repeat constructor.
  - intros k Hk. rewrite Hw in Hk. apply finished_stack. destruct (threads s2 !! worker_thread k) as [l|] eqn:Hl; [|done].
    simpl. destruct (started_lookup _ _ Hl) as [->|[Hb|[Hb _]]]; [done| |unfold worker_thread, owner_thread in Hb; lia].
    apply placed_cases in Hb; [|done]. unfold worker_thread, accept_thread, idle_thread, owner_thread in Hb.
    destruct Hb as [(k' & Hk' & Hb & _)|[[Hb _]|[[Hb _]|[Hb _]]]]; lia.
  - rewrite Hw. lia.
Qed.
End Started.
Lemma start_kept n s o opened created : inv n s → staged s → finished s owner_thread = true →
  inv (n + 1) (start o opened created s) ∧ staged (start o opened created s).
Proof.
  intros Hi Hg Hf. unfold start. destruct (_ || _) eqn:Hgo.
  { split; [|done]. apply (place_inv n _ s s []); try done; lia. }
  apply orb_false_elim in Hgo as [Hrun _]. set (count := Z.max 1 (to_worker_count o)). fold (crew count).
  match goal with |- inv _ ?s' ∧ _ => set (s2 := s') end.
  assert (threads s2 = place (placed count created) (threads s)) as Hth.
  { unfold s2, placed, place. rewrite foldl_app. by case_match. }
  split.
  - apply (started_inv n s count created Hi Hg Hf Hrun); [lia|done|]. unfold s2. by case_match.
  - apply (started_staged s count created Hg Hf Hrun); [lia|done|..]; unfold s2; by case_match.
Qed.
(** One thread placed. *)
Section Placed.
Context (n : Z) (s : Iocp) (t : Z) (l : list Frame).
Hypothesis Hi : inv n s.
Hypothesis Hg : staged s.
Hypothesis Hf : finished s t = true.
Hypothesis Hp : Forall plain l.
Let s2 := with_threads (<[t := l]> (threads s)) s.

Lemma placed_inv : inv (n + 1) s2.
Proof. apply (place_inv n _ s s2 [(t, l)] Hi); [lia|done| |done]. by repeat constructor. Qed.
Lemma placed_finished t' : t' ≠ t → finished s2 t' = finished s t'.
Proof. intros Hne. unfold finished, s2. simpl. by rewrite lookup_insert_ne. Qed.
Lemma placed_staged : t ≤ owner_thread → Forall (λ f, accepting f = false) l →
  (t ≠ owner_thread → Forall (λ f, lifecycle f = false) l) →
  (∃ g top, owner_stack s2 = top ++ due g ∧ Forall (λ f, lifecycle f = false) top ∧ reached g s2) → staged s2.
Proof.
  intros Ht Hacc Hlif Hst. split; [done|..].
  - intros t' l' Hl Hne. unfold s2 in Hl. simpl in Hl. apply lookup_insert_Some in Hl as [[<- <-]|[_ Hl]]; [done|by apply (sg_accepting _ Hg t')].
  - intros t' l' Hl Hne. unfold s2 in Hl. simpl in Hl. apply lookup_insert_Some in Hl as [[<- <-]|[_ Hl]]; [by apply Hlif|by apply (sg_lifecycle _ Hg t')].
  - intros k Hk. pose proof (sg_count _ Hg). simpl in Hk.
    rewrite placed_finished by (unfold worker_thread, owner_thread in *; lia). by apply (sg_workers _ Hg).
  - apply (sg_count _ Hg).
Qed.
Lemma placed_reached g : t ≤ owner_thread → owner_stack s2 = owner_stack s → reached g s → reached g s2.
Proof.
  intros Ht Ho Hr. apply (reached_ext g s); try done. intros t' Ht'. apply placed_finished. unfold owner_thread in Ht. lia.
Qed.
End Placed.
Lemma stop_kept n s : inv n s → staged s → finished s owner_thread = true →
  let s2 := with_threads (<[owner_thread := [Stopping]]> (threads s)) s in inv (n + 1) s2 ∧ staged s2.
Proof.
  intros Hi Hg Hf s2. split; [by apply placed_inv; [..|by repeat constructor]|].
  apply placed_staged; try done; [by repeat constructor|]. exists Asked, [].
  split; [unfold owner_stack; simpl; by rewrite lookup_insert_eq|]. split; [done|].
  intros Hr. destruct (owner_rest s Hg Hf Hr) as ((Ha & Hid & Hc) & Hz & Hw).
  assert (∀ t, t ≠ owner_thread → finished s2 t = finished s t) as Hfin by (intros; by apply placed_finished).
  split_and!; try done; try (by rewrite Hfin). intros k Hk.
  rewrite Hfin by (unfold worker_thread, owner_thread; lia). by apply Hw.
Qed.
Lemma spawn_kept n s t ops : inv n s → staged s → finished s t = true → t < owner_thread →
  let s2 := with_threads (<[t := [Script ops]]> (threads s)) s in inv (n + 1) s2 ∧ staged s2.
Proof.
  intros Hi Hg Hf Ht s2. split; [by apply placed_inv; [..|by repeat constructor]|].
  apply placed_staged; try done; try lia; try by repeat constructor.
  destruct (sg_stage _ Hg) as (g & top & Ho & Htop & Hr). exists g, top.
  assert (owner_stack s2 = owner_stack s) as Heq by (unfold owner_stack; simpl; by rewrite lookup_insert_ne by lia).
  split; [by rewrite <- Ho|]. split; [done|]. apply placed_reached; [lia|done|done].
Qed.

(** ** Runs *)
Theorem step_kept n s a : inv n s → staged s → n + 2 < 2 ^ 64 → inv (n + 1) (step s a) ∧ staged (step s a).
Proof.
  intros Hi Hg Hb.
  assert (inv (n + 1) s ∧ staged s) as Hsame by (split; [apply (place_inv n _ s s []); try done; lia|done]).
  destruct a as [o opened created| |t ops|t e]; cbn [step].
  - destruct (finished s owner_thread) eqn:Hf; [by apply start_kept|done].
  - destruct (finished s owner_thread) eqn:Hf; [by apply stop_kept|done].
  - destruct (_ && _) eqn:Hf; [|done]. apply andb_true_iff in Hf as [Ht Hf]. bprop. apply spawn_kept; [done..|lia].
  - unfold run_thread. destruct (threads s !! t) as [[|f rest]|] eqn:Ht; [done| |done].
    destruct (frame_step f e s) as [[fs s']|] eqn:Hs; [|done].
    assert (inv (n + 1) (with_threads (<[t := fs ++ rest]> (threads s')) s')) as Hi2 by (by eapply frame_inv).
    split; [done|]. exact (turn_staged n s s' t f rest fs e Hi Hg Ht Hs Hi2).
Qed.
Definition run (o : TcpServerOptions) (actions : list Action) : Iocp := runs step (new_server o) actions.
Lemma new_kept o : inv 0 (new_server o) ∧ staged (new_server o).
Proof.
  split.
  - split; try done; simpl; lia.
  - split; try done. exists Rest, []. split; [done|]. split; [done|]. intros _. split_and!; try done.
Qed.
Theorem run_kept o actions : zlen actions + 1 < 2 ^ 64 → inv (zlen actions) (run o actions) ∧ staged (run o actions).
Proof.
  unfold run. induction actions as [|a l IH] using rev_ind; intros Hb; [apply new_kept|].
  rewrite runs_app. rewrite zlen_app in *. unfold zlen at 2 in Hb. simpl in Hb.
  destruct IH as [Hi Hg]; [lia|]. simpl. apply step_kept; [done..|lia].
Qed.
