(* ===== verification/IocpWorkers.v ===== *)
(** IocpWorkers: where the workers of the completion-port backend stand, and that some
    thread can take a step as long as a stop has not returned; then that every step a
    thread can take once it is stopping is paid for, so that a stop ends. *)
From S2P Require Import Prelude.
From S2P Require Import Text.
From S2P Require Import Kinds.
From S2P Require Import LineFramer.
From S2P Require Import RuntimeHub.
From S2P Require Import IocpServer.
From S2P Require Import IocpInvariant.
From S2P Require Import IocpSteps.
From S2P Require Import IocpLifecycle.

(** ** Who can step *)
Definition moves (s : Iocp) (t : Z) (e : Env) : bool :=
  match threads s !! t with
  | Some (f :: _) => match frame_step f e s with Some _ => true | None => false end
  | _ => false
  end.
(** What a wait waits for. *)
Definition waits (f : Frame) : bool :=
  match f with WorkerLoop | JoinAccept | JoinIdle | Drain | JoinWorkers => true | _ => false end.
Lemma enabled f e s : waits f = false → frame_step f e s ≠ None.
Proof. intros Hw. destruct f; try done; cbn; repeat case_match; done. Qed.
Lemma moves_enabled s t e f rest : threads s !! t = Some (f :: rest) → waits f = false → moves s t e = true.
Proof. intros Ht Hw. unfold moves. rewrite Ht. pose proof (enabled f e s Hw). by destruct (frame_step f e s). Qed.
Definition looping (f : Frame) : Z := match f with WorkerLoop => 1 | _ => 0 end.
Definition loops (s : Iocp) : Z := summed looping s.
#[global] Arguments loops : simpl never.
(** Nothing is below a worker's loop. *)
Fixpoint based (l : list Frame) : Prop :=
  match l with [] => True | f :: rest => (f = WorkerLoop → rest = []) ∧ based rest end.
Record manned (s : Iocp) : Prop := {
  mn_based t l : threads s !! t = Some l → based l;
  mn_place t l : threads s !! t = Some l → t < 2 → WorkerLoop ∉ l;
  mn_waiting : running_ s = true ∨ WakeWorkers ∈ owner_stack s → wakes s = 0 ∧ loops s = workers s;
  mn_woken : running_ s = false → WakeWorkers ∉ owner_stack s → JoinWorkers ∈ owner_stack s → wakes s = loops s;
  mn_nobody : workers s = 0 → finished s accept_thread = true ∧ connections_ s = ∅ ∧ pending_operations_ s = 0;
}.
Record frame_manning (f : Frame) (fs : list Frame) (s s' : Iocp) : Prop := {
  fm_loop : f = WorkerLoop → (fs = [] ∧ wakes s' = wakes s - 1 ∧ 0 < wakes s) ∨
    (∃ op ok n data, fs = [Completed op ok n data; WorkerLoop] ∧ wakes s' = wakes s);
  fm_other : f ≠ WorkerLoop → WorkerLoop ∉ fs;
  fm_wakes : f ≠ WorkerLoop → f ≠ WakeWorkers → wakes s' = wakes s;
  fm_wake : f = WakeWorkers → wakes s' = wakes s + workers s ∧ fs = [];
  fm_stop : WakeWorkers ∈ fs ∨ JoinWorkers ∈ fs → f = Stopping ∧ running_ s = true ∧ WakeWorkers ∈ fs;
}.
Ltac not_there := rewrite ?elem_of_cons, ?elem_of_nil; naive_solver.
Lemma frame_mans f e s fs s' : frame_step f e s = Some (fs, s') → frame_manning f fs s s'.
Proof.
  intros Hs. destruct f; expose Hs; repeat (case_match; simplify_eq).
  all: try (injection Hs as <- <-).
  all: split; cbn; try done.
  all: try not_there; try (bprop; intros; lia).
  intros _. left. bprop. auto.
Qed.

(** ** Some thread can step while the owner waits *)
Lemma summed_some w s : (∀ f, 0 ≤ w f) → 0 < summed w s → ∃ t l f, threads s !! t = Some l ∧ f ∈ l ∧ 0 < w f.
Proof.
  intros Hw. unfold summed. induction (threads s) as [|t l m Hm IH] using map_ind.
  { rewrite map_total_empty. lia. }
  rewrite map_total_insert by done. intros Hpos. destruct (decide (0 < total w l)) as [Hl|].
  - assert (∃ f, f ∈ l ∧ 0 < w f) as (f & Hf & Hwf).
    { clear -Hl Hw. induction l as [|f l IH]; [by rewrite total_nil in Hl|]. rewrite total_cons in Hl.
      destruct (decide (0 < w f)); [exists f; split; [apply list_elem_of_here|done]|].
      destruct IH as (g & Hg & ?); [specialize (Hw f); lia|]. exists g. split; [by right|done]. }
    exists t, l, f. by rewrite lookup_insert_eq.
  - destruct IH as (t' & l' & f & Ht & Hf & Hwf); [pose proof (total_nonneg w l Hw); lia|].
    exists t', l', f. rewrite lookup_insert_ne; [done|]. congruence.
Qed.
Lemma based_tail l f : based l → f ∈ l → ∀ g rest, l = g :: rest → g = WorkerLoop → f = WorkerLoop.
Proof. intros Hb Hf g rest -> ->. destruct Hb as [Hr _]. rewrite (Hr eq_refl) in Hf. by apply list_elem_of_singleton in Hf. Qed.

Section Progress.
Context (n : Z) (s : Iocp).
Hypothesis Hi : inv n s.
Hypothesis Hg : staged s.
Hypothesis Hm : manned s.
Hypothesis Hrun : running_ s = false.
Abbreviation progress := (∃ t e, moves s t e = true).
Let env (pick : option Z) : Env := mkEnv Nothing true true [] 0 [] pick 0 [].

(** A thread other than the owner's waits only in a worker's loop. *)
Lemma other_moves t f rest : threads s !! t = Some (f :: rest) → t ≠ owner_thread → f = WorkerLoop ∨ progress.
Proof.
  intros Ht Hne. destruct (waits f) eqn:Hw.
  - left. pose proof (sg_lifecycle _ Hg _ _ Ht Hne) as Hl. apply Forall_cons in Hl as [Hl _]. by destruct f.
  - right. exists t, (env None). by eapply moves_enabled.
Qed.
Lemma unfinished t : finished s t = false → ∃ f rest, threads s !! t = Some (f :: rest).
Proof. unfold finished. destruct (threads s !! t) as [[|f rest]|]; try done. eauto. Qed.
Lemma low_moves t : finished s t = false → t < 2 → t ≠ owner_thread → progress.
Proof.
  intros (f & rest & Ht)%unfinished Hlt Hne. destruct (other_moves t f rest Ht Hne) as [->|]; [|done].
  exfalso. apply (mn_place _ Hm _ _ Ht Hlt), list_elem_of_here.
Qed.
Lemma worker_picks k op t rest : threads s !! t = Some (WorkerLoop :: rest) → inflight s !! k = Some op → progress.
Proof. intros Ht Hk. exists t, (env (Some k)). unfold moves. rewrite Ht. cbn. by rewrite Hk. Qed.
Lemma worker_wakes t rest : threads s !! t = Some (WorkerLoop :: rest) → 0 < wakes s → progress.
Proof. intros Ht Hk. exists t, (env None). unfold moves. rewrite Ht. cbn. by rewrite (proj2 (Z.ltb_lt _ _)). Qed.
Lemma not_owner t l f : threads s !! t = Some l → f ∈ l → f ∉ owner_stack s → t ≠ owner_thread.
Proof. intros Ht Hf Hn ->. apply Hn. unfold owner_stack. by rewrite Ht. Qed.
Lemma drain_moves : owner_stack s = due AtDrain → pending_operations_ s ≠ 0 → progress.
Proof.
  intros Ho Hp. rewrite (iv_pending _ _ Hi) in Hp. pose proof (msize_nonneg (inflight s)).
  assert (0 ≤ summed holds s) by (apply map_total_nonneg; intros l; apply total_nonneg, holds_nonneg).
  destruct (decide (0 < summed holds s)) as [Hh|].
  - apply summed_some in Hh as (t & l & f & Ht & Hf & Hh); [|apply holds_nonneg].
    destruct l as [|g rest]; [by apply elem_of_nil in Hf|].
    assert (t ≠ owner_thread) as Hne.
    { apply (not_owner _ _ f Ht Hf). rewrite Ho. intros Hin. simpl in Hin. rewrite !elem_of_cons, elem_of_nil in Hin.
      by destruct Hin as [->|[->|[->|[]]]]. }
    destruct (other_moves t g rest Ht Hne) as [->|]; [|done].
    by rewrite (based_tail _ f (mn_based _ Hm _ _ Ht) Hf _ _ eq_refl eq_refl) in Hh.
  - assert (∃ k op, inflight s !! k = Some op) as (k & op & Hk).
    { destruct (map_choose (inflight s)) as (k & op & Hk); [|by exists k, op]. intros He. apply Hp. rewrite He.
      unfold msize. rewrite map_size_empty. lia. }
    destruct (mn_waiting _ Hm) as [_ Hl]; [right; rewrite Ho; simpl; rewrite !elem_of_cons; auto|].
    assert (0 < loops s) as Hpos.
    { pose proof (sg_count _ Hg). destruct (decide (workers s = 0)) as [Hz|]; [|lia].
      destruct (mn_nobody _ Hm Hz) as (_ & _ & Hp0). rewrite (iv_pending _ _ Hi) in Hp0. lia. }
    apply summed_some in Hpos as (t & l & f & Ht & Hf & Hw); [|intros []; done].
    destruct l as [|g rest]; [by apply elem_of_nil in Hf|].
    assert (t ≠ owner_thread) as Hne.
    { intros ->. destruct f; try done. by apply (mn_place _ Hm _ _ Ht). }
    destruct (other_moves t g rest Ht Hne) as [->|]; [|done]. by eapply worker_picks.
Qed.
Lemma join_moves k : owner_stack s = due AtJoin → finished s (worker_thread k) = false → 0 ≤ k → progress.
Proof.
  intros Ho Hf Hk. apply unfinished in Hf as (f & rest & Ht).
  assert (worker_thread k ≠ owner_thread) as Hne by (unfold worker_thread, owner_thread; lia).
  destruct (other_moves _ f rest Ht Hne) as [->|]; [|done]. apply (worker_wakes _ rest Ht).
  rewrite (mn_woken _ Hm Hrun); [| |].
  - pose proof (summed_top looping s (worker_thread k) WorkerLoop rest) as Hle. cbn in Hle. unfold loops.
    specialize (Hle ltac:(intros []; done) Ht). lia.
  - rewrite Ho. simpl. rewrite elem_of_cons, elem_of_nil. by intros [|].
  - rewrite Ho. apply list_elem_of_here.
Qed.
Theorem owner_progress : finished s owner_thread = false → progress.
Proof.
  intros Hf. destruct (sg_stage _ Hg) as (g & top & Ho & Htop & Hr).
  apply unfinished in Hf as (f & rest & Ht). unfold owner_stack in Ho. rewrite Ht in Ho. simpl in Ho.
  assert (waits f = false → progress) as Hfree.
  { intros Hw. exists owner_thread, (env None). by eapply moves_enabled. }
  destruct top as [|f' top].
  2: { injection Ho as -> _. apply Forall_cons in Htop as [Hl _]. apply Hfree. destruct f'; try done.
       exfalso. apply (mn_place _ Hm _ _ Ht); [done|apply list_elem_of_here]. }
  assert (owner_stack s = due g) as Hs by (unfold owner_stack; rewrite Ht; done).
  destruct g; simpl in Ho; try done; injection Ho as -> _; try (by apply Hfree).
  - destruct (finished s accept_thread) eqn:Ha; [|by apply (low_moves accept_thread)].
    exists owner_thread, (env None). unfold moves. rewrite Ht. cbn. by rewrite Ha.
  - destruct (finished s idle_thread) eqn:Ha; [|by apply (low_moves idle_thread)].
    exists owner_thread, (env None). unfold moves. rewrite Ht. cbn. by rewrite Ha.
  - destruct (decide (pending_operations_ s = 0)) as [Hz|]; [|by apply drain_moves].
    exists owner_thread, (env None). unfold moves. rewrite Ht. cbn. by rewrite Hz.
  - destruct (forallb (λ k, finished s (worker_thread k)) (seqZ 0 (workers s))) eqn:Hall.
    + exists owner_thread, (env None). unfold moves. rewrite Ht. cbn. by rewrite Hall.
    + assert (∃ k, 0 ≤ k ∧ finished s (worker_thread k) = false) as (k & Hk & Hw); [|by apply (join_moves k)].
      clear -Hall. assert (∀ k, k ∈ seqZ 0 (workers s) → 0 ≤ k) as Hpos by (intros k Hk%elem_of_seqZ; lia).
      induction (seqZ 0 (workers s)) as [|k l IH]; [done|]. simpl in Hall.
      destruct (finished s (worker_thread k)) eqn:Hw; [apply IH; [done|intros; apply Hpos; by right]|].
      exists k. split; [apply Hpos, list_elem_of_here|done].
Qed.
End Progress.

(** ** Every step keeps the workers at their posts *)
Lemma based_app l rest : WorkerLoop ∉ l → based rest → based (l ++ rest).
Proof.
  intros Hl Hr. induction l as [|f l IH]; [done|]. apply not_elem_of_cons in Hl as [Hf Hl]. simpl. split; [by intros ->|auto].
Qed.
Section Manning.
Context (n : Z) (s s' : Iocp) (t : Z) (f : Frame) (rest fs : list Frame) (e : Env).
Hypothesis Hi : inv n s.
Hypothesis Hg : staged s.
Hypothesis Hm : manned s.
Hypothesis Ht : threads s !! t = Some (f :: rest).
Hypothesis Hs : frame_step f e s = Some (fs, s').
Let s2 := with_threads (<[t := fs ++ rest]> (threads s')) s'.
Let Htame := frame_tame f e s fs s' Hs.
Let Hman := frame_mans f e s fs s' Hs.

Lemma loops_turn : loops s2 = loops s - looping f + total looping fs.
Proof. apply summed_run; [done|apply Htame]. Qed.
Lemma no_loops l : WorkerLoop ∉ l → total looping l = 0.
Proof. intros Hl. apply total_zero, Forall_forall. intros g Hg'. by destruct g. Qed.
(** The loops and the wakes change together. *)
Lemma loops_wakes : f ≠ WakeWorkers →
  loops s2 - wakes s2 = loops s - wakes s ∧ (wakes s = 0 → wakes s2 = 0).
Proof.
  intros Hne. rewrite loops_turn. change (wakes s2) with (wakes s'). destruct (decide (f = WorkerLoop)) as [Hf|Hf].
  - destruct (fm_loop _ _ _ _ Hman Hf) as [(Hfs & Hw & ?)|(op & ok & k & data & Hfs & Hw)]; rewrite Hfs, Hf, Hw; cbn; lia.
  - rewrite (fm_wakes _ _ _ _ Hman Hf Hne), no_loops by by apply (fm_other _ _ _ _ Hman).
    assert (looping f = 0) as -> by (clear -Hf; by destruct f). lia.
Qed.
Lemma turn_based : based (fs ++ rest).
Proof.
  pose proof (mn_based _ Hm _ _ Ht) as [Hb Hr]. destruct (decide (f = WorkerLoop)) as [Hf|Hf].
  - rewrite (Hb Hf), app_nil_r. destruct (fm_loop _ _ _ _ Hman Hf) as [(-> & _)|(op & ok & k & data & -> & _)]; done.
  - by apply based_app, Hr; apply (fm_other _ _ _ _ Hman).
Qed.
Lemma turn_place : t < 2 → WorkerLoop ∉ fs ++ rest.
Proof.
  intros Hlt. pose proof (mn_place _ Hm _ _ Ht Hlt) as Hn. apply not_elem_of_cons in Hn as [Hf Hr].
  apply not_elem_of_app. split; [|done]. by apply (fm_other _ _ _ _ Hman).
Qed.
(** A frame of the stop is the owner's and was waiting below. *)
Lemma turn_stays g : g ∈ owner_stack s2 → g ∉ fs → g ∈ owner_stack s.
Proof.
  intros Hin Hfs. unfold s2 in Hin. rewrite (turn_owner s s' t f rest fs e Hs) in Hin. case_decide as E; [|done].
  apply elem_of_app in Hin as [?|Hr]; [done|]. unfold owner_stack. rewrite <- E, Ht. by right.
Qed.
Lemma turn_stayed g : g ∈ owner_stack s → f ≠ g → g ∈ owner_stack s2.
Proof.
  intros Hin Hne. unfold s2. rewrite (turn_owner s s' t f rest fs e Hs). case_decide as E; [|done].
  unfold owner_stack in Hin. rewrite <- E, Ht in Hin. apply elem_of_cons in Hin as [?|Hin]; [by destruct Hne|].
  apply elem_of_app. by right.
Qed.
Lemma running_turn : f = Stopping ∨ running_ s2 = running_ s.
Proof. destruct (decide (f = Stopping)); [by left|right]. by apply (tm_running _ _ _ _ Htame). Qed.
Lemma wake_turn : f = WakeWorkers → owner_stack s = due AtWake ∧ running_ s = false ∧ owner_stack s2 = due AtJoin.
Proof.
  intros Hf. destruct (turn_lifecycle s t f rest Hg Ht) as [E|Hl]; [|by rewrite Hf in Hl].
  destruct (sg_stage _ Hg) as (g & top & Ho & Htop & Hr). pose proof Ho as Ho'. unfold owner_stack in Ho.
  rewrite <- E, Ht, Hf in Ho. simpl in Ho. destruct top as [|f0 top].
  2: { injection Ho as <- _. apply Forall_cons in Htop as [? _]. done. }
  destruct g; simpl in Ho; try done. simpl in Ho'. split; [done|]. destruct Hr as [Hr _]. split; [done|].
  unfold s2. rewrite (turn_owner s s' t f rest fs e Hs), decide_True by done.
  destruct (fm_wake _ _ _ _ Hman Hf) as [_ ->]. by injection Ho as ->.
Qed.
Lemma stopping_turn : f = Stopping → t = owner_thread ∧ rest = [].
Proof.
  intros Hf. destruct (turn_lifecycle s t f rest Hg Ht) as [E|Hl]; [|by rewrite Hf in Hl]. split; [done|].
  destruct (sg_stage _ Hg) as (g & top & Ho & Htop & Hr). unfold owner_stack in Ho.
  rewrite <- E, Ht, Hf in Ho. simpl in Ho. destruct top as [|f0 top].
  - destruct g; simpl in Ho; try done. by injection Ho.
  - injection Ho as <- _. by apply Forall_cons in Htop as [? _].
Qed.
Lemma turn_manned : inv (n + 1) s2 → manned s2.
Proof.
  intros Hi2. split.
  - intros t' l [[-> ->]|[_ Hl]]%(turn_threads s s' t f rest fs e Hs); [apply turn_based|by apply (mn_based _ Hm t')].
  - intros t' l [[-> ->]|[_ Hl]]%(turn_threads s s' t f rest fs e Hs); [apply turn_place|by apply (mn_place _ Hm t')].
  - intros Hw. destruct (decide (f = WakeWorkers)) as [Hf|Hf].
    { destruct (wake_turn Hf) as (_ & Hr & Ho). exfalso. destruct running_turn as [?|Hr2]; [congruence|].
      rewrite Hr2, Hr, Ho in Hw. destruct Hw as [?|Hin]; [done|]. simpl in Hin. by apply list_elem_of_singleton in Hin. }
    destruct (mn_waiting _ Hm) as [H0 Hl].
    { destruct (decide (WakeWorkers ∈ fs)) as [Hin|Hfs]; [left; by apply (fm_stop _ _ _ _ Hman); left|].
      destruct Hw as [Hr|Hin]; [|right; by apply turn_stays].
      left. destruct running_turn as [Hst|Hr2]; [|congruence]. pose proof Hs as Hs1. rewrite Hst in Hs1. cbn in Hs1.
      destruct (running_ s) eqn:E; [done|]. injection Hs1 as _ Hss. rewrite <- E, Hss. exact Hr. }
    destruct (loops_wakes Hf) as [Hd Hz]. rewrite (Hz H0) in *. split; [done|].
    change (workers s2) with (workers s'). rewrite (tm_workers _ _ _ _ Htame). lia.
  - intros Hr Hnw Hj. destruct (decide (f = WakeWorkers)) as [Hf|Hf].
    { destruct (wake_turn Hf) as (Ho & _ & _). destruct (mn_waiting _ Hm) as [H0 Hl].
      { right. rewrite Ho. apply list_elem_of_here. }
      destruct (fm_wake _ _ _ _ Hman Hf) as [Hw Hfs]. rewrite loops_turn. change (wakes s2) with (wakes s').
      rewrite Hw, Hfs, Hf, H0, Hl. cbn. lia. }
    destruct (loops_wakes Hf) as [Hd _].
    assert (JoinWorkers ∉ fs) as Hjf.
    { intros Hin. destruct (fm_stop _ _ _ _ Hman (or_intror Hin)) as (Hst & _ & Hin2). apply Hnw. unfold s2.
      rewrite (turn_owner s s' t f rest fs e Hs). destruct (turn_lifecycle s t f rest Hg Ht) as [E|Hl]; [|by rewrite Hst in Hl].
      rewrite decide_True by done. apply elem_of_app. by left. }
    assert (f ≠ Stopping) as Hst.
    { intros Hst. destruct (stopping_turn Hst) as [E Hrest]. unfold s2 in Hj.
      rewrite (turn_owner s s' t f rest fs e Hs), decide_True, Hrest, app_nil_r in Hj by done. done. }
    assert (running_ s = false) as Hrs by (destruct running_turn; [done|congruence]).
    rewrite (mn_woken _ Hm Hrs) in Hd; [lia| |by apply turn_stays].
    intros Hin. by apply Hnw, turn_stayed.
  - intros Hz. change (workers s2) with (workers s') in Hz. rewrite (tm_workers _ _ _ _ Htame) in Hz.
    destruct (mn_nobody _ Hm Hz) as (Ha & Hc & Hp).
    split; [by apply (turn_finished s s' t f rest fs e Ht Hs)|]. split.
    + by apply (turn_closed n s s' t f rest fs e Hi Hg Ht Hs).
    + by apply (turn_pending n s s' t f rest fs e Hi Hg Hs).
Qed.
End Manning.

(** ** Threads placed *)
Lemma idle_loops s : manned s → (∀ t, owner_thread ≤ t → finished s t = true) → loops s = 0.
Proof.
  intros Hm Hf. unfold loops, summed. assert (∀ t l, threads s !! t = Some l → total looping l = 0) as Hl.
  { intros t l Hl. apply no_loops. destruct (decide (owner_thread ≤ t)) as [Hle|].
    - apply Hf, finished_stack in Hle. rewrite Hl in Hle. simpl in Hle. subst. apply not_elem_of_nil.
    - apply (mn_place _ Hm _ _ Hl). unfold owner_thread in *. lia. }
  clear -Hl. induction (threads s) as [|t l m Hm IH] using map_ind; [apply map_total_empty|].
  rewrite map_total_insert by done. rewrite (Hl t l) by apply lookup_insert_eq. rewrite IH; [done|].
  intros t' l' Hl'. apply (Hl t'). rewrite lookup_insert_ne; [done|]. congruence.
Qed.
(** One thread placed by the owner or the application. *)
Lemma placed_manned s t l : manned s → finished s t = true → t ≤ owner_thread → WorkerLoop ∉ l → based l →
  WakeWorkers ∉ l → JoinWorkers ∉ l → manned (with_threads (<[t := l]> (threads s)) s).
Proof.
  intros Hm Hf Ht Hl Hb Hw Hj. set (s2 := with_threads _ s).
  assert (∀ t' l', threads s2 !! t' = Some l' → t' = t ∧ l' = l ∨ threads s !! t' = Some l') as Hlook.
  { intros t' l' Hl'. unfold s2 in Hl'. simpl in Hl'. apply lookup_insert_Some in Hl' as [[<- <-]|[_ ?]]; auto. }
  assert (loops s2 = loops s) as Hloops.
  { change (loops s2) with (map_total (total looping) (place [(t, l)] (threads s))).
    unfold loops, summed. apply finished_stack in Hf.
    simpl. destruct (threads s !! t) as [o|] eqn:Ho; simpl in Hf.
    - rewrite (map_total_update _ _ _ _ _ Ho), Hf, total_nil, (no_loops l) by done. lia.
    - rewrite map_total_insert, (no_loops l) by done. lia. }
  assert (∀ g, (g = WakeWorkers ∨ g = JoinWorkers) → g ∈ owner_stack s2 ↔ g ∈ owner_stack s) as Hown.
  { intros g Hg. unfold owner_stack, s2. simpl. destruct (decide (t = owner_thread)) as [->|Hne].
    - apply finished_stack in Hf. rewrite lookup_insert_eq, Hf. simpl. rewrite elem_of_nil. destruct Hg as [-> | ->]; by split.
    - by rewrite lookup_insert_ne. }
  split.
  - intros t' l' [[-> ->]|Hl']%Hlook; [done|by apply (mn_based _ Hm t')].
  - intros t' l' [[-> ->]|Hl']%Hlook; [done|by apply (mn_place _ Hm t')].
  - rewrite Hloops, Hown by auto. apply (mn_waiting _ Hm).
  - rewrite Hloops, !Hown by auto. apply (mn_woken _ Hm).
  - intros Hz. destruct (mn_nobody _ Hm Hz) as (Ha & ?). split; [|done].
    rewrite <- Ha. apply placed_finished. unfold owner_thread, accept_thread in *. lia.
Qed.
Lemma place_sum w l th : NoDup l.*1 → Forall (λ x, total w (default [] (th !! x.1)) = 0) l →
  map_total (total w) (place l th) = map_total (total w) th + total (λ x, total w x.2) l.
Proof.
  revert th. induction l as [|[t y] l IH]; intros th Hd Hz; [rewrite total_nil; simpl; lia|]. change (place ((t, y) :: l) th) with (place l (<[t := y]> th)).
  apply NoDup_cons in Hd as [Hn Hd]. apply Forall_cons in Hz as [Ht Hz]. simpl in Hn, Ht.
  rewrite total_cons. change (total w (t, y).2) with (total w y). rewrite IH; [|done|].
  - destruct (th !! t) as [o|] eqn:Ho; simpl in Ht.
    + rewrite (map_total_update _ _ _ _ _ Ho). lia.
    + rewrite map_total_insert by done. lia.
  - apply Forall_forall. intros [t' y'] Hin. rewrite Forall_forall in Hz. specialize (Hz _ Hin). simpl in *.
    rewrite lookup_insert_ne; [done|]. intros <-. apply Hn. apply list_elem_of_fmap. by exists (t, y').
Qed.
Lemma total_ones {A} (w : A → Z) l : Forall (λ x, w x = 1) l → total w l = zlen l.
Proof. induction 1 as [|x l Hx _ IH]; [done|]. rewrite total_cons, zlen_cons. lia. Qed.
Lemma total_nought {A} (w : A → Z) l : Forall (λ x, w x = 0) l → total w l = 0.
Proof. induction 1 as [|x l Hx _ IH]; [done|]. rewrite total_cons. lia. Qed.
Lemma placed_loops count created : 1 ≤ count →
  total (λ x, total looping x.2) (placed count created) = Z.min count (Z.max 0 created).
Proof.
  intros Hc. unfold placed, crew. rewrite take_app, !total_app, (total_ones _ (take _ (_ <$> _))).
  - rewrite !total_nought.
    + unfold zlen. rewrite length_take, length_fmap, length_seqZ. lia.
    + case_match; by repeat constructor.
    + apply Forall_take. by repeat constructor.
  - apply Forall_take, Forall_fmap, Forall_forall. done.
Qed.
Lemma placed_distinct count created : NoDup (placed count created).*1.
Proof.
  assert (NoDup ((crew count).*1 ++ [owner_thread])) as Hall.
  { unfold crew. rewrite fmap_app. rewrite <- list_fmap_compose. simpl.
    rewrite <- app_assoc. simpl. apply NoDup_app. split; [|split].
    - apply NoDup_fmap_2_strong; [|apply NoDup_seqZ]. intros x y _ _ H. unfold compose, worker_thread in H. simpl in H. lia.
    - intros t (k & -> & Hk)%list_elem_of_fmap. apply elem_of_seqZ in Hk. unfold compose, worker_thread. simpl.
      rewrite !elem_of_cons, elem_of_nil. unfold accept_thread, idle_thread, owner_thread. lia.
    - repeat (apply NoDup_cons; split; [rewrite ?elem_of_cons, elem_of_nil; unfold accept_thread, idle_thread, owner_thread; lia|]).
      by apply NoDup_nil. }
  unfold placed. rewrite fmap_app, fmap_take. case_match; simpl.
  - rewrite <- (take_drop (Z.to_nat created) (crew count).*1), <- app_assoc in Hall.
    apply NoDup_app in Hall as (H1 & H2 & H3). apply NoDup_app. split; [done|]. split; [|by apply NoDup_singleton].
    intros x Hx Hin. apply (H2 x Hx), elem_of_app. by right.
  - rewrite app_nil_r. apply NoDup_app in Hall as (H1 & _).
    rewrite <- (take_drop (Z.to_nat created) (crew count).*1) in H1. by apply NoDup_app in H1 as (? & _).
Qed.
Lemma start_manned s o opened created : staged s → manned s → finished s owner_thread = true →
  manned (start o opened created s).
Proof.
  intros Hg Hm Hf. unfold start. destruct (_ || _) eqn:Hgo; [done|].
  apply orb_false_elim in Hgo as [Hrun _]. set (count := Z.max 1 (to_worker_count o)). fold (crew count).
  match goal with |- manned ?s' => set (s2 := s') end.
  assert (threads s2 = place (placed count created) (threads s)) as Hth.
  { unfold s2, placed, place. rewrite foldl_app. by case_match. }
  assert ((running_ s2, workers s2, wakes s2, connections_ s2, pending_operations_ s2) =
    (true, Z.min count (Z.max 0 created), 0, connections_ s, pending_operations_ s)) as Heq by (unfold s2; by case_match).
  injection Heq as Hr2 Hw2 Hk2 Hc2 Hp2. clearbody s2.
  assert (∀ t, owner_thread ≤ t → finished s t = true) as Hall by (intros; by apply all_finished).
  assert (1 ≤ count) as Hcount by lia.
  pose proof (started_lookup s count created Hg Hf Hrun s2 Hth) as Hlook.
  pose proof (placed_cases count created) as Hcases.
  split.
  - intros t l Hl. destruct (Hlook t l Hl) as [->|[Hp|[_ ?]]]; [done| |by apply (mn_based _ Hm t)].
    apply Hcases in Hp as [(k & _ & _ & ->)|[[_ ->]|[[_ ->]|[_ ->]]]]; done.
  - intros t l Hl Hlt. destruct (Hlook t l Hl) as [->|[Hp|[_ ?]]]; [apply not_elem_of_nil| |by apply (mn_place _ Hm t)].
    apply Hcases in Hp as [(k & ? & -> & ->)|[[_ ->]|[[_ ->]|[_ ->]]]]; [|by intros ?%list_elem_of_singleton..|done].
    unfold worker_thread in Hlt. lia.
  - intros _. split; [done|]. unfold loops, summed. rewrite Hth, place_sum, placed_loops, Hw2; [|done|apply placed_distinct|].
    + pose proof (idle_loops s Hm Hall) as H0. unfold loops, summed in H0. lia.
    + apply Forall_forall. intros [t l] Hp. simpl. assert (finished s t = true) as Ht%finished_stack; [|by rewrite Ht].
      apply Hall. unfold owner_thread. apply Hcases in Hp; [|done]. unfold worker_thread, accept_thread, idle_thread, owner_thread in Hp.
      destruct Hp as [(k & ? & ? & _)|[[? _]|[[? _]|[? _]]]]; lia.
  - congruence.
  - intros Hz. destruct (owner_rest s Hg Hf Hrun) as ((_ & _ & He) & Hp & _). rewrite Hc2, Hp2. split; [|done].
    apply finished_stack. rewrite Hth, place_ne; [by apply finished_stack, Hall|]. intros l Hin.
    unfold placed in Hin. replace (Z.to_nat created) with 0%nat in Hin by lia. simpl in Hin.
    case_match; [apply list_elem_of_singleton in Hin|by apply elem_of_nil in Hin].
    by injection Hin.
Qed.
Theorem step_manned n s a : inv n s → staged s → manned s → n + 2 < 2 ^ 64 → manned (step s a).
Proof.
  intros Hi Hg Hm Hb. destruct a as [o opened created| |t ops|t e]; cbn [step].
  - destruct (finished s owner_thread) eqn:Hf; [by apply start_manned|done].
  - destruct (finished s owner_thread) eqn:Hf; [|done].
    apply placed_manned; try done; by rewrite list_elem_of_singleton.
  - destruct (_ && _) eqn:Hf; [|done]. apply andb_true_iff in Hf as [Ht Hf]. bprop.
    apply placed_manned; try done; [lia|by rewrite list_elem_of_singleton..].
  - unfold run_thread. destruct (threads s !! t) as [[|f rest]|] eqn:Ht; [done| |done].
    destruct (frame_step f e s) as [[fs s']|] eqn:Hs; [|done].
    apply (turn_manned n s s' t f rest fs e Hi Hg Hm Ht Hs). by eapply frame_inv.
Qed.
Theorem run_manned o actions : zlen actions + 1 < 2 ^ 64 → manned (run o actions).
Proof.
  unfold run. induction actions as [|a l IH] using rev_ind; intros Hb.
  - split; try done; intros; split_and!; done.
  - rewrite zlen_app in Hb. unfold zlen at 2 in Hb. simpl in Hb. destruct (run_kept o l) as [Hi Hg]; [lia|].
    rewrite runs_app. simpl. eapply step_manned; [exact Hi|exact Hg|apply IH; lia|lia].
Qed.

(** * Termination

    Once the backend is stopping, every step a thread can take is paid for. *)
(** ** Work *)
(** The steps a frame can still cause once [running_] is off, a callback's script apart;
    [k] bounds the registry. *)
Definition cost (k : Z) (f : Frame) : Z :=
  match f with
  | AcceptLoop | Accepting _ | WorkerLoop | FreeOp | IdleLoop | AfterDeliver _ => 1
  | Stopping | JoinAccept | JoinIdle | Drain | WakeWorkers | JoinWorkers => 1
  | Notifying _ | Reporting _ => 2
  | EndScope _ | Requesting _ => 3
  | Disconnecting _ | GiveLine _ _ | Feed _ _ => 4
  | AfterConnected _ | PopLine _ | Deliver _ _ => 5
  | Completed _ _ _ _ => 6
  | ReceiveFailed _ _ => 7
  | PostReceive _ | CompleteSend _ _ _ _ | SubmitSend _ _ => 8
  | SendTo _ _ => 9
  | Connecting _ => 10
  | Publishing _ => 11
  | Admitting _ => 12
  | Script ops => 1 + 10 * zlen ops
  | IdleScan _ ids | CloseEach ids => 1 + 5 * zlen ids
  | CloseAll => 2 + 5 * k
  end.
Definition admitting (f : Frame) : Z := match f with Admitting _ | Publishing _ => 1 | _ => 0 end.
(** The most connections the registry can still come to. *)
Definition room (s : Iocp) : Z := Z.of_nat (size (connections_ s)) + summed admitting s.
Definition work (k : Z) (s : Iocp) : Z := summed (cost k) s + 7 * msize (inflight s).

Lemma msize_insert_le {A} k x (m : gmap Z A) : msize (<[k := x]> m) ≤ msize m + 1.
Proof.
  destruct (m !! k) eqn:Hk; [rewrite (msize_insert_old _ _ _ _ Hk)|rewrite (msize_insert_new _ _ _ Hk)]; lia.
Qed.
Lemma registry_add id (r : gset Z) : Z.of_nat (size ({[id]} ∪ r)) ≤ 1 + Z.of_nat (size r).
Proof.
  rewrite size_union_alt, size_singleton. assert (r ∖ {[id]} ⊆ r) as Hsub%subseteq_size by (intros x; rewrite elem_of_difference; tauto). lia.
Qed.
Lemma frame_work k f e s fs s' : running_ s = false → Z.of_nat (size (connections_ s)) ≤ k →
  frame_step f e s = Some (fs, s') →
  total (cost k) fs + 7 * msize (inflight s') + 1 ≤ cost k f + 7 * msize (inflight s) + 10 * zlen (e_script e).
Proof.
  intros Hr Hk Hs. pose proof (zlen_nonneg (e_script e)).
  destruct f; expose Hs; rewrite ?Hr, ?orb_true_r in Hs; cbn in Hs.
  all: repeat (case_match; simplify_eq).
  all: try (injection Hs as <- <-).
  all: cbn; rewrite ?total_cons, ?total_nil; cbn.
  all: try match goal with |- context [msize (<[?i := ?op]> ?m)] => pose proof (msize_insert_le i op m) end.
  all: try match goal with H : ?m !! ?i = Some _ |- context [msize (delete ?i ?m)] => rewrite (msize_delete _ _ _ H) end.
  all: unfold size, set_size in *; unfold zlen in *; cbn -[Z.mul Z.add] in *; try lia.
Qed.
Lemma frame_room f e s fs s' : running_ s = false → frame_step f e s = Some (fs, s') →
  Z.of_nat (size (connections_ s')) + total admitting fs ≤ Z.of_nat (size (connections_ s)) + admitting f.
Proof.
  intros Hr Hs.
  assert (∀ id, Z.of_nat (size (connections_ s ∖ {[id]})) ≤ Z.of_nat (size (connections_ s))) as Hdel.
  { intros id. assert (connections_ s ∖ {[id]} ⊆ connections_ s) as Hsub%subseteq_size
      by (intros x; rewrite elem_of_difference; tauto). lia. }
  pose proof (λ id, registry_add id (connections_ s)) as Hadd.
  destruct f; expose Hs; rewrite ?Hr, ?orb_true_r in Hs; cbn in Hs.
  all: repeat (case_match; simplify_eq).
  all: try (injection Hs as <- <-).
  all: cbn -[size]; rewrite ?total_cons, ?total_nil; cbn -[size]; try lia.
  all: match goal with
       | |- context [({[?i]} ∪ _)] => specialize (Hadd i)
       | |- context [(_ ∖ {[?i]})] => specialize (Hdel i)
       end; lia.
Qed.


(** ** Runs of threads *)
(** A schedule of steps that threads can take. *)
Fixpoint effective (s : Iocp) (l : list (Z * Env)) : bool :=
  match l with [] => true | (t, e) :: l => moves s t e && effective (run_thread t e s) l end.
Definition turns (l : list (Z * Env)) : list Action := (λ x, Run x.1 x.2) <$> l.
(** The calls the callbacks make on the way. *)
Definition scripted (l : list (Z * Env)) : Z := total (λ x, zlen (e_script x.2)) l.

Lemma cost_nonneg k f : 0 ≤ k → 0 ≤ cost k f.
Proof.
  intros Hk. destruct f; simpl; try lia.
  - pose proof (zlen_nonneg ids). lia.
  - pose proof (zlen_nonneg ops). lia.
  - pose proof (zlen_nonneg ids). lia.
Qed.
Lemma work_nonneg k s : 0 ≤ k → 0 ≤ work k s.
Proof.
  intros Hk. unfold work. pose proof (msize_nonneg (inflight s)).
  assert (0 ≤ summed (cost k) s); [|lia]. apply map_total_nonneg. intros l. apply total_nonneg. intros f. by apply cost_nonneg.
Qed.
Lemma room_size s : Z.of_nat (size (connections_ s)) ≤ room s.
Proof.
  unfold room. assert (0 ≤ summed admitting s); [|lia]. apply map_total_nonneg. intros l. apply total_nonneg. intros []; done.
Qed.
Lemma turn_work k s t e : running_ s = false → room s ≤ k → moves s t e = true → let s' := run_thread t e s in
  work k s' + 1 ≤ work k s + 10 * zlen (e_script e) ∧ room s' ≤ k ∧ running_ s' = false.
Proof.
  intros Hr Hk Hm. unfold moves in Hm. unfold run_thread. pose proof (room_size s).
  destruct (threads s !! t) as [[|f rest]|] eqn:Ht; try done.
  destruct (frame_step f e s) as [[fs s1]|] eqn:Hs; [|done]. cbn zeta.
  pose proof (frame_tame _ _ _ _ _ Hs) as Htm.
  pose proof (frame_work k f e s fs s1 Hr ltac:(lia) Hs). pose proof (frame_room f e s fs s1 Hr Hs).
  pose proof (λ w, summed_run w s s1 t f rest fs Ht (tm_threads _ _ _ _ Htm)) as Hsum.
  unfold work, room in *. rewrite !Hsum. cbn [inflight connections_ with_threads running_]. split; [lia|]. split; [lia|].
  destruct (decide (f = Stopping)) as [->|Hne]; [|by rewrite (tm_running _ _ _ _ Htm Hne)].
  cbn in Hs. rewrite Hr in Hs. by injection Hs as _ <-.
Qed.
Lemma run_work k l s : running_ s = false → room s ≤ k → effective s l = true →
  work k (runs step s (turns l)) + zlen l ≤ work k s + 10 * scripted l ∧ running_ (runs step s (turns l)) = false.
Proof.
  revert s. induction l as [|[t e] l IH]; intros s Hr Hk He.
  - unfold scripted. rewrite total_nil, zlen_nil. simpl. split; [lia|done].
  - simpl in He. apply andb_true_iff in He as [Hm He].
    destruct (turn_work k s t e Hr Hk Hm) as (Hw & Hk' & Hr'). destruct (IH _ Hr' Hk' He) as [Hl Hrl].
    unfold scripted in *. rewrite total_cons, zlen_cons.
    change (runs step s (turns ((t, e) :: l))) with (runs step (run_thread t e s) (turns l)).
    split; [|done]. cbn [snd]. lia.
Qed.
