(* ===== verification/IocpProperties.v ===== *)
(** IocpProperties: what the completion-port backend promises the runtime that owns it, at
    any interleaving of its threads, the application's and Windows. *)
From S2P Require Import Prelude.
From S2P Require Import Text.
From S2P Require Import Kinds.
From S2P Require Import LineFramer.
From S2P Require Import RuntimeHub.
From S2P Require Import IocpServer.
From S2P Require Import IocpInvariant.
From S2P Require Import IocpSteps.
From S2P Require Import IocpLifecycle.
From S2P Require Import IocpWorkers.

Definition bounded (actions : list Action) : Prop := zlen actions + 1 < 2 ^ 64.

(** ** What the accounts say of a reachable state *)
Lemma wt_nonneg s k id : 0 ≤ wt s k id.
Proof. apply map_total_nonneg. intros l. apply total_nonneg, weight_nonneg. Qed.
(** Two operations of a kind would count twice. *)
Lemma one_operation s r id k1 k2 op1 op2 : ops s r id ≤ 1 → inflight s !! k1 = Some op1 → inflight s !! k2 = Some op2 →
  op_weight r id op1 = 1 → op_weight r id op2 = 1 → k1 = k2.
Proof.
  intros Hle H1 H2 W1 W2. destruct (decide (k1 = k2)) as [|Hne]; [done|]. unfold ops in Hle.
  rewrite <- (insert_delete_id _ _ _ H1), map_total_insert in Hle by apply lookup_delete_eq.
  pose proof (map_total_le (op_weight r id) (delete k1 (inflight s)) k2 op2 (op_weight_nonneg r id)) as Hk.
  rewrite lookup_delete_ne in Hk by done. specialize (Hk H2). lia.
Qed.
(** A thread that has returned owes nothing. *)
Lemma nothing_running s w : (∀ t, finished s t = true) → summed w s = 0.
Proof.
  intros Hf. assert (∀ t l, threads s !! t = Some l → l = []) as Hl.
  { intros t l Hl. specialize (Hf t). apply finished_stack in Hf. by rewrite Hl in Hf. }
  clear Hf. unfold summed. induction (threads s) as [|t l m Hm IH] using map_ind; [apply map_total_empty|].
  rewrite map_total_insert by done. rewrite (Hl t l) by apply lookup_insert_eq. rewrite IH; [done|].
  intros t' l' Hl'. apply (Hl t'). rewrite lookup_insert_ne; [done|]. congruence.
Qed.

(** C21: A connection's callbacks come in the protocol's order, whichever threads make
    them: nothing, or connected and then its lines, and the disconnection at most once and
    last; and when it has been told no callback of the connection is still running or can
    begin. *)
Theorem iocp_callback_protocol o actions id : bounded actions →
  let s := run o actions in
  (word s id = [] ∨ (∃ ms, word s id = begun id ms ∨ word s id = begun id ms ++ [OnDisconnected id])) ∧
  (∀ c, conns s !! id = Some c → OnDisconnected id ∈ word s id →
    id ∉ connections_ s ∧ closing_ c = true ∧ active_callbacks_ c = 0).
Proof.
  intros Hb s. destruct (run_kept o actions Hb) as [Hi _]. fold s in Hi. clearbody s.
  destruct (conns s !! id) as [c|] eqn:Hc.
  2: { destruct (ok_none _ s Hi id Hc) as (_ & _ & _ & _ & _ & Hw). split; [by left|done]. }
  destruct (known _ s Hi id c Hc) as [d [Htok Hact Hcl Hpe Hq _ _ _ Htold]].
  split; [inversion Htold; eauto|]. intros c' Hc' Hin. injection Hc' as <-.
  pose proof (wt_nonneg s KPub id). pose proof (wt_nonneg s KReq id). pose proof (wt_nonneg s KNot id).
  pose proof (b2z_bounds (bool_decide (id ∈ connections_ s))). pose proof (b2z_bounds (disconnect_notification_pending_ c)).
  inversion Htold as [Hk Hd Hw|ms Hk Hd Hw|ms Hk Hd Hw]; rewrite <- Hw in Hin.
  - by apply elem_of_nil in Hin.
  - unfold begun in Hin. apply elem_of_cons in Hin as [?|[m [? _]]%list_elem_of_fmap]; done.
  - subst d. split; [|split].
    + destruct (bool_decide (id ∈ connections_ s)) eqn:E; simpl in *; [lia|]. by apply bool_decide_eq_false in E.
    + destruct (closing_ c); [done|]. simpl in Hcl. lia.
    + apply Hq. lia.
Qed.

(** C22: At most one receive and one send of a connection are in flight, the send only
    while it is marked in progress, and the counter a stop waits on is the number of
    operations Windows has plus those a thread has taken from it. *)
Theorem iocp_one_operation o actions id : bounded actions →
  let s := run o actions in
  (∀ k1 k2, inflight s !! k1 = Some (mkOp id Receive) → inflight s !! k2 = Some (mkOp id Receive) → k1 = k2) ∧
  (∀ k1 k2 b1 o1 b2 o2, inflight s !! k1 = Some (mkOp id (SendOp b1 o1)) →
    inflight s !! k2 = Some (mkOp id (SendOp b2 o2)) → k1 = k2) ∧
  (∀ k b o1, inflight s !! k = Some (mkOp id (SendOp b o1)) → send_in_progress_ <$> conns s !! id = Some true) ∧
  pending_operations_ s = msize (inflight s) + summed holds s.
Proof.
  intros Hb s. destruct (run_kept o actions Hb) as [Hi _]. fold s in Hi. clearbody s.
  assert (ops s true id ≤ 1 ∧ ops s false id ≤ 1 ∧
    (1 ≤ ops s false id → send_in_progress_ <$> conns s !! id = Some true)) as (Hr & Hs & Hp).
  { destruct (conns s !! id) as [c|] eqn:Hc.
    - destruct (known _ s Hi id c Hc) as [d [_ _ _ _ _ Hrec Hsend _ _]]. simpl.
      pose proof (wt_nonneg s KPub id). pose proof (wt_nonneg s KCon id). pose proof (wt_nonneg s KFeed id).
      pose proof (wt_nonneg s KRecv id). pose proof (wt_nonneg s KSend id).
      destruct (send_in_progress_ c); simpl in *; split_and!; try lia; try done.
    - destruct (ok_none _ s Hi id Hc) as (_ & _ & _ & H1 & H2 & _). lia. }
  split_and!; [| | |apply (iv_pending _ _ Hi)].
  - intros k1 k2 H1 H2. apply (one_operation s true id _ _ _ _ Hr H1 H2); apply op_receive.
  - intros k1 k2 b1 o1 b2 o2 H1 H2. apply (one_operation s false id _ _ _ _ Hs H1 H2); apply op_send.
  - intros k b o1 Hk. apply Hp. destruct (op_send id b o1) as [_ <-].
    apply (map_total_le (op_weight false id) _ k); [apply op_weight_nonneg|done].
Qed.

(** C23: When [stop] has returned nothing is left: no connection in the registry, no
    operation at Windows or in a thread's hands, none of the server's threads running; and
    once the application's own calls have returned too, every connection that was ever
    announced has been told its disconnection. *)
Theorem iocp_stop_drains o actions : bounded actions →
  let s := run o actions in running_ s = false → finished s owner_thread = true →
  (connections_ s = ∅ ∧ inflight s = ∅ ∧ pending_operations_ s = 0 ∧ (∀ t, owner_thread ≤ t → finished s t = true)) ∧
  ((∀ t, t < owner_thread → finished s t = true) →
    ∀ id, is_Some (conns s !! id) → ∃ ms, word s id = begun id ms ++ [OnDisconnected id]).
Proof.
  intros Hb s Hr Hf. destruct (run_kept o actions Hb) as [Hi Hg]. fold s in Hi, Hg. clearbody s.
  destruct (owner_rest s Hg Hf Hr) as ((_ & _ & Hc) & Hp & _).
  split.
  - split; [done|]. split; [|split; [done|intros t Ht; by apply all_finished]].
    pose proof (iv_pending _ _ Hi) as Hpe. pose proof (msize_nonneg (inflight s)).
    assert (0 ≤ summed holds s) by (apply map_total_nonneg; intros l; apply total_nonneg, holds_nonneg).
    apply map_size_empty_inv. unfold msize in *. lia.
  - intros Happ id [c Hcc]. destruct (known _ s Hi id c Hcc) as [d [Htok Hact _ Hpd _ _ _ _ Htold]].
    assert (∀ k, wt s k id = 0) as Hz.
    { intros k. apply nothing_running. intros t. destruct (decide (owner_thread ≤ t)); [by apply all_finished|apply Happ; lia]. }
    rewrite !Hz in *. rewrite Hc, bool_decide_eq_false_2 in Htok by set_solver.
    destruct (disconnect_notification_pending_ c); [specialize (Hpd eq_refl); lia|]. simpl in Htok.
    inversion Htold; [lia..|]. eauto.
Qed.

(** C24: A stop comes to an end. Once the server has left its running state the threads can
    only take so many steps: the work at hand, and ten more for each call a callback makes
    back into the server; and where no thread can take a step [stop] has returned. Whatever
    the schedule, then, it cannot run for ever and cannot deadlock. *)
Theorem iocp_stop_terminates o actions l : bounded (actions ++ turns l) →
  let s := run o actions in running_ s = false → effective s l = true →
  zlen l ≤ work (room s) s + 10 * scripted l ∧
  let s' := run o (actions ++ turns l) in
  running_ s' = false ∧ ((∀ t e, moves s' t e = false) → finished s' owner_thread = true).
Proof.
  intros Hb s Hr He. pose proof (room_size s). destruct (run_work (room s) l s Hr) as [Hw Hr']; [lia|done|].
  split; [pose proof (work_nonneg (room s) (runs step s (turns l)) ltac:(lia)); lia|].
  destruct (run_kept o _ Hb) as [Hi Hg]. pose proof (run_manned o _ Hb) as Hm. intros s'.
  assert (s' = runs step s (turns l)) as Heq by (unfold s', s, run; by rewrite runs_app). rewrite <- Heq in Hr'.
  split; [done|]. intros Hstuck. destruct (finished s' owner_thread) eqn:Hf; [done|].
  destruct (owner_progress _ s' Hi Hg Hm Hr' Hf) as (t & e & Hmv). by rewrite Hstuck in Hmv.
Qed.

(** * A client that sends a line in two reads and is answered; then the owner stops. *)
Module Echo.
Definition options : TcpServerOptions := mkTcpOptions (mkEndpoint (txt "127.0.0.1") 8080) 1 2 64 0 0 true.
Definition env (script : list AppOp) (pick : option Z) (data : bytes) : Env :=
  mkEnv Client true true (txt "os") 1 script pick (zlen data) data.
Definition quiet : Env := env [] None [].
Definition go (t : Z) (k : nat) (e : Env) : list Action := repeat (Run t e) k.
Definition worker : Z := worker_thread 0.
Definition opening : list Action := Start options true 8 :: go accept_thread 9 quiet.
(** A completed read; the answer to the line is sent from the callback. *)
Definition reading (k : Z) (data : bytes) : list Action := go worker 16 (env [AppSend 1 (txt "ok")] (Some k) data).
Definition talking : list Action := opening ++ reading 0 (txt "h") ++ go worker 1 quiet ++ reading 1 (txt "i" ++ [x0a]).
Definition stopping : list Action := Stop :: go owner_thread 9 quiet ++ go accept_thread 3 quiet ++ go idle_thread 3 quiet
  ++ go owner_thread 12 quiet.
Definition drained : list Action := go worker 5 (env [] (Some 2) (txt "ok")) ++ go worker 5 (env [] (Some 3) (txt "ok"))
  ++ go owner_thread 3 quiet ++ go worker 3 quiet ++ go owner_thread 3 quiet.
(** The first thread that can step, as often as one can. *)
Definition choices : list (Z * Env) :=
  t ← [owner_thread; accept_thread; idle_thread; worker];
  pick ← [None; Some 2; Some 3]; [(t, env [] pick (txt "ok"))].
Fixpoint schedule (fuel : nat) (s : Iocp) : list (Z * Env) :=
  match fuel with
  | O => []
  | S fuel => match filter (λ x, moves s x.1 x.2 = true) choices with
    | [] => []
    | x :: _ => x :: schedule fuel (run_thread x.1 x.2 s)
    end
  end.
Definition asked : list Action := talking ++ Stop :: go owner_thread 1 quiet.
Definition ending : list (Z * Env) := schedule 99 (run options asked).
End Echo.

Lemma iocp_callback_protocol_witness :
  let s := run Echo.options (Echo.talking ++ Echo.stopping) in
  word s 1 = begun 1 [txt "hi"] ++ [OnDisconnected 1] ∧
  (∃ c, conns s !! 1 = Some c ∧ 1 ∉ connections_ s ∧ closing_ c = true ∧ active_callbacks_ c = 0).
Proof.
  set (l := Echo.talking ++ Echo.stopping). assert (bounded l) as Hb by (vm_compute; reflexivity).
  assert (word (run Echo.options l) 1 = begun 1 [txt "hi"] ++ [OnDisconnected 1]) as Hw by (vm_compute; reflexivity).
  assert ((λ _, tt) <$> conns (run Echo.options l) !! 1 = Some tt) as Hc by (vm_compute; reflexivity).
  apply fmap_Some in Hc as (c & Hc & _). intros s. split; [exact Hw|]. exists c. split; [exact Hc|].
  destruct (iocp_callback_protocol Echo.options l 1 Hb) as [_ H]. apply H; [exact Hc|]. rewrite Hw.
  apply elem_of_app. right. apply list_elem_of_here.
Defined.

Lemma iocp_one_operation_witness :
  let s := run Echo.options Echo.talking in
  inflight s !! 3 = Some (mkOp 1 Receive) ∧ send_in_progress_ <$> conns s !! 1 = Some true ∧
  pending_operations_ s = 2 ∧ pending_operations_ s = msize (inflight s) + summed holds s.
Proof.
  assert (bounded Echo.talking) as Hb by (vm_compute; reflexivity).
  assert (inflight (run Echo.options Echo.talking) !! 2 = Some (mkOp 1 (SendOp (txt "ok") 0))) as Hk by (vm_compute; reflexivity).
  destruct (iocp_one_operation Echo.options Echo.talking 1 Hb) as (_ & _ & H1 & H2).
  split; [vm_compute; reflexivity|]. split; [apply (H1 2 _ 0 Hk)|]. split; [vm_compute; reflexivity|exact H2].
Defined.

Lemma iocp_stop_drains_witness :
  let s := run Echo.options (Echo.talking ++ Echo.stopping ++ Echo.drained) in
  connections_ s = ∅ ∧ inflight s = ∅ ∧ finished s (worker_thread 0) = true ∧ word s 1 = begun 1 [txt "hi"] ++ [OnDisconnected 1].
Proof.
  set (l := Echo.talking ++ Echo.stopping ++ Echo.drained). assert (bounded l) as Hb by (vm_compute; reflexivity).
  assert (running_ (run Echo.options l) = false) as Hr by (vm_compute; reflexivity).
  assert (finished (run Echo.options l) owner_thread = true) as Hf by (vm_compute; reflexivity).
  destruct (iocp_stop_drains Echo.options l Hb Hr Hf) as [(Hc & Hi & _ & Ht) _].
  split; [exact Hc|]. split; [exact Hi|]. split; [apply Ht; vm_compute; discriminate|vm_compute; reflexivity].
Defined.

Lemma iocp_stop_terminates_witness :
  let s := run Echo.options (Echo.asked ++ turns Echo.ending) in
  running_ s = false ∧ finished s owner_thread = true ∧ zlen Echo.ending = 23 ∧
  zlen Echo.ending ≤ work (room (run Echo.options Echo.asked)) (run Echo.options Echo.asked).
Proof.
  assert (bounded (Echo.asked ++ turns Echo.ending)) as Hb by (vm_compute; reflexivity).
  assert (running_ (run Echo.options Echo.asked) = false) as Hr by (vm_compute; reflexivity).
  assert (effective (run Echo.options Echo.asked) Echo.ending = true) as He by (vm_compute; reflexivity).
  destruct (iocp_stop_terminates Echo.options Echo.asked Echo.ending Hb Hr He) as (Hl & Hr' & Hf).
  assert (scripted Echo.ending = 0) as Hz by (vm_compute; reflexivity). rewrite Hz in Hl.
  split; [exact Hr'|]. split; [|split; [vm_compute; reflexivity|rewrite Z.mul_0_r, Z.add_0_r in Hl; exact Hl]].
  apply Hf. intros t e.
  assert (forallb (λ x, bool_decide (x.2 = [])) (map_to_list (threads (run Echo.options (Echo.asked ++ turns Echo.ending)))) = true)
    as Hall by (vm_compute; reflexivity).
  unfold moves. destruct (threads _ !! t) as [l|] eqn:Ht; [|reflexivity].
  apply elem_of_map_to_list, list_elem_of_In in Ht. rewrite forallb_forall in Hall.
  apply Hall, bool_decide_eq_true_1 in Ht. cbn [snd] in Ht. rewrite Ht. reflexivity.
Defined.
