(* ===== verification/EchoServer.v ===== *)
(** EchoServer: the sample application of the text-line runtime
    ([src/examples/EchoServer/]): its settings, read from a configuration, and its handler,
    which asks for a token before it answers. The handler is a script of the operations
    the runtime offers; what it writes to the log is left out. *)
From S2P Require Import Prelude.
From S2P Require Import Text.
From S2P Require Import Kinds.
From S2P Require Import Config.
From S2P Require Logger.
From S2P Require Import LineFramer.
From S2P Require Import RuntimeHub.
From S2P Require Import ThreadedClient.
From S2P Require Import RuntimeServer.

(** ** Settings *)
(** [src/examples/EchoServer/AppConfig.h:12-15] *)
Record AccessOptions := mkAccess { require_auth : bool; token : bytes }.
(** [src/include/ServerEngine/Runtime/ServerOptions.h:33-38] *)
Record StorageOptions := mkStorage {
  storage_enabled : bool; provider : bytes; connection_string : bytes; pool_size : Z;
}.
(** [src/include/ServerEngine/Runtime/ServerOptions.h:40-45] *)
Record DistributionOptions := mkDistribution {
  distribution_enabled : bool; node_id : bytes; advertised_endpoint : bytes; seed_nodes : list bytes;
}.
(** [src/examples/EchoServer/AppConfig.h:19-27] *)
Record AppConfig := mkAppConfig {
  logging : Logger.LoggerOptions; server : ServerOptions; access : AccessOptions; storage : StorageOptions;
  distribution : DistributionOptions; check_ecc_provider : bool; warnings : list bytes;
}.

(** [src/examples/EchoServer/AppConfig.cpp:10-14] *)
Definition read_port (c : Config) : Z :=
  let value := get_int_or c (txt "server.port") 8080 in
  if (0 <? value) && (value <=? 65535) then value else 8080.
(** [src/examples/EchoServer/AppConfig.cpp:16-19] The line appended. *)
Definition warn_invalid (key value fallback : bytes) : bytes :=
  txt "Invalid " ++ key ++ txt " '" ++ value ++ txt "', using " ++ fallback.
(** A named setting: the value used, and the warning when the text names none. *)
Definition named {A} (parse : bytes → option A) (to_string : A → bytes) (key value : bytes) (fallback : A) : A * list bytes :=
  match parse value with
  | Some a => (a, [])
  | None => (fallback, [warn_invalid key value (to_string fallback)])
  end.
Definition at_least_one (c : Config) (key : bytes) (fallback : Z) : Z := Z.max 1 (get_int_or c key fallback).
(** [src/examples/EchoServer/AppConfig.cpp:23-83] [windows] is the build's platform. *)
Definition parse_app_config (windows : bool) (c : Config) : AppConfig :=
  let '(level, w1) := named LogLevel.parse_log_level LogLevel.to_string (txt "log.level")
    (get_string_or c (txt "log.level") (txt "debug")) LogLevel.Info in
  let '(transport, w2) := named TransportKind.parse_transport_kind TransportKind.to_string (txt "server.transport")
    (get_string_or c (txt "server.transport") (txt "tcp")) TransportKind.Tcp in
  let default := TcpBackend.default_tcp_backend windows in
  let '(backend, w3) := named TcpBackend.parse_tcp_backend TcpBackend.to_string (txt "server.tcp_backend")
    (get_string_or c (txt "server.tcp_backend") (TcpBackend.to_string default)) default in
  let '(mode, w4) := named SecurityMode.parse_security_mode SecurityMode.to_string (txt "security.mode")
    (get_string_or c (txt "security.mode") (txt "token")) SecurityMode.Token in
  mkAppConfig
    (Logger.mkLoggerOptions level (get_bool_or c (txt "log.console") true)
      (get_string_or c (txt "log.file") (txt "logs/serverengine.log")) (get_bool_or c (txt "log.append") true))
    (mkServerOptions (at_least_one c (txt "server.workers") 4) (at_least_one c (txt "server.max_sessions") 10000)
      (at_least_one c (txt "server.max_message_bytes") 65536) (at_least_one c (txt "server.idle_timeout_ms") 300000)
      (at_least_one c (txt "server.receive_timeout_ms") 1000) (get_bool_or c (txt "server.tcp_no_delay") true)
      backend mode
      [mkListenerOptions (txt "main") transport
         (mkEndpoint (get_string_or c (txt "server.host") (txt "0.0.0.0")) (read_port c)) true])
    (mkAccess (get_bool_or c (txt "access.require_auth") true) (get_string_or c (txt "access.token") (txt "secret")))
    (mkStorage (get_bool_or c (txt "storage.enabled") false) (get_string_or c (txt "storage.provider") [])
      (get_string_or c (txt "storage.connection_string") []) (at_least_one c (txt "storage.pool_size") 16))
    (mkDistribution (get_bool_or c (txt "distribution.enabled") false)
      (get_string_or c (txt "distribution.node_id") (txt "node-1"))
      (get_string_or c (txt "distribution.advertised_endpoint") []) [])
    (get_bool_or c (txt "security.ecc_p256_provider_check") true)
    (w1 ++ w2 ++ w3 ++ w4).
(** [src/examples/EchoServer/Application.cpp:39-77] {run} From the file to the server that is
    started; [None] where the program exits. [content]: what the file holds, if it can be
    read; [logger_ready]: what [Logger::initialize] answers. *)
Definition boot (windows : bool) (content : option bytes) (logger_ready : bool) : option (AppConfig * Server) :=
  let '(source, _) := load_file (txt "config/serverengine.ini") content (mkConfig ∅) in
  let config := parse_app_config windows source in
  if negb logger_ready then None
  else if decide (security_mode (server config) = SecurityMode.EccP256) then None
  else match start_server (new_server (server config)) with
  | (Ok _, s) => Some (config, s)
  | (Err _, _) => None
  end.

(** ** The handler *)
Fixpoint drop_while (p : byte → bool) (l : bytes) : bytes :=
  match l with b :: l' => if p b then drop_while p l' else l | [] => [] end.
Fixpoint take_while (p : byte → bool) (l : bytes) : bytes :=
  match l with b :: l' => if p b then b :: take_while p l' else [] | [] => [] end.
Definition blank (b : byte) : bool := match b with x20 | x09 => true | _ => false end.
Definition edge (b : byte) : bool := match b with x0d | x0a | x20 | x09 => true | _ => false end.
(** [src/examples/EchoServer/EchoHandler.cpp:11-24] *)
Definition normalize_request (text : bytes) : bytes :=
  let text := if bool_decide (take 3 text = [xef; xbb; xbf]) then drop 3 text else text in
  drop_while blank (reverse (drop_while edge (reverse text))).
(** [input >> word] on a stream that holds [l]. *)
Definition next_word (l : bytes) : bytes * bytes :=
  let l := drop_spaces l in
  let w := take_while (λ b, negb (isspace b)) l in (w, drop (length w) l).
(** [src/examples/EchoServer/EchoHandler.cpp:77-84] {handle_auth_command} The user and the
    token of an AUTH command. *)
Definition auth_words (request : bytes) : option (bytes * bytes) :=
  let '(command, l) := next_word request in
  let '(user, l) := next_word l in
  let '(word, _) := next_word l in
  if bool_decide (command = txt "AUTH") then Some (user, word) else None.
Definition reply (text : bytes) : Script := Send text (λ _, Return).
Definition line (text : bytes) : bytes := text ++ [x0a].
(** [src/examples/EchoServer/EchoHandler.cpp:85-102] {handle_auth_command} *)
Definition handle_auth_command (access : AccessOptions) (request : bytes) : option Script :=
  match auth_words request with
  | None => None
  | Some (user, word) =>
      Some (if bool_decide (user = []) || bool_decide (word = [])
            then reply (line (txt "AUTH ERROR usage: AUTH <user> <token>"))
            else if negb (Credential.constant_time_equals word (token access)) then reply (line (txt "AUTH DENIED"))
            else Authenticate user (λ ok, reply (line (if ok : bool then txt "AUTH OK" else txt "AUTH ERROR"))))
  end.
(** [src/examples/EchoServer/EchoHandler.cpp:114-124] {send_who} One line of the list. *)
Definition who_line (item : SessionSnapshot) : bytes :=
  line (txt "id=" ++ dec (ss_id item) ++ txt " transport=" ++ TransportKind.to_string (ss_transport item)
    ++ txt " remote=" ++ endpoint_to_string (ss_remote_endpoint item)
    ++ txt " auth=" ++ (if ss_authenticated item then txt "yes" else txt "no")
    ++ txt " user=" ++ (if bool_decide (ss_user_name item = []) then txt "-" else ss_user_name item)
    ++ txt " rx_messages=" ++ dec (ss_messages_received item) ++ txt " tx_messages=" ++ dec (ss_messages_sent item)
    ++ txt " rx_bytes=" ++ dec (ss_bytes_received item) ++ txt " tx_bytes=" ++ dec (ss_bytes_sent item)).
(** [src/examples/EchoServer/EchoHandler.cpp:105-126] [hub]: whether [set_hub] was called. *)
Definition send_who (hub : bool) : Script :=
  if negb hub then reply (line (txt "ERROR hub unavailable"))
  else Survey (λ sessions, reply (line (txt "WHO count=" ++ dec (zlen sessions)) ++ concat (who_line <$> sessions))).
(** [src/examples/EchoServer/EchoHandler.cpp:61-72] {on_message} *)
Definition answer (hub : bool) (request : bytes) : Script :=
  if bool_decide (request = txt "WHO") then send_who hub else reply (line (txt "echo: " ++ request)).
(** [src/examples/EchoServer/EchoHandler.cpp:48-73] *)
Definition on_message (access : AccessOptions) (hub : bool) (message : bytes) : Script :=
  let request := normalize_request message in
  match handle_auth_command access request with
  | Some script => script
  | None =>
      if require_auth access
      then Look (λ authenticated _, if authenticated then answer hub request else reply (line (txt "ERROR auth required")))
      else answer hub request
  end.
(** [src/examples/EchoServer/EchoHandler.cpp:38-46] *)
Definition on_session_started (access : AccessOptions) : Script :=
  if require_auth access then reply (line (txt "AUTH REQUIRED")) else Return.
(** [src/examples/EchoServer/EchoHandler.cpp:128-131] *)
Definition on_session_stopped : Script := Return.

(** ** The runtime with this handler *)
(** The script of a call is the handler's; the rest of the step's inputs stays. *)
Definition with_script (sc : Script) (e : Env) : Env :=
  mkEnv (e_ok e) (e_now e) (e_recv e) sc (e_sent e) (e_text e) (e_os e).
Definition handled (access : AccessOptions) (hub : bool) (s : Server) (a : Action) : Action :=
  match a with
  | Turn key e =>
      match pc <$> conns s !! key with
      | Some (Announcing _) => Turn key (with_script (on_session_started access) e)
      | Some (Dispatching _ m) => Turn key (with_script (on_message access hub m) e)
      | Some (Reporting _) => Turn key (with_script on_session_stopped e)
      | _ => a
      end
  | _ => a
  end.
Definition app_step (access : AccessOptions) (hub : bool) (s : Server) (a : Action) : Server :=
  step s (handled access hub s a).
Definition app_run (access : AccessOptions) (hub : bool) (o : ServerOptions) (actions : list Action) : Server :=
  runs (app_step access hub) (new_server o) actions.
