(* ===== verification/EchoProperties.v ===== *)
(** EchoProperties: the sample application answers only those who gave its token, at any
    interleaving of the runtime's threads. *)
From S2P Require Import Prelude.
From S2P Require Import Text.
From S2P Require Import Kinds.
From S2P Require Import Config.
From S2P Require Import LineFramer.
From S2P Require Import RuntimeHub.
From S2P Require Import ThreadedClient.
From S2P Require Import RuntimeServer.
From S2P Require Import RuntimeInvariant.
From S2P Require Import RuntimeSteps.
From S2P Require Import EchoServer.

(** ** What a step does to the authenticated sessions *)
Record faithful (h h' : Hub) : Prop := {
  ff_auth sid snap' : h' !! sid = Some snap' → ss_authenticated snap' = true →
    ∃ snap, h !! sid = Some snap ∧ ss_authenticated snap = true ∧ ss_user_name snap' = ss_user_name snap;
  ff_keep sid : is_Some (h' !! sid) → is_authenticated sid h = true → is_authenticated sid h' = true;
}.
Lemma faithful_refl h : faithful h h.
Proof. split; eauto. Qed.
Lemma faithful_trans h1 h2 h3 : (∀ sid, is_Some (h3 !! sid) → is_Some (h2 !! sid)) → faithful h1 h2 → faithful h2 h3 → faithful h1 h3.
Proof.
  intros Hd [A1 K1] [A2 K2]. split.
  - intros sid snap3 H3 Ha3. destruct (A2 _ _ H3 Ha3) as (snap2 & H2 & Ha2 & ->).
    destruct (A1 _ _ H2 Ha2) as (snap1 & H1 & Ha1 & ->). eauto.
  - intros sid Hs Ha. apply K2; [done|]. apply K1; [by apply Hd|done].
Qed.
(** An entry rewritten with the same name and standing. *)
Lemma faithful_rewrite h sid snap snap' : h !! sid = Some snap → ss_authenticated snap' = ss_authenticated snap →
  ss_user_name snap' = ss_user_name snap → faithful h (<[sid := snap']> h).
Proof.
  intros Hs Ha Hn. split.
  - intros sid' s' [[<- <-]|[_ ?]]%lookup_insert_Some Ht; [exists snap|exists s']; naive_solver congruence.
  - intros sid' _. unfold is_authenticated. destruct (decide (sid = sid')) as [<-|].
    + rewrite lookup_insert_eq, Hs. congruence.
    + by rewrite lookup_insert_ne.
Qed.
Lemma faithful_received sid n now h : faithful h (record_received sid n now h).
Proof. unfold record_received. destruct (h !! sid) as [s|] eqn:E; [by eapply faithful_rewrite|apply faithful_refl]. Qed.
Lemma faithful_sent sid n now h : faithful h (record_sent sid n now h).
Proof. unfold record_sent. destruct (h !! sid) as [s|] eqn:E; [by eapply faithful_rewrite|apply faithful_refl]. Qed.
Lemma faithful_sub h h' : h' ⊆ h → faithful h h'.
Proof.
  intros Hsub. split.
  - intros sid snap' Hs Ha. exists snap'. split; [by eapply lookup_weaken|done].
  - intros sid [snap Hs]. unfold is_authenticated. by rewrite (lookup_weaken _ _ _ _ Hs Hsub), Hs.
Qed.
Lemma faithful_remove sid h : faithful h (remove sid h).
Proof. apply faithful_sub, delete_subseteq. Qed.
Lemma faithful_removes l h : faithful h (foldr remove h l).
Proof.
  apply faithful_sub. induction l as [|sid l IH]; [done|]. simpl. etrans; [apply delete_subseteq|done].
Qed.
Lemma faithful_add sid t r now h : h !! sid = None → faithful h (add_session sid t r now h).
Proof.
  intros Hn. unfold add_session. split.
  - intros sid' s' [[<- <-]|[_ ?]]%lookup_insert_Some Ha; [done|by exists s'].
  - intros sid' _. unfold is_authenticated. destruct (decide (sid = sid')) as [<-|].
    + by rewrite Hn.
    + by rewrite lookup_insert_ne.
Qed.

(** ** What a step does to the scripts *)
(** The next piece of a script, given what the hub says. *)
Definition continues (s : Server) (sid : Z) (sc sc' : Script) : Prop :=
  match sc with
  | Return | Throw _ => False
  | Send _ k | Authenticate _ k => ∃ b, sc' = k b
  | Look k => sc' = k (is_authenticated sid (hub_ s)) (user_name sid (hub_ s))
  | Survey k => ∃ l, sc' = k l
  end.
Definition begins (s' : Server) (k : Conn) (r : Reason) (sid : Z) : Prop :=
  match r with
  | Starting => pc k = Announcing sid
  | Message => ∃ m, pc k = Dispatching sid m ∧ OnMessage sid m ∈ calls s'
  | Stopping => pc k = Reporting sid
  end.
(** Whoever handles a call was handling it, or has just begun, or went on with its script. *)
Definition handles (s s' : Server) (a : Action) : Prop := ∀ key k' r sid sc,
  conns s' !! key = Some k' → pc k' = Handling r sid sc →
  (∃ k, conns s !! key = Some k ∧ pc k = Handling r sid sc) ∨
  (∃ e k, a = Turn key e ∧ conns s !! key = Some k ∧
    ((begins s' k r sid ∧ sc = e_script e) ∨ ∃ sc0, pc k = Handling r sid sc0 ∧ continues s sid sc0 sc)).
Lemma handles_same s s' a : (∀ key k', conns s' !! key = Some k' → (∀ r sid sc, pc k' ≠ Handling r sid sc) ∨
  ∃ k, conns s !! key = Some k ∧ pc k = pc k') → handles s s' a.
Proof. intros H key k' r sid sc Hk Hp. left. destruct (H _ _ Hk) as [Hn|(k & Hk' & E)]; [by destruct (Hn r sid sc)|exists k; by rewrite E]. Qed.

(** ** What every step does *)
Definition authenticates (s s' : Server) (a : Action) : Prop := ∃ key e k r sid name next,
  a = Turn key e ∧ conns s !! key = Some k ∧ pc k = Handling r sid (Authenticate name next) ∧
  hub_ s' = (authenticate sid name (e_now e) (hub_ s)).2.
Record effect (s s' : Server) (a : Action) : Prop := {
  ef_handles : handles s s' a;
  ef_calls : calls s ⊆ calls s';
  ef_hub : faithful (hub_ s) (hub_ s') ∨ authenticates s s' a;
}.
Definition idle (p : Pc) : Prop := match p with Handling _ _ _ => False | _ => True end.
Section Effects.
Context (s : Server) (key : Key) (e : Env).

Lemma effect_idle s' k' : conns s' = <[key := k']> (conns s) → idle (pc k') → calls s ⊆ calls s' →
  faithful (hub_ s) (hub_ s') → effect s s' (Turn key e).
Proof.
  intros Hc Hi Hcalls Hh. split; [|done|by left]. apply handles_same. intros key' k1 H1. rewrite Hc in H1.
  apply lookup_insert_Some in H1 as [[<- <-]|[_ H1]]; [left; intros r sid sc E; by rewrite E in Hi|right; eauto].
Qed.
Lemma effect_put p k' s0 : conns s0 = conns s → calls s ⊆ calls s0 → faithful (hub_ s) (hub_ s0) → pc k' = p → idle p →
  effect s (put key k' s0) (Turn key e).
Proof. intros Hc Hcalls Hh Hp Hi. apply (effect_idle _ k'); [simpl; by rewrite Hc|by rewrite Hp|done|done]. Qed.
Lemma effect_handling k s' k' r sid sc : conns s !! key = Some k → conns s' = <[key := k']> (conns s) → pc k' = Handling r sid sc →
  ((begins s' k r sid ∧ sc = e_script e) ∨ ∃ sc0, pc k = Handling r sid sc0 ∧ continues s sid sc0 sc) →
  calls s ⊆ calls s' → faithful (hub_ s) (hub_ s') ∨ authenticates s s' (Turn key e) → effect s s' (Turn key e).
Proof.
  intros Hk Hc Hp Hsc Hcalls Hh. split; [|done|done]. intros key' k1 r' sid' sc' H1 Hp1. rewrite Hc in H1.
  apply lookup_insert_Some in H1 as [[<- <-]|[_ H1]]; [|left; eauto]. right. exists e, k. split; [done|]. split; [done|].
  rewrite Hp in Hp1. by injection Hp1 as <- <- <-.
Qed.
Lemma effect_disconnect k' : idle (pc k') → effect s (disconnect key (put key k' s)) (Turn key e).
Proof.
  intros Hi. destruct (conns_disconnect key k' s) as (k2 & Hc & Hk2). apply (effect_idle _ k2); [done| | |].
  - by destruct Hk2 as [-> | ->].
  - unfold disconnect. by case_decide.
  - unfold disconnect. case_decide; apply faithful_refl.
Qed.
Lemma effect_drop k a : effect s (drop_client key k a s) (Turn key e).
Proof. apply (effect_idle _ (set_pc Finished (set_closed k))); try done. apply faithful_refl. Qed.
End Effects.
Lemma calls_more s c s0 : calls s ⊆ calls s0 → calls s ⊆ calls (with_call c s0).
Proof. intros H x Hx. simpl. apply elem_of_app. left. by apply H. Qed.
Ltac same_effect := first [done|apply faithful_refl|by apply calls_more|simpl; auto; done].
#[local] Hint Resolve faithful_refl faithful_received faithful_sent faithful_remove calls_more : core.

Lemma handler_effect s key k e r sid sc : conns s !! key = Some k → pc k = Handling r sid sc →
  effect s (handler_turn key k r sid sc e s) (Turn key e).
Proof.
  intros Hk Hp. assert (idle (after r sid)) as Ha by by destruct r.
  assert (∀ sc' h, continues s sid sc sc' →
    faithful (hub_ s) h ∨ authenticates s (with_hub h (next_session_id_ s) s) (Turn key e) →
    effect s (put key (set_pc (Handling r sid sc') k) (with_hub h (next_session_id_ s) s)) (Turn key e)) as Hnext.
  { intros sc' h Hc Hh. eapply (effect_handling s key e k _ (set_pc (Handling r sid sc') k) r sid sc'); try done; eauto. }
  destruct sc as [|what|data next|name next|next|next]; simpl.
  - by eapply effect_put.
  - by apply (effect_idle s key e _ (set_pc (after r sid) k)); auto.
  - apply Hnext; [by eexists|left]. destruct (send _ _ _ _); auto.
  - destruct (authenticate sid name (e_now e) (hub_ s)) as [ok h] eqn:E. apply Hnext; [by eexists|].
    right. exists key, e, k, r, sid, name, next. split_and!; try done. simpl. by rewrite E.
  - replace s with (with_hub (hub_ s) (next_session_id_ s) s) at 3 by by destruct s. apply Hnext; [done|auto].
  - replace s with (with_hub (hub_ s) (next_session_id_ s) s) at 2 by by destruct s. apply Hnext; [by eexists|auto].
Qed.

Lemma turn_effect n s key k e : inv n s → conns s !! key = Some k → effect s (turn key e s) (Turn key e).
Proof.
  intros Hi Hk. assert (effect s s (Turn key e)) as Hstay.
  { split; [|done|by left]. apply handles_same. eauto. }
  unfold turn. rewrite Hk. destruct (ports s !! key.1) as [p|]; [|done].
  pose proof (λ p, effect_put s key e p (set_pc p k) s eq_refl (λ _ H, H) (faithful_refl _) eq_refl) as Hput.
  destruct (pc k) as [| | | | | |sid|sid| | | | | |line|sid line|r sid sc| | |sid|sid| |] eqn:Hp.
  - destruct (on_ p); [by apply Hput|apply effect_drop].
  - destruct (running_ s); [by apply Hput|apply effect_drop].
  - destruct (configure_client_socket _ _); [by apply Hput|].
    apply (effect_idle s key e _ (set_pc Finished (set_closed k))); same_effect.
  - unfold register_client. destruct (negb _); [apply effect_drop|]. destruct (_ <=? _).
    + apply (effect_idle s key e _ (set_pc Finished (set_closed k))); same_effect.
    + by eapply effect_put.
  - apply Hput. by destruct (running_ s).
  - unfold admit_session, try_add. destruct (_ <=? _); [by eapply effect_put|].
    eapply effect_put; try done. apply faithful_add. apply eq_None_not_Some.
    intros (key' & k' & H1 & H2)%(iv_hub _ _ Hi). destruct (iv_issued _ _ Hi _ _ _ H1 H2). lia.
  - by eapply effect_put.
  - unfold dispatch_session_started. destruct (running_ s); [|by eapply effect_put].
    eapply (effect_handling s key e k _ _ Starting sid); [done|reflexivity|reflexivity|left; by split|same_effect|left; same_effect].
  - by apply effect_disconnect.
  - unfold launch_client. destruct (e_ok e); [|by apply Hput].
    apply (effect_idle s key e _ (set_pc Receiving (set_launched (e_now e) k))); same_effect.
  - apply Hput. by destruct (closed_ k).
  - unfold receive_turn. destruct (e_recv e) as [d| | |].
    + case_bool_decide; [by apply Hput|]. destruct (append _ _) as [[] f]; [by eapply effect_put|].
      eapply (effect_idle s key e); [reflexivity|exact I|same_effect..].
    + by apply Hput.
    + destruct (closed_ k); [by apply Hput|]. case_match; by apply Hput.
    + destruct (closed_ k); [by apply Hput|]. eapply (effect_idle s key e); [reflexivity|exact I|same_effect..].
  - unfold pop_turn. destruct (closed_ k); [by apply Hput|]. destruct (try_pop _) as [[line|] f]; [by eapply effect_put|by apply Hput].
  - apply Hput. by destruct (sessions_ s !! key).
  - unfold dispatch_message. destruct (running_ s); [|by eapply effect_put].
    eapply (effect_handling s key e k _ _ Message sid); [done|reflexivity|reflexivity| |same_effect|left; same_effect].
    left. split; [|done]. exists line. split; [exact Hp|]. simpl. apply elem_of_app. right. apply list_elem_of_here.
  - by apply handler_effect.
  - by apply effect_disconnect.
  - unfold unmap. destruct (sessions_ s !! key); by eapply effect_put.
  - unfold dispatch_session_stopped. destruct (running_ s); [|by eapply effect_put].
    eapply (effect_handling s key e k _ _ Stopping sid); [done|reflexivity|reflexivity|left; by split|same_effect|left; same_effect].
  - eapply (effect_idle s key e); [reflexivity|exact I|same_effect..].
  - destruct (launched k); [by eapply effect_put|]. eapply (effect_idle s key e); [reflexivity|exact I|same_effect..].
  - done.
Qed.
(** The other threads begin no call, and take sessions away at most. *)
Definition outside (s s' : Server) : Prop :=
  (∀ key k', conns s' !! key = Some k' → idle (pc k') ∨ ∃ k, conns s !! key = Some k ∧ pc k = pc k') ∧
  calls s ⊆ calls s' ∧ hub_ s' ⊆ hub_ s.
Lemma outside_effect s s' a : outside s s' → effect s s' a.
Proof.
  intros (Hc & Hcalls & Hh). split; [|done|left; by apply faithful_sub]. apply handles_same. intros key k' Hk.
  destruct (Hc _ _ Hk) as [Hi|?]; [left|by right]. intros r sid sc E. by rewrite E in Hi.
Qed.
Lemma outside_same s s' : conns s' = conns s → calls s ⊆ calls s' → hub_ s' = hub_ s → outside s s'.
Proof. intros Hc ? Hh. split; [|by rewrite Hh]. rewrite Hc. eauto. Qed.
Lemma accept_outside l w t s : outside s (accept_turn l w t s).
Proof.
  unfold accept_turn. destruct (ports s !! l) as [p|]; [|by apply outside_same].
  destruct (accept_thread_ p); try by apply outside_same. destruct (negb _); [by apply outside_same|].
  destruct w; try (by apply outside_same); try (apply outside_same; same_effect).
  split; [|done]. intros key k' Hk. simpl in Hk. apply lookup_insert_Some in Hk as [[<- <-]|[_ Hk]]; [by left|].
  apply reap_lookup in Hk as [Hk _]. eauto.
Qed.
Lemma owner_outside e s : outside s (owner_turn e s).
Proof.
  unfold owner_turn. destruct (owner s) as [|[|l ls]|[|l ls]|l ls|l ls|l ls|l ls]; try by apply outside_same.
  - unfold start_listener. destruct (negb _); [by apply outside_same|]. destruct (transport_start _ _ _); [by apply outside_same|].
    unfold stop_server. by destruct (running_ s); apply outside_same.
  - destruct (ports s !! l) as [p|]; [|by apply outside_same]. by destruct (on_ p); apply outside_same.
  - split; [|done]. intros key k' Hk. simpl in Hk. right. rewrite map_lookup_imap in Hk.
    destruct (conns s !! key) as [k|] eqn:E; [|done]. simpl in Hk. exists k. split; [done|]. injection Hk as <-. by case_decide.
  - destruct (accept_done l s); by apply outside_same.
  - destruct (clients_done l s); by apply outside_same.
  - split; [|split; [done|]].
    + intros key k' Hk. simpl in Hk. apply map_lookup_filter_Some in Hk as [Hk _]. eauto.
    + simpl. induction (map_to_list _).*2 as [|sid l' IH]; [done|]. simpl. etrans; [apply delete_subseteq|done].
Qed.
Theorem step_effect n s a : inv n s → effect s (step s a) a.
Proof.
  intros Hi. destruct a as [| |e|l w t|key e]; cbn [step].
  - apply outside_effect. destruct (owner s); try by apply outside_same. unfold start_server.
    destruct (running_ s); [by apply outside_same|]. destruct (check_listeners _); by apply outside_same.
  - apply outside_effect. destruct (owner s); try by apply outside_same. unfold stop_server.
    by destruct (running_ s); apply outside_same.
  - apply outside_effect, owner_outside.
  - apply outside_effect, accept_outside.
  - destruct (conns s !! key) as [k|] eqn:Hk; [by apply (turn_effect n s key k)|].
    unfold turn. rewrite Hk. apply outside_effect. by apply outside_same.
Qed.

(** ** What the handler's scripts may say *)
(** The answers anyone gets. *)
Definition public : list bytes := line <$>
  [txt "AUTH REQUIRED"; txt "AUTH ERROR usage: AUTH <user> <token>"; txt "AUTH DENIED"; txt "AUTH OK"; txt "AUTH ERROR";
   txt "ERROR auth required"].
Fixpoint allowed (grant : bytes → Prop) (authenticated : bool) (sc : Script) : Prop :=
  match sc with
  | Return | Throw _ => True
  | Send data k => (data ∈ public ∨ authenticated = true) ∧ ∀ b, allowed grant authenticated (k b)
  | Authenticate name k => grant name ∧ ∀ b, allowed grant authenticated (k b)
  | Look k => ∀ name, allowed grant authenticated (k false name) ∧ allowed grant true (k true name)
  | Survey k => ∀ l, allowed grant authenticated (k l)
  end.
Lemma allowed_mono (g g' : bytes → Prop) (a a' : bool) sc : (∀ u, g u → g' u) → (a = true → a' = true) → allowed g a sc → allowed g' a' sc.
Proof.
  intros Hg. revert a a'. induction sc as [|what|data k IH|name k IH|k IH|k IH]; intros a a' Ha Hsc; simpl in *; try done.
  - destruct Hsc as [Hd Hsc]. split; [destruct Hd; auto|]. intros b. eapply IH; eauto.
  - destruct Hsc as [Hd Hsc]. split; [auto|]. intros b. eapply IH; eauto.
  - intros name. destruct (Hsc name) as [H1 H2]. split; [by eapply IH; eauto|by eapply (IH true name true true)].
  - intros l. eapply IH; eauto.
Qed.
(** A session gave the token under this name. *)
Definition gave (access : AccessOptions) (s : Server) (sid : Z) (user : bytes) : Prop :=
  ∃ m, OnMessage sid m ∈ calls s ∧ auth_words (normalize_request m) = Some (user, token access).
Lemma allowed_reply g a text : line text ∈ public ∨ a = true → allowed g a (reply (line text)).
Proof. by split. Qed.
Ltac public := left; unfold public; rewrite ?fmap_cons, ?elem_of_cons; auto 10.
Lemma answer_allowed g hub request : allowed g true (answer hub request).
Proof. unfold answer, send_who. case_bool_decide; [destruct hub; simpl|]; repeat split; auto. Qed.
Lemma message_allowed access hub s sid m a : require_auth access = true → OnMessage sid m ∈ calls s →
  allowed (gave access s sid) a (on_message access hub m).
Proof.
  intros Hreq Hm. unfold on_message, handle_auth_command.
  destruct (auth_words (normalize_request m)) as [[user word]|] eqn:Hw.
  - destruct (_ || _); [apply allowed_reply; public|].
    destruct (Credential.constant_time_equals word (token access)) eqn:Heq; cbn [negb]; [|apply allowed_reply; public].
    apply Credential.constant_time_equals_correct in Heq as ->. split; [by exists m|].
    intros []; apply allowed_reply; public.
  - rewrite Hreq. intros name. split; [apply allowed_reply; public|apply answer_allowed].
Qed.
Lemma started_allowed access g a : require_auth access = true → allowed g a (on_session_started access).
Proof. intros Hreq. unfold on_session_started. rewrite Hreq. apply allowed_reply. public. Qed.

(** ** The application's invariant *)
Record echo_inv (access : AccessOptions) (s : Server) : Prop := {
  ei_hub sid snap : hub_ s !! sid = Some snap → ss_authenticated snap = true → gave access s sid (ss_user_name snap);
  ei_script key k r sid sc : conns s !! key = Some k → pc k = Handling r sid sc →
    allowed (gave access s sid) (is_authenticated sid (hub_ s)) sc;
}.
Lemma gave_more access s s' sid user : calls s ⊆ calls s' → gave access s sid user → gave access s' sid user.
Proof. intros H (m & Hm & Hw). exists m. auto. Qed.
Lemma continues_allowed access s sid sc sc' : allowed (gave access s sid) (is_authenticated sid (hub_ s)) sc →
  continues s sid sc sc' → allowed (gave access s sid) (is_authenticated sid (hub_ s)) sc'.
Proof.
  destruct sc as [|what|data k|name k|k|k]; simpl; try done.
  - intros [_ H] [b ->]. apply H.
  - intros [_ H] [b ->]. apply H.
  - intros H ->. destruct (H (user_name sid (hub_ s))). by destruct (is_authenticated _ _).
  - intros H [l ->]. apply H.
Qed.
(** The session of a call that is being handled is live. *)
Lemma handling_live n s key k r sid sc : inv n s → conns s !! key = Some k → pc k = Handling r sid sc → is_Some (hub_ s !! sid).
Proof.
  intros Hi Hk Hp. apply (iv_hub _ _ Hi). exists key, k. split; [done|].
  destruct (iv_conns _ _ Hi _ _ Hk) as [Hc _]. unfold conn_ok in Hc. rewrite Hp in Hc. by destruct r as [| |]; destruct Hc.
Qed.
Lemma keeps_standing n n' s s' a sid : inv n s → inv n' s' → effect s s' a → is_Some (hub_ s' !! sid) →
  is_authenticated sid (hub_ s) = true → is_authenticated sid (hub_ s') = true.
Proof.
  intros Hi Hi' He Hs Ha. destruct (ef_hub _ _ _ He) as [Hf|(key & e & k & r & sid' & name & next & _ & _ & _ & Hh)].
  - by apply (ff_keep _ _ Hf).
  - rewrite Hh. unfold authenticate, is_authenticated in *. destruct (hub_ s !! sid') as [snap|] eqn:E; [|done]. simpl.
    destruct (decide (sid' = sid)) as [->|]; [by rewrite lookup_insert_eq|by rewrite lookup_insert_ne].
Qed.
Definition scripted_by (access : AccessOptions) (hub : bool) (s : Server) (a : Action) : Prop :=
  ∀ key e k, a = Turn key e → conns s !! key = Some k →
    (∀ sid, pc k = Announcing sid → e_script e = on_session_started access) ∧
    (∀ sid m, pc k = Dispatching sid m → e_script e = on_message access hub m) ∧
    (∀ sid, pc k = Reporting sid → e_script e = on_session_stopped).
Lemma handled_scripted access hub s a : scripted_by access hub s (handled access hub s a).
Proof.
  intros key e k Ha Hk. destruct a as [| | | |key' e']; try done. unfold handled in Ha.
  destruct (conns s !! key') as [k'|] eqn:Hk'; simpl in Ha.
  - destruct (pc k') eqn:Hp; injection Ha as -> <-; rewrite Hk' in Hk; injection Hk as <-; rewrite Hp;
      (split; [|split]); intros; simplify_eq; done.
  - injection Ha as -> <-. congruence.
Qed.
Lemma echo_step access hub n s a : require_auth access = true → inv n s → inv (n + 1) (step s a) → scripted_by access hub s a →
  echo_inv access s → echo_inv access (step s a).
Proof.
  intros Hreq Hi Hi' Hsc [Eh Es]. pose proof (step_effect n s a Hi) as He. set (s' := step s a) in *. clearbody s'.
  pose proof (ef_calls _ _ _ He) as Hcalls. split.
  - intros sid snap' Hs Ha.
    destruct (ef_hub _ _ _ He) as [Hf|(key & e & k & r & sid' & name & next & _ & Hk & Hp & Hh)].
    + destruct (ff_auth _ _ Hf _ _ Hs Ha) as (snap & H1 & H2 & ->). eapply gave_more; eauto.
    + rewrite Hh in Hs. unfold authenticate in Hs. destruct (hub_ s !! sid') as [snap0|] eqn:E; simpl in Hs; [|eapply gave_more; eauto].
      apply lookup_insert_Some in Hs as [[<- <-]|[_ Hs]]; [|eapply gave_more; eauto].
      destruct (Es _ _ _ _ _ Hk Hp) as [Hg _]. simpl. eapply gave_more; eauto.
  - intros key k' r sid sc Hk Hp.
    assert (∀ sc0, allowed (gave access s sid) (is_authenticated sid (hub_ s)) sc0 →
      allowed (gave access s' sid) (is_authenticated sid (hub_ s')) sc0) as Hmono.
    { intros sc0. apply allowed_mono; [intros u; by apply gave_more|].
      apply (keeps_standing n (n + 1) s s' a); try done. by eapply handling_live. }
    destruct (ef_handles _ _ _ He _ _ _ _ _ Hk Hp) as [(k & H1 & H2)|(e & k & Ha & H1 & [[Hb ->]|(sc0 & H2 & Hc)])].
    + eauto.
    + destruct (Hsc _ _ _ Ha H1) as (S1 & S2 & S3). destruct r; simpl in Hb.
      * rewrite (S1 _ Hb). by apply started_allowed.
      * destruct Hb as (m & Hb & Hm). rewrite (S2 _ _ Hb). by apply message_allowed.
      * by rewrite (S3 _ Hb).
    + apply Hmono. eapply continues_allowed; eauto.
Qed.
(** A run of the application is a run of the runtime. *)
Lemma app_run_inv access hub o actions : zlen actions + 1 < 2 ^ 64 → require_auth access = true →
  let s := app_run access hub o actions in inv (zlen actions) s ∧ echo_inv access s.
Proof.
  intros Hb Hreq. unfold app_run. induction actions as [|a l IH] using rev_ind.
  - split; [apply new_inv|]. split; intros *; simpl; by rewrite lookup_empty.
  - rewrite zlen_app in *. rewrite zlen_cons, zlen_nil in *. pose proof (zlen_nonneg l). destruct IH as [Hi He]; [lia|].
    rewrite runs_app. set (s := runs (app_step access hub) (new_server o) l) in *.
    change (runs (app_step access hub) s [a]) with (step s (handled access hub s a)). set (a' := handled access hub s a).
    assert (inv (zlen l + 1) (step s a')) as Hi' by (apply step_inv; [done|lia..]).
    replace (zlen l + (1 + 0)) with (zlen l + 1) by lia. split; [done|].
    apply (echo_step access hub (zlen l) s a'); try done. apply handled_scripted.
Qed.

(** ** The property *)
Definition bounded (actions : list Action) : Prop := zlen actions + 1 < 2 ^ 64.
(** C25: With authentication required, whatever the interleaving, the application sends a
    session nothing but its fixed refusals and acknowledgements unless the hub holds the
    session as authenticated; and the hub holds it so under a name only if the session
    itself sent an AUTH line with that name and the configured token. *)
Theorem echo_requires_auth access hub o actions : bounded actions → require_auth access = true →
  let s := app_run access hub o actions in
  (∀ key k r sid data next, conns s !! key = Some k → pc k = Handling r sid (Send data next) →
    data ∈ public ∨ is_authenticated sid (hub_ s) = true) ∧
  (∀ sid, is_authenticated sid (hub_ s) = true →
    ∃ m, OnMessage sid m ∈ calls s ∧ auth_words (normalize_request m) = Some (user_name sid (hub_ s), token access)).
Proof.
  intros Hb Hreq s. destruct (app_run_inv access hub o actions Hb Hreq) as [_ [Eh Es]]. fold s in Eh, Es. split.
  - intros key k r sid data next Hk Hp. by destruct (Es _ _ _ _ _ Hk Hp) as [Hd _].
  - intros sid Ha. unfold is_authenticated, user_name in *. destruct (hub_ s !! sid) as [snap|] eqn:E; [|done].
    by apply (Eh sid snap E).
Qed.

(** ** Settings *)
Lemma get_int_or_range c key fallback : int_min ≤ fallback ≤ int_max → int_min ≤ get_int_or c key fallback ≤ int_max.
Proof.
  intros Hf. unfold get_int_or, get_int. destruct (get_string c key) as [v|]; [|done].
  destruct (from_chars int_min int_max (trim_view v)) as [[n [|]]|] eqn:E; try done. by apply from_chars_range in E.
Qed.
Lemma at_least_one_range c key fallback : int_min ≤ fallback ≤ int_max → 1 ≤ at_least_one c key fallback ≤ int_max.
Proof. intros Hf%(get_int_or_range c key). unfold at_least_one, int_max in *. lia. Qed.
Lemma read_port_range c : 1 ≤ read_port c ≤ 65535.
Proof. unfold read_port. destruct (_ && _) eqn:E; bprop; lia. Qed.
Lemma named_warns {A} (parse : bytes → option A) to_string key value fallback :
  (named parse to_string key value fallback).2 = [] ↔ is_Some (parse value).
Proof. unfold named. destruct (parse value); simpl; split; intros H; try done; by destruct H. Qed.

(** A server the application starts is well configured, whatever the file holds: it
    runs with the parsed settings, one enabled TCP listener on a valid port and limits
    between one and the greatest [int], never in the mode whose handshake does not exist;
    and there is a warning unless each named setting names something. *)
Theorem echo_boot_wellformed windows content ready cfg s : boot windows content ready = Some (cfg, s) →
  let c := (load_file (txt "config/serverengine.ini") content (mkConfig ∅)).1 in
  (running_ s = true ∧ options_ s = server cfg ∧ ready = true ∧ security_mode (server cfg) ≠ SecurityMode.EccP256) ∧
  (∃ l, listener_options (server cfg) = [l] ∧ lo_enabled l = true ∧ lo_transport l = TransportKind.Tcp ∧
    1 ≤ ep_port (lo_endpoint l) ≤ 65535) ∧
  Forall (λ n, 1 ≤ n ≤ int_max) [worker_count (server cfg); max_sessions (server cfg); max_message_bytes (server cfg);
    idle_timeout_ms (server cfg); receive_timeout_ms (server cfg); pool_size (storage cfg)] ∧
  (warnings cfg = [] ↔ is_Some (LogLevel.parse_log_level (get_string_or c (txt "log.level") (txt "debug"))) ∧
    is_Some (TransportKind.parse_transport_kind (get_string_or c (txt "server.transport") (txt "tcp"))) ∧
    is_Some (TcpBackend.parse_tcp_backend (get_string_or c (txt "server.tcp_backend")
      (TcpBackend.to_string (TcpBackend.default_tcp_backend windows)))) ∧
    is_Some (SecurityMode.parse_security_mode (get_string_or c (txt "security.mode") (txt "token")))).
Proof.
  unfold boot. destruct (load_file _ _ _) as [c err]. cbn [fst]. unfold parse_app_config.
  pose proof (λ key v f, named_warns LogLevel.parse_log_level LogLevel.to_string key v f) as W1.
  pose proof (λ key v f, named_warns TransportKind.parse_transport_kind TransportKind.to_string key v f) as W2.
  pose proof (λ key v f, named_warns TcpBackend.parse_tcp_backend TcpBackend.to_string key v f) as W3.
  pose proof (λ key v f, named_warns SecurityMode.parse_security_mode SecurityMode.to_string key v f) as W4.
  destruct (named LogLevel.parse_log_level _ _ _ _) as [level w1] eqn:E1.
  destruct (named TransportKind.parse_transport_kind _ _ _ _) as [transport w2] eqn:E2.
  destruct (named TcpBackend.parse_tcp_backend _ _ _ _) as [backend w3] eqn:E3.
  destruct (named SecurityMode.parse_security_mode _ _ _ _) as [mode w4] eqn:E4.
  rewrite <- (W1 (txt "log.level") _ LogLevel.Info), <- (W2 (txt "server.transport") _ TransportKind.Tcp).
  rewrite <- (W3 (txt "server.tcp_backend") _ (TcpBackend.default_tcp_backend windows)).
  rewrite <- (W4 (txt "security.mode") _ SecurityMode.Token), E1, E2, E3, E4. clear W1 W2 W3 W4 E1 E2 E3 E4.
  destruct ready; [|done]. cbn [negb server security_mode]. case_decide; [done|].
  destruct transport; unfold start_server, check_listeners;
    cbn -[at_least_one read_port get_string_or get_bool_or txt app]; try done.
  intros [= <- <-].
  split; [done|]. split; [eexists; split_and!; try done; apply read_port_range|].
  split; [repeat constructor; apply at_least_one_range; done|].
  cbn [warnings]. rewrite !app_nil. naive_solver.
Qed.

(** * A client that is refused, gives the token, and asks who is there. *)
Module Visitor.
Definition ini : bytes := txt "[server]" ++ [x0a] ++ txt "port = 9000" ++ [x0a] ++ txt "workers = 0" ++ [x0a]
  ++ txt "[access]" ++ [x0a] ++ txt "token = t0p" ++ [x0a].
Definition access : AccessOptions := mkAccess true (txt "t0p").
Definition here : Endpoint := mkEndpoint (txt "127.0.0.1") 8080.
Definition options : ServerOptions := mkServerOptions 4 2 64 0 1000 true TcpBackend.Threaded
  SecurityMode.Token [mkListenerOptions (txt "main") TransportKind.Tcp here true].
Definition os : Os := mkOs (λ _, true) (Some 3) true true true [].
Definition env (r : Recv) : Env := mkEnv true 7 r Return [99] [] os.
Definition key : Key := (1, 1).
Definition go (n : nat) (r : Recv) : list Action := repeat (Turn key (env r)) n.
Definition says (n : nat) (text : bytes) : list Action := go n (Data (text ++ [x0a])).
Definition opening : list Action := [StartServer; Own (env Eof); Own (env Eof); AcceptTurn 1 (Client here) []] ++ go 12 Eof.
Definition visit : list Action := opening ++ says 9 (txt "hello") ++ says 8 (txt "AUTH ann t0p") ++ says 7 (txt "WHO").
Definition sending (p : Pc) : option bytes := match p with Handling Message _ (Send d _) => Some d | _ => None end.
Definition who : bytes := txt "WHO count=1" ++ [x0a] ++
  txt "id=1 transport=tcp remote=127.0.0.1:8080 auth=yes user=ann rx_messages=3 tx_messages=3 rx_bytes=20 tx_bytes=42" ++ [x0a].
End Visitor.

Lemma echo_requires_auth_witness :
  let s := app_run Visitor.access true Visitor.options Visitor.visit in
  (∃ k, conns s !! Visitor.key = Some k ∧ Visitor.sending (pc k) = Some Visitor.who) ∧
  is_authenticated 1 (hub_ s) = true ∧
  ∃ m, OnMessage 1 m ∈ calls s ∧ auth_words (normalize_request m) = Some (txt "ann", txt "t0p").
Proof.
  set (s := app_run Visitor.access true Visitor.options Visitor.visit).
  assert (bounded Visitor.visit) as Hb by (vm_compute; reflexivity).
  destruct (echo_requires_auth Visitor.access true Visitor.options Visitor.visit Hb eq_refl) as [_ H2]. fold s in H2.
  assert ((λ k, Visitor.sending (pc k)) <$> conns s !! Visitor.key = Some (Some Visitor.who)) as Hs by (vm_compute; reflexivity).
  apply fmap_Some in Hs as (k & Hk & Hs). symmetry in Hs.
  assert (is_authenticated 1 (hub_ s) = true) as Ha by (vm_compute; reflexivity).
  assert (user_name 1 (hub_ s) = txt "ann") as Hu by (vm_compute; reflexivity).
  split; [exists k; split; [exact Hk|exact Hs]|]. split; [exact Ha|].
  destruct (H2 1 Ha) as (m & Hm & Hw). rewrite Hu in Hw. exists m. split; [exact Hm|exact Hw].
Defined.

Lemma echo_boot_wellformed_witness :
  ∃ cfg s, boot false (Some Visitor.ini) true = Some (cfg, s) ∧ worker_count (server cfg) = 1 ∧
    1 ≤ max_sessions (server cfg) ∧ ep_port <$> (lo_endpoint <$> listener_options (server cfg)) = [9000] ∧ warnings cfg = [].
Proof.
  assert ((λ x, (worker_count (server x.1), ep_port <$> (lo_endpoint <$> listener_options (server x.1)), warnings x.1)) <$>
    boot false (Some Visitor.ini) true = Some (1, [9000], [])) as Hb by (vm_compute; reflexivity).
  apply fmap_Some in Hb as ([cfg s] & Hb & Hv). cbn [fst] in Hv. injection Hv as Hw Hp Hn.
  destruct (echo_boot_wellformed false (Some Visitor.ini) true cfg s Hb) as (_ & _ & Hl & _).
  exists cfg, s. split; [exact Hb|]. split; [symmetry; exact Hw|]. split; [|split; [symmetry; exact Hp|symmetry; exact Hn]].
  apply Forall_cons in Hl as [_ Hl]. apply Forall_cons in Hl as [[Hm _] _]. exact Hm.
Defined.
