(* ===== verification/EchoStartup.v ===== *)
(** EchoStartup: what the echo server writes to its log when it starts
    ([src/examples/EchoServer/Application.cpp], [StartupDiagnostics.cpp]), from the settings
    [EchoServer] reads. The lines the runtime writes of itself are left out. *)
From S2P Require Import Prelude.
From S2P Require Import Text.
From S2P Require Import Kinds.
From S2P Require Import Config.
From S2P Require Import Logger.
From S2P Require Import Port.
From S2P Require Import RuntimeHub.
From S2P Require Import RuntimeServer.
From S2P Require Import EchoServer.

Abbreviation Line := (LogLevel.LogLevel * bytes)%type.
Definition info (m : bytes) : Line := (LogLevel.Info, m).
Definition choose (b : bool) (yes no : bytes) : bytes := if b then yes else no.

Section Startup.
(** The build, what the EC provider answers, the process. *)
Context (b : Build) (ecc : Z) (process : ProcessInfo).

(** [src/examples/EchoServer/StartupDiagnostics.cpp:9-48] *)
Definition log_startup_diagnostics (config : AppConfig) : list Line :=
  let server := EchoServer.server config in
  [info (txt "OS: " ++ system_to_string (current_operating_system b));
   info (txt "CPU: " ++ architecture_to_string (current_cpu_architecture b));
   info (txt "Compiler: " ++ compiler_name b ++ txt " " ++ compiler_version b);
   info (txt "Build: " ++ choose (is_debug_build b) (txt "Debug") (txt "Release"));
   info (txt "PID: " ++ dec (process_id process));
   info (txt "Executable: " ++ executable_path process);
   info (txt "Working directory: " ++ working_directory process);
   (LogLevel.Debug, txt "Logger file: " ++ file_path (logging config))]
  ++ concat ((λ l, [info (txt "Server transport: " ++ TransportKind.to_string (lo_transport l));
                    info (txt "Server endpoint: " ++ endpoint_to_string (lo_endpoint l))]) <$> listener_options server)
  ++ [info (txt "Worker count: " ++ dec (worker_count server));
      info (txt "Max sessions: " ++ dec (max_sessions server));
      info (txt "Max message bytes: " ++ dec (max_message_bytes server));
      info (txt "Idle timeout ms: " ++ dec (idle_timeout_ms server));
      info (txt "Receive timeout ms: " ++ dec (receive_timeout_ms server));
      info (txt "TCP no delay: " ++ choose (tcp_no_delay server) (txt "true") (txt "false"));
      info (txt "TCP backend: " ++ TcpBackend.to_string (tcp_backend server));
      info (txt "Security mode: " ++ SecurityMode.to_string (security_mode server));
      info (txt "Access require auth: " ++ choose (require_auth (access config)) (txt "true") (txt "false"))]
  ++ (if check_ecc_provider config then
        let status := check_ecc_p256_provider b ecc in
        [info (txt "ECC P-256 provider: " ++ choose (available status) (txt "available") (txt "unavailable")
           ++ txt " provider=" ++ provider_name status ++ txt " detail=" ++ detail status)]
      else [])
  ++ [info (txt "Storage: " ++ choose (storage_enabled (storage config)) (txt "enabled") (txt "disabled")
        ++ txt " provider=" ++ provider (storage config) ++ txt " pool_size=" ++ dec (pool_size (storage config)));
      info (txt "Distribution: " ++ choose (distribution_enabled (distribution config)) (txt "enabled") (txt "disabled")
        ++ txt " node_id=" ++ node_id (distribution config)
        ++ txt " advertised_endpoint=" ++ advertised_endpoint (distribution config))]
  ++ (if storage_enabled (storage config) || distribution_enabled (distribution config)
      then [(LogLevel.Warning, txt "Storage/distribution settings are placeholders; no driver is implemented")] else []).

(** [src/examples/EchoServer/Application.cpp:39-78] {run} Once the logger is ready: the lines
    up to the loop, and whether it is reached. *)
Definition run_lines (content : option bytes) : list Line * bool :=
  let path := txt "config/serverengine.ini" in
  let '(source, config_error) := load_file path content (mkConfig ∅) in
  let config := parse_app_config (os_windows b) source in
  let first := info (txt "ServerEngine starting") ::
    match config_error with
    | None => info (txt "Config loaded: " ++ path)
    | Some e => (LogLevel.Warning, txt "Config load failed: " ++ e ++ txt "; using defaults")
    end :: ((λ w, (LogLevel.Warning, w)) <$> warnings config) in
  if decide (security_mode (EchoServer.server config) = SecurityMode.EccP256)
  then (first ++ [(LogLevel.Critical, txt "security.mode=ecc-p256 is configured, but encrypted ECC handshake is not implemented yet")], false)
  else
    let told := first ++ info (txt "Config entries: " ++ dec (config_size source)) :: log_startup_diagnostics config in
    match (start_server (new_server (EchoServer.server config))).1 with
    | Err e => (told ++ [(LogLevel.Critical, txt "Failed to start runtime: " ++ e)], false)
    | Ok _ => (told ++ [info (txt "ServerEngine running. Press Ctrl+C to stop.")], true)
    end.

(** ** What the log cannot tell *)
Definition secrets : list bytes := [txt "access.token"; txt "storage.connection_string"].
(** The same settings, but for the values of the secrets. *)
Definition agree (c c' : Config) : Prop :=
  dom (values c) = dom (values c') ∧ ∀ key, key ∉ secrets → values c !! key = values c' !! key.
Lemma agree_size c c' : agree c c' → config_size c = config_size c'.
Proof. intros [Hd _]. unfold config_size. by rewrite <- !size_dom, Hd. Qed.
Lemma agree_string c c' key : agree c c' → bool_decide (key ∈ secrets) = false → get_string c key = get_string c' key.
Proof. intros [_ Hv] Hk. apply bool_decide_eq_false in Hk. by apply Hv. Qed.
Lemma agree_string_or c c' key fallback : agree c c' → bool_decide (key ∈ secrets) = false →
  get_string_or c key fallback = get_string_or c' key fallback.
Proof. intros Ha Hk. unfold get_string_or. by rewrite (agree_string c c' key Ha Hk). Qed.
Lemma agree_int_or c c' key fallback : agree c c' → bool_decide (key ∈ secrets) = false →
  get_int_or c key fallback = get_int_or c' key fallback.
Proof. intros Ha Hk. unfold get_int_or, get_int. by rewrite (agree_string c c' key Ha Hk). Qed.
Lemma agree_bool_or c c' key fallback : agree c c' → bool_decide (key ∈ secrets) = false →
  get_bool_or c key fallback = get_bool_or c' key fallback.
Proof. intros Ha Hk. unfold get_bool_or, get_bool. by rewrite (agree_string c c' key Ha Hk). Qed.
(** The settings are the same, but for the two secrets themselves. *)
Definition hide (config : AppConfig) : AppConfig :=
  mkAppConfig (logging config) (EchoServer.server config) (mkAccess (require_auth (access config)) [])
    (mkStorage (storage_enabled (storage config)) (provider (storage config)) [] (pool_size (storage config)))
    (distribution config) (check_ecc_provider config) (warnings config).
Lemma agree_settings w c c' : agree c c' → hide (parse_app_config w c) = hide (parse_app_config w c').
Proof.
  intros Ha. unfold parse_app_config, at_least_one, read_port.
  repeat match goal with
  | |- context [get_string_or c (txt ?k) ?f] => rewrite (agree_string_or c c' (txt k) f Ha) by (vm_compute; reflexivity)
  | |- context [get_int_or c (txt ?k) ?f] => rewrite (agree_int_or c c' (txt k) f Ha) by (vm_compute; reflexivity)
  | |- context [get_bool_or c (txt ?k) ?f] => rewrite (agree_bool_or c c' (txt k) f Ha) by (vm_compute; reflexivity)
  end.
  destruct (named LogLevel.parse_log_level _ _ _ _) as [level w1], (named TransportKind.parse_transport_kind _ _ _ _) as [transport w2].
  destruct (named TcpBackend.parse_tcp_backend _ _ _ _) as [backend w3], (named SecurityMode.parse_security_mode _ _ _ _) as [mode w4]. reflexivity.
Qed.
Lemma diagnostics_hide config : log_startup_diagnostics config = log_startup_diagnostics (hide config).
Proof. reflexivity. Qed.
(** The startup log of the echo server does not depend on its secrets. Two
    configuration files with the same errors and the same settings, but for the values of
    the access token and of the connection string, make the server write the same lines at
    the same levels, warnings included, and come to the same end. *)
Theorem startup_log_hides_secrets content content' :
  let path := txt "config/serverengine.ini" in
  (load_file path content (mkConfig ∅)).2 = (load_file path content' (mkConfig ∅)).2 →
  agree (load_file path content (mkConfig ∅)).1 (load_file path content' (mkConfig ∅)).1 →
  run_lines content = run_lines content'.
Proof.
  cbv zeta. intros He Ha. unfold run_lines. destruct (load_file _ content _) as [c e], (load_file _ content' _) as [c' e'].
  simpl in He, Ha. subst e'. rewrite (agree_size c c' Ha), !(diagnostics_hide (parse_app_config _ _)).
  rewrite <- (agree_settings (os_windows b) c c' Ha).
  change (warnings (parse_app_config ?w ?x)) with (warnings (hide (parse_app_config w x))).
  change (EchoServer.server (parse_app_config ?w ?x)) with (EchoServer.server (hide (parse_app_config w x))).
  by rewrite <- (agree_settings (os_windows b) c c' Ha).
Qed.
End Startup.

(** ** At work *)
Module Settings.
Definition file (token : string) : bytes :=
  txt "[access]" ++ [x0a] ++ txt "token=" ++ txt token ++ [x0a] ++ txt "[server]" ++ [x0a] ++ txt "port=7000" ++ [x0a].
Definition process : ProcessInfo := current_process_info 42 (txt "/opt/echo") (txt "/opt").
End Settings.
Import Settings.
Example startup_lines :
  (run_lines linux_build 0 process (Some (file "hunter2"))).2 = true ∧
  (run_lines linux_build 0 process None).1 !! 1%nat =
    Some (LogLevel.Warning, txt "Config load failed: Failed to open config file: config/serverengine.ini; using defaults") ∧
  info (txt "Server endpoint: 0.0.0.0:7000") ∈ (run_lines linux_build 0 process (Some (file "hunter2"))).1.
Proof. split_and!; [vm_compute; reflexivity..|]. apply (bool_decide_unpack _). vm_compute. exact I. Qed.
Lemma startup_log_hides_secrets_witness :
  run_lines linux_build 0 process (Some (file "hunter2")) = run_lines linux_build 0 process (Some (file "correct horse")).
Proof.
  apply (startup_log_hides_secrets linux_build 0 process (Some (file "hunter2")) (Some (file "correct horse"))); [vm_compute; reflexivity|].
  assert ((load_file (txt "config/serverengine.ini") (Some (file "hunter2")) (mkConfig ∅)).1 =
    set (txt "server.port") (txt "7000") (set (txt "access.token") (txt "hunter2") (mkConfig ∅))) as -> by (vm_compute; reflexivity).
  assert ((load_file (txt "config/serverengine.ini") (Some (file "correct horse")) (mkConfig ∅)).1 =
    set (txt "server.port") (txt "7000") (set (txt "access.token") (txt "correct horse") (mkConfig ∅))) as -> by (vm_compute; reflexivity).
  split; [unfold set; cbn [values]; by rewrite !dom_insert_L|]. intros key Hk. unfold set. cbn [values].
  destruct (decide (key = txt "server.port")) as [->|Hp]; [by rewrite !lookup_insert_eq|].
  rewrite !(lookup_insert_ne _ (txt "server.port")) by done. rewrite !lookup_insert_ne; [done|..];
    intros <-; apply Hk; apply list_elem_of_here.
Defined.
