(* ===== verification/WebServer.v ===== *)
(** WebServer: the sample web server over the C interface ([src/examples/WebServer/]): a
    page, a signalling room for two WebSocket peers, and profiles read from a database
    without blocking. The engine's answers are arguments; what the server asks of the
    engine is recorded. *)
From S2P Require Import Prelude.
From S2P Require Import Text.
From S2P Require Import NetTypes.
From S2P Require EventQueue.
From S2P Require Import HttpCodec.

(** What the server asks of the engine, with the answer where it looks at it. *)
Inductive Effect :=
| Sent (session : Z) (text : bytes) (ok : bool)
| Disconnected (session : Z)
| Responded (session request status : Z) (content_type body : bytes) (ok : bool).

(** * The signalling room *)
Module SignalRoom.
(** [src/examples/WebServer/SignalRoom.h:19-21] Its members, zero for an empty place, and
    what it did. [answers]: whether a text can be sent to a session. *)
Record Room := mkRoom { members_ : Z * Z; done : list Effect }.
Section Operations.
Variable answers : Z → bytes → bool.
Definition note (l : list Effect) (r : Room) : Room := mkRoom (members_ r) (done r ++ l).
Definition with_members m (r : Room) : Room := mkRoom m (done r).
(** [src/examples/WebServer/WebServer.cpp:178-187] A peer that cannot be sent to is dropped. *)
Definition send (session : Z) (text : bytes) (r : Room) : bool * Room :=
  let ok := answers session text in
  (ok, note (Sent session text ok :: if ok then [] else [Disconnected session]) r).
Definition disconnect (session : Z) (r : Room) : Room := note [Disconnected session] r.
Definition is_member (session : Z) (r : Room) : bool :=
  (session =? (members_ r).1) || (session =? (members_ r).2).
Definition partner (session : Z) (r : Room) : Z :=
  if (members_ r).1 =? session then (members_ r).2 else (members_ r).1.
(** [src/examples/WebServer/SignalRoom.cpp:27-33] *)
Definition closed (session : Z) (r : Room) : Room :=
  if negb (is_member session r) then r
  else
    let other := partner session r in
    let r := with_members (0, 0) r in
    if other =? 0 then r else disconnect other r.
(** [src/examples/WebServer/SignalRoom.cpp:7-14] *)
Definition opened (session : Z) (r : Room) : Room :=
  if negb ((members_ r).1 =? 0) && negb ((members_ r).2 =? 0) then disconnect session r
  else
    let r := with_members (if (members_ r).1 =? 0 then (session, (members_ r).2) else ((members_ r).1, session)) r in
    let '(ok, r) := send session (txt "WAIT") r in
    if negb ok then closed session r
    else if negb ((members_ r).1 =? 0) && negb ((members_ r).2 =? 0)
    then let '(ok, r) := send (members_ r).1 (txt "OFFER") r in if ok then r else closed (members_ r).1 r
    else r.
Definition signal_prefix : bytes := txt "SIGNAL" ++ [x0a].
(** [src/examples/WebServer/SignalRoom.cpp:16-27] *)
Definition message (session : Z) (payload : bytes) (r : Room) : Room :=
  if negb (is_member session r) then disconnect session r
  else if bool_decide (payload = txt "PING")
  then let '(ok, r) := send session (txt "PONG") r in if ok then r else closed session r
  else if (zlen payload <=? 7) || (65536 <? zlen payload) || negb (bool_decide (take 7 payload = signal_prefix))
  then closed session (disconnect session r)
  else
    let other := partner session r in
    if other =? 0 then r
    else let '(ok, r) := send other payload r in if ok then r else closed other (disconnect other r).
End Operations.
End SignalRoom.

(** * JSON *)
Definition hex_digit (n : Z) : byte := if n <? 10 then digit_byte n else Z_byte (97 + (n - 10)).
Definition escape_byte (b : byte) : bytes :=
  if bool_decide (b = x22) || bool_decide (b = x5c) then [x5c; b]
  else if byte_Z b <? 32 then txt "\u00" ++ [hex_digit (Z.shiftr (byte_Z b) 4); hex_digit (Z.land (byte_Z b) 15)]
  else [b].
(** [src/examples/WebServer/WebServer.cpp:30-40] *)
Definition json_string (value : bytes) : bytes := [x22] ++ concat (escape_byte <$> value) ++ [x22].
(** [std::to_string] of a signed integer. *)
Definition int_text (n : Z) : bytes := if n <? 0 then x2d :: dec (- n) else dec n.

(** * The server *)
(** [src/examples/WebServer/WebServer.h:15-26] *)
Record Web := mkWeb {
  room_ : SignalRoom.Room; html_ : bytes; javascript_ : bytes; pending_ : gmap Z (Z * Z); effects : list Effect;
}.
Definition with_room r w := mkWeb r (html_ w) (javascript_ w) (pending_ w) (effects w).
Definition with_pending p w := mkWeb (room_ w) (html_ w) (javascript_ w) p (effects w).
Definition emit l w := mkWeb (room_ w) (html_ w) (javascript_ w) (pending_ w) (effects w ++ l).

(** What the engine answers while an event is handled. *)
Record Answers := mkAnswers { a_send : Z → bytes → bool; a_respond : bool; a_query : option Z }.

(** [src/examples/WebServer/WebServer.cpp:158-168] {respond} The response handed over. *)
Definition response (status : Z) (content_type body : bytes) : HttpResponse :=
  let headers := [mkHttpHeader (txt "Cache-Control") (txt "no-store");
    mkHttpHeader (txt "X-Content-Type-Options") (txt "nosniff"); mkHttpHeader (txt "Allow") (txt "GET, HEAD, POST")] in
  mkHttpResponse status false content_type (take (if status =? 405 then 3 else 2) headers) body.
(** [src/examples/WebServer/WebServer.cpp:155-176] A refused response drops the session. *)
Definition respond (session request status : Z) (content_type body : bytes) (ok : bool) (w : Web) : Web :=
  emit (Responded session request status content_type body ok :: if ok then [] else [Disconnected session]) w.

(** [src/examples/WebServer/WebServer.cpp:120-129] {route} The bookkeeping of a query: a
    node under the reserved key zero, given its number once the query is accepted. *)
Definition load_profile (session id : Z) (a : Answers) (w : Web) : Web :=
  let p0 := match pending_ w !! 0 with Some _ => pending_ w | None => <[0 := (session, id)]> (pending_ w) end in
  match a_query a with
  | None => respond session id 503 (txt "text/plain") (txt "Database temporarily unavailable") (a_respond a)
              (with_pending (delete 0 (pending_ w)) w)
  | Some query =>
      match p0 !! 0 with
      | None => w
      | Some node =>
          let p1 := delete 0 p0 in
          with_pending (match p1 !! query with Some _ => p1 | None => <[query := node]> p1 end) w
      end
  end.
(** [src/examples/WebServer/WebServer.cpp:99-131] [None] where it throws. *)
Definition route (session : Z) (payload : bytes) (a : Answers) (w : Web) : option Web :=
  match decode_http_request (Some payload) with
  | None => None
  | Some request =>
      let method := slice payload (method_offset request) (method_size request) in
      let target := slice payload (target_offset request) (target_size request) in
      let id := request_id request in
      let reply status ctype body := respond session id status (txt ctype) body (a_respond a) w in
      Some (
        if bool_decide (method = txt "POST") && bool_decide (target = txt "/api/echo")
        then reply 200 "application/octet-stream" (slice payload (body_offset request) (body_size request))
        else if negb (bool_decide (method = txt "GET")) && negb (bool_decide (method = txt "HEAD"))
        then reply 405 "text/plain; charset=utf-8" (txt "Method not allowed")
        else if bool_decide (target = txt "/") then reply 200 "text/html; charset=utf-8" (html_ w)
        else if bool_decide (target = txt "/app.js") then reply 200 "text/javascript; charset=utf-8" (javascript_ w)
        else if bool_decide (target = txt "/health")
        then reply 200 "application/json" ([x7b; x22] ++ txt "network" ++ [x22; x3a; x22] ++ txt "ready" ++ [x22; x7d])
        else if bool_decide (target = txt "/api/profile") then load_profile session id a w
        else reply 404 "text/plain" (txt "Not found"))
  end.
Definition send (session : Z) (text : bytes) (a : Answers) (w : Web) : Web :=
  let ok := a_send a session text in emit (Sent session text ok :: if ok then [] else [Disconnected session]) w.
(** The room's part of the effects joins the server's. *)
Definition in_room (f : SignalRoom.Room → SignalRoom.Room) (w : Web) : Web :=
  let r := f (SignalRoom.mkRoom (SignalRoom.members_ (room_ w)) []) in
  emit (SignalRoom.done r) (with_room (SignalRoom.mkRoom (SignalRoom.members_ r) []) w).
(** [src/examples/WebServer/WebServer.cpp:91-96] {handle} *)
Definition forget_session (session : Z) (w : Web) : Web :=
  with_pending (filter (λ x : Z * (Z * Z), x.2.1 ≠ session) (pending_ w)) w.
(** [src/examples/WebServer/WebServer.cpp:76-97] [None] where it throws. *)
Definition handle (ev : EventQueue.Event) (payload : bytes) (a : Answers) (w : Web) : option Web :=
  let meta := EventQueue.peer ev in
  let session := session_id meta in
  let after_room :=
    if bool_decide (protocol meta = WebSocket)
    then match EventQueue.kind ev with
      | EventQueue.Open => in_room (SignalRoom.opened (a_send a) session) w
      | EventQueue.Message => in_room (SignalRoom.message (a_send a) session payload) w
      | EventQueue.Close => in_room (SignalRoom.closed session) w
      | _ => w
      end
    else if bool_decide (protocol meta = Tcp) && bool_decide (EventQueue.kind ev = EventQueue.Message)
    then send session (if bool_decide (payload = txt "PING") then txt "PONG" else payload) a w
    else w in
  match EventQueue.kind ev with
  | EventQueue.Overflow => None
  | EventQueue.Error => Some w
  | EventQueue.HttpRequest => route session payload a w
  | EventQueue.Close => Some (forget_session session after_room)
  | _ => Some after_room
  end.

(** What a database completion holds: whether the query succeeded, and the row when there
    is one; a cell of another type makes the reader throw. *)
Inductive Row := NoRow | Profile (id : Z) (name : bytes) (level : Z) | BadCell.
Record Completion := mkCompletion { c_request : Z; c_ok : bool; c_row : Row; c_accepted : bool }.
Definition quoted (s : string) : bytes := [x22] ++ txt s ++ [x22; x3a].
(** [src/examples/WebServer/WebServer.cpp:148-149] {poll_profiles} *)
Definition profile_body (id : Z) (name : bytes) (level : Z) : bytes :=
  [x7b] ++ quoted "id" ++ int_text id ++ [x2c] ++ quoted "name" ++ json_string name ++ [x2c] ++ quoted "level"
  ++ int_text level ++ [x7d].
(** [src/examples/WebServer/WebServer.cpp:137-151] {poll_profiles} One completion. *)
Definition complete_profile (c : Completion) (w : Web) : option Web :=
  match pending_ w !! c_request c with
  | None => Some w
  | Some (session, request) =>
      let w := with_pending (delete (c_request c) (pending_ w)) w in
      let reply status ctype body := respond session request status (txt ctype) body (c_accepted c) w in
      if negb (c_ok c) then Some (reply 500 "text/plain" (txt "Profile query failed"))
      else match c_row c with
      | NoRow => Some (reply 404 "text/plain" (txt "Profile not found"))
      | BadCell => None
      | Profile id name level => Some (reply 200 "application/json; charset=utf-8" (profile_body id name level))
      end
  end.
(** [src/examples/WebServer/WebServer.cpp:133-153] At most sixteen at a time. *)
Definition poll_profiles (cs : list Completion) (w : Web) : option Web :=
  foldl (λ w c, match w with Some w => complete_profile c w | None => None end) (Some w) (take 16 cs).
(** What a turn of the loop finds: an event, completions. *)
Inductive Turn := mkTurn (event : option (EventQueue.Event * bytes * Answers)) (cs : list Completion).
(** [src/examples/WebServer/WebServer.cpp:66-72] {run} One turn of the loop. *)
Definition turn (w : option Web) (t : Turn) : option Web :=
  match w, t with
  | None, _ => None
  | Some w, mkTurn event cs =>
      match (match event with Some (ev, payload, a) => handle ev payload a w | None => Some w end) with
      | Some w => poll_profiles cs w
      | None => None
      end
  end.
Definition new_web (html javascript : bytes) : Web := mkWeb (SignalRoom.mkRoom (0, 0) []) html javascript ∅ [].
Definition serve (html javascript : bytes) (ts : list Turn) : option Web := runs turn (Some (new_web html javascript)) ts.
