(* ===== verification/WebProperties.v ===== *)
(** WebProperties: the sample web server answers each request once, keeps the two peers
    of a call to themselves, and writes JSON no value can break out of. *)
From S2P Require Import Prelude.
From S2P Require Import Text.
From S2P Require Import NetTypes.
From S2P Require EventQueue.
From S2P Require Import HttpCodec.
From S2P Require Import WebServer.

(** ** JSON strings *)
(** A reference reader of the text of a JSON string, up to its closing quote: the value
    and what follows. Of [\u] it knows the escapes below 80 (hex), which are one byte. *)
Definition hex_val (b : byte) : option Z :=
  if (48 <=? byte_Z b) && (byte_Z b <=? 57) then Some (byte_Z b - 48)
  else if (97 <=? byte_Z b) && (byte_Z b <=? 102) then Some (byte_Z b - 87)
  else if (65 <=? byte_Z b) && (byte_Z b <=? 70) then Some (byte_Z b - 55) else None.
Definition escape_value (b : byte) : option byte :=
  match b with
  | x22 | x5c | x2f => Some b
  | x62 => Some x08 | x66 => Some x0c | x6e => Some x0a | x72 => Some x0d | x74 => Some x09
  | _ => None
  end.
Definition read_on (b : byte) (r : option (bytes * bytes)) : option (bytes * bytes) :=
  match r with Some (v, rest) => Some (b :: v, rest) | None => None end.
Fixpoint json_chars (l : bytes) : option (bytes * bytes) :=
  match l with
  | [] => None
  | x22 :: rest => Some ([], rest)
  | x5c :: l => match l with
      | x75 :: x30 :: x30 :: h1 :: h2 :: l => match hex_val h1, hex_val h2 with
          | Some a, Some b => if a <? 8 then read_on (Z_byte (16 * a + b)) (json_chars l) else None
          | _, _ => None
          end
      | b :: l => match escape_value b with Some c => read_on c (json_chars l) | None => None end
      | [] => None
      end
  | b :: l => if byte_Z b <? 32 then None else read_on b (json_chars l)
  end.
Definition json_read (l : bytes) : option (bytes * bytes) :=
  match l with x22 :: l => json_chars l | _ => None end.
Lemma json_chars_escape b l : json_chars (escape_byte b ++ l) = read_on b (json_chars l).
Proof. destruct b; reflexivity. Qed.
(** A value written as a JSON string is read back unchanged, and the reader stops at
    the quote the writer put: no value ends its string early or adds to the document. *)
Theorem json_string_roundtrip value rest : json_read (json_string value ++ rest) = Some (value, rest).
Proof.
  unfold json_string. rewrite <- !app_assoc. simpl. induction value as [|b value IH]; [done|].
  rewrite fmap_cons, concat_cons, <- app_assoc, json_chars_escape, IH. done.
Qed.

(** ** The signalling room *)
Module Calls.
Import SignalRoom.
(** What happens to the room: a peer's connection, a message of it, its end. *)
Inductive RoomOp := Opened (session : Z) | Said (session : Z) (payload : bytes) | Closed (session : Z).
Definition origin (op : RoomOp) : Z := match op with Opened s | Said s _ | Closed s => s end.
Definition apply_op (x : RoomOp * (Z → bytes → bool)) (r : Room) : Room :=
  match x.1 with
  | Opened s => opened x.2 s r
  | Said s payload => message x.2 s payload r
  | Closed s => closed s r
  end.
(** The steps of a run: each operation with what the room did. *)
Fixpoint trace (m : Z * Z) (ops : list (RoomOp * (Z → bytes → bool))) : list (RoomOp * list Effect) :=
  match ops with
  | [] => []
  | x :: ops => let r := apply_op x (mkRoom m []) in (x.1, done r) :: trace (members_ r) ops
  end.
(** Who got a signal, and on whose message. *)
Definition is_signal (text : bytes) : bool := bool_decide (take 7 text = signal_prefix).
Definition signal_of (op : RoomOp) (e : Effect) : option (Z * Z) :=
  match e with Sent b text _ => if is_signal text then Some (origin op, b) else None | _ => None end.
Definition signals (t : list (RoomOp * list Effect)) : list (Z * Z) := t ≫= λ x, omap (signal_of x.1) x.2.
Definition arrivals (ops : list (RoomOp * (Z → bytes → bool))) : list Z :=
  omap (λ x, match x.1 with Opened s => Some s | _ => None end) ops.

Record room_inv (seen : list Z) (links : list (Z * Z)) (m : Z * Z) : Prop := {
  ri_first : m.1 = 0 → m.2 = 0;
  ri_seen1 : m.1 ≠ 0 → m.1 ∈ seen;
  ri_seen2 : m.2 ≠ 0 → m.2 ∈ seen;
  ri_distinct : m.1 = m.2 → m.1 = 0;
  ri_links a b : (a, b) ∈ links → a ∈ seen ∧ b ∈ seen ∧ a ≠ b ∧ (m = (a, b) ∨ m = (b, a) ∨ (m.1 ≠ a ∧ m.2 ≠ a ∧ m.1 ≠ b ∧ m.2 ≠ b));
  ri_one a b c d : (a, b) ∈ links → (c, d) ∈ links → (a = c ∨ a = d ∨ b = c ∨ b = d) → (a = c ∧ b = d) ∨ (a = d ∧ b = c);
}.

Lemma inv_empty seen links m : 0 ∉ seen → room_inv seen links m → room_inv seen links (0, 0).
Proof.
  intros H0 [_ _ _ _ Hl H1]. split; simpl; try done. intros a b Hab. destruct (Hl a b Hab) as (Ha & Hb & Hne & _).
  split; [done|]. split; [done|]. split; [done|]. right. right. split_and!; intros <-; auto.
Qed.
Lemma inv_link seen links m a b : 0 ∉ seen → room_inv seen links m → (m = (a, b) ∨ m = (b, a)) → a ≠ 0 → b ≠ 0 →
  room_inv seen (links ++ [(a, b)]) m.
Proof.
  intros H0 [Hf H1 H2 Hd Hl Ho] Hm Ha Hb. assert (a ≠ b) as Hne by (destruct Hm as [-> | ->]; simpl in *; intros ->; auto).
  assert (∀ c d, (c, d) ∈ links → (a = c ∨ a = d ∨ b = c ∨ b = d) → (a = c ∧ b = d) ∨ (a = d ∧ b = c)) as Hnew.
  { intros c d Hcd Hs. destruct (Hl c d Hcd) as (_ & _ & _ & [E|[E|E]]); destruct Hm as [-> | ->]; simpl in *;
      destruct Hs as [?|[?|[?|?]]]; simplify_eq; auto; naive_solver. }
  split; try done.
  - intros a' b' [Hin|Hin]%elem_of_app; [by apply Hl|]. apply list_elem_of_singleton in Hin. injection Hin as -> ->.
    destruct Hm as [-> | ->]; simpl in *; split_and!; auto.
  - intros a' b' c' d' [Hin|Hin]%elem_of_app [Hin'|Hin']%elem_of_app Hs; try apply list_elem_of_singleton in Hin;
      try apply list_elem_of_singleton in Hin'; simplify_eq; [by apply Ho| |by apply Hnew|auto].
    destruct (Hnew a' b' Hin) as [[-> ->]|[-> ->]]; [naive_solver|auto..].
Qed.
Lemma inv_enter seen links m s : 0 ∉ seen → s ≠ 0 → s ∉ seen → room_inv seen links m → (m.1 = 0 ∨ m.2 = 0) →
  room_inv (seen ++ [s]) links (if m.1 =? 0 then (s, m.2) else (m.1, s)).
Proof.
  intros H0 Hs Hn [Hf H1 H2 Hd Hl Ho] Hroom. destruct m as [x y]; simpl in *.
  destruct (Z.eqb_spec x 0) as [->|Hx]; [rewrite (Hf eq_refl) in *|destruct Hroom as [?| ->]; [done|]].
  - split; simpl; try done.
    + intros _. apply elem_of_app. right. apply list_elem_of_here.
    + intros a b Hab. destruct (Hl a b Hab) as (Ha & Hb & Hne & _).
      assert (a ≠ s ∧ b ≠ s ∧ a ≠ 0 ∧ b ≠ 0) by (split_and!; intros ->; auto). rewrite !elem_of_app. naive_solver.
  - split; simpl; try done.
    + intros _. apply elem_of_app. auto.
    + intros _. apply elem_of_app. right. apply list_elem_of_here.
    + intros ->. by destruct Hn; auto.
    + intros a b Hab. destruct (Hl a b Hab) as (Ha & Hb & Hne & Hm).
      assert (a ≠ s ∧ b ≠ s ∧ a ≠ 0 ∧ b ≠ 0) by (split_and!; intros ->; auto). rewrite !elem_of_app.
      split; [auto|]. split; [auto|]. split; [done|]. right. right. destruct Hm as [E|[E|?]]; naive_solver.
Qed.
Lemma room_inv_more seen links m s : room_inv seen links m → room_inv (seen ++ [s]) links m.
Proof.
  intros [Hf H1 H2 Hd Hl Ho]. split; try done; try (intros; apply elem_of_app; auto).
  intros a b Hab. destruct (Hl a b Hab) as (Ha & Hb & ?). rewrite !elem_of_app. auto.
Qed.

(** What each operation makes of the members, and the signals it passes on. *)
Definition quiet (l : list Effect) : Prop := ∀ op, omap (signal_of op) l = [].
Lemma quiet_app l l' : quiet l → quiet l' → quiet (l ++ l').
Proof. intros H H' op. by rewrite omap_app, H, H'. Qed.
Lemma quiet_send f s text r : is_signal text = false → ∃ l, send f s text r = (f s text, note l r) ∧ quiet l.
Proof. intros Ht. eexists. split; [done|]. intros op. simpl. rewrite Ht. by destruct (f s text). Qed.
Lemma quiet_closed s m l : ∃ l' m', closed s (mkRoom m l) = mkRoom m' (l ++ l') ∧ quiet l' ∧ (m' = m ∨ m' = (0, 0)).
Proof.
  unfold closed. destruct (negb _); [exists [], m; rewrite app_nil_r; split_and!; [done|done|auto]|].
  destruct (_ =? 0); [exists []; eexists; rewrite app_nil_r|do 2 eexists]; split_and!; [done|done|by right|done|done|by right].
Qed.
Definition entered (s : Z) (m : Z * Z) : Z * Z := if m.1 =? 0 then (s, m.2) else (m.1, s).
Lemma opened_case f s m : ∃ l m', opened f s (mkRoom m []) = mkRoom m' l ∧ quiet l ∧
  (m' = m ∨ m' = (0, 0) ∨ ((m.1 = 0 ∨ m.2 = 0) ∧ m' = entered s m)).
Proof.
  unfold opened. cbn [members_]. destruct (negb _ && negb _) eqn:Hfull; [do 2 eexists; split_and!; [done|done|auto]|].
  assert (m.1 = 0 ∨ m.2 = 0) as Hroom by (destruct (Z.eqb_spec m.1 0); [auto|]; destruct (Z.eqb_spec m.2 0); [auto|done]).
  clear Hfull.
  change (with_members _ _) with (mkRoom (entered s m) []).
  destruct (quiet_send f s (txt "WAIT") (mkRoom (entered s m) []) eq_refl) as (l & -> & Hl).
  unfold note. cbn [members_ done app]. destruct (f s (txt "WAIT")); cbn [negb].
  - destruct (negb _ && negb _); [|exists l, (entered s m); split_and!; [done|done|auto]].
    destruct (quiet_send f (entered s m).1 (txt "OFFER") (mkRoom (entered s m) l) eq_refl) as (l2 & -> & Hl2).
    unfold note. cbn [members_ done app]. destruct (f _ (txt "OFFER")).
    + exists (l ++ l2), (entered s m). split_and!; [done|by apply quiet_app|auto].
    + destruct (quiet_closed (entered s m).1 (entered s m) (l ++ l2)) as (l3 & m' & -> & H3 & Hm). exists ((l ++ l2) ++ l3), m'.
      split_and!; [done|by repeat apply quiet_app|]. destruct Hm as [-> | ->]; auto.
  - destruct (quiet_closed s (entered s m) l) as (l3 & m' & -> & H3 & Hm). exists (l ++ l3), m'.
    split_and!; [done|by apply quiet_app|]. destruct Hm as [-> | ->]; auto.
Qed.
(** A message either passes nothing on, or itself to the sender's partner. *)
Lemma message_case f s payload m : ∃ l m', message f s payload (mkRoom m []) = mkRoom m' l ∧ (m' = m ∨ m' = (0, 0)) ∧
  (quiet l ∨ ∃ b l', l = Sent b payload (f b payload) :: l' ∧ quiet l' ∧ is_signal payload = true ∧ 7 < zlen payload ≤ 65536 ∧
     b ≠ 0 ∧ (m = (s, b) ∨ m = (b, s))).
Proof.
  unfold message, is_member. cbn [members_]. destruct (_ || _) eqn:Hmem; cbn [negb].
  2: { do 2 eexists. split_and!; [done|auto|by left]. }
  case_bool_decide.
  { destruct (quiet_send f s (txt "PONG") (mkRoom m []) eq_refl) as (l & -> & Hl). unfold note. cbn [members_ done app].
    destruct (f s (txt "PONG")); [exists l, m; split_and!; [done|auto|by left]|].
    destruct (quiet_closed s m l) as (l3 & m' & -> & H3 & Hm). exists (l ++ l3), m'. split_and!; [done|done|left; by apply quiet_app]. }
  destruct (_ || _ || _) eqn:Hbad.
  { destruct (quiet_closed s m [Disconnected s]) as (l3 & m' & H3 & Hq & Hm). unfold disconnect, note. cbn [members_ done app].
    rewrite H3. exists (Disconnected s :: l3), m'. split_and!; [done|done|left; by apply (quiet_app [_])]. }
  assert (m = (s, partner s (mkRoom m [])) ∨ m = (partner s (mkRoom m []), s)) as Hpair.
  { unfold partner. cbn [members_]. destruct m as [x y]. simpl in *. destruct (Z.eqb_spec x s) as [->|]; [by left|]. bprop.
    destruct Hmem; bprop; [congruence|]. subst. by right. }
  set (b := partner s (mkRoom m [])) in *.
  destruct (Z.eqb_spec b 0) as [Hz|Hz]; [exists [], m; split_and!; [done|auto|by left]|].
  assert (is_signal payload = true ∧ 7 < zlen payload ≤ 65536) as [Hsig Hlen].
  { unfold is_signal. destruct (bool_decide (take 7 payload = signal_prefix)); simpl in Hbad; [|by rewrite orb_true_r in Hbad].
    split; [done|]. bprop. lia. }
  unfold send, note. cbn [members_ done app]. destruct (f b payload) eqn:Hf.
  - do 2 eexists. split; [done|]. split; [auto|]. right. exists b, []. rewrite Hf. split_and!; done || lia.
  - destruct (quiet_closed b m [Sent b payload false; Disconnected b; Disconnected b]) as (l3 & m' & H3 & Hq & Hm).
    unfold disconnect, note. cbn [members_ done app]. rewrite H3. do 2 eexists. split; [done|]. split; [done|]. right.
    exists b, (Disconnected b :: Disconnected b :: l3). rewrite Hf. split_and!; try done; lia.
Qed.
(** ** Runs *)
Lemma quiet_sent l b text ok : quiet l → Sent b text ok ∈ l → is_signal text = false.
Proof.
  intros Hq Hin. destruct (is_signal text) eqn:E; [exfalso|done]. apply (not_elem_of_nil (0, b)). rewrite <- (Hq (Opened 0)).
  apply list_elem_of_omap. exists (Sent b text ok). split; [done|]. simpl. by rewrite E.
Qed.
(** What a step passes on is the payload of its own message. *)
Definition passes (x : RoomOp * list Effect) : Prop := ∀ b text ok, Sent b text ok ∈ x.2 → is_signal text = true →
  x.1 = Said (origin x.1) text ∧ 7 < zlen text ≤ 65536.
Lemma quiet_passes op l : quiet l → passes (op, l).
Proof. intros Hq b text ok Hin Hs. by rewrite (quiet_sent _ _ _ _ Hq Hin) in Hs. Qed.
Lemma op_inv seen links m x : 0 ∉ seen → room_inv seen links m → origin x.1 ≠ 0 → (∀ s, x.1 = Opened s → s ∉ seen) →
  let r := apply_op x (mkRoom m []) in
  room_inv (seen ++ arrivals [x]) (links ++ omap (signal_of x.1) (done r)) (members_ r) ∧ passes (x.1, done r).
Proof.
  intros H0 Hi Hs Hx. destruct x as [[s|s payload|s] f]; unfold apply_op; cbn [fst snd] in *;
    (* nobody but an opened peer arrives *)
    try (replace (seen ++ arrivals _) with seen by (symmetry; apply app_nil_r)).
  - destruct (opened_case f s m) as (l & m' & -> & Hq & Hm). cbn [members_ done].
    rewrite (Hq (Opened s)), app_nil_r. split; [|by apply quiet_passes].
    destruct Hm as [->|[->|[Hroom ->]]]; [by apply room_inv_more|apply room_inv_more; by eapply inv_empty|by apply inv_enter; auto].
  - destruct (message_case f s payload m) as (l & m' & -> & Hm & Hl). cbn [members_ done].
    destruct Hl as [Hq|(b & l' & -> & Hq & Hsig & Hlen & Hb & Hpair)].
    + rewrite (Hq (Said s payload)), app_nil_r. split; [|by apply quiet_passes].
      destruct Hm as [-> | ->]; [done|by eapply inv_empty].
    + assert (omap (signal_of (Said s payload)) (Sent b payload (f b payload) :: l') = [(s, b)]) as ->.
      { change (Sent b payload (f b payload) :: l') with ([Sent b payload (f b payload)] ++ l').
        rewrite omap_app, Hq. cbn. by rewrite Hsig. }
      split; [|intros b' text ok [Hin|Hin]%elem_of_cons Hsg; [by injection Hin as -> -> ->|]].
      * assert (room_inv seen (links ++ [(s, b)]) m) by by apply inv_link.
        destruct Hm as [-> | ->]; [done|by eapply inv_empty].
      * by rewrite (quiet_sent _ _ _ _ Hq Hin) in Hsg.
  - destruct (quiet_closed s m []) as (l & m' & -> & Hq & Hm). cbn [members_ done app].
    rewrite (Hq (Closed s)), app_nil_r. split; [|by apply quiet_passes]. destruct Hm as [-> | ->]; [done|by eapply inv_empty].
Qed.
Lemma trace_inv ops : ∀ seen links m, 0 ∉ seen → room_inv seen links m → NoDup (seen ++ arrivals ops) →
  Forall (λ x, origin x.1 ≠ 0) ops → ∃ m', room_inv (seen ++ arrivals ops) (links ++ signals (trace m ops)) m' ∧
  Forall passes (trace m ops).
Proof.
  induction ops as [|x ops IH]; intros seen links m H0 Hi Hnd Ho.
  { exists m. split; [|done]. by rewrite !app_nil_r. }
  apply Forall_cons in Ho as [Hx Ho].
  assert (arrivals (x :: ops) = arrivals [x] ++ arrivals ops) as E by (by destruct x as [[] ?]).
  rewrite E, app_assoc in Hnd.
  destruct (op_inv seen links m x H0 Hi Hx) as [Hi' Hp].
  { intros s Hs. apply NoDup_app in Hnd as (Hnd & _). apply NoDup_app in Hnd as (_ & Hn & _). intros Hin. apply (Hn s Hin).
    destruct x; simpl in *; subst. apply list_elem_of_here. }
  assert (0 ∉ seen ++ arrivals [x]) as H0'.
  { intros [?|Hin]%elem_of_app; [done|]. destruct x as [[s|s ?|s] ?]; try by apply elem_of_nil in Hin.
    by apply list_elem_of_singleton in Hin as <-. }
  destruct (IH _ _ _ H0' Hi' Hnd Ho) as (m' & Hm' & Hf). exists m'. split.
  - rewrite E, app_assoc. cbn [trace]. unfold signals in *. rewrite bind_cons, app_assoc. exact Hm'.
  - by apply Forall_cons.
Qed.
Lemma inv_new : room_inv [] [] (0, 0).
Proof. split; try done; intros * H; by apply elem_of_nil in H. Qed.
End Calls.
Import Calls.
(** C26: However peers come, talk and go, and whoever can be reached, as long as no session
    number is used twice, a signal goes from a peer to its partner: two that have a peer in
    common have both in common, so no third party is brought into a call or hears of it.
    And what is passed on is the sender's own message, of the size a signal may have. *)
Theorem room_one_partner ops : NoDup (arrivals ops) → Forall (λ x, origin x.1 ≠ 0) ops →
  let t := trace (0, 0) ops in
  (∀ a b, (a, b) ∈ signals t → a ≠ b ∧ a ∈ arrivals ops ∧ b ∈ arrivals ops ∧
    ∀ c d, (c, d) ∈ signals t → (a = c ∨ a = d ∨ b = c ∨ b = d) → (a = c ∧ b = d) ∨ (a = d ∧ b = c)) ∧
  ∀ op done b text ok, (op, done) ∈ t → Sent b text ok ∈ done → is_signal text = true →
    op = Said (origin op) text ∧ 7 < zlen text ≤ 65536.
Proof.
  intros Hnd Ho. destruct (trace_inv ops [] [] (0, 0) (not_elem_of_nil 0) inv_new Hnd Ho) as (m & Hi & Hp). split.
  - intros a b Hab. destruct (ri_links _ _ _ Hi a b Hab) as (Ha & Hb & Hne & _). split_and!; try done.
    intros c d Hcd. by apply (ri_one _ _ _ Hi).
  - intros op l b text ok Hin Hs Hsig. rewrite Forall_forall in Hp. by apply (Hp _ Hin b text ok).
Qed.

(** ** Requests and answers *)
Section Answers.
Context (k : Z * Z).
Definition one (P : Prop) {_ : Decision P} : nat := if decide P then 1 else 0.
Definition answer_of (e : Effect) : option (Z * Z) := match e with Responded s r _ _ _ _ => Some (s, r) | _ => None end.
Definition responses (l : list Effect) : nat := length (filter (λ e, answer_of e = Some k) l).
(** How many requests wait for the database. *)
Definition waiting (p : gmap Z (Z * Z)) : nat := size (filter (λ x : Z * (Z * Z), x.2 = k) p).
Definition request_of (t : Turn) : option (Z * Z) :=
  match t with
  | mkTurn (Some (ev, payload, _)) _ =>
      match EventQueue.kind ev with
      | EventQueue.HttpRequest => (λ r, (session_id (EventQueue.peer ev), request_id r)) <$> decode_http_request (Some payload)
      | _ => None
      end
  | _ => None
  end.
Definition requests (ts : list Turn) : nat := length (filter (λ t, request_of t = Some k) ts).
(** The account of a request: what was answered, and what still waits. *)
Definition account (w : Web) : nat := responses (effects w) + waiting (pending_ w).

Lemma responses_app l l' : responses (l ++ l') = (responses l + responses l')%nat.
Proof. unfold responses. by rewrite filter_app, length_app. Qed.
Lemma waiting_insert q v p : p !! q = None → waiting (<[q := v]> p) = (one (v = k) + waiting p)%nat.
Proof.
  intros Hq. unfold waiting, one. case_decide as E.
  - rewrite map_filter_insert_True by done. by rewrite map_size_insert_None by (apply map_lookup_filter_None; auto).
  - by rewrite map_filter_insert_False, delete_id.
Qed.
Lemma waiting_delete q v p : p !! q = Some v → (one (v = k) + waiting (delete q p) = waiting p)%nat.
Proof. intros Hq. rewrite <- (insert_delete_id p q v Hq) at 2. by rewrite waiting_insert by apply lookup_delete_eq. Qed.
Lemma account_respond s r status ctype body ok w :
  account (respond s r status ctype body ok w) = (one ((s, r) = k) + account w)%nat.
Proof.
  unfold account, respond. cbn [effects emit pending_]. rewrite responses_app. unfold responses. rewrite filter_cons. cbn [answer_of].
  assert (length (filter (λ e, answer_of e = Some k) (if ok then [] else [Disconnected s])) = 0%nat) as E by by destruct ok.
  unfold one. repeat case_decide; try congruence; simpl; rewrite E; lia.
Qed.

Definition closes (t : Turn) : Prop :=
  match t with mkTurn (Some (ev, _, _)) _ => EventQueue.kind ev = EventQueue.Close ∧ session_id (EventQueue.peer ev) = k.1 | _ => False end.
(** Query numbers are fresh. *)
Record tidy (used : list Z) (w : Web) : Prop := {
  ti_zero : pending_ w !! 0 = None;
  ti_used q : is_Some (pending_ w !! q) → q ∈ used;
}.
Definition query_of (t : Turn) : list Z :=
  match t with mkTurn (Some (ev, _, a)) _ => match a_query a with Some q => [q] | None => [] end | _ => [] end.
(** What the server cannot go on from. *)
Definition sound_event (ev : EventQueue.Event) (payload : bytes) : Prop :=
  EventQueue.kind ev ≠ EventQueue.Overflow ∧
  (EventQueue.kind ev = EventQueue.HttpRequest → is_Some (decode_http_request (Some payload))).
Definition sound (t : Turn) : Prop :=
  match t with mkTurn event cs => match event with Some (ev, payload, _) => sound_event ev payload | None => True end ∧
    Forall (λ c, c_row c ≠ BadCell) cs end.

Lemma account_emit l w : responses l = 0%nat → account (emit l w) = account w.
Proof. intros Hl. unfold account. cbn [effects emit pending_]. rewrite responses_app, Hl. lia. Qed.
Lemma tidy_more used l w : tidy used w → tidy (used ++ l) w.
Proof. intros [H0 Hu]. split; [done|]. intros q Hq. apply elem_of_app. auto. Qed.

Definition queried (a : Answers) : list Z := match a_query a with Some q => [q] | None => [] end.
(** A request goes on the account, whether answered at once or waiting. *)
Definition taken (used : list Z) (key : Z * Z) (a : Answers) (w w' : Web) : Prop :=
  account w' = (one (key = k) + account w)%nat ∧ tidy (used ++ queried a) w'.
Lemma load_account used s r a w : tidy used w → (∀ q, a_query a = Some q → q ≠ 0 ∧ q ∉ used) →
  taken used (s, r) a w (load_profile s r a w).
Proof.
  intros Ht Hq. pose proof (ti_zero _ _ Ht) as H0. unfold taken, load_profile. rewrite H0. unfold queried. destruct (a_query a) as [q|] eqn:Ea.
  - destruct (Hq q eq_refl) as [Hne Hn]. rewrite lookup_insert_eq. cbn [fst snd]. rewrite delete_insert_id by done.
    destruct (pending_ w !! q) as [v|] eqn:Eq; [by destruct Hn; apply (ti_used _ _ Ht); eauto|]. split.
    + unfold account. cbn [with_pending effects pending_]. rewrite waiting_insert by done. lia.
    + split; cbn [with_pending pending_]; [by rewrite lookup_insert_ne|].
      intros q' [v [[<- _]|[_ Hv]]%lookup_insert_Some]; apply elem_of_app; [right; apply list_elem_of_here|].
      left. apply (ti_used _ _ Ht). eauto.
  - rewrite app_nil_r, delete_id by done. split; [|split; [done|apply (ti_used _ _ Ht)]].
    rewrite account_respond. unfold account, waiting. simpl. done.
Qed.
Lemma taken_if used key a w (b : bool) w1 w2 : taken used key a w w1 → taken used key a w w2 → taken used key a w (if b then w1 else w2).
Proof. by destruct b. Qed.
Lemma route_account used s payload a w req : tidy used w → (∀ q, a_query a = Some q → q ≠ 0 ∧ q ∉ used) →
  decode_http_request (Some payload) = Some req →
  ∃ w', route s payload a w = Some w' ∧ taken used (s, request_id req) a w w'.
Proof.
  intros Ht Hq Hr. unfold route. rewrite Hr. eexists. split; [done|].
  assert (∀ status ctype body, taken used (s, request_id req) a w (respond s (request_id req) status ctype body (a_respond a) w)) as Hresp.
  { intros. split; [apply account_respond|]. apply tidy_more. destruct Ht. by split. }
  repeat (apply taken_if; [apply Hresp|]). apply taken_if; [by apply load_account|apply Hresp].
Qed.
(** What the room does answers no request. *)
Definition mute (l : list Effect) : Prop := Forall (λ e, answer_of e = None) l.
Lemma mute_responses l : mute l → responses l = 0%nat.
Proof. unfold responses, mute. intros H. induction H as [|e l He Hl IH]; [done|]. rewrite filter_cons, He. by case_decide. Qed.
Lemma mute_send f s text r : mute (SignalRoom.done r) → mute (SignalRoom.done (SignalRoom.send f s text r).2).
Proof. intros H. simpl. apply Forall_app. split; [done|]. constructor; [done|]. destruct (f s text); by repeat constructor. Qed.
Lemma mute_disconnect s r : mute (SignalRoom.done r) → mute (SignalRoom.done (SignalRoom.disconnect s r)).
Proof. intros H. simpl. apply Forall_app. split; [done|]. by repeat constructor. Qed.
Lemma mute_closed s r : mute (SignalRoom.done r) → mute (SignalRoom.done (SignalRoom.closed s r)).
Proof. intros H. unfold SignalRoom.closed. repeat case_match; try done. by apply mute_disconnect. Qed.
Lemma mute_opened f s r : mute (SignalRoom.done r) → mute (SignalRoom.done (SignalRoom.opened f s r)).
Proof.
  intros H. unfold SignalRoom.opened. case_match; [by apply mute_disconnect|].
  set (r1 := SignalRoom.with_members _ r). pose proof (mute_send f s (txt "WAIT") r1 H) as H1.
  destruct (SignalRoom.send f s (txt "WAIT") r1) as [ok r2]. case_match; [by apply mute_closed|]. case_match; [|done].
  pose proof (mute_send f (SignalRoom.members_ r2).1 (txt "OFFER") r2 H1) as Hoff.
  destruct (SignalRoom.send _ _ _ r2) as [ok' r3]. destruct ok'; [done|by apply mute_closed].
Qed.
Lemma mute_message f s payload r : mute (SignalRoom.done r) → mute (SignalRoom.done (SignalRoom.message f s payload r)).
Proof.
  intros H. unfold SignalRoom.message. case_match; [by apply mute_disconnect|]. case_match; [|case_match].
  - pose proof (mute_send f s (txt "PONG") r H) as Hpong. destruct (SignalRoom.send _ _ _ r) as [[] r2]; [done|by apply mute_closed].
  - by apply mute_closed, mute_disconnect.
  - case_match; [done|]. pose proof (mute_send f (SignalRoom.partner s r) payload r H) as Hpass.
    destruct (SignalRoom.send _ _ _ r) as [[] r2]; [done|by apply mute_closed, mute_disconnect].
Qed.
(** What a step that answers no request leaves. *)
Definition same_account (w w' : Web) : Prop := account w' = account w ∧ pending_ w' = pending_ w.
Lemma same_in_room f w : (∀ r, mute (SignalRoom.done r) → mute (SignalRoom.done (f r))) → same_account w (in_room f w).
Proof.
  intros Hf. split; [|done]. unfold in_room. rewrite account_emit; [done|]. apply mute_responses, Hf. constructor.
Qed.
Lemma waiting_forget s p : (waiting (filter (λ x : Z * (Z * Z), x.2.1 ≠ s) p) ≤ waiting p)%nat ∧
  (s ≠ k.1 → waiting (filter (λ x : Z * (Z * Z), x.2.1 ≠ s) p) = waiting p).
Proof.
  unfold waiting. rewrite map_filter_filter. split.
  - apply map_subseteq_size, map_filter_strong_subseteq_ext. naive_solver.
  - intros Hs. f_equal. apply map_filter_ext. intros q x _. naive_solver.
Qed.
Lemma tidy_same used w w' : same_account w w' → tidy used w → tidy used w'.
Proof. intros [_ E] [H0 Hu]. split; by rewrite E. Qed.
Lemma tidy_forget used s w : tidy used w → tidy used (forget_session s w).
Proof.
  intros [H0 Hu]. split; cbn [forget_session with_pending pending_]; [by apply map_lookup_filter_None; left|].
  intros q [v [Hv _]%map_lookup_filter_Some]. apply Hu. eauto.
Qed.
(** The requests of one event. *)
Definition asked (t : Turn) : nat := one (request_of t = Some k).
Lemma handle_account used ev payload a w cs : tidy used w → (∀ q, a_query a = Some q → q ≠ 0 ∧ q ∉ used) → sound_event ev payload →
  let t := mkTurn (Some (ev, payload, a)) cs in
  ∃ w', handle ev payload a w = Some w' ∧ tidy (used ++ queried a) w' ∧ (account w' ≤ asked t + account w)%nat ∧
    (¬ closes t → account w' = (asked t + account w)%nat).
Proof.
  intros Ht Hq [Hov Hreq]. unfold handle. set (after := if _ : bool then _ else _).
  assert (same_account w after) as [Hacc Hpend].
  { subst after. case_bool_decide; [destruct (EventQueue.kind ev); try done|].
    - apply same_in_room. intros r. apply mute_opened.
    - apply same_in_room. intros r. apply mute_message.
    - apply same_in_room. intros r. apply mute_closed.
    - case_match; [|done]. split; [|done]. unfold send. apply account_emit, mute_responses. constructor; [done|].
      destruct (a_send _ _ _); by repeat constructor. }
  assert (tidy (used ++ queried a) after) as Hta by by apply tidy_more, (tidy_same used w).
  unfold asked, closes, request_of. destruct (EventQueue.kind ev) eqn:Hk; try (exists after; split_and!; [done|done|..]; intros; unfold one; case_decide; try done; lia).
  - exists (forget_session (session_id (EventQueue.peer ev)) after). split; [done|]. split; [by apply tidy_forget|].
    destruct (waiting_forget (session_id (EventQueue.peer ev)) (pending_ after)) as [Hle Heq].
    unfold account in *. cbn [forget_session with_pending pending_ effects].
    split; [unfold one; case_decide; [done|lia]|]. intros Hn. rewrite Heq by naive_solver.
    unfold one. case_decide; [done|lia].
  - exists w. split; [done|]. split; [by apply tidy_more|]. unfold one. case_decide; [done|]. lia.
  - destruct (Hreq eq_refl) as [req Hr]. rewrite Hr. simpl.
    destruct (route_account used (session_id (EventQueue.peer ev)) payload a w req Ht Hq Hr) as (w' & Hw & Hacc' & Ht').
    exists w'. split; [done|]. split; [done|]. rewrite Hacc'.
    assert (one ((session_id (EventQueue.peer ev), request_id req) = k) = one (Some (session_id (EventQueue.peer ev), request_id req) = Some k)) as ->.
    { unfold one. repeat case_decide; congruence. }
    lia.
Qed.
Lemma complete_account used c w : tidy used w → c_row c ≠ BadCell → ∃ w', complete_profile c w = Some w' ∧ tidy used w' ∧ account w' = account w.
Proof.
  intros Ht Hc. unfold complete_profile. destruct (pending_ w !! c_request c) as [[s r]|] eqn:E; [|eauto].
  assert (∀ status ctype body ok, let w' := respond s r status ctype body ok (with_pending (delete (c_request c) (pending_ w)) w) in
    tidy used w' ∧ account w' = account w) as Hr.
  { intros. split.
    - destruct Ht as [H0 Hu]. subst w'. split; cbn [respond emit with_pending pending_].
      + rewrite lookup_delete_None. auto.
      + intros q [v [_ Hv]%lookup_delete_Some]. eauto.
    - subst w'. rewrite account_respond. unfold account. cbn [with_pending pending_ effects].
      pose proof (waiting_delete _ _ _ E). lia. }
  destruct (c_ok c); cbn [negb]; [|eauto]. destruct (c_row c); [eauto|eauto|done].
Qed.
Lemma poll_account used cs w : tidy used w → Forall (λ c, c_row c ≠ BadCell) cs →
  ∃ w', poll_profiles cs w = Some w' ∧ tidy used w' ∧ account w' = account w.
Proof.
  intros Ht Hcs. unfold poll_profiles. apply (Forall_take _ 16) in Hcs. revert w Ht.
  induction Hcs as [|c l Hc Hl IH]; intros w Ht; [by exists w|]. simpl.
  destruct (complete_account used c w Ht Hc) as (w1 & -> & Ht1 & H1). destruct (IH w1 Ht1) as (w2 & H2 & Ht2 & E).
  exists w2. split_and!; [done|done|congruence].
Qed.
Lemma turn_account used t w : tidy used w → (∀ q, q ∈ query_of t → q ≠ 0 ∧ q ∉ used) → sound t →
  ∃ w', turn (Some w) t = Some w' ∧ tidy (used ++ query_of t) w' ∧ (account w' ≤ asked t + account w)%nat ∧
    (¬ closes t → account w' = (asked t + account w)%nat).
Proof.
  intros Ht Hq Hs. destruct t as [[[[ev payload] a]|] cs]; destruct Hs as [He Hcs]; cbn [turn].
  - destruct (handle_account used ev payload a w cs Ht) as (w1 & -> & Ht1 & Hle & Heq); [|done|].
    { intros q Ha. apply Hq. simpl. rewrite Ha. apply list_elem_of_here. }
    destruct (poll_account _ cs w1 Ht1 Hcs) as (w2 & -> & Ht2 & E). exists w2. split_and!; [done|done|lia|].
    intros Hc. rewrite E. by apply Heq.
  - destruct (poll_account _ cs w Ht Hcs) as (w2 & -> & Ht2 & E). exists w2. rewrite E. split_and!; [done|by apply tidy_more| |];
      intros; unfold asked, one; by case_decide.
Qed.
Lemma run_account ts : ∀ used w, tidy used w → NoDup (used ++ (ts ≫= query_of)) → 0 ∉ ts ≫= query_of → Forall sound ts →
  ∃ w', runs turn (Some w) ts = Some w' ∧ (account w' ≤ requests ts + account w)%nat ∧
    (Forall (λ t, ¬ closes t) ts → account w' = (requests ts + account w)%nat).
Proof.
  induction ts as [|t ts IH]; intros used w Ht Hnd H0 Hs; [by exists w|].
  apply Forall_cons in Hs as [Hst Hs]. rewrite bind_cons in Hnd, H0. rewrite app_assoc in Hnd.
  destruct (turn_account used t w Ht) as (w1 & H1 & Ht1 & Hle & Heq); [|done|].
  { intros q Hq. apply NoDup_app in Hnd as (Hnd & _). apply NoDup_app in Hnd as (_ & Hn & _). split.
    - intros ->. apply H0, elem_of_app. auto.
    - intros Hu. by apply (Hn q). }
  destruct (IH _ w1 Ht1 Hnd) as (w2 & H2 & Hle2 & Heq2); [intros Hin; apply H0, elem_of_app; auto|done|].
  assert (requests (t :: ts) = (asked t + requests ts)%nat) as Hr.
  { unfold requests, asked, one. rewrite filter_cons. by case_decide. }
  exists w2. rewrite Hr. split; [|split; [lia|]].
  - rewrite <- H2, <- H1. reflexivity.
  - intros [Hc Hcs]%Forall_cons. rewrite Heq2, Heq by done. lia.
Qed.
End Answers.
(** C27: The web server keeps the account of every request. While it gets no overflow, no
    undecodable request and no row of another shape, it goes on, and for each session and
    request number it has answered, or still has waiting for the database, no more requests
    than came in: none is answered twice. As long as the session has not been closed it is
    exactly as many: none is lost, whatever the database accepts, refuses or fails, in
    whatever order it completes. *)
Theorem web_answers_once html javascript ts : Forall sound ts → NoDup (ts ≫= query_of) → 0 ∉ ts ≫= query_of →
  ∃ w, serve html javascript ts = Some w ∧
  ∀ k, (responses k (effects w) + waiting k (pending_ w) ≤ requests k ts)%nat ∧
    (Forall (λ t, ¬ closes k t) ts → (responses k (effects w) + waiting k (pending_ w))%nat = requests k ts).
Proof.
  intros Hs Hnd H0. assert (tidy [] (new_web html javascript)) as Ht.
  { split; [done|]. intros q [v Hv]. done. }
  assert (∀ k, account k (new_web html javascript) = 0%nat) as Hz by done.
  destruct (run_account (0, 0) ts [] _ Ht Hnd H0 Hs) as (w & Hw & _). exists w. split; [done|]. intros k.
  destruct (run_account k ts [] _ Ht Hnd H0 Hs) as (w' & Hw' & Hle & Heq). rewrite Hw in Hw'. injection Hw' as <-.
  rewrite Hz, Nat.add_0_r in *. done.
Qed.

(** ** At work *)
Module Demo.
Definition all : Z → bytes → bool := λ _ _, true.
Definition offer : bytes := txt "SIGNAL" ++ [x0a] ++ txt "v=0".
Definition call : list (RoomOp * (Z → bytes → bool)) :=
  [(Opened 7, all); (Opened 8, all); (Opened 9, all); (Said 7 offer, all); (Said 9 offer, all); (Closed 8, all);
   (Opened 10, all); (Opened 11, all); (Said 11 offer, all)].
Definition request (id : Z) (target : string) : bytes :=
  match encode_http_request id (txt "GET") (txt target) [] [] with Ok l => l | Err _ => [] end.
Definition asks (session id : Z) (target : string) (q : option Z) : option (EventQueue.Event * bytes * Answers) :=
  Some (EventQueue.mkEvent EventQueue.HttpRequest (mkPeer session 1 Http [x31] 9000) 1 0, request id target,
    mkAnswers all true q).
(** Two profiles are asked for, and the page; the second is answered first. *)
Definition day : list Turn :=
  [mkTurn (asks 5 1 "/api/profile" (Some 21)) []; mkTurn (asks 6 1 "/api/profile" (Some 22)) [];
   mkTurn (asks 5 2 "/" None) [mkCompletion 22 true (Profile 3 (txt "ann") (-1)) true]; mkTurn (asks 5 3 "/api/profile" None) []].
End Demo.
Lemma room_one_partner_witness :
  signals (trace (0, 0) Demo.call) = [(7, 8); (11, 10)] ∧ ∀ c d, (c, d) ∈ signals (trace (0, 0) Demo.call) →
    (7 = c ∨ 7 = d ∨ 8 = c ∨ 8 = d) → (7 = c ∧ 8 = d) ∨ (7 = d ∧ 8 = c).
Proof.
  assert (signals (trace (0, 0) Demo.call) = [(7, 8); (11, 10)]) as E by (vm_compute; reflexivity). split; [exact E|].
  assert (NoDup (arrivals Demo.call)) as Hnd by (apply (bool_decide_unpack _); vm_compute; exact I).
  assert (Forall (λ x, origin x.1 ≠ 0) Demo.call) as Ho by (repeat constructor; discriminate).
  destruct (room_one_partner Demo.call Hnd Ho) as [H _]. destruct (H 7 8) as (_ & _ & _ & H1); [rewrite E; apply list_elem_of_here|].
  exact H1.
Defined.
Lemma web_answers_once_witness : ∃ w, serve (txt "<p>") [] Demo.day = Some w ∧
  requests (5, 1) Demo.day = 1%nat ∧ (responses (5, 1)%Z (effects w) + waiting (5, 1)%Z (pending_ w))%nat = 1%nat ∧
  requests (6, 1) Demo.day = 1%nat ∧ (responses (6, 1)%Z (effects w) + waiting (6, 1)%Z (pending_ w))%nat = 1%nat.
Proof.
  assert (Forall sound Demo.day) as Hs.
  { repeat constructor; try discriminate; intros _; vm_compute; eexists; reflexivity. }
  assert (NoDup (Demo.day ≫= query_of)) as Hnd by (apply (bool_decide_unpack _); vm_compute; exact I).
  assert (0 ∉ Demo.day ≫= query_of) as H0 by (apply (bool_decide_unpack _); vm_compute; exact I).
  destruct (web_answers_once (txt "<p>") [] Demo.day Hs Hnd H0) as (w & Hw & H). exists w. split; [exact Hw|].
  assert (requests (5, 1) Demo.day = 1%nat ∧ requests (6, 1) Demo.day = 1%nat) as [E5 E6] by (vm_compute; split; reflexivity).
  assert (∀ k, Forall (λ t, ¬ closes k t) Demo.day) as Hc by (intros k; repeat constructor; intros [? _]; discriminate).
  destruct (H (5, 1)) as [_ H5]. destruct (H (6, 1)) as [_ H6]. rewrite E5 in H5. rewrite E6 in H6.
  split; [exact E5|]. split; [exact (H5 (Hc _))|]. split; [exact E6|exact (H6 (Hc _))].
Defined.
