(* ===== verification/WebSetup.v ===== *)
(** WebSetup: how the sample web server comes up ([src/examples/WebServer/WebServer.cpp],
    [ProfileStore.cpp]): the database with its migration, the server, its assets and three
    secure listeners, over the C++ layer. What a constructor has acquired when a later step
    throws is given back by the destructors, in the opposite order. *)
From S2P Require Import Prelude.
From S2P Require Import Text.
From S2P Require Import NetTypes.
From S2P Require Import ServerHost.
From S2P Require Import Abi.
From S2P Require Import SdkNetwork.
From S2P Require Import SqlTypes.
From S2P Require Import SqlService.
From S2P Require Import SqlAbi.
From S2P Require Import SdkSql.
From S2P Require Import SdkSqlProperties.

(** [src/examples/WebServer/WebServer.cpp:6-17] *)
Definition network_options : se_server_options :=
  let o := se_server_options_init in
  mkServerOptions (so_struct_size o) (so_abi_version o) 128 (128 * 1024) (512 * 1024) 512
    (so_max_event_queue_bytes o) 60000 (so_reserved o).
(** What opening a file comes to: its length, and its bytes if they could be read. *)
Definition AssetFile : Type := option (Z * option bytes).
(** [src/examples/WebServer/WebServer.cpp:18-29] *)
Definition read_asset (file : AssetFile) : result bytes bytes :=
  match file with
  | None => Err (txt "Cannot open web assets; run from repository root or pass web-root")
  | Some (length, content) =>
      if (length <? 0) || (65536 <? length) then Err (txt "Web asset exceeds 64 KiB")
      else if length =? 0 then Ok []
      else match content with Some bytes => Ok bytes | None => Err (txt "Cannot read web asset") end
  end.
(** [src/examples/WebServer/ProfileStore.cpp:5-16] {options_for} *)
Definition profile_options (file : bytes) : se_sql_options :=
  let o := se_sql_options_init in
  mkSeOptions (sq_struct_size o) (sq_abi_version o) (sq_provider o) 64 32768 32768 (sq_max_rows o) (sq_max_columns o)
    (sq_query_timeout_ms o) (sq_busy_timeout_ms o) (8 * 1024 * 1024) (Some file) (sq_reserved o).
Definition statement (sql : bytes) : se_sql_statement := mkSeStatement (Some sql) (zlen sql) 0 None.
(** [src/examples/WebServer/ProfileStore.cpp:23-27] {ProfileStore} *)
Definition migration : list se_sql_statement :=
  [statement (txt "CREATE TABLE IF NOT EXISTS sample_profiles (id INTEGER PRIMARY KEY,name TEXT NOT NULL,level INTEGER NOT NULL)");
   statement (txt "INSERT INTO sample_profiles(id,name,level) VALUES(1,'Demo player',1) ON CONFLICT(id) DO NOTHING")].
(** [src/examples/WebServer/WebServer.cpp:50-59] {WebServer} One of the listeners. *)
Definition web_listener (certificate key : bytes) (protocol : Z) : se_listener_options :=
  let o := se_listener_options_init in
  mkListenerOptions (lo_struct_size o) (lo_abi_version o) protocol (lo_security o)
    (if protocol =? SE_PROTOCOL_HTTP then 9553 else if protocol =? 3 then 9554 else 9555)
    (lo_handshake_timeout_ms o) (lo_bind_address o) (Some certificate) (Some key) (Some (txt "/signal")) (lo_reserved o).

Section WebSetup.
Context `{Layout} {D : Type} `{Driver D}.
Context (open_driver : Options → result SqlError D) (looks : Z → Z → nat → Look).
Context (alloc : bytes → bool) (open_listener : ListenerConfig → result bytes unit).
Implicit Types s : Sdk D.

(** The place of the store's [Sql] object and that of the local result. *)
Definition place : Z := 0.
Definition worker_turns (h : Z) (n : nat) s : Sdk D := Nat.iter n (λ s, sdk_step open_driver looks s (WorkerTurn h)) s.
(** [src/examples/WebServer/ProfileStore.cpp:31-35] {ProfileStore} A round of the loop for
    each entry: how often the worker gets on before the poll; after the last the time is up. *)
Fixpoint await (h request : Z) (rounds : list nat) s : result bytes unit * Sdk D :=
  match rounds with
  | [] => (Err (txt "Profile migration timed out"), s)
  | n :: rounds =>
      match poll_sql h place (worker_turns h n s) with
      | (Err e, s) => (Err e, s)
      | (Ok status, s) =>
          if bool_decide (status = SE_TIMEOUT) then await h request rounds s
          else
            let m := match results s !! place with Some x => SdkSql.metadata x | None => no_metadata end in
            if negb (rs_request_id m =? request) || negb (bool_decide (rs_status m = SE_OK))
            then (Err (txt "Profile migration failed"), s) else (Ok tt, s)
      end
  end.
(** [src/examples/WebServer/ProfileStore.cpp:19-36] {ProfileStore} *)
Definition open_profiles (file : bytes) (rounds : list nat) s : result bytes unit * Sdk D :=
  match new_sql open_driver place (profile_options file) s with
  | (Err e, s) => (Err e, s)
  | (Ok _, s) =>
      let h := default 0 (sqls s !! place) in
      match submit_sql h (Some migration) 2 s with
      | (Err e, s) => (Err e, delete_sql place s)
      | (Ok request, s) =>
          let '(r, s) := await h request rounds (set_result place empty_result s) in
          let s := delete_result place s in
          (r, match r with Ok _ => s | Err _ => delete_sql place s end)
      end
  end.
(** [src/examples/WebServer/WebServer.cpp:50-60] {WebServer} The body. *)
Definition configure (handle : Z) (certificate key : bytes) (r : Registry) : result bytes unit * Registry :=
  let add x protocol := match x with
    | (Ok _, r) => let '(res, r) := listen handle (web_listener certificate key protocol) r in (match res with Ok _ => Ok tt | Err e => Err e end, r)
    | x => x end in
  match foldl add (Ok tt, r) [SE_PROTOCOL_HTTP; 3; SE_PROTOCOL_TCP] with
  | (Ok _, r) => start_network alloc open_listener handle r
  | x => x
  end.
(** [src/examples/WebServer/WebServer.cpp:43-61] {WebServer} *)
Definition open_web (certificate key database : bytes) (html javascript : AssetFile) (rounds : list nat) s (r : Registry)
    : result bytes Z * Sdk D * Registry :=
  match open_profiles database rounds s with
  | (Err e, s) => (Err e, s, r)
  | (Ok _, s) =>
      match new_network network_options r with
      | (Err e, r) => (Err e, delete_sql place s, r)
      | (Ok handle, r) =>
          match (let? page := read_asset html in let? script := read_asset javascript in Ok (page, script)) with
          | Err e => (Err e, delete_sql place s, delete_network handle r)
          | Ok _ =>
              match configure handle certificate key r with
              | (Err e, r) => (Err e, delete_sql place s, delete_network handle r)
              | (Ok _, r) => (Ok handle, s, r)
              end
          end
      end
  end.

(** ** What is left of it *)
(** Beside the engine: the same objects, and what is at the place of the result. *)
Definition alongside (s0 s : Sdk D) : Prop := sqls s = sqls s0 ∧ ∃ x, results s = <[place := x]> (results s0).
Lemma settle_kept h s : sqls (settle h s) = sqls s ∧ results (settle h s) = results s.
Proof. unfold settle. by destruct (_ || _). Qed.
Lemma reset_kept k s : sqls (reset k s) = sqls s ∧
  results (reset k s) = if bool_decide (is_Some (results s !! k)) then <[k := empty_result]> (results s) else results s.
Proof.
  unfold reset. destruct (results s !! k) as [x|]; simpl; [|done]. destruct (owner_ x) as [h|]; [|done].
  rewrite (proj1 (settle_kept _ _)), (proj2 (settle_kept _ _)). by destruct (_ =? 0).
Qed.
Lemma turns_kept h n s : sqls (worker_turns h n s) = sqls s ∧ results (worker_turns h n s) = results s.
Proof. unfold worker_turns. induction n as [|n IH]; [done|exact IH]. Qed.
Lemma submit_kept h l n s : sqls (submit_sql h l n s).2 = sqls s ∧ results (submit_sql h l n s).2 = results s.
Proof. unfold submit_sql. by destruct (se_sql_submit _ _ _ _ _) as [[? ?] [? ?]]. Qed.
Lemma poll_alongside h s0 s : alongside s0 s → alongside s0 (poll_sql h place s).2.
Proof.
  intros [Hs [x Hr]]. unfold poll_sql. destruct (reset_kept place s) as [Hs' Hr'].
  destruct (se_sql_poll _ _ _) as [[? ?] [? ?]]. split; simpl; [congruence|].
  rewrite Hr', Hr, lookup_insert_eq, (bool_decide_eq_true_2 (is_Some _)) by (by eexists). eexists. by rewrite !insert_insert_eq.
Qed.
Lemma await_alongside h request rounds s0 : ∀ s, alongside s0 s → alongside s0 (await h request rounds s).2.
Proof.
  induction rounds as [|n rounds IH]; intros s Hs; [done|]. simpl.
  assert (alongside s0 (worker_turns h n s)) as Ht.
  { destruct Hs as [? [x ?]]. split; [rewrite (proj1 (turns_kept _ _ _))|exists x; rewrite (proj2 (turns_kept _ _ _))]; done. }
  pose proof (poll_alongside h s0 _ Ht) as Hp. destruct (poll_sql h place _) as [[status|e] s']; [|done].
  case_bool_decide; [by apply IH|]. by destruct (_ || _).
Qed.
Lemma delete_result_kept s0 s : results s0 !! place = None → alongside s0 s →
  sqls (delete_result place s) = sqls s0 ∧ results (delete_result place s) = results s0.
Proof.
  intros Hn [Hs [x Hr]]. unfold delete_result. destruct (reset_kept place s) as [Hs' Hr']. simpl. split; [congruence|].
  rewrite Hr', Hr, lookup_insert_eq, (bool_decide_eq_true_2 (is_Some _)) by (by eexists). by rewrite !delete_insert_eq, delete_id.
Qed.
Lemma delete_sql_kept s0 s : sqls s0 !! place = None → (∃ h, sqls s = <[place := h]> (sqls s0)) → results s = results s0 →
  sqls (delete_sql place s) = sqls s0 ∧ results (delete_sql place s) = results s0.
Proof.
  intros Hn [h Hs] Hr. unfold delete_sql. rewrite Hs, lookup_insert_eq.
  rewrite (proj1 (settle_kept _ _)), (proj2 (settle_kept _ _)). simpl. by rewrite delete_insert_eq, delete_id.
Qed.
Lemma open_profiles_kept file rounds s : sqls s !! place = None → results s !! place = None →
  let '(r, s') := open_profiles file rounds s in results s' = results s ∧
  match r with Ok _ => ∃ h, sqls s' = <[place := h]> (sqls s) | Err _ => sqls s' = sqls s end.
Proof.
  intros Hs Hr. unfold open_profiles, new_sql. destruct (se_sql_create _ _ _ _) as [[status e] [h r]].
  destruct (require status e) as [[]|t]; [|done]. set (s1 := with_sqls _ _).
  destruct (submit_kept (default 0 (sqls s1 !! place)) (Some migration) 2 s1) as [Hs1 Hr1].
  destruct (submit_sql _ _ _ s1) as [[request|t] s2]; simpl in Hs1, Hr1.
  - pose proof (await_alongside (default 0 (sqls s1 !! place)) request rounds s2 (set_result place empty_result s2)) as Ha.
    destruct (await _ request rounds _) as [res s3]. simpl in Ha.
    destruct (delete_result_kept s2 s3) as [Hs3 Hr3]; [by rewrite Hr1|apply Ha; split; [done|by eexists]|].
    destruct res as [u|t]; [split; [congruence|exists h; congruence]|].
    apply and_comm, (delete_sql_kept s); [done|exists h; congruence|congruence].
  - apply and_comm, (delete_sql_kept s); [done|exists h; congruence|congruence].
Qed.
Lemma new_network_case o r : let '(res, r') := new_network o r in
  match res with Ok handle => handle = next_handle r ∧ ∃ h, hosts r' = <[handle := h]> (hosts r) | Err _ => hosts r' = hosts r end.
Proof.
  unfold new_network, se_server_create. cbn [negb]. destruct (decode_server (Some o)) as [decoded|detail]; [|done].
  unfold register_host. destruct (_ <? next_handle r); [done|]. by split; [|eexists].
Qed.
Definition among (base : gmap Z ServerHost) (handle : Z) (r : Registry) : Prop := ∃ h, hosts r = <[handle := h]> base.
Lemma listen_among base handle o r : among base handle r → among base handle (listen handle o r).2.
Proof.
  intros [h Hh]. unfold listen, se_server_add_listener, find_host. cbn [negb]. rewrite Hh, lookup_insert_eq.
  destruct (decode_listener (Some o)); [|by exists h]. destruct (add_listener _ h) as [[id|e] h'] ; exists h'; cbn -[insert]; by rewrite Hh, insert_insert_eq.
Qed.
Lemma start_among base handle r : among base handle r → among base handle (start_network alloc open_listener handle r).2.
Proof.
  intros [h Hh]. unfold start_network, se_server_start, find_host. rewrite Hh, lookup_insert_eq.
  destruct (ServerHost.start alloc open_listener h) as [res h']. destruct (report _ res). exists h'. simpl. by rewrite Hh, insert_insert_eq.
Qed.
Lemma configure_among base handle certificate key r : among base handle r → among base handle (configure handle certificate key r).2.
Proof.
  intros Hr. unfold configure. set (add := λ (x : result bytes unit * Registry) (protocol : Z), _).
  assert (∀ l x, among base handle x.2 → among base handle (foldl add x l).2) as Hf.
  { induction l as [|p l IH]; intros x Hx; [done|]. simpl. apply IH. destruct x as [[u|e] r0]; [|done]. simpl in *.
    pose proof (listen_among base handle (web_listener certificate key p) r0 Hx) as Hl. by destruct (listen handle _ r0) as [res r1]. }
  specialize (Hf [SE_PROTOCOL_HTTP; 3; SE_PROTOCOL_TCP] (Ok tt, r) Hr). destruct (foldl add _ _) as [[u|e] r']; [|done]. by apply start_among.
Qed.
(** The web server comes up whole or not at all. Whatever fails on the way (the options,
    the migration, its deadline, an asset, a listener, the start), the constructor leaves no
    server in the library's registry and no database object behind; when it returns, it
    owns one new server and one database, and nothing else has changed. *)
Theorem web_setup_all_or_none certificate key database html javascript rounds s r :
  sqls s !! place = None → results s !! place = None → 1 ≤ next_handle r → hosts r !! next_handle r = None →
  let '(res, s', r') := open_web certificate key database html javascript rounds s r in
  results s' = results s ∧
  match res with
  | Ok handle => handle = next_handle r ∧ among (hosts r) handle r' ∧ ∃ h, sqls s' = <[place := h]> (sqls s)
  | Err _ => sqls s' = sqls s ∧ hosts r' = hosts r
  end.
Proof.
  intros Hs Hr Hn Hfree. unfold open_web. pose proof (open_profiles_kept database rounds s Hs Hr) as Hp.
  destruct (open_profiles database rounds s) as [[u|e] s1]; [|tauto]. destruct Hp as [Hr1 Hs1].
  destruct (delete_sql_kept s s1 Hs Hs1 Hr1) as [Hsd Hrd].
  pose proof (new_network_case network_options r) as Hnet. destruct (new_network network_options r) as [[handle|e] r1]; [|done].
  destruct Hnet as [-> Hnet].
  assert (∀ r2, among (hosts r) (next_handle r) r2 → hosts (delete_network (next_handle r) r2) = hosts r) as Hdel.
  { intros r2 [h Hh]. unfold delete_network, se_server_destroy, remove_host. rewrite (proj2 (Z.eqb_neq _ _)), Hh, lookup_insert_eq by lia.
    simpl. by rewrite delete_insert_eq, delete_id. }
  destruct (rbind _ _) as [assets|e]; [|by auto].
  pose proof (configure_among _ _ certificate key r1 Hnet) as Hc. destruct (configure _ certificate key r1) as [[u'|e] r2]; auto.
Qed.
End WebSetup.

(** ** At work *)
Module Boot.
Import Rows.
Definition page : AssetFile := Some (5, Some (txt "hello")).
Definition boot (html : AssetFile) (rounds : list nat) (certificate : bytes) : result bytes Z * Sdk unit * Registry :=
  open_web Rows.open_driver Rows.looks (λ _, true) (λ _, Ok tt) certificate (txt "server.key") (txt "web.sqlite") html page rounds
    new_sdk empty_registry.
End Boot.
Import Boot.
Example web_boots :
  (boot page [0; 5]%nat (txt "server.pem")).1.1 = Ok 1 ∧
  (boot page [0; 1]%nat (txt "server.pem")).1.1 = Err (txt "Profile migration timed out") ∧
  (boot (Some (65537, None)) [5]%nat (txt "server.pem")).1.1 = Err (txt "Web asset exceeds 64 KiB") ∧
  (boot page [5]%nat []).1.1 = Err (txt "TLS listener requires certificate_chain_file and private_key_file").
Proof. split_and!; vm_compute; reflexivity. Qed.
Lemma web_setup_all_or_none_witness :
  hosts (boot page [5]%nat []).2 = ∅ ∧ sqls (boot page [5]%nat []).1.2 = ∅ ∧
  among ∅ 1 (boot page [0; 5]%nat (txt "server.pem")).2.
Proof.
  assert (∀ html rounds certificate, let '(res, s', r') := boot html rounds certificate in results s' = ∅ ∧
    match res with Ok handle => handle = 1 ∧ among ∅ handle r' ∧ ∃ h, sqls s' = <[place := h]> ∅ | Err _ => sqls s' = ∅ ∧ hosts r' = ∅ end) as T.
  { intros html rounds certificate. apply (web_setup_all_or_none Rows.open_driver Rows.looks (λ _, true) (λ _, Ok tt) certificate (txt "server.key")
      (txt "web.sqlite") html page rounds new_sdk empty_registry); [reflexivity..|simpl; lia|reflexivity]. }
  pose proof (T page [5]%nat []) as Tbad. pose proof (T page [0; 5]%nat (txt "server.pem")) as Tgood.
  destruct (boot page [5]%nat []) as [[[v|e] s] r] eqn:E.
  { apply (f_equal (λ x, x.1.1)) in E. vm_compute in E. discriminate E. }
  destruct (boot page [0; 5]%nat (txt "server.pem")) as [[[v|e'] s'] r'] eqn:E'.
  2: { apply (f_equal (λ x, x.1.1)) in E'. vm_compute in E'. discriminate E'. }
  destruct Tbad as (_ & Hs & Hh), Tgood as (_ & -> & Hg & _). by split_and!.
Defined.
