(* ===== verification/GameServer.v ===== *)
(** GameServer: the sample game server over the C interface ([src/examples/GameServer/]):
    players by session, each message counted and saved through a database that answers
    later. What the engine answers is an argument; what is asked of it is recorded. *)
From S2P Require Import Prelude.
From S2P Require Import Text.
From S2P Require Import NetTypes.
From S2P Require EventQueue.
From S2P Require Import Abi.
From S2P Require Import SqlTypes.
From S2P Require Import SdkNetwork.

(** ** The player store *)
(** [src/examples/GameServer/PlayerStore.h:14-14] *)
Inductive Operation := Open | Save | Close | History.
#[global] Instance Operation_eq_dec : EqDecision Operation.
Proof. solve_decision. Defined.
(** [src/examples/GameServer/PlayerStore.h:33-33] *)
Record Pending := mkPending { p_session : Z; p_operation : Operation }.
#[global] Instance Pending_eq_dec : EqDecision Pending.
Proof. solve_decision. Defined.
(** [src/examples/GameServer/PlayerStore.h:38-40] *)
Record PlayerStore := mkStore { run_id_ : Z; pending_ : gmap Z Pending }.
(** [src/examples/GameServer/PlayerStore.h:15-21] *)
Record Completion := mkCompletion {
  c_request : Z; c_session : Z; c_operation : Operation; c_status : se_status; c_message : bytes; c_stored : Z;
}.
Definition INT64_MAX : Z := 2 ^ 63 - 1.

(** What the game asks of the engine, with the answer where it looks at it. *)
Inductive Effect :=
| Sent (session : Z) (text : bytes) (ok : bool)
| Disconnected (session : Z)
| Queried (session : Z) (op : Operation) (sql : bytes) (parameters : list se_sql_parameter) (accepted : option Z).

(** [src/examples/GameServer/PlayerStore.cpp:19-25] *)
Definition integer_parameter (value : Z) : se_sql_parameter := mkSeParameter SE_SQL_INT64 0 value 0 None.
(** [src/examples/GameServer/PlayerStore.cpp:27-34] *)
Definition text_parameter (value : bytes) : se_sql_parameter := mkSeParameter SE_SQL_TEXT (u32 (zlen value)) 0 0 (Some value).
(** [src/examples/GameServer/PlayerStore.cpp:36-41] [None]: it throws. *)
Definition database_session (session : Z) : option Z := if INT64_MAX <? session then None else Some session.

(** [src/examples/GameServer/PlayerStore.cpp:44-66] What the migration came to: the number
    it was given, and the completion that arrived in time with its status and the row
    inserted last. [None] where it throws. *)
Definition open_store (submitted : option Z) (completed : option (Z * se_status * Z)) : option PlayerStore :=
  match submitted, completed with
  | Some request, Some (id, status, last_insert_id) =>
      if (id =? request) && bool_decide (status = SE_OK) then Some (mkStore last_insert_id ∅) else None
  | _, _ => None
  end.

(** [src/examples/GameServer/PlayerStore.cpp:68-81] {submit} Whether it went through, what
    was asked, and the store: a node under the reserved number zero takes the number of
    the query once it is accepted. *)
Definition submit (session : Z) (op : Operation) (sql : bytes) (parameters : list se_sql_parameter) (answer : option Z)
    (s : PlayerStore) : bool * list Effect * PlayerStore :=
  match pending_ s !! 0 with
  | Some _ => (false, [], s)
  | None =>
      let asked := [Queried session op sql parameters answer] in
      match answer with
      | None => (false, asked, mkStore (run_id_ s) (delete 0 (<[0 := mkPending session op]> (pending_ s))))
      | Some request =>
          let p := delete 0 (<[0 := mkPending session op]> (pending_ s)) in
          (true, asked, mkStore (run_id_ s) (match p !! request with Some _ => p | None => <[request := mkPending session op]> p end))
      end
  end.
(** [src/examples/GameServer/PlayerStore.cpp:83-88] *)
Definition open_connection (session protocol : Z) (address : bytes) (answer : option Z) (s : PlayerStore)
    : bool * list Effect * PlayerStore :=
  match database_session session with
  | None => (false, [], s)
  | Some id => submit session Open
      (txt "INSERT INTO engine_connections(run_id,session_id,protocol,peer_address) VALUES(?,?,?,?)")
      [integer_parameter (run_id_ s); integer_parameter id; integer_parameter protocol; text_parameter address] answer s
  end.
(** [src/examples/GameServer/PlayerStore.cpp:90-99] *)
Definition update (session count : Z) (closed : bool) (answer : option Z) (s : PlayerStore) : bool * list Effect * PlayerStore :=
  match database_session session with
  | None => (false, [], s)
  | Some id => submit session (if closed then Close else Save)
      (if closed
       then txt "UPDATE engine_connections SET messages=?,closed_utc=strftime('%Y-%m-%dT%H:%M:%fZ','now') WHERE run_id=? AND session_id=?"
       else txt "UPDATE engine_connections SET messages=? WHERE run_id=? AND session_id=?")
      [integer_parameter count; integer_parameter (run_id_ s); integer_parameter id] answer s
  end.
(** [src/examples/GameServer/PlayerStore.cpp:101-106] *)
Definition load_history (session : Z) (answer : option Z) (s : PlayerStore) : bool * list Effect * PlayerStore :=
  match database_session session with
  | None => (false, [], s)
  | Some id => submit session History (txt "SELECT messages FROM engine_connections WHERE run_id=? AND session_id=?")
      [integer_parameter (run_id_ s); integer_parameter id] answer s
  end.
(** A result of the database; [o_value] is the number in its first cell, if it holds one. *)
Record Outcome := mkOutcome { o_request : Z; o_status : se_status; o_message : bytes; o_rows : Z; o_value : option Z }.
(** [src/examples/GameServer/PlayerStore.cpp:108-130] {poll} One result; [None] where it
    throws. *)
Definition complete (o : Outcome) (s : PlayerStore) : option (Completion * PlayerStore) :=
  match pending_ s !! o_request o with
  | None => None
  | Some p =>
      let s := mkStore (run_id_ s) (delete (o_request o) (pending_ s)) in
      let completion status message stored := mkCompletion (o_request o) (p_session p) (p_operation p) status message stored in
      if bool_decide (o_status o = SE_OK) && bool_decide (p_operation p = History)
      then if negb (o_rows o =? 1) then Some (completion SE_IO_ERROR (txt "No stored session found") 0, s)
           else match o_value o with Some n => Some (completion SE_OK (o_message o) n, s) | None => None end
      else Some (completion (o_status o) (o_message o) 0, s)
  end.

(** ** The server *)
(** [src/examples/GameServer/GameServer.h:25-29] *)
Record PlayerSession := mkPlayer { display_name : bytes; messages : Z; logging_requested : bool }.
Definition new_player : PlayerSession := mkPlayer (txt "Guest") 0 false.
(** [src/examples/GameServer/GameServer.h:37-39] And what it has asked so far. *)
Record Game := mkGame { store_ : PlayerStore; players_ : gmap Z PlayerSession; effects : list Effect }.
Definition with_store s g := mkGame s (players_ g) (effects g).
Definition with_players p g := mkGame (store_ g) p (effects g).
Definition emit l g := mkGame (store_ g) (players_ g) (effects g ++ l).
(** A call of the store: whether it went through. *)
Definition on_store (f : PlayerStore → bool * list Effect * PlayerStore) (g : Game) : bool * Game :=
  let '(ok, asked, s) := f (store_ g) in (ok, emit asked (with_store s g)).
Definition set_player (session : Z) (p : PlayerSession) (g : Game) : Game := with_players (<[session := p]> (players_ g)) g.

(** What the engine answers while an event is handled: whether a text can be sent, and the
    number given to a query, by its operation: no event asks two of a kind. *)
Record Answers := mkAnswers { a_send : bytes → bool; a_query : Operation → option Z }.

(** [src/examples/GameServer/GameServer.cpp:198-207] *)
Definition reply (session : Z) (text : bytes) (a : Answers) (g : Game) : Game :=
  let ok := a_send a text in emit (Sent session text ok :: if ok then [] else [Disconnected session]) g.
Definition printable (b : byte) : bool := (32 <=? byte_Z b) && (byte_Z b <? 127).
(** [src/examples/GameServer/GameServer.cpp:168-169] {handle_message} *)
Definition valid_name (name : bytes) : bool :=
  negb (bool_decide (name = [])) && (zlen name <=? 48) && forallb printable name.
Definition int_text (n : Z) : bytes := if n <? 0 then x2d :: dec (- n) else dec n.
(** [src/examples/GameServer/GameServer.cpp:156-175] {handle_message} What the player said,
    once the count is on its way. *)
Definition answer_command (session : Z) (payload : bytes) (player : PlayerSession) (a : Answers) (g : Game) : Game :=
  if bool_decide (payload = txt "PING") then reply session (txt "PONG") a g
  else if bool_decide (payload = txt "STATS") then reply session (txt "messages=" ++ int_text (messages player)) a g
  else if bool_decide (payload = txt "HISTORY") then
    let '(ok, g) := on_store (load_history session (a_query a History)) g in
    if ok then g else reply session (txt "ERR database busy; history request rejected") a g
  else if bool_decide (take 5 payload = txt "NAME ") then
    let name := drop 5 payload in
    if valid_name name
    then reply session (txt "OK display name=" ++ name) a
           (set_player session (mkPlayer name (messages player) (logging_requested player)) g)
    else reply session (txt "ERR name must contain 1..48 printable ASCII bytes") a g
  else reply session (txt "ERR commands: PING | NAME <display-name> | STATS | HISTORY") a g.
(** [src/examples/GameServer/GameServer.cpp:139-176] [None] where it throws. *)
Definition handle_message (udp : bool) (session : Z) (payload : bytes) (a : Answers) (g : Game) : option Game :=
  if udp then Some (reply session (if bool_decide (payload = txt "PING") then txt "PONG" else payload) a g)
  else match players_ g !! session with
  | None => None
  | Some player =>
      if negb (logging_requested player) then Some g
      else if messages player =? INT64_MAX then None
      else
        let player := mkPlayer (display_name player) (messages player + 1) (logging_requested player) in
        let '(ok, g) := on_store (update session (messages player) false (a_query a Save)) (set_player session player g) in
        Some (if ok then answer_command session payload player a g
              else reply session (txt "ERR database busy; request rejected") a g)
  end.
(** [src/examples/GameServer/GameServer.cpp:106-137] [None] where it throws. *)
Definition handle_event (ev : EventQueue.Event) (payload : bytes) (a : Answers) (g : Game) : option Game :=
  let peer := EventQueue.peer ev in
  let session := session_id peer in
  let udp := bool_decide (protocol peer = Udp) in
  match EventQueue.kind ev with
  | EventQueue.Overflow => None
  | EventQueue.Open =>
      let '(player, g) :=
        if udp then (new_player, g)
        else
          let '(ok, g) := on_store (open_connection session (protocol_code (protocol peer)) (address peer) (a_query a Open)) g in
          if ok then (mkPlayer (display_name new_player) 0 true, g) else (new_player, emit [Disconnected session] g) in
      Some (match players_ g !! session with Some _ => g | None => set_player session player g end)
  | EventQueue.Message => handle_message udp session payload a g
  | EventQueue.Close =>
      Some (match players_ g !! session with
      | None => g
      | Some player =>
          let g := if logging_requested player then (on_store (update session (messages player) true (a_query a Close)) g).2 else g in
          with_players (delete session (players_ g)) g
      end)
  | _ => Some g
  end.
(** [src/examples/GameServer/GameServer.cpp:182-194] {poll_database} *)
Definition report_completion (c : Completion) (a : Answers) (g : Game) : Game :=
  let connected := bool_decide (is_Some (players_ g !! c_session c)) in
  if negb (bool_decide (c_status c = SE_OK)) then
    if connected then
      let g := reply (c_session c) (txt "ERR database operation failed") a g in
      if bool_decide (c_operation c = History) then g else emit [Disconnected (c_session c)] g
    else g
  else if connected && bool_decide (c_operation c = History)
  then reply (c_session c) (txt "stored_messages=" ++ int_text (c_stored c)) a g
  else g.
(** [src/examples/GameServer/GameServer.cpp:178-196] At most sixty-four at a time. *)
Definition poll_database (outcomes : list (Outcome * Answers)) (g : Game) : option Game :=
  foldl (λ g x, match g with
    | None => None
    | Some g => match complete x.1 (store_ g) with
      | None => None
      | Some (c, s) => Some (report_completion c x.2 (with_store s g))
      end
    end) (Some g) (take 64 outcomes).
(** What a turn of the loop finds: results, then an event. *)
Inductive Turn := mkTurn (outcomes : list (Outcome * Answers)) (event : option (EventQueue.Event * bytes * Answers)).
(** [src/examples/GameServer/GameServer.cpp:83-104] {run} One turn of the loop. *)
Definition turn (g : option Game) (t : Turn) : option Game :=
  match g, t with
  | None, _ => None
  | Some g, mkTurn outcomes event =>
      match poll_database outcomes g with
      | None => None
      | Some g => match event with Some (ev, payload, a) => handle_event ev payload a g | None => Some g end
      end
  end.
Definition new_game (s : PlayerStore) : Game := mkGame s ∅ [].
Definition play (s : PlayerStore) (ts : list Turn) : option Game := runs turn (Some (new_game s)) ts.

(** [src/examples/GameServer/GameServer.cpp:54-81] {~GameServer} The players still there are
    closed in the database, in the order the map gives them, and what is outstanding is
    taken until nothing is, or the engine has no more. *)
Definition close_players (answers : Z → option Z) (g : Game) : Game :=
  foldl (λ g x, if logging_requested x.2 then (on_store (update x.1 (messages x.2) true (answers x.1)) g).2 else g)
    g (map_to_list (players_ g)).
Fixpoint drain (outcomes : list Outcome) (s : PlayerStore) : option PlayerStore :=
  match outcomes with
  | o :: outcomes =>
      if (size (pending_ s) =? 0)%nat then Some s
      else match complete o s with Some (_, s) => drain outcomes s | None => None end
  | [] => Some s
  end.
Definition shut_down (answers : Z → option Z) (outcomes : list Outcome) (g : Game) : Game * option PlayerStore :=
  let g := close_players answers g in (g, drain outcomes (store_ g)).

(** ** Setting up *)
(** [src/examples/GameServer/GameServer.cpp:22-27] {GameServer} *)
Definition game_options : se_server_options :=
  let o := se_server_options_init in
  mkServerOptions (so_struct_size o) (so_abi_version o) 1024 4096 65536 (so_max_event_queue_count o)
    (so_max_event_queue_bytes o) 60000 (so_reserved o).
(** [src/examples/GameServer/GameServer.cpp:39-47] {add_listener} *)
Definition game_listener (protocol port : Z) (certificate key : option bytes) : se_listener_options :=
  let o := se_listener_options_init in
  mkListenerOptions (lo_struct_size o) (lo_abi_version o) protocol
    (if protocol =? SE_PROTOCOL_UDP then SE_SECURITY_NONE else SE_SECURITY_TLS) port (lo_handshake_timeout_ms o)
    (Some (txt "127.0.0.1")) certificate key (Some (txt "/game")) (lo_reserved o).
Section Setup.
Context (alloc : bytes → bool) (open_listener : ListenerConfig → result bytes unit).
Definition add_listeners (handle : Z) (l : list se_listener_options) (r : Registry) : result bytes unit * Registry :=
  foldl (λ x o, match x with
    | (Ok _, r) => let '(res, r) := listen handle o r in (match res with Ok _ => Ok tt | Err e => Err e end, r)
    | x => x
    end) (Ok tt, r) l.
(** [src/examples/GameServer/GameServer.cpp:18-34] {GameServer} *)
Definition open_game (certificate key : bytes) (r : Registry) : result bytes Z * Registry :=
  match new_network game_options r with
  | (Err e, r) => (Err e, r)
  | (Ok handle, r) =>
      match add_listeners handle
              [game_listener SE_PROTOCOL_TCP 9443 (Some certificate) (Some key); game_listener SE_PROTOCOL_UDP 9001 None None;
               game_listener 3 9444 (Some certificate) (Some key)] r with
      | (Err e, r) => (Err e, r)
      | (Ok _, r) => let '(res, r) := start_network alloc open_listener handle r in
          (match res with Ok _ => Ok handle | Err e => Err e end, r)
      end
  end.
End Setup.
