(* ===== verification/GameProperties.v ===== *)
(** GameProperties: the game server tells the database of a session in order: opened, each
    message counted, closed with the final count, and nothing else. *)
From S2P Require Import Prelude.
From S2P Require Import Text.
From S2P Require Import NetTypes.
From S2P Require EventQueue.
From S2P Require Import SqlTypes.
From S2P Require Import GameServer.

(** ** What the database is asked *)
(** A query of a session: its operation, its first parameter, whether it was accepted. *)
Definition query_of (session : Z) (e : Effect) : option (Operation * Z * bool) :=
  match e with
  | Queried s op _ parameters accepted =>
      if s =? session
      then Some (op, match parameters with p :: _ => sp_integer p | [] => 0 end, bool_decide (is_Some accepted)) else None
  | _ => None
  end.
Definition queries (session : Z) (l : list Effect) : list (Operation * Z * bool) := omap (query_of session) l.
(** Where a session stands with the database: [Logged n] when its opening was accepted and
    [n] messages have been counted. *)
Inductive Phase := Unknown | Logged (n : Z) | Refused | Finished.
#[global] Instance Phase_eq_dec : EqDecision Phase.
Proof. solve_decision. Defined.
Definition advance (ph : option Phase) (q : Operation * Z * bool) : option Phase :=
  match ph, q with
  | Some Unknown, (Open, _, accepted) => Some (if accepted : bool then Logged 0 else Refused)
  | Some (Logged n), (Save, m, _) => if m =? n + 1 then Some (Logged m) else None
  | Some (Logged n), (History, _, _) => Some (Logged n)
  | Some (Logged n), (Close, m, _) => if m =? n then Some Finished else None
  | _, _ => None
  end.
Definition phase (session : Z) (l : list Effect) : option Phase := foldl advance (Some Unknown) (queries session l).
Lemma queries_app s l l' : queries s (l ++ l') = queries s l ++ queries s l'.
Proof. apply omap_app. Qed.
Lemma phase_app s l l' : phase s (l ++ l') = foldl advance (phase s l) (queries s l').
Proof. unfold phase. by rewrite queries_app, foldl_app. Qed.
Lemma phase_quiet s l l' : queries s l' = [] → phase s (l ++ l') = phase s l.
Proof. intros E. by rewrite phase_app, E. Qed.

Definition standing (p : option PlayerSession) (ph : Phase) : Prop :=
  match p with
  | Some p => if logging_requested p then ph = Logged (messages p) else ph = Unknown ∨ ph = Refused
  | None => ∀ n, ph ≠ Logged n
  end.
Definition good_name (name : bytes) : Prop := valid_name name = true.
Record game_inv (opened udp : list Z) (g : Game) : Prop := {
  gi_zero : pending_ (store_ g) !! 0 = None;
  gi_fresh s : s ∉ opened → players_ g !! s = None ∧ queries s (effects g) = [];
  gi_udp s : s ∈ udp → s ∈ opened ∧ queries s (effects g) = [];
  gi_phase s : ∃ ph, phase s (effects g) = Some ph ∧ standing (players_ g !! s) ph;
  gi_range s p : players_ g !! s = Some p → logging_requested p = true → s ≤ INT64_MAX ∧ s ∉ udp;
  gi_names s p : players_ g !! s = Some p → good_name (display_name p);
}.
(** Steps that ask the database nothing, and leave the players. *)
Record unasked (g g' : Game) : Prop := {
  un_zero : pending_ (store_ g) !! 0 = None → pending_ (store_ g') !! 0 = None;
  un_players : players_ g' = players_ g;
  un_effects : ∃ l, effects g' = effects g ++ l ∧ ∀ s, queries s l = [];
}.
Lemma unasked_inv opened udp g g' : unasked g g' → game_inv opened udp g → game_inv opened udp g'.
Proof.
  intros [Hz Hp (l & He & Hl)] [H0 H1 H2 H3 H4 H5]. split; rewrite ?Hp, ?He; auto.
  - intros s Hs. rewrite queries_app, Hl, app_nil_r. by apply H1.
  - intros s Hs. rewrite queries_app, Hl, app_nil_r. by apply H2.
  - intros s. rewrite phase_quiet by done. apply H3.
Qed.
Lemma unasked_reply s text a g : unasked g (reply s text a g).
Proof. split; try done. eexists. split; [done|]. intros s'. by destruct (a_send a text). Qed.
Lemma unasked_emit s g : unasked g (emit [Disconnected s] g).
Proof. split; try done. eexists. split; [done|]. by intros s'. Qed.
Lemma unasked_trans g1 g2 g3 : unasked g1 g2 → unasked g2 g3 → unasked g1 g3.
Proof.
  intros [Z1 P1 (l1 & E1 & L1)] [Z2 P2 (l2 & E2 & L2)]. split; [auto|congruence|]. exists (l1 ++ l2). rewrite E2, E1, app_assoc.
  split; [done|]. intros s. by rewrite queries_app, L1, L2.
Qed.
(** A query is recorded with its answer, and its number is not the reserved one. *)
Lemma submit_case session op sql ps answer s : pending_ s !! 0 = None → answer ≠ Some 0 →
  let '(ok, asked, s') := submit session op sql ps answer s in
  ok = bool_decide (is_Some answer) ∧ asked = [Queried session op sql ps answer] ∧ pending_ s' !! 0 = None.
Proof.
  intros H0 Ha. unfold submit. rewrite H0. destruct answer as [q|]; split_and!; try done; simpl; [|by apply lookup_delete_eq].
  assert (q ≠ 0) by congruence. case_match; [apply lookup_delete_eq|]. rewrite lookup_insert_ne by done. apply lookup_delete_eq.
Qed.

(** A query of one session, put on record. *)
Record asks (s : Z) (q : Operation * Z * bool) (g g' : Game) : Prop := {
  ak_zero : pending_ (store_ g') !! 0 = None;
  ak_players : players_ g' = players_ g;
  ak_here : queries s (effects g') = queries s (effects g) ++ [q];
  ak_others s' : s' ≠ s → queries s' (effects g') = queries s' (effects g);
}.
Lemma asks_submit session op sql ps answer g : pending_ (store_ g) !! 0 = None → answer ≠ Some 0 →
  let '(ok, g') := on_store (submit session op sql ps answer) g in
  ok = bool_decide (is_Some answer) ∧
  asks session (op, match ps with p :: _ => sp_integer p | [] => 0 end, bool_decide (is_Some answer)) g g'.
Proof.
  intros H0 Ha. unfold on_store. pose proof (submit_case session op sql ps answer (store_ g) H0 Ha) as Hs.
  destruct (submit _ _ _ _ _ _) as [[ok asked] s']. destruct Hs as (-> & -> & Hz). split; [done|].
  split; [done|done|..]; cbn [emit with_store effects]; intros; rewrite queries_app; unfold queries at 2; cbn.
  - by rewrite Z.eqb_refl.
  - rewrite (proj2 (Z.eqb_neq _ _)) by done. by rewrite app_nil_r.
Qed.
Lemma asks_update session count closed answer g : session ≤ INT64_MAX → pending_ (store_ g) !! 0 = None → answer ≠ Some 0 →
  let '(ok, g') := on_store (update session count closed answer) g in
  asks session (if closed then Close else Save, count, bool_decide (is_Some answer)) g g'.
Proof.
  intros Hs H0 Ha. unfold update, database_session. rewrite (proj2 (Z.ltb_ge _ _)) by lia.
  pose proof (asks_submit session (if closed then Close else Save)
    (if closed
     then txt "UPDATE engine_connections SET messages=?,closed_utc=strftime('%Y-%m-%dT%H:%M:%fZ','now') WHERE run_id=? AND session_id=?"
     else txt "UPDATE engine_connections SET messages=? WHERE run_id=? AND session_id=?")
    [integer_parameter count; integer_parameter (run_id_ (store_ g)); integer_parameter session] answer g H0 Ha) as Hk.
  unfold on_store in *. destruct (submit _ _ _ _ _ _) as [[ok asked] s']. by destruct Hk as [_ Hk].
Qed.
Lemma asks_history session answer g : session ≤ INT64_MAX → pending_ (store_ g) !! 0 = None → answer ≠ Some 0 →
  let '(ok, g') := on_store (load_history session answer) g in ∃ n, asks session (History, n, bool_decide (is_Some answer)) g g'.
Proof.
  intros Hs H0 Ha. unfold load_history, database_session. rewrite (proj2 (Z.ltb_ge _ _)) by lia.
  pose proof (asks_submit session History (txt "SELECT messages FROM engine_connections WHERE run_id=? AND session_id=?")
    [integer_parameter (run_id_ (store_ g)); integer_parameter session] answer g H0 Ha) as Hk.
  unfold on_store in *. destruct (submit _ _ _ _ _ _) as [[ok asked] s']. destruct Hk as [_ Hk]. eauto.
Qed.
(** A query in its place, with what becomes of the player, keeps the invariant. *)
Lemma asks_inv opened udp s q ph g g1 g2 : game_inv opened udp g → asks s q g1 g2 → effects g1 = effects g →
  s ∈ opened → s ∉ udp → advance (phase s (effects g)) q = Some ph → standing (players_ g2 !! s) ph →
  (∀ s', s' ≠ s → players_ g2 !! s' = players_ g !! s') →
  (∀ p, players_ g2 !! s = Some p → (logging_requested p = true → s ≤ INT64_MAX) ∧ good_name (display_name p)) → game_inv opened udp g2.
Proof.
  intros [H0 H1 H2 H3 H4 H5] [Hz _ Hq Hn] He Hop Hudp Ha Hst Hp Hpl. rewrite He in *. split.
  - done.
  - intros s' Hs'. assert (s' ≠ s) by (by intros ->). rewrite Hp, Hn by done. by apply H1.
  - intros s' Hs'. assert (s' ≠ s) by (by intros ->). rewrite Hn by done. by apply H2.
  - intros s'. destruct (decide (s' = s)) as [->|Hne].
    + exists ph. split; [|done]. unfold phase in *. by rewrite Hq, foldl_app.
    + unfold phase. rewrite Hn, Hp by done. apply H3.
  - intros s' p. destruct (decide (s' = s)) as [->|Hne]; [|rewrite Hp by done; apply H4].
    intros Hs Hl. split; [by eapply Hpl|done].
  - intros s' p. destruct (decide (s' = s)) as [->|Hne]; [intros Hs; by apply (Hpl p)|rewrite Hp by done; apply H5].
Qed.
(** A player rewritten with the same standing. *)
Lemma set_player_inv opened udp s p p' g : game_inv opened udp g → players_ g !! s = Some p → messages p' = messages p →
  logging_requested p' = logging_requested p → good_name (display_name p') → game_inv opened udp (set_player s p' g).
Proof.
  intros [H0 H1 H2 H3 H4 H5] Hs Hm Hl Hn.
  assert (∀ s', players_ (set_player s p' g) !! s' = if decide (s' = s) then Some p' else players_ g !! s') as Hp.
  { intros s'. cbn [set_player with_players players_]. case_decide; [subst; apply lookup_insert_eq|by apply lookup_insert_ne]. }
  split; try done.
  - intros s' Hs'. rewrite Hp. case_decide; [subst; destruct (H1 s Hs'); congruence|by apply H1].
  - intros s'. rewrite Hp. destruct (H3 s') as (ph & Hph & Hst). exists ph. split; [done|]. case_decide; [|done]. subst.
    rewrite Hs in Hst. simpl in *. by rewrite Hl, Hm.
  - intros s' p1. rewrite Hp. case_decide; [subst; intros [= <-] Hlog; apply (H4 s p); congruence|apply H4].
  - intros s' p1. rewrite Hp. case_decide; [by intros [= <-]|apply H5].
Qed.
(** ** Events *)
Definition answers_ok (a : Answers) : Prop := ∀ op, a_query a op ≠ Some 0.
Lemma standing_opened opened udp s p g : game_inv opened udp g → players_ g !! s = Some p → s ∈ opened.
Proof.
  intros Hi Hp. destruct (decide (s ∈ opened)) as [|Hn]; [done|]. destruct (gi_fresh _ _ _ Hi s Hn). congruence.
Qed.
Lemma phase_logged opened udp s p g : game_inv opened udp g → players_ g !! s = Some p → logging_requested p = true →
  phase s (effects g) = Some (Logged (messages p)).
Proof. intros Hi Hp Hl. destruct (gi_phase _ _ _ Hi s) as (ph & Hph & Hst). rewrite Hp in Hst. simpl in Hst. rewrite Hl in Hst. congruence. Qed.
Lemma command_inv opened udp s payload p a g : game_inv opened udp g → answers_ok a → players_ g !! s = Some p →
  logging_requested p = true → game_inv opened udp (answer_command s payload p a g).
Proof.
  intros Hi Ha Hp Hl. destruct (gi_range _ _ _ Hi s p Hp Hl) as [Hmax Hudp]. unfold answer_command.
  assert (∀ text, game_inv opened udp (reply s text a g)) as Hreply by (intros; eapply unasked_inv; [apply unasked_reply|done]).
  repeat (case_bool_decide; [try apply Hreply|]).
  - pose proof (asks_history s (a_query a History) g Hmax (gi_zero _ _ _ Hi) (Ha History)) as Hk.
    destruct (on_store _ g) as [ok g2]. destruct Hk as [n Hk].
    assert (game_inv opened udp g2) as Hg.
    { eapply (asks_inv _ _ s _ (Logged (messages p)) g g); try done; try (rewrite (ak_players _ _ _ _ Hk)).
      - by eapply standing_opened.
      - by rewrite (phase_logged _ _ _ _ _ Hi Hp Hl).
      - rewrite Hp. simpl. by rewrite Hl.
      - done.
      - intros p' Hp'. split; [done|]. by eapply gi_names. }
    destruct ok; [done|]. eapply unasked_inv; [apply unasked_reply|done].
  - destruct (valid_name _) eqn:Hv; [|apply Hreply]. eapply unasked_inv; [apply unasked_reply|]. by eapply set_player_inv.
  - apply Hreply.
Qed.
Lemma message_inv opened udp u s payload a g g' : game_inv opened udp g → answers_ok a → handle_message u s payload a g = Some g' →
  game_inv opened udp g'.
Proof.
  intros Hi Ha. unfold handle_message. destruct u; [intros [= <-]; eapply unasked_inv; [apply unasked_reply|done]|].
  destruct (players_ g !! s) as [p|] eqn:Hp; [|done]. destruct (logging_requested p) eqn:Hl; cbn [negb]; [|by intros [= <-]].
  destruct (_ =? INT64_MAX); [done|]. set (p' := mkPlayer _ _ _). destruct (gi_range _ _ _ Hi s p Hp Hl) as [Hmax Hudp].
  pose proof (asks_update s (messages p') false (a_query a Save) (set_player s p' g) Hmax (gi_zero _ _ _ Hi) (Ha Save)) as Hk.
  destruct (on_store _ _) as [ok g2]. intros [= <-].
  assert (∀ s', players_ g2 !! s' = if decide (s' = s) then Some p' else players_ g !! s') as Hpl.
  { intros s'. rewrite (ak_players _ _ _ _ Hk). cbn [set_player with_players players_].
    case_decide; [subst; apply lookup_insert_eq|by apply lookup_insert_ne]. }
  assert (players_ g2 !! s = Some p') as Hps by by rewrite Hpl, decide_True.
  assert (game_inv opened udp g2) as Hg.
  { eapply (asks_inv _ _ s _ (Logged (messages p')) g _ g2 Hi Hk eq_refl); [by eapply standing_opened|done|..].
    - rewrite (phase_logged _ _ _ _ _ Hi Hp Hl). simpl. by rewrite Z.eqb_refl.
    - by rewrite Hps.
    - intros s' Hne. by rewrite Hpl, decide_False.
    - intros p1. rewrite Hps. intros [= <-]. split; [done|]. by apply (gi_names _ _ _ Hi s p). }
  destruct ok; [by apply command_inv|]. eapply unasked_inv; [apply unasked_reply|done].
Qed.
(** A session that begins. *)
Lemma begin_inv opened udp (u : bool) s p qs ph g g2 : game_inv opened udp g → s ∉ opened → pending_ (store_ g2) !! 0 = None →
  players_ g2 = <[s := p]> (players_ g) → queries s (effects g2) = qs → (∀ s', s' ≠ s → queries s' (effects g2) = queries s' (effects g)) →
  foldl advance (Some Unknown) qs = Some ph → standing (Some p) ph → (u = true → qs = []) →
  (logging_requested p = true → s ≤ INT64_MAX ∧ u = false) → good_name (display_name p) →
  game_inv (opened ++ [s]) (if u then udp ++ [s] else udp) g2.
Proof.
  intros [H0 H1 H2 H3 H4 H5] Hs Hz Hp Hq Hn Hph Hst Hu Hl Hname.
  assert (s ∉ udp) as Hsu by (intros Hin; by apply H2 in Hin as [? _]).
  assert (∀ x, x ∈ (if u then udp ++ [s] else udp) → x = s ∧ u = true ∨ x ∈ udp) as Hin.
  { intros x. destruct u; [|auto]. rewrite elem_of_app, list_elem_of_singleton. naive_solver. }
  assert (∀ s', players_ g2 !! s' = if decide (s' = s) then Some p else players_ g !! s') as Hpl.
  { intros s'. rewrite Hp. case_decide; [subst; apply lookup_insert_eq|by apply lookup_insert_ne]. }
  split; [done|..].
  - intros s' [Hs1 Hs2]%not_elem_of_app. rewrite list_elem_of_singleton in Hs2. rewrite Hpl, decide_False, Hn by done. by apply H1.
  - intros s' [[-> Hut]|Hsu']%Hin; [|destruct (H2 s' Hsu') as [??]; rewrite elem_of_app, Hn by (by intros ->); auto].
    rewrite elem_of_app, list_elem_of_singleton, Hq. auto.
  - intros s'. rewrite Hpl. case_decide as E; [subst; exists ph; by rewrite <- Hph|]. unfold phase. rewrite Hn by done. apply H3.
  - intros s' p'. rewrite Hpl. case_decide as E; [intros [= <-] Hlog|intros Hs' Hlog].
    + subst. destruct (Hl Hlog) as [? ->]. done.
    + destruct (H4 s' p' Hs' Hlog). split; [done|]. intros [[-> ?]|?]%Hin; done.
  - intros s' p'. rewrite Hpl. case_decide; [by intros [= <-]|apply H5].
Qed.
Definition opens (t : Turn) : list Z :=
  match t with
  | mkTurn _ (Some (ev, _, _)) => if decide (EventQueue.kind ev = EventQueue.Open) then [session_id (EventQueue.peer ev)] else []
  | _ => []
  end.
Definition datagrams (t : Turn) : list Z :=
  match t with
  | mkTurn _ (Some (ev, _, _)) => if decide (protocol (EventQueue.peer ev) = Udp) then opens t else []
  | _ => []
  end.
Lemma open_inv opened udp ev payload a g g' : EventQueue.kind ev = EventQueue.Open → session_id (EventQueue.peer ev) ∉ opened →
  game_inv opened udp g → answers_ok a → handle_event ev payload a g = Some g' →
  let t := mkTurn [] (Some (ev, payload, a)) in game_inv (opened ++ opens t) (udp ++ datagrams t) g'.
Proof.
  intros Hk Hn Hi Ha. unfold handle_event, datagrams, opens. rewrite Hk, !(decide_True _ _ eq_refl).
  set (s := session_id (EventQueue.peer ev)) in *. destruct (gi_fresh _ _ _ Hi s Hn) as [Hfree Hnone].
  pose proof (gi_zero _ _ _ Hi) as H0. case_bool_decide as Hu.
  - rewrite decide_True, Hfree by done. intros [= <-]. apply (begin_inv opened udp true s new_player [] Unknown g); try done; simpl; auto.
  - rewrite decide_False, app_nil_r by done. unfold open_connection, database_session. destruct (INT64_MAX <? s) eqn:Hbig.
    + simpl. rewrite Hfree. intros [= <-]. eapply (begin_inv opened udp false s new_player [] Unknown g); try done; simpl; auto.
      * by rewrite app_nil_r, queries_app, Hnone.
      * intros s' _. by rewrite app_nil_r, queries_app, app_nil_r.
    + bprop. pose proof (asks_submit s Open (txt "INSERT INTO engine_connections(run_id,session_id,protocol,peer_address) VALUES(?,?,?,?)")
        [integer_parameter (run_id_ (store_ g)); integer_parameter s; integer_parameter (protocol_code (protocol (EventQueue.peer ev)));
         text_parameter (address (EventQueue.peer ev))] (a_query a Open) g H0 (Ha Open)) as Hk2.
      unfold on_store in *. destruct (submit _ _ _ _ _ _) as [[ok asked] s']. destruct Hk2 as [-> [Kz Kp Kq Kn]]. rewrite Hnone in Kq.
      destruct (a_query a Open) as [q|]; simpl; simpl in Kp, Kz, Kq, Kn; rewrite Hfree; intros [= <-].
      * by apply (begin_inv opened udp false s (mkPlayer (txt "Guest") 0 true) [(Open, run_id_ (store_ g), true)] (Logged 0) g).
      * apply (begin_inv opened udp false s new_player [(Open, run_id_ (store_ g), false)] Refused g); try done.
        -- change (queries s ((effects g ++ asked) ++ [Disconnected s]) = [(Open, run_id_ (store_ g), false)]).
           by rewrite queries_app, Kq.
        -- intros s1 Hs1. change (queries s1 ((effects g ++ asked) ++ [Disconnected s]) = queries s1 (effects g)).
           by rewrite queries_app, Kn, app_nil_r.
        -- by right.
Qed.
(** A player taken away, its close asked when the database knows of it. *)
Lemma close_player_inv opened udp s p answer g : game_inv opened udp g → answer ≠ Some 0 → players_ g !! s = Some p →
  game_inv opened udp (let g := if logging_requested p then (on_store (update s (messages p) true answer) g).2 else g in
    with_players (delete s (players_ g)) g).
Proof.
  intros Hi Ha Hp. destruct (logging_requested p) eqn:Hl; cbn zeta.
  - destruct (gi_range _ _ _ Hi s p Hp Hl) as [Hmax Hudp].
    pose proof (asks_update s (messages p) true answer g Hmax (gi_zero _ _ _ Hi) Ha) as Hk.
    destruct (on_store _ g) as [ok g2]. destruct Hk as [Kz Kp Kq Kn]. cbn [snd].
    eapply (asks_inv _ _ s (Close, messages p, bool_decide (is_Some answer)) Finished g
      (with_players (delete s (players_ g)) g) _ Hi); try done.
    + split; try done. cbn [with_players players_]. by rewrite Kp.
    + by eapply standing_opened.
    + rewrite (phase_logged _ _ _ _ _ Hi Hp Hl). simpl. by rewrite Z.eqb_refl.
    + cbn [with_players players_]. by rewrite lookup_delete_eq.
    + intros s' Hne. cbn [with_players players_]. rewrite lookup_delete_ne by done. by rewrite Kp.
    + intros p'. cbn [with_players players_]. by rewrite lookup_delete_eq.
  - destruct Hi as [H0 H1 H2 H3 H4 H5].
    assert (∀ s', players_ (with_players (delete s (players_ g)) g) !! s' = if decide (s' = s) then None else players_ g !! s') as Hpl.
    { intros s'. cbn [with_players players_]. case_decide; [subst; apply lookup_delete_eq|by apply lookup_delete_ne]. }
    split; try done.
    + intros s' Hs'. rewrite Hpl. destruct (H1 s' Hs'). by case_decide.
    + intros s'. destruct (H3 s') as (ph & Hph & Hst). exists ph. split; [done|]. rewrite Hpl. case_decide; [subst|done].
      rewrite Hp in Hst. simpl in Hst. rewrite Hl in Hst. intros n ->. by destruct Hst.
    + intros s' p'. rewrite Hpl. case_decide; [done|apply H4].
    + intros s' p'. rewrite Hpl. case_decide; [done|apply H5].
Qed.
Lemma event_inv opened udp ev payload a g g' : game_inv opened udp g → answers_ok a →
  let t := mkTurn [] (Some (ev, payload, a)) in (∀ s, s ∈ opens t → s ∉ opened) →
  handle_event ev payload a g = Some g' → game_inv (opened ++ opens t) (udp ++ datagrams t) g'.
Proof.
  intros Hi Ha t Ho He. destruct (decide (EventQueue.kind ev = EventQueue.Open)) as [Hk|Hk].
  { eapply open_inv; try done. apply Ho. unfold t, opens. rewrite decide_True by done. apply list_elem_of_here. }
  assert (opens t = [] ∧ datagrams t = []) as [-> ->].
  { unfold t, datagrams, opens. rewrite decide_False by done. by case_decide. }
  rewrite !app_nil_r. unfold handle_event in He. destruct (EventQueue.kind ev); try done.
  - by eapply message_inv.
  - injection He as <-. destruct (players_ g !! _) as [p|] eqn:Hp; [|done]. by apply close_player_inv.
  - by injection He as <-.
  - by injection He as <-.
Qed.
(** A result that is polled asks nothing. *)
Lemma unasked_complete o g c s : complete o (store_ g) = Some (c, s) → unasked g (with_store s g).
Proof.
  unfold complete. intros Hc. split; [|done|exists []; by rewrite app_nil_r]. intros H0. cbn [with_store store_].
  assert (pending_ s = delete (o_request o) (pending_ (store_ g))) as ->.
  { repeat (case_match; try done); simplify_eq; done. }
  apply lookup_delete_None. auto.
Qed.
Lemma unasked_refl g : unasked g g.
Proof. split; try done. exists []. by rewrite app_nil_r. Qed.
Lemma unasked_report c a g : unasked g (report_completion c a g).
Proof.
  unfold report_completion. repeat case_match; try apply unasked_refl; try apply unasked_reply.
  eapply unasked_trans; [apply unasked_reply|apply unasked_emit].
Qed.
Lemma poll_inv opened udp outcomes g g' : game_inv opened udp g → poll_database outcomes g = Some g' → game_inv opened udp g'.
Proof.
  unfold poll_database. intros Hi. revert g Hi. induction (take 64 outcomes) as [|[o a] l IH]; intros g Hi; simpl; [by intros [= <-]|].
  destruct (complete o (store_ g)) as [[c s]|] eqn:E.
  - apply IH. eapply unasked_inv; [|exact Hi]. eapply unasked_trans; [by eapply unasked_complete|apply unasked_report].
  - clear. intros H. exfalso. revert H. by induction l.
Qed.
Definition turn_answers (t : Turn) : Prop := match t with mkTurn _ (Some (_, _, a)) => answers_ok a | _ => True end.
Lemma game_turn_inv opened udp t g g' : game_inv opened udp g → turn_answers t → (∀ s, s ∈ opens t → s ∉ opened) →
  turn (Some g) t = Some g' → game_inv (opened ++ opens t) (udp ++ datagrams t) g'.
Proof.
  intros Hi Ha Ho. destruct t as [outcomes event]. cbn [turn]. destruct (poll_database outcomes g) as [g1|] eqn:Ep; [|done].
  pose proof (poll_inv _ _ _ _ _ Hi Ep) as Hi1. destruct event as [[[ev payload] a]|].
  - intros He. by apply (event_inv opened udp ev payload a g1).
  - intros [= <-]. simpl. by rewrite !app_nil_r.
Qed.
Lemma play_inv ts : ∀ opened udp g g', game_inv opened udp g → Forall turn_answers ts → NoDup (opened ++ (ts ≫= opens)) →
  runs turn (Some g) ts = Some g' → game_inv (opened ++ (ts ≫= opens)) (udp ++ (ts ≫= datagrams)) g'.
Proof.
  induction ts as [|t ts IH]; intros opened udp g g' Hi Ha Hnd Hr.
  { injection Hr as <-. by rewrite !app_nil_r. }
  apply Forall_cons in Ha as [Hat Ha]. rewrite !bind_cons in *. rewrite app_assoc in Hnd. unfold runs in Hr. simpl in Hr.
  destruct (turn (Some g) t) as [g1|] eqn:Et; cycle 1.
  { exfalso. unfold turn in Et. rewrite Et in Hr. revert Hr. clear. by induction ts. }
  pose proof Et as Et'. unfold turn in Et'. rewrite Et' in Hr.
  rewrite !app_assoc. apply (IH _ _ g1); [|done|done|exact Hr]. apply (game_turn_inv _ _ t g); try done.
  intros s Hs Hin. apply NoDup_app in Hnd as (Hnd & _). apply NoDup_app in Hnd as (_ & Hn & _). by apply (Hn s).
Qed.
(** ** The end *)
Definition settled (s : Z) (l : list Effect) : Prop := ∃ ph, phase s l = Some ph ∧ ∀ n, ph ≠ Logged n.
Lemma close_players_case answers l : (∀ s, answers s ≠ Some 0) → ∀ g, pending_ (store_ g) !! 0 = None → NoDup l.*1 →
  (∀ s p, (s, p) ∈ l → if logging_requested p then phase s (effects g) = Some (Logged (messages p)) ∧ s ≤ INT64_MAX
    else settled s (effects g)) →
  let g' := foldl (λ g x, if logging_requested x.2 then (on_store (update x.1 (messages x.2) true (answers x.1)) g).2 else g) g l in
  (∀ s, s ∈ l.*1 → settled s (effects g')) ∧ ∀ s, s ∉ l.*1 → queries s (effects g') = queries s (effects g).
Proof.
  intros Ha. induction l as [|[s p] l IH]; intros g H0 Hnd Hl; [split; [intros s Hs; by apply elem_of_nil in Hs|done]|].
  rewrite fmap_cons in *. apply NoDup_cons in Hnd as [Hns Hnd]. cbn [foldl fst snd].
  pose proof (Hl s p (list_elem_of_here _ _)) as Hp. set (g1 := if logging_requested p then _ else g).
  assert (pending_ (store_ g1) !! 0 = None ∧ settled s (effects g1) ∧ ∀ s', s' ≠ s → queries s' (effects g1) = queries s' (effects g))
    as (Z1 & S1 & Q1).
  { unfold g1. destruct (logging_requested p); [|done]. destruct Hp as [Hp Hmax].
    pose proof (asks_update s (messages p) true (answers s) g Hmax H0 (Ha s)) as Hk. destruct (on_store _ g) as [ok g2].
    destruct Hk as [Kz Kp Kq Kn]. cbn [snd]. split_and!; [done| |done]. exists Finished. split; [|done].
    unfold phase in *. rewrite Kq, foldl_app, Hp. simpl. by rewrite Z.eqb_refl. }
  clearbody g1. destruct (IH g1 Z1 Hnd) as [Hin Hout].
  { intros s' p' Hin. assert (s' ≠ s). { intros ->. apply Hns, list_elem_of_fmap. by exists (s, p'). }
    specialize (Hl s' p' (list_elem_of_further _ _ _ Hin)). unfold settled, phase in *. by rewrite Q1. }
  split.
  - intros s' [->|Hs']%elem_of_cons; [|by apply Hin]. destruct (decide (s ∈ l.*1)); [by apply Hin|].
    unfold settled, phase in *. by rewrite Hout.
  - intros s' [Hne Hs']%not_elem_of_cons. rewrite Hout, Q1; done.
Qed.
(** C28: The game server keeps the database's account of a session straight, whoever can be
    reached and whatever the database accepts, refuses or fails, as long as session numbers
    are fresh and no query is given the reserved number. The queries of a session are its
    opening, then, if that was accepted, one for each message with the numbers 1, 2, 3 and
    so on, requests for its history among them, and at its end one close that carries the
    final count; nothing is asked after a close or a refused opening, and nothing ever for
    a UDP session. The count stands in the player's entry, a name is printable, and when
    the server is shut down every session the database was told of has been closed. *)
Theorem game_account_straight s0 ts g : pending_ s0 = ∅ → Forall turn_answers ts → NoDup (ts ≫= opens) → play s0 ts = Some g →
  (∀ s, ∃ ph, phase s (effects g) = Some ph ∧ standing (players_ g !! s) ph) ∧
  (∀ s, s ∈ ts ≫= datagrams → queries s (effects g) = []) ∧
  (∀ s p, players_ g !! s = Some p → good_name (display_name p)) ∧
  ∀ answers outcomes, (∀ s, answers s ≠ Some 0) → ∀ s, settled s (effects (shut_down answers outcomes g).1).
Proof.
  intros Hs0 Ha Hnd Hg. assert (game_inv [] [] (new_game s0)) as Hnew.
  { split; cbn [new_game store_ players_ effects].
    - by rewrite Hs0.
    - done.
    - intros s Hs. by apply elem_of_nil in Hs.
    - intros s. exists Unknown. rewrite lookup_empty. split; [done|by intros n].
    - intros s p Hp. by rewrite lookup_empty in Hp.
    - intros s p Hp. by rewrite lookup_empty in Hp. }
  pose proof (play_inv ts [] [] (new_game s0) g Hnew Ha Hnd Hg) as Hi. cbn [app] in Hi.
  split; [apply Hi|]. split; [intros s Hs; by apply (gi_udp _ _ _ Hi s)|]. split; [apply Hi|]. intros answers outcomes Hans s. cbn [shut_down fst].
  unfold close_players. destruct (close_players_case answers (map_to_list (players_ g)) Hans g (gi_zero _ _ _ Hi)) as [Hin Hout].
  - apply NoDup_fst_map_to_list.
  - intros s' p Hp%elem_of_map_to_list. destruct (logging_requested p) eqn:Hl.
    + split; [by eapply phase_logged|]. by eapply gi_range.
    + destruct (gi_phase _ _ _ Hi s') as (ph & Hph & Hst). exists ph. split; [done|]. rewrite Hp in Hst. simpl in Hst. rewrite Hl in Hst.
      intros n ->. by destruct Hst.
  - destruct (players_ g !! s) as [p|] eqn:Hp.
    + apply Hin, list_elem_of_fmap. exists (s, p). split; [done|]. by apply elem_of_map_to_list.
    + assert (s ∉ (map_to_list (players_ g)).*1) as Hn.
      { intros ([s' p] & -> & Hm)%list_elem_of_fmap. apply elem_of_map_to_list in Hm. simpl in Hp. congruence. }
      destruct (gi_phase _ _ _ Hi s) as (ph & Hph & Hst). rewrite Hp in Hst. exists ph. unfold phase in *. rewrite Hout by done. done.
Qed.

(** ** At work *)
Module Session.
Definition answers (op : option Z) : Answers := mkAnswers (λ _, true) (λ _, op).
Definition event (k : EventQueue.EventKind) (session : Z) (p : Protocol) (payload : bytes) (q : option Z) : Turn :=
  mkTurn [] (Some (EventQueue.mkEvent k (mkPeer session 1 p (txt "127.0.0.1") 9000) 1 (zlen payload), payload, answers q)).
Definition says (session : Z) (text : string) (q : option Z) : Turn := event EventQueue.Message session Tcp (txt text) q.
(** One player over TCP, one over UDP; a save is refused; the first name is bad. *)
Definition evening : list Turn :=
  [event EventQueue.Open 7 Tcp [] (Some 1); event EventQueue.Open 8 Udp [] None; says 7 "PING" (Some 2); says 7 "NAME " None;
   mkTurn [(mkOutcome 1 SE_OK [] 0 None, answers None)] None; says 7 "NAME ann" (Some 3); event EventQueue.Message 8 Udp (txt "PING") None].
End Session.
Lemma game_account_straight_witness : ∃ g, play (mkStore 1 ∅) Session.evening = Some g ∧
  phase 7 (effects g) = Some (Logged 3) ∧ queries 8 (effects g) = [] ∧ settled 7 (effects (shut_down (λ _, Some 9) [] g).1).
Proof.
  assert ((λ g, (phase 7 (effects g), length (effects g))) <$> play (mkStore 1 ∅) Session.evening = Some (Some (Logged 3), 8%nat)) as Hg
    by (vm_compute; reflexivity).
  apply fmap_Some in Hg as (g & Hg & Hp). injection Hp as Hp _. exists g. split; [exact Hg|]. split; [symmetry; exact Hp|].
  destruct (game_account_straight (mkStore 1 ∅) Session.evening g eq_refl) as (_ & Hu & _ & Hd);
    [repeat constructor; intros op; discriminate|apply (bool_decide_unpack _); vm_compute; exact I|exact Hg|].
  split; [apply Hu; vm_compute; apply list_elem_of_here|]. apply Hd. intros s. discriminate.
Defined.
(** The server the game configures is one the library accepts and starts, given a
    certificate and its key; without them it throws what the library says. *)
Example game_opens :
  (open_game (λ _, true) (λ _, Ok tt) (txt "server.pem") (txt "server.key") Abi.empty_registry).1 = Ok 1 ∧
  (open_game (λ _, true) (λ _, Ok tt) [] (txt "server.key") Abi.empty_registry).1
  = Err (txt "TLS listener requires certificate_chain_file and private_key_file").
Proof. split; vm_compute; reflexivity. Qed.
