(* ===== verification/GameClient.v ===== *)
(** GameClient: the console client of the game server ([src/examples/GameClient/main.cpp]):
    its command line, its framing over TLS, its datagrams, its loop of commands. What the
    network and the console give is an argument: the bytes the server sends, the datagrams
    that arrive in time, the lines typed. *)
From S2P Require Import Prelude.
From S2P Require Import Text.
From S2P Require Import NetTypes.
From S2P Require Import HttpCodec.
From S2P Require Import WorkerContext.
From S2P Require Import World.
From S2P Require Import TcpConnection.
From S2P Require Import TransportInvariant.
From S2P Require Import TransportSafety.
From S2P Require Import TransportHistory.
From S2P Require Import TransportProperties.
From S2P Require Import TransportBehaviour.

(** [src/examples/GameClient/main.cpp:26-26] *)
Inductive Mode := Unset | TcpMode | UdpMode.
#[export] Instance Mode_eq_dec : EqDecision Mode.
Proof. solve_decision. Defined.
(** [src/examples/GameClient/main.cpp:28-36] *)
Record Options := mkOptions {
  mode : Mode; host_name : bytes; port : bytes; trust_file : bytes; commands : list bytes;
  max_frame_bytes : Z; timeout : Z;
}.
(** [src/examples/GameClient/main.cpp:29-35] {Options} *)
Definition default_options : Options := mkOptions Unset [] [] [] [] 4096 3000.
Definition with_mode m o := mkOptions m (host_name o) (port o) (trust_file o) (commands o) (max_frame_bytes o) (timeout o).
Definition with_host h o := mkOptions (mode o) h (port o) (trust_file o) (commands o) (max_frame_bytes o) (timeout o).
Definition with_port p o := mkOptions (mode o) (host_name o) p (trust_file o) (commands o) (max_frame_bytes o) (timeout o).
Definition with_trust t o := mkOptions (mode o) (host_name o) (port o) t (commands o) (max_frame_bytes o) (timeout o).
Definition with_commands l o := mkOptions (mode o) (host_name o) (port o) (trust_file o) (commands o ++ l) (max_frame_bytes o) (timeout o).
Definition with_max_frame z o := mkOptions (mode o) (host_name o) (port o) (trust_file o) (commands o) z (timeout o).
Definition with_timeout z o := mkOptions (mode o) (host_name o) (port o) (trust_file o) (commands o) (max_frame_bytes o) z.

(** ** The command line *)
(** [src/examples/GameClient/main.cpp:58-61] *)
Definition starts_with_option (value : bytes) : bool := match value with x2d :: x2d :: _ => true | _ => false end.
(** [std::stoul] in base ten, for an [unsigned long] of a width: white space, a sign, digits;
    a negated number wraps. The value and the number of characters used. *)
Definition stoul (width : Z) (value : bytes) : option (Z * Z) :=
  let l := drop_spaces value in
  let '(negative, l) := match l with x2d :: l => (true, l) | x2b :: l => (false, l) | _ => (false, l) end in
  match unsigned_chars l with
  | Some (v, rest) =>
      if 2 ^ width <=? v then None
      else Some ((if negative then (- v) mod 2 ^ width else v), zlen value - zlen rest)
  | None => None
  end.

Section CommandLine.
Context (width : Z).

(** [src/examples/GameClient/main.cpp:74-87] Or what the usage error says. *)
Definition parse_u32 (value option : bytes) (minimum maximum : Z) : result bytes Z :=
  match stoul width value with
  | None => Err (option ++ txt " must be a decimal number")
  | Some (parsed, used) =>
      if negb (used =? zlen value) || (parsed <? minimum) || (maximum <? parsed)
      then Err (option ++ txt " is outside the supported range")
      else Ok (u32 parsed)
  end.
(** What the arguments come to: the usage is printed and the program ends, a usage error,
    or options. *)
Inductive Parsed := Help | Usage (message : bytes) | Given (o : Options).
(** [src/examples/GameClient/main.cpp:64-72] The value of an option is the next argument. *)
Definition require_value (option : bytes) (next : list bytes) : result bytes bytes :=
  match next with
  | [] => Err (option ++ txt " requires a value")
  | value :: _ => if starts_with_option value then Err (option ++ txt " requires a value") else Ok value
  end.
Definition require_number (option : bytes) (minimum maximum : Z) (next : list bytes) : result bytes Z :=
  let? value := require_value option next in parse_u32 value option minimum maximum.
(** [src/examples/GameClient/main.cpp:92-124] {parse_options} The loop over the arguments. *)
Fixpoint parse_arguments (args : list bytes) (o : Options) : Parsed :=
  match args with
  | [] => Given o
  | arg :: rest =>
      if bool_decide (arg = txt "--help") || bool_decide (arg = txt "-h") then Help
      else if bool_decide (arg = txt "--tcp") then
        if bool_decide (mode o = Unset) then parse_arguments rest (with_mode TcpMode o) else Usage (txt "Choose only one protocol")
      else if bool_decide (arg = txt "--udp") then
        if bool_decide (mode o = Unset) then parse_arguments rest (with_mode UdpMode o) else Usage (txt "Choose only one protocol")
      else if bool_decide (arg = txt "--host") then
        match require_value (txt "--host") rest, rest with
        | Ok value, _ :: rest => parse_arguments rest (with_host value o) | Err e, _ => Usage e | _, [] => Usage [] end
      else if bool_decide (arg = txt "--port") then
        match require_number (txt "--port") 1 65535 rest, rest with
        | Ok value, _ :: rest => parse_arguments rest (with_port (dec value) o) | Err e, _ => Usage e | _, [] => Usage [] end
      else if bool_decide (arg = txt "--trust") then
        match require_value (txt "--trust") rest, rest with
        | Ok value, _ :: rest => parse_arguments rest (with_trust value o) | Err e, _ => Usage e | _, [] => Usage [] end
      else if bool_decide (arg = txt "--timeout-ms") then
        match require_number (txt "--timeout-ms") 1 60000 rest, rest with
        | Ok value, _ :: rest => parse_arguments rest (with_timeout value o) | Err e, _ => Usage e | _, [] => Usage [] end
      else if bool_decide (arg = txt "--max-frame-bytes") then
        match require_number (txt "--max-frame-bytes") 1 (16 * 1024 * 1024) rest, rest with
        | Ok value, _ :: rest => parse_arguments rest (with_max_frame value o) | Err e, _ => Usage e | _, [] => Usage [] end
      else if bool_decide (arg = txt "--") then Given (with_commands rest o)
      else if starts_with_option arg then Usage (txt "Unknown option: " ++ arg)
      else parse_arguments rest (with_commands [arg] o)
  end.
(** [src/examples/GameClient/main.cpp:126-131] {parse_options} *)
Definition complete (o : Options) : Parsed :=
  if bool_decide (mode o = Unset) then Usage (txt "Choose --tcp or --udp")
  else
    let tcp := bool_decide (mode o = TcpMode) in
    let o := if bool_decide (host_name o = []) then with_host (if tcp then txt "localhost" else txt "127.0.0.1") o else o in
    let o := if bool_decide (port o = []) then with_port (if tcp then txt "9443" else txt "9001") o else o in
    Given (if tcp && bool_decide (trust_file o = []) then with_trust (txt "certs/server-cert.pem") o else o).
(** [src/examples/GameClient/main.cpp:89-132] The first argument is the program's name. *)
Definition parse_options (args : list bytes) : Parsed :=
  match parse_arguments (tail args) default_options with
  | Given o => complete o
  | other => other
  end.
End CommandLine.

(** ** Frames *)
(** [src/examples/GameClient/main.cpp:134-146] *)
Definition make_tcp_frame (payload : bytes) : result bytes bytes :=
  if 2 ^ 32 - 1 <? zlen payload then Err (txt "TCP payload is too large")
  else
    let size := u32 (zlen payload) in
    Ok ([Z_byte (Z.shiftr size 24); Z_byte (Z.shiftr size 16); Z_byte (Z.shiftr size 8); Z_byte size] ++ payload).
(** [asio::read] of a number of bytes, from those that are to come before the end. *)
Definition read_exactly (n : nat) (incoming : bytes) : result bytes bytes * bytes :=
  if bool_decide (n <= length incoming)%nat then (Ok (take n incoming), drop n incoming) else (Err (txt "End of file"), []).
(** [src/examples/GameClient/main.cpp:148-158] *)
Definition read_tcp_frame (incoming : bytes) (maximum_size : Z) : result bytes bytes * bytes :=
  match read_exactly 4 incoming with
  | (Ok [h0; h1; h2; h3], incoming) =>
      let size := Z.lor (Z.lor (Z.lor (u32 (Z.shiftl (byte_Z h0) 24)) (Z.shiftl (byte_Z h1) 16)) (Z.shiftl (byte_Z h2) 8)) (byte_Z h3) in
      if maximum_size <? size then (Err (txt "TCP reply exceeds --max-frame-bytes"), incoming)
      else if size =? 0 then (Ok [], incoming)
      else read_exactly (Z.to_nat size) incoming
  | (Ok _, incoming) => (Err [], incoming)
  | (Err e, incoming) => (Err e, incoming)
  end.

(** ** The loop of commands *)
Section Loop.
Context {S : Type} (sender : bytes → S → result bytes unit * S).
Fixpoint each (l : list bytes) (s : S) : result bytes unit * S :=
  match l with
  | [] => (Ok tt, s)
  | command :: l =>
      match sender command s with
      | (Ok _, s) => each l s
      | (Err e, s) => (Err e, s)
      end
  end.
(** The lines sent: up to the first empty one, or the end of the input. *)
Fixpoint entered (lines : list bytes) : list bytes :=
  match lines with
  | [] | [] :: _ => []
  | line :: lines => line :: entered lines
  end.
(** [src/examples/GameClient/main.cpp:160-175] *)
Definition run_command_loop (commands lines : list bytes) (s : S) : result bytes unit * S :=
  if bool_decide (commands = []) then each (entered lines) s else each commands s.
End Loop.

(** A connection: what was sent, what is to come, the exchanges written to the console. *)
Record Line := mkLine { sent : bytes; incoming : bytes; shown : list (bytes * bytes) }.
(** [src/examples/GameClient/main.cpp:205-210] {run_tcp} What the loop does with a command;
    a write may fail. *)
Definition tcp_exchange (write_error : bytes → option bytes) (maximum : Z) (command : bytes) (l : Line) : result bytes unit * Line :=
  match make_tcp_frame command with
  | Err e => (Err e, l)
  | Ok frame =>
      match write_error (sent l ++ frame) with
      | Some e => (Err e, l)
      | None =>
          match read_tcp_frame (incoming l) maximum with
          | (Ok reply, rest) => (Ok tt, mkLine (sent l ++ frame) rest (shown l ++ [(command, reply)]))
          | (Err e, rest) => (Err e, mkLine (sent l ++ frame) rest (shown l))
          end
      end
  end.

(** ** Datagrams *)
Record UdpEndpoint := mkUdpEndpoint { address : bytes; udp_port : Z; is_v4 : bool }.
#[export] Instance UdpEndpoint_eq_dec : EqDecision UdpEndpoint.
Proof. solve_decision. Defined.
(** [src/examples/GameClient/main.cpp:213-229] *)
Definition resolve_udp_endpoint (results : list UdpEndpoint) : result bytes UdpEndpoint :=
  match find (λ e, is_v4 e) results, results with
  | Some e, _ => Ok e
  | None, first :: _ => Ok first
  | None, [] => Err (txt "No UDP endpoint resolved")
  end.
(** What [receive_from] answers, while the deadline has not passed. *)
Inductive Arrival := Got (sender : UdpEndpoint) (data : bytes) | WouldBlock | MessageSize | OtherFailure (what : bytes).
(** [src/examples/GameClient/main.cpp:231-252] What happens before the deadline. *)
Fixpoint read_udp_reply (expected_sender : UdpEndpoint) (arrivals : list Arrival) : result bytes bytes :=
  match arrivals with
  | [] => Err (txt "Timed out waiting for UDP reply")
  | Got sender data :: arrivals => if bool_decide (sender = expected_sender) then Ok data else read_udp_reply expected_sender arrivals
  | MessageSize :: _ => Err (txt "UDP reply exceeds the client receive buffer")
  | WouldBlock :: arrivals => read_udp_reply expected_sender arrivals
  | OtherFailure what :: _ => Err what
  end.
(** A socket: the datagrams sent, what arrives while each reply is awaited, and the
    exchanges written to the console. *)
Record Datagrams := mkDatagrams { d_sent : list bytes; d_waits : list (list Arrival); d_shown : list (bytes * bytes) }.
(** [src/examples/GameClient/main.cpp:263-267] {run_udp} What the loop does with a command;
    a send may fail. *)
Definition udp_exchange (send_error : list bytes → option bytes) (endpoint : UdpEndpoint) (command : bytes) (d : Datagrams)
    : result bytes unit * Datagrams :=
  match send_error (d_sent d ++ [command]) with
  | Some e => (Err e, d)
  | None =>
      match read_udp_reply endpoint (default [] (head (d_waits d))) with
      | Ok reply => (Ok tt, mkDatagrams (d_sent d ++ [command]) (tail (d_waits d)) (d_shown d ++ [(command, reply)]))
      | Err e => (Err e, mkDatagrams (d_sent d ++ [command]) (tail (d_waits d)) (d_shown d))
      end
  end.
(** [src/examples/GameClient/main.cpp:289-303] The exit status, given what the connection
    of either kind comes to. *)
Definition run (width : Z) (args : list bytes) (connection : Options → result bytes unit) : Z :=
  match parse_options width args with
  | Help => 0
  | Usage _ => 2
  | Given o => match connection o with Ok _ => 0 | Err _ => 1 end
  end.

(** ** What the server's connection reads, and what it answers *)
Lemma make_frame_encodes payload : zlen payload < 2 ^ 32 → make_tcp_frame payload = Ok (encode_frame payload).
Proof. intros Hp. unfold make_tcp_frame. by destruct (_ <? _) eqn:E; [bprop; lia|]. Qed.
Lemma read_frame_decodes reply rest maximum : zlen reply ≤ maximum → zlen reply < 2 ^ 32 →
  read_tcp_frame (encode_frame reply ++ rest) maximum = (Ok reply, rest).
Proof.
  intros Hm Hr. destruct (split_encode_frame reply rest Hr) as ([[[h0 h1] h2] h3] & Hs & Hd).
  unfold encode_frame, be32 in *. cbn [app split_frame] in Hs. injection Hs as <- <- <- <-.
  unfold read_tcp_frame, read_exactly. cbn [app]. rewrite bool_decide_eq_true_2 by (cbn [length]; lia). cbn [take drop]. rewrite take_0, drop_0.
  set (h0 := Z_byte (Z.shiftr _ 24)) in *. set (h1 := Z_byte (Z.shiftr _ 16)) in *. set (h2 := Z_byte (Z.shiftr _ 8)) in *.
  set (h3 := Z_byte (u32 (zlen reply))) in *.
  assert (Z.lor (Z.lor (Z.lor (u32 (Z.shiftl (byte_Z h0) 24)) (Z.shiftl (byte_Z h1) 16)) (Z.shiftl (byte_Z h2) 8)) (byte_Z h3) = zlen reply) as ->.
  { rewrite <- Hd. unfold decode_header, join32.
    assert (u32 (Z.shiftl (byte_Z h0) 24) = Z.shiftl (byte_Z h0) 24) as ->.
    { apply u32_small. pose proof (byte_Z_range h0). rewrite Z.shiftl_mul_pow2 by lia. unfold is_u32. lia. }
    rewrite (Z.lor_comm _ (byte_Z h3)), (Z.lor_comm (Z.lor _ (Z.shiftl (byte_Z h1) 16))), (Z.lor_comm (Z.shiftl (byte_Z h0) 24)).
    by rewrite !Z.lor_assoc. }
  destruct (_ <? _) eqn:E; [bprop; lia|]. clear E. destruct (Z.eqb_spec (zlen reply) 0) as [E|E].
  - by rewrite (zlen_zero _ E).
  - assert (Z.to_nat (zlen reply) = length reply) as -> by (unfold zlen; lia).
    rewrite bool_decide_eq_true_2 by (rewrite length_app; lia). by rewrite take_app_length, drop_app_length.
Qed.
(** Each command waits for its reply. *)
Lemma each_exchange maximum commands : ∀ replies rest l,
  length replies = length commands → Forall (λ c, zlen c < 2 ^ 32) commands →
  Forall (λ r, zlen r ≤ maximum) replies → maximum < 2 ^ 32 → incoming l = concat (encode_frame <$> replies) ++ rest →
  each (tcp_exchange (λ _, None) maximum) commands l =
    (Ok tt, mkLine (sent l ++ concat (encode_frame <$> commands)) rest (shown l ++ zip commands replies)).
Proof.
  induction commands as [|c commands IH]; intros [|r replies] rest l Hlen Hc Hr Hm Hin; try done.
  { destruct l as [s i h]. simpl in *. by rewrite Hin, !app_nil_r. }
  apply Forall_cons in Hc as [Hc Hcs]. apply Forall_cons in Hr as [Hr Hrs]. injection Hlen as Hlen.
  cbn [each]. unfold tcp_exchange at 1. rewrite make_frame_encodes by done. rewrite Hin. cbn [fmap list_fmap concat].
  rewrite <- (app_assoc (encode_frame r)). rewrite read_frame_decodes by lia.
  rewrite (IH replies rest) by done. cbn [sent shown zip zip_with]. by rewrite <- !app_assoc.
Qed.
(** An oversized reply ends the conversation. *)
Lemma exchange_oversized maximum c r rest l : zlen c < 2 ^ 32 → zlen r < 2 ^ 32 → maximum < zlen r →
  incoming l = encode_frame r ++ rest →
  (tcp_exchange (λ _, None) maximum c l).1 = Err (txt "TCP reply exceeds --max-frame-bytes") ∧
  shown (tcp_exchange (λ _, None) maximum c l).2 = shown l.
Proof.
  intros Hc Hr Hm Hin. unfold tcp_exchange. rewrite make_frame_encodes by done. rewrite Hin.
  pose proof (read_frame_decodes r rest (zlen r) ltac:(lia) Hr) as Hd. revert Hd. unfold read_tcp_frame.
  destruct (read_exactly 4 _) as [[[|h0 [|h1 [|h2 [|h3 [|? ?]]]]]|e] inc]; try done. set (size := Z.lor _ (byte_Z h3)).
  destruct (zlen r <? size) eqn:E1; [done|]. intros Hd.
  assert (size = zlen r) as ->; [|by rewrite (proj2 (Z.ltb_lt _ _) Hm)].
  destruct (size =? 0) eqn:E0; bprop; [by injection Hd as <- <-|].
  unfold read_exactly in Hd. destruct (bool_decide _) eqn:Hl; [|done]. bprop. injection Hd as Hd _.
  apply (f_equal zlen) in Hd. unfold zlen in Hd at 1. rewrite length_take in Hd.
  assert (0 ≤ size); [|lia]. apply Z.lor_nonneg. split; [|apply byte_Z_range].
  apply Z.lor_nonneg. split; [apply Z.lor_nonneg; split; [apply u32_range|]|]; apply Z.shiftl_nonneg, byte_Z_range.
Qed.
(** What the loop runs over. *)
Definition said (commands lines : list bytes) : list bytes := if bool_decide (commands = []) then entered lines else commands.
Lemma run_loop_said {S} (sender : bytes → S → result bytes unit * S) commands lines s :
  run_command_loop sender commands lines s = each sender (said commands lines) s.
Proof. unfold run_command_loop, said. by case_bool_decide. Qed.

(** C38: The client and the server understand each other: a connection of the server, fed
    what the client sends for its commands, typed or given, delivers exactly these commands
    to the host, in order; and when what comes back are the frames the server's connections
    write for as many replies, none over the limit asked for, the client shows each command
    with its own reply, in order, and has consumed exactly these frames. *)
Theorem client_server_conversation commands lines replies rest maximum w id p lim a :
  let cs := said commands lines in
  let '(r, l) := run_command_loop (tcp_exchange (λ _, None) maximum) commands lines
                   (mkLine [] (concat (encode_frame <$> replies) ++ rest) []) in
  awaiting w id p lim a → (∀ log q d, message_answer a log q d = Some true) →
  (∀ c, c ∈ cs → zlen c ≤ max_message_bytes lim) → max_message_bytes lim < 2 ^ 32 →
  length replies = length cs → Forall (λ r, zlen r ≤ maximum) replies → maximum < 2 ^ 32 →
  r = Ok tt ∧ shown l = zip cs replies ∧ incoming l = rest ∧
  ∃ w', receive_stream (2 * length cs) id (sent l) w = ([], w') ∧
    host (context w') = host (context w) ++ ((λ c, EMessage p c true) <$> cs) ∧ awaiting w' id p lim a.
Proof.
  intros cs. rewrite run_loop_said. fold cs. destruct (each _ _ _) as [r l] eqn:He.
  intros Haw Hyes Hsizes Hmax Hlen Hr Hm.
  rewrite (each_exchange maximum cs replies rest) in He; [|done| |done|done|done].
  2: { apply Forall_forall. intros c Hc. specialize (Hsizes c Hc). lia. }
  injection He as <- <-. cbn [sent shown incoming app]. split_and!; try done. by apply receive_frames.
Qed.

(** ** The command line says what it means *)
(** Options a command line can give. *)
Definition number_ok (z maximum : Z) : Prop := 1 ≤ z ≤ maximum.
Record options_ok (o : Options) : Prop := {
  oo_mode : mode o ≠ Unset;
  oo_host : host_name o ≠ [] ∧ starts_with_option (host_name o) = false;
  oo_port : ∃ n, port o = dec n ∧ number_ok n 65535;
  oo_trust : (mode o = TcpMode → trust_file o ≠ []) ∧ starts_with_option (trust_file o) = false;
  oo_frame : number_ok (max_frame_bytes o) (16 * 1024 * 1024);
  oo_timeout : number_ok (timeout o) 60000;
}.
(** A command line that gives them; the commands may look like options. *)
Definition command_line (program : bytes) (o : Options) : list bytes :=
  [program; (if bool_decide (mode o = TcpMode) then txt "--tcp" else txt "--udp");
   txt "--host"; host_name o; txt "--port"; port o; txt "--trust"; trust_file o;
   txt "--timeout-ms"; dec (timeout o); txt "--max-frame-bytes"; dec (max_frame_bytes o); txt "--"] ++ commands o.

Section Exact.
Context (width : Z) (Hwidth : 32 ≤ width).
Lemma dec_digit n : 0 ≤ n < 10 ^ 20 → ∃ d k, dec n = digit_byte d :: k ∧ 0 ≤ d < 10.
Proof.
  intros Hn. destruct (digits_go_dec 20 n [] 0) as (k & Hk & _ & Hd); [done|]. unfold dec. rewrite Hk, app_nil_r.
  destruct (Hd ltac:(done)) as (d & k' & -> & ?). eauto.
Qed.
Lemma digit_plain d : 0 ≤ d < 10 → isspace (digit_byte d) = false ∧ digit_byte d ≠ x2d ∧ digit_byte d ≠ x2b.
Proof.
  intros Hd. assert (d ∈ seqZ 0 10) as Hin by (apply elem_of_seqZ; lia). clear Hd. revert d Hin. apply Forall_forall. vm_compute.
  repeat (constructor; [by split_and!|]). constructor.
Qed.
Lemma small_pow n : n < 2 ^ 32 → n < 2 ^ width.
Proof. intros Hn. pose proof (Z.pow_le_mono_r 2 32 width ltac:(lia) Hwidth). lia. Qed.
Lemma stoul_dec n : 0 ≤ n < 2 ^ 32 → stoul width (dec n) = Some (n, zlen (dec n)).
Proof.
  intros Hn. destruct (dec_digit n) as (d & k & E & Hd); [lia|]. pose proof (unsigned_chars_dec n ltac:(lia)) as Hu.
  destruct (digit_plain d Hd) as (Hs & Hm & Hp). pose proof (small_pow n ltac:(lia)) as Hw. unfold stoul. rewrite E in *.
  rewrite drop_spaces_head by done.
  assert ((match digit_byte d :: k with x2d :: l => (true, l) | x2b :: l => (false, l) | _ => (false, digit_byte d :: k) end) = (false, digit_byte d :: k)) as ->
    by (by destruct (digit_byte d)).
  rewrite Hu. destruct (_ <=? _) eqn:El; [bprop; lia|]. by rewrite zlen_nil, Z.sub_0_r.
Qed.
Lemma parse_u32_dec n option minimum maximum : minimum ≤ n ≤ maximum → 0 ≤ minimum → maximum < 2 ^ 32 →
  parse_u32 width (dec n) option minimum maximum = Ok n.
Proof.
  intros Hn Hm Hx. unfold parse_u32. rewrite stoul_dec by lia. rewrite Z.eqb_refl. cbn [negb orb].
  destruct (_ || _) eqn:E; [apply orb_true_iff in E; rewrite !Z.ltb_lt in E; lia|]. f_equal. apply u32_small. unfold is_u32. lia.
Qed.
Lemma parse_u32_range value option minimum maximum n : parse_u32 width value option minimum maximum = Ok n →
  0 ≤ minimum → maximum < 2 ^ 32 → minimum ≤ n ≤ maximum.
Proof.
  unfold parse_u32. intros Hp Hm Hx. destruct (stoul width value) as [[v used]|]; [|done]. destruct (_ || _) eqn:E in Hp; [done|].
  rewrite !orb_false_iff, !Z.ltb_ge in E. injection Hp as <-. rewrite u32_small by (unfold is_u32; lia). lia.
Qed.
Lemma dec_value n : 0 ≤ n < 10 ^ 20 → starts_with_option (dec n) = false ∧ dec n ≠ [].
Proof.
  intros Hn. destruct (dec_digit n Hn) as (d & k & -> & Hd). destruct (digit_plain d Hd) as (_ & Hm & _). split; [|done].
  unfold starts_with_option. by destruct (digit_byte d).
Qed.
Lemma require_number_dec option minimum maximum n rest : minimum ≤ n ≤ maximum → 0 ≤ minimum → maximum < 2 ^ 32 →
  require_number width option minimum maximum (dec n :: rest) = Ok n.
Proof.
  intros Hn Hm Hx. unfold require_number, require_value. destruct (dec_value n) as [-> _]; [lia|]. simpl. by apply parse_u32_dec.
Qed.
(** One argument after the other. *)
Ltac literals := repeat match goal with |- context [bool_decide (txt ?a = txt ?b)] =>
  let v := eval vm_compute in (bool_decide (txt a = txt b)) in change (bool_decide (txt a = txt b)) with v end; cbv iota.
Ltac argument := intros; cbn [parse_arguments]; literals.
Lemma parse_tcp rest o : mode o = Unset → parse_arguments width (txt "--tcp" :: rest) o = parse_arguments width rest (with_mode TcpMode o).
Proof. argument. by rewrite bool_decide_eq_true_2. Qed.
Lemma parse_udp rest o : mode o = Unset → parse_arguments width (txt "--udp" :: rest) o = parse_arguments width rest (with_mode UdpMode o).
Proof. argument. by rewrite bool_decide_eq_true_2. Qed.
Lemma parse_host value rest o : starts_with_option value = false →
  parse_arguments width (txt "--host" :: value :: rest) o = parse_arguments width rest (with_host value o).
Proof. argument. unfold require_value. by rewrite H. Qed.
Lemma parse_trust value rest o : starts_with_option value = false →
  parse_arguments width (txt "--trust" :: value :: rest) o = parse_arguments width rest (with_trust value o).
Proof. argument. unfold require_value. by rewrite H. Qed.
Lemma parse_port n rest o : number_ok n 65535 →
  parse_arguments width (txt "--port" :: dec n :: rest) o = parse_arguments width rest (with_port (dec n) o).
Proof. argument. by rewrite require_number_dec by (unfold number_ok in *; lia). Qed.
Lemma parse_timeout n rest o : number_ok n 60000 →
  parse_arguments width (txt "--timeout-ms" :: dec n :: rest) o = parse_arguments width rest (with_timeout n o).
Proof. argument. by rewrite require_number_dec by (unfold number_ok in *; lia). Qed.
Lemma parse_max_frame n rest o : number_ok n (16 * 1024 * 1024) →
  parse_arguments width (txt "--max-frame-bytes" :: dec n :: rest) o = parse_arguments width rest (with_max_frame n o).
Proof. argument. by rewrite require_number_dec by (unfold number_ok in *; lia). Qed.
Lemma parse_commands rest o : parse_arguments width (txt "--" :: rest) o = Given (with_commands rest o).
Proof. by argument. Qed.
Lemma command_line_parsed program o : options_ok o → parse_options width (command_line program o) = Given o.
Proof.
  intros [Hmode [Hh Hh'] (n & Hp & Hn) [Ht Ht'] Hf Htm]. destruct (dec_value n) as [_ Hd]; [unfold number_ok in *; lia|].
  destruct o as [m h po tr cs mx tm]. cbn [mode host_name port trust_file commands max_frame_bytes timeout] in *. subst po.
  unfold parse_options, command_line. cbn [app tail mode host_name port trust_file commands max_frame_bytes timeout].
  destruct m; [done|rewrite bool_decide_eq_true_2 by done; rewrite parse_tcp by done|rewrite bool_decide_eq_false_2 by done; rewrite parse_udp by done];
    rewrite parse_host, parse_port, parse_trust, parse_timeout, parse_max_frame, parse_commands by done; unfold complete;
    cbn [mode host_name port trust_file commands max_frame_bytes timeout with_mode with_host with_port with_trust with_timeout with_max_frame with_commands default_options app];
    rewrite (bool_decide_eq_false_2 (h = [])), (bool_decide_eq_false_2 (dec n = [])) by done.
  - by rewrite (bool_decide_eq_false_2 (tr = [])) by auto.
  - done.
Qed.
(** What holds of the options while the arguments are read. *)
Record partial_ok (o : Options) : Prop := {
  po_host : starts_with_option (host_name o) = false;
  po_port : port o = [] ∨ ∃ n, port o = dec n ∧ number_ok n 65535;
  po_trust : starts_with_option (trust_file o) = false;
  po_frame : number_ok (max_frame_bytes o) (16 * 1024 * 1024);
  po_timeout : number_ok (timeout o) 60000;
}.
Lemma require_value_plain option next value : require_value option next = Ok value → starts_with_option value = false.
Proof. unfold require_value. destruct next as [|v rest]; [done|]. destruct (starts_with_option v) eqn:E; [done|]. by intros [= <-]. Qed.
Lemma require_number_range option maximum next n : require_number width option 1 maximum next = Ok n → maximum < 2 ^ 32 → number_ok n maximum.
Proof.
  unfold require_number. destruct (require_value option next) as [v|]; [|done]. simpl. intros Hp Hm.
  by apply (parse_u32_range v option 1).
Qed.
Lemma arguments_ok n : ∀ args o o', (length args < n)%nat → parse_arguments width args o = Given o' → partial_ok o → partial_ok o'.
Proof.
  induction n as [|n IH]; intros [|arg rest] o o' Hn Hp Ho; [lia|lia|by injection Hp as <-|]. cbn [parse_arguments] in Hp. simpl in Hn.
  assert (∀ rest' o1, (length rest' <= length rest)%nat → parse_arguments width rest' o1 = Given o' → partial_ok o1 → partial_ok o') as IH'
    by (intros rest' o1 Hl; apply IH; lia).
  assert (∀ rest', (length rest' <= length (arg :: rest'))%nat) as Hle by (simpl; lia).
  pose proof Ho as [H1 H2 H3 H4 H5].
  destruct (_ || _) in Hp; [done|].
  destruct (bool_decide (arg = txt "--tcp")) in Hp; [destruct (bool_decide (mode o = Unset)) in Hp; [by eapply IH' in Hp|done]|].
  destruct (bool_decide (arg = txt "--udp")) in Hp; [destruct (bool_decide (mode o = Unset)) in Hp; [by eapply IH' in Hp|done]|].
  destruct (bool_decide (arg = txt "--host")) in Hp.
  { destruct (require_value (txt "--host") rest) as [v|] eqn:Ev; destruct rest as [|x rest]; try done.
    eapply IH' in Hp; [done|apply Hle|]. split; try done. by eapply require_value_plain. }
  destruct (bool_decide (arg = txt "--port")) in Hp.
  { destruct (require_number width (txt "--port") 1 65535 rest) as [v|] eqn:Ev; destruct rest as [|x rest]; try done.
    eapply IH' in Hp; [done|apply Hle|]. split; try done. right. exists v. split; [done|by eapply require_number_range]. }
  destruct (bool_decide (arg = txt "--trust")) in Hp.
  { destruct (require_value (txt "--trust") rest) as [v|] eqn:Ev; destruct rest as [|x rest]; try done.
    eapply IH' in Hp; [done|apply Hle|]. split; try done. by eapply require_value_plain. }
  destruct (bool_decide (arg = txt "--timeout-ms")) in Hp.
  { destruct (require_number width (txt "--timeout-ms") 1 60000 rest) as [v|] eqn:Ev; destruct rest as [|x rest]; try done.
    eapply IH' in Hp; [done|apply Hle|]. split; try done. by eapply require_number_range. }
  destruct (bool_decide (arg = txt "--max-frame-bytes")) in Hp.
  { destruct (require_number width (txt "--max-frame-bytes") 1 (16 * 1024 * 1024) rest) as [v|] eqn:Ev; destruct rest as [|x rest]; try done.
    eapply IH' in Hp; [done|apply Hle|]. split; try done. by eapply require_number_range. }
  destruct (bool_decide (arg = txt "--")) in Hp; [by injection Hp as <-|].
  destruct (starts_with_option arg) in Hp; [done|]. by eapply IH' in Hp.
Qed.
(** The options a command line can give are exactly those in range: what is left out has
    its default, and every such options come from the line that spells them out. *)
Theorem client_options_exact program o : options_ok o ↔ ∃ args, parse_options width (program :: args) = Given o.
Proof.
  split.
  { intros Ho. exists (tail (command_line program o)). exact (command_line_parsed program o Ho). }
  intros [args Hp]. unfold parse_options in Hp. cbn [tail] in Hp. destruct (parse_arguments width args default_options) as [| |o1] eqn:E; try done.
  apply (arguments_ok (S (length args))) in E; [|lia|by split; try done; try by left]. destruct E as [H1 H2 H3 H4 H5].
  unfold complete in Hp. destruct o1 as [m h po tr cs mx tm]. cbn [mode host_name port trust_file commands max_frame_bytes timeout] in *.
  case_bool_decide as Hm; [done|]. injection Hp as <-.
  destruct m; [done| |]; destruct h as [|h0 h]; destruct po as [|p0 po]; destruct tr as [|t0 tr]; split; try done; simpl;
    try (split; [done|done]);
    try (destruct H2 as [|(n & -> & Hn)]; [done|by exists n]);
    try (by exists 9443); try (by exists 9001).
Qed.
End Exact.

(** ** At work *)
Module Play.
Definition commands : list bytes := [txt "PING"; txt "STATS"].
Definition replies : list bytes := [txt "PONG"; txt "messages=2"].
Definition line : Line := mkLine [] (concat (encode_frame <$> replies) ++ []) [].
Definition world : LoggedWorld := TransportService.world (reached ascii_iequals no_tls demo_ops).
Definition played : result bytes unit * Line := run_command_loop (tcp_exchange (λ _, None) 4096) [] (commands ++ [[]; txt "QUIT"]) line.
End Play.
Lemma client_server_conversation_witness :
  shown Play.played.2 = [(txt "PING", txt "PONG"); (txt "STATS", txt "messages=2")] ∧
  ∃ w', receive_stream 4 1 (sent Play.played.2) Play.world = ([], w').
Proof.
  pose proof (client_server_conversation [] (Play.commands ++ [[]; txt "QUIT"]) Play.replies [] 4096 Play.world 1
    (mkPeer 1 7 Tcp (txt "10.0.0.1") 40000) default_limits echo_policy) as T. cbv zeta in T.
  fold Play.line in T. fold Play.played in T. destruct Play.played as [r l] eqn:E.
  destruct T as (_ & Hs & _ & w' & Hw & _).
  - split; [|by vm_compute|by vm_compute].
    eexists _, _. split; [split; [vm_compute; reflexivity|reflexivity]|done].
  - done.
  - assert (said [] (Play.commands ++ [[]; txt "QUIT"]) = Play.commands) as -> by (vm_compute; reflexivity).
    intros c [->|[->|Hc]%elem_of_cons]%elem_of_cons; [by vm_compute|by vm_compute|]. by apply not_elem_of_nil in Hc.
  - done.
  - vm_compute. reflexivity.
  - repeat constructor; by vm_compute.
  - done.
  - assert (said [] (Play.commands ++ [[]; txt "QUIT"]) = Play.commands) as Hsaid by (vm_compute; reflexivity).
    rewrite Hsaid in Hs, Hw. cbn [snd]. split; [rewrite Hs; reflexivity|]. exists w'. exact Hw.
Defined.
Example client_options :
  parse_options 64 (txt <$> ["client"; "--udp"; "--port"; " 9001"; "PING"; "--"; "--tcp"]%string) =
    Given (mkOptions UdpMode (txt "127.0.0.1") (txt "9001") [] [txt "PING"; txt "--tcp"] 4096 3000) ∧
  parse_options 64 (txt <$> ["client"; "--tcp"; "--udp"]%string) = Usage (txt "Choose only one protocol") ∧
  parse_options 64 (txt <$> ["client"; "--tcp"; "--port"; "65536"]%string) = Usage (txt "--port is outside the supported range").
Proof. split_and!; vm_compute; reflexivity. Qed.
(** [std::stoul] takes a sign and wraps, so a number far below the range is not refused:
    this one is port 1. *)
Theorem client_port_wraps :
  parse_options 64 (txt <$> ["client"; "--udp"; "--port"; "-18446744073709551615"]%string) =
    Given (mkOptions UdpMode (txt "127.0.0.1") (txt "1") [] [] 4096 3000).
Proof. vm_compute. reflexivity. Qed.
