(* ===== verification/DatagramDemo.v ===== *)
(** DatagramDemo: the demonstration of the datagram transport
    ([src/examples/DatagramTransport/main.cpp]): a server that answers pings and echoes
    snapshots, and its client, as loops over the objects of [SdkDatagram]. What the clock,
    the library and other threads do is the input of a turn of a loop. *)
From S2P Require Import Prelude.
From S2P Require Import Text.
From S2P Require Import NetTypes.
From S2P Require Import Abi.
From S2P Require Import GnsOptions.
From S2P Require Import GnsEndpoint.
From S2P Require Import GnsRuntime.
From S2P Require Import GnsInvariant.
From S2P Require Import GnsLedger.
From S2P Require Import GnsProperties.
From S2P Require Import GnsKept.
From S2P Require Import SdkDatagram.
From S2P Require Import SdkDatagramProperties.

(** [src/examples/DatagramTransport/main.cpp:22-29] The number of a snapshot. *)
Definition snapshot_number (message : bytes) : option Z :=
  if bool_decide (take 5 message = txt "SNAP ") then
    match unsigned_chars (drop 5 message) with
    | Some (sequence, []) => if sequence <? 2 ^ 64 then Some sequence else None
    | _ => None
    end
  else None.
(** What is printed of an exception. *)
Definition what (e : Thrown) : bytes := match e with TransportError _ w | LogicError w | LengthError w => w end.
(** How a turn of a loop ends: it goes round again, waits still in its poll, leaves the
    loop, or throws. *)
Inductive Turn := Goes | Waits | Ends | Fails (e : bytes).

Section Demo.
Context {Addr : Type} `{Addresses Addr} (supported : bool).
(** The endpoint object of either role. *)
Definition endpoint : Z := 1.

(** ** The server *)
(** Its variables, and the snapshots echoed and the pings answered so far, oldest first. *)
Record Server := mkServer { sdk : Sdk; snapshots : gmap Z Z; echoed : list (Z * Z); ponged : list Z }.
(** What a turn meets: the poll's rounds, the library's answer to a send, whether a
    disconnection's record fits in memory. *)
Record Met := mkMet { m_first : Round; m_wakes : list Wake; m_between : Wake; m_answer : EResult; m_disconnect : bool }.
Definition with_sdk s d : Server := mkServer s (snapshots d) (echoed d) (ponged d).
Definition with_snapshots m d : Server := mkServer (sdk d) m (echoed d) (ponged d).

(** [src/examples/DatagramTransport/main.cpp:31-37] {server} With what is left when it throws *)
Definition start_server (port : Z) (created : Created) (made : Made) (s : Sdk) : result Thrown Server * Sdk :=
  match default_options with
  | Err e => (Err e, s)
  | Ok options =>
      let options := mkDatagramOptions (do_struct_size options) (do_abi_version options) (do_flags options) (do_max_peers options)
        4096 (do_max_send_queue_bytes options) (do_max_event_queue_count options) (do_connect_timeout_ms options)
        (do_max_event_queue_bytes options) (do_reserved options) in
      match construct supported endpoint options created s with
      | (Err e, s) => (Err e, s)
      | (Ok _, s) =>
          match listen_on supported endpoint port (txt "127.0.0.1") made s with
          | (Err e, s) => (Err e, destruct_object supported endpoint s)
          | (Ok _, s) => (Ok (mkServer s ∅ [] []), s)
          end
      end
  end.
(** [src/examples/DatagramTransport/main.cpp:54-58] {server} A reliable ping. *)
Definition answer_ping (peer : Z) (i : Met) (d : Server) : Turn * Server :=
  let '(r, s) := send_to supported endpoint peer SE_DATAGRAM_RELIABLE_ORDERED (txt "PONG") (m_answer i) (sdk d) in
  let d := with_sdk s d in
  match r with
  | Err e => (Fails (what e), d)
  | Ok SE_OK => (Goes, mkServer (sdk d) (snapshots d) (echoed d) (ponged d ++ [peer]))
  | Ok _ =>
      let '(r, s) := disconnect_peer supported endpoint peer (m_disconnect i) (sdk d) in
      (match r with Ok _ => Goes | Err e => Fails (what e) end, with_sdk s d)
  end.
(** [src/examples/DatagramTransport/main.cpp:59-69] {server} A snapshot, echoed when it is
    newer than the last one. *)
Definition answer_snapshot (peer : Z) (message : bytes) (i : Met) (d : Server) : Turn * Server :=
  match snapshots d !! peer, snapshot_number message with
  | Some last, Some sequence =>
      if last <? sequence then
        let d := mkServer (sdk d) (<[peer := sequence]> (snapshots d)) (echoed d ++ [(peer, sequence)]) (ponged d) in
        let '(r, s) := send_to supported endpoint peer SE_DATAGRAM_UNRELIABLE message (m_answer i) (sdk d) in
        (match r with Ok _ => Goes | Err e => Fails (what e) end, with_sdk s d)
      else (Goes, d)
  | _, _ => (Goes, d)
  end.
(** [src/examples/DatagramTransport/main.cpp:44-70] {server} *)
Definition server_event (ev : DatagramEvent) (i : Met) (d : Server) : Turn * Server :=
  let meta := metadata ev in
  let peer := de_peer_id meta in
  if de_kind meta =? SE_DATAGRAM_CONNECTED
  then (Goes, match snapshots d !! peer with Some _ => d | None => with_snapshots (<[peer := 0]> (snapshots d)) d end)
  else if de_kind meta =? SE_DATAGRAM_DISCONNECTED then (Goes, with_snapshots (delete peer (snapshots d)) d)
  else if de_kind meta =? SE_DATAGRAM_OVERFLOW then (Fails (txt "Datagram event overflow; recreate endpoint"), d)
  else if de_kind meta =? SE_DATAGRAM_MESSAGE then
    if (de_delivery meta =? SE_DATAGRAM_RELIABLE_ORDERED) && bool_decide (event_bytes ev = txt "PING") then answer_ping peer i d
    else if de_delivery meta =? SE_DATAGRAM_UNRELIABLE then answer_snapshot peer (event_bytes ev) i d
    else (Goes, d)
  else (Goes, d).
(** [src/examples/DatagramTransport/main.cpp:40-43] {server} *)
Definition server_turn (i : Met) (d : Server) : Turn * Server :=
  match poll_endpoint supported endpoint 20 (m_first i) (m_wakes i) (m_between i) new_event (sdk d) with
  | (None, s) => (Waits, with_sdk s d)
  | (Some (Err e, _), s) => (Fails (what e), with_sdk s d)
  | (Some (Ok SE_TIMEOUT, _), s) => (Goes, with_sdk s d)
  | (Some (Ok SE_STOPPED, _), s) => (Ends, with_sdk s d)
  | (Some (Ok _, ev), s) => server_event ev i (with_sdk s d)
  end.
(** [src/examples/DatagramTransport/main.cpp:39-71] {server} Until a stop is requested,
    which the end of the turns is. *)
Fixpoint serve (turns : list Met) (d : Server) : Turn * Server :=
  match turns with
  | [] => (Ends, d)
  | i :: turns =>
      match server_turn i d with
      | (Goes, d) => serve turns d
      | other => other
      end
  end.

(** [src/examples/DatagramTransport/main.cpp:31-72] The exit status of the program, unless
    it waits still, and the objects when the endpoint has been destroyed, however the
    function is left. *)
Definition server (port : Z) (created : Created) (made : Made) (turns : list Met) (s : Sdk) : option Z * Sdk :=
  match start_server port created made s with
  | (Err _, s) => (Some 1, s)
  | (Ok d, _) =>
      match serve turns d with
      | (Waits, d) => (None, sdk d)
      | (t, d) => (Some (match t with Fails _ => 1 | _ => 0 end), destruct_object supported endpoint (sdk d))
      end
  end.

(** ** The client *)
(** [src/examples/DatagramTransport/main.cpp:76-81] {client} Its variables; what it sent is
    recorded. *)
Record Client := mkClient {
  c_sdk : Sdk; c_peer : Z; deadline : Z; next_snapshot : Z; c_connected : bool; ping_queued : bool; pong_received : bool;
  next_sequence : Z; newest_snapshot : Z; c_sent : list bytes;
}.
Definition with_c_sdk s c : Client := mkClient s (c_peer c) (deadline c) (next_snapshot c) (c_connected c) (ping_queued c)
  (pong_received c) (next_sequence c) (newest_snapshot c) (c_sent c).
(** [src/examples/DatagramTransport/main.cpp:74-81] {client} The clock read twice. *)
Definition start_client (port t0 t1 : Z) (created : Created) (made : Made) (s : Sdk) : result Thrown Client * Sdk :=
  match default_options with
  | Err e => (Err e, s)
  | Ok options =>
      match construct supported endpoint options created s with
      | (Err e, s) => (Err e, s)
      | (Ok _, s) =>
          match connect_to supported endpoint port (txt "127.0.0.1") made s with
          | (Err e, s) => (Err e, destruct_object supported endpoint s)
          | (Ok peer, s) => (Ok (mkClient s peer (t0 + 10000) t1 false false false 1 0 []), s)
          end
      end
  end.
(** [src/examples/DatagramTransport/main.cpp:87-105] {client} *)
Definition client_event (ev : DatagramEvent) (c : Client) : result bytes Client :=
  let meta := metadata ev in
  if de_kind meta =? SE_DATAGRAM_CONNECTED
  then Ok (mkClient (c_sdk c) (c_peer c) (deadline c) (next_snapshot c) true (ping_queued c) (pong_received c) (next_sequence c) (newest_snapshot c) (c_sent c))
  else if de_kind meta =? SE_DATAGRAM_DISCONNECTED then Err (txt "Peer disconnected: " ++ de_message meta)
  else if de_kind meta =? SE_DATAGRAM_OVERFLOW then Err (txt "Datagram event overflow; recreate endpoint")
  else if de_kind meta =? SE_DATAGRAM_MESSAGE then
    let pong := pong_received c || ((de_delivery meta =? SE_DATAGRAM_RELIABLE_ORDERED) && bool_decide (event_bytes ev = txt "PONG")) in
    let newest :=
      match snapshot_number (event_bytes ev) with
      | Some sequence => if (de_delivery meta =? SE_DATAGRAM_UNRELIABLE) && (newest_snapshot c <? sequence) then sequence else newest_snapshot c
      | None => newest_snapshot c
      end in
    Ok (mkClient (c_sdk c) (c_peer c) (deadline c) (next_snapshot c) (c_connected c) (ping_queued c) pong (next_sequence c) newest (c_sent c))
  else Ok c.
(** What a turn meets: the clock when the loop looks at it, the poll, the answers to the
    ping and to the snapshot, the clock before and after the snapshot. *)
Record CMet := mkCMet { cm_now : Z; cm_first : Round; cm_wakes : list Wake; cm_between : Wake; cm_ping : EResult; cm_snap : EResult;
  cm_due : Z; cm_after : Z }.
(** [src/examples/DatagramTransport/main.cpp:107-108] {client} *)
Definition send_ping (i : CMet) (c : Client) : option bytes * Client :=
  if ping_queued c then (None, c)
  else
    let '(r, s) := send_to supported endpoint (c_peer c) SE_DATAGRAM_RELIABLE_ORDERED (txt "PING") (cm_ping i) (c_sdk c) in
    match r with
    | Err e => (Some (what e), with_c_sdk s c)
    | Ok status =>
        (None, mkClient s (c_peer c) (deadline c) (next_snapshot c) (c_connected c) (bool_decide (status = SE_OK)) (pong_received c)
                 (next_sequence c) (newest_snapshot c) (c_sent c ++ [txt "PING"]))
    end.
(** [src/examples/DatagramTransport/main.cpp:109-112] {client} *)
Definition send_snapshot (i : CMet) (c : Client) : option bytes * Client :=
  if (next_sequence c <=? 20) && (next_snapshot c <=? cm_due i) then
    let message := txt "SNAP " ++ dec (next_sequence c) in
    let '(r, s) := send_to supported endpoint (c_peer c) SE_DATAGRAM_UNRELIABLE message (cm_snap i) (c_sdk c) in
    match r with
    | Err e => (Some (what e), with_c_sdk s c)
    | Ok _ => (None, mkClient s (c_peer c) (deadline c) (cm_after i + 50) (c_connected c) (ping_queued c) (pong_received c)
                       (next_sequence c + 1) (newest_snapshot c) (c_sent c ++ [message]))
    end
  else (None, c).
(** [src/examples/DatagramTransport/main.cpp:106-113] {client} The sends, once connected. *)
Definition client_sends (i : CMet) (c : Client) : Turn * Client :=
  if negb (c_connected c) then (Goes, c)
  else match send_ping i c with
  | (Some e, c) => (Fails e, c)
  | (None, c) =>
      match send_snapshot i c with
      | (Some e, c) => (Fails e, c)
      | (None, c) => (if pong_received c && (20 <? next_sequence c) && negb (newest_snapshot c =? 0) then Ends else Goes, c)
      end
  end.
(** [src/examples/DatagramTransport/main.cpp:83-114] {client} *)
Definition client_turn (i : CMet) (c : Client) : Turn * Client :=
  if negb (cm_now i <? deadline c) then (Ends, c)
  else match poll_endpoint supported endpoint 10 (cm_first i) (cm_wakes i) (cm_between i) new_event (c_sdk c) with
  | (None, s) => (Waits, with_c_sdk s c)
  | (Some (Err e, _), s) => (Fails (what e), with_c_sdk s c)
  | (Some (Ok SE_STOPPED, _), s) => (Ends, with_c_sdk s c)
  | (Some (Ok SE_OK, ev), s) =>
      match client_event ev (with_c_sdk s c) with
      | Err e => (Fails e, with_c_sdk s c)
      | Ok c => client_sends i c
      end
  | (Some (Ok _, _), s) => client_sends i (with_c_sdk s c)
  end.
(** [src/examples/DatagramTransport/main.cpp:83-114] {client} The loop. *)
Fixpoint client_loop (turns : list CMet) (c : Client) : Turn * Client :=
  match turns with
  | [] => (Ends, c)
  | i :: turns => match client_turn i c with (Goes, c) => client_loop turns c | other => other end
  end.
(** [src/examples/DatagramTransport/main.cpp:115-119] {client} After the loop: what is
    thrown, or the client disconnects, unless a stop was requested. *)
Definition client_ends (stop_requested memory : bool) (c : Client) : result bytes unit * Client :=
  if stop_requested then (Ok tt, c)
  else if negb (pong_received c) then (Err (txt "No reliable PONG before demonstration deadline"), c)
  else
    let '(r, s) := disconnect_peer supported endpoint (c_peer c) memory (c_sdk c) in
    (match r with Ok _ => Ok tt | Err e => Err (what e) end, with_c_sdk s c).
End Demo.

(** ** The program *)
Inductive Role := RunServer (port : Z) | RunClient (port : Z).
(** [src/examples/DatagramTransport/main.cpp:125-136] {main} The role, or the usage is shown
    and the program exits with 2. *)
Definition demo_arguments (args : list bytes) : option Role :=
  match args with
  | [_; role; port_text] =>
      if negb (bool_decide (role = txt "--server")) && negb (bool_decide (role = txt "--client")) then None
      else match unsigned_chars port_text with
      | Some (port, []) =>
          if (port =? 0) || (65535 <? port) then None
          else Some (if bool_decide (role = txt "--server") then RunServer port else RunClient port)
      | _ => None
      end
  | _ => None
  end.

(** * What the demonstration server does

    With the snapshots of its peers, from the protocol of the transport below it, and how a
    peer can end it. *)
(** ** Numbers that go up *)
Fixpoint rising (lo : Z) (l : list Z) : Prop := match l with [] => True | x :: l => lo < x ∧ rising x l end.
Definition newest (lo : Z) (l : list Z) : Z := default lo (last l).
Lemma rising_snoc l x : ∀ lo, rising lo l → newest lo l < x → rising lo (l ++ [x]).
Proof.
  induction l as [|y l IH]; intros lo Hl Hx; [by split|]. destruct Hl as [Hy Hl]. split; [done|]. apply IH; [done|].
  unfold newest in *. rewrite last_cons in Hx. by destruct (last l).
Qed.
Lemma newest_snoc lo l x : newest lo (l ++ [x]) = x.
Proof. unfold newest. by rewrite last_snoc. Qed.

Section Demo.
Context {Addr : Type} `{Addresses Addr} (supported : bool).
(** ** The endpoint of the server *)
(** The object is open at a handle and the application has taken these events from it. *)
Definition holds (h : Z) (past : list QueuedEvent) (s : Sdk) : Prop :=
  Owned supported s ∧ wholes (library s) ∧ (handles s = {[endpoint := h]} ∧ h ≠ 0) ∧
  ∃ e, objects (library s) !! h = Some e ∧ delivered e = past.
Lemma holds_open h past s : holds h past s → ensure_open endpoint s = Ok h ∧ supported = true ∧ h ∈ endpoints (library s).
Proof.
  intros (Ho & _ & [Hk0 Hne] & _). assert (handles s !! endpoint = Some h) as Hk by (rewrite Hk0; apply lookup_singleton_eq).
  assert (h ∈ endpoints (library s)) as Hin by (apply (ow_all _ _ Ho); eauto).
  split_and!; [|by eapply ow_supported|done]. unfold ensure_open. rewrite Hk. by rewrite (proj2 (Z.eqb_neq h 0)).
Qed.
(** A call of the object that takes nothing. *)
Lemma holds_kept h past s r : holds h past s → moved (library s) r → (∀ id, kept_at whole_queue id r) →
  kept_at (resting past None) h r → holds h past (with_library r s).
Proof.
  intros (Ho & Hw & Hk & e & He & Hp) Hm Hwr Hr. split_and!; [by apply moved_owned|done|apply Hk|apply Hk|].
  destruct (mv_later _ _ Hm _ _ He) as (e' & He' & _). exists e'. split; [done|]. apply (Hr _ He').
Qed.
Lemma holds_resting h past s : holds h past s → kept_at (resting past None) h (library s).
Proof. intros (_ & Hw & _ & e & He & Hp) e' He'. rewrite He in He'. injection He' as <-. split; [done|by eapply Hw|done]. Qed.
Lemma send_holds h past peer delivery data answer s : holds h past s → holds h past (send_to supported endpoint peer delivery data answer s).2.
Proof.
  intros Hs. destruct (holds_open _ _ _ Hs) as (Hopen & _). pose proof Hs as (Ho & Hw & _). unfold send_to. rewrite Hopen.
  destruct (_ <? _); [done|]. pose proof (send_call_moved supported h peer delivery (Some data) (u32 (zlen data)) answer _ (ow_inv _ _ Ho)) as Hm.
  pose proof (λ id, send_call_kept whole_queue supported id h peer delivery (Some data) (u32 (zlen data)) answer _ (Hw id)) as Hwr.
  pose proof (send_call_kept (resting past None) supported h h peer delivery (Some data) (u32 (zlen data)) answer _ (holds_resting _ _ _ Hs)) as Hr.
  destruct (se_datagram_send _ _ _ _ _ _ _ _) as [[st e] r]. by apply holds_kept.
Qed.
Lemma disconnect_holds h past peer memory s : holds h past s → holds h past (disconnect_peer supported endpoint peer memory s).2.
Proof.
  intros Hs. destruct (holds_open _ _ _ Hs) as (Hopen & _). pose proof Hs as (Ho & Hw & _). unfold disconnect_peer. rewrite Hopen.
  pose proof (disconnect_call_moved supported h peer memory _ (ow_inv _ _ Ho)) as Hm.
  pose proof (λ id, disconnect_call_kept whole_queue supported id h peer memory _ (Hw id)) as Hwr.
  pose proof (disconnect_call_kept (resting past None) supported h h peer memory _ (holds_resting _ _ _ Hs)) as Hr.
  destruct (se_datagram_disconnect _ _ _ _ _) as [[st e] r]. by apply holds_kept.
Qed.
Definition met_ok (h : Z) (i : Met) : Prop := wakes_calm h (m_wakes i) ∧ wakes_calm h [m_between i].
Lemma poll_holds h past i s : holds h past s → met_ok h i →
  match poll_endpoint supported endpoint 20 (m_first i) (m_wakes i) (m_between i) new_event s with
  | (None, _) => True
  | (Some (res, ev), s') => ∃ status, res = Ok status ∧
      match status with
      | SE_OK => (de_kind (metadata ev) = SE_DATAGRAM_OVERFLOW ∧ holds h past s') ∨
          ∃ q, metadata ev = GnsEndpoint.metadata q ∧ event_bytes ev = q_bytes q ∧ holds h (past ++ [q]) s'
      | SE_TIMEOUT | SE_STOPPED => holds h past s'
      | _ => False
      end
  end.
Proof.
  intros Hs [Hw Hb]. destruct (holds_open _ _ _ Hs) as (_ & Hsup & _). destruct Hs as (Ho & Hwh & Hk0 & e & He & Hp).
  assert (open_at endpoint h s) as Hk by (destruct Hk0 as [E ?]; split; [rewrite E; apply lookup_singleton_eq|done]).
  pose proof (poll_endpoint_case supported s endpoint h e 20 (m_first i) (m_wakes i) (m_between i) new_event Hsup Ho Hwh Hk He Hw Hb) as Hc.
  pose proof (poll_endpoint_owned supported endpoint 20 (m_first i) (m_wakes i) (m_between i) new_event s Ho (wakes_calm_plain _ _ Hw) (wakes_calm_plain _ _ Hb)) as Ho'.
  pose proof (call_whole supported s (PollOn endpoint 20 (m_first i) (m_wakes i) (m_between i) new_event) Hwh (conj (wakes_calm_plain _ _ Hw) (wakes_calm_plain _ _ Hb))) as Hwh'.
  cbn [call] in Hwh'. assert (handles (poll_endpoint supported endpoint 20 (m_first i) (m_wakes i) (m_between i) new_event s).2 = handles s) as Hh.
  { unfold poll_endpoint. destruct (ensure_open endpoint s); [|done]. destruct (poll_into _ _ _ _ _ _ _) as [[[[? ?] ?]|] ?]; [|done].
    case_bool_decide; [|done]. by destruct (poll_into _ _ _ _ _ _ _) as [[[[? ?] ?]|] ?]. }
  destruct (poll_endpoint _ _ _ _ _ _ _ _) as [[[res ev]|] s']; [|done]. simpl in Ho', Hwh', Hh.
  destruct Hc as (status & e' & -> & He' & Hst). exists status. split; [done|].
  assert (∀ past', delivered e' = past' → holds h past' s') as Hholds.
  { intros past' Hd. split_and!; try done; [rewrite Hh; apply Hk0|apply Hk0|by exists e']. }
  rewrite Hp in Hst. destruct status; try done; try (by apply Hholds).
  destruct Hst as [(? & _ & Hd)|(q & Hd & Hm & Hev)]; [left; split; [done|by apply Hholds]|]. right. exists q. split_and!; [done|done|by apply Hholds].
Qed.

(** ** The server's map tells the peers' lives *)
Definition echoes (peer : Z) (d : Server) : list Z := (filter (λ x : Z * Z, x.1 = peer) (echoed d)).*2.
Record following (h : Z) (past : list QueuedEvent) (d : Server) : Prop := {
  fo_holds : holds h past (sdk d);
  fo_rising peer : rising 0 (echoes peer d);
  fo_life peer : match life_in past peer with
    | Some Up => snapshots d !! peer = Some (newest 0 (echoes peer d))
    | Some New => snapshots d !! peer = None ∧ echoes peer d = []
    | _ => snapshots d !! peer = None
    end;
}.
Lemma holds_life h past s peer : holds h past s → is_Some (life_in past peer).
Proof.
  intros (Ho & _ & _ & e & He & <-). pose proof (b_life _ _ (g_base _ _ (ri_good _ (ow_inv _ _ Ho) _ _ He)) peer) as Hl.
  by eapply life_prefix.
Qed.
Lemma following_sdk h past d s : following h past d → holds h past s → following h past (with_sdk s d).
Proof. intros [_ Hr Hl] Hs. by split. Qed.
Lemma ping_following h past peer i d : following h past d → following h past (answer_ping supported peer i d).2.
Proof.
  intros Hf. unfold answer_ping.
  pose proof (send_holds h past peer SE_DATAGRAM_RELIABLE_ORDERED (txt "PONG") (m_answer i) _ (fo_holds _ _ _ Hf)) as Hs.
  destruct (send_to _ _ _ _ _ _ _) as [r s]. simpl in Hs. pose proof (following_sdk h past d s Hf Hs) as Hf1.
  pose proof (disconnect_holds h past peer (m_disconnect i) s Hs) as Hd.
  destruct r as [st|]; [|done].
  assert (following h past (mkServer s (snapshots d) (echoed d) (ponged d ++ [peer]))) as Hp by (destruct Hf1; by split).
  destruct st; try exact Hp; cbn [with_sdk sdk] in *; destruct (disconnect_peer _ _ _ _ _) as [r2 s2]; by apply (following_sdk h past _ s2) in Hf1.
Qed.
Lemma echoes_app peer l d : echoes peer (mkServer (sdk d) (snapshots d) (echoed d ++ l) (ponged d)) =
  echoes peer d ++ (filter (λ x : Z * Z, x.1 = peer) l).*2.
Proof. unfold echoes. cbn [echoed]. by rewrite filter_app, fmap_app. Qed.
(** An event about a peer leaves the others as they were. *)
Lemma learn h past d s q m l : following h past d → holds h (past ++ [q]) s →
  let peer := de_peer_id (GnsEndpoint.metadata q) in
  (∀ p, p ≠ peer → m !! p = snapshots d !! p) → Forall (λ x : Z * Z, x.1 = peer) l → rising 0 (echoes peer d ++ l.*2) →
  (match advance (life_in past peer) (de_kind (GnsEndpoint.metadata q)) with
   | Some Up => m !! peer = Some (newest 0 (echoes peer d ++ l.*2))
   | Some New => m !! peer = None ∧ echoes peer d ++ l.*2 = []
   | _ => m !! peer = None
   end) → following h (past ++ [q]) (mkServer s m (echoed d ++ l) (ponged d)).
Proof.
  intros [Hh Hr Hl] Hs peer Hm Hf Hup Hcase.
  assert (∀ p, echoes p (mkServer s m (echoed d ++ l) (ponged d)) = if decide (p = peer) then echoes peer d ++ l.*2 else echoes p d) as He.
  { intros p. transitivity (echoes p d ++ (filter (λ x : Z * Z, x.1 = p) l).*2); [unfold echoes; cbn [echoed]; by rewrite filter_app, fmap_app|].
    case_decide as E; [subst p|].
    - f_equal. f_equal. clear -Hf. induction Hf as [|x l Hx _ IH]; [done|]. by rewrite filter_cons_True, IH.
    - rewrite <- (app_nil_r (echoes p d)) at 2. f_equal. clear -Hf E. induction Hf as [|x l Hx _ IH]; [done|].
      rewrite filter_cons_False by congruence. apply IH. }
  split; [done| |]; intros p; rewrite He.
  - by case_decide.
  - rewrite life_snoc. fold peer. cbn [snapshots]. case_decide as E; [subst p|].
    + rewrite decide_True by done. exact Hcase.
    + rewrite decide_False by done. rewrite Hm by done. apply Hl.
Qed.
Lemma snapshot_following h past q d s i ev : following h past d → holds h (past ++ [q]) s →
  de_kind (GnsEndpoint.metadata q) = SE_DATAGRAM_MESSAGE →
  following h (past ++ [q]) (with_sdk s d) ∧
  following h (past ++ [q]) (answer_snapshot supported (de_peer_id (GnsEndpoint.metadata q)) ev i (with_sdk s d)).2.
Proof.
  intros Hf Hs Hk. set (peer := de_peer_id (GnsEndpoint.metadata q)). pose proof (holds_life _ _ _ peer Hs) as Hlife.
  rewrite life_snoc, decide_True in Hlife by done. pose proof (fo_life _ _ _ Hf peer) as Hl.
  assert (life_in past peer = Some Up) as Hup.
  { rewrite Hk in Hlife. destruct (life_in past peer) as [[]|]; [by destruct Hlife|done|by destruct Hlife..]. }
  rewrite Hup in Hl.
  assert (following h (past ++ [q]) (with_sdk s d)) as Hsame.
  { pose proof (learn h past d s q (snapshots d) [] Hf Hs) as HL. cbv zeta in HL. fold peer in HL.
    rewrite !app_nil_r in HL. destruct d; apply HL; [done|constructor|apply (fo_rising _ _ _ Hf)|]. by rewrite Hup, Hk. }
  split; [exact Hsame|]. unfold answer_snapshot. cbn [snapshots with_sdk]. rewrite Hl. destruct (snapshot_number ev) as [n|]; [|exact Hsame].
  destruct (_ <? n) eqn:Hn; [|exact Hsame]. bprop. cbn [sdk].
  assert (following h (past ++ [q]) (mkServer s (<[peer:=n]> (snapshots d)) (echoed d ++ [(peer, n)]) (ponged d))) as Hnew.
  { apply learn; [done|done| |by repeat constructor| |]; fold peer.
    - intros p Hp. by rewrite lookup_insert_ne.
    - cbn [fmap list_fmap]. apply rising_snoc; [apply (fo_rising _ _ _ Hf)|done].
    - rewrite Hup, Hk. change (advance (Some Up) SE_DATAGRAM_MESSAGE) with (Some Up). cbn [fmap list_fmap snd].
      by rewrite lookup_insert_eq, newest_snoc. }
  pose proof (send_holds h (past ++ [q]) peer SE_DATAGRAM_UNRELIABLE ev (m_answer i) s Hs) as Hs2.
  destruct (send_to _ _ _ _ _ _ _) as [r s2]. simpl in Hs2. by apply (following_sdk h (past ++ [q]) _ s2) in Hnew.
Qed.
Lemma event_following h past q d s i ev : following h past d → holds h (past ++ [q]) s →
  metadata ev = GnsEndpoint.metadata q → following h (past ++ [q]) (server_event supported ev i (with_sdk s d)).2.
Proof.
  intros Hf Hs Hm. unfold server_event. rewrite Hm. set (peer := de_peer_id (GnsEndpoint.metadata q)).
  pose proof (holds_life _ _ _ peer Hs) as Hlife. rewrite life_snoc, decide_True in Hlife by done.
  pose proof (fo_life _ _ _ Hf peer) as Hl. pose proof (fo_rising _ _ _ Hf peer) as Hr.
  pose proof (learn h past d s q) as HL. cbv zeta in HL. fold peer in HL.
  destruct (Z.eqb_spec (de_kind (GnsEndpoint.metadata q)) SE_DATAGRAM_CONNECTED) as [E|Hnc].
  { rewrite E in Hlife, HL. destruct (life_in past peer) as [[]|] eqn:El; try by destruct Hlife.
    destruct Hl as [Hn He]. cbn [snapshots with_sdk snd]. rewrite Hn. unfold with_snapshots, with_sdk. cbn [sdk snapshots echoed ponged].
    specialize (HL (<[peer:=0]> (snapshots d)) [] Hf Hs). rewrite !app_nil_r in HL. apply HL; [|constructor|done|].
    - intros p Hp. by rewrite lookup_insert_ne.
    - change (advance (Some New) SE_DATAGRAM_CONNECTED) with (Some Up). cbn. by rewrite lookup_insert_eq, He. }
  destruct (Z.eqb_spec (de_kind (GnsEndpoint.metadata q)) SE_DATAGRAM_DISCONNECTED) as [E|Hnd].
  { rewrite E in Hlife, HL. unfold with_snapshots, with_sdk. cbn [snd sdk snapshots echoed ponged].
    specialize (HL (delete peer (snapshots d)) [] Hf Hs). rewrite !app_nil_r in HL. apply HL; [|constructor|done|].
    - intros p Hp. by rewrite lookup_delete_ne.
    - rewrite lookup_delete_eq. destruct (life_in past peer) as [[]|]; [done|done|by destruct Hlife..]. }
  destruct (Z.eqb_spec (de_kind (GnsEndpoint.metadata q)) SE_DATAGRAM_MESSAGE) as [E|Hnm].
  2: { exfalso. unfold advance in Hlife. destruct (life_in past peer) as [[]|]; [|..|by destruct Hlife].
       - destruct (_ =? SE_DATAGRAM_CONNECTED) eqn:E1 in Hlife; [by apply Hnc, Z.eqb_eq|]. rewrite (proj2 (Z.eqb_neq _ _) Hnd) in Hlife. by destruct Hlife.
       - rewrite (proj2 (Z.eqb_neq _ _) Hnm), (proj2 (Z.eqb_neq _ _) Hnd) in Hlife. by destruct Hlife.
       - by destruct Hlife. }
  rewrite E. change (SE_DATAGRAM_MESSAGE =? SE_DATAGRAM_OVERFLOW) with false.
  destruct (snapshot_following h past q d s i (event_bytes ev) Hf Hs E) as [H1 H2].
  destruct (_ && _); [by apply ping_following|]. by destruct (_ =? SE_DATAGRAM_UNRELIABLE).
Qed.
Lemma turn_following h past i d : following h past d → met_ok h i →
  (server_turn supported i d).1 = Waits ∨ ∃ past', following h past' (server_turn supported i d).2.
Proof.
  intros Hf Hi. unfold server_turn. pose proof (poll_holds h past i (sdk d) (fo_holds _ _ _ Hf) Hi) as Hp.
  destruct (poll_endpoint _ _ _ _ _ _ _ _) as [[[res ev]|] s]; [|by left]. right. destruct Hp as (status & -> & Hst).
  destruct status; try done; try (exists past; by apply following_sdk).
  destruct Hst as [[Hk Hs]|(q & Hm & _ & Hs)]; [exists past|exists (past ++ [q]); by eapply event_following].
  unfold server_event. rewrite Hk. by apply following_sdk.
Qed.
Lemma waits_echoes i d peer : (server_turn supported i d).1 = Waits → echoes peer (server_turn supported i d).2 = echoes peer d.
Proof.
  unfold server_turn. destruct (poll_endpoint _ _ _ _ _ _ _ _) as [[[res ev]|] s]; [|done].
  destruct res as [st|]; [|done]. destruct st; try done; unfold server_event, answer_ping, answer_snapshot; intros Hw; exfalso; revert Hw;
    repeat case_match; done.
Qed.
Lemma serve_following h turns : Forall (met_ok h) turns → ∀ past d, following h past d →
  (∀ peer, rising 0 (echoes peer (serve supported turns d).2)) ∧
  ((serve supported turns d).1 = Waits ∨ ∃ past', following h past' (serve supported turns d).2).
Proof.
  induction 1 as [|i turns Hi _ IH]; intros past d Hf; [split; [apply Hf|right; eauto]|]. cbn [serve].
  pose proof (turn_following h past i d Hf Hi) as Ht. pose proof (λ p, waits_echoes i d p) as Hw.
  destruct (server_turn supported i d) as [t d1]; simpl in Ht, Hw.
  destruct t as [| | |e].
  2: { split; [|by left]. intros peer. cbn [snd]. rewrite Hw by done. apply Hf. }
  all: destruct Ht as [Hx|[past' Hf']]; [by discriminate Hx|].
  1: by eapply IH.
  all: split; [apply (fo_rising _ _ _ Hf')|right; by exists past'].
Qed.
(** ** The start *)
Lemma start_holds port created made d s : start_server supported port created made new_sdk = (Ok d, s) →
  ∃ h, handles s = {[endpoint := h]} ∧ following h [] d ∧ sdk d = s.
Proof.
  unfold start_server, default_options. change check_version with (@Ok Thrown unit tt). cbn [rbind]. set (options := mkDatagramOptions _ _ _ _ _ _ _ _ _ _).
  assert (c_options options) as Hc by (split; unfold is_u32, is_u64; simpl; lia).
  pose proof (construct_owned supported endpoint options created new_sdk (new_owned supported) Hc eq_refl) as Ho.
  assert (wholes (library new_sdk)) as Hn by (intros id e He; simpl in He; by apply lookup_empty_Some in He).
  pose proof (construct_whole supported endpoint options created new_sdk Hn) as Hw.
  assert (∀ x s1, construct supported endpoint options created new_sdk = (Ok x, s1) →
    ∃ h, handles s1 = {[endpoint := h]} ∧ ∀ id e, objects (library s1) !! id = Some e → delivered e = []) as Hnew.
  { intros x s1. unfold construct. change check_version with (@Ok Thrown unit tt).
    assert (∀ id e, objects (se_datagram_create supported (Some options) true created (library new_sdk)).2 !! id = Some e → delivered e = []) as Hd.
    { intros id e. unfold se_datagram_create.
      assert (objects (library new_sdk) !! id = Some e → delivered e = []) as Hempty by (intros Hx; simpl in Hx; by apply lookup_empty_Some in Hx).
      destruct (_ || _); [exact Hempty|]. destruct supported; [|exact Hempty].
      pose proof (create_objects options created (library new_sdk) id e) as Hco. destruct (create options created (library new_sdk)) as [res r].
      by intros [Hx|(i & g & ->)]%Hco; [apply Hempty|]. }
    destruct (se_datagram_create _ _ _ _ _) as [[[st e] h] r]. case_bool_decide; [|done]. intros [= _ <-]. exists h. done. }
  destruct (construct _ _ _ _ _) as [[x|e] s1]; [|done]. destruct (Hnew x s1 eq_refl) as (h & Hh & Hd). simpl in Ho, Hw. clear Hnew.
  unfold listen_on. destruct (ensure_open endpoint s1) as [h'|] eqn:Hopen; [|by destruct (destruct_object _ _ _)].
  assert (h' = h ∧ h ≠ 0) as [-> Hne].
  { unfold ensure_open in Hopen. rewrite Hh, lookup_singleton_eq in Hopen. destruct (Z.eqb_spec h 0); [done|]. by injection Hopen as <-. }
  assert (holds h [] s1) as Hs1.
  { split_and!; try done. assert (h ∈ endpoints (library s1)) as Hin.
    { apply (ow_all _ _ Ho). split; [done|]. exists endpoint. rewrite Hh. apply lookup_singleton_eq. }
    destruct (ri_registered _ (ow_inv _ _ Ho) _ Hin) as [e He]. exists e. split; [done|by eapply Hd]. }
  pose proof (listen_call_moved supported h (Some (txt "127.0.0.1")) port made _ (ow_inv _ _ Ho)) as Hm.
  pose proof (λ id, listen_call_kept whole_queue supported id h (Some (txt "127.0.0.1")) port made _ (Hw id)) as Hwr.
  pose proof (listen_call_kept (resting [] None) supported h h (Some (txt "127.0.0.1")) port made _ (holds_resting _ _ _ Hs1)) as Hr.
  destruct (se_datagram_listen _ _ _ _ _ _) as [[st e] r]. simpl in Hm, Hwr, Hr. destruct (require st e); [|done].
  intros [= <- <-]. exists h. split; [exact Hh|]. split; [|done]. split; [by apply holds_kept|done|]. intros peer. done.
Qed.
(** However the server ends, it gives back all it had. *)
Lemma destroyed_releases h past s : holds h past s → let s' := destruct_object supported endpoint s in
  endpoints (library s') = ∅ ∧ ∀ res, balance (native (library s')) res = 0.
Proof.
  intros (Ho & _ & [Hk _] & _) s'. pose proof (destruct_owned supported endpoint s Ho) as Ho'. fold s' in Ho'.
  assert (endpoints (library s') = ∅) as He.
  { apply elem_of_equiv_empty_L. intros x [_ [k Hx]]%(ow_all _ _ Ho'). unfold s', destruct_object in Hx. cbn [handles] in Hx.
    apply lookup_delete_Some in Hx as [Hne Hx]. rewrite close_handles in Hx.
    rewrite decide_False in Hx by done. rewrite Hk in Hx. by apply lookup_singleton_Some in Hx as [? _]. }
  split; [done|]. intros res. apply all_released; [apply Ho'|done].
Qed.
(** The demonstration server echoes to each peer snapshots with strictly rising numbers,
    in every sequence of polls, arrivals, losses, and answers of the library, with other
    threads at work, as its comment on old and duplicate state says: its map follows the
    peers' lives because their events come in order, so a peer that is gone leaves no
    entry and a peer that is back is a new one. Whichever way the server ends, by a stop,
    an overflow or an exception, its endpoint is destroyed and everything taken from the
    vendor library has been given back. *)
Theorem demo_snapshots_rising port created made turns d s :
  start_server supported port created made new_sdk = (Ok d, s) →
  (∀ h, open_at endpoint h s → Forall (met_ok h) turns) →
  (∀ peer, rising 0 (echoes peer (serve supported turns d).2)) ∧
  (∀ code s', server supported port created made turns new_sdk = (Some code, s') →
     endpoints (library s') = ∅ ∧ ∀ res, balance (native (library s')) res = 0).
Proof.
  intros Hstart Hturns. destruct (start_holds _ _ _ _ _ Hstart) as (h & Hh & Hf & Hsdk).
  pose proof (fo_holds _ _ _ Hf) as (_ & _ & [_ Hne] & _).
  assert (Forall (met_ok h) turns) as Hok by (apply Hturns; split; [rewrite Hh; apply lookup_singleton_eq|done]).
  destruct (serve_following h turns Hok [] d Hf) as [Hup Hend]. split; [exact Hup|].
  intros code s'. unfold server. rewrite Hstart. destruct (serve supported turns d) as [t d']. simpl in Hend.
  destruct t; try done; (destruct Hend as [Hx|[past' Hf']]; [discriminate Hx|]); intros [= _ <-];
    exact (destroyed_releases _ _ _ (fo_holds _ _ _ Hf')).
Qed.
End Demo.

(** ** At work *)
Module Snapshots.
Import GnsProperties.Duel.
Definition loopback (port : Z) : list (option Z) := Some <$> native_config
  (mkDatagramOptions sizeof_datagram_options SE_DATAGRAM_ABI_VERSION 0 64 4096 (256 * 1024) 4096 10000 (8 * 1024 * 1024) [0; 0; 0; 0]).
Definition made : Made := mkMade 5 (loopback 9000) true true.
Definition change (state : ConnState) : Change := mkChange 7 5 state true false 1000 (loopback 9000) true true true true.
(** A round that finds changes and messages, reliable or not. *)
Definition round (changes : list Change) (messages : list (bytes * bool)) : Round :=
  mkRound changes (λ i, if i =? id then (λ m : bytes * bool, Received 7 (Some m.1) m.2 true) <$> messages else []) true.
Definition quiet : Round := round [] [].
Definition met (first : Round) (answer : EResult) : Met := mkMet first [] ([], quiet) answer true.
Definition created : Created := mkCreated true 3 true [].
Definition joins : Round := round [change Connecting; change Connected]
  [(txt "SNAP 3", false); (txt "SNAP 2", false); (txt "SNAP 3", false); (txt "SNAP 8", false)].
(** Five events: the connection and four snapshots, two of them old. *)
Definition turns : list Met := [met joins EOk; met quiet EOk; met quiet EOk; met quiet EOk; met quiet EOk].
Definition started : result Thrown Server * Sdk := start_server true 9000 created made new_sdk.
End Snapshots.
Lemma demo_snapshots_rising_witness :
  ∃ d, Snapshots.started.1 = Ok d ∧ echoes Duel.peer (serve true Snapshots.turns d).2 = [3; 8] ∧
    rising 0 (echoes Duel.peer (serve true Snapshots.turns d).2) ∧
    ∀ res, balance (native (library (server true 9000 Snapshots.created Snapshots.made Snapshots.turns new_sdk).2)) res = 0.
Proof.
  destruct Snapshots.started as [[d|e] s] eqn:E; [|vm_compute in E; discriminate E].
  assert (match Snapshots.started with (Ok d, _) => echoes Duel.peer (serve true Snapshots.turns d).2 | _ => [] end = [3; 8]) as He by (vm_compute; reflexivity).
  rewrite E in He.
  assert (∀ h, open_at endpoint h s → Forall (met_ok h) Snapshots.turns) as Hok by (intros h _; repeat constructor).
  destruct (demo_snapshots_rising true 9000 Snapshots.created Snapshots.made Snapshots.turns d s E Hok) as [Hup Hend].
  exists d. split; [reflexivity|]. split; [exact He|]. split; [apply Hup|].
  assert ((server true 9000 Snapshots.created Snapshots.made Snapshots.turns new_sdk).1 = Some 0) as Hc by (vm_compute; reflexivity).
  destruct (server true 9000 Snapshots.created Snapshots.made Snapshots.turns new_sdk) as [code s']. cbn [fst] in Hc. subst code.
  apply (Hend 0 s' eq_refl).
Defined.

(** ** A peer can end the server *)
(** The server means to run until it is asked to stop. But a send to a peer that is gone
    throws, and nothing catches it before [main]: a peer that pings and closes its
    connection, so that the library finds none when it is answered, or that is dropped for
    a message it cannot send while its ping is still queued, ends the program. *)
Definition pings (rest : list Receipt) : Round :=
  mkRound [Snapshots.change Connecting; Snapshots.change Connected]
    (λ i, if i =? Duel.id then Received 7 (Some (txt "PING")) true true :: rest else []) true.
Theorem demo_server_ended_by_peer :
  (server true 9000 Snapshots.created Snapshots.made
     [Snapshots.met (pings []) EOk; Snapshots.met Snapshots.quiet ENoConnection] new_sdk).1 = Some 1 ∧
  (server true 9000 Snapshots.created Snapshots.made
     [Snapshots.met (pings [Received 7 None true true]) EOk; Snapshots.met Snapshots.quiet EOk] new_sdk).1 = Some 1 ∧
  (server true 9000 Snapshots.created Snapshots.made
     [Snapshots.met (pings []) EOk; Snapshots.met Snapshots.quiet EOk] new_sdk).1 = Some 0.
Proof. split_and!; vm_compute; reflexivity. Qed.
